(* ===== verification/_CoqProject ===== *)
-Q . S2P
Prelude.v
Rlp.v
RlpProofs.v
StateDB.v
MemStateDB.v
MemStateDBProofs.v
Machine.v
Calls.v
GasTable.v
Witness.v
Instructions.v
JumpTable.v
Interpreter.v
Wp.v
InstrSafe.v
CallSafe.v
ExecSafe.v
Fixture.v
EvmProps.v
GasSafe.v
Termination.v
FuelMono.v
GasProps.v
Words.v
Jumpdest.v
EvmSpecs.v
Transactions.v
TxProofs.v
Signer.v
ChainConfig.v
Blocks.v
BlockProofs.v
Receipts.v
Fees.v
TxState.v
Bal.v
Processor.v
ProcessorProofs.v
BlockProcessor.v
BlockProcessorProofs.v
Trie.v
TrieProofs.v
TrieMerkle.v
TxPool.v
TxPoolProofs.v
TxPoolGas.v
RawDB.v
RawDBProofs.v
BlockStore.v
BlockStoreProofs.v
Validator.v
HeaderChain.v
ValidatorProofs.v
StateCache.v
Chain.v
ForkChoice.v
ChainProofs.v
ChainInv.v
ChainSteps.v
ChainProps.v
ChainExec.v
ForkChoiceProofs.v
StateRoot.v
StateRootProofs.v
ChainMem.v
