(* ===== verification/Prelude.v ===== *)
(** * eth2030: a verification of the execution layer

    eth2030 is an Ethereum execution client in Go (src/pkg).  This development
    models the part of it that decides what a block means and which blocks make
    up the chain: the codecs of what arrives from the network, the world state
    and its commitment, the virtual machine, the execution of transactions and
    blocks, the transaction pool, the database, the block chain and its fork
    choice.  Every definition is a translation of the code it names; all of
    them can be evaluated.

    ** How the parts interact

    A block arrives as RLP bytes ([Rlp], [Blocks], [Transactions], [Receipts]).
    The block processor ([BlockProcessor]) writes the system contracts, hands
    each transaction to the transaction processor ([Processor]), credits the
    withdrawals and assembles the block access list ([Bal]).  The transaction
    processor recovers the sender ([Signer]), buys gas from the block's gas
    pool, runs the message in the EVM ([Calls], [Interpreter]) and settles.
    The fork rules come from [ChainConfig], the prices of gas from [Fees].  The
    EVM reads and writes the world through the interface [StateDB], which
    [MemStateDB] implements.

    The block chain ([Chain]) validates a block against its parent
    ([Validator]), executes it, compares the results with the header and stores
    it ([BlockStore] over [RawDB]).  It asks for states through the interface
    [ChainState]; [ChainMem] gives it the block processor, the state database
    and its root ([StateRoot] over [Trie]).  The fork choice ([ForkChoice])
    moves the head of the chain as the consensus layer says.  Transactions wait
    in the pool ([TxPool]) until a block includes them.

    ** Representation

    Go's [uint64] and [int64] are [Z] with the wrap-around written out
    ([+u], [-u], [*u], [u64], [i64]), [big.Int] is [Z], [[]byte] is [list Z],
    addresses and hashes are the numbers their bytes spell, maps are [gmap].
    Stateful code is written in a state monad whose outcomes are a value, an
    error, a run-time panic ([PStack], [PMemory], [PSlice], [PRevert]) or the
    end of the fuel ([M], [out] in [Machine]).  A nil pointer is [None]; where
    the code dereferences it, the model panics.

    ** Files and sources

    - [Prelude]: Go integers and byte strings, tactics, the hint base [godb].
    - [Rlp], [RlpProofs]: rlp/encode.go, decode.go, encoder_pool.go.
    - [StateDB]: the interface core/vm/interpreter.go demands of the state, as
      a class of operations and a class of laws; [MemStateDB],
      [MemStateDBProofs]: its implementation in core/state/memory_statedb.go,
      journal.go, access_list.go, and the proof of the laws.
    - [Machine]: core/vm/stack.go, memory.go, contract.go and the EVM object;
      [Calls]: message calls and creation (interpreter.go); [GasTable],
      [Witness]: gas_table.go, eip4762_gas.go, gas_reservoir.go,
      sstore_dim_gas.go; [Instructions]: instructions.go, eip8141_opcodes.go,
      opcode_rvcreate.go; [JumpTable]: jump_table.go, every fork;
      [Interpreter]: the run loop.
    - [Wp], [InstrSafe], [CallSafe], [ExecSafe]: a program logic over the
      monad (relations that every instruction, call and run preserves);
      [Fixture]: a small EVM for the witnesses.
    - [EvmProps], [GasSafe], [Termination], [FuelMono], [GasProps], [Words],
      [Jumpdest], [EvmSpecs]: theorems on the EVM.
    - [Transactions], [TxProofs], [Signer]: core/types/transaction.go,
      transaction_rlp.go, tx_aa.go, tx_frame.go, pq_transaction.go,
      local_tx.go, tx_multidim.go, signer.go.
    - [ChainConfig]: core/config/chain_config.go, chain_config_ext.go,
      chain_config_forks.go.
    - [Blocks], [BlockProofs]: core/types/header.go, header_rlp.go, block.go,
      block_rlp.go, withdrawal.go; [Receipts]: receipt.go, receipt_rlp.go,
      bloom.go, log.go.
    - [Fees]: core/gas/fee.go, constants.go, blob_gas.go, calldata_gas.go.
    - [TxState]: the operations of the state that transaction processing adds.
    - [Processor], [ProcessorProofs]: core/execution/processor.go from
      [applyTransactionInternal] down, core/config/message.go,
      core/gaspool/gas_pool.go, core/eips/eip7702.go, frame_execution.go.
    - [Bal]: bal/types.go, tracker.go, validator.go, block_tracker.go.
    - [BlockProcessor], [BlockProcessorProofs]: [ProcessWithBAL] and
      [ProcessRequests] of core/execution/processor.go, and the system
      contracts of core/eips (beacon_root.go, eip2935.go, eip7997.go,
      aa_entrypoint.go).
    - [Trie], [TrieProofs], [TrieMerkle]: trie/mpt/node.go, encoding.go,
      trie.go, hasher.go, decoder.go, proof.go.
    - [StateRoot], [StateRootProofs]: the roots and [Commit] of
      core/state/memory_statedb.go.
    - [TxPool], [TxPoolProofs], [TxPoolGas]: txpool/txpool.go and
      frametx/verify_simulation.go.
    - [RawDB], [RawDBProofs]: core/rawdb/memorydb.go, schema.go, accessors.go,
      history.go.
    - [BlockStore], [BlockStoreProofs]: the stored form of blocks and receipts,
      from core/chain/blockchain.go and core/types/block.go.
    - [Validator], [HeaderChain], [ValidatorProofs]: core/block/validator.go,
      core/chain/header_verification.go, headerchain.go,
      core/gas/blob_validation.go, bal/hash.go.
    - [StateCache]: core/chain/state_cache.go; [Chain]:
      core/chain/blockchain.go; [ChainMem]: its interface to the state database
      and the processor, implemented.
    - [ChainProofs] (runs, keys of the database, ancestry), [ChainInv] (the
      invariant and every operation), [ChainSteps] (reachable chains),
      [ChainProps] and [ChainExec] (theorems).
    - [ForkChoice], [ForkChoiceProofs]: core/chain/forkchoice.go.

    ** What is shown

    - Codecs: decoding inverts encoding for RLP values, all transaction types,
      headers, blocks and receipts; the RLP reader accepts canonical forms
      only; the pooled encoders agree with the reflective one; the signed bytes
      of the six types signed through [SigningHash] determine every field but
      the signature.  Local transactions encode but do not decode.
    - World state: after any sequence of operations and nested snapshots,
      reverting to a snapshot restores every account it had and what every
      getter reads, except that accounts created since may stay behind blank.
    - EVM, for all code and all forks: failed calls are undone in the same
      sense, static calls change nothing, ether is conserved, the operand
      stack stays in bounds; from Berlin to Prague every execution ends, within
      as many steps as it has gas.  Arithmetic instructions meet their specification on
      words, jumps are validated correctly, storage refunds are covered by the
      gas of the writes and of warming the slot.
    - Transactions: rejected ones change nothing but the access list, up to
      blank accounts; from Berlin to Prague gas used is bounded by the limit,
      the refund by a fifth, and, frame transactions apart, the base fee of the
      gas used is what leaves circulation, and nothing else.
    - Blocks, from Berlin to Prague and without frame transactions: receipts
      account for the gas taken from the pool and for the
      ether burned, withdrawals are the only source; access lists come out in
      the order their validator demands.
    - Prices: the base fee moves by at most an eighth, with the exceptions at
      the floor, at one wei and at odd gas limits spelled out; the exponential
      fee series ends and is monotone; skipping a block by its bloom is sound.
    - Tries: the trie refines a finite map, its root is a function of the
      content, proofs are complete, and sound up to hash collisions; the state
      root depends on the existing accounts only, not on the order in which Go
      visits its maps.
    - Pool: consecutive submissions of a sender new to the pool become pending
      in nonce order, the pending list has no gaps after a reset, the lists
      stay well formed, and for ordinary calls the gas check of the pool
      implies the one of the processor.
    - Storage: blocks and receipts that are written are read back, but for
      bodies with a local transaction, which are lost; pruning removes exactly
      the bodies and receipts below its threshold.
    - Chain: in every reachable chain blocks, parents, index and head are
      consistent; a reorganisation leaves exactly the ancestry of the new head
      in the index; without reorganisations and pruning, an accepted block
      was executed on a state of its parent with the results its header names;
      an accepted fork choice update reverts
      nothing at or below the finalized height.
    - Where the code does not do what it means to (delegation, memory offsets,
      frame transactions, recovery of senders, overlong arrays, the order of
      re-execution in a reorganisation, the canonical index after a longer side
      branch, finality that moves back, eviction that does not end, and more)
      the actual behaviour is stated and proved.

    Blocks are identified by their hash: the theorems on the chain assume a
    function from hashes to parent and number that agrees with the blocks that
    are inserted ([proper]), which holds unless two of them collide.

    ** Fuel

    [exec] takes one unit of fuel per instruction and per nested frame.  For
    metered forks the gas of the message is enough, which is proved
    ([run_terminates], [message_gas_bounded], [block_accounting]); without
    metering (before Berlin, or from Glamsterdam on, where a call can create
    gas) the theorems quantify over the fuel.  The decoders take fuel for the
    length of lists; the round trips give the amount that is enough.
    [fakeExponential] takes fuel for the terms of its series, and always has
    enough for some amount.  The walks of the chain take one unit per ancestor;
    [reorg_follows_ancestry] shows that the height of the block is enough.  The
    loop that makes room in the block cache has no fuel: where it does not end
    the model says so.

    ** What is not modelled

    Hash functions, public-key recovery for authorizations, precompiled
    contracts and the RISC-V executor are arguments, quantified in every
    theorem.  Logging, metrics, tracing, object pools, caches of hashes and
    sizes, and deep copies have no effect on what is computed.  The chain is
    modelled with calls that follow each other: its locks, and the moments
    between them, are not.  Neither are the ancient store and the state database
    over a persistent trie (gcMode), which are I/O.  Block building, the blob
    and encrypted pools, the binary trie, SSZ, consensus, networking,
    synchronisation and RPC are outside of this development. *)

From stdpp Require Export base list gmap.
From Stdlib Require Export ZArith Lia.

Declare Scope go_scope.
Delimit Scope go_scope with go.
Open Scope go_scope.
Open Scope Z_scope.

Create HintDb godb.

(** ** Machine integers

    Go's unsigned types wrap modulo their width; signed conversions
    reinterpret the low bits. *)

Definition MaxUint64 : Z := 2 ^ 64 - 1.

(** uint64 truncation: [uint64(x)] and the result of uint64 arithmetic. *)
Definition u64 (x : Z) : Z := x mod 2 ^ 64.

(** byte truncation: [byte(x)]. *)
Definition u8 (x : Z) : Z := x mod 2 ^ 8.

(** [int64(x)] (and [int(x)] on a 64-bit platform). *)
Definition i64 (x : Z) : Z :=
  let y := x mod 2 ^ 64 in if y <? 2 ^ 63 then y else y - 2 ^ 64.

Notation "a +u b" := (u64 (a + b)) (at level 50, left associativity) : go_scope.
Notation "a -u b" := (u64 (a - b)) (at level 50, left associativity) : go_scope.
Notation "a *u b" := (u64 (a * b)) (at level 40, left associativity) : go_scope.

Definition is_u64 (x : Z) : Prop := 0 <= x < 2 ^ 64.

Definition is_byte (x : Z) : Prop := 0 <= x < 256.

(** [x.IsUint64()] of a [*big.Int]. *)
Definition IsUint64 (x : Z) : bool := (0 <=? x) && (x <? 2 ^ 64).

(** [x.BitLen()] of a [*big.Int]: the bit length of the absolute value. *)
Definition BitLen (x : Z) : Z :=
  if Z.abs x =? 0 then 0 else Z.log2 (Z.abs x) + 1.

(** [x.Uint64()] of a [*big.Int]: the low 64 bits of the absolute value
    (math/big leaves the value undefined when it does not fit; this is what
    the implementation computes for a non-negative operand). *)
Definition Uint64 (x : Z) : Z := u64 x.

(** ** Byte strings

    A [[]byte] is the list of its byte values. *)

Abbreviation bytes := (list Z).

(** Big-endian value of a byte string: [new(big.Int).SetBytes(b)]. *)
Definition SetBytes (b : bytes) : Z := fold_left (fun acc x => acc * 256 + x) b 0.

(** The [n]-byte big-endian representation of the low bits of [x]. *)
Fixpoint be_bytes (n : nat) (x : Z) : bytes :=
  match n with
  | O => []
  | S m => be_bytes m (x / 256) ++ [x mod 256]
  end.

(** Number of bytes of [x.Bytes()]. *)
Definition byte_len (x : Z) : nat := Z.to_nat ((BitLen x + 7) / 8).

(** [x.Bytes()]: minimal big-endian bytes of the absolute value. *)
Definition Bytes (x : Z) : bytes := be_bytes (byte_len x) (Z.abs x).

(** Length of a byte string as a Go [int]. *)
Definition zlen {A} (l : list A) : Z := Z.of_nat (length l).

(** [make([]byte, n)]. *)
Definition zeros (n : Z) : bytes := replicate (Z.to_nat n) 0.

(** [copy(dst, src)]: the updated [dst]. *)
Definition go_copy {A} (dst src : list A) : list A :=
  take (length dst) src ++ drop (length src) dst.

(** [l[a:b]] when [0 <= a <= b <= len(l)]; [None] is the run-time panic. *)
Definition go_slice {A} (l : list A) (a b : Z) : option (list A) :=
  if (0 <=? a) && (a <=? b) && (b <=? zlen l)
  then Some (take (Z.to_nat (b - a)) (drop (Z.to_nat a) l))
  else None.

(** [copy(dst[a:], src)] for an in-range [a]. *)
Definition copy_at {A} (dst : list A) (a : Z) (src : list A) : list A :=
  take (Z.to_nat a) dst ++ go_copy (drop (Z.to_nat a) dst) src.

(** [l[i]] with a Go [int] index; [None] is the run-time panic. *)
Definition go_index {A} (l : list A) (i : Z) : option A :=
  if (0 <=? i) then l !! Z.to_nat i else None.

(** ** Tactics *)

(** Split a boolean test of the goal or of a hypothesis into the proposition
    it decides. *)
Ltac zcase :=
  match goal with
  | |- context [if ?b then _ else _] => destruct b eqn:?
  | H : context [if ?b then _ else _] |- _ => destruct b eqn:?
  end.

Ltac zbool :=
  repeat match goal with
  | H : (_ && _)%bool = true |- _ => apply andb_prop in H; destruct H
  | H : (_ && _)%bool = false |- _ => apply andb_false_iff in H
  | H : (_ || _)%bool = true |- _ => apply orb_prop in H
  | H : (_ || _)%bool = false |- _ => apply orb_false_iff in H; destruct H
  | H : negb _ = true |- _ => apply negb_true_iff in H
  | H : negb _ = false |- _ => apply negb_false_iff in H
  | H : (_ <? _) = true |- _ => apply Z.ltb_lt in H
  | H : (_ <? _) = false |- _ => apply Z.ltb_ge in H
  | H : (_ <=? _) = true |- _ => apply Z.leb_le in H
  | H : (_ <=? _) = false |- _ => apply Z.leb_gt in H
  | H : (_ =? _) = true |- _ => apply Z.eqb_eq in H
  | H : (_ =? _) = false |- _ => apply Z.eqb_neq in H
  | H : (_ >? _) = true |- _ => rewrite Z.gtb_ltb in H
  | H : (_ >? _) = false |- _ => rewrite Z.gtb_ltb in H
  | H : (_ >=? _) = true |- _ => rewrite Z.geb_leb in H
  | H : (_ >=? _) = false |- _ => rewrite Z.geb_leb in H
  end.

(** Destruct the matches of a hypothesis that equates a program to a result,
    discarding the impossible branches. *)
Ltac inv_match H :=
  repeat (match type of H with
          | context [match ?x with _ => _ end] => destruct x eqn:?; try discriminate H
          end; simplify_eq H).

(** ** Integer lemmas *)

Lemma u64_small x : is_u64 x -> u64 x = x.
Proof. intros H. apply Z.mod_small. exact H. Qed.

Lemma u64_range x : is_u64 (u64 x).
Proof. apply Z.mod_pos_bound. reflexivity. Qed.

Lemma u64_idemp x : u64 (u64 x) = u64 x.
Proof. apply u64_small, u64_range. Qed.

Lemma u8_range x : is_byte (u8 x).
Proof. apply (Z.mod_pos_bound x 256). lia. Qed.

Lemma u8_small x : is_byte x -> u8 x = x.
Proof. intros H. apply Z.mod_small. exact H. Qed.

Lemma i64_small x : 0 <= x < 2 ^ 63 -> i64 x = x.
Proof.
  intros H. unfold i64. rewrite Z.mod_small by lia.
  destruct (Z.ltb_spec x (2 ^ 63)); lia.
Qed.

Lemma i64_neg x : 2 ^ 63 <= x < 2 ^ 64 -> i64 x = x - 2 ^ 64.
Proof.
  intros H. unfold i64. rewrite Z.mod_small by lia.
  destruct (Z.ltb_spec x (2 ^ 63)); lia.
Qed.

Lemma i64_range x : - 2 ^ 63 <= i64 x < 2 ^ 63.
Proof.
  unfold i64. pose proof (Z.mod_pos_bound x (2 ^ 64)) as H.
  destruct (Z.ltb_spec (x mod 2 ^ 64) (2 ^ 63)); lia.
Qed.

Lemma IsUint64_spec x : IsUint64 x = true <-> is_u64 x.
Proof.
  unfold IsUint64, is_u64. rewrite andb_true_iff, Z.leb_le, Z.ltb_lt. lia.
Qed.

Lemma u64_nowrap_add_iff a b :
  is_u64 a -> is_u64 b -> (u64 (a + b) <? a) = false <-> a + b < 2 ^ 64.
Proof.
  unfold is_u64, u64. intros Ha Hb. rewrite Z.ltb_ge. split; intros H.
  - destruct (Z.lt_ge_cases (a + b) (2 ^ 64)); [done|].
    rewrite (Z.mod_eq (a + b)) in H by lia.
    assert ((a + b) / 2 ^ 64 = 1) as E by (symmetry; apply Z.div_unique with (a + b - 2 ^ 64); lia).
    lia.
  - rewrite Z.mod_small; lia.
Qed.

Lemma bits_above x n i : 0 <= x < 2 ^ n -> 0 <= n <= i -> Z.testbit x i = false.
Proof.
  intros Hx Hn. destruct (Z.eq_dec x 0) as [->|]; [apply Z.bits_0|].
  apply Z.bits_above_log2; [lia|].
  apply Z.log2_lt_pow2; [lia|].
  pose proof (Z.pow_le_mono_r 2 n i). lia.
Qed.

Lemma lor_shift_add v x n : 0 <= n -> 0 <= x < 2 ^ n -> Z.lor (v * 2 ^ n) x = v * 2 ^ n + x.
Proof.
  intros Hn Hx. rewrite <- Z.add_lor_land.
  assert (Z.land (v * 2 ^ n) x = 0) as ->; [|lia].
  apply Z.bits_inj'. intros i Hi. rewrite Z.land_spec, Z.bits_0.
  destruct (Z.lt_ge_cases i n).
  - by rewrite Z.mul_pow2_bits_low by lia.
  - rewrite (bits_above x n i) by lia. apply andb_false_r.
Qed.

(** ** Byte-string lemmas *)

Lemma zlen_nonneg {A} (l : list A) : 0 <= zlen l.
Proof. unfold zlen. lia. Qed.

Lemma zlen_app {A} (l k : list A) : zlen (l ++ k) = zlen l + zlen k.
Proof. unfold zlen. rewrite length_app. lia. Qed.

Lemma length_zeros n : 0 <= n -> zlen (zeros n) = n.
Proof. intros H. unfold zlen, zeros. rewrite length_replicate. lia. Qed.

Lemma zeros_bytes n : Forall is_byte (zeros n).
Proof. apply Forall_replicate. unfold is_byte. lia. Qed.

Lemma length_be_bytes n x : length (be_bytes n x) = n.
Proof.
  revert x; induction n as [|n IH]; intros x; simpl; [done|].
  rewrite length_app, IH. simpl. lia.
Qed.

Lemma be_bytes_bytes n x : Forall is_byte (be_bytes n x).
Proof.
  revert x; induction n as [|n IH]; intros x; simpl; [constructor|].
  apply Forall_app. split; [apply IH|].
  constructor; [apply (u8_range x)|constructor].
Qed.

Lemma fold_be_acc b acc :
  fold_left (fun a x => a * 256 + x) b acc
  = acc * 256 ^ zlen b + SetBytes b.
Proof.
  unfold SetBytes. revert acc.
  induction b as [|x b IH]; intros acc; cbn [fold_left].
  - unfold zlen. simpl. lia.
  - rewrite IH, (IH (0 * 256 + x)). unfold zlen. simpl length.
    rewrite Nat2Z.inj_succ, Z.pow_succ_r by lia. lia.
Qed.

Lemma SetBytes_app a b : SetBytes (a ++ b) = SetBytes a * 256 ^ zlen b + SetBytes b.
Proof. unfold SetBytes at 1. rewrite fold_left_app. apply fold_be_acc. Qed.

Lemma SetBytes_snoc a x : SetBytes (a ++ [x]) = SetBytes a * 256 + x.
Proof. rewrite SetBytes_app. unfold zlen, SetBytes. simpl. lia. Qed.

Lemma SetBytes_cons x b : SetBytes (x :: b) = x * 256 ^ zlen b + SetBytes b.
Proof.
  change (x :: b) with ([x] ++ b). rewrite SetBytes_app.
  unfold SetBytes at 1. simpl. lia.
Qed.

Lemma SetBytes_range b : Forall is_byte b -> 0 <= SetBytes b < 256 ^ zlen b.
Proof.
  induction b as [|x b IH]; intros H.
  - unfold SetBytes, zlen. simpl. lia.
  - inversion H as [|? ? Hx Hb]; subst. specialize (IH Hb).
    rewrite SetBytes_cons. unfold zlen in *. simpl length.
    rewrite Nat2Z.inj_succ, Z.pow_succ_r by lia.
    unfold is_byte in Hx. nia.
Qed.

Lemma SetBytes_be_bytes n x : SetBytes (be_bytes n x) = x mod 256 ^ Z.of_nat n.
Proof.
  revert x; induction n as [|n IH]; intros x.
  - simpl. rewrite Z.mod_1_r. reflexivity.
  - cbn [be_bytes]. rewrite SetBytes_snoc, IH.
    rewrite Nat2Z.inj_succ, Z.pow_succ_r by lia.
    rewrite (Z.mul_comm 256). rewrite (Z.mul_comm (256 ^ _) 256).
    rewrite Z.rem_mul_r by (try lia; apply Z.pow_nonzero; lia). lia.
Qed.

Lemma SetBytes_be_bytes_small n x :
  0 <= x < 256 ^ Z.of_nat n -> SetBytes (be_bytes n x) = x.
Proof. intros H. rewrite SetBytes_be_bytes. by apply Z.mod_small. Qed.

Lemma be_bytes_SetBytes b : Forall is_byte b -> be_bytes (length b) (SetBytes b) = b.
Proof.
  induction b as [|x b IH] using rev_ind; intros H; [done|].
  apply Forall_app in H as [Hb Hx]. inversion Hx as [|? ? Hx' _]; subst.
  rewrite length_app, Nat.add_comm. simpl. rewrite SetBytes_snoc.
  unfold is_byte in Hx'.
  rewrite Z.div_add_l, Z.div_small, Z.add_0_r by lia.
  rewrite IH by done. f_equal. f_equal.
  rewrite Z.add_comm, Z.mod_add, Z.mod_small by lia. done.
Qed.

Lemma SetBytes_inj a b :
  Forall is_byte a -> Forall is_byte b -> length a = length b ->
  SetBytes a = SetBytes b -> a = b.
Proof.
  intros Ha Hb Hl E.
  rewrite <- (be_bytes_SetBytes a), <- (be_bytes_SetBytes b), Hl, E by done. done.
Qed.

Lemma SetBytes_zeros n : SetBytes (zeros n) = 0.
Proof.
  unfold zeros. induction (Z.to_nat n) as [|k IH]; [done|].
  simpl replicate. rewrite SetBytes_cons, IH. lia.
Qed.

Lemma BitLen_nonneg x : 0 <= BitLen x.
Proof.
  unfold BitLen. destruct (Z.eqb_spec (Z.abs x) 0); [lia|].
  pose proof (Z.log2_nonneg (Z.abs x)). lia.
Qed.

Lemma BitLen_upper x : Z.abs x < 2 ^ BitLen x.
Proof.
  unfold BitLen. destruct (Z.eqb_spec (Z.abs x) 0) as [E|E].
  - rewrite E. reflexivity.
  - pose proof (Z.log2_spec (Z.abs x) ltac:(lia)). rewrite Z.add_1_r. lia.
Qed.

Lemma BitLen_le x n : 0 <= n -> Z.abs x < 2 ^ n -> BitLen x <= n.
Proof.
  intros Hn H. unfold BitLen. destruct (Z.eqb_spec (Z.abs x) 0) as [E|E]; [lia|].
  apply Z.log2_lt_pow2 in H; lia.
Qed.

Lemma BitLen_lower x : x <> 0 -> 2 ^ (BitLen x - 1) <= Z.abs x.
Proof.
  intros Hx. unfold BitLen. destruct (Z.eqb_spec (Z.abs x) 0) as [E|E]; [lia|].
  replace (Z.log2 (Z.abs x) + 1 - 1) with (Z.log2 (Z.abs x)) by lia.
  apply Z.log2_spec. lia.
Qed.

Lemma byte_len_upper x : Z.abs x < 256 ^ Z.of_nat (byte_len x).
Proof.
  unfold byte_len. pose proof (BitLen_nonneg x). pose proof (BitLen_upper x) as H1.
  rewrite Z2Nat.id by (apply Z.div_pos; lia).
  eapply Z.lt_le_trans; [exact H1|].
  change 256 with (2 ^ 8). rewrite <- Z.pow_mul_r by (try lia; apply Z.div_pos; lia).
  apply Z.pow_le_mono_r; [lia|].
  pose proof (Z.div_mod (BitLen x + 7) 8). pose proof (Z.mod_pos_bound (BitLen x + 7) 8). lia.
Qed.

Lemma byte_len_le x n : Z.abs x < 256 ^ Z.of_nat n -> (byte_len x <= n)%nat.
Proof.
  intros H. unfold byte_len.
  assert (BitLen x <= 8 * Z.of_nat n) as Hb.
  { apply BitLen_le; [lia|]. rewrite Z.pow_mul_r by lia. done. }
  assert ((BitLen x + 7) / 8 <= Z.of_nat n).
  { apply Z.lt_succ_r, Z.div_lt_upper_bound; lia. }
  pose proof (BitLen_nonneg x). lia.
Qed.

Lemma SetBytes_Bytes x : SetBytes (Bytes x) = Z.abs x.
Proof. apply SetBytes_be_bytes_small. split; [lia|apply byte_len_upper]. Qed.

Lemma length_Bytes x : length (Bytes x) = byte_len x.
Proof. apply length_be_bytes. Qed.

Lemma Bytes_bytes x : Forall is_byte (Bytes x).
Proof. apply be_bytes_bytes. Qed.

(** [x.Bytes()] has no leading zero byte. *)
Lemma Bytes_head x b r : Bytes x = b :: r -> b <> 0.
Proof.
  intros E ->. pose proof (SetBytes_Bytes x) as H. rewrite E, SetBytes_cons in H.
  pose proof (Bytes_bytes x) as HB. rewrite E in HB. inversion HB as [|? ? _ Hr]; subst.
  apply SetBytes_range in Hr. rewrite Z.mul_0_l, Z.add_0_l in H.
  assert (length (Bytes x) = S (length r)) as HL by (rewrite E; done).
  rewrite length_Bytes in HL.
  assert (byte_len x <= length r)%nat; [|lia].
  apply byte_len_le. unfold zlen in Hr. lia.
Qed.

Lemma Bytes_zero : Bytes 0 = [].
Proof. reflexivity. Qed.

Lemma Bytes_unique x b :
  0 <= x -> Forall is_byte b -> SetBytes b = x ->
  (forall h t, b = h :: t -> h <> 0) -> Bytes x = b.
Proof.
  intros Hx Hb E Hh. destruct b as [|h t].
  - unfold SetBytes in E. simpl in E. subst. done.
  - specialize (Hh h t eq_refl).
    inversion Hb as [|? ? H1 H2]; subst.
    assert (byte_len (SetBytes (h :: t)) = length (h :: t)) as HL.
    { pose proof (SetBytes_range _ Hb) as HR.
      apply Nat.le_antisymm.
      - apply byte_len_le. unfold zlen in HR. lia.
      - pose proof (byte_len_upper (SetBytes (h :: t))) as HU.
        rewrite Z.abs_eq in HU by lia. rewrite SetBytes_cons in HU at 1.
        pose proof (SetBytes_range _ H2). unfold is_byte in H1.
        destruct (Nat.le_gt_cases (length (h :: t)) (byte_len (SetBytes (h :: t)))) as [|HL]; [done|].
        exfalso. simpl in HL.
        assert (256 ^ Z.of_nat (byte_len (SetBytes (h :: t))) <= 256 ^ zlen t)
          by (apply Z.pow_le_mono_r; unfold zlen; lia).
        nia. }
    unfold Bytes. rewrite HL, Z.abs_eq by lia. by apply be_bytes_SetBytes.
Qed.

Lemma length_go_copy {A} (dst src : list A) : length (go_copy dst src) = length dst.
Proof. unfold go_copy. rewrite length_app, length_take, length_drop. lia. Qed.

Lemma go_copy_Forall {A} (P : A -> Prop) dst src :
  Forall P dst -> Forall P src -> Forall P (go_copy dst src).
Proof.
  intros H1 H2. apply Forall_app. split; [by apply Forall_take|by apply Forall_drop].
Qed.

Lemma length_copy_at {A} (dst : list A) a src : length (copy_at dst a src) = length dst.
Proof.
  unfold copy_at. rewrite length_app, length_go_copy, length_take, length_drop. lia.
Qed.

Lemma copy_at_Forall {A} (P : A -> Prop) dst a src :
  Forall P dst -> Forall P src -> Forall P (copy_at dst a src).
Proof.
  intros H1 H2. apply Forall_app.
  split; [by apply Forall_take|apply go_copy_Forall; [by apply Forall_drop|done]].
Qed.

Lemma go_slice_Some {A} (l : list A) a b :
  0 <= a <= b -> b <= zlen l ->
  go_slice l a b = Some (take (Z.to_nat (b - a)) (drop (Z.to_nat a) l)).
Proof.
  intros H1 H2. unfold go_slice.
  rewrite (proj2 (Z.leb_le 0 a)), (proj2 (Z.leb_le a b)), (proj2 (Z.leb_le b (zlen l))) by lia.
  done.
Qed.

Lemma go_slice_length {A} (l : list A) a b r : go_slice l a b = Some r -> zlen r = b - a.
Proof.
  unfold go_slice, zlen. intros H. zcase; [|done]. zbool. simplify_eq.
  rewrite length_take, length_drop. unfold zlen in *. lia.
Qed.

Lemma go_slice_Forall {A} (P : A -> Prop) (l : list A) a b r :
  go_slice l a b = Some r -> Forall P l -> Forall P r.
Proof.
  unfold go_slice. intros H HF. zcase; [|done]. simplify_eq.
  by apply Forall_take, Forall_drop.
Qed.

Lemma go_index_lt {A} (l : list A) i x : go_index l i = Some x -> 0 <= i < zlen l.
Proof.
  unfold go_index, zlen. zcase; [|done]. intros H%lookup_lt_Some. zbool. lia.
Qed.

Lemma go_index_is_Some {A} (l : list A) i : 0 <= i < zlen l -> exists x, go_index l i = Some x.
Proof.
  unfold go_index, zlen. intros H. destruct (Z.leb_spec 0 i); [|lia].
  apply lookup_lt_is_Some. lia.
Qed.

#[export] Hint Resolve u64_range u8_range zeros_bytes be_bytes_bytes Bytes_bytes
  zlen_nonneg go_copy_Forall copy_at_Forall : godb.
