(* ===== verification/Rlp.v ===== *)
(** * Rlp: the RLP codec of pkg/rlp

    [encode.go] (reflective encoder), [encoder_pool.go] (reflection-free
    encoders) and [decode.go] (the [Stream] reader and the reflective
    decoder).  A Go value that the encoder meets through [reflect] is a
    [gval], the type the decoder fills is a [gty].  The decoder is a state
    monad over [Stream] whose results separate errors, run-time panics and
    exhausted fuel. *)

From S2P Require Import Prelude.

#[local] Set Warnings "-register-all".

(** ** Encoder (encode.go) *)

(** rlp/rlperrors, plus the two io errors the reader returns. *)
Inductive rlp_error :=
  | EOF
  | ErrUnexpectedEOF
  | ErrExpectedString
  | ErrExpectedList
  | ErrCanonSize
  | ErrEOL
  | ErrCanonInt
  | ErrNonCanonicalSize
  | ErrUint64Range
  | ErrValueTooLarge.

(** The values [encodeValue] distinguishes by [reflect.Kind].
    [GNil] is a nil pointer or interface, [GInvalid] the zero
    [reflect.Value] (what [reflect.ValueOf(nil)] returns), [GBig a z] a
    [big.Int] that is addressable or not, [GOther] any other kind. *)
Inductive gval :=
  | GNil
  | GInvalid
  | GPtr (v : gval)
  | GBool (b : bool)
  | GUint (u : Z)
  | GInt (i : Z)
  | GBig (addressable : bool) (z : Z)
  | GString (s : bytes)
  | GBytes (b : bytes)
  | GByteArray (b : bytes)
  | GSlice (l : list gval)
  | GArray (l : list gval)
  | GStruct (fields : list (bool * gval))
  | GOther.

Inductive eres := EOk (b : bytes) | EErr (e : rlp_error) | EPanic.

Definition putUintBigEndian (u : Z) : bytes :=
  if u <? 2 ^ 8 then [u8 u]
  else if u <? 2 ^ 16 then [u8 (Z.shiftr u 8); u8 u]
  else if u <? 2 ^ 24 then [u8 (Z.shiftr u 16); u8 (Z.shiftr u 8); u8 u]
  else if u <? 2 ^ 32 then
    [u8 (Z.shiftr u 24); u8 (Z.shiftr u 16); u8 (Z.shiftr u 8); u8 u]
  else if u <? 2 ^ 40 then
    [u8 (Z.shiftr u 32); u8 (Z.shiftr u 24); u8 (Z.shiftr u 16);
     u8 (Z.shiftr u 8); u8 u]
  else if u <? 2 ^ 48 then
    [u8 (Z.shiftr u 40); u8 (Z.shiftr u 32); u8 (Z.shiftr u 24);
     u8 (Z.shiftr u 16); u8 (Z.shiftr u 8); u8 u]
  else if u <? 2 ^ 56 then
    [u8 (Z.shiftr u 48); u8 (Z.shiftr u 40); u8 (Z.shiftr u 32);
     u8 (Z.shiftr u 24); u8 (Z.shiftr u 16); u8 (Z.shiftr u 8); u8 u]
  else
    [u8 (Z.shiftr u 56); u8 (Z.shiftr u 48); u8 (Z.shiftr u 40);
     u8 (Z.shiftr u 32); u8 (Z.shiftr u 24); u8 (Z.shiftr u 16);
     u8 (Z.shiftr u 8); u8 u].

Definition encodeString (data : bytes) : bytes :=
  let n := zlen data in
  match data with
  | [x] => if x <=? 127 then data else u8 (128 + u8 n) :: data
  | _ =>
      if n <=? 55 then u8 (128 + u8 n) :: data
      else
        let lenBytes := putUintBigEndian (u64 n) in
        u8 (183 + u8 (zlen lenBytes)) :: lenBytes ++ data
  end.

Definition encodeUint (u : Z) : bytes :=
  if u =? 0 then [128]
  else if u <? 128 then [u8 u]
  else encodeString (putUintBigEndian u).

Definition encodeBigInt (i : Z) : bytes :=
  if Z.sgn i =? 0 then [128] else encodeString (Bytes i).

Definition wrapList (payload : bytes) : bytes :=
  let n := zlen payload in
  if n <=? 55 then u8 (192 + u8 n) :: payload
  else
    let lenBytes := putUintBigEndian (u64 n) in
    u8 (247 + u8 (zlen lenBytes)) :: lenBytes ++ payload.

Definition WrapList (payload : bytes) : bytes := wrapList payload.

(** [payload = append(payload, enc...)] over the elements, stopping at the
    first error. *)
Fixpoint concat_enc (l : list eres) : eres :=
  match l with
  | [] => EOk []
  | EOk b :: l' =>
      match concat_enc l' with
      | EOk p => EOk (b ++ p)
      | r => r
      end
  | r :: _ => r
  end.

Definition map_eres (f : bytes -> bytes) (r : eres) : eres :=
  match r with EOk b => EOk (f b) | _ => r end.

(** [encodeValue]; [encodeList] and [encodeStruct] are its two list cases. *)
Fixpoint encodeValue (v : gval) : eres :=
  match v with
  | GNil => EOk [128]
  | GPtr v' => encodeValue v'
  | GInvalid => EPanic
  | GBig addressable z => if addressable then EOk (encodeBigInt z) else EPanic
  | GBool b => EOk (if b then [1] else [128])
  | GUint u => EOk (encodeUint u)
  | GInt i => EOk (encodeUint (u64 i))
  | GString s => EOk (encodeString s)
  | GBytes b => EOk (encodeString b)
  | GByteArray b => EOk (encodeString b)
  | GSlice l => map_eres wrapList (concat_enc (map encodeValue l))
  | GArray l => map_eres wrapList (concat_enc (map encodeValue l))
  | GStruct fs =>
      map_eres wrapList
        (concat_enc (map (fun f => if (f : bool * gval).1 then encodeValue f.2 else EOk []) fs))
  | GOther => EErr ErrValueTooLarge
  end.

Definition EncodeToBytes (v : gval) : eres := encodeValue v.

(** ** Reflection-free encoders (encoder_pool.go) *)

(** [binary.BigEndian.PutUint64] followed by the loop that drops leading
    zero bytes. *)
Fixpoint strip_zeros (b : bytes) : bytes :=
  match b with
  | x :: ((_ :: _) as r) => if x =? 0 then strip_zeros r else b
  | _ => b
  end.

Definition putUintBE (u : Z) : bytes := strip_zeros (be_bytes 8 u).

Definition EncodeUint64 (v : Z) : bytes :=
  if v =? 0 then [128]
  else if v <? 128 then [u8 v]
  else
    let b := putUintBE v in u8 (128 + u8 (zlen b)) :: b.

(** [EncoderPool.EncodeBatch]: the items' encodings, concatenated in the
    pooled buffer and wrapped as one list (the metrics counters are not
    modelled). *)
Definition EncodeBatch (items : list gval) : eres :=
  map_eres WrapList (concat_enc (map EncodeToBytes items)).

Definition EncodeBytes32 (data : bytes) : bytes := 160 :: data.

Definition EncodeBytes20 (data : bytes) : bytes := 148 :: data.

Definition EncodeBool (v : bool) : bytes := if v then [1] else [128].

Definition uintByteLen (u : Z) : Z :=
  if u <? 2 ^ 8 then 1
  else if u <? 2 ^ 16 then 2
  else if u <? 2 ^ 24 then 3
  else if u <? 2 ^ 32 then 4
  else if u <? 2 ^ 40 then 5
  else if u <? 2 ^ 48 then 6
  else if u <? 2 ^ 56 then 7
  else 8.

Definition EstimateListSize (payloadSize : Z) : Z :=
  if payloadSize <=? 55 then 1 + payloadSize
  else 1 + uintByteLen (u64 payloadSize) + payloadSize.

Definition EstimateStringSize (dataLen : Z) : Z :=
  if dataLen =? 1 then 1
  else if dataLen <=? 55 then 1 + dataLen
  else 1 + uintByteLen (u64 dataLen) + dataLen.

Definition AppendUint64 (dst : bytes) (v : Z) : bytes :=
  if v =? 0 then dst ++ [128]
  else if v <? 128 then dst ++ [u8 v]
  else
    let b := putUintBE v in
    (dst ++ [u8 (128 + u8 (zlen b))]) ++ b.

Definition AppendBytes (dst data : bytes) : bytes :=
  let n := zlen data in
  match data with
  | [x] => if x <=? 127 then dst ++ [x] else (dst ++ [u8 (128 + u8 n)]) ++ data
  | _ =>
      if n <=? 55 then (dst ++ [u8 (128 + u8 n)]) ++ data
      else
        let lb := putUintBE (u64 n) in
        ((dst ++ [u8 (183 + u8 (zlen lb))]) ++ lb) ++ data
  end.

Definition AppendListHeader (dst : bytes) (payloadSize : Z) : bytes :=
  if payloadSize <=? 55 then dst ++ [u8 (192 + u8 payloadSize)]
  else
    let lb := putUintBE (u64 payloadSize) in
    (dst ++ [u8 (247 + u8 (zlen lb))]) ++ lb.

(** ** Stream (decode.go) *)

Inductive Kind := KByte | KString | KList.

(** [data], [pos] and the stack of enclosing list ends (innermost first). *)
Record Stream := mkStream { data : bytes; pos : Z; stack : list Z }.

Inductive sres (A : Type) :=
  | SOk (a : A) (s : Stream)
  | SErr (e : rlp_error) (s : Stream)
  | SPanic
  | SFuel.
Arguments SOk {A} _ _.
Arguments SErr {A} _ _.
Arguments SPanic {A}.
Arguments SFuel {A}.

Definition D (A : Type) : Type := Stream -> sres A.

Definition dret {A} (a : A) : D A := fun s => SOk a s.
Definition derr {A} (e : rlp_error) : D A := fun s => SErr e s.
Definition dpanic {A} : D A := fun _ => SPanic.
Definition dbind {A B} (m : D A) (k : A -> D B) : D B := fun s =>
  match m s with
  | SOk a s' => k a s'
  | SErr e s' => SErr e s'
  | SPanic => SPanic
  | SFuel => SFuel
  end.

Notation "x <~ m ;; k" := (dbind m (fun x => k))
  (at level 100, m at next level, right associativity) : go_scope.

Definition newByteStream (b : bytes) : Stream := mkStream b 0 [].

Definition set_pos (p : Z) (s : Stream) : Stream := mkStream (data s) p (stack s).

Definition limit (s : Stream) : Z :=
  match stack s with
  | e :: _ => e
  | [] => zlen (data s)
  end.

Definition readBigEndian (b : bytes) : Z :=
  fold_left (fun val x => Z.lor (u64 (Z.shiftl val 8)) x) b 0.

(** [payload = s.data[start:end]; s.pos = end] *)
Definition take_item {A} (start end_ : Z) (k : bytes -> A) : D A := fun s =>
  match go_slice (data s) start end_ with
  | Some payload => SOk (k payload) (set_pos end_ s)
  | None => SPanic
  end.

(** The short form of a string or list: the length is in the prefix. *)
Definition read_short (kind : Kind) (size : Z) : D (Kind * bytes * Z) := fun s =>
  let start := pos s + 1 in
  let end_ := start + size in
  if end_ >? limit s then SErr ErrUnexpectedEOF s
  else
    match kind, go_index (data s) start with
    | KString, None => if size =? 1 then SPanic else take_item start end_ (fun p => (kind, p, 1 + size)) s
    | KString, Some x =>
        if (size =? 1) && (x <=? 127) then SErr ErrCanonSize s
        else take_item start end_ (fun p => (kind, p, 1 + size)) s
    | _, _ => take_item start end_ (fun p => (kind, p, 1 + size)) s
    end.

(** The long form: [lenOfLen] big-endian length bytes follow the prefix.
    [int(readBigEndian(..))] and [start + size] are int64 computations. *)
Definition read_long (kind : Kind) (lenOfLen : Z) : D (Kind * bytes * Z) := fun s =>
  if pos s + 1 + lenOfLen >? limit s then SErr ErrUnexpectedEOF s
  else
    match go_slice (data s) (pos s + 1) (pos s + 1 + lenOfLen) with
    | None => SPanic
    | Some sizeBytes =>
        match sizeBytes with
        | 0 :: _ => SErr ErrCanonInt s
        | _ =>
            let size := i64 (readBigEndian sizeBytes) in
            if size <=? 55 then SErr ErrNonCanonicalSize s
            else
              let start := pos s + 1 + lenOfLen in
              let end_ := i64 (start + size) in
              if end_ >? limit s then SErr ErrUnexpectedEOF s
              else take_item start end_ (fun p => (kind, p, i64 (1 + lenOfLen + size))) s
        end
    end.

Definition readItem : D (Kind * bytes * Z) := fun s =>
  if pos s >=? limit s then SErr EOF s
  else
    match go_index (data s) (pos s) with
    | None => SPanic
    | Some prefix =>
        if prefix <=? 127 then
          take_item (pos s) (pos s + 1) (fun p => (KByte, p, 1)) s
        else if prefix <=? 183 then read_short KString (prefix - 128) s
        else if prefix <=? 191 then read_long KString (prefix - 183) s
        else if prefix <=? 247 then read_short KList (prefix - 192) s
        else read_long KList (prefix - 247) s
    end.

(** [Stream.Kind]: the kind and size of the next value, nothing consumed. *)
Definition stream_Kind : D (Kind * Z) := fun s =>
  if pos s >=? limit s then SErr EOF s
  else
    match go_index (data s) (pos s) with
    | None => SPanic
    | Some prefix =>
        let long (kind : Kind) (lenOfLen : Z) :=
          if pos s + 1 + lenOfLen >? limit s then SErr ErrUnexpectedEOF s
          else
            match go_slice (data s) (pos s + 1) (pos s + 1 + lenOfLen) with
            | None => SPanic
            | Some b => SOk (kind, readBigEndian b) s
            end in
        if prefix <=? 127 then SOk (KByte, 1) s
        else if prefix <=? 183 then SOk (KString, prefix - 128) s
        else if prefix <=? 191 then long KString (prefix - 183)
        else if prefix <=? 247 then SOk (KList, prefix - 192) s
        else long KList (prefix - 247)
    end.

(** [Stream.Bytes] *)
Definition stream_Bytes : D bytes :=
  r <~ readItem ;;
  let '(kind, payload, _) := r in
  match kind with
  | KByte | KString => dret payload
  | KList => derr ErrExpectedString
  end.

(** [Stream.List] *)
Definition stream_List : D Z := fun s =>
  let enter (payloadStart payloadEnd : Z) :=
    if payloadEnd >? limit s then SErr ErrUnexpectedEOF s
    else SOk (u64 (payloadEnd - payloadStart))
           (mkStream (data s) payloadStart (payloadEnd :: stack s)) in
  if pos s >=? limit s then SErr EOF s
  else
    match go_index (data s) (pos s) with
    | None => SPanic
    | Some prefix =>
        if (prefix >=? 192) && (prefix <=? 247) then
          enter (pos s + 1) (pos s + 1 + (prefix - 192))
        else if prefix >? 247 then
          let lenOfLen := prefix - 247 in
          if pos s + 1 + lenOfLen >? limit s then SErr ErrUnexpectedEOF s
          else
            match go_slice (data s) (pos s + 1) (pos s + 1 + lenOfLen) with
            | None => SPanic
            | Some sizeBytes =>
                match sizeBytes with
                | 0 :: _ => SErr ErrCanonInt s
                | _ =>
                    let size := i64 (readBigEndian sizeBytes) in
                    if size <=? 55 then SErr ErrNonCanonicalSize s
                    else enter (pos s + 1 + lenOfLen) (i64 (pos s + 1 + lenOfLen + size))
                end
            end
        else SErr ErrExpectedList s
    end.

Definition AtListEnd (s : Stream) : bool :=
  match stack s with
  | [] => pos s >=? zlen (data s)
  | e :: _ => pos s >=? e
  end.

(** [Stream.ListEnd] *)
Definition ListEnd : D unit := fun s =>
  match stack s with
  | [] => SErr ErrExpectedList s
  | e :: st => if negb (pos s =? e) then SErr ErrEOL s else SOk tt (mkStream (data s) (pos s) st)
  end.

(** [Stream.Uint64] *)
Definition stream_Uint64 : D Z :=
  b <~ stream_Bytes ;;
  if zlen b =? 0 then dret 0
  else if zlen b >? 8 then derr ErrUint64Range
  else
    match b with
    | 0 :: _ :: _ => derr ErrCanonInt
    | _ => dret (readBigEndian b)
    end.

(** [Stream.BigInt] *)
Definition stream_BigInt : D Z :=
  b <~ stream_Bytes ;;
  match b with
  | 0 :: _ :: _ => derr ErrCanonInt
  | _ => dret (SetBytes b)
  end.

(** [Stream.RawItem] *)
Definition RawItem : D bytes := fun s =>
  let finish (end_ : Z) :=
    if end_ >? limit s then SErr ErrUnexpectedEOF s
    else
      match go_slice (data s) (pos s) end_ with
      | Some raw => SOk raw (set_pos end_ s)
      | None => SPanic
      end in
  let long (lenOfLen : Z) :=
    if pos s + 1 + lenOfLen >? limit s then SErr ErrUnexpectedEOF s
    else
      match go_slice (data s) (pos s + 1) (pos s + 1 + lenOfLen) with
      | None => SPanic
      | Some b => finish (i64 (pos s + 1 + lenOfLen + i64 (readBigEndian b)))
      end in
  if pos s >=? limit s then SErr EOF s
  else
    match go_index (data s) (pos s) with
    | None => SPanic
    | Some prefix =>
        if prefix <=? 127 then finish (pos s + 1)
        else if prefix <=? 183 then finish (pos s + 1 + (prefix - 128))
        else if prefix <=? 191 then long (prefix - 183)
        else if prefix <=? 247 then finish (pos s + 1 + (prefix - 192))
        else long (prefix - 247)
    end.

(** ** Reflective decoder *)

(** The types [decodeInto] distinguishes. *)
Inductive gty :=
  | TBool
  | TUint (bits : Z)
  | TInt (bits : Z)
  | TBig
  | TString
  | TBytes
  | TByteArray (n : nat)
  | TSlice (t : gty)
  | TArray (n : nat) (t : gty)
  | TStruct (fields : list (bool * gty))
  | TPtr (t : gty)
  | TOther.

(** The zero value of a type, what [reflect.New] allocates. *)
Fixpoint zero_val (t : gty) : gval :=
  match t with
  | TBool => GBool false
  | TUint _ => GUint 0
  | TInt _ => GInt 0
  | TBig => GBig true 0
  | TString => GString []
  | TBytes => GBytes []
  | TByteArray n => GByteArray (replicate n 0)
  | TSlice _ => GSlice []
  | TArray n t' => GArray (replicate n (zero_val t'))
  | TStruct fs => GStruct (map (fun f => ((f : bool * gty).1, zero_val f.2)) fs)
  | TPtr _ => GNil
  | TOther => GOther
  end.

(** [v.SetInt(int64(u))] on a field of [bits] bits. *)
Definition trunc_int (bits u : Z) : Z :=
  let y := u mod 2 ^ bits in if y <? 2 ^ (bits - 1) then y else y - 2 ^ bits.

Section DecodeLoops.

Variable dec : gty -> gval -> D gval.

(** The loop of [decodeList] on a slice, at index [i] of the slice built so
    far; [S lf] bounds the iterations. *)
Fixpoint slice_loop (lf : nat) (t : gty) (i : nat) (vs : list gval) : D (list gval) :=
  fun s =>
    match lf with
    | O => SFuel
    | S lf' =>
        match stack s with
        | [] => SPanic
        | e :: _ =>
            if pos s <? e then
              let vs1 := if (i <? length vs)%nat then vs else vs ++ [zero_val t] in
              match vs1 !! i with
              | Some old =>
                  match dec t old s with
                  | SOk v s' => slice_loop lf' t (S i) (<[i := v]> vs1) s'
                  | SErr err s' => SErr err s'
                  | SPanic => SPanic
                  | SFuel => SFuel
                  end
              | None => SPanic
              end
            else SOk vs s
        end
    end.

(** The same loop on an array: it cannot grow, and once [i] reaches its
    length nothing consumes input any more. *)
Fixpoint array_loop (lf : nat) (t : gty) (i : nat) (vs : list gval) : D (list gval) :=
  fun s =>
    match lf with
    | O => SFuel
    | S lf' =>
        match stack s with
        | [] => SPanic
        | e :: _ =>
            if pos s <? e then
              match vs !! i with
              | Some old =>
                  match dec t old s with
                  | SOk v s' => array_loop lf' t (S i) (<[i := v]> vs) s'
                  | SErr err s' => SErr err s'
                  | SPanic => SPanic
                  | SFuel => SFuel
                  end
              | None => array_loop lf' t (S i) vs s
              end
            else SOk vs s
        end
    end.

(** The field loop of [decodeStruct]. *)
Fixpoint struct_loop (ts : list (bool * gty)) (vs : list (bool * gval)) : D (list (bool * gval)) :=
  match ts, vs with
  | (true, t) :: ts', (ex, old) :: vs' =>
      v <~ dec t old ;;
      r <~ struct_loop ts' vs' ;;
      dret ((ex, v) :: r)
  | (false, _) :: ts', fv :: vs' =>
      r <~ struct_loop ts' vs' ;;
      dret (fv :: r)
  | _, _ => dret []
  end.

End DecodeLoops.

(** Does a pointer to this type treat 0x80 as the nil marker? *)
Definition nil_marker_type (t : gty) : bool :=
  match t with
  | TArray _ _ | TStruct _ => true
  | _ => false
  end.

(** [decodeInto(v)]: decode the next item into [old], a value of type [t]. *)
Fixpoint decodeInto (fuel : nat) (t : gty) (old : gval) {struct fuel} : D gval :=
  fun s =>
    match fuel with
    | O => SFuel
    | S n =>
        match t with
        | TBig => (bi <~ stream_BigInt ;; dret (GBig true bi)) s
        | TPtr t' =>
            let into_elem :=
              let inner := match old with GPtr v => v | _ => zero_val t' end in
              (v <~ decodeInto n t' inner ;; dret (GPtr v)) in
            if nil_marker_type t' then
              match stream_Kind s with
              | SOk (KString, 0) _ => SOk old (set_pos (pos s + 1) s)
              | SPanic => SPanic
              | _ => into_elem s
              end
            else into_elem s
        | TBool =>
            (b <~ stream_Bytes ;;
             match b with
             | [] => dret (GBool false)
             | [1] => dret (GBool true)
             | [0] => dret (GBool false)
             | _ => derr ErrCanonInt
             end) s
        | TUint bits => (u <~ stream_Uint64 ;; dret (GUint (u mod 2 ^ bits))) s
        | TInt bits => (u <~ stream_Uint64 ;; dret (GInt (trunc_int bits u))) s
        | TString => (b <~ stream_Bytes ;; dret (GString b)) s
        | TBytes => (b <~ stream_Bytes ;; dret (GBytes b)) s
        | TByteArray n' =>
            (b <~ stream_Bytes ;;
             dret (GByteArray (go_copy (match old with GByteArray o => o | _ => [] end) b))) s
        | TSlice t' =>
            (_ <~ stream_List ;;
             vs <~ slice_loop (decodeInto n) n t' 0
                     (match old with GSlice l => l | _ => [] end) ;;
             _ <~ ListEnd ;;
             dret (GSlice vs)) s
        | TArray _ t' =>
            (_ <~ stream_List ;;
             vs <~ array_loop (decodeInto n) n t' 0
                     (match old with GArray l => l | _ => [] end) ;;
             _ <~ ListEnd ;;
             dret (GArray vs)) s
        | TStruct ts =>
            (_ <~ stream_List ;;
             vs <~ struct_loop (decodeInto n) ts
                     (match old with GStruct l => l | _ => [] end) ;;
             _ <~ ListEnd ;;
             dret (GStruct vs)) s
        | TOther => SErr ErrExpectedString s
        end
    end.

(** [DecodeBytes(b, &v)] for a fresh [v] of type [t]. *)
Definition DecodeBytes (fuel : nat) (t : gty) (b : bytes) : sres gval :=
  decodeInto fuel t (zero_val t) (newByteStream b).
