(* ===== verification/RlpProofs.v ===== *)
(** * RlpProofs: correctness of the RLP codec

    The encoders agree with each other, the reader accepts exactly the
    canonical encodings, and decoding inverts encoding for every well-typed
    Go value.  Three statements record inputs on which the reader panics or
    loops. *)

From S2P Require Import Prelude Rlp.

#[local] Set Warnings "-register-all".

(** ** Big-endian lengths *)

Lemma byte_len_unique x (k : nat) :
  256 ^ Z.of_nat k <= x < 256 ^ Z.of_nat (S k) -> byte_len x = S k.
Proof.
  intros [H1 H2]. apply Nat.le_antisymm.
  - apply byte_len_le. rewrite Z.abs_eq; [done|].
    pose proof (Z.pow_pos_nonneg 256 (Z.of_nat k)). lia.
  - destruct (Nat.le_gt_cases (S k) (byte_len x)) as [|HL]; [done|].
    pose proof (byte_len_upper x) as HU.
    pose proof (Z.pow_le_mono_r 256 (Z.of_nat (byte_len x)) (Z.of_nat k)). lia.
Qed.

(** Unfold a fixed-width big-endian expansion into shifts. *)
Ltac be_shift :=
  unfold u8; rewrite ?Z.shiftr_div_pow2 by lia; cbn [be_bytes app];
  rewrite ?Z.div_div by lia; reflexivity.

Lemma Bytes_be x (k : nat) :
  256 ^ Z.of_nat k <= x < 256 ^ Z.of_nat (S k) -> Bytes x = be_bytes (S k) x.
Proof.
  intros H. unfold Bytes. rewrite (byte_len_unique x k H).
  rewrite Z.abs_eq; [done|]. pose proof (Z.pow_pos_nonneg 256 (Z.of_nat k)). lia.
Qed.

Lemma putUintBigEndian_Bytes u : 0 < u < 2 ^ 64 -> putUintBigEndian u = Bytes u.
Proof.
  intros H. unfold putUintBigEndian.
  repeat (case (Z.ltb_spec u); intros);
    [rewrite (Bytes_be u 0) | rewrite (Bytes_be u 1) | rewrite (Bytes_be u 2)
    | rewrite (Bytes_be u 3) | rewrite (Bytes_be u 4) | rewrite (Bytes_be u 5)
    | rewrite (Bytes_be u 6) | rewrite (Bytes_be u 7)];
    try be_shift; simpl Z.of_nat; lia.
Qed.

Lemma strip_zeros_SetBytes b : SetBytes (strip_zeros b) = SetBytes b.
Proof.
  induction b as [|x [|y r] IH]; [done..|].
  cbn [strip_zeros]. destruct (Z.eqb_spec x 0) as [->|]; [|done].
  cbn [strip_zeros] in IH. rewrite IH. rewrite (SetBytes_cons 0). lia.
Qed.

Lemma strip_zeros_Forall P b : Forall P b -> Forall P (strip_zeros b).
Proof.
  induction b as [|x [|y r] IH]; intros H; [done..|].
  cbn [strip_zeros]. destruct (Z.eqb_spec x 0); [|done].
  apply IH. by inversion H.
Qed.

Lemma strip_zeros_head b h t :
  strip_zeros b = h :: t -> SetBytes b <> 0 -> h <> 0.
Proof.
  induction b as [|x [|y r] IH]; intros E Hn; [done| |].
  - cbn in E. injection E as <- <-. unfold SetBytes in Hn. simpl in Hn. lia.
  - cbn [strip_zeros] in E. destruct (Z.eqb_spec x 0) as [->|Hx].
    + apply IH; [exact E|]. rewrite (SetBytes_cons 0) in Hn. lia.
    + by injection E as -> _.
Qed.

Lemma putUintBE_Bytes u : 0 < u < 2 ^ 64 -> putUintBE u = Bytes u.
Proof.
  intros H. symmetry. unfold putUintBE.
  assert (SetBytes (be_bytes 8 u) = u) as E
    by (apply SetBytes_be_bytes_small; simpl Z.of_nat; lia).
  apply Bytes_unique; [lia| | |].
  - apply strip_zeros_Forall, be_bytes_bytes.
  - by rewrite strip_zeros_SetBytes.
  - intros h t Ht. eapply strip_zeros_head; [exact Ht|lia].
Qed.

Lemma byte_len_u64 u : 0 < u < 2 ^ 64 -> (1 <= byte_len u <= 8)%nat.
Proof.
  intros H. split.
  - destruct (byte_len u) as [|k] eqn:E; [|lia].
    pose proof (byte_len_upper u) as HU. rewrite E in HU. simpl in HU. lia.
  - apply byte_len_le. simpl Z.of_nat. lia.
Qed.

Lemma readBigEndian_SetBytes b :
  Forall is_byte b -> (length b <= 8)%nat -> readBigEndian b = SetBytes b.
Proof.
  unfold readBigEndian, SetBytes. intros Hb Hl.
  induction b as [|x b IH] using rev_ind; [done|].
  apply Forall_app in Hb as [Hb Hx]. inversion Hx as [|? ? Hx' _]; subst.
  rewrite length_app in Hl. simpl in Hl.
  rewrite !fold_left_app. cbn [fold_left]. rewrite IH by (done || lia).
  fold (SetBytes b). pose proof (SetBytes_range b Hb) as HR. unfold is_byte in Hx'.
  assert (256 ^ zlen b <= 256 ^ 7) as HP by (apply Z.pow_le_mono_r; unfold zlen; lia).
  rewrite Z.shiftl_mul_pow2 by lia. change (2 ^ 8) with 256.
  rewrite u64_small by (unfold is_u64; lia).
  apply (lor_shift_add _ _ 8); lia.
Qed.

(** ** Shapes of the encodings *)

Lemma long_length n :
  55 < n < 2 ^ 63 ->
  putUintBigEndian (u64 n) = Bytes n /\ 1 <= zlen (Bytes n) <= 8 /\
  readBigEndian (Bytes n) = n /\ i64 n = n /\
  (forall t, Bytes n <> 0 :: t).
Proof.
  intros H. rewrite u64_small by (unfold is_u64; lia).
  pose proof (byte_len_u64 n ltac:(lia)) as HL.
  split; [apply putUintBigEndian_Bytes; lia|].
  unfold zlen. rewrite length_Bytes. split; [lia|]. split; [|split].
  - rewrite readBigEndian_SetBytes, SetBytes_Bytes;
      [lia|apply Bytes_bytes|rewrite length_Bytes; lia].
  - apply i64_small. lia.
  - intros t E. by apply (Bytes_head n 0 t).
Qed.

Lemma encodeString_form d :
  zlen d < 2 ^ 63 ->
  (exists x, d = [x] /\ x <= 127 /\ encodeString d = [x]) \/
  (zlen d <= 55 /\ (forall x, d = [x] -> 127 < x) /\ encodeString d = (128 + zlen d) :: d) \/
  (55 < zlen d /\ encodeString d = (183 + zlen (Bytes (zlen d))) :: Bytes (zlen d) ++ d).
Proof.
  intros H. pose proof (zlen_nonneg d). unfold encodeString.
  assert (zlen d <= 55 -> u8 (128 + u8 (zlen d)) = 128 + zlen d) as Hs.
  { intros. rewrite !u8_small; unfold is_byte; rewrite ?u8_small; unfold is_byte; lia. }
  assert (55 < zlen d ->
          u8 (183 + u8 (zlen (putUintBigEndian (u64 (zlen d)))))
          :: putUintBigEndian (u64 (zlen d)) ++ d
          = (183 + zlen (Bytes (zlen d))) :: Bytes (zlen d) ++ d) as Hl.
  { intros Hd. destruct (long_length (zlen d)) as (-> & HB & _); [lia|].
    rewrite !u8_small; unfold is_byte; rewrite ?u8_small; unfold is_byte; by try lia. }
  destruct d as [|x [|y r]].
  - right; left. rewrite Hs; [|done]. repeat split; done.
  - destruct (Z.leb_spec x 127).
    + left. by exists x.
    + right; left. rewrite Hs by done. repeat split; [done|].
      intros ? [= <-]. done.
  - right. destruct (Z.leb_spec (zlen (x :: y :: r)) 55).
    + left. rewrite Hs by done. by repeat split.
    + right. split; [done|]. by apply Hl.
Qed.

Lemma wrapList_form p :
  zlen p < 2 ^ 63 ->
  (zlen p <= 55 /\ wrapList p = (192 + zlen p) :: p) \/
  (55 < zlen p /\ wrapList p = (247 + zlen (Bytes (zlen p))) :: Bytes (zlen p) ++ p).
Proof.
  intros H. pose proof (zlen_nonneg p). unfold wrapList.
  destruct (Z.leb_spec (zlen p) 55); [left|right]; (split; [done|]).
  - rewrite !u8_small; unfold is_byte; rewrite ?u8_small; unfold is_byte; by try lia.
  - destruct (long_length (zlen p)) as (-> & HB & _); [lia|].
    rewrite !u8_small; unfold is_byte; rewrite ?u8_small; unfold is_byte; by try lia.
Qed.

(** ** Reading at a position *)

(** The bytes [enc] are next in the stream, inside the current limit. *)
Definition at_item (s : Stream) (enc : bytes) : Prop :=
  exists pre post,
    data s = pre ++ enc ++ post /\ pos s = zlen pre /\
    zlen pre + zlen enc <= limit s /\ limit s <= zlen (data s) /\
    zlen (data s) < 2 ^ 63.

Lemma at_item_index s h r : at_item s (h :: r) -> go_index (data s) (pos s) = Some h.
Proof.
  intros (pre & post & E & Ep & _). rewrite E, Ep. unfold go_index, zlen.
  destruct (Z.leb_spec 0 (Z.of_nat (length pre))); [|lia].
  rewrite Nat2Z.id. rewrite lookup_app_r by lia. rewrite Nat.sub_diag. done.
Qed.

Lemma at_item_slice s a b c :
  at_item s (a ++ b ++ c) ->
  go_slice (data s) (pos s + zlen a) (pos s + zlen a + zlen b) = Some b.
Proof.
  intros (pre & post & E & Ep & Hl & _).
  pose proof (zlen_nonneg pre). pose proof (zlen_nonneg a). pose proof (zlen_nonneg b).
  pose proof (zlen_nonneg c). pose proof (zlen_nonneg post).
  rewrite go_slice_Some; rewrite ?E, ?Ep, ?zlen_app in *; [|lia..].
  f_equal. replace (zlen pre + zlen a + zlen b - (zlen pre + zlen a)) with (zlen b) by lia.
  replace (pre ++ (a ++ b ++ c) ++ post) with ((pre ++ a) ++ b ++ c ++ post)
    by (rewrite <- !app_assoc; done).
  rewrite drop_app_length' by (rewrite length_app; unfold zlen; lia).
  rewrite take_app_length' by (unfold zlen; lia). done.
Qed.

Lemma at_item_bounds s enc :
  at_item s enc ->
  0 <= pos s /\ pos s + zlen enc <= limit s /\ limit s <= zlen (data s) /\ zlen (data s) < 2 ^ 63.
Proof. intros (pre & post & E & Ep & H). pose proof (zlen_nonneg pre). lia. Qed.

Lemma at_item_slice0 s b c :
  at_item s (b ++ c) -> go_slice (data s) (pos s) (pos s + zlen b) = Some b.
Proof.
  intros H. pose proof (at_item_slice s [] b c H) as E.
  unfold zlen at 1 2 in E. simpl in E. by rewrite !Z.add_0_r in E.
Qed.

Lemma zlen_cons {A} (x : A) l : zlen (x :: l) = 1 + zlen l.
Proof. unfold zlen. simpl length. lia. Qed.

Lemma zlen_nil {A} : zlen (@nil A) = 0.
Proof. reflexivity. Qed.

(** The item kind the reader reports for a string. *)
Definition string_kind (d : bytes) : Kind :=
  match d with
  | [x] => if x <=? 127 then KByte else KString
  | _ => KString
  end.

Ltac at_bounds H :=
  let B := fresh "B" in
  pose proof (at_item_bounds _ _ H) as B;
  rewrite ?zlen_cons, ?zlen_app, ?zlen_nil in B.

Lemma take_item_at {A} s a b start end_ (k : bytes -> A) :
  at_item s (a ++ b) -> start = pos s + zlen a -> end_ = start + zlen b ->
  take_item start end_ k s = SOk (k b) (set_pos end_ s).
Proof.
  intros H -> ->. unfold take_item. rewrite (at_item_slice s a b []); [done|].
  by rewrite app_nil_r.
Qed.

Lemma set_pos_eq s p q : p = q -> set_pos p s = set_pos q s.
Proof. by intros ->. Qed.

Lemma read_long_ok s h p kind :
  at_item s (h :: Bytes (zlen p) ++ p) -> 55 < zlen p ->
  read_long kind (zlen (Bytes (zlen p))) s
  = SOk (kind, p, 1 + zlen (Bytes (zlen p)) + zlen p)
      (set_pos (pos s + (1 + zlen (Bytes (zlen p)) + zlen p)) s).
Proof.
  intros H Hp. at_bounds H. pose proof (zlen_nonneg (Bytes (zlen p))).
  destruct (long_length (zlen p)) as (_ & HB & HR & Hi & Hz); [lia|].
  pose proof (at_item_slice s [h] (Bytes (zlen p)) p H) as HS.
  rewrite zlen_cons, zlen_nil, Z.add_0_r in HS.
  assert (zlen ([h] ++ Bytes (zlen p)) = 1 + zlen (Bytes (zlen p))) as HL by apply zlen_cons.
  unfold read_long. rewrite HS, HR, Hi.
  rewrite (i64_small (1 + _ + _)), (i64_small (pos s + _ + _ + _)) by lia.
  destruct (Z.gtb_spec (pos s + 1 + zlen (Bytes (zlen p))) (limit s)); [lia|].
  destruct (Z.leb_spec (zlen p) 55); [lia|].
  destruct (Z.gtb_spec (pos s + 1 + zlen (Bytes (zlen p)) + zlen p) (limit s)); [lia|].
  rewrite (take_item_at s ([h] ++ Bytes (zlen p)) p); [|done|lia|lia].
  destruct (Bytes (zlen p)) as [|[|b0|b0] bt]; [rewrite zlen_nil in HB; lia|by destruct (Hz bt)|..];
    (f_equal; apply set_pos_eq; lia).
Qed.

(** The canonical-form test of a short string only fires on a single byte
    that should have been its own encoding. *)
Lemma read_short_ok s h p kind :
  at_item s (h :: p) ->
  (kind = KString -> forall x, p = [x] -> 127 < x) ->
  read_short kind (zlen p) s
  = SOk (kind, p, 1 + zlen p) (set_pos (pos s + (1 + zlen p)) s).
Proof.
  intros H Hc. at_bounds H. unfold read_short.
  destruct (Z.gtb_spec (pos s + 1 + zlen p) (limit s)); [lia|].
  rewrite (take_item_at s [h] p _ _ _ H) by (rewrite ?zlen_cons, ?zlen_nil; lia).
  rewrite (set_pos_eq s (pos s + 1 + zlen p) (pos s + (1 + zlen p))) by lia.
  destruct kind; try done.
  destruct (Z.eqb_spec (zlen p) 1) as [H1|]; [|by destruct (go_index _ _)].
  destruct p as [|x [|? ?]]; unfold zlen in H1; simpl in H1; try lia.
  specialize (Hc eq_refl x eq_refl).
  assert (go_index (data s) (pos s + 1) = Some x) as ->.
  { destruct H as (pre & post & E & Ep & _). rewrite E, Ep. unfold go_index, zlen.
    destruct (Z.leb_spec 0 (Z.of_nat (length pre) + 1)); [|lia].
    rewrite lookup_app_r by lia.
    by replace (Z.to_nat (Z.of_nat (length pre) + 1) - length pre)%nat with 1%nat by lia. }
  destruct (Z.leb_spec x 127); [lia|]. done.
Qed.

Lemma zlen_le_encodeString d : zlen d <= zlen (encodeString d).
Proof.
  pose proof (zlen_nonneg (putUintBigEndian (u64 (zlen d)))).
  unfold encodeString. destruct d as [|x [|y r]]; repeat zcase;
    rewrite ?zlen_cons, ?zlen_app, ?zlen_cons, ?zlen_nil in *; lia.
Qed.

Lemma zlen_le_wrapList p : zlen p <= zlen (wrapList p).
Proof.
  pose proof (zlen_nonneg (putUintBigEndian (u64 (zlen p)))).
  unfold wrapList. repeat zcase; rewrite ?zlen_cons, ?zlen_app in *; lia.
Qed.

(** Dispatch of the reader on the prefix byte. *)
Lemma readItem_prefix s h r :
  at_item s (h :: r) ->
  readItem s =
    if h <=? 127 then take_item (pos s) (pos s + 1) (fun p => (KByte, p, 1)) s
    else if h <=? 183 then read_short KString (h - 128) s
    else if h <=? 191 then read_long KString (h - 183) s
    else if h <=? 247 then read_short KList (h - 192) s
    else read_long KList (h - 247) s.
Proof.
  intros H. at_bounds H. pose proof (zlen_nonneg r). unfold readItem.
  destruct (Z.geb_spec (pos s) (limit s)); [lia|].
  by rewrite (at_item_index s h r H).
Qed.

Ltac prefix_case :=
  repeat match goal with
  | |- context [?a <=? ?b] => (destruct (Z.leb_spec a b); [|lia]) || (destruct (Z.leb_spec a b); [lia|])
  end.

Lemma readItem_string s d :
  at_item s (encodeString d) ->
  readItem s = SOk (string_kind d, d, zlen (encodeString d))
                 (set_pos (pos s + zlen (encodeString d)) s).
Proof.
  intros H. pose proof (zlen_nonneg d). pose proof (zlen_le_encodeString d).
  assert (zlen d < 2 ^ 63) as Hlen by (at_bounds H; lia).
  destruct (encodeString_form d Hlen) as [(x & -> & Hx & E)|[(H55 & Hne & E)|(H55 & E)]];
    rewrite E in *; rewrite (readItem_prefix _ _ _ H); at_bounds H.
  - rewrite (take_item_at s [] [x] _ _ _ H) by (rewrite ?zlen_cons, ?zlen_nil; lia).
    unfold string_kind. destruct (Z.leb_spec x 127); [done|lia].
  - prefix_case. replace (128 + zlen d - 128) with (zlen d) by lia.
    rewrite (read_short_ok s _ d KString H) by (intros _; exact Hne).
    rewrite zlen_cons. do 2 f_equal. f_equal. unfold string_kind.
    destruct d as [|x [|? ?]]; try done. specialize (Hne x eq_refl).
    by destruct (Z.leb_spec x 127); [lia|].
  - destruct (long_length (zlen d)) as (_ & HB & _); [lia|].
    prefix_case. replace (183 + zlen (Bytes (zlen d)) - 183) with (zlen (Bytes (zlen d))) by lia.
    rewrite (read_long_ok s _ d KString H H55), zlen_cons, zlen_app, Z.add_assoc.
    assert (string_kind d = KString) as ->; [|by rewrite !Z.add_assoc]. unfold string_kind.
    by destruct d as [|? [|? ?]].
Qed.

Lemma SOk_stream_eq (a a' : Z) d p p' e e' st :
  a = a' -> p = p' -> e = e' ->
  SOk a (mkStream d p (e :: st)) = SOk a' (mkStream d p' (e' :: st)).
Proof. by intros -> -> ->. Qed.

(** Entering a list: the stream moves to the payload, with its end pushed. *)
Lemma stream_List_wrap s p :
  at_item s (wrapList p) ->
  stream_List s =
    SOk (zlen p)
      (mkStream (data s) (pos s + zlen (wrapList p) - zlen p)
         ((pos s + zlen (wrapList p)) :: stack s)).
Proof.
  intros H. pose proof (zlen_nonneg p). pose proof (zlen_le_wrapList p).
  assert (zlen p < 2 ^ 63) as Hlen by (at_bounds H; lia).
  destruct (wrapList_form p Hlen) as [(H55 & E)|(H55 & E)]; rewrite E in *;
    at_bounds H; unfold stream_List;
    (destruct (Z.geb_spec (pos s) (limit s)); [pose proof (zlen_nonneg (Bytes (zlen p))); lia|]);
    rewrite (at_item_index s _ _ H), ?zlen_cons, ?zlen_app.
  - destruct (Z.geb_spec (192 + zlen p) 192); [|lia].
    destruct (Z.leb_spec (192 + zlen p) 247); [|lia]. simpl andb. cbv iota zeta.
    destruct (Z.gtb_spec (pos s + 1 + (192 + zlen p - 192)) (limit s)); [lia|].
    rewrite u64_small by (unfold is_u64; lia). apply SOk_stream_eq; lia.
  - destruct (long_length (zlen p)) as (_ & HB & HR & Hi & Hz); [lia|].
    destruct (Z.geb_spec (247 + zlen (Bytes (zlen p))) 192); [|lia].
    destruct (Z.leb_spec (247 + zlen (Bytes (zlen p))) 247); [lia|]. simpl andb. cbv iota zeta.
    destruct (Z.gtb_spec (247 + zlen (Bytes (zlen p))) 247); [|lia].
    replace (247 + zlen (Bytes (zlen p)) - 247) with (zlen (Bytes (zlen p))) by lia.
    destruct (Z.gtb_spec (pos s + 1 + zlen (Bytes (zlen p))) (limit s)); [lia|].
    pose proof (at_item_slice s [_] (Bytes (zlen p)) p H) as HS.
    rewrite zlen_cons, zlen_nil, Z.add_0_r in HS. rewrite HS, HR, Hi.
    destruct (Z.leb_spec (zlen p) 55); [lia|].
    rewrite (i64_small (pos s + _ + _ + _)) by lia.
    destruct (Z.gtb_spec (pos s + 1 + zlen (Bytes (zlen p)) + zlen p) (limit s)); [lia|].
    rewrite u64_small by (unfold is_u64; lia).
    destruct (Bytes (zlen p)) as [|[|b0|b0] bt]; [rewrite zlen_nil in HB; lia|by destruct (Hz bt)|..];
      apply SOk_stream_eq; lia.
Qed.

Lemma stream_Bytes_string s d :
  at_item s (encodeString d) ->
  stream_Bytes s = SOk d (set_pos (pos s + zlen (encodeString d)) s).
Proof.
  intros H. unfold stream_Bytes, dbind. rewrite (readItem_string s d H).
  unfold string_kind. destruct d as [|x [|? ?]]; try done. by destruct (x <=? 127).
Qed.

Lemma Bytes_no_lead_zero u x y t : Bytes u = x :: y :: t -> x <> 0.
Proof. apply Bytes_head. Qed.

Lemma encodeUint_string u : is_u64 u -> encodeUint u = encodeString (Bytes u).
Proof.
  unfold is_u64. intros H. unfold encodeUint.
  destruct (Z.eqb_spec u 0) as [->|]; [reflexivity|].
  destruct (Z.ltb_spec u 128).
  - rewrite (Bytes_be u 0) by (simpl Z.of_nat; lia). cbn [be_bytes app].
    unfold encodeString. rewrite (Z.mod_small u 256) by lia.
    destruct (Z.leb_spec u 127); [|lia]. by rewrite u8_small by (unfold is_byte; lia).
  - by rewrite putUintBigEndian_Bytes by lia.
Qed.

Lemma encodeBigInt_string z : encodeBigInt z = encodeString (Bytes z).
Proof.
  unfold encodeBigInt. destruct (Z.eqb_spec (Z.sgn z) 0) as [E|]; [|done].
  rewrite Z.sgn_null_iff in E. subst. reflexivity.
Qed.

Lemma stream_Uint64_uint s u :
  at_item s (encodeUint u) -> is_u64 u ->
  stream_Uint64 s = SOk u (set_pos (pos s + zlen (encodeUint u)) s).
Proof.
  intros H Hu. rewrite (encodeUint_string u Hu) in *.
  unfold stream_Uint64, dbind. rewrite (stream_Bytes_string s _ H).
  unfold is_u64 in Hu. destruct (Z.eq_dec u 0) as [->|Hne]; [done|].
  pose proof (byte_len_u64 u ltac:(lia)) as HL.
  assert (zlen (Bytes u) = Z.of_nat (byte_len u)) as HZ by (unfold zlen; by rewrite length_Bytes).
  destruct (Z.eqb_spec (zlen (Bytes u)) 0); [lia|].
  destruct (Z.gtb_spec (zlen (Bytes u)) 8); [lia|].
  rewrite readBigEndian_SetBytes, SetBytes_Bytes, Z.abs_eq
    by (try lia; try apply Bytes_bytes; rewrite length_Bytes; lia).
  destruct (Bytes u) as [|[|x|x] [|y t]] eqn:E; try done.
  by destruct (Bytes_head u 0 (y :: t)).
Qed.

Lemma stream_BigInt_big s z :
  at_item s (encodeBigInt z) -> 0 <= z ->
  stream_BigInt s = SOk z (set_pos (pos s + zlen (encodeBigInt z)) s).
Proof.
  intros H Hz. rewrite encodeBigInt_string in *.
  unfold stream_BigInt, dbind. rewrite (stream_Bytes_string s _ H).
  rewrite SetBytes_Bytes, Z.abs_eq by lia.
  destruct (Bytes z) as [|[|x|x] [|y t]] eqn:E; try done.
  by destruct (Bytes_head z 0 (y :: t)).
Qed.

(** ** Round trip of the reflective codec *)

(** Values that a decoder target of a type can hold and that the encoding
    determines: unexported fields are at their zero value, and a nil pointer
    occurs only where the decoder knows the nil marker. *)
Inductive wt : gty -> gval -> Prop :=
  | wt_bool b : wt TBool (GBool b)
  | wt_uint bits u : 0 < bits <= 64 -> 0 <= u < 2 ^ bits -> wt (TUint bits) (GUint u)
  | wt_int bits i :
      0 < bits <= 64 -> - 2 ^ (bits - 1) <= i < 2 ^ (bits - 1) -> wt (TInt bits) (GInt i)
  | wt_big z : 0 <= z -> wt TBig (GBig true z)
  | wt_string b : wt TString (GString b)
  | wt_bytes b : wt TBytes (GBytes b)
  | wt_bytearray b : wt (TByteArray (length b)) (GByteArray b)
  | wt_slice t l : Forall (wt t) l -> wt (TSlice t) (GSlice l)
  | wt_array t l : Forall (wt t) l -> wt (TArray (length l) t) (GArray l)
  | wt_struct ts vs : Forall2 wt_field ts vs -> wt (TStruct ts) (GStruct vs)
  | wt_ptr t v : wt t v -> wt (TPtr t) (GPtr v)
  | wt_nil t : nil_marker_type t = true -> wt (TPtr t) GNil
with wt_field : bool * gty -> bool * gval -> Prop :=
  | wtf_exported t v : wt t v -> wt_field (true, t) (true, v)
  | wtf_unexported t : wt_field (false, t) (false, zero_val t).

Definition sum_nat (l : list nat) : nat := fold_right Nat.add 0%nat l.

(** A bound on the recursion depth plus loop iterations of the decoder. *)
Fixpoint vsize (v : gval) : nat :=
  match v with
  | GPtr v' => S (vsize v')
  | GSlice l | GArray l => S (S (length l + sum_nat (map vsize l)))
  | GStruct fs => S (S (length fs + sum_nat (map (fun f => vsize (f : bool * gval).2) fs)))
  | _ => 1
  end.

Lemma sum_nat_elem l x : In x l -> (x <= sum_nat l)%nat.
Proof. induction l as [|y l IH]; simpl; [done|]. intros [->|H]; [lia|]. apply IH in H. lia. Qed.

Lemma encodeString_pos d : 0 < zlen (encodeString d).
Proof.
  pose proof (zlen_nonneg d). unfold encodeString.
  destruct d as [|x [|y r]]; repeat zcase; rewrite ?zlen_cons; try done;
    rewrite ?zlen_app; pose proof (zlen_nonneg (putUintBigEndian (u64 (zlen (x :: y :: r)))));
    rewrite ?zlen_cons in *; lia.
Qed.

Lemma wrapList_pos p : 0 < zlen (wrapList p).
Proof.
  pose proof (zlen_nonneg p). pose proof (zlen_nonneg (putUintBigEndian (u64 (zlen p)))).
  unfold wrapList. zcase; rewrite ?zlen_cons, ?zlen_app; lia.
Qed.

Lemma set_pos_set_pos p q s : set_pos p (set_pos q s) = set_pos p s.
Proof. done. Qed.

Lemma pos_set_pos p s : pos (set_pos p s) = p.
Proof. done. Qed.

Lemma limit_mk d p e st : limit (mkStream d p (e :: st)) = e.
Proof. done. Qed.

Lemma limit_set_pos p s : limit (set_pos p s) = limit s.
Proof. done. Qed.

(** After reading [a], the stream is at [b]. *)
Lemma at_item_next s a b : at_item s (a ++ b) -> at_item (set_pos (pos s + zlen a) s) b.
Proof.
  intros (pre & post & E & Ep & Hl & Hr). exists (pre ++ a), post.
  rewrite limit_set_pos, pos_set_pos, !zlen_app in *. simpl data.
  rewrite E, <- !app_assoc in *. repeat split; try done; lia.
Qed.

Lemma at_item_prefix s a b : at_item s (a ++ b) -> at_item s a.
Proof.
  intros (pre & post & E & Ep & Hl & Hr). exists pre, (b ++ post).
  pose proof (zlen_nonneg b). rewrite zlen_app in Hl.
  rewrite E, <- !app_assoc in *. repeat split; try done; lia.
Qed.

(** Inside the list just entered. *)
Lemma at_item_payload s p :
  at_item s (wrapList p) ->
  at_item (mkStream (data s) (pos s + zlen (wrapList p) - zlen p)
             ((pos s + zlen (wrapList p)) :: stack s)) p.
Proof.
  intros H. pose proof (zlen_nonneg p). pose proof (zlen_le_wrapList p). at_bounds H.
  assert (exists h, wrapList p = h ++ p) as [h Eh].
  { unfold wrapList. zcase; [by eexists [_]|].
    exists (u8 (247 + u8 (zlen (putUintBigEndian (u64 (zlen p))))) :: putUintBigEndian (u64 (zlen p))).
    done. }
  rewrite Eh in *. pose proof (zlen_nonneg h). rewrite zlen_app in *.
  destruct H as (pre & post & E & Ep & Hl & Hr). exists (pre ++ h), post. simpl.
  rewrite E, <- !app_assoc, !zlen_app in *.
  rewrite limit_mk. repeat split; try done; lia.
Qed.

(** The decoder loops, for elements that [dec] decodes. *)
Definition dec_ok (dec : gty -> gval -> D gval) (t : gty) (v : gval) (enc : bytes) : Prop :=
  0 < zlen enc /\
  forall s, at_item s enc -> dec t (zero_val t) s = SOk v (set_pos (pos s + zlen enc) s).

Lemma slice_loop_ok dec t l encs :
  Forall2 (dec_ok dec t) l encs ->
  forall lf vs s e st,
    (length l < lf)%nat -> stack s = e :: st -> e = pos s + zlen (concat encs) ->
    at_item s (concat encs) ->
    slice_loop dec lf t (length vs) vs s = SOk (vs ++ l) (set_pos e s).
Proof.
  induction 1 as [|v enc l encs [Hpos Hdec] _ IH]; intros lf vs s e st Hlf Hst He Hat;
    (destruct lf as [|lf]; simpl in Hlf; [lia|]); simpl concat in *; cbn [slice_loop]; rewrite Hst.
  - rewrite zlen_nil in He. destruct (Z.ltb_spec (pos s) e); [lia|].
    rewrite app_nil_r. f_equal. destruct s; unfold set_pos; simpl in *. f_equal; lia.
  - pose proof (zlen_nonneg (concat encs)). rewrite zlen_app in He.
    destruct (Z.ltb_spec (pos s) e); [|lia].
    rewrite Nat.ltb_irrefl, list_lookup_middle by done.
    rewrite (Hdec s (at_item_prefix _ _ _ Hat)).
    rewrite insert_app_r_alt, Nat.sub_diag by lia. simpl insert.
    replace (S (length vs)) with (length (vs ++ [v])) by (rewrite length_app; simpl; lia).
    rewrite (IH lf (vs ++ [v]) (set_pos (pos s + zlen enc) s) e st);
      [by rewrite <- app_assoc|lia|done|rewrite pos_set_pos; lia|by apply at_item_next].
Qed.

Lemma array_loop_ok dec t l encs :
  Forall2 (dec_ok dec t) l encs ->
  forall lf vs s e st,
    (length l < lf)%nat -> stack s = e :: st -> e = pos s + zlen (concat encs) ->
    at_item s (concat encs) ->
    array_loop dec lf t (length vs) (vs ++ replicate (length l) (zero_val t)) s
    = SOk (vs ++ l) (set_pos e s).
Proof.
  induction 1 as [|v enc l encs [Hpos Hdec] _ IH]; intros lf vs s e st Hlf Hst He Hat;
    (destruct lf as [|lf]; simpl in Hlf; [lia|]); simpl concat in *; cbn [array_loop]; rewrite Hst.
  - rewrite zlen_nil in He. destruct (Z.ltb_spec (pos s) e); [lia|].
    f_equal. destruct s; unfold set_pos; simpl in *. f_equal; lia.
  - pose proof (zlen_nonneg (concat encs)). rewrite zlen_app in He.
    destruct (Z.ltb_spec (pos s) e); [|lia]. simpl replicate.
    rewrite list_lookup_middle by done.
    rewrite (Hdec s (at_item_prefix _ _ _ Hat)).
    rewrite insert_app_r_alt, Nat.sub_diag by lia. simpl insert.
    replace (S (length vs)) with (length (vs ++ [v])) by (rewrite length_app; simpl; lia).
    replace (vs ++ v :: replicate (length l) (zero_val t))
      with ((vs ++ [v]) ++ replicate (length l) (zero_val t)) by (by rewrite <- app_assoc).
    rewrite (IH lf (vs ++ [v]) (set_pos (pos s + zlen enc) s) e st);
      [by rewrite <- app_assoc|lia|done|rewrite pos_set_pos; lia|by apply at_item_next].
Qed.

(** A struct field and its encoding; unexported fields are skipped on both
    sides. *)
Inductive field_ok (dec : gty -> gval -> D gval) : bool * gty -> bool * gval -> bytes -> Prop :=
  | fok_exported t v enc : dec_ok dec t v enc -> field_ok dec (true, t) (true, v) enc
  | fok_unexported t : field_ok dec (false, t) (false, zero_val t) [].

Lemma struct_loop_ok dec ts vs encs :
  Forall3 (field_ok dec) ts vs encs ->
  forall s, at_item s (concat encs) ->
    struct_loop dec ts (map (fun f => ((f : bool * gty).1, zero_val f.2)) ts) s
    = SOk vs (set_pos (pos s + zlen (concat encs)) s).
Proof.
  induction 1 as [|t v enc ts vs encs Hf _ IH]; intros s Hat; simpl concat in *.
  - rewrite zlen_nil, Z.add_0_r. by destruct s.
  - destruct Hf as [t v enc [Hpos Hdec]|t]; cbn [map struct_loop fst snd]; unfold dbind.
    + rewrite (Hdec s (at_item_prefix _ _ _ Hat)).
      rewrite IH by (by apply at_item_next).
      unfold dret. rewrite set_pos_set_pos, pos_set_pos, zlen_app. f_equal.
      apply set_pos_eq. lia.
    + rewrite IH by exact Hat. done.
Qed.

(** The list frame: enter, run the loop over the payload, leave. *)
Lemma list_frame {A B} (loop : D A) (k : A -> B) (a : A) s p :
  at_item s (wrapList p) ->
  (forall s', stack s' = (pos s + zlen (wrapList p)) :: stack s ->
     pos s + zlen (wrapList p) = pos s' + zlen p ->
     at_item s' p -> loop s' = SOk a (set_pos (pos s' + zlen p) s')) ->
  (_ <~ stream_List ;; vs <~ loop ;; _ <~ ListEnd ;; dret (k vs)) s
  = SOk (k a) (set_pos (pos s + zlen (wrapList p)) s).
Proof.
  intros Hat Hloop. unfold dbind at 1. rewrite (stream_List_wrap s p Hat). unfold dbind at 1.
  rewrite Hloop; [|done|simpl; lia|by apply at_item_payload].
  unfold dbind, ListEnd, dret, set_pos. simpl.
  rewrite (proj2 (Z.eqb_eq _ _)) by lia. simpl. by rewrite Z.sub_add.
Qed.

Lemma concat_enc_ok rs encs : rs = map EOk encs -> concat_enc rs = EOk (concat encs).
Proof. intros ->. induction encs as [|b encs IH]; [done|]. simpl. by rewrite IH. Qed.

Lemma map_EOk {A} (f : A -> eres) l encs :
  Forall2 (fun v enc => f v = EOk enc) l encs -> map f l = map EOk encs.
Proof. induction 1 as [|v enc l encs E _ IH]; [done|]. simpl. by rewrite E, IH. Qed.

(** Decoding of the scalar kinds. *)
Lemma dec_uint n bits u s :
  0 < bits <= 64 -> 0 <= u < 2 ^ bits -> at_item s (encodeUint u) ->
  decodeInto (S n) (TUint bits) (GUint 0) s = SOk (GUint u) (set_pos (pos s + zlen (encodeUint u)) s).
Proof.
  intros Hb Hu Hat. simpl. unfold dbind.
  assert (2 ^ bits <= 2 ^ 64) by (apply Z.pow_le_mono_r; lia).
  rewrite (stream_Uint64_uint s u Hat) by (unfold is_u64; lia).
  unfold dret. by rewrite Z.mod_small.
Qed.

Lemma trunc_int_u64 bits i :
  0 < bits <= 64 -> - 2 ^ (bits - 1) <= i < 2 ^ (bits - 1) -> trunc_int bits (u64 i) = i.
Proof.
  intros Hb Hi. unfold trunc_int, u64.
  assert (2 ^ bits = 2 * 2 ^ (bits - 1)) as HP
    by (rewrite <- Z.pow_succ_r by lia; f_equal; lia).
  assert ((i mod 2 ^ 64) mod 2 ^ bits = i mod 2 ^ bits) as ->.
  { apply Z.mod_mod_divide. exists (2 ^ (64 - bits)). rewrite <- Z.pow_add_r by lia. f_equal. lia. }
  destruct (Z.lt_ge_cases i 0).
  - replace (i mod 2 ^ bits) with (i + 2 ^ bits).
    + destruct (Z.ltb_spec (i + 2 ^ bits) (2 ^ (bits - 1))); lia.
    + apply Z.mod_unique with (-1); lia.
  - rewrite Z.mod_small by lia. destruct (Z.ltb_spec i (2 ^ (bits - 1))); lia.
Qed.

Lemma dec_int n bits i s :
  0 < bits <= 64 -> - 2 ^ (bits - 1) <= i < 2 ^ (bits - 1) -> at_item s (encodeUint (u64 i)) ->
  decodeInto (S n) (TInt bits) (GInt 0) s
  = SOk (GInt i) (set_pos (pos s + zlen (encodeUint (u64 i))) s).
Proof.
  intros Hb Hi Hat. simpl. unfold dbind.
  rewrite (stream_Uint64_uint s (u64 i) Hat) by apply u64_range.
  unfold dret. by rewrite trunc_int_u64.
Qed.

Lemma dec_bool n (b : bool) s :
  at_item s (if b then [1] else [128]) ->
  decodeInto (S n) TBool (GBool false) s = SOk (GBool b) (set_pos (pos s + 1) s).
Proof.
  intros Hat. simpl. unfold dbind.
  assert ((if b then [1] else [128]) = encodeString (if b then [1] else [])) as E
    by (by destruct b).
  rewrite E in Hat. rewrite (stream_Bytes_string s _ Hat), <- E. by destruct b.
Qed.

Lemma go_copy_full (dst src : bytes) : length dst = length src -> go_copy dst src = src.
Proof.
  intros H. unfold go_copy. rewrite H, take_ge, drop_ge by lia. apply app_nil_r.
Qed.

Lemma encodeUint_pos u : is_u64 u -> 0 < zlen (encodeUint u).
Proof. intros H. rewrite encodeUint_string by done. apply encodeString_pos. Qed.

(** The nil marker: [Kind] reports an empty string on 0x80 and a list on any
    list encoding. *)
Lemma stream_Kind_nil s : at_item s [128] -> stream_Kind s = SOk (KString, 0) s.
Proof.
  intros H. at_bounds H. pose proof (zlen_nonneg (@nil Z)). unfold stream_Kind.
  destruct (Z.geb_spec (pos s) (limit s)); [lia|]. by rewrite (at_item_index s _ _ H).
Qed.

Lemma stream_Kind_list s p :
  at_item s (wrapList p) -> exists n, stream_Kind s = SOk (KList, n) s.
Proof.
  intros H. pose proof (zlen_nonneg p). pose proof (zlen_le_wrapList p).
  assert (zlen p < 2 ^ 63) as Hlen by (at_bounds H; lia).
  unfold stream_Kind.
  destruct (wrapList_form p Hlen) as [(H55 & E)|(H55 & E)]; rewrite E in *; at_bounds H;
    (destruct (Z.geb_spec (pos s) (limit s)); [pose proof (zlen_nonneg (Bytes (zlen p))); lia|]);
    rewrite (at_item_index s _ _ H).
  - prefix_case. by eexists.
  - destruct (long_length (zlen p)) as (_ & HB & HR & _); [lia|]. prefix_case.
    replace (247 + zlen (Bytes (zlen p)) - 247) with (zlen (Bytes (zlen p))) by lia.
    pose proof (at_item_slice s [_] (Bytes (zlen p)) p H) as HS.
    rewrite zlen_cons, zlen_nil, Z.add_0_r in HS.
    destruct (Z.gtb_spec (pos s + 1 + zlen (Bytes (zlen p))) (limit s)); [lia|].
    rewrite HS. by eexists.
Qed.

Lemma Forall_choice {A B} (P : A -> B -> Prop) l :
  Forall (fun x => exists y, P x y) l -> exists ys, Forall2 P l ys.
Proof.
  induction 1 as [|x l [y Hy] _ [ys IH]]; [by exists []|]. exists (y :: ys). by constructor.
Qed.

(** What decoding one value has to achieve, at any stream position. *)
Definition decodes (n : nat) (t : gty) (v : gval) (enc : bytes) : Prop :=
  encodeValue v = EOk enc /\ dec_ok (decodeInto n) t v enc.

Lemma elem_bound l v n : (sum_nat (map vsize l) <= n)%nat -> In v l -> (vsize v <= n)%nat.
Proof. intros H Hin. pose proof (sum_nat_elem _ _ (in_map vsize _ _ Hin)). lia. Qed.

Lemma list_decodes n t l :
  (forall v, In v l -> exists enc, decodes n t v enc) ->
  exists encs, concat_enc (map encodeValue l) = EOk (concat encs) /\
               Forall2 (dec_ok (decodeInto n) t) l encs.
Proof.
  intros H. destruct (Forall_choice (decodes n t) l) as [encs HF].
  { apply Forall_forall. intros v Hv. by apply H, list_elem_of_In. }
  exists encs. split.
  - apply concat_enc_ok, map_EOk. eapply Forall2_impl; [exact HF|]. by intros ? ? [].
  - eapply Forall2_impl; [exact HF|]. by intros ? ? [].
Qed.

Lemma struct_decodes n ts vs :
  Forall2 wt_field ts vs ->
  (forall t v, wt t v -> In (true, v) vs -> exists enc, decodes n t v enc) ->
  exists encs,
    concat_enc (map (fun f => if (f : bool * gval).1 then encodeValue f.2 else EOk []) vs)
      = EOk (concat encs) /\
    Forall3 (field_ok (decodeInto n)) ts vs encs.
Proof.
  induction 1 as [|t v ts vs Hf _ IH]; intros H.
  - exists []. split; [done|constructor].
  - destruct IH as (encs & E & HF).
    { intros t' v' Hwt Hin. apply H; [done|by right]. }
    destruct Hf as [t v Hwt|t].
    + destruct (H t v Hwt) as (enc & Ee & Hd); [by left|].
      exists (enc :: encs). simpl. rewrite Ee, E. split; [done|].
      constructor; [by apply fok_exported|done].
    + exists ([] :: encs). simpl. rewrite E. split; [done|].
      constructor; [apply fok_unexported|done].
Qed.

(** A non-nil pointer: the marker test does not fire on the element's
    encoding. *)
Lemma ptr_decodes n t v enc :
  wt t v -> decodes n t v enc -> decodes (S n) (TPtr t) (GPtr v) enc.
Proof.
  intros Hwt (Ee & Hpos & Hd). split; [exact Ee|]. split; [done|]. intros s Hat.
  cbn [decodeInto zero_val]. unfold dbind. rewrite (Hd s Hat).
  destruct (nil_marker_type t) eqn:Em; [|done].
  assert (exists p, enc = wrapList p) as [p ->].
  { destruct Hwt; try discriminate Em; simpl in Ee;
      match type of Ee with map_eres _ ?r = _ => destruct r; simplify_eq Ee; by eexists end. }
  by destruct (stream_Kind_list s p Hat) as [m ->].
Qed.

Lemma decodes_wt n t v : wt t v -> (vsize v <= n)%nat -> exists enc, decodes n t v enc.
Proof.
  revert t v. induction n as [|n IH]; intros t v Hwt Hn; [by destruct v; simpl in Hn; lia|].
  destruct Hwt as [b|bits u Hb Hu|bits i Hb Hi|z Hz|b|b|b|t l Hl|t l Hl|ts vs Hs|t v Hv|t Hm];
    simpl in Hn.
  - exists (if b then [1] else [128]). split; [done|]. split; [by destruct b|].
    intros s Hat. etransitivity; [exact (dec_bool n b s Hat)|by destruct b].
  - exists (encodeUint u). split; [done|]. split; [|by intros; apply dec_uint].
    apply encodeUint_pos. unfold is_u64.
    assert (2 ^ bits <= 2 ^ 64) by (apply Z.pow_le_mono_r; lia). lia.
  - exists (encodeUint (u64 i)). split; [done|].
    split; [apply encodeUint_pos, u64_range|by intros; apply dec_int].
  - exists (encodeBigInt z). split; [done|]. split.
    { rewrite encodeBigInt_string. apply encodeString_pos. }
    intros s Hat. simpl. unfold dbind. by rewrite (stream_BigInt_big s z Hat Hz).
  - exists (encodeString b). split; [done|]. split; [apply encodeString_pos|].
    intros s Hat. simpl. unfold dbind. by rewrite (stream_Bytes_string s b Hat).
  - exists (encodeString b). split; [done|]. split; [apply encodeString_pos|].
    intros s Hat. simpl. unfold dbind. by rewrite (stream_Bytes_string s b Hat).
  - exists (encodeString b). split; [done|]. split; [apply encodeString_pos|].
    intros s Hat. simpl. unfold dbind. rewrite (stream_Bytes_string s b Hat).
    unfold dret. rewrite go_copy_full; [done|by rewrite length_replicate].
  - destruct (list_decodes n t l) as (encs & E & HF).
    { intros v Hv. apply IH; [|apply (elem_bound l); [lia|done]].
      rewrite Forall_forall in Hl. by apply Hl, list_elem_of_In. }
    exists (wrapList (concat encs)). split; [simpl; by rewrite E|]. split; [apply wrapList_pos|].
    intros s Hat. simpl. apply list_frame; [done|]. intros s' Hst He Hat'.
    apply (slice_loop_ok _ _ _ _ HF n [] s' _ (stack s)); [lia|by rewrite <- He|lia|done].
  - destruct (list_decodes n t l) as (encs & E & HF).
    { intros v Hv. apply IH; [|apply (elem_bound l); [lia|done]].
      rewrite Forall_forall in Hl. by apply Hl, list_elem_of_In. }
    exists (wrapList (concat encs)). split; [simpl; by rewrite E|]. split; [apply wrapList_pos|].
    intros s Hat. simpl. apply list_frame; [done|]. intros s' Hst He Hat'.
    apply (array_loop_ok _ _ _ _ HF n [] s' _ (stack s)); [lia|by rewrite <- He|lia|done].
  - destruct (struct_decodes n ts vs Hs) as (encs & E & HF).
    { intros t v Hwt Hin. apply IH; [done|].
      pose proof (sum_nat_elem _ _ (in_map (fun f => vsize (f : bool * gval).2) _ _ Hin)) as HS.
      simpl in HS. lia. }
    exists (wrapList (concat encs)). split; [simpl; by rewrite E|]. split; [apply wrapList_pos|].
    intros s Hat. simpl. apply list_frame; [done|]. intros s' Hst He Hat'.
    by apply struct_loop_ok.
  - destruct (IH t v Hv) as [enc Hd]; [lia|]. exists enc. by apply ptr_decodes.
  - exists [128]. split; [done|]. split; [done|]. intros s Hat. simpl.
    rewrite Hm, (stream_Kind_nil s Hat). done.
Qed.

(** ** Canonicality of the reader *)

(** A stream over bytes, positioned inside its limit. *)
Definition stream_ok (s : Stream) : Prop :=
  Forall is_byte (data s) /\ 0 <= pos s /\ limit s <= zlen (data s) /\ zlen (data s) < 2 ^ 63.

Lemma go_index_slice {A} (l : list A) i x : go_index l i = Some x -> go_slice l i (i + 1) = Some [x].
Proof.
  intros H. pose proof (go_index_lt _ _ _ H). unfold go_index in H.
  destruct (Z.leb_spec 0 i); [|lia]. rewrite go_slice_Some by lia.
  replace (i + 1 - i) with 1 by lia. f_equal. change (Z.to_nat 1) with 1%nat.
  rewrite <- (take_drop_middle l (Z.to_nat i) x H) at 1.
  rewrite drop_app_length' by (rewrite length_take; unfold zlen in *; lia). done.
Qed.

Lemma go_slice_join {A} (l : list A) a b c x y :
  go_slice l a b = Some x -> go_slice l b c = Some y -> go_slice l a c = Some (x ++ y).
Proof.
  unfold go_slice. intros Hx Hy. repeat zcase; simplify_eq; zbool; try lia.
  f_equal. replace (Z.to_nat b) with (Z.to_nat a + Z.to_nat (b - a))%nat by lia.
  rewrite <- drop_drop. replace (Z.to_nat (c - a)) with (Z.to_nat (b - a) + Z.to_nat (c - b))%nat by lia.
  by rewrite take_take_drop.
Qed.

Lemma slice_at_item s e raw :
  stream_ok s -> go_slice (data s) (pos s) e = Some raw -> e <= limit s ->
  at_item s raw /\ e = pos s + zlen raw /\ Forall is_byte raw.
Proof.
  intros (Hb & Hp & Hl & H63) E He. pose proof (go_slice_length _ _ _ _ E).
  split; [|split; [lia|by eapply go_slice_Forall]].
  unfold go_slice in E. zcase; [|done]. zbool. simplify_eq.
  exists (take (Z.to_nat (pos s)) (data s)), (drop (Z.to_nat e) (data s)).
  assert (zlen (take (Z.to_nat (pos s)) (data s)) = pos s) as HT.
  { unfold zlen in *. rewrite length_take. lia. }
  rewrite HT. split; [|repeat split; lia].
  replace (Z.to_nat e) with (Z.to_nat (pos s) + Z.to_nat (e - pos s))%nat by lia.
  rewrite <- drop_drop, take_drop, take_drop. done.
Qed.

Lemma take_item_inv {A} start end_ (k : bytes -> A) s a s' :
  take_item start end_ k s = SOk a s' ->
  exists p, go_slice (data s) start end_ = Some p /\ a = k p /\ s' = set_pos end_ s.
Proof. unfold take_item. destruct (go_slice _ _ _) as [p|]; [|done]. intros [= <- <-]. by exists p. Qed.

(** The canonical encoding of an item of a kind. *)
Definition canonical (k : Kind) (p : bytes) : bytes :=
  match k with KList => wrapList p | _ => encodeString p end.

Lemma u8_prefix c n : 0 <= n <= 55 -> 0 <= c <= 200 -> u8 (c + u8 n) = c + n.
Proof. intros. rewrite (u8_small n), u8_small; unfold is_byte; lia. Qed.

Lemma canonical_short k p h :
  k <> KByte -> zlen p <= 55 -> (k = KString -> forall x, p = [x] -> 127 < x) ->
  h = (if k is KList then 192 else 128) + zlen p ->
  canonical k p = h :: p.
Proof.
  intros Hk Hp Hx ->. pose proof (zlen_nonneg p). destruct k; [done| |]; simpl.
  - destruct (encodeString_form p) as [(x & -> & Hle & _)|[(_ & _ & ->)|(? & _)]]; [lia| |done|lia].
    specialize (Hx eq_refl x eq_refl). lia.
  - destruct (wrapList_form p) as [(_ & ->)|(? & _)]; [lia|done|lia].
Qed.

Lemma canonical_long k p h :
  k <> KByte -> 55 < zlen p < 2 ^ 63 ->
  h = (if k is KList then 247 else 183) + zlen (Bytes (zlen p)) ->
  canonical k p = h :: Bytes (zlen p) ++ p.
Proof.
  intros Hk Hp ->. destruct k; [done| |]; simpl.
  - destruct (encodeString_form p) as [(x & -> & _)|[(? & _)|(_ & ->)]]; [lia| |lia|done].
    unfold zlen in Hp. simpl in Hp. lia.
  - destruct (wrapList_form p) as [(? & _)|(_ & ->)]; [lia|lia|done].
Qed.

Lemma read_short_inv k h size s kind p n s' :
  stream_ok s -> k <> KByte -> 0 <= size <= 55 ->
  go_index (data s) (pos s) = Some h -> h = (if k is KList then 192 else 128) + size ->
  read_short k size s = SOk (kind, p, n) s' ->
  exists raw, raw = canonical kind p /\ go_slice (data s) (pos s) (pos s + n) = Some raw /\
    pos s + n <= limit s /\ s' = set_pos (pos s + n) s.
Proof.
  intros Hok Hk Hs Hi Hh H. unfold read_short in H. zcase; [done|]. zbool.
  assert (take_item (pos s + 1) (pos s + 1 + size) (fun q => (k, q, 1 + size)) s
            = SOk (kind, p, n) s' /\
          (k = KString -> size = 1 -> exists x, go_index (data s) (pos s + 1) = Some x /\ 127 < x))
    as [HT Hx].
  { destruct k; [done| |]; [|by destruct (go_index _ _)].
    destruct (go_index (data s) (pos s + 1)) as [x|]; zcase; try done; zbool; (split; [done|]);
      intros _ H1; [exists x; split; [done|lia]|lia]. }
  apply take_item_inv in HT as (q & Hq & [= -> -> ->] & ->).
  pose proof (go_slice_length _ _ _ _ Hq).
  exists (h :: q). rewrite !Z.add_assoc in *. split; [|repeat split; [|lia]].
  - symmetry. apply canonical_short; [done|lia| |by rewrite Hh; do 2 f_equal; lia].
    intros -> x ->. destruct (Hx eq_refl) as (y & Hy & Hgt); [unfold zlen in *; simpl in *; lia|].
    apply go_index_slice in Hy. replace (pos s + 1 + size) with (pos s + 1 + 1) in Hq
      by (unfold zlen in *; simpl in *; lia). rewrite Hq in Hy. by injection Hy as ->.
  - apply (go_slice_join _ _ (pos s + 1) _ [h]); [by apply go_index_slice|done].
Qed.

Lemma read_long_inv k h lol s kind p n s' :
  stream_ok s -> k <> KByte -> 1 <= lol <= 8 ->
  go_index (data s) (pos s) = Some h -> h = (if k is KList then 247 else 183) + lol ->
  read_long k lol s = SOk (kind, p, n) s' ->
  exists raw, raw = canonical kind p /\ go_slice (data s) (pos s) (pos s + n) = Some raw /\
    pos s + n <= limit s /\ s' = set_pos (pos s + n) s.
Proof.
  intros (Hb & Hpos & Hl & H63) Hk Hlol Hi Hh H. unfold read_long in H. zcase; [done|].
  destruct (go_slice (data s) (pos s + 1) (pos s + 1 + lol)) as [sb|] eqn:Esb; [|done].
  pose proof (go_slice_length _ _ _ _ Esb) as Lsb.
  assert (Forall is_byte sb) as Fsb by (by eapply go_slice_Forall).
  assert ((forall t, sb <> 0 :: t) /\
          (let size := i64 (readBigEndian sb) in
           55 < size /\ i64 (pos s + 1 + lol + size) <= limit s /\
           take_item (pos s + 1 + lol) (i64 (pos s + 1 + lol + size))
             (fun q => (k, q, i64 (1 + lol + size))) s = SOk (kind, p, n) s')) as [Hz Hrest].
  { destruct sb as [|[|b|b] t]; try done; repeat zcase; try done; zbool;
      (split; [by intros ? [=]|]); repeat split; try done; lia. }
  clear H. cbv zeta in Hrest. destruct Hrest as (H55 & Hend & HT).
  rewrite readBigEndian_SetBytes in * by (done || (unfold zlen in Lsb; lia)).
  pose proof (SetBytes_range sb Fsb) as HR.
  assert (256 ^ zlen sb <= 2 ^ 64) as HP.
  { change (2 ^ 64) with (256 ^ 8). apply Z.pow_le_mono_r; lia. }
  assert (i64 (SetBytes sb) = SetBytes sb) as Ei.
  { destruct (Z.lt_ge_cases (SetBytes sb) (2 ^ 63)); [apply i64_small; lia|].
    rewrite i64_neg in H55 by lia. lia. }
  rewrite Ei in *. set (size := SetBytes sb) in *.
  apply take_item_inv in HT as (q & Hq & [= -> -> ->] & ->).
  pose proof (go_slice_length _ _ _ _ Hq) as Lq. pose proof (zlen_nonneg q).
  pose proof (i64_range size) as Hsz. rewrite Ei in Hsz. zbool.
  assert (i64 (pos s + 1 + lol + size) = pos s + 1 + lol + size) as Eend.
  { destruct (Z.lt_ge_cases (pos s + 1 + lol + size) (2 ^ 63)); [apply i64_small; lia|].
    rewrite i64_neg in Lq by lia. lia. }
  rewrite Eend in *. rewrite (i64_small (1 + lol + size)) by lia.
  assert (Bytes size = sb) as EB.
  { apply Bytes_unique; [lia|done|done|]. intros h' t' -> ->. by apply (Hz t'). }
  exists (h :: sb ++ q). rewrite !Z.add_assoc in *. repeat split; [| |lia].
  - symmetry. assert (zlen q = size) as Eq by lia.
    rewrite (canonical_long k q h); rewrite ?Eq, ?EB; [done|done|lia|]. rewrite Hh. lia.
  - apply (go_slice_join _ _ (pos s + 1) _ [h]); [by apply go_index_slice|].
    by apply (go_slice_join _ _ (pos s + 1 + lol)).
Qed.

(** C32. The reader accepts only canonical RLP: whatever [readItem] returns as
    an item, the bytes it consumed are exactly the encoder's output for the
    payload, lie inside the current limit, and are as many as the reported
    total; leading zeros in lengths, long forms of short lengths and
    single-byte strings in the two-byte form are all rejected. *)
Theorem readItem_canonical s kind p total s' :
  stream_ok s -> readItem s = SOk (kind, p, total) s' ->
  exists raw,
    raw = (match kind with KList => wrapList p | _ => encodeString p end) /\
    go_slice (data s) (pos s) (pos s + total) = Some raw /\
    zlen raw = total /\ pos s + total <= limit s /\
    s' = mkStream (data s) (pos s + total) (stack s).
Proof.
  intros Hok H. cut (exists raw, raw = canonical kind p /\
    go_slice (data s) (pos s) (pos s + total) = Some raw /\
    pos s + total <= limit s /\ s' = set_pos (pos s + total) s).
  { intros (raw & -> & E & Hl & ->). exists (canonical kind p). repeat split; try done.
    rewrite (go_slice_length _ _ _ _ E). lia. }
  unfold readItem in H. zcase; [done|].
  destruct (go_index (data s) (pos s)) as [h|] eqn:Ei; [|done].
  assert (is_byte h) as Hh.
  { apply go_index_slice in Ei. eapply go_slice_Forall in Ei; [|apply Hok]. by inversion Ei. }
  unfold is_byte in Hh. repeat (zcase; zbool).
  - apply take_item_inv in H as (q & Hq & [= -> -> ->] & ->).
    rewrite (go_index_slice _ _ _ Ei) in Hq. injection Hq as <-. exists [h]. simpl.
    destruct (Z.leb_spec h 127); [|lia]. repeat split; [by apply go_index_slice|lia].
  - by eapply read_short_inv in H; [|done..|lia|exact Ei|simpl; lia].
  - by eapply read_long_inv in H; [|done..|lia|exact Ei|simpl; lia].
  - by eapply read_short_inv in H; [|done..|lia|exact Ei|simpl; lia].
  - by eapply read_long_inv in H; [|done..|lia|exact Ei|simpl; lia].
Qed.

Lemma readItem_canonical_witness :
  stream_ok (newByteStream [131; 100; 111; 103]) /\
  (exists raw,
    raw = encodeString [100; 111; 103] /\
    go_slice (data (newByteStream [131; 100; 111; 103])) 0 (0 + 4) = Some raw /\
    zlen raw = 4 /\ 0 + 4 <= 4 /\
    mkStream [131; 100; 111; 103] 4 [] = mkStream [131; 100; 111; 103] (0 + 4) []).
Proof.
  assert (stream_ok (newByteStream [131; 100; 111; 103])) as Hok.
  { split; [repeat constructor; done|]. repeat split; done. }
  split; [exact Hok|].
  apply (readItem_canonical (newByteStream [131; 100; 111; 103]) KString [100; 111; 103] 4
           (mkStream [131; 100; 111; 103] 4 []) Hok).
  vm_compute. reflexivity.
Defined.

(** Decoding at the start of a byte string. *)
Lemma DecodeBytes_wt t v fuel :
  wt t v -> (vsize v <= fuel)%nat ->
  exists enc, EncodeToBytes v = EOk enc /\
    forall rest, zlen (enc ++ rest) < 2 ^ 63 ->
      DecodeBytes fuel t (enc ++ rest) = SOk v (mkStream (enc ++ rest) (zlen enc) []).
Proof.
  intros Hwt Hf. destruct (decodes_wt fuel t v Hwt Hf) as (enc & E & _ & Hd).
  exists enc. split; [done|]. intros rest Hr. unfold DecodeBytes. rewrite Hd; [done|].
  exists [], rest. pose proof (zlen_nonneg rest). unfold limit. simpl.
  rewrite zlen_app in *. repeat split; try done; rewrite ?zlen_app; unfold zlen in *; simpl; lia.
Qed.

(** C31. Decoding inverts encoding: every value of a type that the encoding
    determines (see [wt]) has an encoding, and decoding that encoding into a
    fresh variable of the type, with enough fuel, gives the value back and
    stops exactly at the end of the encoding, whatever bytes follow it. *)
Theorem DecodeBytes_EncodeToBytes t v fuel :
  wt t v -> (vsize v <= fuel)%nat ->
  exists enc, EncodeToBytes v = EOk enc /\
    forall rest, zlen (enc ++ rest) < 2 ^ 63 ->
      DecodeBytes fuel t (enc ++ rest) = SOk v (mkStream (enc ++ rest) (zlen enc) []).
Proof.
  intros Hwt Hf. by apply DecodeBytes_wt.
Qed.

Lemma DecodeBytes_EncodeToBytes_witness :
  exists enc,
    EncodeToBytes (GStruct [(true, GUint 1024); (false, GBool false);
                            (true, GPtr (GStruct [(true, GBytes [1; 2; 255])]));
                            (true, GSlice [GBig true 0; GBig true 300])]) = EOk enc /\
    (zlen (enc ++ [7]) < 2 ^ 63 ->
     DecodeBytes 20 (TStruct [(true, TUint 64); (false, TBool);
                              (true, TPtr (TStruct [(true, TBytes)])); (true, TSlice TBig)])
       (enc ++ [7])
     = SOk (GStruct [(true, GUint 1024); (false, GBool false);
                     (true, GPtr (GStruct [(true, GBytes [1; 2; 255])]));
                     (true, GSlice [GBig true 0; GBig true 300])])
         (mkStream (enc ++ [7]) (zlen enc) [])).
Proof.
  destruct (DecodeBytes_EncodeToBytes
    (TStruct [(true, TUint 64); (false, TBool);
              (true, TPtr (TStruct [(true, TBytes)])); (true, TSlice TBig)])
    (GStruct [(true, GUint 1024); (false, GBool false);
              (true, GPtr (GStruct [(true, GBytes [1; 2; 255])]));
              (true, GSlice [GBig true 0; GBig true 300])]) 20) as (enc & E & H).
  - repeat first [apply wtf_exported | apply wtf_unexported | constructor]; lia.
  - vm_compute. lia.
  - exists enc. split; [exact E|]. apply H.
Defined.

(** ** The reflection-free encoders *)

Lemma zlen_Bytes_uintByteLen u : 0 < u < 2 ^ 64 -> zlen (Bytes u) = uintByteLen u.
Proof.
  intros H. unfold uintByteLen. repeat (case (Z.ltb_spec u); intros);
    [rewrite (Bytes_be u 0) | rewrite (Bytes_be u 1) | rewrite (Bytes_be u 2)
    | rewrite (Bytes_be u 3) | rewrite (Bytes_be u 4) | rewrite (Bytes_be u 5)
    | rewrite (Bytes_be u 6) | rewrite (Bytes_be u 7)];
    try (unfold zlen; by rewrite length_be_bytes); simpl Z.of_nat; lia.
Qed.

Lemma AppendUint64_encodeUint dst v : is_u64 v -> AppendUint64 dst v = dst ++ encodeUint v.
Proof.
  intros Hv. unfold AppendUint64, encodeUint. unfold is_u64 in Hv.
  destruct (Z.eqb_spec v 0); [done|]. destruct (Z.ltb_spec v 128); [done|].
  rewrite putUintBE_Bytes, putUintBigEndian_Bytes by lia.
  pose proof (byte_len_u64 v ltac:(lia)). pose proof (length_Bytes v).
  rewrite <- app_assoc. f_equal. unfold encodeString.
  destruct (Bytes v) as [|x [|y r]] eqn:E; [done| |].
  - destruct (Z.leb_spec x 127); [|done].
    pose proof (SetBytes_Bytes v) as HS. rewrite E in HS. unfold SetBytes in HS. simpl in HS. lia.
  - unfold zlen. destruct (Z.leb_spec (Z.of_nat (length (x :: y :: r))) 55); [done|lia].
Qed.

Lemma AppendBytes_encodeString dst d : zlen d < 2 ^ 63 -> AppendBytes dst d = dst ++ encodeString d.
Proof.
  intros H. unfold AppendBytes, encodeString. pose proof (zlen_nonneg d).
  destruct d as [|x [|y r]]; repeat zcase; rewrite <- ?app_assoc; try done; zbool.
  rewrite u64_small, putUintBE_Bytes, putUintBigEndian_Bytes by (unfold is_u64; lia). done.
Qed.

Lemma AppendListHeader_wrapList dst p :
  zlen p < 2 ^ 63 -> AppendListHeader dst (zlen p) ++ p = dst ++ wrapList p.
Proof.
  intros H. unfold AppendListHeader, wrapList. pose proof (zlen_nonneg p).
  zcase; rewrite <- ?app_assoc; try done; zbool.
  rewrite u64_small, putUintBE_Bytes, putUintBigEndian_Bytes by (unfold is_u64; lia). done.
Qed.

Lemma zlen_wrapList p : zlen p < 2 ^ 63 -> zlen (wrapList p) = EstimateListSize (zlen p).
Proof.
  intros H. unfold EstimateListSize. pose proof (zlen_nonneg p).
  destruct (wrapList_form p H) as [(H55 & ->)|(H55 & ->)];
    destruct (Z.leb_spec (zlen p) 55); try lia; rewrite zlen_cons, ?zlen_app; [lia|].
  rewrite u64_small, zlen_Bytes_uintByteLen by (unfold is_u64; lia). lia.
Qed.

Lemma zlen_encodeString d :
  zlen d < 2 ^ 63 -> zlen d <> 1 -> zlen (encodeString d) = EstimateStringSize (zlen d).
Proof.
  intros H H1. unfold EstimateStringSize. destruct (Z.eqb_spec (zlen d) 1); [done|].
  pose proof (zlen_nonneg d).
  destruct (encodeString_form d H) as [(x & -> & _)|[(H55 & _ & ->)|(H55 & ->)]]; [done|..];
    destruct (Z.leb_spec (zlen d) 55); try lia; rewrite zlen_cons, ?zlen_app; [lia|].
  rewrite u64_small, zlen_Bytes_uintByteLen by (unfold is_u64; lia). lia.
Qed.

Lemma EncodeUint64_Append v : EncodeUint64 v = AppendUint64 [] v.
Proof. unfold EncodeUint64, AppendUint64. by repeat zcase. Qed.

Lemma encode_fixed (n : nat) d :
  length d = n -> (1 < n <= 55)%nat -> encodeString d = (128 + Z.of_nat n) :: d.
Proof.
  intros Hl Hn. destruct (encodeString_form d) as [(x & -> & _)|[(_ & _ & ->)|(H & _)]];
    unfold zlen in *; rewrite ?Hl; simpl in *; try lia. done.
Qed.

(** The reflection-free encoders of encoder_pool.go produce, byte for
    byte, what the reflective [EncodeToBytes] produces for the same value,
    the append forms after what is already in the buffer; a list header
    followed by the payload is the encoder's list; and the size estimates
    are the exact sizes, single-byte strings excepted.  A batch is encoded
    as the list of its items. *)
Lemma pooled_encoders_agree (dst d : bytes) (v : Z) (b : bool) (a32 a20 : bytes) items :
  is_u64 v -> zlen d < 2 ^ 63 -> length a32 = 32%nat -> length a20 = 20%nat ->
  EncodeToBytes (GUint v) = EOk (EncodeUint64 v) /\
  EncodeToBytes (GByteArray a32) = EOk (EncodeBytes32 a32) /\
  EncodeToBytes (GByteArray a20) = EOk (EncodeBytes20 a20) /\
  EncodeToBytes (GBool b) = EOk (EncodeBool b) /\
  EncodeToBytes (GSlice items) = EncodeBatch items /\
  map_eres (app dst) (EncodeToBytes (GUint v)) = EOk (AppendUint64 dst v) /\
  map_eres (app dst) (EncodeToBytes (GBytes d)) = EOk (AppendBytes dst d) /\
  AppendListHeader dst (zlen d) ++ d = dst ++ WrapList d /\
  zlen (WrapList d) = EstimateListSize (zlen d) /\
  (zlen d <> 1 -> map_eres (fun e => [zlen e]) (EncodeToBytes (GBytes d))
                  = EOk [EstimateStringSize (zlen d)]).
Proof.
  intros Hv Hd H32 H20. unfold EncodeToBytes, WrapList. simpl.
  rewrite EncodeUint64_Append, !AppendUint64_encodeUint, AppendBytes_encodeString by done.
  rewrite AppendListHeader_wrapList, zlen_wrapList by done.
  rewrite (encode_fixed 32 a32), (encode_fixed 20 a20) by (done || lia).
  repeat split; try done. intros H1. by rewrite zlen_encodeString.
Qed.

Lemma pooled_encoders_agree_witness :
  EncodeToBytes (GUint 1024) = EOk (EncodeUint64 1024) /\
  map_eres (app [9]) (EncodeToBytes (GBytes [200; 1])) = EOk (AppendBytes [9] [200; 1]).
Proof.
  destruct (pooled_encoders_agree [9] [200; 1] 1024 true (zeros 32) (zeros 20) [])
    as (H1 & _ & _ & _ & _ & _ & H2 & _); [unfold is_u64; lia|vm_compute; done|done|done|].
  split; [exact H1|exact H2].
Defined.

(** ** Inputs on which the reader panics or loops *)

(** Number of length bytes of a long-form prefix. *)
Definition len_of_len (h : Z) : Z := if h <=? 191 then h - 183 else h - 247.

Lemma take_item_no_panic {A} start end_ (k : bytes -> A) s :
  0 <= start <= end_ -> end_ <= zlen (data s) -> take_item start end_ k s <> SPanic.
Proof. intros H1 H2. unfold take_item. by rewrite go_slice_Some. Qed.

Lemma read_short_no_panic k size s :
  stream_ok s -> 0 <= size -> read_short k size s <> SPanic.
Proof.
  intros (Hb & Hp & Hl & H63) Hs. unfold read_short. zcase; [done|]. zbool.
  assert (take_item (pos s + 1) (pos s + 1 + size) (fun p => (k, p, 1 + size)) s <> SPanic)
    by (apply take_item_no_panic; lia).
  destruct k; destruct (go_index (data s) (pos s + 1)) eqn:E; repeat zcase; try done. zbool.
  destruct (go_index_is_Some (data s) (pos s + 1)) as [x Hx]; [lia|congruence].
Qed.

(** The declared length of a long form fits an [int], but its end does not. *)
Definition length_overflow (s : Stream) (lol : Z) : Prop :=
  exists sb, go_slice (data s) (pos s + 1) (pos s + 1 + lol) = Some sb /\
    (forall t, sb <> 0 :: t) /\ pos s + 1 + lol <= limit s /\
    55 < SetBytes sb < 2 ^ 63 /\ 2 ^ 63 <= pos s + 1 + lol + SetBytes sb.

Lemma read_long_panic_iff k lol s :
  stream_ok s -> 1 <= lol <= 8 -> read_long k lol s = SPanic <-> length_overflow s lol.
Proof.
  intros (Hb & Hp & Hl & H63) Hlol. unfold read_long, length_overflow.
  destruct (Z.gtb_spec (pos s + 1 + lol) (limit s)).
  { split; [done|]. intros (sb & _ & _ & ? & _). lia. }
  rewrite (go_slice_Some _ (pos s + 1)) by lia.
  set (sb := take _ _).
  assert (zlen sb = lol) as Lsb.
  { subst sb. unfold zlen in *. rewrite length_take, length_drop. lia. }
  assert (Forall is_byte sb) as Fsb by (by apply Forall_take, Forall_drop).
  clearbody sb. rewrite readBigEndian_SetBytes by (done || (unfold zlen in Lsb; lia)).
  pose proof (SetBytes_range sb Fsb) as HR.
  assert (256 ^ zlen sb <= 2 ^ 64) as HP.
  { change (2 ^ 64) with (256 ^ 8). apply Z.pow_le_mono_r; lia. }
  set (rest := if i64 (SetBytes sb) <=? 55 then _ else _).
  assert (rest = SPanic <->
          55 < SetBytes sb < 2 ^ 63 /\ 2 ^ 63 <= pos s + 1 + lol + SetBytes sb) as Hrest.
  { subst rest. destruct (Z.lt_ge_cases (SetBytes sb) (2 ^ 63)).
    - rewrite (i64_small (SetBytes sb)) by lia. zcase; zbool; [split; [done|lia]|].
      destruct (Z.lt_ge_cases (pos s + 1 + lol + SetBytes sb) (2 ^ 63)).
      + rewrite (i64_small (_ + SetBytes sb)) by lia. zcase; zbool; (split; [|lia]); [done|].
        intros E. exfalso. revert E. apply take_item_no_panic; lia.
      + rewrite (i64_neg (_ + SetBytes sb)) by lia. zcase; zbool; [lia|].
        split; [lia|intros _]. unfold take_item, go_slice.
        destruct (Z.leb_spec (pos s + 1 + lol) (pos s + 1 + lol + SetBytes sb - 2 ^ 64)); [lia|].
        by rewrite andb_false_r.
    - rewrite (i64_neg (SetBytes sb)) by lia. zcase; zbool; [split; [done|lia]|lia]. }
  transitivity ((forall t, sb <> 0 :: t) /\ rest = SPanic).
  - destruct sb as [|[|x|x] t]; 
      try (split; [intros Hr; split; [by intros ? [=]|exact Hr]|by intros [_ Hr]]).
    split; [done|]. intros [Hz _]. by destruct (Hz t).
  - rewrite Hrest. split; [intros [Hz Hov]; exists sb; by split_and!; try lia|].
    intros (sb' & [= <-] & Hz & _ & Hov). done.
Qed.

(** The reader panics on exactly one class of inputs: a long-form string
    or list whose declared length fits an [int] but whose end, computed as
    [start + size] in [int], overflows and turns negative, so that the limit
    check passes and the slice expression panics.  Every other malformed
    input is rejected with an error. *)
Lemma readItem_panic_iff s :
  stream_ok s ->
  readItem s = SPanic <->
  pos s < limit s /\
  exists h, go_index (data s) (pos s) = Some h /\ (183 < h <= 191 \/ 247 < h) /\
    length_overflow s (len_of_len h).
Proof.
  intros Hok. pose proof Hok as (Hb & Hp & Hl & H63). unfold readItem.
  destruct (Z.geb_spec (pos s) (limit s)); [split; [done|lia]|].
  destruct (go_index_is_Some (data s) (pos s)) as [h Eh]; [lia|]. rewrite Eh.
  assert (is_byte h) as Hh.
  { apply go_index_slice in Eh. eapply go_slice_Forall in Eh; [|done]. by inversion Eh. }
  unfold is_byte in Hh.
  assert (forall P : Prop, (P <-> (183 < h <= 191 \/ 247 < h) /\ length_overflow s (len_of_len h)) ->
    P <-> pos s < limit s /\ exists h', Some h = Some h' /\ (183 < h' <= 191 \/ 247 < h') /\
      length_overflow s (len_of_len h')) as Hgoal.
  { intros P ->. split; [intros [? ?]; split; [lia|by exists h]|].
    intros (_ & h' & [= <-] & ? & ?). done. }
  apply Hgoal. unfold len_of_len. repeat (zcase; zbool); try lia.
  - split; [|lia]. intros E. exfalso. revert E. apply take_item_no_panic; lia.
  - split; [|lia]. intros E. exfalso. revert E. by apply read_short_no_panic; [|lia].
  - rewrite read_long_panic_iff by (done || lia). split; [intros; split; [lia|done]|by intros []].
  - split; [|lia]. intros E. exfalso. revert E. by apply read_short_no_panic; [|lia].
  - rewrite read_long_panic_iff by (done || lia). split; [intros; split; [lia|done]|by intros []].
Qed.

Lemma readItem_panic_iff_witness :
  readItem (newByteStream [191; 127; 255; 255; 255; 255; 255; 255; 255]) = SPanic.
Proof.
  apply (readItem_panic_iff (newByteStream [191; 127; 255; 255; 255; 255; 255; 255; 255])).
  - split; [repeat constructor; done|]. repeat split; done.
  - split; [done|]. exists 191. split; [done|]. split; [lia|].
    exists [127; 255; 255; 255; 255; 255; 255; 255]. repeat split; done.
Defined.

Lemma array_loop_stuck dec t lf i vs s e st :
  (length vs <= i)%nat -> stack s = e :: st -> pos s < e ->
  array_loop dec lf t i vs s = SFuel.
Proof.
  intros Hi Hst He. revert i Hi. induction lf as [|lf IH]; intros i Hi; [done|].
  cbn [array_loop]. rewrite Hst. destruct (Z.ltb_spec (pos s) e); [|lia].
  rewrite lookup_ge_None_2 by lia. apply IH. lia.
Qed.

Lemma array_loop_long dec t l encs extra :
  Forall2 (dec_ok dec t) l encs -> 0 < extra ->
  forall lf vs s e st,
    stack s = e :: st -> e = pos s + zlen (concat encs) + extra -> at_item s (concat encs) ->
    array_loop dec lf t (length vs) (vs ++ replicate (length l) (zero_val t)) s = SFuel.
Proof.
  intros HF Hx. induction HF as [|v enc l encs [Hpos Hdec] _ IH]; intros lf vs s e st Hst He Hat;
    simpl concat in *.
  - rewrite zlen_nil in He. eapply array_loop_stuck; [|exact Hst|lia].
    rewrite length_app. simpl. lia.
  - destruct lf as [|lf]; [done|]. cbn [array_loop]. rewrite Hst.
    pose proof (zlen_nonneg (concat encs)). rewrite zlen_app in He.
    destruct (Z.ltb_spec (pos s) e); [|lia]. simpl replicate.
    rewrite list_lookup_middle by done.
    rewrite (Hdec s (at_item_prefix _ _ _ Hat)).
    rewrite insert_app_r_alt, Nat.sub_diag by lia. simpl insert.
    replace (S (length vs)) with (length (vs ++ [v])) by (rewrite length_app; simpl; lia).
    replace (vs ++ v :: replicate (length l) (zero_val t))
      with ((vs ++ [v]) ++ replicate (length l) (zero_val t)) by (by rewrite <- app_assoc).
    apply (IH lf (vs ++ [v]) _ e st); [done|rewrite pos_set_pos; lia|by apply at_item_next].
Qed.

Lemma uints_dec_ok n us :
  Forall is_u64 us ->
  Forall2 (dec_ok (decodeInto (S n)) (TUint 64)) (map GUint us) (map encodeUint us).
Proof.
  induction 1 as [|u us Hu _ IH]; [constructor|]. constructor; [|exact IH].
  split; [by apply encodeUint_pos|]. intros s Hat. apply dec_uint; [lia|exact Hu|exact Hat].
Qed.

(** Decoding a list into a fixed-size array that is shorter than the list
    never terminates: once the array is full the loop of [decodeList] no
    longer consumes input, so no amount of fuel yields a result or an
    error.  Shown for arrays of unsigned integers and the encoding of any
    longer list of them. *)
Lemma decode_overlong_array_diverges (us more : list Z) u fuel enc :
  Forall is_u64 (us ++ u :: more) ->
  EncodeToBytes (GSlice (map GUint (us ++ u :: more))) = EOk enc -> zlen enc < 2 ^ 63 ->
  DecodeBytes fuel (TArray (length us) (TUint 64)) enc = SFuel.
Proof.
  intros HF E Hlen. unfold EncodeToBytes in E. simpl in E.
  rewrite map_map in E. rewrite (concat_enc_ok _ (map encodeUint (us ++ u :: more))) in E
    by (by rewrite map_map). simpl in E. injection E as <-.
  set (p := concat (map encodeUint (us ++ u :: more))) in *.
  destruct fuel as [|fuel]; [done|]. unfold DecodeBytes. cbn [decodeInto].
  assert (at_item (newByteStream (wrapList p)) (wrapList p)) as Hat.
  { exists [], []. rewrite app_nil_r. unfold limit. simpl. repeat split; try done; lia. }
  unfold dbind at 1. rewrite (stream_List_wrap _ p Hat). unfold dbind at 1.
  destruct fuel as [|fuel]; [done|].
  apply Forall_app in HF as [Hus Hmore]. inversion Hmore as [|? ? Hu Hm]; subst.
  assert (p = concat (map encodeUint us) ++ (encodeUint u ++ concat (map encodeUint more))) as Ep.
  { unfold p. by rewrite map_app, concat_app. }
  pose proof (at_item_payload _ p Hat) as Hat'. simpl zero_val.
  rewrite <- (length_map GUint us).
  rewrite (array_loop_long _ _ _ _ (zlen (encodeUint u ++ concat (map encodeUint more)))
    (uints_dec_ok fuel us Hus)) with (vs := []) (e := 0 + zlen (wrapList p)) (st := []); try done.
  - pose proof (encodeUint_pos u Hu). pose proof (zlen_nonneg (concat (map encodeUint more))).
    rewrite zlen_app. lia.
  - pose proof (f_equal zlen Ep) as Lp. rewrite zlen_app in Lp. simpl pos. lia.
  - eapply at_item_prefix. rewrite <- Ep. exact Hat'.
Qed.

Lemma decode_overlong_array_diverges_witness :
  DecodeBytes 1000 (TArray 1 (TUint 64)) [194; 1; 2] = SFuel.
Proof.
  apply (decode_overlong_array_diverges [1] [] 2 1000 [194; 1; 2]);
    [repeat constructor; unfold is_u64; lia|reflexivity|done].
Defined.
