(* ===== verification/StateDB.v ===== *)
(** * StateDB: the world-state interface of the EVM

    The Go interface [vm.StateDB] (pkg/core/vm/interpreter.go, with the
    log getters of pkg/core/state/statedb.go) as a class of operations over
    a state type, and the contract its clients rely on as a class of laws.
    The EVM theorems are proved against [StateDBLaws]; MemStateDB.v shows
    that [MemoryStateDB] satisfies it. *)

From S2P Require Import Prelude.

(** ** Addresses, hashes and logs (core/types/common.go) *)

(** [types.Address] and [types.Hash] are fixed-size byte arrays; the model
    identifies them with their big-endian value. *)
Abbreviation Address := Z (only parsing).
Abbreviation Hash := Z (only parsing).

Definition BytesToHash (b : bytes) : Hash := SetBytes b mod 2 ^ 256.

Definition BytesToAddress (b : bytes) : Address := SetBytes b mod 2 ^ 160.

Definition EmptyCodeHash : Hash :=
  0xc5d2460186f7233c927e7db2dcc703c0e500b653ca82273b7bfad8045d85a470.

(** The fields of [types.Log] that the EVM and the state database set. *)
Record Log := mkLog {
  log_Address : Address;
  log_Topics : list Hash;
  log_Data : bytes;
  log_TxHash : Hash;
  log_TxIndex : Z;
}.

(** ** Operations

    Getters take the state first, mutators return the new state.
    [RevertToSnapshot] is partial: [None] is a Go run-time panic. *)
Class StateDB (DB : Type) := {
  CreateAccount : Address -> DB -> DB;
  GetBalance : DB -> Address -> Z;
  AddBalance : Address -> Z -> DB -> DB;
  SubBalance : Address -> Z -> DB -> DB;
  GetNonce : DB -> Address -> Z;
  SetNonce : Address -> Z -> DB -> DB;
  GetCode : DB -> Address -> bytes;
  SetCode : Address -> bytes -> DB -> DB;
  GetCodeHash : DB -> Address -> Hash;
  GetCodeSize : DB -> Address -> Z;
  GetState : DB -> Address -> Hash -> Hash;
  SetState : Address -> Hash -> Hash -> DB -> DB;
  GetCommittedState : DB -> Address -> Hash -> Hash;
  GetTransientState : DB -> Address -> Hash -> Hash;
  SetTransientState : Address -> Hash -> Hash -> DB -> DB;
  SelfDestruct : Address -> DB -> DB;
  HasSelfDestructed : DB -> Address -> bool;
  Exist : DB -> Address -> bool;
  Empty : DB -> Address -> bool;
  Snapshot : DB -> Z * DB;
  RevertToSnapshot : Z -> DB -> option DB;
  AddLog : Log -> DB -> DB;
  GetLogs : DB -> Hash -> list Log;
  AddRefund : Z -> DB -> DB;
  SubRefund : Z -> DB -> DB;
  GetRefund : DB -> Z;
  AddAddressToAccessList : Address -> DB -> DB;
  AddSlotToAccessList : Address -> Hash -> DB -> DB;
  AddressInAccessList : DB -> Address -> bool;
  SlotInAccessList : DB -> Address -> Hash -> bool * bool;
}.

(** ** Mutations as data

    The journaled mutators, so that a law about all of them is stated
    once. *)
Inductive mutation :=
  | MCreateAccount (a : Address)
  | MAddBalance (a : Address) (v : Z)
  | MSubBalance (a : Address) (v : Z)
  | MSetNonce (a : Address) (n : Z)
  | MSetCode (a : Address) (c : bytes)
  | MSetState (a : Address) (k v : Hash)
  | MSetTransientState (a : Address) (k v : Hash)
  | MSelfDestruct (a : Address)
  | MAddLog (l : Log)
  | MAddRefund (g : Z)
  | MSubRefund (g : Z)
  | MAddAddressToAccessList (a : Address)
  | MAddSlotToAccessList (a : Address) (k : Hash).

Definition mutate `{StateDB DB} (m : mutation) (s : DB) : DB :=
  match m with
  | MCreateAccount a => CreateAccount a s
  | MAddBalance a v => AddBalance a v s
  | MSubBalance a v => SubBalance a v s
  | MSetNonce a n => SetNonce a n s
  | MSetCode a c => SetCode a c s
  | MSetState a k v => SetState a k v s
  | MSetTransientState a k v => SetTransientState a k v s
  | MSelfDestruct a => SelfDestruct a s
  | MAddLog l => AddLog l s
  | MAddRefund g => AddRefund g s
  | MSubRefund g => SubRefund g s
  | MAddAddressToAccessList a => AddAddressToAccessList a s
  | MAddSlotToAccessList a k => AddSlotToAccessList a k s
  end.

(** ** Observations

    [same_world s r]: every getter of the interface that does not read the
    access list gives the same in [r] as in [s], with one exception: an
    account that does not exist in [s] may exist in [r], as an empty account
    whose code hash is that of empty code.  Balance, nonce, code, storage and
    emptiness of such an account still read as before; only [Exist] and
    [GetCodeHash] tell the difference. *)
Record same_world `{StateDB DB} (s r : DB) : Prop := {
  sw_balance : forall a, GetBalance r a = GetBalance s a;
  sw_nonce : forall a, GetNonce r a = GetNonce s a;
  sw_code : forall a, GetCode r a = GetCode s a;
  sw_state : forall a k, GetState r a k = GetState s a k;
  sw_committed : forall a k, GetCommittedState r a k = GetCommittedState s a k;
  sw_transient : forall a k, GetTransientState r a k = GetTransientState s a k;
  sw_destructed : forall a, HasSelfDestructed r a = HasSelfDestructed s a;
  sw_logs : forall h, GetLogs r h = GetLogs s h;
  sw_refund : GetRefund r = GetRefund s;
  sw_size : forall a, GetCodeSize r a = GetCodeSize s a;
  sw_empty : forall a, Empty r a = Empty s a;
  sw_exist : forall a, Exist s a = true -> Exist r a = true /\ GetCodeHash r a = GetCodeHash s a;
  sw_absent : forall a, Exist s a = false ->
    if Exist r a then Empty r a = true /\ GetCodeHash r a = EmptyCodeHash
    else GetCodeHash r a = GetCodeHash s a;
}.

(** What a revert restores: the world, and the access list with it; these are
    all the getters of the interface. *)
Record restored `{StateDB DB} (s r : DB) : Prop := {
  rs_world : same_world s r;
  rs_address : forall a, AddressInAccessList r a = AddressInAccessList s a;
  rs_slot : forall a k, SlotInAccessList r a k = SlotInAccessList s a k;
}.

#[export] Instance same_world_preorder `{StateDB DB} : PreOrder (same_world (DB := DB)).
Proof.
  split.
  - intros s. split; try done. intros a Ha. by rewrite Ha.
  - intros s1 s2 s3 H1 H2. split; [intros; etransitivity; [apply H2|apply H1]..| |]; intros a Ha.
    + destruct (sw_exist _ _ H1 a) as [E1 C1]; [done|].
      destruct (sw_exist _ _ H2 a) as [E2 C2]; [done|]. split; [done|congruence].
    + pose proof (sw_absent _ _ H1 a Ha) as A1. destruct (Exist s2 a) eqn:E2.
      * destruct (sw_exist _ _ H2 a E2) as [-> ->]. rewrite (sw_empty _ _ H2). exact A1.
      * pose proof (sw_absent _ _ H2 a E2) as A2. destruct (Exist s3 a); [exact A2|congruence].
Qed.

#[export] Instance restored_preorder `{StateDB DB} : PreOrder (restored (DB := DB)).
Proof.
  split.
  - intros s. by split.
  - intros s1 s2 s3 H1 H2. split; intros.
    + etransitivity; [apply H1|apply H2].
    + etransitivity; [apply H2|apply H1].
    + etransitivity; [apply H2|apply H1].
Qed.

(** ** The contract

    [live id s0 s]: the snapshot [id], taken in state [s0], is still valid
    in [s].  [supply s] is the sum of all balances. *)
Class StateDBLaws (DB : Type) `{StateDB DB} := {
  live : Z -> DB -> DB -> Prop;
  supply : DB -> Z;
  wf_state : DB -> Prop;

  (** Well-formedness is preserved by every operation. *)
  wf_mutate : forall m s, wf_state s -> wf_state (mutate m s);
  wf_snapshot : forall s, wf_state s -> wf_state (Snapshot s).2;
  wf_revert : forall id s r, wf_state s -> RevertToSnapshot id s = Some r -> wf_state r;

  (** Snapshots are numbered upwards and survive mutations, later snapshots
      and reverts to later snapshots. *)
  live_new : forall s, wf_state s -> live (Snapshot s).1 s (Snapshot s).2;
  live_fresh : forall id s0 s, wf_state s -> live id s0 s -> id < (Snapshot s).1;
  live_mutate : forall id s0 s m, wf_state s -> live id s0 s -> live id s0 (mutate m s);
  live_snapshot : forall id s0 s, wf_state s -> live id s0 s -> live id s0 (Snapshot s).2;
  live_revert : forall id id' s0 s1 s r, wf_state s ->
    live id s0 s -> live id' s1 s -> id < id' ->
    RevertToSnapshot id' s = Some r -> live id s0 r;

  (** Reverting restores what was observable when the snapshot was taken. *)
  revert_restored : forall id s0 s r, wf_state s ->
    live id s0 s -> RevertToSnapshot id s = Some r -> restored s0 r;
  revert_supply : forall id s0 s r, wf_state s ->
    live id s0 s -> RevertToSnapshot id s = Some r -> supply r = supply s0;

  (** Reads that do not observe the access list are unaffected by it, by
      taking a snapshot, and by materialising an empty account. *)
  same_AddAddress : forall a s, same_world s (AddAddressToAccessList a s);
  same_AddSlot : forall a k s, same_world s (AddSlotToAccessList a k s);
  same_Snapshot : forall s, same_world s (Snapshot s).2;
  same_CreateAccount : forall a s, Exist s a = false -> same_world s (CreateAccount a s);

  (** Warming warms, and nothing cools down. *)
  warm_AddAddress : forall a b s,
    AddressInAccessList (AddAddressToAccessList a s) b
    = bool_decide (a = b) || AddressInAccessList s b;

  (** Balances and their sum. *)
  balance_Add : forall a v s b,
    GetBalance (AddBalance a v s) b = if bool_decide (a = b) then GetBalance s b + v else GetBalance s b;
  balance_Sub : forall a v s b,
    GetBalance (SubBalance a v s) b = if bool_decide (a = b) then GetBalance s b - v else GetBalance s b;
  balance_mutate : forall m s b,
    match m with MCreateAccount _ | MAddBalance _ _ | MSubBalance _ _ | MSelfDestruct _ => True
    | _ => GetBalance (mutate m s) b = GetBalance s b end;
  supply_Add : forall a v s, supply (AddBalance a v s) = supply s + v;
  supply_Sub : forall a v s, supply (SubBalance a v s) = supply s - v;
  supply_Create : forall a s, Exist s a = false -> supply (CreateAccount a s) = supply s;
  supply_Snapshot : forall s, supply (Snapshot s).2 = supply s;
  supply_mutate : forall m s,
    match m with MCreateAccount _ | MAddBalance _ _ | MSubBalance _ _ | MSelfDestruct _ => True
    | _ => supply (mutate m s) = supply s end;
}.
