(* ===== verification/MemStateDB.v ===== *)
(** * MemStateDB: the in-memory state database

    [MemoryStateDB] of pkg/core/state/memory_statedb.go with its journal
    (journal.go) and access list (access_list.go).  Go maps are finite maps;
    state objects, which the Go code shares by pointer only between the
    account map and the journal entry that replaced them, are values. *)

From S2P Require Import Prelude StateDB.

#[local] Set Warnings "-register-all".

(** ** State objects *)

(** types.Account *)
Record Account := mkAccount {
  Nonce : Z;
  Balance : Z;
  Root : Hash;
  CodeHash : bytes;
}.

Record stateObject := mkObject {
  account : Account;
  code : bytes;
  dirtyStorage : gmap Z Z;
  committedStorage : gmap Z Z;
  selfDestructed : bool;
  dbStorageRoot : Hash;
}.

Definition EmptyRootHash : Hash :=
  0x56e81f171bcc55a6ff8345e692c0f86e5b48e01b996cadc001622fb5e363b421.

Definition NewAccount : Account := mkAccount 0 0 EmptyRootHash (be_bytes 32 EmptyCodeHash).

Definition newStateObject : stateObject := mkObject NewAccount [] ∅ ∅ false 0.

Definition set_account (f : Account -> Account) (o : stateObject) : stateObject :=
  mkObject (f (account o)) (code o) (dirtyStorage o) (committedStorage o)
    (selfDestructed o) (dbStorageRoot o).

Definition obj_setBalance (b : Z) : stateObject -> stateObject :=
  set_account (fun c => mkAccount (Nonce c) b (Root c) (CodeHash c)).

Definition obj_setNonce (n : Z) : stateObject -> stateObject :=
  set_account (fun c => mkAccount n (Balance c) (Root c) (CodeHash c)).

Definition obj_setCode (cd : bytes) (h : bytes) (o : stateObject) : stateObject :=
  mkObject (mkAccount (Nonce (account o)) (Balance (account o)) (Root (account o)) h) cd
    (dirtyStorage o) (committedStorage o) (selfDestructed o) (dbStorageRoot o).

Definition obj_setDirty (d : gmap Z Z) (o : stateObject) : stateObject :=
  mkObject (account o) (code o) d (committedStorage o) (selfDestructed o) (dbStorageRoot o).

Definition obj_setDestructed (b : bool) (bal : Z) (o : stateObject) : stateObject :=
  obj_setBalance bal
    (mkObject (account o) (code o) (dirtyStorage o) (committedStorage o) b (dbStorageRoot o)).

(** ** Access list (access_list.go) *)

(** [addresses] maps an address to its index in [slots], or to -1. *)
Record accessList := mkAL {
  addresses : gmap Z Z;
  slots : list (gset Z);
}.

Definition newAccessList : accessList := mkAL ∅ [].

Definition AddAddress (a : Address) (al : accessList) : bool * accessList :=
  match addresses al !! a with
  | Some _ => (true, al)
  | None => (false, mkAL (<[a := -1]> (addresses al)) (slots al))
  end.

(** [al.slots[idx]]; the indices stored in [addresses] are in range
    ([al_wf] below), so the default is never used. *)
Definition slot_set (al : accessList) (idx : Z) : gset Z :=
  default ∅ (slots al !! Z.to_nat idx).

Definition AddSlot (a : Address) (k : Hash) (al : accessList) : (bool * bool) * accessList :=
  match addresses al !! a with
  | Some idx =>
      if negb (idx =? -1) then
        if bool_decide (k ∈ slot_set al idx) then ((true, true), al)
        else ((true, false),
              mkAL (addresses al) (<[Z.to_nat idx := {[k]} ∪ slot_set al idx]> (slots al)))
      else
        ((true, false), mkAL (<[a := zlen (slots al)]> (addresses al)) (slots al ++ [{[k]}]))
  | None =>
      ((false, false), mkAL (<[a := zlen (slots al)]> (addresses al)) (slots al ++ [{[k]}]))
  end.

Definition ContainsAddress (al : accessList) (a : Address) : bool :=
  match addresses al !! a with Some _ => true | None => false end.

Definition ContainsSlot (al : accessList) (a : Address) (k : Hash) : bool * bool :=
  match addresses al !! a with
  | None => (false, false)
  | Some idx =>
      if idx =? -1 then (true, false) else (true, bool_decide (k ∈ slot_set al idx))
  end.

Definition DeleteAddress (a : Address) (al : accessList) : accessList :=
  mkAL (delete a (addresses al)) (slots al).

Definition DeleteSlot (a : Address) (k : Hash) (al : accessList) : accessList :=
  match addresses al !! a with
  | Some idx =>
      if idx =? -1 then al
      else mkAL (addresses al) (<[Z.to_nat idx := slot_set al idx ∖ {[k]}]> (slots al))
  | None => al
  end.

(** ** Journal (journal.go) *)

Inductive journalEntry :=
  | createAccountChange (addr : Address) (prev : option stateObject)
  | balanceChange (addr : Address) (prev : Z)
  | nonceChange (addr : Address) (prev : Z)
  | codeChange (addr : Address) (prevCode prevHash : bytes)
  | storageChange (addr : Address) (key prev : Hash) (prevExists : bool)
  | selfDestructChange (addr : Address) (prevDestructed : bool) (prevBalance : Z)
  | accessListAddAccountChange (addr : Address)
  | accessListAddSlotChange (addr : Address) (slot : Hash)
  | transientStorageChange (addr : Address) (key prev : Hash)
  | logChange (txHash : Hash) (prevLen : nat)
  | refundChange (prev : Z).

(** [entries] newest first; a snapshot maps to the number of entries when it
    was taken. *)
Record journal := mkJournal {
  entries : list journalEntry;
  snapshots : gmap Z nat;
  nextID : Z;
}.

Definition newJournal : journal := mkJournal [] ∅ 0.

Record MemoryStateDB := mkDB {
  stateObjects : gmap Z stateObject;
  jrnl : journal;
  logs : gmap Z (list Log);
  refund : Z;
  alist : accessList;
  transientStorage : gmap Z (gmap Z Z);
  txHash : Hash;
  txIndex : Z;
}.

Definition NewMemoryStateDB : MemoryStateDB :=
  mkDB ∅ newJournal ∅ 0 newAccessList ∅ 0 0.

(** *** Field updates *)

Definition set_objs (m : gmap Z stateObject) (s : MemoryStateDB) : MemoryStateDB :=
  mkDB m (jrnl s) (logs s) (refund s) (alist s) (transientStorage s) (txHash s) (txIndex s).
Definition set_jrnl (j : journal) (s : MemoryStateDB) : MemoryStateDB :=
  mkDB (stateObjects s) j (logs s) (refund s) (alist s) (transientStorage s) (txHash s) (txIndex s).
Definition set_logs (l : gmap Z (list Log)) (s : MemoryStateDB) : MemoryStateDB :=
  mkDB (stateObjects s) (jrnl s) l (refund s) (alist s) (transientStorage s) (txHash s) (txIndex s).
Definition set_refund (g : Z) (s : MemoryStateDB) : MemoryStateDB :=
  mkDB (stateObjects s) (jrnl s) (logs s) g (alist s) (transientStorage s) (txHash s) (txIndex s).
Definition set_alist (al : accessList) (s : MemoryStateDB) : MemoryStateDB :=
  mkDB (stateObjects s) (jrnl s) (logs s) (refund s) al (transientStorage s) (txHash s) (txIndex s).
Definition set_transient (t : gmap Z (gmap Z Z)) (s : MemoryStateDB) : MemoryStateDB :=
  mkDB (stateObjects s) (jrnl s) (logs s) (refund s) (alist s) t (txHash s) (txIndex s).

Definition mem_SetTxContext (h : Hash) (i : Z) (s : MemoryStateDB) : MemoryStateDB :=
  mkDB (stateObjects s) (jrnl s) (logs s) (refund s) (alist s) (transientStorage s) h i.

(** [s.journal.append(entry)] *)
Definition jappend (e : journalEntry) (s : MemoryStateDB) : MemoryStateDB :=
  set_jrnl (mkJournal (e :: entries (jrnl s)) (snapshots (jrnl s)) (nextID (jrnl s))) s.

(** *** The [revert] methods; [None] is a run-time panic *)

(** [if obj := s.getStateObject(addr); obj != nil { ... }] *)
Definition update_obj (a : Address) (f : stateObject -> stateObject) (s : MemoryStateDB)
  : MemoryStateDB :=
  match stateObjects s !! a with
  | Some o => set_objs (<[a := f o]> (stateObjects s)) s
  | None => s
  end.

Definition undo (e : journalEntry) (s : MemoryStateDB) : option MemoryStateDB :=
  match e with
  | createAccountChange a prev =>
      Some (match prev with
            | None => set_objs (delete a (stateObjects s)) s
            | Some o => set_objs (<[a := o]> (stateObjects s)) s
            end)
  | balanceChange a prev => Some (update_obj a (obj_setBalance prev) s)
  | nonceChange a prev => Some (update_obj a (obj_setNonce prev) s)
  | codeChange a prevCode prevHash => Some (update_obj a (obj_setCode prevCode prevHash) s)
  | storageChange a k prev prevExists =>
      Some (update_obj a (fun o =>
              obj_setDirty (if prevExists then <[k := prev]> (dirtyStorage o)
                            else delete k (dirtyStorage o)) o) s)
  | selfDestructChange a prevD prevB => Some (update_obj a (obj_setDestructed prevD prevB) s)
  | accessListAddAccountChange a => Some (set_alist (DeleteAddress a (alist s)) s)
  | accessListAddSlotChange a k => Some (set_alist (DeleteSlot a k (alist s)) s)
  | transientStorageChange a k prev =>
      if prev =? 0 then
        (* deleting from a nil map is a no-op; its length is zero *)
        let inner := delete k (default ∅ (transientStorage s !! a)) in
        Some (set_transient
                (if decide (inner = ∅) then delete a (transientStorage s)
                 else <[a := inner]> (transientStorage s)) s)
      else
        (* assignment to an entry of a nil map panics *)
        match transientStorage s !! a with
        | Some inner => Some (set_transient (<[a := <[k := prev]> inner]> (transientStorage s)) s)
        | None => None
        end
  | logChange h prevLen =>
      let l := default [] (logs s !! h) in
      if (prevLen <=? length l)%nat then
        Some (set_logs (if (prevLen =? 0)%nat then delete h (logs s)
                        else <[h := take prevLen l]> (logs s)) s)
      else None
  | refundChange prev => Some (set_refund prev s)
  end.

(** The loop of [revertToSnapshot], newest entry first. *)
Fixpoint undo_all (es : list journalEntry) (s : MemoryStateDB) : option MemoryStateDB :=
  match es with
  | [] => Some s
  | e :: es' =>
      match undo e s with
      | Some s' => undo_all es' s'
      | None => None
      end
  end.

Definition journal_snapshot (s : MemoryStateDB) : Z * MemoryStateDB :=
  let j := jrnl s in
  let id := nextID j in
  (id, set_jrnl (mkJournal (entries j) (<[id := length (entries j)]> (snapshots j)) (id + 1)) s).

Definition revertToSnapshot (id : Z) (s : MemoryStateDB) : option MemoryStateDB :=
  let j := jrnl s in
  match snapshots j !! id with
  | None => Some s
  | Some idx =>
      let n := (length (entries j) - idx)%nat in
      match undo_all (take n (entries j)) s with
      | None => None
      | Some s' =>
          Some (set_jrnl (mkJournal (drop n (entries j))
                            (filter (fun p => p.1 < id) (snapshots j)) (nextID j)) s')
      end
  end.

(** ** Operations of MemoryStateDB

    [keccak256] is the hash of the crypto package. *)
Section Operations.

Context (keccak256 : bytes -> bytes).

Implicit Type s : MemoryStateDB.

Definition getOrNewStateObject s (a : Address) : stateObject :=
  default newStateObject (stateObjects s !! a).

(** The object at [a] (created when missing) is replaced by [f] of itself
    and the entry [e] is journaled. *)
Definition modify (a : Address) (e : stateObject -> journalEntry)
    (f : stateObject -> stateObject) s : MemoryStateDB :=
  let o := getOrNewStateObject s a in
  jappend (e o) (set_objs (<[a := f o]> (stateObjects s)) s).

Definition mem_CreateAccount (a : Address) s : MemoryStateDB :=
  let prev := stateObjects s !! a in
  set_objs (<[a := newStateObject]> (stateObjects s)) (jappend (createAccountChange a prev) s).

Definition mem_SubBalance (a : Address) (amount : Z) s : MemoryStateDB :=
  modify a (fun o => balanceChange a (Balance (account o)))
    (fun o => obj_setBalance (Balance (account o) - amount) o) s.

Definition mem_AddBalance (a : Address) (amount : Z) s : MemoryStateDB :=
  modify a (fun o => balanceChange a (Balance (account o)))
    (fun o => obj_setBalance (Balance (account o) + amount) o) s.

Definition mem_GetBalance s (a : Address) : Z :=
  match stateObjects s !! a with Some o => Balance (account o) | None => 0 end.

Definition mem_GetNonce s (a : Address) : Z :=
  match stateObjects s !! a with Some o => Nonce (account o) | None => 0 end.

Definition mem_SetNonce (a : Address) (nonce : Z) s : MemoryStateDB :=
  modify a (fun o => nonceChange a (Nonce (account o))) (obj_setNonce nonce) s.

Definition mem_GetCode s (a : Address) : bytes :=
  match stateObjects s !! a with Some o => code o | None => [] end.

Definition mem_SetCode (a : Address) (c : bytes) s : MemoryStateDB :=
  modify a (fun o => codeChange a (code o) (CodeHash (account o)))
    (obj_setCode c (keccak256 c)) s.

Definition mem_GetCodeHash s (a : Address) : Hash :=
  match stateObjects s !! a with Some o => BytesToHash (CodeHash (account o)) | None => 0 end.

Definition mem_GetCodeSize s (a : Address) : Z :=
  match stateObjects s !! a with Some o => zlen (code o) | None => 0 end.

Definition mem_SelfDestruct (a : Address) s : MemoryStateDB :=
  match stateObjects s !! a with
  | None => s
  | Some o =>
      set_objs (<[a := obj_setDestructed true 0 o]> (stateObjects s))
        (jappend (selfDestructChange a (selfDestructed o) (Balance (account o))) s)
  end.

Definition mem_HasSelfDestructed s (a : Address) : bool :=
  match stateObjects s !! a with Some o => selfDestructed o | None => false end.

Definition obj_GetState (o : stateObject) (k : Hash) : Hash :=
  match dirtyStorage o !! k with
  | Some v => v
  | None => default 0 (committedStorage o !! k)
  end.

Definition mem_GetState s (a : Address) (k : Hash) : Hash :=
  match stateObjects s !! a with Some o => obj_GetState o k | None => 0 end.

Definition mem_SetState (a : Address) (k v : Hash) s : MemoryStateDB :=
  modify a
    (fun o => storageChange a k (obj_GetState o k)
                (match dirtyStorage o !! k with Some _ => true | None => false end))
    (fun o => obj_setDirty (<[k := v]> (dirtyStorage o)) o) s.

Definition mem_GetCommittedState s (a : Address) (k : Hash) : Hash :=
  match stateObjects s !! a with Some o => default 0 (committedStorage o !! k) | None => 0 end.

Definition mem_Exist s (a : Address) : bool :=
  match stateObjects s !! a with Some _ => true | None => false end.

Definition mem_Empty s (a : Address) : bool :=
  match stateObjects s !! a with
  | None => true
  | Some o =>
      (Nonce (account o) =? 0) && (Z.sgn (Balance (account o)) =? 0)
      && (BytesToHash (CodeHash (account o)) =? EmptyCodeHash)
  end.

Definition mem_AddLog (l : Log) s : MemoryStateDB :=
  let h := txHash s in
  let l' := mkLog (log_Address l) (log_Topics l) (log_Data l) h (u64 (txIndex s)) in
  let old := default [] (logs s !! h) in
  set_logs (<[h := old ++ [l']]> (logs s)) (jappend (logChange h (length old)) s).

Definition mem_GetLogs s (h : Hash) : list Log := default [] (logs s !! h).

Definition mem_AddRefund (g : Z) s : MemoryStateDB :=
  set_refund (refund s +u g) (jappend (refundChange (refund s)) s).

Definition mem_SubRefund (g : Z) s : MemoryStateDB :=
  set_refund (refund s -u g) (jappend (refundChange (refund s)) s).

Definition mem_AddAddressToAccessList (a : Address) s : MemoryStateDB :=
  let '(present, al) := AddAddress a (alist s) in
  let s := set_alist al s in
  if present then s else jappend (accessListAddAccountChange a) s.

Definition mem_AddSlotToAccessList (a : Address) (k : Hash) s : MemoryStateDB :=
  let '((addrPresent, slotPresent), al) := AddSlot a k (alist s) in
  let s := set_alist al s in
  let s := if addrPresent then s else jappend (accessListAddAccountChange a) s in
  if slotPresent then s else jappend (accessListAddSlotChange a k) s.

Definition mem_ClearAccessList s : MemoryStateDB := set_alist newAccessList s.

Definition mem_GetTransientState s (a : Address) (k : Hash) : Hash :=
  match transientStorage s !! a with
  | Some inner => default 0 (inner !! k)
  | None => 0
  end.

Definition mem_SetTransientState (a : Address) (k v : Hash) s : MemoryStateDB :=
  let prev := mem_GetTransientState s a k in
  let s := jappend (transientStorageChange a k prev) s in
  set_transient
    (<[a := <[k := v]> (default ∅ (transientStorage s !! a))]> (transientStorage s)) s.

Definition mem_ClearTransientStorage s : MemoryStateDB := set_transient ∅ s.

#[export] Instance MemStateDB_ops : StateDB MemoryStateDB := {
  CreateAccount := mem_CreateAccount;
  GetBalance := mem_GetBalance;
  AddBalance := mem_AddBalance;
  SubBalance := mem_SubBalance;
  GetNonce := mem_GetNonce;
  SetNonce := mem_SetNonce;
  GetCode := mem_GetCode;
  SetCode := mem_SetCode;
  GetCodeHash := mem_GetCodeHash;
  GetCodeSize := mem_GetCodeSize;
  GetState := mem_GetState;
  SetState := mem_SetState;
  GetCommittedState := mem_GetCommittedState;
  GetTransientState := mem_GetTransientState;
  SetTransientState := mem_SetTransientState;
  SelfDestruct := mem_SelfDestruct;
  HasSelfDestructed := mem_HasSelfDestructed;
  Exist := mem_Exist;
  Empty := mem_Empty;
  Snapshot := journal_snapshot;
  RevertToSnapshot := revertToSnapshot;
  AddLog := mem_AddLog;
  GetLogs := mem_GetLogs;
  AddRefund := mem_AddRefund;
  SubRefund := mem_SubRefund;
  GetRefund := refund;
  AddAddressToAccessList := mem_AddAddressToAccessList;
  AddSlotToAccessList := mem_AddSlotToAccessList;
  AddressInAccessList s := ContainsAddress (alist s);
  SlotInAccessList s := ContainsSlot (alist s);
}.

(** *** Storage commit and copies *)

(** The storage flush at the start of [Commit]. *)
Definition flush_obj (o : stateObject) : stateObject :=
  mkObject (account o) (code o) ∅
    (map_fold (fun k v m => if v =? 0 then delete k m else <[k := v]> m)
       (committedStorage o) (dirtyStorage o))
    (selfDestructed o) (dbStorageRoot o).

Definition flush_storage s : MemoryStateDB := set_objs (flush_obj <$> stateObjects s) s.

Definition mergeStorage (o : stateObject) : gmap Z Z :=
  map_fold (fun k v m => if v =? 0 then delete k m else <[k := v]> m)
    (committedStorage o) (dirtyStorage o).

Definition FinalizePreState s : MemoryStateDB :=
  set_objs
    ((fun o => mkObject (account o) (code o) (dirtyStorage o)
                 (map_fold (fun k v m => <[k := v]> m) (committedStorage o) (dirtyStorage o))
                 (selfDestructed o) (dbStorageRoot o)) <$> stateObjects s) s.

(** [Copy]: a deep copy with a fresh journal; the transaction context and
    the cached storage root are not copied. *)
Definition copy_obj (o : stateObject) : stateObject :=
  mkObject (account o) (code o) (dirtyStorage o) (committedStorage o) (selfDestructed o) 0.

Definition Copy s : MemoryStateDB :=
  mkDB (copy_obj <$> stateObjects s) newJournal (logs s) (refund s) (alist s)
    (transientStorage s) 0 0.

(** [Merge]: overwrite this state's accounts with those of [src]; committed
    storage and the journal are untouched. *)
Definition merge_obj (src dst : stateObject) : stateObject :=
  mkObject
    (mkAccount (Nonce (account src)) (Balance (account src)) (Root (account dst))
       (CodeHash (account src)))
    (code src) (dirtyStorage src ∪ dirtyStorage dst) (committedStorage dst)
    (selfDestructed src) (dbStorageRoot dst).

Definition Merge (src : MemoryStateDB) s : MemoryStateDB :=
  set_objs
    (map_fold (fun a o m => <[a := merge_obj o (default newStateObject (m !! a))]> m)
       (stateObjects s) (stateObjects src)) s.

Definition Prefetch (addrs : list Address) s : MemoryStateDB :=
  fold_left (fun st a =>
    match stateObjects st !! a with
    | Some _ => st
    | None => set_objs (<[a := newStateObject]> (stateObjects st)) st
    end) addrs s.

Definition PrefetchStorage (a : Address) (keys : list Hash) s : MemoryStateDB :=
  match stateObjects s !! a with
  | Some _ => s
  | None => set_objs (<[a := newStateObject]> (stateObjects s)) s
  end.

End Operations.
