(* ===== verification/MemStateDBProofs.v ===== *)
(** * MemStateDBProofs: the journal implements the state-database contract

    Every journal entry undoes the mutation that wrote it, so reverting to a
    snapshot restores the observable state (shown for any interleaving of
    mutations, snapshots and reverts); [MemoryStateDB] is an instance of
    [StateDBLaws].  Two statements record where the revert is not exact or
    panics. *)

From S2P Require Import Prelude StateDB MemStateDB.

#[local] Set Warnings "-clear-no-such-hyp".

(** ** Access-list invariant *)

(** Stored indices are in range and no two addresses share a slot set. *)
Record al_wf (al : accessList) : Prop := {
  alw_range : forall a i, addresses al !! a = Some i -> i = -1 \/ 0 <= i < zlen (slots al);
  alw_inj : forall a b i, addresses al !! a = Some i -> addresses al !! b = Some i ->
              i <> -1 -> a = b;
}.

Definition has_slot (al : accessList) (a k : Z) : bool := (ContainsSlot al a k).2.

Lemma ContainsSlot_fst al a k : (ContainsSlot al a k).1 = ContainsAddress al a.
Proof.
  unfold ContainsSlot, ContainsAddress. destruct (addresses al !! a); [|done]. by destruct (_ =? _).
Qed.

Lemma ContainsSlot_eq al al' a k :
  ContainsAddress al a = ContainsAddress al' a -> has_slot al a k = has_slot al' a k ->
  ContainsSlot al a k = ContainsSlot al' a k.
Proof.
  unfold has_slot. rewrite <- !(ContainsSlot_fst _ a k). intros H1 H2.
  destruct (ContainsSlot al a k), (ContainsSlot al' a k). simpl in *. congruence.
Qed.

Lemma newAccessList_wf : al_wf newAccessList.
Proof. split; simpl; intros *; by rewrite lookup_empty. Qed.

Lemma slot_set_insert al m i j X :
  (Z.to_nat i < length (slots al))%nat ->
  slot_set (mkAL m (<[Z.to_nat i := X]> (slots al))) j
  = if decide (Z.to_nat i = Z.to_nat j) then X else slot_set al j.
Proof.
  intros Hi. unfold slot_set. simpl. destruct (decide _) as [<-|Hne].
  - by rewrite list_lookup_insert_eq by lia.
  - by rewrite list_lookup_insert_ne.
Qed.

Lemma slot_set_snoc al m j X :
  0 <= j < zlen (slots al) -> slot_set (mkAL m (slots al ++ [X])) j = slot_set al j.
Proof. intros Hj. unfold slot_set, zlen in *. simpl. by rewrite lookup_app_l by lia. Qed.

Lemma slot_set_last al m X : slot_set (mkAL m (slots al ++ [X])) (zlen (slots al)) = X.
Proof.
  unfold slot_set, zlen. simpl. rewrite Nat2Z.id, lookup_app_r, Nat.sub_diag by lia. done.
Qed.

(** Membership after each access-list operation. *)
Lemma DeleteAddress_spec al a :
  al_wf al ->
  al_wf (DeleteAddress a al) /\
  (forall b, ContainsAddress (DeleteAddress a al) b
             = negb (bool_decide (a = b)) && ContainsAddress al b) /\
  (forall b k, has_slot (DeleteAddress a al) b k = negb (bool_decide (a = b)) && has_slot al b k).
Proof.
  intros [Hr Hi]. unfold DeleteAddress, ContainsAddress, has_slot, ContainsSlot, slot_set. simpl.
  split; [split; simpl|split].
  - intros b i Hb. apply lookup_delete_Some in Hb as [_ Hb]. by apply (Hr b).
  - intros b c i Hb Hc. apply lookup_delete_Some in Hb as [_ Hb], Hc as [_ Hc]. by apply Hi.
  - intros b. case_bool_decide as E; [subst; by rewrite lookup_delete_eq|by rewrite lookup_delete_ne].
  - intros b k. case_bool_decide as E; [subst; by rewrite lookup_delete_eq|by rewrite lookup_delete_ne].
Qed.

Lemma DeleteSlot_spec al a k :
  al_wf al ->
  al_wf (DeleteSlot a k al) /\
  (forall b, ContainsAddress (DeleteSlot a k al) b = ContainsAddress al b) /\
  (forall b j, has_slot (DeleteSlot a k al) b j
               = negb (bool_decide (a = b /\ k = j)) && has_slot al b j).
Proof.
  intros Hwf. pose proof Hwf as [Hr Hi]. unfold DeleteSlot.
  destruct (addresses al !! a) as [i|] eqn:Ea; [destruct (Z.eqb_spec i (-1)) as [->|Hne]|].
  - split; [done|split; [done|]]. intros b j. case_bool_decide as E; [|done].
    destruct E as [<- <-]. unfold has_slot, ContainsSlot. by rewrite Ea.
  - destruct (Hr a i Ea) as [|Hrange]; [done|]. split; [|split].
    + split; simpl; [|exact Hi]. intros b j Hb.
      unfold zlen. rewrite length_insert. by apply (Hr b).
    + done.
    + intros b j. unfold has_slot, ContainsSlot. simpl.
      destruct (addresses al !! b) as [i'|] eqn:Eb;
        [|by rewrite andb_false_r].
      destruct (Z.eqb_spec i' (-1)); [by rewrite andb_false_r|]. simpl.
      rewrite slot_set_insert by (unfold zlen in *; lia).
      destruct (Hr b i' Eb) as [|Hr']; [done|].
      destruct (decide (Z.to_nat i = Z.to_nat i')) as [E|E].
      * assert (i = i') as <- by lia. assert (a = b) as <- by (by apply (Hi a b i)).
        clear Hrange Hr'. repeat case_bool_decide; try done; set_solver.
      * rewrite (bool_decide_eq_false_2 (a = b /\ k = j)); [done|]. intros [<- _]. congruence.
  - split; [done|split; [done|]]. intros b j. case_bool_decide as E; [|done].
    destruct E as [<- <-]. unfold has_slot, ContainsSlot. by rewrite Ea.
Qed.

Lemma AddAddress_new_spec al a :
  al_wf al -> addresses al !! a = None ->
  al_wf (AddAddress a al).2 /\
  (forall b, ContainsAddress (AddAddress a al).2 b = bool_decide (a = b) || ContainsAddress al b) /\
  (forall b k, has_slot (AddAddress a al).2 b k = has_slot al b k).
Proof.
  intros [Hr Hi] Ha. unfold AddAddress. rewrite Ha. simpl.
  unfold ContainsAddress, has_slot, ContainsSlot. simpl. split; [split; simpl|split].
  - intros b i [[<- <-]|[_ Hb]]%lookup_insert_Some; [by left|by apply (Hr b)].
  - intros b c i [[<- <-]|[Hnb Hb]]%lookup_insert_Some [[<- Ec]|[Hnc Hc]]%lookup_insert_Some Hn;
      [done|done|congruence|by apply (Hi b c i)].
  - intros b. case_bool_decide as E; [subst; by rewrite lookup_insert_eq|by rewrite lookup_insert_ne].
  - intros b k. destruct (decide (a = b)) as [<-|]; [by rewrite lookup_insert_eq, Ha|].
    by rewrite lookup_insert_ne.
Qed.

(** Giving [a] a fresh slot set that contains only [k]; it had none. *)
Lemma fresh_slots_spec al a k :
  al_wf al -> (addresses al !! a = None \/ addresses al !! a = Some (-1)) ->
  let al' := mkAL (<[a := zlen (slots al)]> (addresses al)) (slots al ++ [{[k]}]) in
  al_wf al' /\
  (forall b, ContainsAddress al' b = bool_decide (a = b) || ContainsAddress al b) /\
  (forall b j, has_slot al' b j = bool_decide (a = b /\ k = j) || has_slot al b j).
Proof.
  intros [Hr Hi] Ha al'. pose proof (zlen_nonneg (slots al)).
  assert (zlen (slots al') = zlen (slots al) + 1) as Hlen by (unfold al', zlen; simpl; rewrite length_app; simpl; lia).
  split; [split; unfold al' in *; simpl in *|split].
  - intros b i [[<- <-]|[_ Hb]]%lookup_insert_Some; [lia|]. destruct (Hr b i Hb); lia.
  - intros b c i [[<- <-]|[Hnb Hb]]%lookup_insert_Some [[<- Ec]|[Hnc Hc]]%lookup_insert_Some Hn;
      [done| | |by apply (Hi b c i)].
    + destruct (Hr c _ Hc); lia.
    + destruct (Hr b _ Hb); lia.
  - intros b. unfold ContainsAddress, al'. simpl.
    case_bool_decide as E; [subst; by rewrite lookup_insert_eq|by rewrite lookup_insert_ne].
  - intros b j. unfold has_slot, ContainsSlot, al'. simpl. destruct (decide (a = b)) as [<-|Hab].
    + rewrite lookup_insert_eq. destruct (Z.eqb_spec (zlen (slots al)) (-1)); [lia|].
      rewrite slot_set_last. simpl.
      destruct Ha as [-> | ->]; rewrite ?orb_false_r; simpl; rewrite ?orb_false_r;
        apply bool_decide_ext; set_solver.
    + rewrite lookup_insert_ne by done. rewrite bool_decide_eq_false_2 by (intros [? _]; done). simpl.
      destruct (addresses al !! b) as [i|] eqn:Eb; [|done]. destruct (Z.eqb_spec i (-1)); [done|].
      destruct (Hr b i Eb) as [|Hrange]; [done|]. by rewrite slot_set_snoc.
Qed.

Lemma AddSlot_spec al a k :
  al_wf al ->
  let '((ap, sp), al') := AddSlot a k al in
  ap = ContainsAddress al a /\ sp = has_slot al a k /\ al_wf al' /\
  (forall b, ContainsAddress al' b = bool_decide (a = b) || ContainsAddress al b) /\
  (forall b j, has_slot al' b j = bool_decide (a = b /\ k = j) || has_slot al b j).
Proof.
  intros Hwf. pose proof Hwf as [Hr Hi]. unfold AddSlot.
  destruct (addresses al !! a) as [i|] eqn:Ea.
  2: { split; [|split; [|apply fresh_slots_spec; [done|by left]]];
         unfold ContainsAddress, has_slot, ContainsSlot; by rewrite Ea. }
  destruct (Z.eqb_spec i (-1)) as [->|Hne]; simpl.
  { split; [|split; [|apply fresh_slots_spec; [done|by right]]];
      unfold ContainsAddress, has_slot, ContainsSlot; by rewrite Ea. }
  assert (forall b, ContainsAddress al b = bool_decide (a = b) || ContainsAddress al b) as HA.
  { intros b. case_bool_decide; [subst|done]. unfold ContainsAddress. by rewrite Ea. }
  assert (ContainsAddress al a = true) as HCa by (unfold ContainsAddress; by rewrite Ea).
  assert (has_slot al a k = bool_decide (k ∈ slot_set al i)) as Hs.
  { unfold has_slot, ContainsSlot. rewrite Ea. by destruct (Z.eqb_spec i (-1)). }
  destruct (Hr a i Ea) as [|Hrange]; [done|].
  case_bool_decide as Ek.
  - split; [done|split; [done|split; [done|split; [done|]]]]. intros b j.
    case_bool_decide as E; [|done]. by destruct E as [<- <-].
  - split; [done|split; [done|split; [|split; [exact HA|]]]].
    + split; simpl; [|exact Hi]. intros b j Hb. unfold zlen. rewrite length_insert. by apply (Hr b).
    + intros b j. unfold has_slot, ContainsSlot. simpl.
      destruct (addresses al !! b) as [i'|] eqn:Eb.
      2: { case_bool_decide as E; [destruct E; congruence|done]. }
      destruct (Z.eqb_spec i' (-1)).
      { case_bool_decide as E; [destruct E; congruence|done]. }
      simpl. destruct (Hr b i' Eb) as [|Hr']; [done|].
      rewrite slot_set_insert by (unfold zlen in *; lia).
      destruct (decide (Z.to_nat i = Z.to_nat i')) as [E|E].
      * assert (i = i') as <- by lia. assert (a = b) as <- by (by apply (Hi a b i)).
        clear Hrange Hr'. repeat case_bool_decide; try done; set_solver.
      * rewrite (bool_decide_eq_false_2 (a = b /\ k = j)); [done|]. intros [<- _]. congruence.
Qed.

(** ** The undo relation *)

(** [obj_restored] on one address: the account as it was, or, where there
    was none, possibly a fresh empty one ([getOrNewStateObject] is not
    journaled). *)
Definition obj_restored (o r : option stateObject) : Prop :=
  match o with
  | Some x => r = Some x
  | None => r = None \/ r = Some newStateObject
  end.

Record mrestored (s r : MemoryStateDB) : Prop := {
  mr_objs : forall a, obj_restored (stateObjects s !! a) (stateObjects r !! a);
  mr_logs : forall h, mem_GetLogs r h = mem_GetLogs s h;
  mr_refund : refund r = refund s;
  mr_addr : forall a, ContainsAddress (alist r) a = ContainsAddress (alist s) a;
  mr_slot : forall a k, has_slot (alist r) a k = has_slot (alist s) a k;
  mr_transient : forall a k, mem_GetTransientState r a k = mem_GetTransientState s a k;
}.

#[export] Instance mrestored_preorder : PreOrder mrestored.
Proof.
  split.
  - intros s. split; try done. intros a. unfold obj_restored. destruct (_ !! _); [done|by left].
  - intros s1 s2 s3 H1 H2. split; intros; try (etransitivity; [apply H2|apply H1]).
    pose proof (mr_objs _ _ H1 a) as E1. pose proof (mr_objs _ _ H2 a) as E2.
    unfold obj_restored in *. destruct (stateObjects s1 !! a); [by rewrite E1 in E2|].
    destruct E1 as [E1|E1]; rewrite E1 in E2; [done|by right].
Qed.

(** Undoing entry [e] in any state restored from [s] yields a state restored
    from [s1]; with [total], the undo does not panic. *)
Definition undo_step (total : bool) (e : journalEntry) (s1 s : MemoryStateDB) : Prop :=
  forall r, al_wf (alist r) -> mrestored s r ->
    match undo e r with
    | Some r' => mrestored s1 r' /\ al_wf (alist r')
    | None => total = false
    end.

(** A journal segment, newest entry first, that leads back to [s0]. *)
Inductive undoable (total : bool) : list journalEntry -> MemoryStateDB -> MemoryStateDB -> Prop :=
  | undoable_nil s0 s : mrestored s0 s -> undoable total [] s0 s
  | undoable_cons e es s0 s1 s :
      undo_step total e s1 s -> undoable total es s0 s1 -> undoable total (e :: es) s0 s.

Lemma undoable_weaken total es s0 s r :
  undoable total es s0 s -> mrestored s r -> undoable total es s0 r.
Proof.
  intros H Hr. destruct H as [s0 s H|e es s0 s1 s H1 H2].
  - constructor. by etransitivity.
  - apply undoable_cons with s1; [|done]. intros r' Hwf Hr'. apply H1; [done|]. by etransitivity.
Qed.

Lemma undoable_app total es1 es2 s0 s1 s :
  undoable total es1 s1 s -> undoable total es2 s0 s1 -> undoable total (es1 ++ es2) s0 s.
Proof.
  induction 1 as [s1 s H|e es s1 s2 s H1 _ IH]; intros H2; simpl.
  - by apply undoable_weaken with s1.
  - apply undoable_cons with s2; [done|]. by apply IH.
Qed.

Lemma undoable_split total es1 es2 s0 s :
  undoable total (es1 ++ es2) s0 s ->
  exists s1, undoable total es1 s1 s /\ undoable total es2 s0 s1.
Proof.
  revert s. induction es1 as [|e es1 IH]; intros s H; simpl in H.
  - exists s. split; [by constructor|done].
  - inversion H as [|? ? ? s2 ? H1 H2]; subst. destruct (IH s2 H2) as (s1 & H3 & H4).
    exists s1. split; [by apply undoable_cons with s2|done].
Qed.

Lemma undoable_undo_all total es s0 s :
  undoable total es s0 s -> forall r, al_wf (alist r) -> mrestored s r ->
  match undo_all es r with
  | Some r' => mrestored s0 r' /\ al_wf (alist r')
  | None => total = false
  end.
Proof.
  induction 1 as [s0 s H|e es s0 s1 s H1 H2 IH]; intros r Hwf Hr; simpl.
  - split; [by etransitivity|done].
  - specialize (H1 r Hwf Hr). destruct (undo e r) as [r'|]; [|done].
    destruct H1 as [Hr' Hwf']. by apply IH.
Qed.

(** *** Undoing the object mutations *)

Lemma undo_obj total s a (e : stateObject -> journalEntry) (f g : stateObject -> stateObject) :
  let o := default newStateObject (stateObjects s !! a) in
  (forall r, undo (e o) r = Some (update_obj a g r)) -> g (f o) = o ->
  undo_step total (e o) s (set_objs (<[a := f o]> (stateObjects s)) s).
Proof.
  intros o Hu Hg r Hwf Hr. rewrite Hu. destruct Hr as [Ho Hl Hf Ha Hs Ht].
  pose proof (Ho a) as Hoa. simpl in Hoa. rewrite lookup_insert_eq in Hoa. simpl in Hoa.
  unfold update_obj. rewrite Hoa, Hg. split; [|exact Hwf].
  split; simpl; try done. intros b. destruct (decide (a = b)) as [<-|Hab].
  - rewrite lookup_insert_eq. unfold o. destruct (stateObjects s !! a); simpl; [done|by right].
  - rewrite lookup_insert_ne by done. specialize (Ho b). simpl in Ho.
    by rewrite lookup_insert_ne in Ho.
Qed.

Lemma obj_setBalance_id o b : obj_setBalance (Balance (account o)) (obj_setBalance b o) = o.
Proof. by destruct o as [[] ? ? ? ? ?]. Qed.

Lemma obj_setNonce_id o n : obj_setNonce (Nonce (account o)) (obj_setNonce n o) = o.
Proof. by destruct o as [[] ? ? ? ? ?]. Qed.

Lemma obj_setCode_id o c h :
  obj_setCode (code o) (CodeHash (account o)) (obj_setCode c h o) = o.
Proof. by destruct o as [[] ? ? ? ? ?]. Qed.

Lemma obj_setDestructed_id o d b :
  obj_setDestructed (selfDestructed o) (Balance (account o)) (obj_setDestructed d b o) = o.
Proof. by destruct o as [[] ? ? ? ? ?]. Qed.

Lemma obj_setDirty_id o k v :
  let o' := obj_setDirty (<[k := v]> (dirtyStorage o)) o in
  obj_setDirty
    (if match dirtyStorage o !! k with Some _ => true | None => false end
     then <[k := obj_GetState o k]> (dirtyStorage o')
     else delete k (dirtyStorage o')) o' = o.
Proof.
  unfold obj_GetState. destruct o as [ac cd d cm sd db]. simpl. unfold obj_setDirty. simpl.
  f_equal. destruct (d !! k) as [x|] eqn:E.
  - by rewrite insert_insert_eq, insert_id.
  - by rewrite delete_insert_id.
Qed.

Lemma undo_create total s a :
  undo_step total (createAccountChange a (stateObjects s !! a)) s
    (set_objs (<[a := newStateObject]> (stateObjects s)) s).
Proof.
  intros r Hwf [Ho Hl Hf Ha Hs Ht]. simpl undo. split; [|by destruct (stateObjects s !! a)].
  split; try by destruct (stateObjects s !! a).
  intros b. specialize (Ho b). simpl in Ho. destruct (decide (a = b)) as [<-|Hab].
  - destruct (stateObjects s !! a) as [o|]; simpl.
    + by rewrite lookup_insert_eq.
    + left. by rewrite lookup_delete_eq.
  - rewrite lookup_insert_ne in Ho by done. destruct (stateObjects s !! a) as [o|]; simpl.
    + by rewrite lookup_insert_ne.
    + by rewrite lookup_delete_ne.
Qed.

(** *** Undoing the other mutations *)

Lemma mrestored_jrnl s j r : mrestored (set_jrnl j s) r <-> mrestored s r.
Proof. split; intros [? ? ? ? ? ?]; by split. Qed.

Lemma mrestored_jrnl_r s j r : mrestored s (set_jrnl j r) <-> mrestored s r.
Proof. split; intros [? ? ? ? ? ?]; by split. Qed.

Lemma undo_step_jrnl total e s1 s j : undo_step total e s1 (set_jrnl j s) <-> undo_step total e s1 s.
Proof.
  split; intros H r Hwf Hr; apply H; try done; by apply (mrestored_jrnl s j r).
Qed.

Lemma undo_refund total s g : undo_step total (refundChange (refund s)) s (set_refund g s).
Proof. intros r Hwf [Ho Hl Hf Ha Hs Ht]. simpl. split; [by split|done]. Qed.

Lemma undo_log total s h l :
  undo_step total (logChange h (length (mem_GetLogs s h))) s
    (set_logs (<[h := mem_GetLogs s h ++ [l]]> (logs s)) s).
Proof.
  intros r Hwf [Ho Hl Hf Ha Hs Ht].
  assert (mem_GetLogs r h = mem_GetLogs s h ++ [l]) as Eh.
  { rewrite (Hl h). unfold mem_GetLogs. simpl. by rewrite lookup_insert_eq. }
  cbn [undo]. cbv zeta. fold (mem_GetLogs r h). rewrite Eh.
  destruct (Nat.leb_spec (length (mem_GetLogs s h)) (length (mem_GetLogs s h ++ [l])));
    [|rewrite length_app in *; simpl in *; lia].
  split; [|done]. split; try done. intros h'.
  destruct (decide (h = h')) as [<-|Hne].
  - destruct (Nat.eqb_spec (length (mem_GetLogs s h)) 0) as [E|E]; unfold mem_GetLogs at 1; simpl.
    + rewrite lookup_delete_eq. simpl. by apply nil_length_inv in E.
    + rewrite lookup_insert_eq. simpl. by rewrite take_app_length.
  - specialize (Hl h'). unfold mem_GetLogs in *. simpl in *. rewrite lookup_insert_ne in Hl by done.
    destruct (Nat.eqb _ 0); simpl; [by rewrite lookup_delete_ne|by rewrite lookup_insert_ne].
Qed.

Lemma undo_add_address total s al :
  (forall b k, has_slot al b k = has_slot (alist s) b k) ->
  forall a, ContainsAddress (alist s) a = false ->
  (forall b, ContainsAddress al b = bool_decide (a = b) || ContainsAddress (alist s) b) ->
  undo_step total (accessListAddAccountChange a) s (set_alist al s).
Proof.
  intros Hslot a Ha Hal r Hwf [Ho Hl Hf Hra Hrs Ht]. simpl.
  destruct (DeleteAddress_spec (alist r) a Hwf) as (Hwf' & Hd & Hds).
  split; [|done]. split; simpl in *; try done.
  - intros b. rewrite Hd, Hra, Hal. case_bool_decide; subst; [by rewrite Ha|done].
  - intros b k. rewrite Hds, Hrs, Hslot. case_bool_decide as E; [subst|done].
    unfold has_slot. rewrite <- ContainsSlot_fst with (k := k) in Ha.
    unfold ContainsSlot in *. destruct (addresses (alist s) !! b) as [i|]; [|done].
    by destruct (i =? -1).
Qed.

Lemma undo_add_slot total s s1 al a k :
  alist s1 = al ->
  (forall b, ContainsAddress al b = ContainsAddress (alist s) b) ->
  has_slot (alist s) a k = false ->
  (forall b j, has_slot al b j = bool_decide (a = b /\ k = j) || has_slot (alist s) b j) ->
  mrestored s (set_alist (alist s) s1) ->
  mrestored (set_alist (alist s) s1) s ->
  undo_step total (accessListAddSlotChange a k) s s1.
Proof.
  intros <- Hca Hk Hal Hs1 Hs1' r Hwf [Ho Hl Hf Hra Hrs Ht]. simpl.
  destruct (DeleteSlot_spec (alist r) a k Hwf) as (Hwf' & Hd & Hds).
  split; [|done]. transitivity (set_alist (alist s) s1); [exact Hs1|].
  split; simpl in *; try done.
  - intros b. by rewrite Hd, Hra, Hca.
  - intros b j. rewrite Hds, Hrs, Hal. case_bool_decide as E; [|done].
    destruct E as [<- <-]. by rewrite Hk.
Qed.

Lemma transient_delete r a k b j :
  mem_GetTransientState
    (set_transient
       (let inner := delete k (default ∅ (transientStorage r !! a)) in
        if decide (inner = ∅) then delete a (transientStorage r)
        else <[a := inner]> (transientStorage r)) r) b j
  = if bool_decide (a = b /\ k = j) then 0 else mem_GetTransientState r b j.
Proof.
  unfold mem_GetTransientState. cbv zeta. simpl.
  set (inner := delete k _). destruct (decide (a = b)) as [<-|Hab].
  - transitivity (default 0 (inner !! j)).
    { destruct (decide (inner = ∅)) as [E|E].
      - by rewrite lookup_delete_eq, E, lookup_empty.
      - by rewrite lookup_insert_eq. }
    unfold inner. case_bool_decide as E; [destruct E as [_ <-]; by rewrite lookup_delete_eq|].
    rewrite lookup_delete_ne by (by intros ->; apply E).
    destruct (transientStorage r !! a) as [m|]; simpl; [done|by rewrite lookup_empty].
  - rewrite bool_decide_eq_false_2 by (intros [? _]; done).
    destruct (decide _); [by rewrite lookup_delete_ne|by rewrite lookup_insert_ne].
Qed.

(** The transient undo panics at most where a zero was written over a
    non-zero value. *)
Lemma undo_transient s a k v :
  let prev := mem_GetTransientState s a k in
  undo_step (negb (v =? 0) || (prev =? 0)) (transientStorageChange a k prev) s
    (set_transient
       (<[a := <[k := v]> (default ∅ (transientStorage s !! a))]> (transientStorage s)) s).
Proof.
  intros prev r Hwf [Ho Hl Hf Ha Hs Ht].
  assert (forall b j, mem_GetTransientState r b j
            = if bool_decide (a = b /\ k = j) then v else mem_GetTransientState s b j) as Hr.
  { intros b j. rewrite Ht. unfold mem_GetTransientState. simpl.
    destruct (decide (a = b)) as [<-|Hab].
    - rewrite lookup_insert_eq. case_bool_decide as E.
      + destruct E as [_ <-]. by rewrite lookup_insert_eq.
      + rewrite lookup_insert_ne by (by intros ->; apply E).
        destruct (transientStorage s !! a); simpl; [done|by rewrite lookup_empty].
    - by rewrite lookup_insert_ne, bool_decide_eq_false_2 by (done || intros [? _]; done). }
  cbn [undo]. destruct (Z.eqb_spec prev 0) as [E|E].
  - split; [|done]. split; try done. intros b j. rewrite transient_delete, Hr.
    case_bool_decide as Eb; [|done]. destruct Eb as [<- <-]. by rewrite <- E.
  - destruct (transientStorage r !! a) as [inner|] eqn:Er.
    + split; [|done]. split; try done. intros b j. specialize (Hr b j).
      unfold mem_GetTransientState at 1. simpl. destruct (decide (a = b)) as [<-|Hab].
      * rewrite lookup_insert_eq. unfold mem_GetTransientState at 1 in Hr. rewrite Er in Hr.
        case_bool_decide as Eb.
        -- destruct Eb as [_ <-]. by rewrite lookup_insert_eq.
        -- rewrite lookup_insert_ne by (by intros ->; apply Eb). exact Hr.
      * rewrite lookup_insert_ne by done. rewrite bool_decide_eq_false_2 in Hr by (intros [? _]; done).
        exact Hr.
    + specialize (Hr a k). unfold mem_GetTransientState at 1 in Hr. rewrite Er in Hr.
      rewrite bool_decide_eq_true_2 in Hr by done. subst v. by rewrite orb_false_r.
Qed.

Lemma undo_step_false total e s1 s : undo_step total e s1 s -> undo_step false e s1 s.
Proof. intros H r Hwf Hr. specialize (H r Hwf Hr). by destruct (undo e r). Qed.

Lemma undoable_false total es s0 s : undoable total es s0 s -> undoable false es s0 s.
Proof.
  induction 1 as [|e es s0 s1 s H1 _ IH]; [by constructor|].
  apply undoable_cons with s1; [by apply undo_step_false with total|done].
Qed.

Lemma undoable_one total e s0 s : undo_step total e s0 s -> undoable total [e] s0 s.
Proof. intros H. apply undoable_cons with s0; [done|]. by constructor. Qed.

(** ** Mutations extend the journal by entries that undo them *)

(** The one mutation whose undo may panic: transient zero over non-zero. *)
Definition undo_safe (m : mutation) (s : MemoryStateDB) : bool :=
  match m with
  | MSetTransientState a k v => negb (v =? 0) || (mem_GetTransientState s a k =? 0)
  | _ => true
  end.

Record extends_by (total : bool) (es : list journalEntry) (s s' : MemoryStateDB) : Prop := {
  ex_entries : entries (jrnl s') = es ++ entries (jrnl s);
  ex_snapshots : snapshots (jrnl s') = snapshots (jrnl s);
  ex_nextID : nextID (jrnl s') = nextID (jrnl s);
  ex_wf : al_wf (alist s');
  ex_undo : undoable total es s s';
}.

Section Mutations.

Context (keccak256 : bytes -> bytes).

Lemma modify_extends total s a e f g :
  al_wf (alist s) ->
  (forall o r, undo (e o) r = Some (update_obj a (g o) r)) -> (forall o, g o (f o) = o) ->
  extends_by total [e (getOrNewStateObject s a)] s (modify a e f s).
Proof.
  intros Hwf Hu Hg. split; try done. apply undoable_one.
  apply (undo_step_jrnl _ _ _ (set_objs _ s)), undo_obj with (g := g (getOrNewStateObject s a)); auto.
Qed.

Lemma AddAddress_extends total s a :
  al_wf (alist s) ->
  exists es, extends_by total es s (mem_AddAddressToAccessList a s).
Proof.
  intros Hwf. unfold mem_AddAddressToAccessList.
  destruct (addresses (alist s) !! a) as [i|] eqn:Ea.
  - unfold AddAddress. rewrite Ea. exists []. split; try done. by constructor; destruct s.
  - destruct (AddAddress_new_spec (alist s) a Hwf Ea) as (Hwf' & Hc & Hs).
    assert (AddAddress a (alist s) = (false, (AddAddress a (alist s)).2)) as E
      by (unfold AddAddress; by rewrite Ea).
    rewrite E. cbv iota. eexists [_]. split; try done. apply undoable_one.
    apply (undo_step_jrnl _ _ _ (set_alist _ s)), undo_add_address; [done| |done].
    unfold ContainsAddress. by rewrite Ea.
Qed.

Lemma AddSlot_extends total s a k :
  al_wf (alist s) ->
  exists es, extends_by total es s (mem_AddSlotToAccessList a k s).
Proof.
  intros Hwf. unfold mem_AddSlotToAccessList. pose proof (AddSlot_spec (alist s) a k Hwf) as Hspec.
  destruct (AddSlot a k (alist s)) as [[ap sp] al] eqn:Es.
  destruct Hspec as (-> & -> & Hwf' & Hc & Hs).
  destruct (ContainsAddress (alist s) a) eqn:Ea.
  - assert (forall b, ContainsAddress al b = ContainsAddress (alist s) b) as Hc'.
    { intros b. rewrite Hc. case_bool_decide; [subst; by rewrite Ea|done]. }
    destruct (has_slot (alist s) a k) eqn:Ek.
    + exists []. split; try done. constructor. split; try done; simpl; intros.
      * unfold obj_restored. destruct (_ !! _); [done|by left].
      * rewrite Hs. case_bool_decide as E; [destruct E; subst; by rewrite Ek|done].
    + eexists [_]. split; try done. apply undoable_one.
      apply (undo_step_jrnl _ _ _ (set_alist al s)).
      by apply undo_add_slot with al; try done; destruct s.
  - assert (has_slot (alist s) a k = false) as Ek.
    { unfold has_slot, ContainsSlot, ContainsAddress in *. by destruct (addresses (alist s) !! a). }
    rewrite Ek. eexists [_; _]. split; try done.
    assert (addresses (alist s) !! a = None) as En.
    { unfold ContainsAddress in Ea. by destruct (addresses (alist s) !! a). }
    destruct (AddAddress_new_spec (alist s) a Hwf En) as (Hwfm & Hcm & Hsm).
    set (mid := (AddAddress a (alist s)).2) in *.
    apply undoable_cons with (set_alist mid s);
      [|apply undoable_one; by apply undo_add_address].
    apply (undo_step_jrnl _ _ _ (set_jrnl _ (set_alist al s))), (undo_step_jrnl _ _ _ (set_alist al s)).
    apply undo_add_slot with al; simpl; try done.
    + intros b. by rewrite Hc, Hcm.
    + by rewrite Hsm.
    + intros b j. by rewrite Hs, Hsm.
Qed.

Lemma mutate_extends m s :
  al_wf (alist s) -> exists es,
    extends_by (undo_safe m s) es s (@mutate _ (MemStateDB_ops keccak256) m s).
Proof.
  intros Hwf. destruct m as [a|a v|a v|a n|a c|a k v|a k v|a|l|g|g|a|a k]; cbn [undo_safe mutate].
  - eexists [_]. split; try done. apply undoable_one.
    apply (undo_step_jrnl _ _ _ (set_objs _ s)). apply undo_create.
  - eexists. apply modify_extends with (g := fun o => obj_setBalance (Balance (account o))); try done.
    intros o. apply obj_setBalance_id.
  - eexists. apply modify_extends with (g := fun o => obj_setBalance (Balance (account o))); try done.
    intros o. apply obj_setBalance_id.
  - eexists. apply modify_extends with (g := fun o => obj_setNonce (Nonce (account o))); try done.
    intros o. apply obj_setNonce_id.
  - eexists. apply modify_extends
      with (g := fun o => obj_setCode (code o) (CodeHash (account o))); try done.
    intros o. apply obj_setCode_id.
  - eexists. apply modify_extends with (g := fun o o' =>
      obj_setDirty (if match dirtyStorage o !! k with Some _ => true | None => false end
                    then <[k := obj_GetState o k]> (dirtyStorage o')
                    else delete k (dirtyStorage o')) o'); try done.
    intros o. apply obj_setDirty_id.
  - eexists [_]. split; try done. apply undoable_one.
    apply (undo_step_jrnl _ _ _ (set_transient _ s)), undo_transient.
  - simpl. unfold mem_SelfDestruct. destruct (stateObjects s !! a) as [o|] eqn:Eo.
    + eexists [_]. split; try done. apply undoable_one.
      apply (undo_step_jrnl _ _ _ (set_objs _ s)).
      replace o with (default newStateObject (stateObjects s !! a)) by (by rewrite Eo).
      apply (undo_obj true s a
        (fun x => selfDestructChange a (selfDestructed x) (Balance (account x)))
        (obj_setDestructed true 0)
        (obj_setDestructed (selfDestructed (default newStateObject (stateObjects s !! a)))
           (Balance (account (default newStateObject (stateObjects s !! a))))));
        [done|apply obj_setDestructed_id].
    + exists []. split; try done. by constructor.
  - eexists [_]. split; try done. apply undoable_one.
    apply (undo_step_jrnl _ _ _ (set_logs _ s)), undo_log.
  - eexists [_]. split; try done. apply undoable_one.
    apply (undo_step_jrnl _ _ _ (set_refund _ s)), undo_refund.
  - eexists [_]. split; try done. apply undoable_one.
    apply (undo_step_jrnl _ _ _ (set_refund _ s)), undo_refund.
  - by apply AddAddress_extends.
  - by apply AddSlot_extends.
Qed.

End Mutations.

(** ** Total balance *)

Definition add_balance (_ : Z) (o : stateObject) (acc : Z) : Z := Balance (account o) + acc.

(** Sum of the balances of all accounts. *)
Definition balances_sum (m : gmap Z stateObject) : Z := map_fold add_balance 0 m.

Lemma balances_sum_insert_new m a o :
  m !! a = None -> balances_sum (<[a := o]> m) = Balance (account o) + balances_sum m.
Proof.
  intros H. unfold balances_sum. rewrite map_fold_insert_L; [done| |done].
  intros. unfold add_balance. lia.
Qed.

Lemma balances_sum_delete m a o :
  m !! a = Some o -> balances_sum m = Balance (account o) + balances_sum (delete a m).
Proof.
  intros H. unfold balances_sum. rewrite (map_fold_delete_L _ _ a o m); [done| |done].
  intros. unfold add_balance. lia.
Qed.

Definition balance_of (m : gmap Z stateObject) (a : Z) : Z :=
  match m !! a with Some o => Balance (account o) | None => 0 end.

Lemma balances_sum_insert m a o :
  balances_sum (<[a := o]> m) = balances_sum m - balance_of m a + Balance (account o).
Proof.
  unfold balance_of. destruct (m !! a) as [x|] eqn:E.
  - rewrite <- insert_delete_eq, balances_sum_insert_new by apply lookup_delete_eq.
    rewrite (balances_sum_delete m a x E). lia.
  - rewrite balances_sum_insert_new by done. lia.
Qed.

(** Only non-zero balances count, so the sum is determined by the balance
    function. *)
Definition nonzero_balances (m : gmap Z stateObject) : gmap Z Z :=
  omap (fun o => if Balance (account o) =? 0 then None else Some (Balance (account o))) m.

Lemma balances_sum_nonzero m :
  balances_sum m = map_fold (fun _ b acc => b + acc) 0 (nonzero_balances m).
Proof.
  induction m as [|a o m Ha IH] using map_ind.
  - unfold balances_sum, nonzero_balances. by rewrite omap_empty, !map_fold_empty.
  - rewrite balances_sum_insert_new, IH by done. unfold nonzero_balances.
    destruct (Z.eqb_spec (Balance (account o)) 0) as [E|E].
    + rewrite omap_insert_None, delete_id; [lia| |by rewrite E].
      rewrite lookup_omap, Ha. done.
    + rewrite (omap_insert_Some _ _ _ _ (Balance (account o))) by (by destruct (Z.eqb_spec (Balance (account o)) 0)).
      rewrite map_fold_insert_L; [done|intros; lia|]. by rewrite lookup_omap, Ha.
Qed.

Lemma balances_sum_ext m1 m2 :
  (forall a, balance_of m1 a = balance_of m2 a) -> balances_sum m1 = balances_sum m2.
Proof.
  intros H. rewrite !balances_sum_nonzero. f_equal. apply map_eq. intros a.
  specialize (H a). unfold nonzero_balances, balance_of in *. rewrite !lookup_omap.
  destruct (m1 !! a) as [o1|], (m2 !! a) as [o2|]; simpl in *;
    [by rewrite H|by rewrite H|by rewrite <- H|done].
Qed.

Lemma mrestored_balance s r a : mrestored s r -> mem_GetBalance r a = mem_GetBalance s a.
Proof.
  intros H. pose proof (mr_objs _ _ H a) as Ho. unfold mem_GetBalance, obj_restored in *.
  destruct (stateObjects s !! a) as [o|]; [by rewrite Ho|]. by destruct Ho as [-> | ->].
Qed.

(** ** The instance *)

Record mem_wf (s : MemoryStateDB) : Prop := {
  mw_al : al_wf (alist s);
  mw_snap : forall id idx, snapshots (jrnl s) !! id = Some idx ->
    id < nextID (jrnl s) /\ (idx <= length (entries (jrnl s)))%nat;
  mw_mono : forall id id' idx idx',
    snapshots (jrnl s) !! id = Some idx -> snapshots (jrnl s) !! id' = Some idx' ->
    id <= id' -> (idx <= idx')%nat;
}.

(** The snapshot [id] was taken in [s0] and the journal above it leads back
    to [s0]. *)
Definition mem_live (total : bool) (id : Z) (s0 s : MemoryStateDB) : Prop :=
  exists idx, snapshots (jrnl s) !! id = Some idx /\
    undoable total (take (length (entries (jrnl s)) - idx) (entries (jrnl s))) s0 s.

Lemma NewMemoryStateDB_wf : mem_wf NewMemoryStateDB.
Proof. split; [apply newAccessList_wf|..]; simpl; intros * E; by rewrite lookup_empty in E. Qed.

Lemma snapshot_wf s : mem_wf s -> mem_wf (journal_snapshot s).2.
Proof.
  intros [Ha Hs Hm]. split; simpl; [done|..].
  - intros id idx [[<- <-]|[_ H]]%lookup_insert_Some; [lia|]. apply Hs in H. lia.
  - intros id id' idx idx' [[<- <-]|[Hn H]]%lookup_insert_Some [[<- E]|[Hn' H']]%lookup_insert_Some Hle;
      try pose proof (Hs _ _ H); try pose proof (Hs _ _ H'); try lia. by apply (Hm id id').
Qed.

Lemma snapshot_live total s : mem_live total (journal_snapshot s).1 s (journal_snapshot s).2.
Proof.
  exists (length (entries (jrnl s))). simpl. rewrite lookup_insert_eq, Nat.sub_diag. split; [done|].
  constructor. by apply mrestored_jrnl_r.
Qed.

Lemma snapshot_keeps_live total id s0 s :
  mem_wf s -> mem_live total id s0 s -> mem_live total id s0 (journal_snapshot s).2.
Proof.
  intros Hwf (idx & Hid & Hu). exists idx. simpl.
  destruct (mw_snap s Hwf id idx Hid) as [Hlt _].
  rewrite lookup_insert_ne by lia. split; [done|].
  eapply undoable_weaken; [exact Hu|]. by apply mrestored_jrnl_r.
Qed.

Lemma extends_wf total es s s' : extends_by total es s s' -> mem_wf s -> mem_wf s'.
Proof.
  intros [He Hsn Hn Hw Hu] [Ha Hs Hm]. split; [done|..]; rewrite ?He, ?Hsn, ?Hn; [|exact Hm].
  intros id idx H. rewrite length_app. apply Hs in H. lia.
Qed.

Lemma extends_live total t es id s0 s s' :
  extends_by t es s s' -> (total = true -> t = true) ->
  mem_wf s -> mem_live total id s0 s -> mem_live total id s0 s'.
Proof.
  intros [He Hsn Hn Hw Hu] Ht Hwf (idx & Hid & Hl). exists idx. rewrite Hsn. split; [done|].
  destruct (mw_snap s Hwf id idx Hid) as [_ Hle]. rewrite He, length_app.
  replace (length es + length (entries (jrnl s)) - idx)%nat
    with (length es + (length (entries (jrnl s)) - idx))%nat by lia.
  rewrite take_app_add. apply undoable_app with s; [|done].
  destruct total; [rewrite Ht in Hu by done; done|by apply undoable_false in Hu].
Qed.

(** What a revert to a live snapshot does. *)
Lemma revert_spec total id s0 s :
  mem_wf s -> mem_live total id s0 s ->
  match revertToSnapshot id s with
  | Some r => mrestored s0 r /\ mem_wf r /\
      (forall t id' s1, id' < id -> mem_live t id' s1 s -> mem_live t id' s1 r)
  | None => total = false
  end.
Proof.
  intros Hwf (idx & Hid & Hu). unfold revertToSnapshot. rewrite Hid.
  set (n := (length (entries (jrnl s)) - idx)%nat) in *.
  pose proof (undoable_undo_all _ _ _ _ Hu s (mw_al s Hwf) ltac:(reflexivity)) as Hall.
  destruct (undo_all _ s) as [r|] eqn:Er; [|done]. destruct Hall as [Hr Hal].
  assert (forall id' i', filter (fun p => p.1 < id) (snapshots (jrnl s)) !! id' = Some i' ->
            snapshots (jrnl s) !! id' = Some i' /\ id' < id) as Hf.
  { intros id' i' [H1 H2]%map_lookup_filter_Some. done. }
  destruct (mw_snap s Hwf id idx Hid) as [_ Hidx].
  split; [by apply mrestored_jrnl_r|split].
  - split; simpl; [done|..].
    + intros id' i' [H1 H2]%Hf. rewrite length_drop.
      pose proof (mw_mono s Hwf id' id i' idx H1 Hid ltac:(lia)).
      pose proof (mw_snap s Hwf id' i' H1). unfold n. lia.
    + intros id1 id2 i1 i2 [H1 _]%Hf [H2 _]%Hf. by apply (mw_mono s Hwf).
  - intros t id' s1 Hlt (i' & Hi' & Hu'). exists i'. simpl.
    rewrite map_lookup_filter_Some_2 with (x := i') by done. split; [done|].
    pose proof (mw_mono s Hwf id' id i' idx Hi' Hid ltac:(lia)) as Hle.
    rewrite length_drop.
    replace (take (length (entries (jrnl s)) - i') (entries (jrnl s)))
      with (take n (entries (jrnl s)) ++ take (idx - i') (drop n (entries (jrnl s)))) in Hu'
      by (rewrite take_take_drop; f_equal; unfold n; lia).
    apply undoable_split in Hu' as (m & Hm1 & Hm2).
    pose proof (undoable_undo_all _ _ _ _ Hm1 s (mw_al s Hwf) ltac:(reflexivity)) as Hall'.
    rewrite Er in Hall'. destruct Hall' as [Hmr _].
    replace (length (entries (jrnl s)) - n - i')%nat with (idx - i')%nat by (unfold n; lia).
    eapply undoable_weaken; [exact Hm2|]. by apply mrestored_jrnl_r.
Qed.

Lemma revert_wf id s r : mem_wf s -> revertToSnapshot id s = Some r -> al_wf (alist r) -> mem_wf r.
Proof.
  intros Hwf H Hal. unfold revertToSnapshot in H.
  destruct (snapshots (jrnl s) !! id) as [idx|] eqn:Hid; [|by simplify_eq].
  destruct (undo_all _ s) as [r'|]; [|done]. simplify_eq. split; [done|..]; simpl.
  - intros id' i' [H1 H2]%map_lookup_filter_Some. rewrite length_drop. simpl in H2.
    pose proof (mw_mono s Hwf id' id i' idx H1 Hid ltac:(lia)).
    pose proof (mw_snap s Hwf id' i' H1). pose proof (mw_snap s Hwf id idx Hid). lia.
  - intros id1 id2 i1 i2 [H1 _]%map_lookup_filter_Some [H2 _]%map_lookup_filter_Some.
    by apply (mw_mono s Hwf).
Qed.

(** Every undo keeps the access list well formed. *)
Lemma undo_all_al_wf es s r : al_wf (alist s) -> undo_all es s = Some r -> al_wf (alist r).
Proof.
  revert s. induction es as [|e es IH]; intros s Hwf H; simpl in H; [by simplify_eq|].
  destruct (undo e s) as [s'|] eqn:E; [|done]. apply (IH s'); [|done].
  destruct e as [a [o|]|a p|a p|a c h|a k p [|]|a d b|a|a k|a k p|h n|p]; simpl in E;
    unfold update_obj in E; repeat case_match; simplify_eq; simpl; try done.
  - by apply DeleteAddress_spec.
  - by apply DeleteSlot_spec.
Qed.

Section Laws.

Context (keccak256 : bytes -> bytes).

#[local] Abbreviation mops := (MemStateDB_ops keccak256).

(** A getter that reads one account agrees on restored states when it gives
    a fresh account the same value as a missing one. *)
Lemma mrestored_read {A} (get : option stateObject -> A) s r a :
  get None = get (Some newStateObject) -> mrestored s r ->
  get (stateObjects r !! a) = get (stateObjects s !! a).
Proof.
  intros Hg H. pose proof (mr_objs _ _ H a) as Ho. unfold obj_restored in Ho.
  destruct (stateObjects s !! a); [by rewrite Ho|]. by destruct Ho as [-> | ->].
Qed.

Lemma mrestored_restored s r : mrestored s r -> @restored _ mops s r.
Proof.
  intros H. split; [split|..]; simpl.
  - intros a. by apply (mrestored_read (fun o => match o with Some o => Balance (account o) | None => 0 end)).
  - intros a. by apply (mrestored_read (fun o => match o with Some o => Nonce (account o) | None => 0 end)).
  - intros a. by apply (mrestored_read (fun o => match o with Some o => code o | None => [] end)).
  - intros a k. by apply (mrestored_read (fun o => match o with Some o => obj_GetState o k | None => 0 end)).
  - intros a k. by apply (mrestored_read
      (fun o => match o with Some o => default 0 (committedStorage o !! k) | None => 0 end)).
  - apply H.
  - intros a. by apply (mrestored_read (fun o => match o with Some o => selfDestructed o | None => false end)).
  - apply H.
  - apply H.
  - intros a. by apply (mrestored_read (fun o => match o with Some o => zlen (code o) | None => 0 end)).
  - intros a. unfold mem_Empty. apply (mrestored_read (fun o => match o with
      | None => true
      | Some o => (Nonce (account o) =? 0) && (Z.sgn (Balance (account o)) =? 0)
                  && (BytesToHash (CodeHash (account o)) =? EmptyCodeHash)
      end)); [vm_compute; reflexivity|done].
  - intros a Ha. pose proof (mr_objs _ _ H a) as Ho. unfold mem_Exist, mem_GetCodeHash in *.
    destruct (stateObjects s !! a) as [o|]; [|done]. simpl in Ho. by rewrite Ho.
  - intros a Ha. pose proof (mr_objs _ _ H a) as Ho. unfold mem_Exist, mem_Empty, mem_GetCodeHash in *.
    destruct (stateObjects s !! a) as [o|]; [done|]. destruct Ho as [-> | ->]; [done|].
    vm_compute. by split.
  - apply H.
  - intros a k. apply ContainsSlot_eq; apply H.
Qed.

(** Access list, journal and transaction context are not part of the world. *)
Lemma same_world_parts s r :
  stateObjects r = stateObjects s -> logs r = logs s -> refund r = refund s ->
  transientStorage r = transientStorage s -> @same_world _ mops s r.
Proof.
  destruct s, r. simpl. intros -> -> -> ->. split; try done. intros a. cbn.
  unfold mem_Exist. simpl. by destruct (_ !! a).
Qed.

Lemma mem_same_AddAddress a s : @same_world _ mops s (mem_AddAddressToAccessList a s).
Proof.
  unfold mem_AddAddressToAccessList. destruct (AddAddress a (alist s)) as [[] al]; by apply same_world_parts.
Qed.

Lemma mem_same_AddSlot a k s : @same_world _ mops s (mem_AddSlotToAccessList a k s).
Proof.
  unfold mem_AddSlotToAccessList. destruct (AddSlot a k (alist s)) as [[[] []] al]; by apply same_world_parts.
Qed.

Lemma mem_same_CreateAccount a s :
  mem_Exist s a = false -> @same_world _ mops s (mem_CreateAccount a s).
Proof.
  unfold mem_Exist. intros Ha. destruct (stateObjects s !! a) eqn:E; [done|].
  apply mrestored_restored. split; try done. intros b. unfold mem_CreateAccount. simpl.
  destruct (decide (a = b)) as [<-|Hab].
  - rewrite lookup_insert_eq, E. simpl. by right.
  - rewrite lookup_insert_ne by done. unfold obj_restored.
    destruct (stateObjects s !! b); [done|by left].
Qed.

Lemma GetBalance_insert s m j a b o :
  stateObjects s = <[a := o]> m ->
  mem_GetBalance (set_jrnl j s) b = if bool_decide (a = b) then Balance (account o) else balance_of m b.
Proof.
  intros E. unfold mem_GetBalance, balance_of. simpl. rewrite E.
  case_bool_decide; [subst; by rewrite lookup_insert_eq|by rewrite lookup_insert_ne].
Qed.

Lemma getOrNew_balance s a : Balance (account (getOrNewStateObject s a)) = mem_GetBalance s a.
Proof. unfold getOrNewStateObject, mem_GetBalance. by destruct (_ !! _). Qed.

(** Object updates that keep the balance keep all balances and the sum. *)
Lemma modify_balance a e f s b :
  mem_GetBalance (modify a e f s) b
  = if bool_decide (a = b) then Balance (account (f (getOrNewStateObject s a)))
    else mem_GetBalance s b.
Proof.
  unfold mem_GetBalance, modify. simpl.
  case_bool_decide; [subst; by rewrite lookup_insert_eq|by rewrite lookup_insert_ne].
Qed.

Lemma modify_supply a e f s :
  balances_sum (stateObjects (modify a e f s))
  = balances_sum (stateObjects s) - mem_GetBalance s a
    + Balance (account (f (getOrNewStateObject s a))).
Proof. unfold modify. simpl. by rewrite balances_sum_insert. Qed.

Definition keeps_balance (m : mutation) : Prop :=
  match m with
  | MCreateAccount _ | MAddBalance _ _ | MSubBalance _ _ | MSelfDestruct _ => False
  | _ => True
  end.

Lemma mutate_objs m s :
  keeps_balance m ->
  stateObjects (@mutate _ mops m s) = stateObjects s \/
  exists a e f, @mutate _ mops m s = modify a e f s /\
    Balance (account (f (getOrNewStateObject s a))) = mem_GetBalance s a.
Proof.
  destruct m as [a|a v|a v|a n|a c|a k v|a k v|a|l|g|g|a|a k]; intros Hk; try done; simpl; auto.
  - right. do 3 eexists. split; [done|]. apply getOrNew_balance.
  - right. do 3 eexists. split; [done|]. apply getOrNew_balance.
  - right. do 3 eexists. split; [done|]. apply getOrNew_balance.
  - left. unfold mem_AddAddressToAccessList. by destruct (AddAddress a (alist s)) as [[] al].
  - left. unfold mem_AddSlotToAccessList. by destruct (AddSlot a k (alist s)) as [[[] []] al].
Qed.

Lemma mem_balance_mutate m s b :
  keeps_balance m -> mem_GetBalance (@mutate _ mops m s) b = mem_GetBalance s b.
Proof.
  intros Hk. destruct (mutate_objs m s Hk) as [E|(a & e & f & -> & Eb)].
  - unfold mem_GetBalance. by rewrite E.
  - rewrite modify_balance, Eb. case_bool_decide; by subst.
Qed.

Lemma mem_supply_mutate m s :
  keeps_balance m -> balances_sum (stateObjects (@mutate _ mops m s)) = balances_sum (stateObjects s).
Proof.
  intros Hk. destruct (mutate_objs m s Hk) as [E|(a & e & f & -> & Eb)].
  - by rewrite E.
  - rewrite modify_supply, Eb. lia.
Qed.

(** [MemoryStateDB] fulfils the contract the EVM relies on. *)
#[export] Program Instance MemStateDB_laws : @StateDBLaws MemoryStateDB mops := {
  live := mem_live false;
  supply s := balances_sum (stateObjects s);
  wf_state := mem_wf;
}.
Next Obligation.
  intros m s Hwf. destruct (mutate_extends keccak256 m s (mw_al s Hwf)) as [es He].
  by eapply extends_wf.
Qed.
Next Obligation. intros s Hwf. by apply snapshot_wf. Qed.
Next Obligation.
  intros id s r Hwf H. apply (revert_wf id s r Hwf H). simpl in H. unfold revertToSnapshot in H.
  destruct (snapshots (jrnl s) !! id) as [idx|]; [|simplify_eq; apply Hwf].
  destruct (undo_all _ s) as [r'|] eqn:E; [|done]. simplify_eq.
  by apply (undo_all_al_wf _ _ _ (mw_al s Hwf) E).
Qed.
Next Obligation. intros s Hwf. apply snapshot_live. Qed.
Next Obligation. intros id s0 s Hwf (idx & Hid & _). by apply (mw_snap s Hwf) in Hid as [? _]. Qed.
Next Obligation.
  intros id s0 s m Hwf Hl. destruct (mutate_extends keccak256 m s (mw_al s Hwf)) as [es He].
  eapply extends_live; [exact He|done..].
Qed.
Next Obligation. intros id s0 s Hwf Hl. by apply snapshot_keeps_live. Qed.
Next Obligation.
  intros id id' s0 s1 s r Hwf Hl Hl' Hlt H.
  pose proof (revert_spec false id' s1 s Hwf Hl') as Hs. simpl in H. rewrite H in Hs.
  by apply Hs.
Qed.
Next Obligation.
  intros id s0 s r Hwf Hl H. apply mrestored_restored.
  pose proof (revert_spec false id s0 s Hwf Hl) as Hs. simpl in H. rewrite H in Hs. apply Hs.
Qed.
Next Obligation.
  intros id s0 s r Hwf Hl H. apply balances_sum_ext. intros a.
  pose proof (revert_spec false id s0 s Hwf Hl) as Hs. simpl in H. rewrite H in Hs.
  apply (mrestored_balance s0 r a). apply Hs.
Qed.
Next Obligation. apply mem_same_AddAddress. Qed.
Next Obligation. apply mem_same_AddSlot. Qed.
Next Obligation. intros s. by apply same_world_parts. Qed.
Next Obligation. apply mem_same_CreateAccount. Qed.
Next Obligation.
  intros a b s. simpl. unfold mem_AddAddressToAccessList, AddAddress.
  destruct (addresses (alist s) !! a) as [i|] eqn:E; simpl.
  - case_bool_decide; [subst|done]. unfold ContainsAddress. by rewrite E.
  - unfold ContainsAddress. simpl.
    case_bool_decide; [subst; by rewrite lookup_insert_eq|by rewrite lookup_insert_ne].
Qed.
Next Obligation.
  intros a v s b. simpl. unfold mem_AddBalance. rewrite modify_balance. simpl.
  rewrite getOrNew_balance. case_bool_decide; by subst.
Qed.
Next Obligation.
  intros a v s b. simpl. unfold mem_SubBalance. rewrite modify_balance. simpl.
  rewrite getOrNew_balance. case_bool_decide; by subst.
Qed.
Next Obligation.
  intros m s b. destruct m; try exact I;
    match goal with |- _ (mutate ?x _) _ = _ => exact (mem_balance_mutate x s b I) end.
Qed.
Next Obligation.
  intros a v s. etransitivity; [exact (modify_supply a _ _ s)|]. simpl.
  rewrite getOrNew_balance. lia.
Qed.
Next Obligation.
  intros a v s. etransitivity; [exact (modify_supply a _ _ s)|]. simpl.
  rewrite getOrNew_balance. lia.
Qed.
Next Obligation.
  intros a s Ha. unfold mem_CreateAccount. simpl. rewrite balances_sum_insert. unfold balance_of.
  simpl in Ha. unfold mem_Exist in Ha. destruct (stateObjects s !! a); [done|]. simpl. lia.
Qed.
Next Obligation. done. Qed.
Next Obligation.
  intros m s. destruct m; try exact I;
    match goal with |- context [mutate ?x _] => exact (mem_supply_mutate x s I) end.
Qed.

End Laws.

(** ** Properties *)

(** One client step: a journaled mutation, a snapshot, or a revert. *)
Inductive dbstep :=
  | DMutate (m : mutation)
  | DSnapshot
  | DRevert (id : Z).

Definition run_dbstep `{StateDB DB} (st : dbstep) (s : DB) : option DB :=
  match st with
  | DMutate m => Some (mutate m s)
  | DSnapshot => Some (Snapshot s).2
  | DRevert id => RevertToSnapshot id s
  end.

Fixpoint run_dbsteps `{StateDB DB} (l : list dbstep) (s : DB) : option DB :=
  match l with
  | [] => Some s
  | st :: l' => run_dbstep st s ≫= run_dbsteps l'
  end.

(** No transient slot is overwritten by zero. *)
Definition no_transient_clear (st : dbstep) : bool :=
  match st with
  | DMutate (MSetTransientState _ _ v) => negb (v =? 0)
  | _ => true
  end.

(** Reverts target the given snapshot's successors. *)
Definition reverts_above (id : Z) (st : dbstep) : Prop :=
  match st with
  | DRevert id' => id < id'
  | _ => True
  end.

Section Properties.

Context (keccak256 : bytes -> bytes).

#[local] Abbreviation mops := (MemStateDB_ops keccak256).

(** Reverting to a snapshot that is no longer (or not yet) valid changes
    nothing. *)
Lemma revert_unknown id s : snapshots (jrnl s) !! id = None -> revertToSnapshot id s = Some s.
Proof. intros H. unfold revertToSnapshot. by rewrite H. Qed.

(** Every valid snapshot of a reachable state is live for some past state. *)
Definition all_live (s : MemoryStateDB) : Prop :=
  forall id idx, snapshots (jrnl s) !! id = Some idx -> exists s0, mem_live false id s0 s.

Lemma dbstep_live total st id0 s s' :
  (total = true -> no_transient_clear st = true) -> reverts_above id0 st ->
  mem_wf s -> all_live s -> @run_dbstep _ mops st s = Some s' ->
  mem_wf s' /\ all_live s' /\ (forall s0, mem_live total id0 s0 s -> mem_live total id0 s0 s').
Proof.
  intros Ht Hr Hwf Hall Hs. destruct st as [m| |id]; simpl in Hs.
  - simplify_eq. destruct (mutate_extends keccak256 m s (mw_al s Hwf)) as [es He].
    assert (total = true -> undo_safe m s = true) as Hsafe.
    { intros E. specialize (Ht E). destruct m; try done. simpl in *. by rewrite Ht. }
    split; [by eapply extends_wf|split].
    + intros id idx Hid. rewrite (ex_snapshots _ _ _ _ He) in Hid.
      destruct (Hall id idx Hid) as [s1 H1]. exists s1. by eapply extends_live.
    + intros s0 Hl. by eapply extends_live.
  - simplify_eq. split; [by apply snapshot_wf|].
    split; [|intros s0 Hl; by apply snapshot_keeps_live].
    intros id idx Hid. destruct (decide (id = nextID (jrnl s))) as [->|Hne].
    + exists s. apply snapshot_live.
    + simpl in Hid. rewrite lookup_insert_ne in Hid by done.
      destruct (Hall id idx Hid) as [s1 H1]. exists s1. by apply snapshot_keeps_live.
  - simpl in Hr. destruct (snapshots (jrnl s) !! id) as [idx|] eqn:Hid;
      [|rewrite (revert_unknown id s Hid) in Hs; by simplify_eq].
    destruct (Hall id idx Hid) as [s1 H1]. pose proof (revert_spec false id s1 s Hwf H1) as Hsp.
    rewrite Hs in Hsp. destruct Hsp as (_ & Hwf' & Hkeep).
    split; [done|split; [|intros s0; by apply Hkeep]].
    intros id' idx' Hid'. unfold revertToSnapshot in Hs. rewrite Hid in Hs.
    destruct (undo_all _ s) eqn:Eu; [|done]. injection Hs as <-. simpl in Hid'.
    apply map_lookup_filter_Some in Hid' as [E Hlt].
    destruct (Hall id' idx' E) as [s2 H2]. exists s2. by apply Hkeep.
Qed.

Lemma dbsteps_live total l id0 s s' :
  (total = true -> forallb no_transient_clear l = true) -> Forall (reverts_above id0) l ->
  mem_wf s -> all_live s -> @run_dbsteps _ mops l s = Some s' ->
  mem_wf s' /\ all_live s' /\ (forall s0, mem_live total id0 s0 s -> mem_live total id0 s0 s').
Proof.
  revert s. induction l as [|st l IH]; intros s Ht Hr Hwf Hall Hs; simpl in Hs; [by simplify_eq|].
  apply bind_Some in Hs as (s1 & H1 & H2). inversion Hr as [|? ? Hr1 Hr2]; subst.
  assert (total = true -> no_transient_clear st = true /\ forallb no_transient_clear l = true) as Ht'.
  { intros E. specialize (Ht E). simpl in Ht. by apply andb_prop in Ht. }
  destruct (dbstep_live total st id0 s s1) as (Hw & Ha & Hl); try done; [intros E; by apply Ht'|].
  destruct (IH s1) as (Hw' & Ha' & Hl'); try done; [intros E; by apply Ht'|].
  split; [done|split; [done|]]. intros s0 H0. by apply Hl', Hl.
Qed.

(** Snapshot numbers start at zero, so every revert is above -1. *)
Lemma dbsteps_reachable l s :
  @run_dbsteps _ mops l NewMemoryStateDB = Some s -> mem_wf s /\ all_live s.
Proof.
  enough (forall l s0 s1, mem_wf s0 -> all_live s0 -> @run_dbsteps _ mops l s0 = Some s1 ->
            mem_wf s1 /\ all_live s1) as H.
  { intros Hl. apply (H l NewMemoryStateDB); [apply NewMemoryStateDB_wf| |done].
    intros id idx E. simpl in E. by rewrite lookup_empty in E. }
  clear l s. induction l as [|st l IH]; intros s0 s1 Hwf Hall Hs; simpl in Hs; [by simplify_eq|].
  apply bind_Some in Hs as (s2 & H1 & H2).
  destruct (dbstep_live false st (match st with DRevert id => id - 1 | _ => 0 end) s0 s2)
    as (Hw & Ha & _); try done; [|by apply (IH s2)].
  destruct st; simpl; lia.
Qed.

(** C1. Snapshot and revert: in any state reached from the empty database by
    mutations, snapshots and reverts, take a snapshot, run any sequence of
    mutations, nested snapshots and reverts to later snapshots, then revert.
    The revert can only panic if the sequence overwrote a transient slot by
    zero.  If it does not, every account of the snapshot is exactly as it was,
    and an account that did not exist then is absent again or is left behind as
    a blank account.  So all getters of the database, those of the access list
    included, read as when the snapshot was taken, except that a blank account
    left behind exists and has the code hash of empty code. *)
Theorem revert_restores_snapshot (l0 l : list dbstep) (s s' : MemoryStateDB) :
  @run_dbsteps _ mops l0 NewMemoryStateDB = Some s ->
  Forall (reverts_above (@Snapshot _ mops s).1) l ->
  @run_dbsteps _ mops l (@Snapshot _ mops s).2 = Some s' ->
  match @RevertToSnapshot _ mops (@Snapshot _ mops s).1 s' with
  | Some r =>
      @restored _ mops s r /\
      forall a, stateObjects r !! a = stateObjects s !! a \/
        stateObjects s !! a = None /\ stateObjects r !! a = Some newStateObject
  | None => forallb no_transient_clear l = false
  end.
Proof.
  intros H0 Hr Hl. destruct (dbsteps_reachable l0 s H0) as [Hwf Hall].
  set (t := forallb no_transient_clear l).
  destruct (dbstep_live t DSnapshot (journal_snapshot s).1 s (journal_snapshot s).2)
    as (Hwf1 & Hall1 & _); try done.
  destruct (dbsteps_live t l (journal_snapshot s).1 (journal_snapshot s).2 s')
    as (Hwf' & _ & Hlive); try done.
  pose proof (revert_spec t _ s s' Hwf' (Hlive s (snapshot_live t s))) as Hsp.
  simpl in Hsp |- *. destruct (revertToSnapshot _ s'); [|done]. destruct Hsp as [Hm _].
  split; [by apply mrestored_restored|]. intros a. pose proof (mr_objs _ _ Hm a) as Ho.
  unfold obj_restored in Ho. destruct (stateObjects s !! a); [by left|].
  destruct Ho as [-> | ->]; [by left|by right].
Qed.

End Properties.

(** A concrete history for the witnesses. *)
Definition w_ops : StateDB MemoryStateDB := MemStateDB_ops (fun b => b).

Definition w_steps0 : list dbstep :=
  [DMutate (MAddBalance 1 5); DMutate (MSetTransientState 1 2 8)].

Definition w_steps1 : list dbstep :=
  [DMutate (MAddBalance 1 5); DSnapshot; DMutate (MSetState 1 2 3); DRevert 1;
   DMutate (MSetTransientState 1 2 7); DMutate (MAddSlotToAccessList 4 9)].

Definition w_state0 : MemoryStateDB :=
  default NewMemoryStateDB (@run_dbsteps _ w_ops w_steps0 NewMemoryStateDB).

Definition w_state1 : MemoryStateDB :=
  default NewMemoryStateDB (@run_dbsteps _ w_ops w_steps1 (@Snapshot _ w_ops w_state0).2).

Lemma revert_restores_snapshot_witness :
  match @RevertToSnapshot _ w_ops (@Snapshot _ w_ops w_state0).1 w_state1 with
  | Some r =>
      @restored _ w_ops w_state0 r /\
      forall a, stateObjects r !! a = stateObjects w_state0 !! a \/
        stateObjects w_state0 !! a = None /\ stateObjects r !! a = Some newStateObject
  | None => forallb no_transient_clear w_steps1 = false
  end.
Proof.
  apply (revert_restores_snapshot (fun b => b) w_steps0 w_steps1 w_state0 w_state1);
    [vm_compute; reflexivity| |vm_compute; reflexivity].
  repeat constructor; vm_compute; done.
Defined.

(** *** Where the revert panics or is not exact *)

Section RevertFindings.

Context (keccak256 : bytes -> bytes).

#[local] Abbreviation mops := (MemStateDB_ops keccak256).

Lemma undo_transient_last st a k y :
  transientStorage st !! a = Some {[k := y]} ->
  undo (transientStorageChange a k 0) st
  = Some (set_transient (delete a (transientStorage st)) st).
Proof.
  intros H. cbn [undo]. rewrite Z.eqb_refl, H. simpl. rewrite delete_singleton_eq.
  by rewrite decide_True.
Qed.

Lemma undo_transient_nil st a k x :
  x <> 0 -> transientStorage st !! a = None -> undo (transientStorageChange a k x) st = None.
Proof. intros Hx H. cbn [undo]. rewrite H. by destruct (Z.eqb_spec x 0). Qed.

(** A revert across a cleared and re-written transient slot panics.  When
    [k] is the only transient slot of account [a] and holds a non-zero
    value, then after a snapshot, writing zero and then any value to the
    slot, reverting to the snapshot assigns into a nil map: undoing the
    second write deletes the account's transient map, undoing the first
    needs it. *)
Lemma transient_revert_panics s a k x y :
  transientStorage s !! a = Some {[k := x]} -> x <> 0 ->
  revertToSnapshot (journal_snapshot s).1
    (mem_SetTransientState a k y
       (mem_SetTransientState a k 0 (journal_snapshot s).2)) = None.
Proof.
  intros Ha Hx. simpl. unfold revertToSnapshot. simpl. rewrite lookup_insert_eq.
  replace (S (S (length (entries (jrnl s)))) - length (entries (jrnl s)))%nat with 2%nat by lia.
  assert (mem_GetTransientState s a k = x) as Ex.
  { unfold mem_GetTransientState. by rewrite Ha, lookup_singleton_eq. }
  assert (forall st v, mem_GetTransientState (mem_SetTransientState a k v st) a k = v) as Eget.
  { intros st v. unfold mem_GetTransientState. simpl. by rewrite !lookup_insert_eq. }
  rewrite Eget. change (mem_GetTransientState (set_jrnl _ s) a k) with (mem_GetTransientState s a k).
  rewrite Ex. cbn [take undo_all]. rewrite (undo_transient_last _ a k y).
  - rewrite undo_transient_nil; [done..|]. simpl. apply lookup_delete_eq.
  - simpl. rewrite !lookup_insert_eq, Ha. simpl. by rewrite !insert_singleton_eq.
Qed.

Lemma new_code_hash : BytesToHash (CodeHash NewAccount) = EmptyCodeHash.
Proof. vm_compute. reflexivity. Qed.

(** Reverting does not undo the creation of an account by a balance, nonce,
    code or storage write: [getOrNewStateObject] journals nothing, so after
    crediting a non-existent account and reverting, the account exists and
    its code hash is that of empty code instead of zero. *)
Lemma revert_leaves_account s a v :
  @Exist _ mops s a = false ->
  exists r, @RevertToSnapshot _ mops (@Snapshot _ mops s).1
              (@AddBalance _ mops a v (@Snapshot _ mops s).2) = Some r /\
    @Exist _ mops r a = true /\ @GetCodeHash _ mops r a = EmptyCodeHash /\
    @GetCodeHash _ mops s a = 0.
Proof.
  cbn [Exist RevertToSnapshot GetCodeHash AddBalance Snapshot MemStateDB_ops].
  unfold mem_Exist. intros Ha. destruct (stateObjects s !! a) eqn:Eo; [done|].
  set (st := mem_AddBalance a v _).
  assert (stateObjects st !! a = Some (obj_setBalance (0 + v) newStateObject)) as Est.
  { subst st. unfold mem_AddBalance, modify, getOrNewStateObject. cbn. by rewrite Eo, lookup_insert_eq. }
  assert (entries (jrnl st) = balanceChange a 0 :: entries (jrnl s)) as Ee.
  { subst st. unfold mem_AddBalance, modify, getOrNewStateObject. cbn. by rewrite Eo. }
  assert (snapshots (jrnl st) !! (journal_snapshot s).1 = Some (length (entries (jrnl s)))) as Es.
  { subst st. cbn. by rewrite lookup_insert_eq. }
  unfold revertToSnapshot. rewrite Es, Ee. cbn [length].
  replace (S (length (entries (jrnl s))) - length (entries (jrnl s)))%nat with 1%nat by lia.
  cbn [take undo_all]. unfold undo, update_obj. rewrite Est. cbn [undo_all].
  eexists. split; [reflexivity|]. unfold mem_GetCodeHash. cbn [set_jrnl set_objs stateObjects].
  rewrite lookup_insert_eq, Eo. split; [done|split; [exact new_code_hash|done]].
Qed.

End RevertFindings.

Lemma transient_revert_panics_witness :
  revertToSnapshot (journal_snapshot w_state0).1
    (mem_SetTransientState 1 2 7
       (mem_SetTransientState 1 2 0 (journal_snapshot w_state0).2)) = None.
Proof.
  apply (transient_revert_panics w_state0 1 2 8 7); [vm_compute; reflexivity|done].
Defined.

Lemma revert_leaves_account_witness :
  exists r, @RevertToSnapshot _ w_ops (@Snapshot _ w_ops w_state0).1
              (@AddBalance _ w_ops 77 3 (@Snapshot _ w_ops w_state0).2) = Some r /\
    @Exist _ w_ops r 77 = true /\ @GetCodeHash _ w_ops r 77 = EmptyCodeHash /\
    @GetCodeHash _ w_ops w_state0 77 = 0.
Proof.
  apply (revert_leaves_account (fun b => b) w_state0 77 3). vm_compute. reflexivity.
Defined.

(** *** Committing storage *)

Lemma merge_fold_lookup (d c : gmap Z Z) k :
  map_fold (fun k v m => if v =? 0 then delete k m else <[k := v]> m) c d !! k
  = match d !! k with
    | Some v => if v =? 0 then None else Some v
    | None => c !! k
    end.
Proof.
  revert k. apply (map_fold_weak_ind (fun (m d : gmap Z Z) => forall k, m !! k
    = match d !! k with Some v => if v =? 0 then None else Some v | None => c !! k end)).
  - intros k. by rewrite lookup_empty.
  - intros i x d' m Hi IH k. destruct (decide (i = k)) as [<-|Hne].
    + rewrite lookup_insert_eq. destruct (x =? 0); [apply lookup_delete_eq|apply lookup_insert_eq].
    + rewrite lookup_insert_ne by done. rewrite <- IH.
      destruct (x =? 0); [by rewrite lookup_delete_ne|by rewrite lookup_insert_ne].
Qed.

Lemma flush_obj_read o k :
  obj_GetState (flush_obj o) k = obj_GetState o k /\
  default 0 (committedStorage (flush_obj o) !! k) = obj_GetState o k.
Proof.
  unfold obj_GetState, flush_obj. simpl. rewrite lookup_empty, merge_fold_lookup.
  destruct (dirtyStorage o !! k) as [v|]; [|done]. destruct (Z.eqb_spec v 0); by subst.
Qed.

(** Committing storage: the flush at the start of [Commit] changes no
    storage read, makes every committed value equal to the current one,
    leaves no dirty slot behind and stores no zero values (slots set to zero
    are deleted); the merged map used for the storage root is that committed
    map. *)
Lemma flush_storage_reads s a k :
  (forall o k v, stateObjects s !! a = Some o -> committedStorage o !! k = Some v -> v <> 0) ->
  mem_GetState (flush_storage s) a k = mem_GetState s a k /\
  mem_GetCommittedState (flush_storage s) a k = mem_GetState s a k /\
  (forall o, stateObjects (flush_storage s) !! a = Some o ->
     dirtyStorage o = ∅ /\ committedStorage o !! k <> Some 0) /\
  (forall o, stateObjects s !! a = Some o ->
     mergeStorage o = committedStorage (flush_obj o)).
Proof.
  intros Hnz. unfold mem_GetState, mem_GetCommittedState, flush_storage. simpl.
  rewrite lookup_fmap. destruct (stateObjects s !! a) as [o|] eqn:Eo; simpl; [|done].
  destruct (flush_obj_read o k) as [H1 H2]. split; [done|split; [done|split; [|by intros ? [= <-]]]].
  intros ? [= <-]. split; [done|]. unfold flush_obj. simpl. rewrite merge_fold_lookup.
  destruct (dirtyStorage o !! k) as [v|].
  - destruct (Z.eqb_spec v 0); [done|congruence].
  - intros E. by apply (Hnz o k 0).
Qed.

Lemma flush_storage_reads_witness :
  mem_GetState (flush_storage (mem_SetState 1 2 3 w_state0)) 1 2 = 3.
Proof.
  apply (flush_storage_reads (mem_SetState 1 2 3 w_state0) 1 2).
  intros o k v Ho Hc. vm_compute in Ho. injection Ho as <-. vm_compute in Hc.
  discriminate Hc.
Defined.
