(* ===== verification/Machine.v ===== *)
(** * Machine: the EVM's state and the monad its code is written in

    Stack, memory, contract and EVM context of pkg/core/vm (stack.go,
    memory.go, contract.go, interpreter.go), and a state monad whose results
    separate Go error returns, run-time panics and exhausted fuel. *)

From S2P Require Import Prelude StateDB.

#[local] Set Warnings "-register-all".

(** ** Errors and panics *)

(** The error values of interpreter.go and eip8141_opcodes.go, the ad-hoc
    ones built by [errors.New] in [Call] and [create], and the errors
    returned by precompiles and by the RISC-V executor. *)
Inductive vmerr :=
  | ErrOutOfGas
  | ErrStackOverflow
  | ErrStackUnderflow
  | ErrInvalidJump
  | ErrWriteProtection
  | ErrExecutionReverted
  | ErrMaxCallDepthExceeded
  | ErrInvalidOpCode
  | ErrReturnDataOutOfBounds
  | ErrMaxInitCodeSizeExceeded
  | ErrInsufficientTransfer
  | ErrNoStateDB
  | ErrAddressCollision
  | ErrMaxCodeSizeExceeded
  | ErrInvalidApproveScope
  | ErrAlreadyApproved
  | ErrSenderNotApproved
  | ErrCallerNotFrameTarget
  | ErrCallerNotSender
  | ErrInsufficientBalance
  | ErrNoFrameContext
  | ErrInvalidTxParamIndex
  | ErrFrameIndexOutOfBounds
  | ErrTxParamIn2MustBeZero
  | ErrPrecompile (code : Z)
  | ErrRVExecution.

#[export] Instance vmerr_eq_dec : EqDecision vmerr.
Proof. solve_decision. Defined.

(** [errors.Is(err, ErrExecutionReverted)] *)
Definition is_revert (e : vmerr) : bool :=
  match e with ErrExecutionReverted => true | _ => false end.

(** Run-time panics, by what caused them: indexing the operand stack,
    accessing memory out of bounds, another slice expression, the state
    database's revert, or a nil pointer. *)
Inductive panic := PStack | PMemory | PSlice | PRevert | PNil.

(** ** The monad *)

Inductive out (S A : Type) :=
  | Ok (a : A) (s : S)
  | Err (e : vmerr) (ret : bytes) (s : S)
  | Panic (p : panic)
  | Fuel.
Arguments Ok {S A} _ _.
Arguments Err {S A} _ _ _.
Arguments Panic {S A} _.
Arguments Fuel {S A}.

Definition M (S A : Type) : Type := S -> out S A.

Definition gret {S A} (a : A) : M S A := fun s => Ok a s.

Definition gbind {S A B} (m : M S A) (k : A -> M S B) : M S B := fun s =>
  match m s with
  | Ok a s' => k a s'
  | Err e r s' => Err e r s'
  | Panic p => Panic p
  | Fuel => Fuel
  end.

(** [return ret, err] *)
Definition gfail {S A} (e : vmerr) (ret : bytes) : M S A := fun s => Err e ret s.

Definition gpanic {S A} (p : panic) : M S A := fun _ => Panic p.

Definition gget {S} : M S S := fun s => Ok s s.

Definition gput {S} (s : S) : M S unit := fun _ => Ok tt s.

Definition gmodify {S} (f : S -> S) : M S unit := fun s => Ok tt (f s).

Notation "'let!' x := m 'in' k" := (gbind m (fun x => k))
  (at level 10, x name, m at level 100, k at level 200) : go_scope.
Notation "'let!' ' p := m 'in' k" := (gbind m (fun x => match x with p => k end))
  (at level 10, p strict pattern, m at level 100, k at level 200) : go_scope.
Notation "'do!' m 'in' k" := (gbind m (fun _ => k))
  (at level 10, m at level 100, k at level 200) : go_scope.

(** An option where [None] is a panic. *)
Definition gopt {S A} (p : panic) (o : option A) : M S A :=
  match o with Some a => gret a | None => gpanic p end.

(** ** Memory (memory.go) *)

Record Memory := mkMemory {
  store : bytes;
  lastGasCost : Z;
}.

Definition NewMemory : Memory := mkMemory [] 0.

(** [Set]: [copy(m.store[offset:offset+size], value)], with the explicit
    bounds check; [None] is the panic.  [offset+size] is a uint64 sum. *)
Definition mem_Set (m : Memory) (offset size : Z) (value : bytes) : option Memory :=
  if size =? 0 then Some m
  else if (offset +u size) >? zlen (store m) then None
  else
    match go_slice (store m) offset (offset +u size) with
    | None => None
    | Some window =>
        Some (mkMemory (copy_at (store m) offset (take (length window) value)) (lastGasCost m))
    end.

(** [Set32]: clear 32 bytes, then write the big-endian bytes right-aligned. *)
Definition mem_Set32 (m : Memory) (offset : Z) (val : Z) : option Memory :=
  if (offset +u 32) >? zlen (store m) then None
  else
    match go_slice (store m) offset (offset +u 32) with
    | None => None
    | Some _ =>
        let s1 := copy_at (store m) offset (zeros 32) in
        let b := Bytes val in
        let from := (offset +u 32) -u zlen b in
        match go_slice s1 from (offset +u 32) with
        | None => None
        | Some window => Some (mkMemory (copy_at s1 from (take (length window) b)) (lastGasCost m))
        end
    end.

Definition mem_Resize (m : Memory) (size : Z) : Memory :=
  if zlen (store m) <? size then mkMemory (store m ++ zeros (size -u zlen (store m))) (lastGasCost m)
  else m.

(** [Get] with int64 arguments.  Slicing is checked against the length (Go
    checks the capacity); a negative size makes [make] panic. *)
Definition mem_Get (m : Memory) (offset size : Z) : option bytes :=
  if size =? 0 then Some []
  else if size <? 0 then None
  else go_slice (store m) offset (i64 (offset + size)).

Definition mem_Len (m : Memory) : Z := zlen (store m).

Definition MaxMemorySize : Z := 32 * 1024 * 1024.

(** [MemoryCost]: [(cost, true)], or [(0, false)] when the size is refused. *)
Definition MemoryCost (currentSize newSize : Z) : Z * bool :=
  if newSize <=? currentSize then (0, true)
  else if newSize >? MaxMemorySize then (0, false)
  else if newSize >? MaxUint64 - 31 then (0, false)
  else
    let newWords := (newSize +u 31) / 32 in
    let newCost := (newWords *u 3) +u ((newWords *u newWords) / 512) in
    if currentSize =? 0 then (newCost, true)
    else
      let oldWords := (currentSize +u 31) / 32 in
      let oldCost := (oldWords *u 3) +u ((oldWords *u oldWords) / 512) in
      (newCost -u oldCost, true).

(** ** Contract (contract.go, opcodes.go) *)

Definition STOP : Z := 0x00.
Definition JUMPDEST : Z := 0x5b.
Definition PUSH1 : Z := 0x60.
Definition PUSH32 : Z := 0x7f.

Definition IsPush (op : Z) : bool := (op >=? PUSH1) && (op <=? PUSH32).

Record Contract := mkContract {
  CallerAddress : Address;
  caddr : Address;  (* Contract.Address *)
  Code : bytes;
  ccodehash : Hash;  (* Contract.CodeHash *)
  Input : bytes;
  Gas : Z;
  StateGasReservoir : Z;
  Value : option Z;  (* nil for DELEGATECALL *)
  jumpdests : option (gset Z);  (* the cached analysis *)
}.

Definition NewContract (caller addr : Address) (value : option Z) (gas : Z) : Contract :=
  mkContract caller addr [] 0 [] gas 0 value None.

Definition set_Gas (g : Z) (c : Contract) : Contract :=
  mkContract (CallerAddress c) (caddr c) (Code c) (ccodehash c) (Input c) g
    (StateGasReservoir c) (Value c) (jumpdests c).
Definition set_Input (i : bytes) (c : Contract) : Contract :=
  mkContract (CallerAddress c) (caddr c) (Code c) (ccodehash c) i (Gas c)
    (StateGasReservoir c) (Value c) (jumpdests c).
Definition set_CodeHash (cd : bytes) (h : Hash) (c : Contract) : Contract :=
  mkContract (CallerAddress c) (caddr c) cd h (Input c) (Gas c)
    (StateGasReservoir c) (Value c) (jumpdests c).
Definition set_Reservoir (r : Z) (c : Contract) : Contract :=
  mkContract (CallerAddress c) (caddr c) (Code c) (ccodehash c) (Input c) (Gas c)
    r (Value c) (jumpdests c).
Definition set_jumpdests (j : option (gset Z)) (c : Contract) : Contract :=
  mkContract (CallerAddress c) (caddr c) (Code c) (ccodehash c) (Input c) (Gas c)
    (StateGasReservoir c) (Value c) j.

Definition GetOp (c : Contract) (n : Z) : Z :=
  if n <? zlen (Code c) then default STOP (go_index (Code c) n) else STOP.

(** [UseGas]: [None] when the gas does not suffice. *)
Definition UseGas (g : Z) (c : Contract) : option Contract :=
  if Gas c <? g then None else Some (set_Gas (Gas c -u g) c).

(** [analyzeJumpdests] from position [i]; the loop advances at least one
    byte, so [len(code)] iterations suffice. *)
Fixpoint analyze (fuel : nat) (code : bytes) (i : Z) (acc : gset Z) : gset Z :=
  match fuel with
  | O => acc
  | S n =>
      if i <? zlen code then
        match go_index code i with
        | None => acc
        | Some op =>
            let acc := if op =? JUMPDEST then {[i]} ∪ acc else acc in
            let i := if IsPush op then i +u (op - PUSH1 + 1) else i in
            analyze n code (i +u 1) acc
        end
      else acc
  end.

Definition analyzeJumpdests (code : bytes) : gset Z := analyze (length code) code 0 ∅.

(** [isCode]: fill the cache on first use. *)
Definition isCode (c : Contract) (pos : Z) : bool * Contract :=
  match jumpdests c with
  | Some j => (bool_decide (pos ∈ j), c)
  | None =>
      let j := analyzeJumpdests (Code c) in
      (bool_decide (pos ∈ j), set_jumpdests (Some j) c)
  end.

Definition validJumpdest (c : Contract) (dest : Z) : bool * Contract :=
  let udest := Uint64 dest in
  if (BitLen dest >? 63) || (udest >=? zlen (Code c)) then (false, c)
  else
    match go_index (Code c) udest with
    | Some op => if negb (op =? JUMPDEST) then (false, c) else isCode c udest
    | None => (false, c)
    end.

(** ** Fork rules, contexts and trackers *)

Record ForkRules := mkRules {
  IsVerkle : bool;
  IsGlamsterdan : bool;
  IsPrague : bool;
  IsCancun : bool;
  IsShanghai : bool;
  IsMerge : bool;
  IsLondon : bool;
  IsBerlin : bool;
  IsIstanbul : bool;
  IsConstantinople : bool;
  IsByzantium : bool;
  IsHomestead : bool;
  IsEIP158 : bool;
  IsEIP7708 : bool;
  IsEIP7954 : bool;
  IsIPlus : bool;
}.

(** [None] is a nil pointer or function. *)
Record BlockContext := mkBlockContext {
  GetHash : option (Z -> Hash);
  BlockNumber : option Z;
  Time : Z;
  Coinbase : Address;
  GasLimit : Z;
  BaseFee : option Z;
  PrevRandao : Hash;
  BlobBaseFee : option Z;
  SlotNumber : Z;
}.

Record TxContext := mkTxContext {
  Origin : Address;
  GasPrice : option Z;
  BlobHashes : list Hash;
}.

(** The interface [PrecompiledContract]. *)
Record PrecompiledContract := mkPrecompile {
  RequiredGas : bytes -> Z;
  RunPrecompile : bytes -> bytes * option vmerr;
}.

(** sstore_dim_gas.go *)
Record TxDimGasUsage := mkDimGas {
  DimCompute : Z;
  DimStorage : Z;
  DimBandwidth : Z;
  DimBlob : Z;
  DimWitness : Z;
}.

(** eip4762_gas.go: subtrees (address, subKey) and leaves (address, subKey,
    leafKey) accessed and edited. *)
Record WitnessGasTracker := mkWitness {
  accessedSubtrees : gset (Z * Z);
  accessedLeaves : gset (Z * Z * Z);
  editedSubtrees : gset (Z * Z);
  editedLeaves : gset (Z * Z * Z);
}.

(** The calls made through the [BALTracker] interface, newest first. *)
Inductive bal_event :=
  | RecordStorageRead (a : Address) (slot value : Hash)
  | RecordStorageChange (a : Address) (slot oldVal newVal : Hash)
  | RecordBalanceChange (a : Address) (oldBal newBal : Z)
  | RecordAddressTouch (a : Address).

(** eip8141_opcodes.go *)
Record Frame := mkFrame {
  Mode : Z;
  Target : Address;
  FGasLimit : Z;
  FData : bytes;
  Status : Z;
}.

Record FrameContext := mkFrameContext {
  SenderApproved : bool;
  PayerApproved : bool;
  LastApproveScope : Z;
  ApproveCalledThisFrame : bool;
  TxType : Z;
  FNonce : option Z;
  Sender : Address;
  MaxPriorityFee : option Z;
  MaxFee : option Z;
  MaxBlobFee : option Z;
  MaxCost : option Z;
  BlobCount : Z;
  SigHash : Hash;
  Frames : list Frame;
  CurrentFrameIndex : Z;
}.

(** ** The EVM

    The fields of [EVM] that are fixed during execution are grouped in
    [Config]; the jump table is passed to the interpreter.  The tracer (pure
    observation) and the guest registry are not modelled. *)
Record Config := mkConfig {
  Context_ : BlockContext;
  TxContext_ : TxContext;
  MaxCallDepth : Z;
  chainID : Z;
  precompiles : option (gmap Z PrecompiledContract);
  forkRules : ForkRules;
}.

Record EVM (DB : Type) := mkEVM {
  config : Config;
  statedb : option DB;  (* EVM.StateDB *)
  depth : Z;
  readOnly : bool;
  returnData : bytes;
  callGasTemp : Z;
  callReservoirForward : Z;
  callReservoirReturn : Z;
  dimGasUsage : option TxDimGasUsage;
  balTracker : option (list bal_event);
  FrameCtx : option FrameContext;
  witnessGas : option WitnessGasTracker;
}.
Arguments mkEVM {DB}.
Arguments config {DB}.
Arguments statedb {DB}.
Arguments depth {DB}.
Arguments readOnly {DB}.
Arguments returnData {DB}.
Arguments callGasTemp {DB}.
Arguments callReservoirForward {DB}.
Arguments callReservoirReturn {DB}.
Arguments dimGasUsage {DB}.
Arguments balTracker {DB}.
Arguments FrameCtx {DB}.
Arguments witnessGas {DB}.

Section EVMState.

Context {DB : Type}.

Implicit Type e : EVM DB.

Definition set_statedb (x : option DB) e : EVM DB :=
  mkEVM (config e) x (depth e) (readOnly e) (returnData e) (callGasTemp e)
    (callReservoirForward e) (callReservoirReturn e) (dimGasUsage e) (balTracker e) (FrameCtx e)
    (witnessGas e).
Definition set_depth (x : Z) e : EVM DB :=
  mkEVM (config e) (statedb e) x (readOnly e) (returnData e) (callGasTemp e)
    (callReservoirForward e) (callReservoirReturn e) (dimGasUsage e) (balTracker e) (FrameCtx e)
    (witnessGas e).
Definition set_readOnly (x : bool) e : EVM DB :=
  mkEVM (config e) (statedb e) (depth e) x (returnData e) (callGasTemp e)
    (callReservoirForward e) (callReservoirReturn e) (dimGasUsage e) (balTracker e) (FrameCtx e)
    (witnessGas e).
Definition set_returnData (x : bytes) e : EVM DB :=
  mkEVM (config e) (statedb e) (depth e) (readOnly e) x (callGasTemp e)
    (callReservoirForward e) (callReservoirReturn e) (dimGasUsage e) (balTracker e) (FrameCtx e)
    (witnessGas e).
Definition set_callGasTemp (x : Z) e : EVM DB :=
  mkEVM (config e) (statedb e) (depth e) (readOnly e) (returnData e) x
    (callReservoirForward e) (callReservoirReturn e) (dimGasUsage e) (balTracker e) (FrameCtx e)
    (witnessGas e).
Definition set_reservoirForward (x : Z) e : EVM DB :=
  mkEVM (config e) (statedb e) (depth e) (readOnly e) (returnData e) (callGasTemp e)
    x (callReservoirReturn e) (dimGasUsage e) (balTracker e) (FrameCtx e)
    (witnessGas e).
Definition set_reservoirReturn (x : Z) e : EVM DB :=
  mkEVM (config e) (statedb e) (depth e) (readOnly e) (returnData e) (callGasTemp e)
    (callReservoirForward e) x (dimGasUsage e) (balTracker e) (FrameCtx e)
    (witnessGas e).
Definition set_dimGasUsage (x : option TxDimGasUsage) e : EVM DB :=
  mkEVM (config e) (statedb e) (depth e) (readOnly e) (returnData e) (callGasTemp e)
    (callReservoirForward e) (callReservoirReturn e) x (balTracker e) (FrameCtx e)
    (witnessGas e).
Definition set_balTracker (x : option (list bal_event)) e : EVM DB :=
  mkEVM (config e) (statedb e) (depth e) (readOnly e) (returnData e) (callGasTemp e)
    (callReservoirForward e) (callReservoirReturn e) (dimGasUsage e) x (FrameCtx e)
    (witnessGas e).
Definition set_FrameCtx (x : option FrameContext) e : EVM DB :=
  mkEVM (config e) (statedb e) (depth e) (readOnly e) (returnData e) (callGasTemp e)
    (callReservoirForward e) (callReservoirReturn e) (dimGasUsage e) (balTracker e) x
    (witnessGas e).
Definition set_witnessGas (x : option WitnessGasTracker) e : EVM DB :=
  mkEVM (config e) (statedb e) (depth e) (readOnly e) (returnData e) (callGasTemp e)
    (callReservoirForward e) (callReservoirReturn e) (dimGasUsage e) (balTracker e) (FrameCtx e) x.

(** [if evm.balTracker != nil { evm.balTracker.Record...(...) }] *)
Definition record (ev : bal_event) : M (EVM DB) unit :=
  gmodify (fun e => set_balTracker (match balTracker e with
                                    | Some l => Some (ev :: l)
                                    | None => None
                                    end) e).

(** *** The interpreter's local state *)

Record mstate := mkM {
  pc : Z;
  stk : list Z;  (* top first *)
  mem : Memory;
  ctr : Contract;
  evm : EVM DB;
}.

Definition set_pc (x : Z) (s : mstate) : mstate := mkM x (stk s) (mem s) (ctr s) (evm s).
Definition set_stk (x : list Z) (s : mstate) : mstate := mkM (pc s) x (mem s) (ctr s) (evm s).
Definition set_mem (x : Memory) (s : mstate) : mstate := mkM (pc s) (stk s) x (ctr s) (evm s).
Definition set_ctr (x : Contract) (s : mstate) : mstate := mkM (pc s) (stk s) (mem s) x (evm s).
Definition set_evm (x : EVM DB) (s : mstate) : mstate := mkM (pc s) (stk s) (mem s) (ctr s) x.

(** Run code of the EVM object inside an instruction. *)
Definition liftE {A} (m : M (EVM DB) A) : M mstate A := fun s =>
  match m (evm s) with
  | Ok a e => Ok a (set_evm e s)
  | Err er r e => Err er r (set_evm e s)
  | Panic p => Panic p
  | Fuel => Fuel
  end.

(** *** Stack operations (stack.go) *)

Definition stackLimit : nat := 1024.

(** [Push]; the error of a full stack is ignored by every caller. *)
Definition Push (v : Z) : M mstate unit := fun s =>
  if (stackLimit <=? length (stk s))%nat then Ok tt s else Ok tt (set_stk (v :: stk s) s).

Definition Pop : M mstate Z := fun s =>
  match stk s with
  | x :: r => Ok x (set_stk r s)
  | [] => Panic PStack
  end.

Definition Peek : M mstate Z := fun s =>
  match stk s with
  | x :: _ => Ok x s
  | [] => Panic PStack
  end.

(** [Back(n)] (and [PeekN]). *)
Definition Back (n : nat) : M mstate Z := fun s =>
  match stk s !! n with
  | Some x => Ok x s
  | None => Panic PStack
  end.

(** In-place update of the element returned by [Peek]. *)
Definition SetTop (v : Z) : M mstate unit := fun s =>
  match stk s with
  | _ :: r => Ok tt (set_stk (v :: r) s)
  | [] => Panic PStack
  end.

Definition Swap (n : nat) : M mstate unit := fun s =>
  match stk s !! 0%nat, stk s !! n with
  | Some a, Some b => Ok tt (set_stk (<[n := a]> (<[0%nat := b]> (stk s))) s)
  | _, _ => Panic PStack
  end.

(** [Dup(n)] counts from one and does not check the limit. *)
Definition Dup (n : nat) : M mstate unit := fun s =>
  match n, stk s !! (n - 1)%nat with
  | S _, Some v => Ok tt (set_stk (v :: stk s) s)
  | _, _ => Panic PStack
  end.

(** *** Memory operations *)

Definition MemSet (offset size : Z) (value : bytes) : M mstate unit := fun s =>
  match mem_Set (mem s) offset size value with
  | Some m => Ok tt (set_mem m s)
  | None => Panic PMemory
  end.

Definition MemSet32 (offset val : Z) : M mstate unit := fun s =>
  match mem_Set32 (mem s) offset val with
  | Some m => Ok tt (set_mem m s)
  | None => Panic PMemory
  end.

Definition MemGet (offset size : Z) : M mstate bytes := fun s =>
  match mem_Get (mem s) offset size with
  | Some b => Ok b s
  | None => Panic PMemory
  end.

End EVMState.

Arguments mstate DB : clear implicits.
