(* ===== verification/Calls.v ===== *)
(** * Calls: message calls and contract creation

    The methods of [EVM] in pkg/core/vm/interpreter.go that run other
    contracts ([Call], [CallCode], [DelegateCall], [StaticCall], [Create],
    [Create2]), with the helpers of eip7708.go, eip7954.go and
    opcode_rvcreate.go they use.  The interpreter itself is the parameter
    [Run]; Interpreter.v ties the knot. *)

From S2P Require Import Prelude StateDB Machine.

(** ** Pure helpers *)

(** MaxCodeSize, MaxInitCodeSize and their EIP-7954 values *)
Definition MaxCodeSizeForFork (rules : ForkRules) : Z :=
  if IsEIP7954 rules then 32768 else 24576.

Definition MaxInitCodeSizeForFork (rules : ForkRules) : Z :=
  if IsEIP7954 rules then 65536 else 49152.

(** The loop of [uintToMinBytes] at index [i], with the value still to be
    shifted out, the bytes written so far and the count [n]. *)
Fixpoint uintToMinBytes_loop (k : nat) (v : Z) (buf : bytes) (n : Z) : bytes * Z :=
  match k with
  | O => (buf, n)
  | S i =>
      let b := u8 v in
      let n := if negb (b =? 0) || (n >? 0) then 8 - Z.of_nat i else n in
      uintToMinBytes_loop i (Z.shiftr v 8) (b :: buf) n
  end.

Definition uintToMinBytes (v : Z) : bytes :=
  if v =? 0 then []
  else
    let '(buf, n) := uintToMinBytes_loop 8 v [] 0 in
    drop (Z.to_nat (8 - n)) buf.

Definition encodeRLPBytes (b : bytes) : bytes :=
  let short := u8 (128 + zlen b) :: b in
  let long :=
    let lenBytes := uintToMinBytes (u64 (zlen b)) in
    u8 (183 + zlen lenBytes) :: lenBytes ++ b in
  match b with
  | [x] => if x <? 128 then b else short
  | _ => if zlen b <? 56 then short else long
  end.

Definition encodeRLPUint (v : Z) : bytes :=
  if v =? 0 then [128]
  else if v <? 128 then [u8 v]
  else
    let b := uintToMinBytes v in u8 (128 + zlen b) :: b.

Definition wrapRLPList (payload : bytes) : bytes :=
  if zlen payload <? 56 then u8 (192 + zlen payload) :: payload
  else
    let lenBytes := uintToMinBytes (u64 (zlen payload)) in
    u8 (247 + zlen lenBytes) :: lenBytes ++ payload.

(** The bytes [createAddress] hashes. *)
Definition createAddress_data (caller : Address) (nonce : Z) : bytes :=
  wrapRLPList (encodeRLPBytes (be_bytes 20 caller) ++ encodeRLPUint nonce).

(** [copy(data[32-len(b):], b)] into 32 zero bytes; [None] is the slice
    panic when there are more than 32 bytes. *)
Definition pad32 (b : bytes) : option bytes :=
  if zlen b <=? 32 then Some (zeros (32 - zlen b) ++ b) else None.

(** EIP-7708 logs *)
Definition SystemAddress : Address := 0xfffffffffffffffffffffffffffffffffffffffe.
Definition TransferEventTopic : Hash :=
  0xddf252ad1be2c89b69c2b068fc378daa952ba7f163c4a11628f55a4df523b3ef.
Definition BurnEventTopic : Hash :=
  0xcc16f5dbb4873280815c1ee09dbd06736cffcc184412cf7a71a0fdb75d397ca5.

Definition addressToTopic (a : Address) : Hash := SetBytes (zeros 12 ++ be_bytes 20 a).

Definition CallGasFraction : Z := 64.
Definition CreateDataGas : Z := 200.

Definition IsRVCode (code : bytes) : bool :=
  match code with
  | a :: b :: c :: _ => (a =? 0xFE) && (b =? 0x52) && (c =? 0x56)
  | _ => false
  end.

(** [runPrecompile]: output, remaining gas and error. *)
Definition runPrecompile (p : PrecompiledContract) (input : bytes) (gas : Z)
  : bytes * Z * option vmerr :=
  let gasCost := RequiredGas p input in
  if gas <? gasCost then ([], 0, Some ErrOutOfGas)
  else
    let '(output, err) := RunPrecompile p input in
    (output, gas -u gasCost, err).

Section Calls.

Context {DB : Type} `{StateDB DB}.

(** [crypto.Keccak256] *)
Context (keccak256 : bytes -> bytes).

(** The default precompile set. *)
Context (PrecompiledContractsCancun : gmap Z PrecompiledContract).

(** [zkvm.RunPrecompileGuestProgram]: program, input, gas. *)
Context (RunPrecompileGuestProgram : bytes -> bytes -> Z -> bytes * option vmerr).

(** [evm.Run(contract, input)]: the contract afterwards, the returned bytes
    and the error. *)
Context (Run : Contract -> bytes -> M (EVM DB) (Contract * bytes * option vmerr)).

Abbreviation E := (M (EVM DB)).

(** *** Access to [evm.StateDB]; a nil interface panics when called *)

Definition readDB {A} (f : DB -> A) : E A := fun e =>
  match statedb e with
  | Some db => Ok (f db) e
  | None => Panic PSlice
  end.

Definition mutDB (m : mutation) : E unit := fun e =>
  match statedb e with
  | Some db => Ok tt (set_statedb (Some (mutate m db)) e)
  | None => Panic PSlice
  end.

Definition takeSnapshot : E Z := fun e =>
  match statedb e with
  | Some db => Ok (Snapshot db).1 (set_statedb (Some (Snapshot db).2) e)
  | None => Panic PSlice
  end.

Definition revertTo (id : Z) : E unit := fun e =>
  match statedb e with
  | Some db =>
      match RevertToSnapshot id db with
      | Some db' => Ok tt (set_statedb (Some db') e)
      | None => Panic PRevert
      end
  | None => Panic PSlice
  end.

Definition hasDB : E bool := fun e =>
  Ok (match statedb e with Some _ => true | None => false end) e.

(** [if cond { ... }] *)
Definition gwhen {S} (b : bool) (m : M S unit) : M S unit := if b then m else gret tt.

Definition createAddress (caller : Address) (nonce : Z) : Address :=
  BytesToAddress (drop 12 (keccak256 (createAddress_data caller nonce))).

Definition create2Address (caller : Address) (salt : Z) (initCodeHash : bytes) : option Address :=
  match pad32 (Bytes salt) with
  | Some saltBytes =>
      Some (BytesToAddress
              (drop 12 (keccak256 ([255] ++ be_bytes 20 caller ++ saltBytes ++ initCodeHash))))
  | None => None
  end.

Definition EmitTransferLog (from to : Address) (amount : Z) : E unit :=
  if Z.sgn amount <=? 0 then gret tt
  else
    let! data := gopt PSlice (pad32 (Bytes amount)) in
    mutDB (MAddLog (mkLog SystemAddress [TransferEventTopic; addressToTopic from; addressToTopic to]
                      data 0 0)).

Definition EmitBurnLog (addr : Address) (amount : Z) : E unit :=
  if Z.sgn amount <=? 0 then gret tt
  else
    let! data := gopt PSlice (pad32 (Bytes amount)) in
    mutDB (MAddLog (mkLog SystemAddress [BurnEventTopic; addressToTopic addr] data 0 0)).

Definition precompile (addr : Address) : E (option PrecompiledContract) := fun e =>
  Ok (default PrecompiledContractsCancun (precompiles (config e)) !! addr) e.

(** [runRVContract]: output, remaining gas, error. *)
Definition runRVContract (code input : bytes) (gas : Z) : bytes * Z * option vmerr :=
  let program := drop 3 code in
  if zlen program =? 0 then ([], gas, None)
  else
    let '(out, err) := RunPrecompileGuestProgram program input gas in
    match err with
    | Some _ => ([], 0, Some ErrRVExecution)
    | None =>
        let charged := (zlen program / 4) *u 200 in
        if charged >? gas then ([], 0, Some ErrOutOfGas) else (out, gas -u charged, None)
    end.

(** The result of a call: returned bytes, gas left, error. *)
Abbreviation callres := (bytes * Z * option vmerr)%type.

(** [evm.depth++; ret, err := evm.Run(contract, input); evm.depth--] *)
Definition runNested (contract : Contract) (input : bytes) : E (Contract * bytes * option vmerr) :=
  do! gmodify (fun e => set_depth (depth e + 1) e) in
  let! r := Run contract input in
  do! gmodify (fun e => set_depth (depth e - 1) e) in
  gret r.

(** Settling a nested run: revert on failure; all gas is consumed unless the
    failure is a REVERT. *)
Definition settle (snapshot : Z) (contract : Contract) (ret : bytes) (err : option vmerr)
  : E callres :=
  match err with
  | None => gret (ret, Gas contract, None)
  | Some er =>
      do! revertTo snapshot in
      gret (ret, (if is_revert er then Gas contract else 0), Some er)
  end.

(** The value transfer of [Call] and [create], with BAL records. *)
Definition transfer (from to : Address) (v : Z) (always_record : bool) : E unit :=
  let! fromPre := readDB (fun db => GetBalance db from) in
  let! toPre := readDB (fun db => GetBalance db to) in
  do! mutDB (MSubBalance from v) in
  do! mutDB (MAddBalance to v) in
  let! fromPost := readDB (fun db => GetBalance db from) in
  let! toPost := readDB (fun db => GetBalance db to) in
  do! record (RecordBalanceChange from fromPre fromPost) in
  gwhen (always_record || negb (from =? to)) (record (RecordBalanceChange to toPre toPost)).

Definition Call (caller addr : Address) (input : bytes) (gas : Z) (value : option Z) : E callres :=
  let! e := gget in
  let rules := forkRules (config e) in
  if depth e >? MaxCallDepth (config e) then gret ([], gas, Some ErrMaxCallDepthExceeded)
  else
    let v := default 0 value in
    let transfersValue := Z.sgn v >? 0 in
    let! db := hasDB in
    let! poor := (if transfersValue && db
                  then let! b := readDB (fun db => GetBalance db caller) in gret (b <? v)
                  else gret false) in
    if (poor : bool) then gret ([], gas, Some ErrInsufficientTransfer)
    else if negb db then gret ([], gas, Some ErrNoStateDB)
    else
      let! snapshot := takeSnapshot in
      let! p := precompile addr in
      let isPrecompile := match p with Some _ => true | None => false end in
      let! exists_ := readDB (fun db => Exist db addr) in
      if negb exists_ && (negb isPrecompile && IsEIP158 rules && negb transfersValue)
      then gret ([], gas, None)
      else
        do! gwhen (negb exists_) (mutDB (MCreateAccount addr)) in
        if transfersValue && readOnly e then gret ([], gas, Some ErrWriteProtection)
        else
          do! gwhen transfersValue
                (do! transfer caller addr v false in
                 gwhen (IsEIP7708 rules && negb (caller =? addr)) (EmitTransferLog caller addr v)) in
          match p with
          | Some pc =>
              let '(ret, gasLeft, err) := runPrecompile pc input gas in
              do! gwhen (match err with Some _ => true | None => false end) (revertTo snapshot) in
              gret (ret, gasLeft, err)
          | None =>
              let! code := readDB (fun db => GetCode db addr) in
              if zlen code =? 0 then gret ([], gas, None)
              else if IsIPlus rules && IsRVCode code then
                let '(ret, gasLeft, err) := runRVContract code input gas in
                do! gwhen (match err with Some _ => true | None => false end) (revertTo snapshot) in
                gret (ret, gasLeft, err)
              else
                let! hash := readDB (fun db => GetCodeHash db addr) in
                let contract := set_CodeHash code hash (NewContract caller addr value gas) in
                let! e1 := gget in
                let childReservoir := callReservoirForward e1 in
                do! gmodify (set_reservoirForward 0) in
                let contract := set_Reservoir childReservoir contract in
                let! '(contract', ret, err) := runNested contract input in
                do! gmodify (set_reservoirReturn
                               (match err with
                                | Some er => if is_revert er then StateGasReservoir contract' else 0
                                | None => StateGasReservoir contract'
                                end)) in
                settle snapshot contract' ret err
          end.

(** [CallCode] and [DelegateCall] differ in the value of the new contract
    only: both run the callee's code with [caller] as sender and as
    storage address. *)
Definition callInCaller (caller addr : Address) (input : bytes) (gas : Z) (value : option Z)
  : E callres :=
  let! e := gget in
  if depth e >? MaxCallDepth (config e) then gret ([], gas, Some ErrMaxCallDepthExceeded)
  else
    let! p := precompile addr in
    match p with
    | Some pc => gret (runPrecompile pc input gas)
    | None =>
        let! db := hasDB in
        if negb db then gret ([], gas, Some ErrNoStateDB)
        else
          let! snapshot := takeSnapshot in
          let! code := readDB (fun db => GetCode db addr) in
          if zlen code =? 0 then gret ([], gas, None)
          else
            let! hash := readDB (fun db => GetCodeHash db addr) in
            let contract := set_CodeHash code hash (NewContract caller caller value gas) in
            let! '(contract', ret, err) := runNested contract input in
            settle snapshot contract' ret err
    end.

Definition CallCode (caller addr : Address) (input : bytes) (gas : Z) (value : option Z) : E callres :=
  callInCaller caller addr input gas value.

Definition DelegateCall (caller addr : Address) (input : bytes) (gas : Z) : E callres :=
  callInCaller caller addr input gas None.

(** The body of [StaticCall] once read-only mode is on. *)
Definition staticBody (caller addr : Address) (input : bytes) (gas : Z) : E callres :=
  let! snapshot := takeSnapshot in
  let! p := precompile addr in
  match p with
  | Some pc =>
      let '(ret, gasLeft, err) := runPrecompile pc input gas in
      do! gwhen (match err with Some _ => true | None => false end) (revertTo snapshot) in
      gret (ret, gasLeft, err)
  | None =>
      let! code := readDB (fun db => GetCode db addr) in
      if zlen code =? 0 then gret ([], gas, None)
      else
        let! hash := readDB (fun db => GetCodeHash db addr) in
        let contract := set_CodeHash code hash (NewContract caller addr (Some 0) gas) in
        let! '(contract', ret, err) := runNested contract input in
        settle snapshot contract' ret err
  end.

Definition StaticCall (caller addr : Address) (input : bytes) (gas : Z) : E callres :=
  let! e := gget in
  if depth e >? MaxCallDepth (config e) then gret ([], gas, Some ErrMaxCallDepthExceeded)
  else
    let! db := hasDB in
    if negb db then gret ([], gas, Some ErrNoStateDB)
    else
      let prevReadOnly := readOnly e in
      do! gmodify (set_readOnly true) in
      let! r := staticBody caller addr input gas in
      do! gmodify (set_readOnly prevReadOnly) in
      gret r.

(** The result of a creation: returned bytes, address, gas left, error. *)
Abbreviation createres := (bytes * Address * Z * option vmerr)%type.

(** After a successful init code: code size limit, deposit cost, SetCode. *)
Definition deployCode (snapshot : Z) (contractAddr : Address) (ret : bytes) (gas : Z)
  : E createres :=
  let! e := gget in
  if zlen ret >? 0 then
    if zlen ret >? MaxCodeSizeForFork (forkRules (config e)) then
      do! revertTo snapshot in
      gret ([], 0, 0, Some ErrMaxCodeSizeExceeded)
    else
      let depositCost := zlen ret *u CreateDataGas in
      if gas <? depositCost then
        do! revertTo snapshot in
        gret ([], 0, 0, Some ErrOutOfGas)
      else
        do! mutDB (MSetCode contractAddr ret) in
        gret (ret, contractAddr, gas -u depositCost, None)
  else gret (ret, contractAddr, gas, None).

Definition create (caller : Address) (code : bytes) (gas : Z) (value : option Z)
    (contractAddr : Address) : E createres :=
  let! e := gget in
  let rules := forkRules (config e) in
  if zlen code >? MaxInitCodeSizeForFork rules
  then gret ([], 0, gas, Some ErrMaxInitCodeSizeExceeded)
  else
    let! contractHash := readDB (fun db => GetCodeHash db contractAddr) in
    let! nonce := readDB (fun db => GetNonce db contractAddr) in
    if negb (nonce =? 0) || (negb (contractHash =? 0) && negb (contractHash =? EmptyCodeHash))
    then gret ([], 0, 0, Some ErrAddressCollision)
    else
      do! mutDB (MAddAddressToAccessList contractAddr) in
      let! snapshot := takeSnapshot in
      let! exists_ := readDB (fun db => Exist db contractAddr) in
      do! gwhen (negb exists_) (mutDB (MCreateAccount contractAddr)) in
      do! mutDB (MSetNonce contractAddr 1) in
      let v := default 0 value in
      let! poor := (if Z.sgn v >? 0
                    then let! b := readDB (fun db => GetBalance db caller) in gret (b <? v)
                    else gret false) in
      if (poor : bool) then gret ([], 0, gas, Some ErrInsufficientTransfer)
      else
        do! gwhen (Z.sgn v >? 0)
              (do! transfer caller contractAddr v true in
               gwhen (IsEIP7708 rules) (EmitTransferLog caller contractAddr v)) in
        let callGas := gas -u (gas / CallGasFraction) in
        let gas := gas -u callGas in
        let contract := set_CodeHash code 0 (NewContract caller contractAddr value callGas) in
        let! '(contract', ret, err) := runNested contract [] in
        match err with
        | Some er =>
            do! revertTo snapshot in
            if is_revert er then gret (ret, 0, gas +u Gas contract', Some er)
            else gret (ret, 0, gas, Some er)
        | None => deployCode snapshot contractAddr ret (gas +u Gas contract')
        end.

Definition Create (caller : Address) (code : bytes) (gas : Z) (value : option Z) : E createres :=
  let! e := gget in
  if depth e >? MaxCallDepth (config e) then gret ([], 0, gas, Some ErrMaxCallDepthExceeded)
  else if readOnly e then gret ([], 0, gas, Some ErrWriteProtection)
  else
    let! db := hasDB in
    if negb db then gret ([], 0, gas, Some ErrNoStateDB)
    else
      let! nonce := readDB (fun db => GetNonce db caller) in
      do! mutDB (MSetNonce caller (nonce +u 1)) in
      create caller code gas value (createAddress caller nonce).

Definition Create2 (caller : Address) (code : bytes) (gas : Z) (endowment : option Z) (salt : Z)
  : E createres :=
  let! e := gget in
  if depth e >? MaxCallDepth (config e) then gret ([], 0, gas, Some ErrMaxCallDepthExceeded)
  else if readOnly e then gret ([], 0, gas, Some ErrWriteProtection)
  else
    let! db := hasDB in
    if negb db then gret ([], 0, gas, Some ErrNoStateDB)
    else
      let! addr := gopt PSlice (create2Address caller salt (keccak256 code)) in
      create caller code gas endowment addr.

(** [PreWarmAccessList] *)
Definition PreWarmAccessList (sender : Address) (to : option Address) : E unit :=
  let! db := hasDB in
  if negb db then gret tt
  else
    do! mutDB (MAddAddressToAccessList sender) in
    do! (match to with Some t => mutDB (MAddAddressToAccessList t) | None => gret tt end) in
    fold_right (fun (i : nat) (k : E unit) =>
        do! mutDB (MAddAddressToAccessList (BytesToAddress [u8 (Z.of_nat i)])) in k)
      (gret tt) (seq 1 0x13).

End Calls.
