(* ===== verification/GasTable.v ===== *)
(** * GasTable: gas computation

    The cost functions of pkg/core/vm/gas_table.go, gas.go, gas_reservoir.go,
    sstore_dim_gas.go and the memory-size and dynamic-gas functions of
    jump_table.go.  A dynamic gas function may warm the access list, set
    [callGasTemp] or draw from the reservoir, so it is a state-monad program;
    its argument is the word-aligned memory size. *)

From S2P Require Import Prelude StateDB Machine Calls.

(** ** Constants (gas.go, gas_table.go, jump_table.go) *)

Definition GasBase : Z := 2.
Definition GasVerylow : Z := 3.
Definition GasLow : Z := 5.
Definition GasMid : Z := 8.
Definition GasHigh : Z := 10.
Definition GasExt : Z := 20.
Definition GasSstoreSet : Z := 20000.
Definition GasSstoreReset : Z := 2900.
Definition GasCreate : Z := 32000.
Definition GasSelfdestruct : Z := 5000.
Definition GasLog : Z := 375.
Definition GasLogTopic : Z := 375.
Definition GasLogData : Z := 8.
Definition GasKeccak256 : Z := 30.
Definition GasKeccak256Word : Z := 6.
Definition GasMemory : Z := 3.
Definition GasCopy : Z := 3.
Definition GasReturn : Z := 0.
Definition GasStop : Z := 0.
Definition GasRevert : Z := 0.
Definition GasJumpDest : Z := 1.
Definition GasJump : Z := 8.
Definition GasJumpi : Z := 10.
Definition GasPush0 : Z := 2.
Definition GasPush : Z := 3.
Definition GasDup : Z := 3.
Definition GasSwap : Z := 3.
Definition GasPop : Z := 2.
Definition GasMload : Z := 3.
Definition GasMstore : Z := 3.
Definition GasMstore8 : Z := 3.
Definition GasPc : Z := 2.
Definition GasMsize : Z := 2.
Definition GasGas : Z := 2.
Definition GasTload : Z := 100.
Definition GasTstore : Z := 100.
Definition GasBlobHash : Z := 3.
Definition GasBlobBaseFee : Z := 2.
Definition GasMcopyBase : Z := 3.
Definition GasDivGlamsterdan : Z := 15.
Definition GasSdivGlamsterdan : Z := 20.
Definition GasModGlamsterdan : Z := 12.
Definition GasMulmodGlamsterdan : Z := 11.
Definition GasKeccak256Glamsterdan : Z := 45.

Definition ColdAccountAccessCost : Z := 2600.
Definition ColdSloadCost : Z := 2100.
Definition WarmStorageReadCost : Z := 100.
Definition CallStipend : Z := 2300.
Definition MemoryGasCostPerWord : Z := 3.
Definition SstoreClearsScheduleRefund : Z := 4800.
Definition CreateBySelfdestructGas : Z := 25000.
Definition InitCodeWordGas : Z := 2.
Definition CallValueTransferGas : Z := 9000.
Definition CallNewAccountGas : Z := 25000.
Definition CallValueTransferGlamst : Z := 2000.
Definition CallNewAccountGlamst : Z := 26000.
Definition CostPerStateByte : Z := 662.
Definition GasSstoreSetGlamsterdam : Z := 32 * CostPerStateByte + 2900.
Definition ColdAccountAccessGlamst : Z := 3500.
Definition ColdSloadGlamst : Z := 2800.
Definition WarmStorageReadGlamst : Z := 150.
Definition GasBalanceFrontier : Z := 20.
Definition GasExtcodeSizeFrontier : Z := 20.
Definition GasSloadFrontier : Z := 50.
Definition GasCallFrontier : Z := 40.
Definition GasExtcodeCopyFrontier : Z := 20.
Definition GasBalanceEIP150 : Z := 400.
Definition GasExtcodeSizeEIP150 : Z := 700.
Definition GasSloadEIP150 : Z := 200.
Definition GasCallEIP150 : Z := 700.
Definition GasExtcodeCopyEIP150 : Z := 700.
Definition GasBalanceEIP1884 : Z := 700.
Definition GasSloadEIP1884 : Z := 800.
Definition GasExtcodeHashConst : Z := 400.
Definition GasExtcodeHashIstanbul : Z := 700.

(** ** Arithmetic helpers *)

(** [(product, overflow)] *)
Definition safeMulU (a b : Z) : Z * bool :=
  if (a =? 0) || (b =? 0) then (0, false)
  else if a >? MaxUint64 / b then (0, true)
  else (a *u b, false).

(** [(sum, overflow)] *)
Definition safeAddU (a b : Z) : Z * bool :=
  let sum := a +u b in if sum <? a then (0, true) else (sum, false).

Definition safeAddU_val (a b : Z) : Z * bool :=
  let sum := a +u b in if sum <? a then (0, true) else (sum, false).

Definition bigUint64Safe (v : Z) : Z * bool :=
  if negb (IsUint64 v) then (0, false) else (Uint64 v, true).

(** [(value, overflow)] *)
Definition bigUint64WithOverflow (v : Z) : Z * bool :=
  if Z.sgn v <? 0 then (0, true)
  else if negb (IsUint64 v) then (0, true)
  else (Uint64 v, false).

Definition safeAdd (a b : Z) : Z :=
  if a >? MaxUint64 - b then MaxUint64 else a +u b.

Definition safeMul (a b : Z) : Z :=
  if (a =? 0) || (b =? 0) then 0
  else if a >? MaxUint64 / b then MaxUint64
  else a *u b.

Definition toWordSize (size : Z) : Z :=
  if size =? 0 then 0
  else if size >? MaxUint64 - 31 then MaxUint64 / 32 + 1
  else (size +u 31) / 32.

(** ** Cost functions *)

Definition callGas (isEip150 : bool) (availableGas base callCost : Z) : Z :=
  if isEip150 then
    let availableGas := availableGas -u base in
    let gas := availableGas -u availableGas / 64 in
    if negb (IsUint64 callCost) || (gas <? Uint64 callCost) then gas else Uint64 callCost
  else if negb (IsUint64 callCost) then availableGas
  else Uint64 callCost.

Definition MemoryGasCost (memSize : Z) : Z :=
  if memSize =? 0 then 0
  else
    let words := toWordSize memSize in
    if words >? 181000 then MaxUint64
    else (words *u MemoryGasCostPerWord) +u (words *u words) / 512.

(** [memoryGasCostWithLastCost]: the fee and the updated memory, or the
    overflow error. *)
Definition memoryGasCostWithLastCost (m : Memory) (newMemSize : Z) : option (Z * Memory) :=
  if newMemSize =? 0 then Some (0, m)
  else if newMemSize >? MaxMemorySize then None
  else
    let words := toWordSize newMemSize in
    let newCost := (words *u GasMemory) +u (words *u words) / 512 in
    if newCost <? lastGasCost m then Some (0, m)
    else Some (newCost -u lastGasCost m, mkMemory (store m) newCost).

Definition MemoryExpansionGas (oldSize newSize : Z) : Z :=
  if newSize <=? oldSize then 0 else MemoryGasCost newSize -u MemoryGasCost oldSize.

Definition CallGas (availableGas requestedGas : Z) : Z :=
  let maxGas := availableGas -u availableGas / CallGasFraction in
  if requestedGas >? maxGas then maxGas else requestedGas.

Definition callGasEIP150 (contractGas baseGas requestedGas : Z) : Z :=
  if contractGas <? baseGas then 0
  else
    let available := contractGas -u baseGas in
    let maxGas := available -u available / CallGasFraction in
    if requestedGas >? maxGas then maxGas else requestedGas.

(** [SstoreGas]: gas and (signed) refund.  The 32-byte arrays are compared
    by value. *)
Definition SstoreGas (original current newVal : Hash) (cold : bool) : Z * Z :=
  let gas := if cold then ColdSloadCost else 0 in
  if current =? newVal then (gas +u WarmStorageReadCost, 0)
  else if original =? current then
    if original =? 0 then (gas +u GasSstoreSet, 0)
    else (gas +u GasSstoreReset, if newVal =? 0 then SstoreClearsScheduleRefund else 0)
  else
    let gas := gas +u WarmStorageReadCost in
    let refund :=
      if negb (original =? 0) then
        if (current =? 0) && negb (newVal =? 0) then 0 - SstoreClearsScheduleRefund
        else if negb (current =? 0) && (newVal =? 0) then SstoreClearsScheduleRefund
        else 0
      else 0 in
    let refund :=
      if original =? newVal then
        if original =? 0 then refund + (GasSstoreSet - WarmStorageReadCost)
        else refund + (GasSstoreReset - WarmStorageReadCost)
      else refund in
    (gas, refund).

Definition LogGas (numTopics dataSize : Z) : Z :=
  let gas := safeAdd GasLog (safeMul numTopics GasLogTopic) in
  safeAdd gas (safeMul dataSize GasLogData).

Definition Sha3Gas (dataSize : Z) : Z :=
  safeAdd GasKeccak256 (safeMul (toWordSize dataSize) GasKeccak256Word).

Definition ExpGas (exponent : Z) : Z :=
  if Z.sgn exponent =? 0 then GasHigh
  else
    let byteLen := (BitLen exponent + 7) / 8 in
    safeAdd GasHigh (safeMul 50 byteLen).

Definition CopyGas (size : Z) : Z := safeMul GasCopy (toWordSize size).

(** *** Reservoir (gas_reservoir.go) and dimensions (sstore_dim_gas.go) *)

(** [DrawReservoir]: the remaining reservoir and whether the draw succeeded. *)
Definition DrawReservoir (reservoir amount : Z) : Z * bool :=
  if amount =? 0 then (reservoir, true)
  else if reservoir >=? amount then (reservoir -u amount, true)
  else (reservoir, false).

(** [ForwardReservoir] and [ReturnReservoir] on (parent, child). *)
Definition ForwardReservoir (parent child : Z) : Z * Z := (0, parent).

Definition ReturnReservoir (parent child : Z) : Z * Z := (parent +u child, 0).

(** [ReservoirGasCost]: gas, whether the reservoir paid, the reservoir. *)
Definition ReservoirGasCost (original current newVal : Hash) (cold : bool) (reservoir : Z)
  : Z * bool * Z :=
  let coldGas := if cold then ColdSloadGlamst else 0 in
  if (original =? 0) && negb (newVal =? 0) && (original =? current) then
    let '(reservoir', ok) := DrawReservoir reservoir GasSstoreSetGlamsterdam in
    if ok then (WarmStorageReadGlamst +u coldGas, true, reservoir')
    else (GasSstoreSetGlamsterdam +u coldGas, false, reservoir')
  else if current =? newVal then (WarmStorageReadGlamst +u coldGas, false, reservoir)
  else if (original =? current) && negb (original =? 0)
  then (GasSstoreReset +u coldGas, false, reservoir)
  else (WarmStorageReadGlamst +u coldGas, false, reservoir).

Definition StateCreationGasPremium : Z := GasSstoreSetGlamsterdam.

Definition DimStorageBlockGasCap : Z := 4000000.

Definition AccountSSTOREGas (isStateCreation : bool) (coldPenalty : Z)
    (usage : option TxDimGasUsage) : option TxDimGasUsage :=
  match usage with
  | None => None
  | Some u =>
      let compute := DimCompute u +u (WarmStorageReadGlamst +u coldPenalty) in
      let storage := if isStateCreation then DimStorage u +u StateCreationGasPremium
                     else DimStorage u in
      Some (mkDimGas compute storage (DimBandwidth u) (DimBlob u) (DimWitness u))
  end.

Definition CheckDimStorageCap (blockStorageGasUsed txStorageGas : Z) : bool :=
  (blockStorageGasUsed +u txStorageGas) <=? DimStorageBlockGasCap.

(** Post-quantum signature verification costs. *)
Definition GasPQVerify (algorithmID : Z) : Z :=
  if algorithmID =? 1 then 3500
  else if algorithmID =? 2 then 4500
  else if algorithmID =? 3 then 5500
  else if algorithmID =? 4 then 3000
  else if algorithmID =? 5 then 8000
  else 1000.

(** *** Memory expansion *)

(** The cost of [words] words as [gasMemExpansion] computes it in uint64. *)
Definition memWordsCost (words : Z) : Z :=
  (words *u GasMemory) +u (words *u words) / 512.

(** [gasMemExpansion] given the current memory length. *)
Definition memExpansionGas (memLen memorySize : Z) : Z :=
  if memorySize =? 0 then 0
  else
    let newCost := memWordsCost ((memorySize +u 31) / 32) in
    if memLen =? 0 then newCost
    else
      let oldCost := memWordsCost ((memLen +u 31) / 32) in
      if newCost >? oldCost then newCost -u oldCost else 0.

Definition bigToHash (b : Z) : Hash := BytesToHash (Bytes b).

Definition bigToAddress (b : Z) : Address := BytesToAddress (Bytes b).

Section GasFunctions.

Context {DB : Type} `{StateDB DB}.

Abbreviation G := (M (mstate DB)).

(** ** Memory sizes: [None] is the overflow flag *)

(** Read the stack at position [i] as a uint64, or report the overflow. *)
Definition backU64 (i : nat) (k : Z -> G (option Z)) : G (option Z) :=
  let! v := Back i in
  let '(x, overflow) := bigUint64WithOverflow v in
  if (overflow : bool) then gret None else k x.

Definition sumU64 (a b : Z) : option Z :=
  let '(x, overflow) := safeAddU_val a b in if (overflow : bool) then None else Some x.

Definition maxU64 (a b : option Z) : option Z :=
  match a, b with
  | Some x, Some y => Some (if x >? y then x else y)
  | _, _ => None
  end.

(** Offset at stack position [i], plus a constant. *)
Definition memory_const (i : nat) (n : Z) : G (option Z) :=
  backU64 i (fun o => gret (sumU64 o n)).

(** Offset and length at positions [i] and [j]. *)
Definition memory_range (i j : nat) : G (option Z) :=
  backU64 i (fun o => backU64 j (fun l => gret (sumU64 o l))).

Definition memoryMload : G (option Z) := memory_const 0 32.
Definition memoryMstore : G (option Z) := memory_const 0 32.
Definition memoryMstore8 : G (option Z) := memory_const 0 1.
Definition memoryReturn : G (option Z) := memory_range 0 1.
Definition memoryKeccak256 : G (option Z) := memory_range 0 1.
Definition memoryCalldataCopy : G (option Z) := memory_range 0 2.
Definition memoryCodeCopy : G (option Z) := memory_range 0 2.
Definition memoryLog : G (option Z) := memory_range 0 1.
Definition memoryReturndataCopy : G (option Z) := memory_range 0 2.
Definition memoryExtcodecopy : G (option Z) := memory_range 1 3.
Definition memoryCreate : G (option Z) := memory_range 1 2.
Definition memoryCreate2 : G (option Z) := memory_range 1 2.
Definition memoryApprove : G (option Z) := memory_range 0 1.

(** The larger of the argument and return windows of a call, whose first
    operand is at position [i]. *)
Definition memory_call (i : nat) : G (option Z) :=
  backU64 i (fun argsOff => backU64 (i + 1) (fun argsLen =>
  backU64 (i + 2) (fun retOff => backU64 (i + 3) (fun retLen =>
    gret (maxU64 (sumU64 argsOff argsLen) (sumU64 retOff retLen)))))).

Definition memoryCall : G (option Z) := memory_call 3.
Definition memoryCallCode : G (option Z) := memoryCall.
Definition memoryDelegateCall : G (option Z) := memory_call 2.
Definition memoryStaticCall : G (option Z) := memoryDelegateCall.

Definition memoryMcopy : G (option Z) :=
  backU64 0 (fun dest => backU64 1 (fun src => backU64 2 (fun size =>
    gret (if size =? 0 then Some 0 else maxU64 (sumU64 dest size) (sumU64 src size))))).

Definition memoryTxParamCopy : G (option Z) :=
  backU64 2 (fun destOffset => backU64 4 (fun length =>
    gret (if length =? 0 then Some 0 else sumU64 destOffset length))).

(** ** Dynamic gas *)

Definition gasMemExpansion (memorySize : Z) : G Z :=
  let! s := gget in gret (memExpansionGas (mem_Len (mem s)) memorySize).

Definition gasMcopy (memorySize : Z) : G Z :=
  let! size := Back 2 in
  let words := (Uint64 size +u 31) / 32 in
  let copyGas := safeMul GasCopy words in
  let! memGas := gasMemExpansion memorySize in
  gret (safeAdd copyGas memGas).

(** [per] gas per word of the size at position [i], plus expansion. *)
Definition gas_per_word (i : nat) (per : Z) (memorySize : Z) : G Z :=
  let! size := Back i in
  let gas := safeMul per (toWordSize (Uint64 size)) in
  let! memGas := gasMemExpansion memorySize in
  gret (safeAdd gas memGas).

Definition gasSha3 (memorySize : Z) : G Z :=
  let! size := Back 1 in
  let gas := safeMul (toWordSize (Uint64 size)) GasKeccak256Word in
  let! memGas := gasMemExpansion memorySize in
  gret (safeAdd gas memGas).

Definition gasExp (memorySize : Z) : G Z :=
  let! exp := Back 1 in
  if Z.sgn exp =? 0 then gret 0 else gret (50 *u ((BitLen exp + 7) / 8)).

Definition gasCopy (memorySize : Z) : G Z := gas_per_word 2 GasCopy memorySize.
Definition gasExtCodeCopyCopy (memorySize : Z) : G Z := gas_per_word 3 GasCopy memorySize.

Definition makeGasLog (n : Z) (memorySize : Z) : G Z :=
  let! size := Back 1 in
  let gas := safeMul n GasLogTopic in
  let gas := safeAdd gas (safeMul (Uint64 size) GasLogData) in
  let! memGas := gasMemExpansion memorySize in
  gret (safeAdd gas memGas).

Definition gasCreateDynamic (memorySize : Z) : G Z := gas_per_word 2 InitCodeWordGas memorySize.
Definition gasCreate2Dynamic (memorySize : Z) : G Z :=
  gas_per_word 2 (InitCodeWordGas +u GasKeccak256Word) memorySize.

(** *** Warm/cold checks *)

(** Warm [addr]; the extra cost when it was cold. *)
Definition accountCheck (extra : Z) (addr : Address) : G Z :=
  liftE (
    let! db := hasDB in
    if negb db then gret 0
    else
      let! warm := readDB (fun db => AddressInAccessList db addr) in
      if (warm : bool) then gret 0
      else
        do! mutDB (MAddAddressToAccessList addr) in
        gret extra).

Definition slotCheck (extra : Z) (addr : Address) (slot : Hash) : G Z :=
  liftE (
    let! db := hasDB in
    if negb db then gret 0
    else
      let! warm := readDB (fun db => (SlotInAccessList db addr slot).2) in
      if (warm : bool) then gret 0
      else
        do! mutDB (MAddSlotToAccessList addr slot) in
        gret extra).

Definition gasEIP2929AccountCheck : Address -> G Z :=
  accountCheck (ColdAccountAccessCost -u WarmStorageReadCost).
Definition gasEIP2929SlotCheck : Address -> Hash -> G Z :=
  slotCheck (ColdSloadCost -u WarmStorageReadCost).
Definition gasEIP8038AccountCheck : Address -> G Z :=
  accountCheck (ColdAccountAccessGlamst -u WarmStorageReadGlamst).
Definition gasEIP8038SlotCheck : Address -> Hash -> G Z :=
  slotCheck (ColdSloadGlamst -u WarmStorageReadGlamst).

(** [evm.StateDB != nil && !evm.StateDB.Exist(addr)] *)
Definition missing (addr : Address) : G bool :=
  liftE (let! db := hasDB in
         if negb db then gret false
         else let! ex := readDB (fun db => Exist db addr) in gret (negb ex)).

(** *** SSTORE *)

(** The cold surcharge of SSTORE: the full cold cost, warming the slot. *)
Definition sstoreCold (cost : Z) (slot : Hash) : G Z :=
  let! s := gget in slotCheck cost (caddr (ctr s)) slot.

Definition gasSstoreEIP2929 (memorySize : Z) : G Z :=
  let! loc := Back 0 in
  let slot := bigToHash loc in
  let! coldGas := sstoreCold ColdSloadCost slot in
  let! db := liftE hasDB in
  if negb db then gret (WarmStorageReadCost +u coldGas)
  else
    let! s := gget in
    let a := caddr (ctr s) in
    let! current := liftE (readDB (fun db => GetState db a slot)) in
    let! original := liftE (readDB (fun db => GetCommittedState db a slot)) in
    let! v := Back 1 in
    let '(gas, _) := SstoreGas original current (bigToHash v) false in
    gret (gas +u coldGas).

Definition gasSstoreGlamst (memorySize : Z) : G Z :=
  let! loc := Back 0 in
  let slot := bigToHash loc in
  let! coldGas := sstoreCold ColdSloadGlamst slot in
  let! db := liftE hasDB in
  if negb db then gret (WarmStorageReadGlamst +u coldGas)
  else
    let! s := gget in
    let a := caddr (ctr s) in
    let! current := liftE (readDB (fun db => GetState db a slot)) in
    let! original := liftE (readDB (fun db => GetCommittedState db a slot)) in
    let! v := Back 1 in
    let val := bigToHash v in
    let account (creation : bool) : G unit :=
      liftE (gmodify (fun e => set_dimGasUsage (AccountSSTOREGas creation coldGas (dimGasUsage e)) e)) in
    if current =? val then gret (WarmStorageReadGlamst +u coldGas)
    else if original =? current then
      if original =? 0 then
        do! account true in
        let '(execGas, _, reservoir) :=
          ReservoirGasCost original current val (coldGas >? 0) (StateGasReservoir (ctr s)) in
        do! gmodify (fun s => set_ctr (set_Reservoir reservoir (ctr s)) s) in
        gret execGas
      else
        do! account false in
        gret (GasSstoreReset +u coldGas)
    else
      do! account false in
      gret (WarmStorageReadGlamst +u coldGas).

(** *** Account and slot accesses *)

Definition gasSloadEIP2929 (memorySize : Z) : G Z :=
  let! loc := Back 0 in
  let! s := gget in
  gasEIP2929SlotCheck (caddr (ctr s)) (bigToHash loc).

Definition gasSloadGlamst (memorySize : Z) : G Z :=
  let! loc := Back 0 in
  let! s := gget in
  gasEIP8038SlotCheck (caddr (ctr s)) (bigToHash loc).

Definition gasBalanceEIP2929 (memorySize : Z) : G Z :=
  let! a := Back 0 in gasEIP2929AccountCheck (bigToAddress a).
Definition gasExtCodeSizeEIP2929 (memorySize : Z) : G Z :=
  let! a := Back 0 in gasEIP2929AccountCheck (bigToAddress a).
Definition gasExtCodeHashEIP2929 (memorySize : Z) : G Z :=
  let! a := Back 0 in gasEIP2929AccountCheck (bigToAddress a).

Definition gasExtCodeCopyEIP2929 (memorySize : Z) : G Z :=
  let! a := Back 0 in
  let! gas := gasEIP2929AccountCheck (bigToAddress a) in
  let! size := Back 3 in
  let gas := safeAdd gas (safeMul GasCopy (toWordSize (Uint64 size))) in
  let! memGas := gasMemExpansion memorySize in
  gret (safeAdd gas memGas).

Definition gasBalanceGlamst (memorySize : Z) : G Z :=
  let! a := Back 0 in gasEIP8038AccountCheck (bigToAddress a).
Definition gasExtCodeHashGlamst (memorySize : Z) : G Z :=
  let! a := Back 0 in gasEIP8038AccountCheck (bigToAddress a).

Definition gasExtCodeSizeGlamst (memorySize : Z) : G Z :=
  let! a := Back 0 in
  let! gas := gasEIP8038AccountCheck (bigToAddress a) in
  gret (safeAdd gas WarmStorageReadGlamst).

Definition gasExtCodeCopyGlamst (memorySize : Z) : G Z :=
  let! a := Back 0 in
  let! gas := gasEIP8038AccountCheck (bigToAddress a) in
  let gas := safeAdd gas WarmStorageReadGlamst in
  let! size := Back 3 in
  let gas := safeAdd gas (safeMul GasCopy (toWordSize (Uint64 size))) in
  let! memGas := gasMemExpansion memorySize in
  gret (safeAdd gas memGas).

(** *** SELFDESTRUCT *)

(** [!Exist(beneficiary) && GetBalance(contract).Sign() != 0] *)
Definition selfdestructCreates (addr : Address) : G bool :=
  let! s := gget in
  liftE (let! db := hasDB in
         if negb db then gret false
         else
           let! ex := readDB (fun db => Exist db addr) in
           let! bal := readDB (fun db => GetBalance db (caddr (ctr s))) in
           gret (negb ex && negb (Z.sgn bal =? 0))).

Definition gasSelfdestructFrontier (memorySize : Z) : G Z :=
  let! a := Back 0 in
  let! creates := selfdestructCreates (bigToAddress a) in
  gret (if (creates : bool) then CreateBySelfdestructGas else 0).

Definition gasSelfdestructEIP2929 (memorySize : Z) : G Z :=
  let! a := Back 0 in
  let! cold := gasEIP2929AccountCheck (bigToAddress a) in
  let gas := safeAdd 0 cold in
  let! creates := selfdestructCreates (bigToAddress a) in
  gret (if (creates : bool) then safeAdd gas CreateBySelfdestructGas else gas).

Definition gasSelfdestructGlamst (memorySize : Z) : G Z :=
  let! a := Back 0 in
  let! cold := gasEIP8038AccountCheck (bigToAddress a) in
  let gas := safeAdd 0 cold in
  let! creates := selfdestructCreates (bigToAddress a) in
  gret (if (creates : bool) then safeAdd gas CreateBySelfdestructGas else gas).

(** *** The CALL family *)

(** The last steps shared by all of them: memory expansion, the 63/64 rule,
    [callGasTemp], and the total. *)
Definition finishCallGas (gas memorySize : Z) : G Z :=
  let! memGas := gasMemExpansion memorySize in
  let gas := safeAdd gas memGas in
  let! requested := Back 0 in
  let! s := gget in
  let temp := callGasEIP150 (Gas (ctr s)) gas (Uint64 requested) in
  do! liftE (gmodify (set_callGasTemp temp)) in
  gret (safeAdd gas temp).

(** Value transfer surcharge, and new-account surcharge where [newAccount]
    is given. *)
Definition valueGas (gas transferGas : Z) (newAccount : option Z) : G Z :=
  let! value := Back 2 in
  if Z.sgn value =? 0 then gret gas
  else
    let gas := safeAdd gas transferGas in
    match newAccount with
    | None => gret gas
    | Some extra =>
        let! a := Back 1 in
        let! miss := missing (bigToAddress a) in
        gret (if (miss : bool) then safeAdd gas extra else gas)
    end.

Definition gasCallFrontier (memorySize : Z) : G Z :=
  let! gas := valueGas 0 CallValueTransferGas (Some CallNewAccountGas) in
  finishCallGas gas memorySize.

Definition gasCallCodeFrontier (memorySize : Z) : G Z :=
  let! gas := valueGas 0 CallValueTransferGas None in
  finishCallGas gas memorySize.

Definition gasCallEIP2929 (memorySize : Z) : G Z :=
  let! a := Back 1 in
  let! gas := gasEIP2929AccountCheck (bigToAddress a) in
  let! gas := valueGas gas CallValueTransferGas (Some CallNewAccountGas) in
  finishCallGas gas memorySize.

Definition gasCallCodeEIP2929 (memorySize : Z) : G Z :=
  let! a := Back 1 in
  let! gas := gasEIP2929AccountCheck (bigToAddress a) in
  let! gas := valueGas gas CallValueTransferGas None in
  finishCallGas gas memorySize.

Definition gasDelegateCallEIP2929 (memorySize : Z) : G Z :=
  let! a := Back 1 in
  let! gas := gasEIP2929AccountCheck (bigToAddress a) in
  finishCallGas gas memorySize.

Definition gasStaticCallEIP2929 (memorySize : Z) : G Z :=
  let! a := Back 1 in
  let! gas := gasEIP2929AccountCheck (bigToAddress a) in
  finishCallGas gas memorySize.

Definition gasCallGlamst (memorySize : Z) : G Z :=
  let! a := Back 1 in
  let! gas := gasEIP8038AccountCheck (bigToAddress a) in
  let! gas := valueGas gas CallValueTransferGlamst (Some CallNewAccountGlamst) in
  finishCallGas gas memorySize.

Definition gasCallCodeGlamst (memorySize : Z) : G Z :=
  let! a := Back 1 in
  let! gas := gasEIP8038AccountCheck (bigToAddress a) in
  let! gas := valueGas gas CallValueTransferGlamst None in
  finishCallGas gas memorySize.

Definition gasDelegateCallGlamst (memorySize : Z) : G Z :=
  let! a := Back 1 in
  let! gas := gasEIP8038AccountCheck (bigToAddress a) in
  finishCallGas gas memorySize.

Definition gasStaticCallGlamst (memorySize : Z) : G Z :=
  let! a := Back 1 in
  let! gas := gasEIP8038AccountCheck (bigToAddress a) in
  finishCallGas gas memorySize.

(** RVCREATE (opcode_rvcreate.go): no memory expansion is charged. *)
Definition gasRVCreate (memorySize : Z) : G Z :=
  let! s := gget in
  if (length (stk s) <? 3)%nat then gret 0
  else
    let! size := Back 2 in
    gret (200 *u Uint64 size).

End GasFunctions.
