(* ===== verification/Witness.v ===== *)
(** * Witness: EIP-4762 witness gas

    pkg/core/vm/eip4762_gas.go: the tracker of accessed and edited Verkle
    subtrees and leaves, and the dynamic gas functions of the Verkle fork. *)

From S2P Require Import Prelude StateDB Machine Calls GasTable.

Definition WitnessBranchCost : Z := 1900.
Definition WitnessChunkCost : Z := 200.
Definition SubtreeEditCost : Z := 3000.
Definition ChunkEditCost : Z := 500.
Definition ChunkFillCost : Z := 6200.
Definition CodeChunkSize : Z := 31.

Definition BasicDataLeafKey : Z := 0.
Definition CodeHashLeafKey : Z := 1.
Definition HeaderStorageOffset : Z := 64.
Definition CodeOffset : Z := 128.
Definition MainStorageOffset : Z := 256 * 64.
Definition VerkleNodeWidth : Z := 256.

Definition NewWitnessGasTracker : WitnessGasTracker := mkWitness ∅ ∅ ∅ ∅.

(** ** The tracker *)

(** [TouchAccessEvent]: gas and the updated tracker. *)
Definition TouchAccessEvent (t : WitnessGasTracker) (addr : Address) (subKey leafKey : Z)
  : Z * WitnessGasTracker :=
  let sk := (addr, subKey) in
  let lk := (addr, subKey, leafKey) in
  let '(gas, subtrees) :=
    if bool_decide (sk ∈ accessedSubtrees t) then (0, accessedSubtrees t)
    else (safeAdd 0 WitnessBranchCost, {[sk]} ∪ accessedSubtrees t) in
  let '(gas, leaves) :=
    if bool_decide (lk ∈ accessedLeaves t) then (gas, accessedLeaves t)
    else (safeAdd gas WitnessChunkCost, {[lk]} ∪ accessedLeaves t) in
  (gas, mkWitness subtrees leaves (editedSubtrees t) (editedLeaves t)).

Definition TouchWriteEvent (t : WitnessGasTracker) (addr : Address) (subKey leafKey : Z)
    (fill : bool) : Z * WitnessGasTracker :=
  let sk := (addr, subKey) in
  let lk := (addr, subKey, leafKey) in
  let '(gas, subtrees) :=
    if bool_decide (sk ∈ editedSubtrees t) then (0, editedSubtrees t)
    else (safeAdd 0 SubtreeEditCost, {[sk]} ∪ editedSubtrees t) in
  let '(gas, leaves) :=
    if bool_decide (lk ∈ editedLeaves t) then (gas, editedLeaves t)
    else
      let gas := safeAdd gas ChunkEditCost in
      ((if fill then safeAdd gas ChunkFillCost else gas), {[lk]} ∪ editedLeaves t) in
  (gas, mkWitness (accessedSubtrees t) (accessedLeaves t) subtrees leaves).

(** ** Tree layout *)

Definition GetStorageSlotTreeKeys (storageKey : Z) : Z * Z :=
  let pos := if storageKey <? CodeOffset - HeaderStorageOffset
             then HeaderStorageOffset +u storageKey
             else MainStorageOffset +u storageKey in
  (pos / VerkleNodeWidth, u8 (pos mod VerkleNodeWidth)).

Definition GetCodeChunkTreeKeys (chunkID : Z) : Z * Z :=
  let pos := CodeOffset +u chunkID in
  (pos / VerkleNodeWidth, u8 (pos mod VerkleNodeWidth)).

(** The chunks [gasCodeChunksAccess] visits: first chunk and number of
    iterations of its loop.  [None] when it returns before the loop. *)
Definition codeChunks (codeOffset readSize codeSize : Z) : option (Z * Z) :=
  if (readSize =? 0) || (codeSize =? 0) then None
  else
    let endByte := codeOffset +u readSize in
    let endByte := if endByte >? codeSize then codeSize else endByte in
    if codeOffset >=? codeSize then None
    else
      let firstChunk := codeOffset / CodeChunkSize in
      let lastChunk := (endByte -u 1) / CodeChunkSize in
      Some (firstChunk, Z.max 0 (lastChunk - firstChunk + 1)).

(** The loop over [n] chunks from [chunk]. *)
Fixpoint touchChunks (n : nat) (t : WitnessGasTracker) (addr : Address) (chunk gas : Z)
  : Z * WitnessGasTracker :=
  match n with
  | O => (gas, t)
  | S k =>
      let '(treeKey, subKey) := GetCodeChunkTreeKeys chunk in
      let '(g, t) := TouchAccessEvent t addr treeKey subKey in
      touchChunks k t addr (chunk + 1) (safeAdd gas g)
  end.

Section WitnessGas.

Context {DB : Type} `{StateDB DB}.

Abbreviation G := (M (mstate DB)).

(** Run a tracker operation when [evm.witnessGas != nil]; 0 otherwise. *)
Definition withWitness (f : WitnessGasTracker -> Z * WitnessGasTracker) : G Z :=
  liftE (fun e =>
    match witnessGas e with
    | None => Ok 0 e
    | Some t => let '(g, t') := f t in Ok g (set_witnessGas (Some t') e)
    end).

Definition gasAccountAccessEIP4762 (addr : Address) : G Z :=
  withWitness (fun t => TouchAccessEvent t addr 0 BasicDataLeafKey).

(** An access event followed by a write event. *)
Definition touchBoth (addr : Address) (subKey leafKey : Z) (fill : bool) (t : WitnessGasTracker)
  : Z * WitnessGasTracker :=
  let '(g1, t) := TouchAccessEvent t addr subKey leafKey in
  let '(g2, t) := TouchWriteEvent t addr subKey leafKey fill in
  (safeAdd g1 g2, t).

Definition gasAccountWriteEIP4762 (addr : Address) (fill : bool) : G Z :=
  withWitness (touchBoth addr 0 BasicDataLeafKey fill).

Definition gasCodeHashAccessEIP4762 (addr : Address) : G Z :=
  withWitness (fun t => TouchAccessEvent t addr 0 CodeHashLeafKey).

Definition gasCodeChunksAccess (addr : Address) (codeOffset readSize codeSize : Z) : G Z :=
  withWitness (fun t =>
    match codeChunks codeOffset readSize codeSize with
    | None => (0, t)
    | Some (firstChunk, n) => touchChunks (Z.to_nat n) t addr firstChunk 0
    end).

(** [evm.witnessGas == nil] *)
Definition noWitness : G bool :=
  let! s := gget in gret (match witnessGas (evm s) with None => true | Some _ => false end).

(** A state query guarded by [evm.StateDB != nil]. *)
Definition queryDB {A} (d : A) (f : DB -> A) : G A :=
  liftE (let! db := hasDB in if (db : bool) then readDB f else gret d).

Definition gasSloadEIP4762 (memorySize : Z) : G Z :=
  let! none := noWitness in
  if (none : bool) then gret 0
  else
    let! loc := Back 0 in
    let! s := gget in
    let '(treeKey, subKey) := GetStorageSlotTreeKeys (Uint64 loc) in
    withWitness (fun t => TouchAccessEvent t (caddr (ctr s)) treeKey subKey).

Definition gasSstoreEIP4762 (memorySize : Z) : G Z :=
  let! none := noWitness in
  if (none : bool) then gret WarmStorageReadCost
  else
    let! loc := Back 0 in
    let! s := gget in
    let a := caddr (ctr s) in
    let '(treeKey, subKey) := GetStorageSlotTreeKeys (Uint64 loc) in
    let! g1 := withWitness (fun t => TouchAccessEvent t a treeKey subKey) in
    let gas := safeAdd WarmStorageReadCost g1 in
    let! fill := queryDB false (fun db => GetCommittedState db a (bigToHash loc) =? 0) in
    let! g2 := withWitness (fun t => TouchWriteEvent t a treeKey subKey fill) in
    gret (safeAdd gas g2).

Definition gasBalanceEIP4762 (memorySize : Z) : G Z :=
  let! a := Back 0 in gasAccountAccessEIP4762 (bigToAddress a).
Definition gasExtCodeSizeEIP4762 (memorySize : Z) : G Z :=
  let! a := Back 0 in gasAccountAccessEIP4762 (bigToAddress a).
Definition gasExtCodeHashEIP4762 (memorySize : Z) : G Z :=
  let! a := Back 0 in gasCodeHashAccessEIP4762 (bigToAddress a).

Definition gasExtCodeCopyEIP4762 (memorySize : Z) : G Z :=
  let! a := Back 0 in
  let addr := bigToAddress a in
  let! gas := gasAccountAccessEIP4762 addr in
  let! sz := Back 3 in
  let size := Uint64 sz in
  let gas := safeAdd gas (safeMul GasCopy (toWordSize size)) in
  let! memGas := gasMemExpansion memorySize in
  let gas := safeAdd gas memGas in
  let! none := noWitness in
  if negb none && (size >? 0) then
    let! off := Back 2 in
    let! codeSize := queryDB 0 (fun db => u64 (GetCodeSize db addr)) in
    if codeSize >? 0 then
      let! g := gasCodeChunksAccess addr (Uint64 off) size codeSize in
      gret (safeAdd gas g)
    else gret gas
  else gret gas.

Definition gasCallEIP4762 (memorySize : Z) : G Z :=
  let! a := Back 1 in
  let addr := bigToAddress a in
  let! gas := gasAccountAccessEIP4762 addr in
  let! value := Back 2 in
  let! gas :=
    (if Z.sgn value =? 0 then gret gas
     else
       let! calleeFill := queryDB false (fun db => negb (Exist db addr)) in
       let! s := gget in
       let! g1 := gasAccountWriteEIP4762 (CallerAddress (ctr s)) false in
       let gas := safeAdd gas g1 in
       let! g2 := gasAccountWriteEIP4762 addr calleeFill in
       let gas := safeAdd gas g2 in
       if (calleeFill : bool) then
         let! g3 := withWitness (fun t => TouchAccessEvent t addr 0 CodeHashLeafKey) in
         let gas := safeAdd gas g3 in
         let! g4 := withWitness (fun t => TouchWriteEvent t addr 0 CodeHashLeafKey true) in
         gret (safeAdd gas g4)
       else gret gas) in
  finishCallGas gas memorySize.

(** CALLCODE, DELEGATECALL and STATICCALL have the same body. *)
Definition gasCallPlainEIP4762 (memorySize : Z) : G Z :=
  let! a := Back 1 in
  let! gas := gasAccountAccessEIP4762 (bigToAddress a) in
  finishCallGas gas memorySize.

Definition gasCallCodeEIP4762 : Z -> G Z := gasCallPlainEIP4762.
Definition gasDelegateCallEIP4762 : Z -> G Z := gasCallPlainEIP4762.
Definition gasStaticCallEIP4762 : Z -> G Z := gasCallPlainEIP4762.

Definition gasSelfdestructEIP4762 (memorySize : Z) : G Z :=
  let! a := Back 0 in
  let addr := bigToAddress a in
  let! gas := gasAccountAccessEIP4762 addr in
  let! s := gget in
  let self := caddr (ctr s) in
  let! funded := queryDB false (fun db => negb (Z.sgn (GetBalance db self) =? 0)) in
  if (funded : bool) then
    let! calleeFill := queryDB false (fun db => negb (Exist db addr)) in
    let! g1 := gasAccountWriteEIP4762 self false in
    let gas := safeAdd gas g1 in
    let! g2 := gasAccountWriteEIP4762 addr calleeFill in
    gret (safeAdd gas g2)
  else gret gas.

End WitnessGas.
