(* ===== verification/Instructions.v ===== *)
(** * Instructions: the opcode implementations

    pkg/core/vm/instructions.go, the frame-transaction opcodes of
    eip8141_opcodes.go and RVCREATE of opcode_rvcreate.go.  An
    [executionFunc] is a program of the state monad over [mstate] that
    returns the byte slice of the Go function; its error return is [Err].
    The pointer returned by [stack.Peek()] and updated in place is the pair
    [Peek]/[SetTop]. *)

From S2P Require Import Prelude StateDB Machine Calls GasTable.

(** ** Word arithmetic *)

Definition tt256 : Z := 2 ^ 256.
Definition tt256m1 : Z := 2 ^ 256 - 1.
Definition tt255 : Z := 2 ^ 255.

Definition toU256 (val : Z) : Z := Z.land val tt256m1.

Definition toS256 (val : Z) : Z := if val <? tt255 then val else val - tt256.

Definition fromS256 (val : Z) : Z := if Z.sgn val >=? 0 then val else val + tt256.

Definition bit (b : bool) : Z := if b then 1 else 0.

Definition div_word (x y : Z) : Z := if negb (Z.sgn y =? 0) then x / y else 0.

Definition sdiv_word (x y : Z) : Z :=
  let sx := toS256 x in
  let sy := toS256 y in
  if Z.sgn sy =? 0 then 0
  else
    let result := Z.abs sx / Z.abs sy in
    let result := if negb (Z.sgn sx =? Z.sgn sy) then - result else result in
    toU256 (fromS256 result).

Definition mod_word (x y : Z) : Z := if negb (Z.sgn y =? 0) then x mod y else 0.

Definition smod_word (x y : Z) : Z :=
  let sx := toS256 x in
  let sy := toS256 y in
  if Z.sgn sy =? 0 then 0
  else
    let result := Z.abs sx mod Z.abs sy in
    let result := if Z.sgn sx <? 0 then - result else result in
    toU256 (fromS256 result).

Definition addmod_word (x y z : Z) : Z :=
  if negb (Z.sgn z =? 0) then toU256 ((x + y) mod z) else 0.

Definition mulmod_word (x y z : Z) : Z :=
  if negb (Z.sgn z =? 0) then toU256 ((x * y) mod z) else 0.

(** [z.Exp(x, y, m)] of math/big for non-negative operands, by repeated
    squaring. *)
Fixpoint pow_mod (x : Z) (y : positive) (m : Z) : Z :=
  match y with
  | xH => x mod m
  | xO p => let r := pow_mod x p m in (r * r) mod m
  | xI p => let r := pow_mod x p m in ((r * r) mod m * x) mod m
  end.

Definition exp_word (base exponent : Z) : Z :=
  match exponent with
  | Zpos p => pow_mod base p tt256
  | _ => 1
  end.

Definition signextend_word (back num : Z) : Z :=
  if back <? 31 then
    let bit := (Uint64 back *u 8) +u 7 in
    let mask := Z.shiftl 1 bit - 1 in
    toU256 (if Z.testbit num bit then Z.lor num (Z.lnot mask) else Z.land num mask)
  else num.

Definition shl_word (shift value : Z) : Z :=
  if shift >=? 256 then 0 else toU256 (Z.shiftl value (Uint64 shift)).

Definition shr_word (shift value : Z) : Z :=
  if shift >=? 256 then 0 else Z.shiftr value (Uint64 shift).

Definition sar_word (shift value : Z) : Z :=
  let signed := toS256 value in
  if shift >=? 256 then (if Z.sgn signed >=? 0 then 0 else tt256m1)
  else toU256 (fromS256 (Z.shiftr signed (Uint64 shift))).

(** Words made of addresses and hashes: [new(big.Int).SetBytes(a[:])]. *)
Definition addr_word (a : Address) : Z := SetBytes (be_bytes 20 a).
Definition hash_word (h : Hash) : Z := SetBytes (be_bytes 32 h).

(** [data := make([]byte, l); if off < len(src) { copy(data, src[off:]) }] *)
Definition getData (src : bytes) (off l : Z) : bytes :=
  if off <? zlen src then go_copy (zeros l) (drop (Z.to_nat off) src) else zeros l.

(** ** EIP-8024 immediates *)

Definition decodeSingle (x : Z) : Z := if x <=? 90 then x + 17 else x - 20.

Definition decodePair (x : Z) : Z * Z :=
  let k := if x <=? 79 then x else x - 48 in
  let q := k / 16 in
  let r := k mod 16 in
  if q <? r then (q + 1, r + 1) else (r + 1, 29 - q).

Section Instructions.

Context {DB : Type} `{StateDB DB}.
Context (keccak256 : bytes -> bytes).
Context (PrecompiledContractsCancun : gmap Z PrecompiledContract).
Context (RunPrecompileGuestProgram : bytes -> bytes -> Z -> bytes * option vmerr).
Context (Run : Contract -> bytes -> M (EVM DB) (Contract * bytes * option vmerr)).

Abbreviation G := (M (mstate DB)).
Abbreviation executionFunc := (M (mstate DB) bytes).

(** *** Helpers *)

(** [return nil, nil] *)
Definition done : executionFunc := gret [].

(** [x, y := stack.Pop(), stack.Peek(); y.op(x, y)] *)
Definition binop (f : Z -> Z -> Z) : executionFunc :=
  let! x := Pop in
  let! y := Peek in
  do! SetTop (f x y) in done.

Definition unop (f : Z -> Z) : executionFunc :=
  let! x := Peek in
  do! SetTop (f x) in done.

Definition ternop (f : Z -> Z -> Z -> Z) : executionFunc :=
  let! x := Pop in
  let! y := Pop in
  let! z := Peek in
  do! SetTop (f x y z) in done.

(** [stack.Push(v)] for a value read from the machine state *)
Definition pushOf (f : mstate DB -> Z) : executionFunc :=
  let! s := gget in
  do! Push (f s) in done.

(** [memory.Get(int64(offset.Uint64()), int64(size.Uint64()))] *)
Definition memWindow (offset size : Z) : G bytes :=
  MemGet (i64 (Uint64 offset)) (i64 (Uint64 size)).

Definition touch (a : Address) : G unit := liftE (record (RecordAddressTouch a)).

Definition writeGuard : G unit :=
  let! s := gget in
  if readOnly (evm s) then gfail ErrWriteProtection [] else gret tt.

(** *** Arithmetic, comparison, bitwise *)

Definition opAdd : executionFunc := binop (fun x y => toU256 (x + y)).
Definition opSub : executionFunc := binop (fun x y => toU256 (x - y)).
Definition opMul : executionFunc := binop (fun x y => toU256 (x * y)).
Definition opDiv : executionFunc := binop div_word.
Definition opSdiv : executionFunc := binop sdiv_word.
Definition opMod : executionFunc := binop mod_word.
Definition opSmod : executionFunc := binop smod_word.
Definition opAddmod : executionFunc := ternop addmod_word.
Definition opMulmod : executionFunc := ternop mulmod_word.
Definition opExp : executionFunc := binop exp_word.
Definition opSignExtend : executionFunc := binop signextend_word.
Definition opLt : executionFunc := binop (fun x y => bit (x <? y)).
Definition opGt : executionFunc := binop (fun x y => bit (x >? y)).
Definition opSlt : executionFunc := binop (fun x y => bit (toS256 x <? toS256 y)).
Definition opSgt : executionFunc := binop (fun x y => bit (toS256 x >? toS256 y)).
Definition opEq : executionFunc := binop (fun x y => bit (x =? y)).
Definition opIsZero : executionFunc := unop (fun x => bit (Z.sgn x =? 0)).
Definition opAnd : executionFunc := binop Z.land.
Definition opOr : executionFunc := binop Z.lor.
Definition opXor : executionFunc := binop Z.lxor.
Definition opNot : executionFunc := unop (fun x => toU256 (Z.lnot x)).
Definition opSHL : executionFunc := binop shl_word.
Definition opSHR : executionFunc := binop shr_word.
Definition opSAR : executionFunc := binop sar_word.
Definition opCLZ : executionFunc := unop (fun x => u64 (256 - BitLen x)).

Definition opByte : executionFunc :=
  let! th := Pop in
  let! val := Peek in
  if th <? 32 then
    let! padded := gopt PSlice (pad32 (Bytes val)) in
    let! b := gopt PSlice (go_index padded (Uint64 th)) in
    do! SetTop b in done
  else
    do! SetTop 0 in done.

(** *** Call data, code and environment *)

Definition opCalldataLoad : executionFunc :=
  let! s := gget in
  unop (fun x => SetBytes (getData (Input (ctr s)) (Uint64 x) 32)).

Definition opCalldataSize : executionFunc := pushOf (fun s => u64 (zlen (Input (ctr s)))).

(** Copy [src[dataOffset:]] to memory, zero-padded to the length popped. *)
Definition copyToMemory (src : mstate DB -> bytes) : executionFunc :=
  let! memOffset := Pop in
  let! dataOffset := Pop in
  let! length := Pop in
  let l := Uint64 length in
  if l =? 0 then done
  else
    let! s := gget in
    do! MemSet (Uint64 memOffset) l (getData (src s) (Uint64 dataOffset) l) in done.

Definition opCalldataCopy : executionFunc := copyToMemory (fun s => Input (ctr s)).
Definition opCodeSize : executionFunc := pushOf (fun s => u64 (zlen (Code (ctr s)))).
Definition opCodeCopy : executionFunc := copyToMemory (fun s => Code (ctr s)).
Definition opAddress : executionFunc := pushOf (fun s => addr_word (caddr (ctr s))).

Definition opOrigin : executionFunc :=
  pushOf (fun s => match FrameCtx (evm s) with
                   | Some fc => addr_word (Sender fc)
                   | None => addr_word (Origin (TxContext_ (config (evm s))))
                   end).

Definition opCaller : executionFunc := pushOf (fun s => addr_word (CallerAddress (ctr s))).
Definition opCallValue : executionFunc := pushOf (fun s => default 0 (Value (ctr s))).
Definition opGasPrice : executionFunc :=
  pushOf (fun s => default 0 (GasPrice (TxContext_ (config (evm s))))).

Definition block (s : mstate DB) : BlockContext := Context_ (config (evm s)).

Definition opCoinbase : executionFunc := pushOf (fun s => addr_word (Coinbase (block s))).
Definition opTimestamp : executionFunc := pushOf (fun s => Time (block s)).
Definition opNumber : executionFunc := pushOf (fun s => default 0 (BlockNumber (block s))).
Definition opPrevRandao : executionFunc := pushOf (fun s => hash_word (PrevRandao (block s))).
Definition opGasLimit : executionFunc := pushOf (fun s => GasLimit (block s)).
Definition opChainID : executionFunc := pushOf (fun s => chainID (config (evm s))).
Definition opBaseFee : executionFunc := pushOf (fun s => default 0 (BaseFee (block s))).
Definition opBlobBaseFee : executionFunc := pushOf (fun s => default 0 (BlobBaseFee (block s))).
Definition opSlotNum : executionFunc := pushOf (fun s => SlotNumber (block s)).

Definition opBlobHash : executionFunc :=
  let! s := gget in
  let hashes := BlobHashes (TxContext_ (config (evm s))) in
  unop (fun idx =>
    if IsUint64 idx && (Uint64 idx <? zlen hashes)
    then default 0 (hash_word <$> go_index hashes (Uint64 idx))
    else 0).

Definition opBlockhash : executionFunc :=
  let! s := gget in
  let upper := match BlockNumber (block s) with Some n => Uint64 n | None => 0 end in
  let lower := if upper >? 256 then upper -u 256 else 0 in
  unop (fun num =>
    let num64 := Uint64 num in
    if (num64 >=? lower) && (num64 <? upper) then
      match GetHash (block s) with
      | Some f => hash_word (f num64)
      | None => 0
      end
    else 0).

(** *** Stack, memory and control flow *)

Definition opPop : executionFunc := do! Pop in done.

Definition opMload : executionFunc :=
  let! offset := Peek in
  let! data := MemGet (i64 (Uint64 offset)) 32 in
  do! SetTop (SetBytes data) in done.

Definition opMstore : executionFunc :=
  let! offset := Pop in
  let! val := Pop in
  do! MemSet32 (Uint64 offset) val in done.

Definition opMstore8 : executionFunc :=
  let! offset := Pop in
  let! val := Pop in
  do! MemSet (Uint64 offset) 1 [u8 (Uint64 val)] in done.

(** [contract.validJumpdest(pos)], filling the analysis cache. *)
Definition checkJump (pos : Z) : G bool :=
  let! s := gget in
  let '(ok, c) := validJumpdest (ctr s) pos in
  do! gmodify (set_ctr c) in
  gret ok.

Definition jumpTo (pos : Z) : executionFunc :=
  let! ok := checkJump pos in
  if negb ok then gfail ErrInvalidJump []
  else
    do! gmodify (set_pc (Uint64 pos)) in done.

Definition opJump : executionFunc :=
  let! pos := Pop in
  jumpTo pos.

Definition opJumpi : executionFunc :=
  let! pos := Pop in
  let! cond := Pop in
  if negb (Z.sgn cond =? 0) then jumpTo pos
  else
    do! gmodify (fun s => set_pc (pc s +u 1) s) in done.

Definition opJumpdest : executionFunc := done.
Definition opPc : executionFunc := pushOf pc.
Definition opMsize : executionFunc := pushOf (fun s => u64 (mem_Len (mem s))).
Definition opGas : executionFunc := pushOf (fun s => Gas (ctr s)).
Definition opPush0 : executionFunc := pushOf (fun _ => 0).

(** The byte after the opcode, or zero past the end of the code. *)
Definition immediate (s : mstate DB) : Z :=
  if (pc s +u 1) <? zlen (Code (ctr s))
  then u8 (default 0 (go_index (Code (ctr s)) (pc s +u 1))) else 0.

Definition advance (n : Z) : G unit := gmodify (fun s => set_pc (pc s +u n) s).

Definition opPush1 : executionFunc :=
  let! s := gget in
  do! Push (immediate s) in
  do! advance 1 in done.

(** The bytes pushed by PUSHn. *)
Definition pushData (code : bytes) (pc size : Z) : option bytes :=
  let start := pc +u 1 in
  let end_ := start +u size in
  let codeLen := zlen code in
  if start >=? codeLen then Some (zeros size)
  else if end_ >? codeLen then
    match go_slice code start codeLen with
    | Some d => Some (go_copy (zeros size) d)
    | None => None
    end
  else go_slice code start end_.

Definition makePush (size : Z) : executionFunc :=
  let! s := gget in
  let! data := gopt PSlice (pushData (Code (ctr s)) (pc s) size) in
  do! Push (SetBytes data) in
  do! advance size in done.

Definition makeDup (n : nat) : executionFunc := do! Dup n in done.
Definition makeSwap (n : nat) : executionFunc := do! Swap n in done.

Definition opDupN : executionFunc :=
  let! s := gget in
  let x := immediate s in
  if (x >? 90) && (x <? 128) then gfail ErrInvalidOpCode []
  else
    let n := decodeSingle x in
    if zlen (stk s) <? n then gfail ErrStackUnderflow []
    else
      do! Dup (Z.to_nat n) in
      do! advance 1 in done.

Definition opSwapN : executionFunc :=
  let! s := gget in
  let x := immediate s in
  if (x >? 90) && (x <? 128) then gfail ErrInvalidOpCode []
  else
    let n := decodeSingle x in
    if zlen (stk s) <? n + 1 then gfail ErrStackUnderflow []
    else
      do! Swap (Z.to_nat n) in
      do! advance 1 in done.

(** [data[top-n], data[top-m] = data[top-m], data[top-n]] *)
Definition Exchange (n m : nat) : G unit := fun s =>
  match stk s !! n, stk s !! m with
  | Some a, Some b => Ok tt (set_stk (<[m := a]> (<[n := b]> (stk s))) s)
  | _, _ => Panic PStack
  end.

Definition opExchange : executionFunc :=
  let! s := gget in
  let x := immediate s in
  if (x >? 79) && (x <? 128) then gfail ErrInvalidOpCode []
  else
    let '(n, m) := decodePair x in
    let need := (if m >? n then m else n) + 1 in
    if zlen (stk s) <? need then gfail ErrStackUnderflow []
    else
      do! Exchange (Z.to_nat n) (Z.to_nat m) in
      do! advance 1 in done.

Definition opStop : executionFunc := done.

Definition opReturn : executionFunc :=
  let! offset := Pop in
  let! size := Pop in
  memWindow offset size.

Definition opRevert : executionFunc :=
  let! offset := Pop in
  let! size := Pop in
  let! ret := memWindow offset size in
  gfail ErrExecutionReverted ret.

Definition opInvalid : executionFunc := gfail ErrInvalidOpCode [].

Definition opKeccak256 : executionFunc :=
  let! offset := Pop in
  let! size := Peek in
  let! data := memWindow offset size in
  do! SetTop (SetBytes (keccak256 data)) in done.

Definition opMcopy : executionFunc :=
  let! dest := Pop in
  let! src := Pop in
  let! size := Pop in
  let l := Uint64 size in
  if l =? 0 then done
  else
    let! data := MemGet (i64 (Uint64 src)) (i64 l) in
    do! MemSet (Uint64 dest) l data in done.

(** *** Storage *)

(** [if evm.StateDB != nil { ... } else { ... }] *)
Definition ifDB {A} (some none : G A) : G A :=
  let! db := liftE hasDB in
  if (db : bool) then some else none.

Definition self : G Address := let! s := gget in gret (caddr (ctr s)).

Definition opSload : executionFunc :=
  let! loc := Peek in
  ifDB
    (let key := bigToHash loc in
     let! a := self in
     let! val := liftE (readDB (fun db => GetState db a key)) in
     do! liftE (record (RecordStorageRead a key val)) in
     do! SetTop (hash_word val) in done)
    (do! SetTop 0 in done).

Definition recordStore (a : Address) (key current newVal : Hash) : G unit :=
  liftE (record (if current =? newVal then RecordStorageRead a key current
                 else RecordStorageChange a key current newVal)).

Definition opSstore : executionFunc :=
  do! writeGuard in
  let! loc := Pop in
  let! val := Pop in
  ifDB
    (let key := bigToHash loc in
     let newVal := bigToHash val in
     let! a := self in
     let! current := liftE (readDB (fun db => GetState db a key)) in
     let! original := liftE (readDB (fun db => GetCommittedState db a key)) in
     let '(_, refund) := SstoreGas original current newVal false in
     do! (if refund >? 0 then liftE (mutDB (MAddRefund (u64 refund)))
          else if refund <? 0 then liftE (mutDB (MSubRefund (u64 (- refund))))
          else gret tt) in
     do! liftE (mutDB (MSetState a key newVal)) in
     do! recordStore a key current newVal in done)
    done.

Definition opSstoreGlamst : executionFunc :=
  do! writeGuard in
  let! loc := Pop in
  let! val := Pop in
  ifDB
    (let key := bigToHash loc in
     let newVal := bigToHash val in
     let! a := self in
     let! current := liftE (readDB (fun db => GetState db a key)) in
     do! recordStore a key current newVal in
     do! liftE (mutDB (MSetState a key newVal)) in done)
    done.

Definition opTload : executionFunc :=
  let! loc := Peek in
  ifDB
    (let! a := self in
     let! val := liftE (readDB (fun db => GetTransientState db a (bigToHash loc))) in
     do! SetTop (hash_word val) in done)
    (do! SetTop 0 in done).

Definition opTstore : executionFunc :=
  do! writeGuard in
  let! loc := Pop in
  let! val := Pop in
  ifDB
    (let! a := self in
     do! liftE (mutDB (MSetTransientState a (bigToHash loc) (bigToHash val))) in done)
    done.

(** *** Return data, balances, external code *)

Definition opReturndataSize : executionFunc := pushOf (fun s => u64 (zlen (returnData (evm s)))).

Definition opReturndataCopy : executionFunc :=
  let! memOffset := Pop in
  let! dataOffset := Pop in
  let! length := Pop in
  let l := Uint64 length in
  if l =? 0 then done
  else
    let dOff := Uint64 dataOffset in
    let end_ := dOff +u l in
    let! s := gget in
    if end_ <? dOff then gfail ErrReturnDataOutOfBounds []
    else if end_ >? zlen (returnData (evm s)) then gfail ErrReturnDataOutOfBounds []
    else
      let! data := gopt PSlice (go_slice (returnData (evm s)) dOff end_) in
      do! MemSet (Uint64 memOffset) l (go_copy (zeros l) data) in done.

Definition opSelfBalance : executionFunc :=
  ifDB
    (let! a := self in
     let! balance := liftE (readDB (fun db => GetBalance db a)) in
     do! touch a in
     do! Push balance in done)
    (do! Push 0 in done).

Definition opBalance : executionFunc :=
  let! slot := Peek in
  ifDB
    (let addr := bigToAddress slot in
     let! balance := liftE (readDB (fun db => GetBalance db addr)) in
     do! touch addr in
     do! SetTop balance in done)
    (do! SetTop 0 in done).

Definition opExtcodesize : executionFunc :=
  let! slot := Peek in
  ifDB
    (let addr := bigToAddress slot in
     let! code := liftE (readDB (fun db => GetCode db addr)) in
     do! touch addr in
     do! SetTop (u64 (zlen code)) in done)
    (do! SetTop 0 in done).

Definition opExtcodecopy : executionFunc :=
  let! addrVal := Pop in
  let! memOffset := Pop in
  let! codeOffset := Pop in
  let! length := Pop in
  let l := Uint64 length in
  if l =? 0 then done
  else
    let! code :=
      ifDB (let addr := bigToAddress addrVal in
            let! code := liftE (readDB (fun db => GetCode db addr)) in
            do! touch addr in
            gret code)
           (gret []) in
    do! MemSet (Uint64 memOffset) l (getData code (Uint64 codeOffset) l) in done.

Definition opExtcodehash : executionFunc :=
  let! slot := Peek in
  ifDB
    (let addr := bigToAddress slot in
     do! touch addr in
     let! ex := liftE (readDB (fun db => Exist db addr)) in
     if negb ex then do! SetTop 0 in done
     else
       let! hash := liftE (readDB (fun db => GetCodeHash db addr)) in
       do! SetTop (hash_word hash) in done)
    (do! SetTop 0 in done).

(** *** Logs and SELFDESTRUCT *)

Fixpoint popTopics (n : nat) : G (list Hash) :=
  match n with
  | O => gret []
  | S k =>
      let! t := Pop in
      let! r := popTopics k in
      gret (bigToHash t :: r)
  end.

Definition makeLog (n : nat) : executionFunc :=
  do! writeGuard in
  let! offset := Pop in
  let! size := Pop in
  let! topics := popTopics n in
  let! data := memWindow offset size in
  ifDB
    (let! a := self in
     do! liftE (mutDB (MAddLog (mkLog a topics data 0 0))) in done)
    done.

(** The balance transfer of SELFDESTRUCT: credit first, then debit. *)
Definition sendAll (from beneficiary : Address) (balance : Z) : M (EVM DB) unit :=
  let! e := gget in
  do! gwhen (IsEIP7708 (forkRules (config e)))
        (if negb (beneficiary =? from) then EmitTransferLog from beneficiary balance
         else EmitBurnLog from balance) in
  let! preBen := readDB (fun db => GetBalance db beneficiary) in
  do! mutDB (MAddBalance beneficiary balance) in
  do! mutDB (MSubBalance from balance) in
  let! postSelf := readDB (fun db => GetBalance db from) in
  do! record (RecordBalanceChange from balance postSelf) in
  let! postBen := readDB (fun db => GetBalance db beneficiary) in
  gwhen (negb (beneficiary =? from)) (record (RecordBalanceChange beneficiary preBen postBen)).

Definition opSelfdestruct : executionFunc :=
  do! writeGuard in
  let! b := Pop in
  let beneficiary := bigToAddress b in
  ifDB
    (let! a := self in
     let! balance := liftE (readDB (fun db => GetBalance db a)) in
     do! gwhen (Z.sgn balance >? 0) (liftE (sendAll a beneficiary balance)) in done)
    done.

(** *** Calls *)

(** [contract.Gas += g] *)
Definition addGas (g : Z) : G unit :=
  gmodify (fun s => set_ctr (set_Gas (Gas (ctr s) +u g) (ctr s)) s).

(** What every call opcode does with the result: refund the unused gas, push
    the status, keep the return data and copy it to memory on success or
    REVERT. *)
Definition finishCall (r : bytes * Z * option vmerr) (retOffset retSize : Z) : executionFunc :=
  let '(ret, returnGas, err) := r in
  do! addGas returnGas in
  do! Push (match err with Some _ => 0 | None => 1 end) in
  do! liftE (gmodify (set_returnData ret)) in
  if (match err with Some er => is_revert er | None => true end)
     && (Uint64 retSize >? 0) && (zlen ret >? 0)
  then
    let retLen := if zlen ret <? Uint64 retSize then zlen ret else Uint64 retSize in
    do! MemSet (Uint64 retOffset) retLen (take (Z.to_nat retLen) ret) in done
  else done.

(** Pop gas and address, recording the touch. *)
Definition popCallee : G Address :=
  do! Pop in
  let! a := Pop in
  let addr := bigToAddress a in
  do! touch addr in
  gret addr.

(** Pop the four memory operands: input window and return window. *)
Definition popWindows : G (bytes * Z * Z) :=
  let! inOffset := Pop in
  let! inSize := Pop in
  let! retOffset := Pop in
  let! retSize := Pop in
  let! args := memWindow inOffset inSize in
  gret (args, retOffset, retSize).

(** The pre-computed call gas, with the stipend for a value transfer. *)
Definition callGasFor (value : Z) : G Z :=
  let! s := gget in
  gret (if Z.sgn value >? 0 then callGasTemp (evm s) +u CallStipend else callGasTemp (evm s)).

Definition opCall : executionFunc :=
  let! addr := popCallee in
  let! value := Pop in
  let! '(args, retOffset, retSize) := popWindows in
  let! gas := callGasFor value in
  let! s := gget in
  do! liftE (gmodify (set_reservoirForward (StateGasReservoir (ctr s)))) in
  do! gmodify (fun s => set_ctr (set_Reservoir 0 (ctr s)) s) in
  let! r := liftE (Call PrecompiledContractsCancun RunPrecompileGuestProgram Run
                     (caddr (ctr s)) addr args gas (Some value)) in
  do! gmodify (fun s => set_ctr (set_Reservoir (StateGasReservoir (ctr s)
                                               +u callReservoirReturn (evm s)) (ctr s)) s) in
  do! liftE (gmodify (set_reservoirReturn 0)) in
  finishCall r retOffset retSize.

Definition opCallCode : executionFunc :=
  let! addr := popCallee in
  let! value := Pop in
  let! '(args, retOffset, retSize) := popWindows in
  let! gas := callGasFor value in
  let! a := self in
  let! r := liftE (CallCode PrecompiledContractsCancun Run a addr args gas (Some value)) in
  finishCall r retOffset retSize.

Definition opDelegateCall : executionFunc :=
  let! addr := popCallee in
  let! '(args, retOffset, retSize) := popWindows in
  let! s := gget in
  let! r := liftE (DelegateCall PrecompiledContractsCancun Run
                     (CallerAddress (ctr s)) addr args (callGasTemp (evm s))) in
  finishCall r retOffset retSize.

Definition opStaticCall : executionFunc :=
  let! addr := popCallee in
  let! '(args, retOffset, retSize) := popWindows in
  let! s := gget in
  let! r := liftE (StaticCall PrecompiledContractsCancun Run
                     (caddr (ctr s)) addr args (callGasTemp (evm s))) in
  finishCall r retOffset retSize.

(** [gas := contract.Gas; contract.Gas = 0] *)
Definition takeGas : G Z :=
  let! s := gget in
  do! gmodify (fun s => set_ctr (set_Gas 0 (ctr s)) s) in
  gret (Gas (ctr s)).

Definition finishCreate (r : bytes * Address * Z * option vmerr) : executionFunc :=
  let '(ret, addr, returnGas, err) := r in
  do! addGas returnGas in
  do! liftE (gmodify (set_returnData ret)) in
  match err with
  | Some _ => do! Push 0 in done
  | None =>
      do! touch addr in
      do! Push (addr_word addr) in done
  end.

Definition opCreate : executionFunc :=
  do! writeGuard in
  let! value := Pop in
  let! offset := Pop in
  let! size := Pop in
  let! initCode := memWindow offset size in
  let! gas := takeGas in
  let! a := self in
  let! r := liftE (Create keccak256 Run a initCode gas (Some value)) in
  finishCreate r.

Definition opCreate2 : executionFunc :=
  do! writeGuard in
  let! value := Pop in
  let! offset := Pop in
  let! size := Pop in
  let! salt := Pop in
  let! initCode := memWindow offset size in
  let! gas := takeGas in
  let! a := self in
  let! r := liftE (Create2 keccak256 Run a initCode gas (Some value) salt) in
  finishCreate r.

(** *** RVCREATE (opcode_rvcreate.go) *)

(** [make([]byte, 85)] filled by [copy]: salt and hash take 32 bytes each. *)
Definition rvCreateAddress (from : Address) (initcode : bytes) : Address :=
  let salt := keccak256 ([0xFE; 0x52; 0x56] ++ initcode) in
  let codeHash := keccak256 initcode in
  let buf := [0xff] ++ be_bytes 20 from ++ go_copy (zeros 32) salt ++ go_copy (zeros 32) codeHash in
  BytesToAddress (drop 12 (keccak256 buf)).

(** The best-effort registration in the guest registry has no effect on the
    EVM and is left out. *)
Definition rvDeploy (a addr : Address) (initCode : bytes) (value : Z) : M (EVM DB) bool :=
  let! ex := readDB (fun db => Exist db addr) in
  do! gwhen (negb ex) (mutDB (MCreateAccount addr)) in
  do! mutDB (MSetCode addr initCode) in
  if Z.sgn value >? 0 then
    let! b := readDB (fun db => GetBalance db a) in
    if b <? value then gret false
    else
      do! mutDB (MSubBalance a value) in
      do! mutDB (MAddBalance addr value) in
      gret true
  else gret true.

Definition opRVCreate : executionFunc :=
  do! writeGuard in
  let! value := Pop in
  let! offset := Pop in
  let! size := Pop in
  let! initCode := memWindow offset size in
  if negb (IsRVCode initCode) then do! Push 0 in done
  else
    let! a := self in
    let addr := rvCreateAddress a initCode in
    if (zlen initCode <? 4) || negb (zlen initCode mod 4 =? 0) then do! Push 0 in done
    else
      ifDB
        (let! ok := liftE (rvDeploy a addr initCode value) in
         if negb ok then do! Push 0 in done
         else
           do! touch addr in
           do! Push (addr_word addr) in done)
        (do! Push 0 in done).

(** *** Frame transactions (eip8141_opcodes.go) *)

Definition FrameModeVerify : Z := 1.

Definition set_approveCall (scope : Z) (fc : FrameContext) : FrameContext :=
  mkFrameContext (SenderApproved fc) (PayerApproved fc) scope true
    (TxType fc) (FNonce fc) (Sender fc) (MaxPriorityFee fc) (MaxFee fc) (MaxBlobFee fc)
    (MaxCost fc) (BlobCount fc) (SigHash fc) (Frames fc) (CurrentFrameIndex fc).

Definition set_approved (sender payer : bool) (fc : FrameContext) : FrameContext :=
  mkFrameContext sender payer (LastApproveScope fc) (ApproveCalledThisFrame fc)
    (TxType fc) (FNonce fc) (Sender fc) (MaxPriorityFee fc) (MaxFee fc) (MaxBlobFee fc)
    (MaxCost fc) (BlobCount fc) (SigHash fc) (Frames fc) (CurrentFrameIndex fc).

Definition putFrameCtx (fc : FrameContext) : G unit := liftE (gmodify (set_FrameCtx (Some fc))).

(** [evm.StateDB != nil && fc.MaxCost != nil && balance < fc.MaxCost] *)
Definition cannotPay (fc : FrameContext) (a : Address) : G bool :=
  ifDB (let! balance := liftE (readDB (fun db => GetBalance db a)) in
        gret (match MaxCost fc with Some c => balance <? c | None => false end))
       (gret false).

Definition approveScope (fc : FrameContext) (scopeVal : Z) : G unit :=
  let! s := gget in
  let a := caddr (ctr s) in
  if scopeVal =? 0 then
    if SenderApproved fc then gfail ErrAlreadyApproved []
    else if negb (CallerAddress (ctr s) =? Sender fc) then gfail ErrCallerNotSender []
    else putFrameCtx (set_approved true (PayerApproved fc) fc)
  else if scopeVal =? 1 then
    if PayerApproved fc then gfail ErrAlreadyApproved []
    else if negb (SenderApproved fc) then gfail ErrSenderNotApproved []
    else
      let! poor := cannotPay fc a in
      if (poor : bool) then gfail ErrInsufficientBalance []
      else putFrameCtx (set_approved (SenderApproved fc) true fc)
  else
    if SenderApproved fc || PayerApproved fc then gfail ErrAlreadyApproved []
    else if negb (CallerAddress (ctr s) =? Sender fc) then gfail ErrCallerNotSender []
    else
      let! poor := cannotPay fc a in
      if (poor : bool) then gfail ErrInsufficientBalance []
      else putFrameCtx (set_approved true true fc).

Definition withFrameCtx {A} (k : FrameContext -> G A) : G A :=
  let! s := gget in
  match FrameCtx (evm s) with
  | None => gfail ErrNoFrameContext []
  | Some fc => k fc
  end.

Definition opApprove : executionFunc :=
  let! offset := Pop in
  let! length := Pop in
  let! scope := Pop in
  withFrameCtx (fun fc =>
    let scopeVal := Uint64 scope in
    if scopeVal >? 2 then gfail ErrInvalidApproveScope []
    else
      let fc := set_approveCall scopeVal fc in
      do! putFrameCtx fc in
      let! a := self in
      match go_index (Frames fc) (CurrentFrameIndex fc) with
      | None => gfail ErrFrameIndexOutOfBounds []
      | Some f =>
          if negb (a =? Target f) then gfail ErrCallerNotFrameTarget []
          else
            do! approveScope fc scopeVal in
            memWindow offset length
      end).

(** Parameters without an index: [in2] must be zero. *)
Definition fixedParam (in2 : Z) (m : G bytes) : G bytes :=
  if negb (in2 =? 0) then gfail ErrTxParamIn2MustBeZero [] else m.

Definition bigParam (v : option Z) : G bytes :=
  match v with
  | Some n => gopt PSlice (pad32 (Bytes n))
  | None => gret (zeros 32)
  end.

Definition frameParam (fc : FrameContext) (in2 : Z) (k : Frame -> G bytes) : G bytes :=
  match go_index (Frames fc) in2 with
  | None => gfail ErrFrameIndexOutOfBounds []
  | Some f => k f
  end.

(** [txParamValue]; a nil slice is the empty one (its users do not
    distinguish them). *)
Definition txParamValue (fc : FrameContext) (in1 in2 : Z) : G bytes :=
  if in1 =? 0x00 then fixedParam in2 (gret (be_bytes 32 (TxType fc)))
  else if in1 =? 0x01 then fixedParam in2 (bigParam (FNonce fc))
  else if in1 =? 0x02 then fixedParam in2 (gret (zeros 12 ++ be_bytes 20 (Sender fc)))
  else if in1 =? 0x03 then fixedParam in2 (bigParam (MaxPriorityFee fc))
  else if in1 =? 0x04 then fixedParam in2 (bigParam (MaxFee fc))
  else if in1 =? 0x05 then fixedParam in2 (bigParam (MaxBlobFee fc))
  else if in1 =? 0x06 then fixedParam in2 (bigParam (MaxCost fc))
  else if in1 =? 0x07 then fixedParam in2 (gret (be_bytes 32 (BlobCount fc)))
  else if in1 =? 0x08 then fixedParam in2 (gret (be_bytes 32 (SigHash fc)))
  else if in1 =? 0x09 then fixedParam in2 (gret (be_bytes 32 (zlen (Frames fc))))
  else if in1 =? 0x10 then fixedParam in2 (gret (be_bytes 32 (CurrentFrameIndex fc)))
  else if in1 =? 0x11 then
    frameParam fc in2 (fun f => gret (zeros 12 ++ be_bytes 20 (Target f)))
  else if in1 =? 0x12 then
    frameParam fc in2 (fun f => gret (if Mode f =? FrameModeVerify then [] else FData f))
  else if in1 =? 0x13 then frameParam fc in2 (fun f => gret (be_bytes 32 (FGasLimit f)))
  else if in1 =? 0x14 then frameParam fc in2 (fun f => gret (be_bytes 32 (Mode f)))
  else if in1 =? 0x15 then
    frameParam fc in2 (fun f =>
      if in2 >=? CurrentFrameIndex fc then gfail ErrFrameIndexOutOfBounds []
      else gret (be_bytes 32 (Status f)))
  else gfail ErrInvalidTxParamIndex [].

Definition txParamSize (fc : FrameContext) (in1 in2 : Z) : G Z :=
  if (in1 <=? 0x09) || (in1 =? 0x10) then
    if negb (in2 =? 0) then gfail ErrTxParamIn2MustBeZero [] else gret 32
  else if (in1 =? 0x11) || (in1 =? 0x13) || (in1 =? 0x14) || (in1 =? 0x15) then
    if in2 >=? zlen (Frames fc) then gfail ErrFrameIndexOutOfBounds []
    else if (in1 =? 0x15) && (in2 >=? CurrentFrameIndex fc)
    then gfail ErrFrameIndexOutOfBounds []
    else gret 32
  else if in1 =? 0x12 then
    match go_index (Frames fc) in2 with
    | None => gfail ErrFrameIndexOutOfBounds []
    | Some f => gret (if Mode f =? FrameModeVerify then 0 else u64 (zlen (FData f)))
    end
  else gfail ErrInvalidTxParamIndex [].

Definition opTxParamLoad : executionFunc :=
  let! in1 := Pop in
  let! in2 := Pop in
  withFrameCtx (fun fc =>
    let! val := txParamValue fc (Uint64 in1) (Uint64 in2) in
    do! Push (if zlen val <=? 32 then SetBytes (zeros (32 - zlen val) ++ val)
              else SetBytes (take 32 val)) in done).

Definition opTxParamSize : executionFunc :=
  let! in1 := Pop in
  let! in2 := Pop in
  withFrameCtx (fun fc =>
    let! size := txParamSize fc (Uint64 in1) (Uint64 in2) in
    do! Push size in done).

Definition opTxParamCopy : executionFunc :=
  let! in1 := Pop in
  let! in2 := Pop in
  let! destOffset := Pop in
  let! dataOffset := Pop in
  let! length := Pop in
  withFrameCtx (fun fc =>
    let l := Uint64 length in
    if l =? 0 then done
    else
      let! val := txParamValue fc (Uint64 in1) (Uint64 in2) in
      do! MemSet (Uint64 destOffset) l (getData val (Uint64 dataOffset) l) in done).

End Instructions.
