(* ===== verification/JumpTable.v ===== *)
(** * JumpTable: operations and the per-fork jump tables

    pkg/core/vm/jump_table.go (and the opcode numbers of opcodes.go).  A
    [JumpTable] is a map from opcodes to operations; a missing entry is the
    nil pointer of the Go array.  Each fork's table updates its
    predecessor's. *)

From S2P Require Import Prelude StateDB Machine Calls GasTable Witness Instructions.

(** ** Opcodes *)

Definition ADD : Z := 0x01.
Definition MUL : Z := 0x02.
Definition SUB : Z := 0x03.
Definition DIV : Z := 0x04.
Definition SDIV : Z := 0x05.
Definition MOD : Z := 0x06.
Definition SMOD : Z := 0x07.
Definition ADDMOD : Z := 0x08.
Definition MULMOD : Z := 0x09.
Definition EXP : Z := 0x0a.
Definition SIGNEXTEND : Z := 0x0b.
Definition LT : Z := 0x10.
Definition GT : Z := 0x11.
Definition SLT : Z := 0x12.
Definition SGT : Z := 0x13.
Definition EQ : Z := 0x14.
Definition ISZERO : Z := 0x15.
Definition AND : Z := 0x16.
Definition OR : Z := 0x17.
Definition XOR : Z := 0x18.
Definition NOT : Z := 0x19.
Definition BYTE : Z := 0x1a.
Definition SHL : Z := 0x1b.
Definition SHR : Z := 0x1c.
Definition SAR : Z := 0x1d.
Definition CLZ : Z := 0x1e.
Definition KECCAK256 : Z := 0x20.
Definition ADDRESS : Z := 0x30.
Definition BALANCE : Z := 0x31.
Definition ORIGIN : Z := 0x32.
Definition CALLER : Z := 0x33.
Definition CALLVALUE : Z := 0x34.
Definition CALLDATALOAD : Z := 0x35.
Definition CALLDATASIZE : Z := 0x36.
Definition CALLDATACOPY : Z := 0x37.
Definition CODESIZE : Z := 0x38.
Definition CODECOPY : Z := 0x39.
Definition GASPRICE : Z := 0x3a.
Definition EXTCODESIZE : Z := 0x3b.
Definition EXTCODECOPY : Z := 0x3c.
Definition RETURNDATASIZE : Z := 0x3d.
Definition RETURNDATACOPY : Z := 0x3e.
Definition EXTCODEHASH : Z := 0x3f.
Definition BLOCKHASH : Z := 0x40.
Definition COINBASE : Z := 0x41.
Definition TIMESTAMP : Z := 0x42.
Definition NUMBER : Z := 0x43.
Definition PREVRANDAO : Z := 0x44.
Definition GASLIMIT : Z := 0x45.
Definition CHAINID : Z := 0x46.
Definition SELFBALANCE : Z := 0x47.
Definition BASEFEE : Z := 0x48.
Definition BLOBHASH : Z := 0x49.
Definition BLOBBASEFEE : Z := 0x4a.
Definition SLOTNUM : Z := 0x4b.
Definition POP : Z := 0x50.
Definition MLOAD : Z := 0x51.
Definition MSTORE : Z := 0x52.
Definition MSTORE8 : Z := 0x53.
Definition SLOAD : Z := 0x54.
Definition SSTORE : Z := 0x55.
Definition JUMP : Z := 0x56.
Definition JUMPI : Z := 0x57.
Definition PC : Z := 0x58.
Definition MSIZE : Z := 0x59.
Definition GAS : Z := 0x5a.
Definition TLOAD : Z := 0x5c.
Definition TSTORE : Z := 0x5d.
Definition MCOPY : Z := 0x5e.
Definition PUSH0 : Z := 0x5f.
Definition DUP1 : Z := 0x80.
Definition SWAP1 : Z := 0x90.
Definition LOG0 : Z := 0xa0.
Definition LOG1 : Z := 0xa1.
Definition LOG2 : Z := 0xa2.
Definition LOG3 : Z := 0xa3.
Definition LOG4 : Z := 0xa4.
Definition APPROVE : Z := 0xaa.
Definition TXPARAMLOAD : Z := 0xb0.
Definition TXPARAMSIZE : Z := 0xb1.
Definition TXPARAMCOPY : Z := 0xb2.
Definition CREATE : Z := 0xf0.
Definition CALL : Z := 0xf1.
Definition CALLCODE : Z := 0xf2.
Definition RETURN : Z := 0xf3.
Definition DELEGATECALL : Z := 0xf4.
Definition CREATE2 : Z := 0xf5.
Definition RVCREATE : Z := 0xf6.
Definition STATICCALL : Z := 0xfa.
Definition REVERT : Z := 0xfd.
Definition INVALID : Z := 0xfe.
Definition SELFDESTRUCT : Z := 0xff.
Definition DUPN : Z := 0xe6.
Definition SWAPN : Z := 0xe7.
Definition EXCHANGE : Z := 0xe8.

Section JumpTable.

Context {DB : Type} `{StateDB DB}.
Context (keccak256 : bytes -> bytes).
Context (PrecompiledContractsCancun : gmap Z PrecompiledContract).
Context (RunPrecompileGuestProgram : bytes -> bytes -> Z -> bytes * option vmerr).
Context (Run : Contract -> bytes -> M (EVM DB) (Contract * bytes * option vmerr)).

Abbreviation G := (M (mstate DB)).

Record operation := mkOp {
  execute : G bytes;
  constantGas : Z;
  dynamicGas : option (Z -> G Z);
  minStack : nat;
  maxStack : nat;
  memorySize : option (G (option Z));
  halts : bool;
  jumps : bool;
  writes : bool;
}.

(** Building an operation field by field, as the composite literals do. *)
Definition op (ex : G bytes) (gas : Z) (min max : nat) : operation :=
  mkOp ex gas None min max None false false false.
Definition dyn (d : Z -> G Z) (o : operation) : operation :=
  mkOp (execute o) (constantGas o) (Some d) (minStack o) (maxStack o) (memorySize o)
    (halts o) (jumps o) (writes o).
Definition memf (m : G (option Z)) (o : operation) : operation :=
  mkOp (execute o) (constantGas o) (dynamicGas o) (minStack o) (maxStack o) (Some m)
    (halts o) (jumps o) (writes o).
Definition halting (o : operation) : operation :=
  mkOp (execute o) (constantGas o) (dynamicGas o) (minStack o) (maxStack o) (memorySize o)
    true (jumps o) (writes o).
Definition jumping (o : operation) : operation :=
  mkOp (execute o) (constantGas o) (dynamicGas o) (minStack o) (maxStack o) (memorySize o)
    (halts o) true (writes o).
Definition writing (o : operation) : operation :=
  mkOp (execute o) (constantGas o) (dynamicGas o) (minStack o) (maxStack o) (memorySize o)
    (halts o) (jumps o) true.

Abbreviation JumpTable := (gmap Z operation).

(** A sequence of assignments [tbl[opcode] = operation]. *)
Definition assign (l : list (Z * operation)) (t : JumpTable) : JumpTable :=
  fold_left (fun t p => <[p.1 := p.2]> t) l t.

(** The operations that run other contracts. *)
Abbreviation call := (opCall PrecompiledContractsCancun RunPrecompileGuestProgram Run).
Abbreviation callCode := (opCallCode PrecompiledContractsCancun Run).
Abbreviation delegateCall := (opDelegateCall PrecompiledContractsCancun Run).
Abbreviation staticCall := (opStaticCall PrecompiledContractsCancun Run).
Abbreviation create_ := (opCreate keccak256 Run).
Abbreviation create2 := (opCreate2 keccak256 Run).

Open Scope nat_scope.

(** ** Tables *)

(** The loops of [NewFrontierJumpTable] over PUSH2..PUSH32, DUP1..DUP16,
    SWAP1..SWAP16 and LOG0..LOG4. *)
Definition pushOps : list (Z * operation) :=
  (fun i => ((PUSH1 + (Z.of_nat i - 1))%Z, op (makePush (Z.of_nat i)) GasPush 0 1023)) <$> seq 2 31.
Definition dupOps : list (Z * operation) :=
  (fun i => ((DUP1 + (Z.of_nat i - 1))%Z, op (makeDup i) GasDup i 1023)) <$> seq 1 16.
Definition swapOps : list (Z * operation) :=
  (fun i => ((SWAP1 + (Z.of_nat i - 1))%Z, op (makeSwap i) GasSwap (i + 1) 1024)) <$> seq 1 16.
Definition logOps : list (Z * operation) :=
  (fun n => ((LOG0 + Z.of_nat n)%Z,
    writing (memf memoryLog (dyn (makeGasLog (Z.of_nat n)) (op (makeLog n) GasLog (2 + n) 1024)))))
  <$> seq 0 5.

Definition frontierOps : list (Z * operation) :=
  [ (STOP, halting (op opStop GasStop 0 1024));
    (ADD, op opAdd GasVerylow 2 1024);
    (MUL, op opMul GasVerylow 2 1024);
    (SUB, op opSub GasVerylow 2 1024);
    (DIV, op opDiv GasLow 2 1024);
    (SDIV, op opSdiv GasLow 2 1024);
    (MOD, op opMod GasLow 2 1024);
    (SMOD, op opSmod GasLow 2 1024);
    (ADDMOD, op opAddmod GasMid 3 1024);
    (MULMOD, op opMulmod GasMid 3 1024);
    (EXP, dyn gasExp (op opExp GasHigh 2 1024));
    (SIGNEXTEND, op opSignExtend GasLow 2 1024);
    (LT, op opLt GasVerylow 2 1024);
    (GT, op opGt GasVerylow 2 1024);
    (SLT, op opSlt GasVerylow 2 1024);
    (SGT, op opSgt GasVerylow 2 1024);
    (EQ, op opEq GasVerylow 2 1024);
    (ISZERO, op opIsZero GasVerylow 1 1024);
    (AND, op opAnd GasVerylow 2 1024);
    (OR, op opOr GasVerylow 2 1024);
    (XOR, op opXor GasVerylow 2 1024);
    (NOT, op opNot GasVerylow 1 1024);
    (BYTE, op opByte GasVerylow 2 1024);
    (ADDRESS, op opAddress GasBase 0 1023);
    (ORIGIN, op opOrigin GasBase 0 1023);
    (CALLER, op opCaller GasBase 0 1023);
    (CALLVALUE, op opCallValue GasBase 0 1023);
    (CALLDATALOAD, op opCalldataLoad GasVerylow 1 1024);
    (CALLDATASIZE, op opCalldataSize GasBase 0 1023);
    (CALLDATACOPY, memf memoryCalldataCopy (dyn gasCopy (op opCalldataCopy GasVerylow 3 1024)));
    (CODESIZE, op opCodeSize GasBase 0 1023);
    (CODECOPY, memf memoryCodeCopy (dyn gasCopy (op opCodeCopy GasVerylow 3 1024)));
    (GASPRICE, op opGasPrice GasBase 0 1023);
    (BLOCKHASH, op opBlockhash GasExt 1 1024);
    (COINBASE, op opCoinbase GasBase 0 1023);
    (TIMESTAMP, op opTimestamp GasBase 0 1023);
    (NUMBER, op opNumber GasBase 0 1023);
    (PREVRANDAO, op opPrevRandao GasBase 0 1023);
    (GASLIMIT, op opGasLimit GasBase 0 1023);
    (POP, op opPop GasPop 1 1024);
    (MLOAD, memf memoryMload (dyn gasMemExpansion (op opMload GasMload 1 1024)));
    (MSTORE, memf memoryMstore (dyn gasMemExpansion (op opMstore GasMstore 2 1024)));
    (MSTORE8, memf memoryMstore8 (dyn gasMemExpansion (op opMstore8 GasMstore8 2 1024)));
    (JUMP, jumping (op opJump GasJump 1 1024));
    (JUMPI, jumping (op opJumpi GasJumpi 2 1024));
    (PC, op opPc GasPc 0 1023);
    (MSIZE, op opMsize GasMsize 0 1023);
    (GAS, op opGas GasGas 0 1023);
    (JUMPDEST, op opJumpdest GasJumpDest 0 1024);
    (PUSH1, op opPush1 GasPush 0 1023);
    (KECCAK256, memf memoryKeccak256 (dyn gasSha3 (op (opKeccak256 keccak256) GasKeccak256 2 1024)));
    (BALANCE, op opBalance GasBalanceFrontier 1 1024);
    (SLOAD, op opSload GasSloadFrontier 1 1024);
    (SSTORE, writing (op opSstore GasSstoreSet 2 1024));
    (EXTCODESIZE, op opExtcodesize GasExtcodeSizeFrontier 1 1024);
    (EXTCODECOPY, memf memoryExtcodecopy (dyn gasExtCodeCopyCopy (op opExtcodecopy GasExtcodeCopyFrontier 4 1024)));
    (CALL, memf memoryCall (dyn gasCallFrontier (op call GasCallFrontier 7 1024)));
    (CALLCODE, memf memoryCallCode (dyn gasCallCodeFrontier (op callCode GasCallFrontier 7 1024)));
    (CREATE, writing (memf memoryCreate (dyn gasCreateDynamic (op create_ GasCreate 3 1024))));
    (RETURN, halting (memf memoryReturn (dyn gasMemExpansion (op opReturn GasReturn 2 1024))));
    (INVALID, op opInvalid 0 0 1024);
    (SELFDESTRUCT, writing (halting (dyn gasSelfdestructFrontier (op opSelfdestruct GasSelfdestruct 1 1024)))) ].

Definition NewFrontierJumpTable : JumpTable :=
  assign (frontierOps ++ pushOps ++ dupOps ++ swapOps ++ logOps) ∅.

Definition homesteadOps : list (Z * operation) :=
  [ (DELEGATECALL, memf memoryDelegateCall (dyn gasMemExpansion (op delegateCall GasCallFrontier 6 1024))) ].

Definition NewHomesteadJumpTable : JumpTable := assign homesteadOps NewFrontierJumpTable.

Definition tangerineWhistleOps : list (Z * operation) :=
  [ (BALANCE, op opBalance GasBalanceEIP150 1 1024);
    (SLOAD, op opSload GasSloadEIP150 1 1024);
    (EXTCODESIZE, op opExtcodesize GasExtcodeSizeEIP150 1 1024);
    (EXTCODECOPY, memf memoryExtcodecopy (dyn gasExtCodeCopyCopy (op opExtcodecopy GasExtcodeCopyEIP150 4 1024)));
    (CALL, memf memoryCall (dyn gasCallFrontier (op call GasCallEIP150 7 1024)));
    (CALLCODE, memf memoryCallCode (dyn gasCallCodeFrontier (op callCode GasCallEIP150 7 1024)));
    (DELEGATECALL, memf memoryDelegateCall (dyn gasMemExpansion (op delegateCall GasCallEIP150 6 1024))) ].

Definition NewTangerineWhistleJumpTable : JumpTable := assign tangerineWhistleOps NewHomesteadJumpTable.

Definition NewSpuriousDragonJumpTable : JumpTable := NewTangerineWhistleJumpTable.

Definition byzantiumOps : list (Z * operation) :=
  [ (REVERT, halting (memf memoryReturn (dyn gasMemExpansion (op opRevert GasRevert 2 1024))));
    (RETURNDATASIZE, op opReturndataSize GasBase 0 1023);
    (RETURNDATACOPY, memf memoryReturndataCopy (dyn gasCopy (op opReturndataCopy GasVerylow 3 1024)));
    (STATICCALL, memf memoryStaticCall (dyn gasMemExpansion (op staticCall GasCallEIP150 6 1024))) ].

Definition NewByzantiumJumpTable : JumpTable := assign byzantiumOps NewSpuriousDragonJumpTable.

Definition constantinopleOps : list (Z * operation) :=
  [ (SHL, op opSHL GasVerylow 2 1024);
    (SHR, op opSHR GasVerylow 2 1024);
    (SAR, op opSAR GasVerylow 2 1024);
    (EXTCODEHASH, op opExtcodehash GasExtcodeHashConst 1 1024);
    (CREATE2, writing (memf memoryCreate2 (dyn gasCreate2Dynamic (op create2 GasCreate 4 1024)))) ].

Definition NewConstantinopleJumpTable : JumpTable := assign constantinopleOps NewByzantiumJumpTable.

Definition istanbulOps : list (Z * operation) :=
  [ (CHAINID, op opChainID GasBase 0 1023);
    (SELFBALANCE, op opSelfBalance GasLow 0 1023);
    (BALANCE, op opBalance GasBalanceEIP1884 1 1024);
    (SLOAD, op opSload GasSloadEIP1884 1 1024);
    (EXTCODEHASH, op opExtcodehash GasExtcodeHashIstanbul 1 1024) ].

Definition NewIstanbulJumpTable : JumpTable := assign istanbulOps NewConstantinopleJumpTable.

Definition berlinOps : list (Z * operation) :=
  [ (SLOAD, dyn gasSloadEIP2929 (op opSload WarmStorageReadCost 1 1024));
    (BALANCE, dyn gasBalanceEIP2929 (op opBalance WarmStorageReadCost 1 1024));
    (EXTCODESIZE, dyn gasExtCodeSizeEIP2929 (op opExtcodesize WarmStorageReadCost 1 1024));
    (EXTCODECOPY, memf memoryExtcodecopy (dyn gasExtCodeCopyEIP2929 (op opExtcodecopy WarmStorageReadCost 4 1024)));
    (EXTCODEHASH, dyn gasExtCodeHashEIP2929 (op opExtcodehash WarmStorageReadCost 1 1024));
    (CALL, memf memoryCall (dyn gasCallEIP2929 (op call WarmStorageReadCost 7 1024)));
    (CALLCODE, memf memoryCallCode (dyn gasCallCodeEIP2929 (op callCode WarmStorageReadCost 7 1024)));
    (STATICCALL, memf memoryStaticCall (dyn gasStaticCallEIP2929 (op staticCall WarmStorageReadCost 6 1024)));
    (DELEGATECALL, memf memoryDelegateCall (dyn gasDelegateCallEIP2929 (op delegateCall WarmStorageReadCost 6 1024)));
    (SSTORE, writing (dyn gasSstoreEIP2929 (op opSstore 0 2 1024)));
    (SELFDESTRUCT, writing (halting (dyn gasSelfdestructEIP2929 (op opSelfdestruct GasSelfdestruct 1 1024)))) ].

Definition NewBerlinJumpTable : JumpTable := assign berlinOps NewIstanbulJumpTable.

Definition londonOps : list (Z * operation) :=
  [ (BASEFEE, op opBaseFee GasBase 0 1023) ].

Definition NewLondonJumpTable : JumpTable := assign londonOps NewBerlinJumpTable.

Definition NewMergeJumpTable : JumpTable := NewLondonJumpTable.

Definition shanghaiOps : list (Z * operation) :=
  [ (PUSH0, op opPush0 GasPush0 0 1023) ].

Definition NewShanghaiJumpTable : JumpTable := assign shanghaiOps NewMergeJumpTable.

Definition cancunOps : list (Z * operation) :=
  [ (TLOAD, op opTload GasTload 1 1024);
    (TSTORE, writing (op opTstore GasTstore 2 1024));
    (MCOPY, memf memoryMcopy (dyn gasMcopy (op opMcopy GasMcopyBase 3 1024)));
    (BLOBHASH, op opBlobHash GasBlobHash 1 1024);
    (BLOBBASEFEE, op opBlobBaseFee GasBlobBaseFee 0 1023) ].

Definition NewCancunJumpTable : JumpTable := assign cancunOps NewShanghaiJumpTable.

Definition NewPragueJumpTable : JumpTable := NewCancunJumpTable.

Definition glamsterdanOps : list (Z * operation) :=
  [ (DIV, op opDiv GasDivGlamsterdan 2 1024);
    (SDIV, op opSdiv GasSdivGlamsterdan 2 1024);
    (MOD, op opMod GasModGlamsterdan 2 1024);
    (MULMOD, op opMulmod GasMulmodGlamsterdan 3 1024);
    (KECCAK256, memf memoryKeccak256 (dyn gasSha3 (op (opKeccak256 keccak256) GasKeccak256Glamsterdan 2 1024)));
    (SLOAD, dyn gasSloadGlamst (op opSload WarmStorageReadGlamst 1 1024));
    (BALANCE, dyn gasBalanceGlamst (op opBalance WarmStorageReadGlamst 1 1024));
    (EXTCODESIZE, dyn gasExtCodeSizeGlamst (op opExtcodesize WarmStorageReadGlamst 1 1024));
    (EXTCODECOPY, memf memoryExtcodecopy (dyn gasExtCodeCopyGlamst (op opExtcodecopy WarmStorageReadGlamst 4 1024)));
    (EXTCODEHASH, dyn gasExtCodeHashGlamst (op opExtcodehash WarmStorageReadGlamst 1 1024));
    (SSTORE, writing (dyn gasSstoreGlamst (op opSstoreGlamst 0 2 1024)));
    (CALL, memf memoryCall (dyn gasCallGlamst (op call WarmStorageReadGlamst 7 1024)));
    (CALLCODE, memf memoryCallCode (dyn gasCallCodeGlamst (op callCode WarmStorageReadGlamst 7 1024)));
    (STATICCALL, memf memoryStaticCall (dyn gasStaticCallGlamst (op staticCall WarmStorageReadGlamst 6 1024)));
    (DELEGATECALL, memf memoryDelegateCall (dyn gasDelegateCallGlamst (op delegateCall WarmStorageReadGlamst 6 1024)));
    (SELFDESTRUCT, writing (halting (dyn gasSelfdestructGlamst (op opSelfdestruct GasSelfdestruct 1 1024))));
    (SLOTNUM, op opSlotNum GasBase 0 1023);
    (CLZ, op opCLZ GasLow 1 1024);
    (DUPN, op opDupN GasVerylow 1 1023);
    (SWAPN, op opSwapN GasVerylow 2 1024);
    (EXCHANGE, op opExchange GasVerylow 2 1024);
    (APPROVE, halting (memf memoryApprove (dyn gasMemExpansion (op opApprove GasLow 3 1024))));
    (TXPARAMLOAD, op opTxParamLoad GasBase 2 1024);
    (TXPARAMSIZE, op opTxParamSize GasBase 2 1024);
    (TXPARAMCOPY, memf memoryTxParamCopy (dyn gasMemExpansion (op opTxParamCopy GasVerylow 5 1024))) ].

Definition NewGlamsterdanJumpTable : JumpTable := assign glamsterdanOps NewPragueJumpTable.

Definition verkleOps : list (Z * operation) :=
  [ (SLOAD, dyn gasSloadEIP4762 (op opSload 0 1 1024));
    (SSTORE, writing (dyn gasSstoreEIP4762 (op opSstore 0 2 1024)));
    (BALANCE, dyn gasBalanceEIP4762 (op opBalance 0 1 1024));
    (EXTCODESIZE, dyn gasExtCodeSizeEIP4762 (op opExtcodesize 0 1 1024));
    (EXTCODECOPY, memf memoryExtcodecopy (dyn gasExtCodeCopyEIP4762 (op opExtcodecopy 0 4 1024)));
    (EXTCODEHASH, dyn gasExtCodeHashEIP4762 (op opExtcodehash 0 1 1024));
    (CALL, memf memoryCall (dyn gasCallEIP4762 (op call 0 7 1024)));
    (CALLCODE, memf memoryCallCode (dyn gasCallCodeEIP4762 (op callCode 0 7 1024)));
    (DELEGATECALL, memf memoryDelegateCall (dyn gasDelegateCallEIP4762 (op delegateCall 0 6 1024)));
    (STATICCALL, memf memoryStaticCall (dyn gasStaticCallEIP4762 (op staticCall 0 6 1024)));
    (SELFDESTRUCT, writing (halting (dyn gasSelfdestructEIP4762 (op opSelfdestruct 0 1 1024)))) ].

Definition NewVerkleJumpTable : JumpTable := assign verkleOps NewGlamsterdanJumpTable.

Definition iplusOps : list (Z * operation) :=
  [ (RVCREATE, writing (memf memoryCreate (dyn gasRVCreate (op (opRVCreate keccak256) GasCreate 3 1024)))) ].

Definition NewIPlusJumpTable : JumpTable := assign iplusOps NewGlamsterdanJumpTable.

(** [tbl[op] = nil] for the state-modifying opcodes. *)
Definition NewFrameVerifyJumpTable : JumpTable :=
  fold_left (fun t c => delete c t)
    [SSTORE; CREATE; CREATE2; SELFDESTRUCT; LOG0; LOG1; LOG2; LOG3; LOG4]
    NewGlamsterdanJumpTable.

(** interpreter.go *)
Definition SelectJumpTable (rules : ForkRules) : JumpTable :=
  if IsIPlus rules then NewIPlusJumpTable
  else if IsVerkle rules then NewVerkleJumpTable
  else if IsGlamsterdan rules then NewGlamsterdanJumpTable
  else if IsPrague rules then NewPragueJumpTable
  else if IsCancun rules then NewCancunJumpTable
  else if IsShanghai rules then NewShanghaiJumpTable
  else if IsMerge rules then NewMergeJumpTable
  else if IsLondon rules then NewLondonJumpTable
  else if IsBerlin rules then NewBerlinJumpTable
  else if IsIstanbul rules then NewIstanbulJumpTable
  else if IsConstantinople rules then NewConstantinopleJumpTable
  else if IsByzantium rules then NewByzantiumJumpTable
  else if IsHomestead rules then NewHomesteadJumpTable
  else NewFrontierJumpTable.

End JumpTable.

Arguments operation DB : clear implicits.
Abbreviation JumpTable DB := (gmap Z (operation DB)).
