(* ===== verification/Interpreter.v ===== *)
(** * Interpreter: the EVM run loop

    [EVM.Run] of pkg/core/vm/interpreter.go.  [step] is one iteration of
    its loop; [exec] is the loop, with fuel that bounds both the number of
    iterations and the nesting of calls.  Tracing is left out: it only
    observes. *)

From S2P Require Import Prelude StateDB Machine Calls GasTable Witness Instructions JumpTable.

Section Interpreter.

Context {DB : Type} `{StateDB DB}.

Abbreviation G := (M (mstate DB)).
Abbreviation runner := (Contract -> bytes -> M (EVM DB) (Contract * bytes * option vmerr)).

(** [if !contract.UseGas(g) { return nil, ErrOutOfGas }] *)
Definition chargeGas (g : Z) : G unit :=
  let! s := gget in
  match UseGas g (ctr s) with
  | Some c => gmodify (set_ctr c)
  | None => gfail ErrOutOfGas []
  end.

(** The word-aligned memory size an operation needs; overflow is out of gas. *)
Definition requiredMemory (o : operation DB) : G Z :=
  match memorySize o with
  | None => gret 0
  | Some f =>
      let! r := f in
      match r with
      | None => gfail ErrOutOfGas []
      | Some memSize => gret (if memSize >? 0 then (memSize +u 31) / 32 * 32 else 0)
      end
  end.

(** The error of a dynamic gas function is wrapped in [ErrOutOfGas]. *)
Definition orOutOfGas {A} (m : G A) : G A := fun s =>
  match m s with
  | Err _ _ s' => Err ErrOutOfGas [] s'
  | r => r
  end.

Definition chargeDynamic (o : operation DB) (memSize : Z) : G unit :=
  match dynamicGas o with
  | None => gret tt
  | Some f =>
      let! cost := orOutOfGas (f memSize) in
      chargeGas cost
  end.

Definition resizeMemory (memSize : Z) : G unit :=
  gmodify (fun s => if (memSize >? 0) && (mem_Len (mem s) <? memSize)
                    then set_mem (mem_Resize (mem s) memSize) s else s).

(** The returned bytes survive an error only for REVERT. *)
Definition dropData {A} (m : G A) : G A := fun s =>
  match m s with
  | Err e ret s' => Err e (if is_revert e then ret else []) s'
  | r => r
  end.

(** What happens to an operation once it is decoded: [Some ret] when it
    halts the frame, [None] when the loop goes on. *)
Definition perform (o : operation DB) : G (option bytes) :=
  do! (if constantGas o >? 0 then chargeGas (constantGas o) else gret tt) in
  let! memSize := requiredMemory o in
  do! chargeDynamic o memSize in
  do! resizeMemory memSize in
  let! ret := dropData (execute o) in
  if halts o then gret (Some ret)
  else
    do! (if jumps o then gret tt else gmodify (fun s => set_pc (pc s +u 1) s)) in
    gret None.

Definition step (jumpTable : JumpTable DB) : G (option bytes) :=
  let! s := gget in
  match jumpTable !! GetOp (ctr s) (pc s) with
  | None => gfail ErrInvalidOpCode []
  | Some o =>
      if (length (stk s) <? minStack o)%nat then gfail ErrStackUnderflow []
      else if (maxStack o <? length (stk s))%nat then gfail ErrStackOverflow []
      else perform o
  end.

(** The frame in which [Run] starts. *)
Definition initFrame (contract : Contract) (input : bytes) (e : EVM DB) : mstate DB :=
  mkM 0 [] NewMemory (set_Input input contract) e.

(** The jump table of the EVM, closed over the interpreter itself. *)
Context (jumpTable : runner -> JumpTable DB).

Fixpoint exec (fuel : nat) (s : mstate DB) : out (EVM DB) (Contract * bytes * option vmerr) :=
  match fuel with
  | O => Fuel
  | S n =>
      match step (jumpTable (fun c input e => exec n (initFrame c input e))) s with
      | Ok None s' => exec n s'
      | Ok (Some ret) s' => Ok (ctr s', ret, None) (evm s')
      | Err er ret s' => Ok (ctr s', ret, Some er) (evm s')
      | Panic p => Panic p
      | Fuel => Fuel
      end
  end.

(** [evm.Run(contract, input)] *)
Definition Run (fuel : nat) (contract : Contract) (input : bytes)
  : M (EVM DB) (Contract * bytes * option vmerr) :=
  fun e => exec fuel (initFrame contract input e).

End Interpreter.

(** [NewEVM] with a state database; the jump table is [NewCancunJumpTable]
    unless [SetJumpTable] replaces it. *)
Definition NewEVM {DB} (blockCtx : BlockContext) (txCtx : TxContext) (maxCallDepth chain : Z)
    (pcs : option (gmap Z PrecompiledContract)) (rules : ForkRules) (db : option DB) : EVM DB :=
  mkEVM (mkConfig blockCtx txCtx (if maxCallDepth =? 0 then 1024 else maxCallDepth) chain pcs rules)
    db 0 false [] 0 0 0 None None None None.
