(* ===== verification/Wp.v ===== *)
(** * Wp: reasoning about programs of the machine monad

    Two predicates are proved for every piece of the interpreter:
    - [ple w m]: the EVM code [m] relates the EVM state before and after by
      a relation [RE], keeps depth, read-only flag and configuration, and
      does not index the operand stack out of range;
    - [pl w n m Q]: the instruction code [m], started on a stack of [n]
      words, satisfies [ple] on the EVM part and ends with a result and a
      stack height in [Q].
    [w = true] means the frame is known not to be read-only.  The relation
    is abstract ([EvmRel]); its instances give static-call purity,
    conservation of the supply, and so on. *)

From S2P Require Import Prelude StateDB Machine Calls GasTable Witness Instructions.

(** ** Kinds of mutations *)

Definition is_warm (m : mutation) : bool :=
  match m with MAddAddressToAccessList _ | MAddSlotToAccessList _ _ => true | _ => false end.

(** The mutations an instruction performs only outside read-only mode. *)
Definition is_write (m : mutation) : bool :=
  match m with
  | MSetNonce _ _ | MSetCode _ _ | MSetState _ _ _ | MSetTransientState _ _ _
  | MAddLog _ | MAddRefund _ | MSubRefund _ => true
  | _ => false
  end.

(** ** Relations preserved by EVM code *)
Class EvmRel {DB : Type} `{StateDB DB} (RE : EVM DB -> EVM DB -> Prop) := {
  er_pre :: PreOrder RE;
  er_field : forall e e', statedb e' = statedb e -> readOnly e' = readOnly e -> RE e e';
  er_warm : forall e db m, statedb e = Some db -> is_warm m = true ->
    RE e (set_statedb (Some (mutate m db)) e);
  er_write : forall e db m, statedb e = Some db -> readOnly e = false -> is_write m = true ->
    RE e (set_statedb (Some (mutate m db)) e);
  er_transfer : forall e db a b v, statedb e = Some db -> readOnly e = false ->
    RE e (set_statedb (Some (AddBalance b v (SubBalance a v db))) e);
  er_credit : forall e db a b v, statedb e = Some db -> readOnly e = false ->
    RE e (set_statedb (Some (SubBalance a v (AddBalance b v db))) e);
  er_account : forall e db a, statedb e = Some db -> Exist db a = false ->
    RE e (set_statedb (Some (CreateAccount a db)) e);
  er_snapshot : forall e db, statedb e = Some db ->
    RE e (set_statedb (Some (Snapshot db).2) e);
  er_revert : forall e db e1 db1 r, statedb e = Some db ->
    RE (set_statedb (Some (Snapshot db).2) e) e1 -> readOnly e1 = readOnly e ->
    statedb e1 = Some db1 -> RevertToSnapshot (Snapshot db).1 db1 = Some r ->
    RE e (set_statedb (Some r) e1);
  er_static : forall e e1, RE (set_readOnly true e) e1 -> readOnly e1 = true ->
    RE e (set_readOnly (readOnly e) e1);
}.

Section Wp.

Context {DB : Type} `{StateDB DB} (RE : EVM DB -> EVM DB -> Prop) `{!EvmRel RE}.

(** Whether exhausted fuel is an acceptable outcome, and what may happen to
    the gas of the running contract. *)
Context (fu : Prop) (GR : Z -> Z -> Prop) `{!PreOrder GR}.

(** ** EVM code *)

Record fr (e e' : EVM DB) : Prop := {
  fr_ro : readOnly e' = readOnly e;
  fr_depth : depth e' = depth e;
  fr_config : config e' = config e;
  fr_rel : RE e e';
}.

#[export] Instance fr_preorder : PreOrder fr.
Proof.
  split.
  - intros e. by split.
  - intros e1 e2 e3 [] []. split; try congruence. by etransitivity.
Qed.

Definition post_e {A} (e : EVM DB) (r : out (EVM DB) A) : Prop :=
  match r with
  | Ok _ e' | Err _ _ e' => fr e e'
  | Panic p => p <> PStack
  | Fuel => fu
  end.

Definition writable (w : bool) (e : EVM DB) : Prop := w = true -> readOnly e = false.

Definition ple {A} (w : bool) (m : M (EVM DB) A) : Prop := forall e, writable w e -> post_e e (m e).

Lemma writable_fr w e e' : fr e e' -> writable w e -> writable w e'.
Proof. intros F W E. rewrite (fr_ro _ _ F). by apply W. Qed.

Lemma ple_weaken {A} w (m : M (EVM DB) A) : ple false m -> ple w m.
Proof. intros Hm e _. by apply Hm. Qed.

Lemma ple_ret {A} w (a : A) : ple w (gret a).
Proof. intros e _. simpl. reflexivity. Qed.

Lemma ple_fail {A} w er r : ple w (gfail er r : M (EVM DB) A).
Proof. intros e _. simpl. reflexivity. Qed.

Lemma ple_bind {A B} w (m : M (EVM DB) A) (k : A -> M (EVM DB) B) :
  ple w m -> (forall a, ple w (k a)) -> ple w (gbind m k).
Proof.
  intros Hm Hk e W. unfold gbind. specialize (Hm e W). destruct (m e) as [a e'|er r e'|p|]; try done.
  simpl in Hm. specialize (Hk a e' (writable_fr _ _ _ Hm W)).
  destruct (k a e'); simpl in *; try done; by etransitivity.
Qed.

Lemma ple_if {A} w (b : bool) (m1 m2 : M (EVM DB) A) :
  (b = true -> ple w m1) -> (b = false -> ple w m2) -> ple w (if b then m1 else m2).
Proof. destruct b; auto. Qed.

Lemma ple_when w b (m : M (EVM DB) unit) : (b = true -> ple w m) -> ple w (gwhen b m).
Proof. unfold gwhen. destruct b; intros; [auto|apply ple_ret]. Qed.

(** Readers. *)
Lemma ple_get {B} w (k : EVM DB -> M (EVM DB) B) :
  (forall e, writable w e -> post_e e (k e e)) -> ple w (gbind gget k).
Proof. intros Hk e W. by apply Hk. Qed.

Lemma ple_get' {B} w (k : EVM DB -> M (EVM DB) B) : (forall e, ple w (k e)) -> ple w (gbind gget k).
Proof. intros Hk. apply ple_get. intros e W. by apply Hk. Qed.

Lemma ple_hasDB w : ple w hasDB.
Proof. intros e _. simpl. reflexivity. Qed.

Lemma ple_readDB {A} w (f : DB -> A) : ple w (readDB f).
Proof. intros e _. unfold readDB. destruct (statedb e); simpl; [reflexivity|done]. Qed.

Lemma ple_precompile w pcs a : ple w (precompile pcs a).
Proof. intros e _. simpl. reflexivity. Qed.

Lemma ple_opt {A} w p (o : option A) : p <> PStack -> ple w (gopt p o).
Proof. intros Hp e _. destruct o; simpl; [reflexivity|done]. Qed.

(** Updates of fields other than the state database. *)
Lemma ple_modify w f :
  (forall e, statedb (f e) = statedb e /\ readOnly (f e) = readOnly e /\
             depth (f e) = depth e /\ config (f e) = config e) ->
  ple w (gmodify f : M (EVM DB) unit).
Proof.
  intros Hf e _. simpl. destruct (Hf e) as (E1 & E2 & E3 & E4). split; try done. by apply er_field.
Qed.

Lemma ple_record w ev : ple w (record ev : M (EVM DB) unit).
Proof. apply ple_modify. intros e. done. Qed.

(** Mutations. *)
Lemma fr_db e x : RE e (set_statedb x e) -> fr e (set_statedb x e).
Proof. by split. Qed.

Lemma ple_warm w m : is_warm m = true -> ple w (mutDB m).
Proof.
  intros Hm e _. unfold mutDB. destruct (statedb e) eqn:E; simpl; [|done].
  apply fr_db. by apply er_warm.
Qed.

Lemma ple_write m : is_write m = true -> ple true (mutDB m).
Proof.
  intros Hm e W. unfold mutDB. destruct (statedb e) eqn:E; simpl; [|done].
  apply fr_db. apply er_write; auto.
Qed.

Lemma ple_moves {A} (m1 m2 : mutation) (k : M (EVM DB) A) :
  (forall e db, statedb e = Some db -> readOnly e = false ->
     RE e (set_statedb (Some (mutate m2 (mutate m1 db))) e)) ->
  ple true k -> ple true (gbind (mutDB m1) (fun _ => gbind (mutDB m2) (fun _ => k))).
Proof.
  intros Hm Hk e W. unfold gbind at 1, mutDB at 1. destruct (statedb e) as [db|] eqn:E; [|done].
  unfold gbind, mutDB. cbn [statedb set_statedb].
  change (set_statedb ?x (set_statedb _ e)) with (set_statedb x e).
  set (e' := set_statedb _ e).
  assert (fr e e') as F by (apply fr_db, Hm; auto).
  specialize (Hk e' (writable_fr _ _ _ F W)). destruct (k e'); simpl in *; try done; by etransitivity.
Qed.

Lemma ple_transfer {A} a b v (k : M (EVM DB) A) :
  ple true k ->
  ple true (gbind (mutDB (MSubBalance a v)) (fun _ => gbind (mutDB (MAddBalance b v)) (fun _ => k))).
Proof. apply ple_moves. intros. by apply er_transfer. Qed.

Lemma ple_credit {A} a b v (k : M (EVM DB) A) :
  ple true k ->
  ple true (gbind (mutDB (MAddBalance b v)) (fun _ => gbind (mutDB (MSubBalance a v)) (fun _ => k))).
Proof. apply ple_moves. intros. by apply er_credit. Qed.

(** Creating an account that was just seen not to exist. *)
Lemma ple_account {A} w a (c : bool) (m k : M (EVM DB) A) :
  ple w m -> ple w k ->
  ple w (gbind (readDB (fun db => Exist db a)) (fun ex =>
           if negb ex && c then m
           else gbind (gwhen (negb ex) (mutDB (MCreateAccount a))) (fun _ => k))).
Proof.
  intros Hm Hk e W. unfold gbind at 1, readDB. destruct (statedb e) as [db|] eqn:E; [|done].
  destruct (Exist db a) eqn:Ex; [by apply Hk|]. simpl. destruct c; [by apply Hm|].
  unfold gbind, mutDB. rewrite E. set (e' := set_statedb _ e).
  assert (fr e e') as F by (by apply fr_db, er_account).
  specialize (Hk e' (writable_fr _ _ _ F W)). destruct (k e'); simpl in *; try done; by etransitivity.
Qed.

Lemma ple_account_simple {A} w a (k : M (EVM DB) A) :
  ple w k ->
  ple w (gbind (readDB (fun db => Exist db a)) (fun ex =>
           gbind (gwhen (negb ex) (mutDB (MCreateAccount a))) (fun _ => k))).
Proof.
  intros Hk e W. pose proof (ple_account w a false k k Hk Hk e W) as Hp.
  unfold gbind at 1 in Hp. unfold gbind at 1. destruct (readDB _ e); try done. by rewrite andb_false_r in Hp.
Qed.

(** *** Snapshot scopes *)

(** [e] is reached from [e0] after taking a snapshot of its database. *)
Definition scoped (e0 : EVM DB) (db0 : DB) (e : EVM DB) : Prop :=
  statedb e0 = Some db0 /\ fr (set_statedb (Some (Snapshot db0).2) e0) e.

Definition pscope {A} (w : bool) (e0 : EVM DB) (db0 : DB) (m : M (EVM DB) A) : Prop :=
  forall e, scoped e0 db0 e -> writable w e -> post_e e0 (m e).

Lemma scoped_fr e0 db0 e : scoped e0 db0 e -> fr e0 e.
Proof.
  intros [E F]. etransitivity; [|exact F]. by apply fr_db, er_snapshot.
Qed.

Lemma ple_snapshot {A} w (k : Z -> M (EVM DB) A) :
  (forall e0 db0, pscope w e0 db0 (k (Snapshot db0).1)) -> ple w (gbind takeSnapshot k).
Proof.
  intros Hk e W. unfold gbind, takeSnapshot. destruct (statedb e) as [db|] eqn:E; [|done].
  apply (Hk e db); [split; [done|reflexivity]|done].
Qed.

Lemma pscope_ple {A} w e0 db0 (m : M (EVM DB) A) : ple w m -> pscope w e0 db0 m.
Proof.
  intros Hm e S W. specialize (Hm e W). pose proof (scoped_fr _ _ _ S).
  destruct (m e); simpl in *; try done; by etransitivity.
Qed.

Lemma pscope_bind {A B} w e0 db0 (m : M (EVM DB) A) (k : A -> M (EVM DB) B) :
  ple w m -> (forall a, pscope w e0 db0 (k a)) -> pscope w e0 db0 (gbind m k).
Proof.
  intros Hm Hk e [E F] W. unfold gbind. specialize (Hm e W).
  destruct (m e) as [a e'|er r e'|p|] eqn:Em; try done.
  - simpl in Hm. apply Hk; [split; [done|by etransitivity]|]. by eapply writable_fr.
  - simpl in *. etransitivity; [|exact Hm]. by eapply scoped_fr.
Qed.

Lemma pscope_revert {A} w e0 db0 (k : M (EVM DB) A) :
  ple w k -> pscope w e0 db0 (gbind (revertTo (Snapshot db0).1) (fun _ => k)).
Proof.
  intros Hk e [E F] W. unfold gbind, revertTo. destruct (statedb e) as [db|] eqn:Eb; [|done].
  destruct (RevertToSnapshot (Snapshot db0).1 db) as [r|] eqn:Er; [|done].
  set (e' := set_statedb (Some r) e).
  assert (fr e0 e') as F'.
  { destruct F as [Fr Fd Fc Fe]. split; try done. eapply er_revert; eauto. }
  assert (writable w e') as W' by exact W.
  specialize (Hk e' W'). destruct (k e'); simpl in *; try done; by etransitivity.
Qed.

Lemma pscope_if {A} w e0 db0 (b : bool) (m1 m2 : M (EVM DB) A) :
  (b = true -> pscope w e0 db0 m1) -> (b = false -> pscope w e0 db0 m2) ->
  pscope w e0 db0 (if b then m1 else m2).
Proof. destruct b; auto. Qed.

Lemma pscope_get {A} w e0 db0 (k : EVM DB -> M (EVM DB) A) :
  (forall e, pscope w e0 db0 (k e)) -> pscope w e0 db0 (gbind gget k).
Proof. intros Hk e S W. by apply Hk. Qed.

Lemma pscope_account {A} w e0 db0 a (c : bool) (m k : M (EVM DB) A) :
  pscope w e0 db0 m -> pscope w e0 db0 k ->
  pscope w e0 db0 (gbind (readDB (fun db => Exist db a)) (fun ex =>
           if negb ex && c then m
           else gbind (gwhen (negb ex) (mutDB (MCreateAccount a))) (fun _ => k))).
Proof.
  intros Hm Hk e S W. unfold gbind at 1, readDB. destruct (statedb e) as [db|] eqn:E; [|done].
  destruct (Exist db a) eqn:Ex; [by apply Hk|]. simpl. destruct c; [by apply Hm|].
  unfold gbind, mutDB. rewrite E. set (e' := set_statedb _ e).
  assert (fr e e') as F by (by apply fr_db, er_account).
  apply Hk; [|by eapply writable_fr]. destruct S. split; [done|]. by etransitivity.
Qed.

Lemma pscope_account_simple {A} w e0 db0 a (k : M (EVM DB) A) :
  pscope w e0 db0 k ->
  pscope w e0 db0 (gbind (readDB (fun db => Exist db a)) (fun ex =>
           gbind (gwhen (negb ex) (mutDB (MCreateAccount a))) (fun _ => k))).
Proof.
  intros Hk e S W. pose proof (pscope_account w e0 db0 a false k k Hk Hk e S W) as Hp.
  unfold gbind at 1 in Hp. unfold gbind at 1. destruct (readDB _ e); try done. by rewrite andb_false_r in Hp.
Qed.

(** ** Instruction code *)

Record frame (s s' : mstate DB) : Prop := {
  frame_gas : GR (Gas (ctr s)) (Gas (ctr s'));
  frame_evm : fr (evm s) (evm s');
}.

#[export] Instance frame_preorder : PreOrder frame.
Proof.
  split.
  - intros s. split; reflexivity.
  - intros s1 s2 s3 [] []. split; by etransitivity.
Qed.

Definition post_m {A} (s : mstate DB) (r : out (mstate DB) A) (Q : A -> nat -> Prop) : Prop :=
  match r with
  | Ok a s' => Q a (length (stk s')) /\ frame s s'
  | Err _ _ s' => frame s s'
  | Panic p => p <> PStack
  | Fuel => fu
  end.

Definition pl {A} (w : bool) (n : nat) (m : M (mstate DB) A) (Q : A -> nat -> Prop) : Prop :=
  forall s, length (stk s) = n -> writable w (evm s) -> post_m s (m s) Q.

Lemma post_m_frame {A} s s' (r : out (mstate DB) A) Q :
  frame s s' -> post_m s' r Q -> post_m s r Q.
Proof.
  intros F. destruct r; simpl; try done.
  - intros [? ?]. split; [done|]. by etransitivity.
  - intros ?. by etransitivity.
Qed.

Lemma pl_bind {A B} w n (m : M (mstate DB) A) (k : A -> M (mstate DB) B) Q :
  pl w n m (fun a n' => pl w n' (k a) Q) -> pl w n (gbind m k) Q.
Proof.
  intros Hm s L W. unfold gbind. specialize (Hm s L W).
  destruct (m s) as [a s'|er r s'|p|]; try done. destruct Hm as [Hk F].
  eapply post_m_frame; [exact F|]. apply Hk; [done|]. eapply writable_fr; [apply F|done].
Qed.

Lemma pl_ret {A} w n (a : A) (Q : A -> nat -> Prop) : Q a n -> pl w n (gret a) Q.
Proof. intros HQ s <- _. simpl. split; [done|reflexivity]. Qed.

Lemma pl_fail {A} w n er r (Q : A -> nat -> Prop) : pl w n (gfail er r) Q.
Proof. intros s _ _. simpl. reflexivity. Qed.

Lemma pl_opt {A} w n p (o : option A) (Q : A -> nat -> Prop) :
  p <> PStack -> (forall a, o = Some a -> Q a n) -> pl w n (gopt p o) Q.
Proof.
  intros Hp HQ s <- _. destruct o; simpl; [|done]. split; [by apply HQ|reflexivity].
Qed.

Lemma pl_get w n (Q : mstate DB -> nat -> Prop) :
  (forall s, length (stk s) = n -> writable w (evm s) -> Q s n) -> pl w n gget Q.
Proof. intros HQ s <- W. simpl. split; [auto|reflexivity]. Qed.

Lemma pl_if {A} w n (b : bool) (m1 m2 : M (mstate DB) A) Q :
  (b = true -> pl w n m1 Q) -> (b = false -> pl w n m2 Q) -> pl w n (if b then m1 else m2) Q.
Proof. destruct b; auto. Qed.

Lemma pl_modify w n f (Q : unit -> nat -> Prop) :
  (forall s, length (stk (f s)) = length (stk s) /\ GR (Gas (ctr s)) (Gas (ctr (f s))) /\
             evm (f s) = evm s) ->
  Q tt n -> pl w n (gmodify f) Q.
Proof.
  intros Hf HQ s <- _. simpl. destruct (Hf s) as (E1 & E2 & E3). rewrite E1.
  split; [done|]. split; [done|]. rewrite E3. reflexivity.
Qed.

Lemma pl_lift {A} w n (m : M (EVM DB) A) (Q : A -> nat -> Prop) :
  ple w m -> (forall a, Q a n) -> pl w n (liftE m) Q.
Proof.
  intros Hm HQ s <- W. unfold liftE. specialize (Hm (evm s) W).
  by destruct (m (evm s)).
Qed.

Lemma pl_when w n b (m : M (mstate DB) unit) (Q : unit -> nat -> Prop) :
  (b = true -> pl w n m Q) -> (b = false -> Q tt n) -> pl w n (gwhen b m) Q.
Proof. unfold gwhen. destruct b; intros; [auto|apply pl_ret; auto]. Qed.

(** A write guard turns a frame of unknown status into a writable one. *)
Lemma pl_writeGuard {A} w n (k : M (mstate DB) A) Q :
  pl true n k Q -> pl w n (gbind writeGuard (fun _ => k)) Q.
Proof.
  intros Hk s L W. unfold gbind, writeGuard, gget, gbind. simpl.
  destruct (readOnly (evm s)) eqn:E; simpl.
  - reflexivity.
  - apply Hk; [done|]. by intros _.
Qed.

(** *** Stack *)

Lemma frame_stk s x : frame s (set_stk x s).
Proof. split; simpl; reflexivity. Qed.

Lemma pl_Pop w n (Q : Z -> nat -> Prop) :
  (1 <= n)%nat -> (forall a, Q a (n - 1)%nat) -> pl w n Pop Q.
Proof.
  intros Hn HQ s <- _. unfold Pop. destruct (stk s) as [|x r] eqn:E; simpl in *; [lia|].
  replace (length r) with (S (length r) - 1)%nat by lia. split; [done|apply frame_stk].
Qed.

Lemma pl_Peek w n (Q : Z -> nat -> Prop) : (1 <= n)%nat -> (forall a, Q a n) -> pl w n Peek Q.
Proof.
  intros Hn HQ s <- _. unfold Peek. destruct (stk s) as [|x r] eqn:E; simpl in *; [lia|].
  rewrite E. split; [apply HQ|reflexivity].
Qed.

Lemma pl_SetTop w n v (Q : unit -> nat -> Prop) : (1 <= n)%nat -> Q tt n -> pl w n (SetTop v) Q.
Proof.
  intros Hn HQ s <- _. unfold SetTop. destruct (stk s) as [|x r] eqn:E; simpl in *; [lia|].
  split; [done|apply frame_stk].
Qed.

Lemma pl_Back w n i (Q : Z -> nat -> Prop) : (i < n)%nat -> (forall a, Q a n) -> pl w n (Back i) Q.
Proof.
  intros Hn HQ s <- _. unfold Back. destruct (lookup_lt_is_Some_2 (stk s) i Hn) as [x ->].
  simpl. split; [apply HQ|reflexivity].
Qed.

Lemma pl_Push w n v (Q : unit -> nat -> Prop) :
  (n < stackLimit -> Q tt (S n))%nat -> (stackLimit <= n -> Q tt n)%nat -> pl w n (Push v) Q.
Proof.
  intros H1 H2 s <- _. unfold Push. destruct (Nat.leb_spec stackLimit (length (stk s))); simpl.
  - split; [auto|reflexivity].
  - split; [by apply H1|apply frame_stk].
Qed.

Lemma pl_Dup w n i (Q : unit -> nat -> Prop) :
  (1 <= i <= n)%nat -> Q tt (S n) -> pl w n (Dup i) Q.
Proof.
  intros Hi HQ s <- _. unfold Dup. destruct i as [|i]; [lia|].
  destruct (lookup_lt_is_Some_2 (stk s) (S i - 1)) as [x ->]; [lia|].
  simpl. split; [done|apply frame_stk].
Qed.

Lemma pl_Swap w n i (Q : unit -> nat -> Prop) : (i < n)%nat -> Q tt n -> pl w n (Swap i) Q.
Proof.
  intros Hi HQ s <- _. unfold Swap.
  destruct (lookup_lt_is_Some_2 (stk s) 0) as [x ->]; [lia|].
  destruct (lookup_lt_is_Some_2 (stk s) i) as [y ->]; [lia|].
  simpl. rewrite !length_insert. split; [done|apply frame_stk].
Qed.

Lemma pl_Exchange w n i j (Q : unit -> nat -> Prop) :
  (i < n)%nat -> (j < n)%nat -> Q tt n -> pl w n (Exchange i j) Q.
Proof.
  intros Hi Hj HQ s <- _. unfold Exchange.
  destruct (lookup_lt_is_Some_2 (stk s) i) as [x ->]; [lia|].
  destruct (lookup_lt_is_Some_2 (stk s) j) as [y ->]; [lia|].
  simpl. rewrite !length_insert. split; [done|apply frame_stk].
Qed.

(** *** Memory *)

Lemma frame_mem s x : frame s (set_mem x s).
Proof. split; simpl; reflexivity. Qed.

Lemma pl_MemSet w n a b v (Q : unit -> nat -> Prop) : Q tt n -> pl w n (MemSet a b v) Q.
Proof.
  intros HQ s <- _. unfold MemSet. destruct (mem_Set _ _ _ _); simpl; [|done].
  split; [done|apply frame_mem].
Qed.

Lemma pl_MemSet32 w n a v (Q : unit -> nat -> Prop) : Q tt n -> pl w n (MemSet32 a v) Q.
Proof.
  intros HQ s <- _. unfold MemSet32. destruct (mem_Set32 _ _ _); simpl; [|done].
  split; [done|apply frame_mem].
Qed.

Lemma pl_MemGet w n a b (Q : bytes -> nat -> Prop) : (forall r, Q r n) -> pl w n (MemGet a b) Q.
Proof.
  intros HQ s <- _. unfold MemGet. destruct (mem_Get _ _ _); simpl; [|done].
  split; [apply HQ|reflexivity].
Qed.

(** *** Recurring helpers of instructions and gas functions *)

Lemma pl_memWindow w n a b (Q : bytes -> nat -> Prop) :
  (forall r, Q r n) -> pl w n (memWindow a b) Q.
Proof. apply pl_MemGet. Qed.

Lemma pl_touch w n a (Q : unit -> nat -> Prop) : Q tt n -> pl w n (touch a) Q.
Proof. intros HQ. apply pl_lift; [apply ple_record|by intros []]. Qed.

Lemma pl_self w n (Q : Address -> nat -> Prop) : (forall a, Q a n) -> pl w n self Q.
Proof. intros HQ. apply pl_bind, pl_get. intros s _ _. by apply pl_ret. Qed.

Lemma pl_ifDB {A} w n (m1 m2 : M (mstate DB) A) Q :
  pl w n m1 Q -> pl w n m2 Q -> pl w n (ifDB m1 m2) Q.
Proof.
  intros H1 H2. apply pl_bind, pl_lift; [apply ple_hasDB|]. intros [|]; done.
Qed.

Lemma pl_memExpansion w n x (Q : Z -> nat -> Prop) :
  (forall g, Q g n) -> pl w n (gasMemExpansion x) Q.
Proof. intros HQ. apply pl_bind, pl_get. intros s _ _. by apply pl_ret. Qed.

Lemma pl_advance w n x (Q : unit -> nat -> Prop) : Q tt n -> pl w n (advance x) Q.
Proof. apply pl_modify. intros s. repeat split; simpl; reflexivity. Qed.

Lemma validJumpdest_gas c pos : Gas (validJumpdest c pos).2 = Gas c.
Proof.
  unfold validJumpdest, isCode. destruct (_ || _); [done|].
  destruct (go_index _ _); [|done]. destruct (negb _); [done|]. by destruct (jumpdests c).
Qed.

Lemma pl_checkJump w n pos (Q : bool -> nat -> Prop) :
  (forall b, Q b n) -> pl w n (checkJump pos) Q.
Proof.
  intros HQ s <- _. unfold checkJump, gbind, gget. pose proof (validJumpdest_gas (ctr s) pos) as E.
  destruct (validJumpdest (ctr s) pos) as [b c]. simpl in *.
  split; [apply HQ|]. split; simpl; [by rewrite E|reflexivity].
Qed.

Lemma pl_backU64 w n i k (Q : option Z -> nat -> Prop) :
  (i < n)%nat -> Q None n -> (forall x, pl w n (k x) Q) -> pl w n (backU64 i k) Q.
Proof.
  intros Hi HN Hk. apply pl_bind, pl_Back; [done|]. intros a.
  destruct (bigUint64WithOverflow a) as [x []]; [by apply pl_ret|apply Hk].
Qed.

Lemma pl_account w n c a (Q : Z -> nat -> Prop) :
  (forall g, Q g n) -> pl w n (accountCheck c a) Q.
Proof.
  intros HQ. apply pl_lift; [|done]. apply ple_bind; [apply ple_hasDB|]. intros [|]; [|apply ple_ret].
  apply ple_bind; [apply ple_readDB|]. intros [|]; [apply ple_ret|].
  apply ple_bind; [by apply ple_warm|]. intros. apply ple_ret.
Qed.

Lemma pl_slot w n c a k (Q : Z -> nat -> Prop) :
  (forall g, Q g n) -> pl w n (slotCheck c a k) Q.
Proof.
  intros HQ. apply pl_lift; [|done]. apply ple_bind; [apply ple_hasDB|]. intros [|]; [|apply ple_ret].
  apply ple_bind; [apply ple_readDB|]. intros [|]; [apply ple_ret|].
  apply ple_bind; [by apply ple_warm|]. intros. apply ple_ret.
Qed.

Lemma pl_withWitness w n f (Q : Z -> nat -> Prop) :
  (forall g, Q g n) -> pl w n (withWitness f) Q.
Proof.
  intros HQ. apply pl_lift; [|done]. intros e _.
  destruct (witnessGas e); simpl; [|reflexivity]. destruct (f _). simpl.
  split; try done. by apply er_field.
Qed.

Lemma pl_queryDB {A} w n (d : A) f (Q : A -> nat -> Prop) :
  (forall a, Q a n) -> pl w n (queryDB d f) Q.
Proof.
  intros HQ. apply pl_lift; [|done]. apply ple_bind; [apply ple_hasDB|].
  intros [|]; [apply ple_readDB|apply ple_ret].
Qed.

End Wp.

(** The trivial relation. *)
#[export] Instance any_EvmRel {DB} `{StateDB DB} : EvmRel (fun _ _ : EVM DB => True).
Proof. by split. Qed.
