(* ===== verification/InstrSafe.v ===== *)
(** * InstrSafe: the effect of every instruction

    For each operation of each jump table: on a stack whose height is within
    the bounds of its table entry, the implementation does not index the
    stack out of range, leaves at most 1024 words, and changes the EVM only
    as [EvmRel] allows.  Instructions that do not run other contracts also
    leave the gas of the frame alone and never run out of fuel. *)

From S2P Require Import Prelude StateDB Machine Calls GasTable Witness Instructions JumpTable Wp.

(** ** Automation *)

Ltac head_of t := lazymatch t with ?f _ => head_of f | _ => t end.

(** Find the instances a rule of Wp.v needs. *)
Ltac cls := try lazymatch goal with |- EvmRel _ => exact _ | |- PreOrder _ => exact _ end.

(** One step on [ple]. *)
Ltac ple_step :=
  lazymatch goal with
  | |- ple _ _ _ (gret _) => apply ple_ret; cls
  | |- ple _ _ _ (gfail _ _) => apply ple_fail; cls
  | |- ple _ _ _ (gbind (mutDB (MSubBalance _ _)) _) => apply ple_transfer; cls
  | |- ple _ _ _ (gbind (mutDB (MAddBalance _ _)) _) => apply ple_credit; cls
  | |- ple _ _ _ (gbind gget _) => apply ple_get'; cls; intros ?
  | |- ple _ _ _ (gbind (readDB _) _) =>
      first [apply ple_account_simple; cls | apply ple_bind; cls; [|intros ?]]
  | |- ple _ _ _ (gbind _ _) => apply ple_bind; cls; [|intros ?]
  | |- ple _ _ _ (gwhen _ _) => apply ple_when; cls; intros ?
  | |- ple _ _ _ hasDB => apply ple_hasDB; cls
  | |- ple _ _ _ (readDB _) => apply ple_readDB; cls
  | |- ple _ _ _ (precompile _ _) => apply ple_precompile; cls
  | |- ple _ _ _ (gopt _ _) => apply ple_opt; cls; [done..]
  | |- ple _ _ _ (record _) => apply ple_record; cls
  | |- ple _ _ _ (gmodify _) => apply ple_modify; cls; intros ?; repeat split
  | |- ple _ _ _ (mutDB _) => first [apply ple_write; cls; reflexivity | apply ple_warm; cls; reflexivity]
  | |- ple _ _ _ (match ?x with _ => _ end) => destruct x eqn:?
  | |- ple _ _ _ ?m => let h := head_of m in unfold h
  end.

Ltac plesolve := repeat ple_step.

(** One step on [pl]. *)
Ltac pl_step :=
  lazymatch goal with
  | |- pl _ _ _ _ _ (gbind writeGuard _) _ => apply pl_writeGuard; cls
  | |- pl _ _ _ _ _ (gbind _ _) _ => apply pl_bind; cls
  | |- pl _ _ _ _ _ (gret _) _ => apply pl_ret; cls
  | |- pl _ _ _ _ _ (gfail _ _) _ => apply pl_fail; cls
  | |- pl _ _ _ _ _ (gopt _ _) _ => apply pl_opt; cls; [done|intros ? ?]
  | |- pl _ _ _ _ _ gget _ => apply pl_get; cls; intros ? ? ?
  | |- pl _ _ _ _ _ (gmodify _) _ => apply pl_modify; cls; [intros ?; repeat split; reflexivity|]
  | |- pl _ _ _ _ _ (gwhen _ _) _ => apply pl_when; cls; intros ?
  | |- pl _ _ _ _ _ Pop _ => apply pl_Pop; cls; [lia|intros ?]
  | |- pl _ _ _ _ _ Peek _ => apply pl_Peek; cls; [lia|intros ?]
  | |- pl _ _ _ _ _ (SetTop _) _ => apply pl_SetTop; cls; [lia|]
  | |- pl _ _ _ _ _ (Back _) _ => apply pl_Back; cls; [lia|intros ?]
  | |- pl _ _ _ _ _ (Push _) _ => apply pl_Push; cls; intros ?
  | |- pl _ _ _ _ _ (Dup _) _ => apply pl_Dup; cls; [lia|]
  | |- pl _ _ _ _ _ (Swap _) _ => apply pl_Swap; cls; [lia|]
  | |- pl _ _ _ _ _ (Exchange _ _) _ => apply pl_Exchange; cls; [lia|lia|]
  | |- pl _ _ _ _ _ (MemSet _ _ _) _ => apply pl_MemSet; cls
  | |- pl _ _ _ _ _ (MemSet32 _ _) _ => apply pl_MemSet32; cls
  | |- pl _ _ _ _ _ (MemGet _ _) _ => apply pl_MemGet; cls; intros ?
  | |- pl _ _ _ _ _ (memWindow _ _) _ => apply pl_memWindow; cls; intros ?
  | |- pl _ _ _ _ _ (touch _) _ => apply pl_touch; cls
  | |- pl _ _ _ _ _ self _ => apply pl_self; cls; intros ?
  | |- pl _ _ _ _ _ (ifDB _ _) _ => apply pl_ifDB; cls
  | |- pl _ _ _ _ _ (gasMemExpansion _) _ => apply pl_memExpansion; cls; intros ?
  | |- pl _ _ _ _ _ (advance _) _ => apply pl_advance; cls
  | |- pl _ _ _ _ _ (checkJump _) _ => apply pl_checkJump; cls; intros ?
  | |- pl _ _ _ _ _ (backU64 _ _) _ => apply pl_backU64; cls; [lia| |intros ?]
  | |- pl _ _ _ _ _ (accountCheck _ _) _ => apply pl_account; cls; intros ?
  | |- pl _ _ _ _ _ (slotCheck _ _ _) _ => apply pl_slot; cls; intros ?
  | |- pl _ _ _ _ _ (withWitness _) _ => apply pl_withWitness; cls; intros ?
  | |- pl _ _ _ _ _ (queryDB _ _) _ => apply pl_queryDB; cls; intros ?
  | |- pl _ _ _ _ _ (liftE _) _ => apply pl_lift; cls; [solve [plesolve]|intros ?]
  | |- pl _ _ _ _ _ (match ?x with _ => _ end) _ => destruct x eqn:?
  | |- pl _ _ _ _ _ ?m _ => let h := head_of m in unfold h
  end.

(** Decide the remaining conditions on stack heights. *)
Ltac plsolve := repeat pl_step; simpl; unfold stackLimit in *; try lia.

Section InstrSafe.

Context {DB : Type} `{StateDB DB} (RE : EVM DB -> EVM DB -> Prop) `{!EvmRel RE}.
Context (keccak256 : bytes -> bytes).
Context (pcs : gmap Z PrecompiledContract).
Context (rvrun : bytes -> bytes -> Z -> bytes * option vmerr).
Context (Run : Contract -> bytes -> M (EVM DB) (Contract * bytes * option vmerr)).

Abbreviation plain := (pl RE False eq).

(** The gas functions of an operation leave the stack as it is. *)
Definition gas_ok (o : operation DB) : Prop :=
  (forall f x n, dynamicGas o = Some f -> (minStack o <= n)%nat ->
     plain false n (f x) (fun _ k => k = n)) /\
  (forall f n, memorySize o = Some f -> (minStack o <= n)%nat ->
     plain false n f (fun _ k => k = n)).

Definition plain_ok (o : operation DB) : Prop :=
  forall n, (minStack o <= n <= maxStack o)%nat -> (n <= stackLimit)%nat ->
    plain false n (execute o) (fun _ k => (k <= stackLimit)%nat).

(** The operations that run other contracts, with the height they need. *)
Definition call_exec (n : nat) (ex : M (mstate DB) bytes) : Prop :=
  (ex = opCall pcs rvrun Run /\ 7 <= n)%nat \/ (ex = opCallCode pcs Run /\ 7 <= n)%nat \/
  (ex = opDelegateCall pcs Run /\ 6 <= n)%nat \/ (ex = opStaticCall pcs Run /\ 6 <= n)%nat \/
  (ex = opCreate keccak256 Run /\ 3 <= n)%nat \/ (ex = opCreate2 keccak256 Run /\ 4 <= n)%nat.

(** The opcodes of these operations. *)
Definition calling (code : Z) : bool :=
  existsb (Z.eqb code) [CALL; CALLCODE; DELEGATECALL; STATICCALL; CREATE; CREATE2].

Definition op_ok (code : Z) (o : operation DB) : Prop :=
  gas_ok o /\ (if calling code then call_exec (minStack o) (execute o) else plain_ok o).

Lemma gas_ok_none ex g a b : gas_ok (op ex g a b).
Proof. split; intros; discriminate. Qed.

Ltac op_fields :=
  cbn [execute constantGas dynamicGas minStack maxStack memorySize op dyn memf halting jumping writing] in *.

Ltac gas_solve :=
  split; intros *; op_fields; intros Ef; first [discriminate Ef | injection Ef as <-]; intros ?; plsolve.

Ltac op_solve :=
  split;
  [ gas_solve
  | match goal with |- if ?b then _ else _ => let c := eval vm_compute in b in change b with c end;
    cbv iota; lazymatch goal with
    | |- plain_ok _ => intros ?n ? ?; op_fields; solve [plsolve]
    | |- call_exec _ _ => unfold call_exec; op_fields;
        solve [repeat first [left; split; [reflexivity|lia] | split; [reflexivity|lia] | right]]
    end ].

(** A range of opcodes that does not meet the calling ones. *)
Lemma calling_small code : code < CREATE -> calling code = false.
Proof.
  unfold calling, CREATE, CALL, CALLCODE, DELEGATECALL, STATICCALL, CREATE2. intros Hc. simpl.
  repeat (rewrite (proj2 (Z.eqb_neq code _)) by lia). done.
Qed.

Lemma op_ok_plain code o : code < CREATE -> gas_ok o -> plain_ok o -> op_ok code o.
Proof. intros Hc Hg Hp. split; [done|]. by rewrite calling_small. Qed.

Ltac plain_solve :=
  apply op_ok_plain;
  [unfold CREATE, PUSH1, DUP1, SWAP1, LOG0; lia|gas_solve|intros ?n ? ?; op_fields; solve [plsolve]].

Lemma immediate_byte (s : mstate DB) : is_byte (immediate s).
Proof. unfold immediate. destruct (_ <? _); [apply u8_range|unfold is_byte; lia]. Qed.

(** The EIP-8024 opcodes check the height themselves. *)
Lemma plain_dupN n : (1 <= n <= 1023)%nat -> plain false n opDupN (fun _ k => (k <= stackLimit)%nat).
Proof.
  intros Hn. unfold opDupN. apply pl_bind; cls. apply pl_get; cls. intros s L _.
  pose proof (immediate_byte s) as B. unfold is_byte in B.
  apply pl_if; intros C1; [plsolve|]. zbool.
  unfold decodeSingle, zlen. destruct (Z.leb_spec (immediate s) 90); apply pl_if; intros C2; plsolve.
Qed.
Lemma plain_swapN n : (2 <= n <= 1024)%nat -> plain false n opSwapN (fun _ k => (k <= stackLimit)%nat).
Proof.
  intros Hn. unfold opSwapN. apply pl_bind; cls. apply pl_get; cls. intros s L _.
  pose proof (immediate_byte s) as B. unfold is_byte in B.
  apply pl_if; intros C1; [plsolve|]. zbool.
  unfold decodeSingle, zlen. destruct (Z.leb_spec (immediate s) 90); apply pl_if; intros C2; plsolve.
Qed.

Lemma plain_exchange n :
  (2 <= n <= 1024)%nat -> plain false n opExchange (fun _ k => (k <= stackLimit)%nat).
Proof.
  intros Hn. unfold opExchange. apply pl_bind; cls. apply pl_get; cls. intros s L _.
  pose proof (immediate_byte s) as B. unfold is_byte in B.
  apply pl_if; intros C1; [plsolve|]. zbool. unfold decodePair, zlen.
  set (k := if immediate s <=? 79 then _ else _).
  assert (0 <= k <= 207) as Hk by (subst k; destruct (Z.leb_spec (immediate s) 79); lia).
  pose proof (Z.div_mod k 16). pose proof (Z.mod_pos_bound k 16).
  destruct (k / 16 <? k mod 16) eqn:C2; apply pl_if; intros C3; zbool;
    destruct (_ >? _) eqn:C4 in C3; zbool; plsolve.
Qed.

Lemma pl_popTopics fu GR `{!PreOrder GR} w k n (Q : list Z -> nat -> Prop) :
  (k <= n)%nat -> (forall l, Q l (n - k)%nat) -> pl RE fu GR w n (popTopics k) Q.
Proof.
  revert n Q. induction k as [|k IH]; intros n Q Hk HQ; simpl.
  - apply pl_ret; cls. replace n with (n - 0)%nat by lia. apply HQ.
  - apply pl_bind; cls. apply pl_Pop; cls; [lia|]. intros a. apply pl_bind; cls.
    apply IH; [lia|]. intros l. apply pl_ret; cls.
    replace (n - 1 - k)%nat with (n - S k)%nat by lia. apply HQ.
Qed.

Lemma push_ok : Forall (fun p => op_ok p.1 p.2) (pushOps (DB := DB)).
Proof. apply Forall_fmap, Forall_seq. intros i Hi. simpl. plain_solve. Qed.

Lemma dup_ok : Forall (fun p => op_ok p.1 p.2) (dupOps (DB := DB)).
Proof. apply Forall_fmap, Forall_seq. intros i Hi. simpl. plain_solve. Qed.

Lemma swap_ok : Forall (fun p => op_ok p.1 p.2) (swapOps (DB := DB)).
Proof. apply Forall_fmap, Forall_seq. intros i Hi. simpl. plain_solve. Qed.

Lemma log_ok : Forall (fun p => op_ok p.1 p.2) logOps.
Proof.
  apply Forall_fmap, Forall_seq. intros i Hi. simpl. apply op_ok_plain.
  - unfold CREATE, LOG0. lia.
  - gas_solve.
  - intros n Hn Hl. op_fields. unfold makeLog. do 6 pl_step.
    apply pl_popTopics; [exact _|lia|]. intros l. plsolve.
Qed.

Ltac ops_solve :=
  repeat (apply Forall_cons; split;
          [cbn [fst snd]; first [ op_solve
             | split; [apply gas_ok_none|intros ?n ? ?; op_fields];
               first [apply plain_dupN; lia | apply plain_swapN; lia | apply plain_exchange; lia]]|]);
  by apply Forall_nil.

Lemma frontier_ok : Forall (fun p => op_ok p.1 p.2) (frontierOps keccak256 pcs rvrun Run).
Proof. ops_solve. Qed.

Lemma homestead_ok : Forall (fun p => op_ok p.1 p.2) (homesteadOps pcs Run).
Proof. ops_solve. Qed.

Lemma tangerineWhistle_ok : Forall (fun p => op_ok p.1 p.2) (tangerineWhistleOps pcs rvrun Run).
Proof. ops_solve. Qed.

Lemma byzantium_ok : Forall (fun p => op_ok p.1 p.2) (byzantiumOps pcs Run).
Proof. ops_solve. Qed.

Lemma constantinople_ok : Forall (fun p => op_ok p.1 p.2) (constantinopleOps keccak256 Run).
Proof. ops_solve. Qed.

Lemma istanbul_ok : Forall (fun p => op_ok p.1 p.2) istanbulOps.
Proof. ops_solve. Qed.

Lemma berlin_ok : Forall (fun p => op_ok p.1 p.2) (berlinOps pcs rvrun Run).
Proof. ops_solve. Qed.

Lemma london_ok : Forall (fun p => op_ok p.1 p.2) londonOps.
Proof. ops_solve. Qed.

Lemma shanghai_ok : Forall (fun p => op_ok p.1 p.2) shanghaiOps.
Proof. ops_solve. Qed.

Lemma cancun_ok : Forall (fun p => op_ok p.1 p.2) cancunOps.
Proof. ops_solve. Qed.

Lemma glamsterdan_ok : Forall (fun p => op_ok p.1 p.2) (glamsterdanOps keccak256 pcs rvrun Run).
Proof. ops_solve. Qed.

Lemma verkle_ok : Forall (fun p => op_ok p.1 p.2) (verkleOps pcs rvrun Run).
Proof. ops_solve. Qed.

Lemma iplus_ok : Forall (fun p => op_ok p.1 p.2) (iplusOps keccak256).
Proof. ops_solve. Qed.

End InstrSafe.
