(* ===== verification/CallSafe.v ===== *)
(** * CallSafe: message calls and creation keep the EVM relation

    Provided the nested interpreter does ([run_ok]), the call methods of
    [EVM], the call and create opcodes, and with them every operation of
    every jump table, relate the EVM before and after as [EvmRel] says. *)

From S2P Require Import Prelude StateDB Machine Calls GasTable Witness Instructions JumpTable Wp InstrSafe.

Section CallSafe.

Context {DB : Type} `{StateDB DB} (RE : EVM DB -> EVM DB -> Prop) `{!EvmRel RE} (fu : Prop).
Context (keccak256 : bytes -> bytes).
Context (pcs : gmap Z PrecompiledContract).
Context (rvrun : bytes -> bytes -> Z -> bytes * option vmerr).
Context (Run : Contract -> bytes -> M (EVM DB) (Contract * bytes * option vmerr)).

Context (run_ok : forall c i, ple RE fu false (Run c i)).
Context (run_returns : forall c i e er r e', Run c i e <> Err er r e').

Lemma ple_runNested w c i : ple RE fu w (runNested Run c i).
Proof.
  intros e _. unfold runNested, gbind, gmodify.
  set (e1 := set_depth (depth e + 1) e).
  assert (writable false e1) as W by (intros ?; discriminate).
  pose proof (run_ok c i e1 W) as R. pose proof (run_returns c i e1) as NE.
  destruct (Run c i e1) as [r e2|er r e2|p|]; simpl in *; try done; [|by destruct (NE er r e2)].
  destruct R as [Fr Fd Fc Fe]. split; simpl; [done| |done|].
  - rewrite Fd. simpl. lia.
  - etransitivity; [apply (er_field e e1); done|]. etransitivity; [exact Fe|]. by apply er_field.
Qed.

(** ** Calls *)

Ltac scope_step :=
  lazymatch goal with
  | |- pscope _ _ _ _ _ (gret _) => apply pscope_ple; cls; ple_step
  | |- pscope _ _ _ _ _ (gbind (revertTo _) _) => apply pscope_revert; cls
  | |- pscope _ _ _ _ _ (gbind gget _) => apply pscope_get; cls; intros ?
  | |- pscope _ _ _ _ _ (gbind (readDB _) _) =>
      first [ apply pscope_account; cls | apply pscope_account_simple; cls
            | apply pscope_bind; cls; [|intros ?]]
  | |- pscope _ _ _ _ _ (gbind _ _) => apply pscope_bind; cls; [|intros ?]
  | |- pscope _ _ _ _ _ (if _ then _ else _) => apply pscope_if; cls; intros ?
  | |- pscope _ _ _ _ _ (match ?x with _ => _ end) => destruct x
  | |- ple _ _ _ (gbind takeSnapshot _) => apply ple_snapshot; cls; intros ? ?
  | |- ple _ _ _ (runNested _ _ _) => apply ple_runNested
  | |- ple _ _ _ _ => ple_step
  | |- pscope _ _ _ _ _ ?m => let h := head_of m in unfold h
  end.

(** The reverts of [Call] and [StaticCall] after a failed precompile. *)
Lemma pscope_revert_if {A} w e0 db0 (b : bool) (k : M (EVM DB) A) :
  ple RE fu w k ->
  pscope RE fu w e0 db0 (gbind (gwhen b (revertTo (Snapshot db0).1)) (fun _ => k)).
Proof.
  intros Hk. destruct b; simpl; [by apply pscope_revert|by apply pscope_ple].
Qed.

Ltac scope_solve :=
  repeat first
    [ lazymatch goal with
      | |- pscope _ _ _ _ _ (gbind (gwhen _ (revertTo _)) _) => apply pscope_revert_if
      end
    | scope_step ].

Lemma ple_callInCaller w a b i g v : ple RE fu w (callInCaller pcs Run a b i g v).
Proof. scope_solve. Qed.

Lemma ple_staticBody w a b i g : ple RE fu w (staticBody pcs Run a b i g).
Proof. scope_solve. Qed.

(** The call methods report failures as values. *)
Definition returns {A} (m : M (EVM DB) A) : Prop := forall e er r e', m e <> Err er r e'.

Lemma returns_bind {A B} (m : M (EVM DB) A) (k : A -> M (EVM DB) B) :
  returns m -> (forall a, returns (k a)) -> returns (gbind m k).
Proof.
  intros Hm Hk e er r e'. unfold gbind. destruct (m e) eqn:E; try done; [apply Hk|].
  by destruct (Hm _ _ _ _ E).
Qed.

Ltac returns_step :=
  lazymatch goal with
  | |- returns (gbind _ _) => apply returns_bind; [|intros ?]
  | |- returns (if ?b then _ else _) => destruct b
  | |- returns (match ?x with _ => _ end) => destruct x
  | |- returns (Run _ _) => intros ?; apply run_returns
  | |- returns (gopt _ ?o) => destruct o; intros ? ? ? ?; discriminate
  | |- returns (readDB _) => intros ? ? ? ?; unfold readDB; destruct (statedb _); discriminate
  | |- returns (mutDB _) => intros ? ? ? ?; unfold mutDB; destruct (statedb _); discriminate
  | |- returns takeSnapshot => intros ? ? ? ?; unfold takeSnapshot; destruct (statedb _); discriminate
  | |- returns (revertTo _) =>
      intros ? ? ? ?; unfold revertTo; destruct (statedb _); [destruct (RevertToSnapshot _ _)|];
      discriminate
  | |- returns (gret _) => intros ? ? ? ?; discriminate
  | |- returns gget => intros ? ? ? ?; discriminate
  | |- returns (gmodify _) => intros ? ? ? ?; discriminate
  | |- returns hasDB => intros ? ? ? ?; discriminate
  | |- returns (precompile _ _) => intros ? ? ? ?; discriminate
  | |- returns ?m => let h := head_of m in unfold h
  end.

Lemma staticBody_returns a b i g : returns (staticBody pcs Run a b i g).
Proof. repeat returns_step. Qed.

Lemma StaticCall_returns a b i g : returns (StaticCall pcs Run a b i g).
Proof. repeat returns_step. Qed.

Lemma Call_returns a b i g v : returns (Call pcs rvrun Run a b i g v).
Proof. repeat returns_step. Qed.

Lemma Create_returns a code g v : returns (Create keccak256 Run a code g v).
Proof. repeat returns_step. Qed.

Lemma ple_StaticCall w a b i g : ple RE fu w (StaticCall pcs Run a b i g).
Proof.
  unfold StaticCall. apply ple_get; cls. intros e W.
  destruct (_ >? _); [by apply (ple_ret RE fu w)|].
  unfold gbind at 1, hasDB. destruct (statedb e) eqn:E; [|by apply (ple_ret RE fu w)]. simpl.
  unfold gbind, gmodify.
  pose proof (ple_staticBody false a b i g (set_readOnly true e)) as P.
  pose proof (staticBody_returns a b i g (set_readOnly true e)) as NE.
  destruct (staticBody _ _ _ _ _ _ _) as [r e'|er r e'|p|]; try (apply P; intros ?; discriminate).
  - destruct P as [Fr Fd Fc Fe]; [intros ?; discriminate|]. split; simpl; try done.
    by apply er_static.
  - by destruct (NE er r e').
Qed.

(** [Call] and [create] transfer value only when not read-only. *)
Lemma ple_transferCall w a b v al c : w = true ->
  ple RE fu w (gbind (transfer a b v al) (fun _ => gwhen c (EmitTransferLog a b v))).
Proof. intros ->. plesolve. Qed.

Lemma ple_Call w a b i g v : ple RE fu w (Call pcs rvrun Run a b i g v).
Proof.
  unfold Call. apply ple_get; cls. intros e W.
  set (w' := negb (readOnly e)).
  assert (writable w' e) as W' by (intros E; by apply negb_true_iff in E).
  assert (forall (A : Type) (m : M (EVM DB) A), ple RE fu w' m -> post_e RE fu e (m e)) as K
    by (intros A m Hm; by apply Hm).
  apply K. clear K.
  assert (readOnly e = negb w') as -> by (unfold w'; by rewrite negb_involutive).
  clearbody w'. clear W W' w.
  apply ple_if; cls; intros ?; [ple_step|]. cbv zeta.
  apply ple_bind; cls; [ple_step|]. intros db. apply ple_bind; cls; [plesolve|]. intros poor.
  apply ple_if; cls; intros ?; [ple_step|]. apply ple_if; cls; intros ?; [ple_step|].
  apply ple_snapshot; cls. intros e0 db0. apply pscope_bind; cls; [ple_step|]. intros p.
  apply pscope_account; cls; [scope_solve|]. apply pscope_if; cls; intros C; [scope_solve|].
  apply pscope_bind; cls.
  { apply ple_when; cls. intros T. apply ple_transferCall. rewrite T in C. by destruct w'. }
  intros _. scope_solve.
Qed.

(** ** Creation *)

Lemma ple_create a code g v x : ple RE fu true (create Run a code g v x).
Proof.
  unfold create. apply ple_get'; cls. intros e. apply ple_if; cls; intros ?; [ple_step|].
  scope_solve.
Qed.

(** Running code whose read-only flag has just been looked up. *)
Lemma ple_by_flag {A} w (k : EVM DB -> M (EVM DB) A) :
  (forall e, ple RE fu (negb (readOnly e)) (k e)) -> ple RE fu w (gbind gget k).
Proof.
  intros Hk. apply ple_get; cls. intros e _. apply Hk. intros E. by apply negb_true_iff in E.
Qed.

Lemma ple_Create w a code g v : ple RE fu w (Create keccak256 Run a code g v).
Proof.
  unfold Create. apply ple_by_flag. intros e. apply ple_if; cls; intros ?; [ple_step|].
  destruct (readOnly e); [apply ple_ret; cls|]. simpl.
  apply ple_bind; cls; [ple_step|]. intros db. apply ple_if; cls; intros ?; [ple_step|].
  apply ple_bind; cls; [ple_step|]. intros nonce. apply ple_bind; cls; [ple_step|]. intros _.
  apply ple_create.
Qed.

Lemma ple_Create2 w a code g v x : ple RE fu w (Create2 keccak256 Run a code g v x).
Proof.
  unfold Create2. apply ple_by_flag. intros e. apply ple_if; cls; intros ?; [ple_step|].
  destruct (readOnly e); [apply ple_ret; cls|]. simpl.
  apply ple_bind; cls; [ple_step|]. intros db. apply ple_if; cls; intros ?; [ple_step|].
  apply ple_bind; cls; [ple_step|]. intros addr. apply ple_create.
Qed.

(** ** The opcodes *)

Abbreviation plany := (pl RE fu (fun _ _ => True)).

#[local] Instance any_preorder : PreOrder (fun _ _ : Z => True).
Proof. by split. Qed.

Ltac call_step :=
  lazymatch goal with
  | |- pl _ _ _ _ _ (liftE (Call _ _ _ _ _ _ _ _)) _ => apply pl_lift; cls; [apply ple_Call|intros ?]
  | |- pl _ _ _ _ _ (liftE (CallCode _ _ _ _ _ _ _)) _ =>
      apply pl_lift; cls; [apply ple_callInCaller|intros ?]
  | |- pl _ _ _ _ _ (liftE (DelegateCall _ _ _ _ _ _)) _ =>
      apply pl_lift; cls; [apply ple_callInCaller|intros ?]
  | |- pl _ _ _ _ _ (liftE (StaticCall _ _ _ _ _ _)) _ =>
      apply pl_lift; cls; [apply ple_StaticCall|intros ?]
  | |- pl _ _ _ _ _ (liftE (Create _ _ _ _ _ _)) _ => apply pl_lift; cls; [apply ple_Create|intros ?]
  | |- pl _ _ _ _ _ (liftE (Create2 _ _ _ _ _ _ _)) _ =>
      apply pl_lift; cls; [apply ple_Create2|intros ?]
  | |- pl _ _ _ _ _ (gmodify _) _ => apply pl_modify; cls; [intros ?; repeat split|]
  | |- _ => pl_step
  end.

Lemma call_exec_ok ex m n :
  call_exec keccak256 pcs rvrun Run m ex -> (m <= n <= 1024)%nat ->
  plany false n ex (fun _ k => (k <= stackLimit)%nat).
Proof.
  intros [[-> ?]|[[-> ?]|[[-> ?]|[[-> ?]|[[-> ?]|[-> ?]]]]]] Hn;
    repeat call_step; simpl; unfold stackLimit in *; try lia.
Qed.

End CallSafe.
