(* ===== verification/ExecSafe.v ===== *)
(** * ExecSafe: what holds of every execution

    The run loop preserves every [EvmRel] and the stack bound, for every
    jump table of the repository. *)

From S2P Require Import Prelude StateDB Machine Calls GasTable Witness Instructions JumpTable.
From S2P Require Import Interpreter Wp InstrSafe CallSafe.

Section Tables.

Context {DB : Type} `{StateDB DB} (RE : EVM DB -> EVM DB -> Prop) `{!EvmRel RE}.
Context (keccak256 : bytes -> bytes).
Context (pcs : gmap Z PrecompiledContract).
Context (rvrun : bytes -> bytes -> Z -> bytes * option vmerr).
Context (run : Contract -> bytes -> M (EVM DB) (Contract * bytes * option vmerr)).

Abbreviation op_good := (op_ok RE keccak256 pcs rvrun run).

Definition table_ok (t : gmap Z (operation DB)) : Prop := map_Forall op_good t.

Lemma assign_ok l t : Forall (fun p => op_good p.1 p.2) l -> table_ok t -> table_ok (assign l t).
Proof.
  unfold assign. revert t. induction l as [|p l IH]; intros t Hl Ht; simpl; [done|].
  apply Forall_cons in Hl as [Hp Hl]. apply IH; [done|]. by apply map_Forall_insert_2.
Qed.

Lemma frontierTable_ok : table_ok (NewFrontierJumpTable keccak256 pcs rvrun run).
Proof.
  unfold NewFrontierJumpTable. apply assign_ok; [|apply map_Forall_empty].
  repeat (apply Forall_app; split);
    [apply frontier_ok|apply push_ok|apply dup_ok|apply swap_ok|apply log_ok]; exact _.
Qed.

Lemma homesteadTable_ok : table_ok (NewHomesteadJumpTable keccak256 pcs rvrun run).
Proof. exact (assign_ok _ _ (homestead_ok _ _ _ _ _) frontierTable_ok). Qed.

Lemma tangerineWhistleTable_ok : table_ok (NewTangerineWhistleJumpTable keccak256 pcs rvrun run).
Proof. exact (assign_ok _ _ (tangerineWhistle_ok _ _ _ _ _) homesteadTable_ok). Qed.

Lemma byzantiumTable_ok : table_ok (NewByzantiumJumpTable keccak256 pcs rvrun run).
Proof. exact (assign_ok _ _ (byzantium_ok _ _ _ _ _) tangerineWhistleTable_ok). Qed.

Lemma constantinopleTable_ok : table_ok (NewConstantinopleJumpTable keccak256 pcs rvrun run).
Proof. exact (assign_ok _ _ (constantinople_ok _ _ _ _ _) byzantiumTable_ok). Qed.

Lemma istanbulTable_ok : table_ok (NewIstanbulJumpTable keccak256 pcs rvrun run).
Proof. exact (assign_ok _ _ (istanbul_ok _ _ _ _ _) constantinopleTable_ok). Qed.

Lemma berlinTable_ok : table_ok (NewBerlinJumpTable keccak256 pcs rvrun run).
Proof. exact (assign_ok _ _ (berlin_ok _ _ _ _ _) istanbulTable_ok). Qed.

Lemma londonTable_ok : table_ok (NewLondonJumpTable keccak256 pcs rvrun run).
Proof. exact (assign_ok _ _ (london_ok _ _ _ _ _) berlinTable_ok). Qed.

Lemma shanghaiTable_ok : table_ok (NewShanghaiJumpTable keccak256 pcs rvrun run).
Proof. exact (assign_ok _ _ (shanghai_ok _ _ _ _ _) londonTable_ok). Qed.

Lemma cancunTable_ok : table_ok (NewCancunJumpTable keccak256 pcs rvrun run).
Proof. exact (assign_ok _ _ (cancun_ok _ _ _ _ _) shanghaiTable_ok). Qed.

Lemma glamsterdanTable_ok : table_ok (NewGlamsterdanJumpTable keccak256 pcs rvrun run).
Proof. exact (assign_ok _ _ (glamsterdan_ok _ _ _ _ _) cancunTable_ok). Qed.

Lemma verkleTable_ok : table_ok (NewVerkleJumpTable keccak256 pcs rvrun run).
Proof. exact (assign_ok _ _ (verkle_ok _ _ _ _ _) glamsterdanTable_ok). Qed.

Lemma iplusTable_ok : table_ok (NewIPlusJumpTable keccak256 pcs rvrun run).
Proof. exact (assign_ok _ _ (iplus_ok _ _ _ _ _) glamsterdanTable_ok). Qed.

Lemma selectTable_ok rules : table_ok (SelectJumpTable keccak256 pcs rvrun run rules).
Proof.
  unfold SelectJumpTable.
  destruct (IsIPlus rules); [exact iplusTable_ok|].
  destruct (IsVerkle rules); [exact verkleTable_ok|].
  destruct (IsGlamsterdan rules); [exact glamsterdanTable_ok|].
  destruct (IsPrague rules); [exact cancunTable_ok|].
  destruct (IsCancun rules); [exact cancunTable_ok|].
  destruct (IsShanghai rules); [exact shanghaiTable_ok|].
  destruct (IsMerge rules); [exact londonTable_ok|].
  destruct (IsLondon rules); [exact londonTable_ok|].
  destruct (IsBerlin rules); [exact berlinTable_ok|].
  destruct (IsIstanbul rules); [exact istanbulTable_ok|].
  destruct (IsConstantinople rules); [exact constantinopleTable_ok|].
  destruct (IsByzantium rules); [exact byzantiumTable_ok|].
  destruct (IsHomestead rules); [exact homesteadTable_ok|exact frontierTable_ok].
Qed.

Lemma frameVerifyTable_ok : table_ok (NewFrameVerifyJumpTable keccak256 pcs rvrun run).
Proof.
  unfold NewFrameVerifyJumpTable. cbn [fold_left].
  repeat apply map_Forall_delete. apply glamsterdanTable_ok.
Qed.

End Tables.

(** ** Steps and executions *)

Section Exec.

Context {DB : Type} `{StateDB DB} (RE : EVM DB -> EVM DB -> Prop) `{!EvmRel RE} (fu : Prop).

#[local] Instance any_gas : PreOrder (fun _ _ : Z => True).
Proof. by split. Qed.

Abbreviation plany := (pl RE fu (fun _ _ => True)).

(** What is shown with the strictest outcome holds with the loosest. *)
Lemma pl_loosen {A} w n (m : M (mstate DB) A) Q : pl RE False eq w n m Q -> plany w n m Q.
Proof.
  intros Hm s L W. specialize (Hm s L W). destruct (m s); simpl in *; try done.
  - destruct Hm as [HQ [_ F]]. by split; [|split].
  - destruct Hm as [_ F]. by split.
Qed.

Lemma pl_chargeGas n g : plany false n (chargeGas g) (fun _ k => k = n).
Proof.
  unfold chargeGas. apply pl_bind; cls. apply pl_get; cls. intros s L _.
  destruct (UseGas g (ctr s)); [apply pl_modify; cls; [by repeat split|done]|apply pl_fail; cls].
Qed.

Lemma pl_dropData {A} w n (m : M (mstate DB) A) Q : plany w n m Q -> plany w n (dropData m) Q.
Proof. intros Hm s L W. specialize (Hm s L W). unfold dropData. by destruct (m s). Qed.

Lemma pl_orOutOfGas {A} w n (m : M (mstate DB) A) Q : plany w n m Q -> plany w n (orOutOfGas m) Q.
Proof. intros Hm s L W. specialize (Hm s L W). unfold orOutOfGas. by destruct (m s). Qed.

Lemma pl_cons {A} w n (m : M (mstate DB) A) (Q Q' : A -> nat -> Prop) :
  (forall a k, Q a k -> Q' a k) -> plany w n m Q -> plany w n m Q'.
Proof. intros HQ Hm s L W. specialize (Hm s L W). destruct (m s); simpl in *; try done. destruct Hm. split; auto. Qed.

(** A monadic program after one that keeps the height. *)
Lemma pl_seq {A B} w n (m : M (mstate DB) A) (k : A -> M (mstate DB) B) Q :
  plany w n m (fun _ k => k = n) -> (forall a, plany w n (k a) Q) -> plany w n (gbind m k) Q.
Proof.
  intros Hm Hk. apply pl_bind; cls. eapply pl_cons; [|exact Hm]. by intros a n' ->.
Qed.

Context (keccak256 : bytes -> bytes).
Context (pcs : gmap Z PrecompiledContract).
Context (rvrun : bytes -> bytes -> Z -> bytes * option vmerr).

Section Step.

Context (run : Contract -> bytes -> M (EVM DB) (Contract * bytes * option vmerr)).
Context (run_ok : forall c i, ple RE fu false (run c i)).
Context (run_returns : forall c i e er r e', run c i e <> Err er r e').

Lemma perform_ok code o n :
  op_ok RE keccak256 pcs rvrun run code o -> (minStack o <= n <= maxStack o)%nat ->
  (n <= stackLimit)%nat ->
  plany false n (perform o) (fun _ k => (k <= stackLimit)%nat).
Proof.
  intros [[Hd Hm] He] Hn Hl. unfold perform.
  apply pl_seq.
  { destruct (_ >? _); [apply pl_chargeGas|by apply pl_ret; cls]. }
  intros _. apply pl_seq.
  { unfold requiredMemory. destruct (memorySize o) as [f|]; [|by apply pl_ret; cls].
    apply pl_seq; [apply pl_loosen, Hm; [done|lia]|]. intros [x|]; [by apply pl_ret; cls|apply pl_fail; cls]. }
  intros x. apply pl_seq.
  { unfold chargeDynamic. destruct (dynamicGas o) as [f|]; [|by apply pl_ret; cls].
    apply pl_seq; [|intros; apply pl_chargeGas]. apply pl_orOutOfGas, pl_loosen, Hd; [done|lia]. }
  intros _. apply pl_seq.
  { unfold resizeMemory. apply pl_modify; cls; [|done]. intros s. by destruct (_ && _). }
  intros _. apply pl_bind; cls. apply pl_dropData.
  assert (plany false n (execute o) (fun _ k => (k <= stackLimit)%nat)) as HX.
  { destruct (calling code); [|apply pl_loosen, He; lia].
    eapply call_exec_ok; [exact _|exact run_ok|exact run_returns|exact He|unfold stackLimit in *; lia]. }
  eapply pl_cons; [|exact HX]. intros r k Hk. cbv beta. destruct (halts o); [by apply pl_ret; cls|].
  apply pl_seq; [|intros; by apply pl_ret; cls].
  destruct (jumps o); [by apply pl_ret; cls|]. apply pl_modify; cls; [by repeat split|done].
Qed.

Lemma step_ok t n :
  table_ok RE keccak256 pcs rvrun run t -> (n <= stackLimit)%nat ->
  plany false n (step t) (fun _ k => (k <= stackLimit)%nat).
Proof.
  intros Ht Hn. unfold step. apply pl_bind; cls. apply pl_get; cls. intros s L _.
  destruct (t !! _) as [o|] eqn:E; [|apply pl_fail; cls].
  destruct (Nat.ltb_spec (length (stk s)) (minStack o)); [apply pl_fail; cls|].
  destruct (Nat.ltb_spec (maxStack o) (length (stk s))); [apply pl_fail; cls|].
  eapply perform_ok; [eapply Ht, E|lia|done].
Qed.

End Step.

(** Every execution keeps the relation, whatever the code, and never indexes
    the stack out of range. *)
Context (jumpTable : (Contract -> bytes -> M (EVM DB) (Contract * bytes * option vmerr)) -> JumpTable DB).
Context (table_good : forall run, table_ok RE keccak256 pcs rvrun run (jumpTable run)).
Context (fuel_ok : fu).

Lemma exec_returns fuel s er r e' : exec jumpTable fuel s <> Err er r e'.
Proof.
  revert s. induction fuel as [|fuel IH]; intros s; simpl; [done|].
  destruct (step _ s) as [[ret|] s'| | |]; done.
Qed.

Lemma exec_ok fuel s :
  (length (stk s) <= stackLimit)%nat -> post_e RE fu (evm s) (exec jumpTable fuel s).
Proof.
  revert s. induction fuel as [|fuel IH]; intros s L; simpl; [done|].
  set (run := fun c input e => exec jumpTable fuel (initFrame c input e)).
  assert (forall c i, ple RE fu false (run c i)) as R1.
  { intros c i e _. apply (IH (initFrame c i e)). simpl. lia. }
  assert (forall c i e er r e', run c i e <> Err er r e') as R2 by (intros; apply exec_returns).
  pose proof (step_ok run R1 R2 (jumpTable run) _ (table_good run) L s eq_refl) as P.
  specialize (P ltac:(intros ?; discriminate)).
  destruct (step (jumpTable run) s) as [[ret|] s'|er r s'|p|]; simpl in *; try done.
  - destruct P as [_ [_ F]]. done.
  - destruct P as [L' [_ F]]. specialize (IH s' L').
    destruct (exec jumpTable fuel s'); simpl in *; try done; by etransitivity.
  - by destruct P.
Qed.

Lemma Run_ok fuel c i : ple RE fu false (Run jumpTable fuel c i).
Proof. intros e _. apply (exec_ok fuel (initFrame c i e)). simpl. lia. Qed.

End Exec.
