(* ===== verification/Fixture.v ===== *)
(** * Fixture: a concrete EVM for the witnesses

    An in-memory world, a stand-in hash function, the identity precompile
    and the fork rules of Cancun and Glamsterdam, on which the theorems'
    hypotheses are evaluated. *)

From S2P Require Import Prelude StateDB MemStateDB MemStateDBProofs Machine Calls GasTable Witness.
From S2P Require Import Instructions JumpTable Interpreter.

(** Any function serves as the hash; this one is injective on short input. *)
Definition fx_keccak (b : bytes) : bytes := be_bytes 32 (SetBytes b + 1).

Definition fx_ops : StateDB MemoryStateDB := MemStateDB_ops fx_keccak.

#[export] Existing Instance fx_ops.

#[export] Instance fx_laws : StateDBLaws MemoryStateDB := MemStateDB_laws fx_keccak.

(** An identity precompile, at a flat price, at address 4. *)
Definition fx_pcs : gmap Z PrecompiledContract :=
  {[ 4 := mkPrecompile (fun _ => 15) (fun i => (i, None)) ]}.

Definition fx_rv (program input : bytes) (gas : Z) : bytes * option vmerr := (input, None).

Definition fx_cancun : ForkRules :=
  mkRules false false false true true true true true true true true true true false false false.
Definition fx_glamsterdan : ForkRules :=
  mkRules false true true true true true true true true true true true true true true false.
Definition fx_istanbul : ForkRules :=
  mkRules false false false false false false false false true true true true true false false false.

Definition fx_block : BlockContext := mkBlockContext None (Some 100) 1000 7 30000000 (Some 1) 0 (Some 1) 5.

(** The world after a list of mutations, oldest first. *)
Definition fx_db (l : list mutation) : MemoryStateDB :=
  fold_left (fun s m => mutate m s) l NewMemoryStateDB.

Definition fx_evm (rules : ForkRules) (db : MemoryStateDB) : EVM MemoryStateDB :=
  NewEVM fx_block (mkTxContext 1 (Some 10) []) 0 1 (Some fx_pcs) rules (Some db).

Abbreviation runner := (Contract -> bytes -> M (EVM MemoryStateDB) (Contract * bytes * option vmerr)).

Definition fx_table (rules : ForkRules) (run : runner) : JumpTable MemoryStateDB :=
  SelectJumpTable fx_keccak fx_pcs fx_rv run rules.

Definition fx_run (rules : ForkRules) (fuel : nat) : runner := Run (fx_table rules) fuel.

Lemma fx_db_wf l : wf_state (fx_db l).
Proof.
  unfold fx_db. assert (wf_state NewMemoryStateDB) as W by apply NewMemoryStateDB_wf.
  revert W. generalize NewMemoryStateDB. induction l as [|m l IH]; intros s W; simpl; [done|].
  apply IH. by apply wf_mutate.
Qed.

(** The state in which a computation ends. *)
Definition end_state {S A} (r : out S A) (d : S) : S :=
  match r with Ok _ s | Err _ _ s => s | _ => d end.

Definition result_of {S A} (r : out S A) (d : A) : A :=
  match r with Ok a _ => a | _ => d end.

(** Contracts: 0xC0 stores 1 in slot 0; 0xB0 sends 5 wei to 0xC0 and then
    self-destructs in favour of 0xD0; 0xF0 stores and reverts. *)
Definition fx_store : bytes := [0x60; 1; 0x60; 0; 0x55; 0x00].
Definition fx_sender : bytes :=
  [0x60; 0; 0x60; 0; 0x60; 0; 0x60; 0; 0x60; 5; 0x60; 0xC0; 0x61; 0xff; 0xff; 0xf1; 0x60; 0xD0; 0xff].
Definition fx_fail : bytes := [0x60; 1; 0x60; 0; 0x55; 0x60; 0; 0x60; 0; 0xfd].

Definition fx_world : MemoryStateDB :=
  fx_db [MAddBalance 1 1000000; MSetCode 0xC0 fx_store; MSetCode 0xB0 fx_sender; MSetCode 0xF0 fx_fail].

Definition fx_e : EVM MemoryStateDB := fx_evm fx_cancun fx_world.
