(* ===== verification/EvmProps.v ===== *)
(** * EvmProps: properties of every EVM execution

    Instances of the relation that executions preserve: stack discipline,
    purity of read-only execution, conservation of the total balance,
    atomicity of failed calls. *)

From stdpp Require Import relations.
From S2P Require Import Prelude StateDB MemStateDB MemStateDBProofs Machine Calls GasTable Witness.
From S2P Require Import Instructions JumpTable Interpreter Wp InstrSafe CallSafe ExecSafe Fixture.

(** ** The world relation

    [world_rel ro Obs]: the state database stays well-formed, snapshots stay
    live, and the databases before and after are related by [Obs].  With
    [ro = true] this is claimed of read-only execution only. *)

Class ObsLaws {DB : Type} `{StateDBLaws DB} (ro : bool) (Obs : DB -> DB -> Prop) := {
  obs_pre :: PreOrder Obs;
  obs_restored : forall s r, restored s r -> supply r = supply s -> Obs s r;
  obs_warm : forall m s, is_warm m = true -> Obs s (mutate m s);
  obs_snapshot : forall s, Obs s (Snapshot s).2;
  obs_account : forall a s, Exist s a = false -> Obs s (CreateAccount a s);
  obs_write : forall m s, ro = false -> is_write m = true -> Obs s (mutate m s);
  obs_transfer : forall a b v s, ro = false -> Obs s (AddBalance b v (SubBalance a v s));
  obs_credit : forall a b v s, ro = false -> Obs s (SubBalance a v (AddBalance b v s));
}.

Section World.

Context {DB : Type} `{L : StateDBLaws DB} (ro : bool) (Obs : DB -> DB -> Prop) `{!ObsLaws ro Obs}.

Record evolves (db db' : DB) : Prop := {
  ev_wf : wf_state db';
  ev_live : forall id s0, live id s0 db -> live id s0 db';
  ev_obs : Obs db db';
}.

Definition world_rel (e e' : EVM DB) : Prop :=
  (ro = true -> readOnly e = true) ->
  (ro = true -> readOnly e' = true) /\
  match statedb e with
  | None => statedb e' = None
  | Some db => wf_state db -> exists db', statedb e' = Some db' /\ evolves db db'
  end.

Lemma evolves_refl db : wf_state db -> evolves db db.
Proof. split; [done|done|reflexivity]. Qed.

Lemma evolves_trans a b c : evolves a b -> evolves b c -> evolves a c.
Proof. intros [] []. split; [done|auto|by etransitivity]. Qed.

(** One journaled mutation, related by [Obs]. *)
Lemma evolves_mutate m db : wf_state db -> Obs db (mutate m db) -> evolves db (mutate m db).
Proof. intros W O. split; [by apply wf_mutate| |done]. intros. by apply live_mutate. Qed.

Lemma evolves_moves m1 m2 db :
  wf_state db -> Obs db (mutate m2 (mutate m1 db)) -> evolves db (mutate m2 (mutate m1 db)).
Proof.
  intros W O. split; [by apply wf_mutate, wf_mutate| |done].
  intros. apply live_mutate; [by apply wf_mutate|by apply live_mutate].
Qed.

Lemma world_rel_db e db db' :
  statedb e = Some db -> (wf_state db -> evolves db db') -> world_rel e (set_statedb (Some db') e).
Proof. intros E Ev R. split; [done|]. rewrite E. intros W. simpl. eauto. Qed.

(** Reverting to a snapshot taken in [db], in a state that evolved from
    there. *)
Lemma evolves_revert db db1 r :
  wf_state db -> evolves (Snapshot db).2 db1 -> RevertToSnapshot (Snapshot db).1 db1 = Some r ->
  evolves db r /\ restored db r.
Proof.
  intros W [W1 L1 _] E.
  assert (live (Snapshot db).1 db db1) as Ll by (by apply L1, live_new).
  assert (restored db r) as R by (by eapply revert_restored).
  split; [|done]. split.
  - by eapply wf_revert.
  - intros id s0 Hl. eapply live_revert; [exact W1| |exact Ll| |exact E].
    + by apply L1, live_snapshot.
    + by eapply live_fresh.
  - apply obs_restored; [done|]. by eapply revert_supply.
Qed.

Lemma not_ro (e : EVM DB) : (ro = true -> readOnly e = true) -> readOnly e = false -> ro = false.
Proof. intros R E. apply not_true_is_false. intros Hr. specialize (R Hr). congruence. Qed.

#[export] Instance world_EvmRel : EvmRel world_rel.
Proof.
  split.
  - split.
    + intros e R. split; [done|]. destruct (statedb e); [|done]. eauto using evolves_refl.
    + intros e1 e2 e3 R1 R2 R. destruct (R1 R) as [Ra Rb]. destruct (R2 Ra) as [Rc Rd].
      split; [done|]. destruct (statedb e1) as [db1|]; [|by rewrite Rb in Rd].
      intros W. destruct (Rb W) as (db2 & E2 & Ev2). rewrite E2 in Rd.
      destruct (Rd (ev_wf _ _ Ev2)) as (db3 & E3 & Ev3). eauto using evolves_trans.
  - intros e e' E1 E2 R. rewrite E1, E2. split; [done|].
    destruct (statedb e); [|done]. eauto using evolves_refl.
  - intros e db m E Hm. apply (world_rel_db _ _ _ E). intros. apply evolves_mutate; [done|].
    by apply obs_warm.
  - intros e db m E Ro Hm R. pose proof (not_ro _ R Ro).
    apply (world_rel_db _ _ _ E); [|done]. intros. apply evolves_mutate; [done|]. by apply obs_write.
  - intros e db a b v E Ro R. pose proof (not_ro _ R Ro).
    apply (world_rel_db _ _ _ E); [|done]. intros.
    apply (evolves_moves (MSubBalance a v) (MAddBalance b v)); [done|]. by apply obs_transfer.
  - intros e db a b v E Ro R. pose proof (not_ro _ R Ro).
    apply (world_rel_db _ _ _ E); [|done]. intros.
    apply (evolves_moves (MAddBalance b v) (MSubBalance a v)); [done|]. by apply obs_credit.
  - intros e db a E Ex. apply (world_rel_db _ _ _ E). intros.
    apply (evolves_mutate (MCreateAccount a)); [done|]. by apply obs_account.
  - intros e db E. apply (world_rel_db _ _ _ E). intros. split; [by apply wf_snapshot| |apply obs_snapshot].
    intros. by apply live_snapshot.
  - intros e db e1 db1 r E R1 Ro E1 Er R. split.
    + intros Hr. simpl. rewrite Ro. auto.
    + rewrite E. intros W. destruct (R1 R) as [_ R2]. simpl in R2.
      destruct (R2 (wf_snapshot _ W)) as (db2 & E2 & Ev). rewrite E1 in E2. injection E2 as <-.
      exists r. split; [done|]. by apply (evolves_revert db db1 r).
  - intros e e1 R1 Ro R. destruct (R1 ltac:(done)) as [_ R2]. split; [done|]. exact R2.
Qed.

End World.

(** *** Observations *)

#[export] Instance any_ObsLaws {DB} `{StateDBLaws DB} : ObsLaws false (fun _ _ : DB => True).
Proof. by split. Qed.

Definition same_supply {DB} `{StateDBLaws DB} (s r : DB) : Prop := supply r = supply s.

#[export] Instance supply_ObsLaws {DB} `{L : StateDBLaws DB} : ObsLaws false (same_supply (DB := DB)).
Proof.
  unfold same_supply. split.
  - split; [done|]. intros a b c E1 E2. congruence.
  - done.
  - intros m s Hm. pose proof (supply_mutate m s). by destruct m.
  - apply supply_Snapshot.
  - apply supply_Create.
  - intros m s _ Hm. pose proof (supply_mutate m s). by destruct m.
  - intros a b v s _. rewrite supply_Add, supply_Sub. lia.
  - intros a b v s _. rewrite supply_Sub, supply_Add. lia.
Qed.

#[export] Instance same_world_ObsLaws {DB} `{L : StateDBLaws DB} : ObsLaws true (same_world (DB := DB)).
Proof.
  split.
  - exact _.
  - intros s r R _. apply R.
  - intros [] s Hm; try done; [apply same_AddAddress|apply same_AddSlot].
  - apply same_Snapshot.
  - apply same_CreateAccount.
  - done.
  - done.
  - done.
Qed.

(** ** Theorems *)

Section Theorems.

Context {DB : Type} `{L : StateDBLaws DB}.
Context (keccak256 : bytes -> bytes).
Context (pcs : gmap Z PrecompiledContract).
Context (rvrun : bytes -> bytes -> Z -> bytes * option vmerr).

Abbreviation table rules := (fun run => SelectJumpTable keccak256 pcs rvrun run rules).

Lemma table_run_ok (RE : EVM DB -> EVM DB -> Prop) `{!EvmRel RE} rules fuel c i :
  ple RE True false (Run (table rules) fuel c i).
Proof.
  apply (Run_ok RE True keccak256 pcs rvrun); [|done]. intros run. by apply selectTable_ok.
Qed.

Lemma table_run_returns rules fuel c i (e : EVM DB) er r e' :
  Run (table rules) fuel c i e <> Err er r e'.
Proof. apply exec_returns. Qed.

(** C27. The interpreter never indexes its operand stack out of range: for the
    jump table of every fork, no code, input, gas or EVM state makes [Run]
    panic on a stack access, also in nested calls; and when [Run] returns,
    call depth, read-only flag and configuration are as before. *)
Theorem run_stack_safe rules fuel contract input (e : EVM DB) :
  match Run (table rules) fuel contract input e with
  | Ok _ e' => depth e' = depth e /\ readOnly e' = readOnly e /\ config e' = config e
  | Err _ _ _ => False
  | Panic p => p <> PStack
  | Fuel => True
  end.
Proof.
  pose proof (table_run_ok (fun _ _ => True) rules fuel contract input e) as P.
  specialize (P ltac:(intros ?; discriminate)).
  pose proof (table_run_returns rules fuel contract input e) as N.
  destruct (Run _ _ _ _ _) as [r e'|er r e'|p|]; simpl in *; try done; [|naive_solver].
  by destruct P.
Qed.

(** Executions of one frame, step by step. *)
Definition steps_to (rules : ForkRules) (fuel : nat) : mstate DB -> mstate DB -> Prop :=
  rtc (fun s s' => step (table rules (Run (table rules) fuel)) s = Ok None s').

(** In every state that a frame reaches from its start the operand stack
    holds at most 1024 words, for every fork. *)
Lemma stack_bounded rules fuel contract input (e : EVM DB) s :
  steps_to rules fuel (initFrame contract input e) s ->
  (length (stk s) <= 1024)%nat.
Proof.
  intros R. assert (length (stk (initFrame contract input e)) <= 1024)%nat as Hl by (simpl; lia).
  induction R as [s|s1 s2 s3 Hs _ IH]; [done|]. apply IH.
  pose proof (step_ok (fun _ _ => True) True keccak256 pcs rvrun (Run (table rules) fuel)
    (table_run_ok _ rules fuel) (table_run_returns rules fuel)
    (SelectJumpTable keccak256 pcs rvrun (Run (table rules) fuel) rules) _
    ltac:(by apply selectTable_ok) Hl s1 eq_refl
    ltac:(intros ?; discriminate)) as P.
  rewrite Hs in P. apply P.
Qed.

(** C26. STATICCALL is pure: whatever code runs inside, in every fork, all
    balances, nonces, code, storage, transient storage, self-destruct
    marks, logs and the refund counter are afterwards what they were before
    the call, existing accounts still exist with the same code hash, and
    the read-only flag has its previous value. *)
Theorem static_call_pure rules fuel caller addr input gas (e : EVM DB) db r e' :
  statedb e = Some db -> wf_state db ->
  StaticCall pcs (Run (table rules) fuel) caller addr input gas e = Ok r e' ->
  readOnly e' = readOnly e /\ exists db', statedb e' = Some db' /\ same_world db db'.
Proof.
  intros E W Hc.
  set (m := staticBody pcs (Run (table rules) fuel) caller addr input gas).
  pose proof (ple_staticBody (world_rel true same_world) True pcs _
    (table_run_ok (world_rel true same_world) rules fuel) (table_run_returns rules fuel)
    false caller addr input gas) as P. fold m in P.
  unfold StaticCall in Hc. revert Hc. unfold gbind at 1, gget.
  destruct (depth e >? _); [intros [= <- <-]; split; [done|]; exists db; by split|].
  unfold gbind, hasDB, gmodify. rewrite E. simpl. fold m. specialize (P (set_readOnly true e) ltac:(intros ?; discriminate)).
  destruct (m (set_readOnly true e)) as [a e1|er b e1|p|]; [|done..].
  intros [= <- <-]. split; [done|]. destruct P as [_ _ _ Pw].
  destruct (Pw ltac:(done)) as [_ Pd]. simpl in Pd. rewrite E in Pd.
  destruct (Pd W) as (db' & E' & Ev). exists db'. split; [done|]. apply Ev.
Qed.

Lemma evolves_from (Obs : DB -> DB -> Prop) `{!ObsLaws false Obs} {A} (m : M (EVM DB) A) e db r e' :
  ple (world_rel false Obs) True false m -> statedb e = Some db -> wf_state db ->
  m e = Ok r e' -> exists db', statedb e' = Some db' /\ evolves Obs db db'.
Proof.
  intros P E W Em. specialize (P e ltac:(intros ?; discriminate)). rewrite Em in P.
  destruct P as [_ _ _ Pw]. destruct (Pw ltac:(done)) as [_ Pd]. rewrite E in Pd. by apply Pd.
Qed.

(** C3. The EVM neither mints nor destroys ether: over a whole message call
    or contract creation, with any nesting of calls, value transfers,
    self-destructs, failures and reverts, in any fork, the sum of all
    account balances stays the same. *)
Theorem supply_conserved rules fuel (e : EVM DB) db e' :
  statedb e = Some db -> wf_state db ->
  ((exists caller addr input gas value r,
      Call pcs rvrun (Run (table rules) fuel) caller addr input gas value e = Ok r e') \/
   (exists caller code gas value r,
      Create keccak256 (Run (table rules) fuel) caller code gas value e = Ok r e') \/
   (exists caller code gas value salt r,
      Create2 keccak256 (Run (table rules) fuel) caller code gas value salt e = Ok r e')) ->
  exists db', statedb e' = Some db' /\ supply db' = supply db.
Proof.
  intros E W Hm.
  pose proof (table_run_ok (world_rel false same_supply) rules fuel) as R.
  pose proof (table_run_returns rules fuel) as N.
  assert (exists db', statedb e' = Some db' /\ evolves same_supply db db') as (db' & E' & Ev).
  { destruct Hm as [(c & a & i & g & v & r & Hm)|[(c & code & g & v & r & Hm)|(c & code & g & v & x & r & Hm)]];
      refine (evolves_from same_supply _ e db r e' _ E W Hm);
      [apply ple_Call|apply ple_Create|apply ple_Create2]; auto; exact _. }
  exists db'. split; [done|]. apply Ev.
Qed.

(** *** Atomicity *)

Abbreviation grows := (world_rel (DB := DB) false (fun _ _ => True)).
Abbreviation callres := (bytes * Z * option vmerr)%type.

(** A failure leaves a database that is restored to [db0]. *)
Definition fails_clean (db0 : DB) (r : out (EVM DB) callres) : Prop :=
  match r with
  | Ok (_, _, Some _) e' => exists db', statedb e' = Some db' /\ restored db0 db'
  | _ => True
  end.

(** [m], run after a snapshot of [db0] was taken, fails clean. *)
Definition clean_after (w : bool) (db0 : DB) (m : M (EVM DB) callres) : Prop :=
  forall e db, statedb e = Some db -> evolves (fun _ _ => True) (Snapshot db0).2 db ->
    writable w e -> fails_clean db0 (m e).

Lemma clean_bind {A} w db0 (m : M (EVM DB) A) k :
  ple grows True w m -> (forall a, clean_after w db0 (k a)) -> clean_after w db0 (gbind m k).
Proof.
  intros Hm Hk e db E Ev We. unfold gbind. specialize (Hm e We).
  destruct (m e) as [a e'| | |]; try done. pose proof (writable_fr _ w _ _ Hm We).
  destruct Hm as [_ _ _ Hw]. destruct (Hw ltac:(done)) as [_ Hd]. rewrite E in Hd.
  destruct (Hd (ev_wf _ _ _ Ev)) as (db' & E' & Ev').
  apply (Hk a e' db'); [done| |done]. by apply (evolves_trans false _ _ db).
Qed.

Lemma clean_ret w db0 r g : clean_after w db0 (gret (r, g, None)).
Proof. done. Qed.

Lemma clean_revert w db0 (err : option vmerr) (k : M (EVM DB) callres) :
  wf_state db0 -> (err = None -> clean_after w db0 k) ->
  (forall e, exists r g, k e = Ok (r, g, err) e) ->
  clean_after w db0 (gbind (gwhen (match err with Some _ => true | None => false end)
                                (revertTo (Snapshot db0).1)) (fun _ => k)).
Proof.
  intros W Hk Hr. destruct err as [er|]; simpl; [|by auto]. intros e db E Ev _.
  unfold gbind, revertTo. rewrite E. destruct (RevertToSnapshot _ db) as [r|] eqn:Er; [|done].
  destruct (Hr (set_statedb (Some r) e)) as (b & g & ->). simpl. exists r. split; [done|].
  by apply (evolves_revert false (fun _ _ => True) db0 db r).
Qed.

Lemma clean_settle w db0 c ret err :
  wf_state db0 -> clean_after w db0 (settle (Snapshot db0).1 c ret err).
Proof.
  intros W. destruct err as [er|]; simpl; [|done].
  apply (clean_revert w db0 (Some er)); [done|done|]. intros e. by eexists _, _.
Qed.

Lemma clean_get w db0 (k : EVM DB -> M (EVM DB) callres) :
  (forall e, clean_after w db0 (k e)) -> clean_after w db0 (gbind gget k).
Proof. intros Hk e db E Ev We. by apply (Hk e e db). Qed.

Ltac clean_step :=
  lazymatch goal with
  | |- clean_after _ _ (gret (_, _, None)) => apply clean_ret
  | |- clean_after _ _ (settle _ _ _ _) => apply clean_settle
  | |- clean_after _ _ (gbind (gwhen _ (revertTo _)) _) =>
      apply clean_revert; [done|intros ->; apply clean_ret|intros ?; by eexists _, _]
  | |- clean_after _ _ (gbind gget _) => apply clean_get; intros ?
  | |- clean_after _ _ (gbind (runNested _ _ _) _) =>
      apply clean_bind; [apply ple_runNested; auto; exact _|intros ?]
  | |- clean_after _ _ (gbind _ _) => apply clean_bind; [solve [plesolve]|intros ?]
  | |- clean_after _ _ (match ?x with _ => _ end) => destruct x eqn:?
  end.

(** A snapshot scope whose body fails clean. *)
Lemma clean_scope w e db (k : Z -> M (EVM DB) callres) :
  statedb e = Some db -> wf_state db -> writable w e -> clean_after w db (k (Snapshot db).1) ->
  fails_clean db (gbind takeSnapshot k e).
Proof.
  intros E W We Hk. unfold gbind, takeSnapshot. rewrite E.
  apply (Hk (set_statedb (Some (Snapshot db).2) e) (Snapshot db).2); [done| |done].
  apply (evolves_refl false); [exact _|by apply wf_snapshot].
Qed.

Lemma clean_account w db0 a (c : bool) (m k : M (EVM DB) callres) :
  clean_after w db0 m -> clean_after w db0 k ->
  clean_after w db0 (gbind (readDB (fun db => Exist db a)) (fun ex =>
           if negb ex && c then m
           else gbind (gwhen (negb ex) (mutDB (MCreateAccount a))) (fun _ => k))).
Proof.
  intros Hm Hk e db E Ev We. unfold gbind at 1, readDB. rewrite E.
  destruct (Exist db a) eqn:Ex; [by apply (Hk e db)|]. simpl. destruct c; [by apply (Hm e db)|].
  unfold gbind, mutDB. rewrite E. apply (Hk _ (mutate (MCreateAccount a) db)); [done| |done].
  apply (evolves_trans false _ _ db); [done|]. apply evolves_mutate; [apply Ev|done].
Qed.

Lemma unchanged_clean (e : EVM DB) db r g err : statedb e = Some db -> fails_clean db (Ok (r, g, err) e).
Proof. intros E. destruct err; [|done]. exists db. by split. Qed.

Section Clean.

Context (run : Contract -> bytes -> M (EVM DB) (Contract * bytes * option vmerr)).
Context (run_ok : forall c i, ple grows True false (run c i)).
Context (run_returns : forall c i e er r e', run c i e <> Err er r e').

Lemma callInCaller_clean e db caller addr input gas value :
  statedb e = Some db -> wf_state db ->
  fails_clean db (callInCaller pcs run caller addr input gas value e).
Proof.
  intros E W. unfold callInCaller. unfold gbind at 1, gget.
  destruct (_ >? _); [by apply unchanged_clean|]. unfold gbind at 1, precompile.
  destruct (_ !! addr) as [p|].
  { destruct (runPrecompile p input gas) as [[r g] err]. by apply unchanged_clean. }
  unfold gbind at 1, hasDB. rewrite E. simpl. apply (clean_scope false); [done..|]. repeat clean_step; done.
Qed.

Lemma staticBody_clean e db caller addr input gas :
  statedb e = Some db -> wf_state db ->
  fails_clean db (staticBody pcs run caller addr input gas e).
Proof.
  intros E W. unfold staticBody. apply (clean_scope false); [done..|]. repeat clean_step; done.
Qed.

Lemma Call_clean e db caller addr input gas value :
  statedb e = Some db -> wf_state db -> readOnly e = false ->
  fails_clean db (Call pcs rvrun run caller addr input gas value e).
Proof.
  intros E W Ro. unfold Call. unfold gbind at 1, gget at 1. rewrite Ro.
  destruct (_ >? _); [by apply unchanged_clean|]. cbv zeta. unfold gbind at 1, hasDB. rewrite E.
  unfold gbind at 1.
  match goal with |- context [(if ?c then ?x else ?y) e] =>
    assert (exists b, (if c then x else y) e = Ok b e) as [b ->] end.
  { destruct (_ && _); [|by eexists]. unfold gbind, readDB. rewrite E. by eexists. }
  destruct b; [by apply unchanged_clean|]. simpl.
  apply (clean_scope true); [done|done|by intros _|]. apply clean_bind; [solve [plesolve]|]. intros p.
  apply clean_account; [apply clean_ret|]. rewrite andb_false_r.
  apply clean_bind; [apply ple_when; cls; intros _; apply ple_transferCall; cls; reflexivity|]. intros _.
  repeat clean_step; done.
Qed.

End Clean.

(** C2. A failed message call is undone: when [Call], [CallCode],
    [DelegateCall] or [StaticCall] returns an error, whatever the callee did
    before failing, every balance, nonce, code, storage and transient slot,
    self-destruct mark, log and the refund counter reads as before the call,
    and every account that existed has its code hash.  An account that did not
    exist is still absent, or was left behind as an empty account with the code
    hash of empty code.  Outside read-only mode the access list reads as before
    the call too (in read-only mode the code does not restore it). *)
Theorem failed_call_reverts rules fuel caller addr input gas value (e : EVM DB) db ret left er e' :
  statedb e = Some db -> wf_state db ->
  (Call pcs rvrun (Run (table rules) fuel) caller addr input gas value e = Ok (ret, left, Some er) e' \/
   CallCode pcs (Run (table rules) fuel) caller addr input gas value e = Ok (ret, left, Some er) e' \/
   DelegateCall pcs (Run (table rules) fuel) caller addr input gas e = Ok (ret, left, Some er) e' \/
   StaticCall pcs (Run (table rules) fuel) caller addr input gas e = Ok (ret, left, Some er) e') ->
  exists db', statedb e' = Some db' /\ same_world db db' /\ (readOnly e = false -> restored db db').
Proof.
  intros E W Hm.
  pose proof (table_run_ok grows rules fuel) as R. pose proof (table_run_returns rules fuel) as N.
  enough ((exists db', statedb e' = Some db' /\ restored db db') \/
          (readOnly e = true /\ exists db', statedb e' = Some db' /\ same_world db db'))
    as [(db' & E' & Hr)|(Ro & db' & E' & Hs)].
  { exists db'. split; [done|]. split; [apply Hr|done]. }
  { exists db'. split; [done|]. split; [done|]. congruence. }
  destruct Hm as [Hm|[Hm|[Hm|Hm]]].
  - destruct (readOnly e) eqn:Ro.
    + right. split; [done|].
      pose proof (ple_Call (world_rel true same_world) True pcs rvrun _
        (table_run_ok (world_rel true same_world) rules fuel) N false caller addr input gas value e
        ltac:(intros ?; discriminate)) as P.
      rewrite Hm in P. destruct P as [_ _ _ P]. destruct (P ltac:(done)) as [_ Pd]. rewrite E in Pd.
      destruct (Pd W) as (db' & E' & Ev). exists db'. split; [done|apply Ev].
    + left. pose proof (Call_clean _ R N e db caller addr input gas value E W Ro) as C.
      by rewrite Hm in C.
  - left. pose proof (callInCaller_clean _ R N e db caller addr input gas value E W) as C.
    unfold CallCode in Hm. by rewrite Hm in C.
  - left. pose proof (callInCaller_clean _ R N e db caller addr input gas None E W) as C.
    unfold DelegateCall in Hm. by rewrite Hm in C.
  - left. pose proof (staticBody_clean _ R N (set_readOnly true e) db caller addr input gas E W) as C.
    unfold StaticCall in Hm. revert Hm. unfold gbind at 1, gget.
    destruct (depth e >? _); [intros [= <- <- <- <-]; by exists db|].
    unfold gbind, hasDB, gmodify. rewrite E. simpl.
    destruct (staticBody _ _ _ _ _ _ _) as [a e1|? ? ?|?|]; [|done..].
    intros [= -> <-]. exact C.
Qed.

End Theorems.

(** ** Witnesses *)

Definition w_frame : mstate MemoryStateDB :=
  initFrame (set_CodeHash fx_sender 0 (NewContract 1 0xB0 (Some 0) 100000)) [] fx_e.
Definition w_next : mstate MemoryStateDB :=
  end_state (step (fx_table fx_cancun (fx_run fx_cancun 10)) w_frame) w_frame.

Lemma stack_bounded_witness : (length (stk w_next) <= 1024)%nat /\ stk w_next = [0].
Proof.
  split; [|vm_compute; reflexivity].
  apply (stack_bounded fx_keccak fx_pcs fx_rv fx_cancun 10
    (set_CodeHash fx_sender 0 (NewContract 1 0xB0 (Some 0) 100000)) [] fx_e).
  apply rtc_once. vm_compute. reflexivity.
Defined.

Definition w_static : out (EVM MemoryStateDB) (bytes * Z * option vmerr) :=
  StaticCall fx_pcs (fx_run fx_cancun 20) 1 0xC0 [] 50000 fx_e.

(** The store inside the static call fails, and nothing changed. *)
Lemma static_call_pure_witness :
  result_of w_static ([], 0, None) = ([], 0, Some ErrWriteProtection) /\
  (readOnly (end_state w_static fx_e) = false /\
   exists db', statedb (end_state w_static fx_e) = Some db' /\ same_world fx_world db').
Proof.
  split; [vm_compute; reflexivity|].
  apply (static_call_pure fx_keccak fx_pcs fx_rv fx_cancun 20 1 0xC0 [] 50000 fx_e fx_world
    (result_of w_static ([], 0, None)) (end_state w_static fx_e)).
  - reflexivity.
  - apply fx_db_wf.
  - vm_compute. reflexivity.
Defined.

Definition w_call : out (EVM MemoryStateDB) (bytes * Z * option vmerr) :=
  Call fx_pcs fx_rv (fx_run fx_cancun 30) 1 0xB0 [] 100000 (Some 100) fx_e.

(** 0xB0 receives 100, passes 5 on to 0xC0 and the rest to 0xD0. *)
Lemma supply_conserved_witness :
  (exists db', statedb (end_state w_call fx_e) = Some db' /\ supply db' = supply fx_world) /\
  option_map (fun db => (GetBalance db 1, GetBalance db 0xB0, GetBalance db 0xC0, GetBalance db 0xD0))
    (statedb (end_state w_call fx_e)) = Some (999900, 0, 5, 95).
Proof.
  split; [|vm_compute; reflexivity].
  apply (supply_conserved fx_keccak fx_pcs fx_rv fx_cancun 30 fx_e fx_world (end_state w_call fx_e)).
  - reflexivity.
  - apply fx_db_wf.
  - left. exists 1, 0xB0, [], 100000, (Some 100), (result_of w_call ([], 0, None)).
    vm_compute. reflexivity.
Defined.

Definition w_failed : out (EVM MemoryStateDB) (bytes * Z * option vmerr) :=
  Call fx_pcs fx_rv (fx_run fx_cancun 30) 1 0xF0 [] 100000 (Some 100) fx_e.

Lemma failed_call_reverts_witness :
  exists db', statedb (end_state w_failed fx_e) = Some db' /\ same_world fx_world db' /\
    (readOnly fx_e = false -> restored fx_world db').
Proof.
  apply (failed_call_reverts fx_keccak fx_pcs fx_rv fx_cancun 30 1 0xF0 [] 100000 (Some 100) fx_e
    fx_world [] (result_of w_failed ([], 0, None)).1.2 ErrExecutionReverted (end_state w_failed fx_e)).
  - reflexivity.
  - apply fx_db_wf.
  - left. vm_compute. reflexivity.
Defined.
