(* ===== verification/GasSafe.v ===== *)
(** * GasSafe: gas accounting of calls

    What a message call or creation returns is at most the gas it was given,
    provided the nested interpreter returns at most what it was given.
    Exhausted fuel is excluded throughout, so these lemmas carry the
    termination argument. *)

From S2P Require Import Prelude StateDB Machine Calls GasTable Witness Instructions JumpTable.
From S2P Require Import Interpreter Wp InstrSafe CallSafe ExecSafe.

(** ** Saturating arithmetic *)

Lemma safeAdd_spec a b :
  is_u64 a -> is_u64 b -> safeAdd a b = Z.min (a + b) MaxUint64 /\ is_u64 (safeAdd a b).
Proof.
  unfold is_u64, safeAdd, MaxUint64. intros Ha Hb. destruct (Z.gtb_spec a (2 ^ 64 - 1 - b)).
  - lia.
  - rewrite u64_small by (unfold is_u64; lia). lia.
Qed.

Lemma safeAdd_nonneg a b : 0 <= safeAdd a b.
Proof. unfold safeAdd, MaxUint64. destruct (_ >? _); [lia|]. pose proof (u64_range (a + b)). unfold is_u64 in *. lia. Qed.

Lemma safeMul_nonneg a b : 0 <= safeMul a b.
Proof.
  unfold safeMul, MaxUint64. destruct (_ || _); [lia|]. destruct (_ >? _); [lia|].
  pose proof (u64_range (a * b)). unfold is_u64 in *. lia.
Qed.

Lemma u64_nonneg x : 0 <= u64 x.
Proof. pose proof (u64_range x). unfold is_u64 in *. lia. Qed.

Lemma memExpansionGas_u64 len x : is_u64 (memExpansionGas len x).
Proof.
  unfold memExpansionGas. destruct (_ =? 0); [unfold is_u64; lia|].
  destruct (len =? 0); [apply u64_range|]. destruct (_ >? _); [apply u64_range|unfold is_u64; lia].
Qed.

(** The 63/64 rule never hands out more than what is left after the base
    cost, and nothing when the base cost is not covered. *)
Lemma callGasEIP150_bound gas base req :
  is_u64 gas -> is_u64 base -> is_u64 req ->
  0 <= callGasEIP150 gas base req /\
  (base <= gas -> base + callGasEIP150 gas base req <= gas) /\
  (gas < base -> callGasEIP150 gas base req = 0).
Proof.
  unfold is_u64, callGasEIP150, CallGasFraction. intros Hg Hb Hr.
  destruct (Z.ltb_spec gas base); [lia|].
  assert (0 <= (gas - base) / 64 <= gas - base) as Hd.
  { split; [apply Z.div_pos; lia|]. apply Z.div_le_upper_bound; lia. }
  rewrite (u64_small (gas - base)) by (unfold is_u64; lia).
  rewrite u64_small by (unfold is_u64; lia).
  destruct (Z.gtb_spec req (gas - base - (gas - base) / 64)); lia.
Qed.

Lemma UseGas_Some g c c' :
  0 <= g -> is_u64 (Gas c) -> UseGas g c = Some c' -> g <= Gas c /\ c' = set_Gas (Gas c - g) c.
Proof.
  unfold UseGas, is_u64. intros Hg Hc. destruct (Z.ltb_spec (Gas c) g); [done|]. intros [= <-].
  split; [lia|]. rewrite u64_small by (unfold is_u64; lia). done.
Qed.

(** ** EVM code that keeps the configuration and does not run out of fuel *)

Section Calls.

Context {DB : Type} `{StateDB DB}.
Context (keccak256 : bytes -> bytes).
Context (pcs : gmap Z PrecompiledContract).
Context (rvrun : bytes -> bytes -> Z -> bytes * option vmerr).
Context (run : Contract -> bytes -> M (EVM DB) (Contract * bytes * option vmerr)).

(** The precompiles in use report their cost as a uint64. *)
Definition pcs_u64 (c : Config) : Prop :=
  map_Forall (fun _ p => forall i, is_u64 (RequiredGas p i)) (default pcs (precompiles c)).

Definition nf {A} (m : M (EVM DB) A) : Prop := forall e,
  match m e with
  | Ok _ e' | Err _ _ e' => config e' = config e
  | Panic _ => True
  | Fuel => False
  end.

Lemma nf_bind {A B} (m : M (EVM DB) A) (k : A -> M (EVM DB) B) :
  nf m -> (forall a, nf (k a)) -> nf (gbind m k).
Proof.
  intros Hm Hk e. unfold gbind. specialize (Hm e). destruct (m e) as [a e'| | |]; try done.
  specialize (Hk a e'). destruct (k a e'); try done; congruence.
Qed.

Ltac nf_step :=
  lazymatch goal with
  | |- nf (gbind _ _) => apply nf_bind; [|intros ?]
  | |- nf (gret _) => done
  | |- nf (gmodify _) => done
  | |- nf hasDB => done
  | |- nf gget => done
  | |- nf (precompile _ _) => done
  | |- nf (gopt _ ?o) => intros ?; by destruct o
  | |- nf (readDB _) => intros ?; unfold readDB; by destruct (statedb _)
  | |- nf (mutDB _) => intros ?; unfold mutDB; by destruct (statedb _)
  | |- nf takeSnapshot => intros ?; unfold takeSnapshot; by destruct (statedb _)
  | |- nf (revertTo _) =>
      intros ?; unfold revertTo; destruct (statedb _); [by destruct (RevertToSnapshot _ _)|done]
  | |- nf (match ?x with _ => _ end) => destruct x
  | |- nf ?m => let h := head_of m in unfold h
  end.

(** ** Calls return at most what they were given *)

(** [gc left g m]: the gas [left] of the result is between 0 and [g]. *)
Definition gc {A} (left : A -> Z) (g : Z) (m : M (EVM DB) A) : Prop := forall e,
  pcs_u64 (config e) ->
  match m e with
  | Ok a e' => 0 <= left a <= g /\ config e' = config e
  | Err _ _ e' => config e' = config e
  | Panic _ => True
  | Fuel => False
  end.

Lemma gc_bind {A B} left g (m : M (EVM DB) A) (k : A -> M (EVM DB) B) :
  nf m -> (forall a, gc left g (k a)) -> gc left g (gbind m k).
Proof.
  intros Hm Hk e P. unfold gbind. specialize (Hm e). destruct (m e) as [a e'| | |]; try done.
  specialize (Hk a e'). rewrite Hm in Hk. specialize (Hk P). by destruct (k a e').
Qed.

Lemma gc_ret {A} left g (a : A) : 0 <= left a <= g -> gc left g (gret a).
Proof. intros Ha e _. by split. Qed.

Lemma gc_precompile {B} left g a (k : option PrecompiledContract -> M (EVM DB) B) :
  gc left g (k None) -> (forall p, (forall i, is_u64 (RequiredGas p i)) -> gc left g (k (Some p))) ->
  gc left g (gbind (precompile pcs a) k).
Proof.
  intros Hn Hs e P. unfold gbind, precompile.
  destruct (default pcs (precompiles (config e)) !! a) as [p|] eqn:E; [|by apply Hn].
  apply Hs; [|done]. by apply (P a p).
Qed.

(** The nested interpreter, called with less than [G] gas. *)
Context (G : Z).
Context (run_gas : forall c i e, pcs_u64 (config e) -> 0 <= Gas c < G ->
  match run c i e with
  | Ok (c', _, _) e' => 0 <= Gas c' <= Gas c /\ config e' = config e
  | Err _ _ _ => False
  | Panic _ => True
  | Fuel => False
  end).

Lemma gc_runNested {B} left g c i (k : Contract * bytes * option vmerr -> M (EVM DB) B) :
  0 <= Gas c < G ->
  (forall c' r err, 0 <= Gas c' <= Gas c -> gc left g (k (c', r, err))) ->
  gc left g (gbind (runNested run c i) k).
Proof.
  intros Hc Hk e P. unfold gbind, runNested, gbind, gmodify, gret.
  pose proof (run_gas c i (set_depth (depth e + 1) e) P Hc) as R.
  destruct (run c i _) as [[[c' r] err] e'| | |]; try done. destruct R as [Hc' Ec].
  specialize (Hk c' r err Hc' (set_depth (depth e' - 1) e')). simpl in Hk. rewrite Ec in Hk.
  specialize (Hk P). by destruct (k _ _).
Qed.

Abbreviation callres := (bytes * Z * option vmerr)%type.
Abbreviation left3 := (fun r : callres => r.1.2).

Lemma runPrecompile_left p i g :
  (forall i, is_u64 (RequiredGas p i)) -> is_u64 g -> 0 <= (runPrecompile p i g).1.2 <= g.
Proof.
  intros Hp Hg. unfold runPrecompile. specialize (Hp i). unfold is_u64 in *.
  destruct (Z.ltb_spec g (RequiredGas p i)); [simpl; lia|].
  destruct (RunPrecompile p i) as [o err]. simpl. rewrite u64_small by (unfold is_u64; lia). lia.
Qed.

Lemma runRVContract_left code i g : is_u64 g -> 0 <= (runRVContract rvrun code i g).1.2 <= g.
Proof.
  intros Hg. unfold runRVContract. unfold is_u64 in *. destruct (_ =? 0); [simpl; lia|].
  destruct (rvrun _ i g) as [o [er|]]; simpl; [lia|].
  destruct (Z.gtb_spec ((zlen (drop 3 code) / 4) *u 200) g); simpl; [lia|].
  pose proof (u64_nonneg (zlen (drop 3 code) / 4 * 200)). rewrite u64_small by (unfold is_u64; lia). lia.
Qed.

Lemma gc_settle id c r err g : 0 <= Gas c <= g -> gc left3 g (settle id c r err).
Proof.
  intros Hc. destruct err as [er|]; simpl; [|by apply gc_ret].
  apply gc_bind; [nf_step|]. intros _. apply gc_ret. simpl. destruct (is_revert er); lia.
Qed.

Lemma gc_Call a b i g v : is_u64 g -> g < G -> gc left3 g (Call pcs rvrun run a b i g v).
Proof.
  intros Hg HG. unfold Call. apply gc_bind; [done|]. intros e0.
  assert (0 <= g <= g) as Hgg by (unfold is_u64 in Hg; lia).
  destruct (_ >? _); [by apply gc_ret|]. cbv zeta. apply gc_bind; [done|]. intros db.
  apply gc_bind; [repeat nf_step|]. intros poor. destruct poor; [by apply gc_ret|].
  destruct (negb db); [by apply gc_ret|]. apply gc_bind; [nf_step|]. intros id.
  apply gc_precompile.
  - apply gc_bind; [nf_step|]. intros ex. destruct (_ && _); [by apply gc_ret|].
    apply gc_bind; [repeat nf_step|]. intros _. destruct (_ && _); [by apply gc_ret|].
    apply gc_bind; [repeat nf_step|]. intros _. apply gc_bind; [nf_step|]. intros code.
    destruct (_ =? 0); [by apply gc_ret|]. destruct (_ && _).
    + pose proof (runRVContract_left code i g Hg) as Hl.
      destruct (runRVContract rvrun code i g) as [[r l] err]. apply gc_bind; [repeat nf_step|].
      intros _. by apply gc_ret.
    + apply gc_bind; [nf_step|]. intros h. apply gc_bind; [done|]. intros e1.
      apply gc_bind; [done|]. intros _. apply gc_runNested; [simpl; lia|]. intros c' r err Hc'.
      apply gc_bind; [done|]. intros _. by apply gc_settle.
  - intros p Hp. apply gc_bind; [nf_step|]. intros ex. destruct (_ && _); [by apply gc_ret|].
    apply gc_bind; [repeat nf_step|]. intros _. destruct (_ && _); [by apply gc_ret|].
    apply gc_bind; [repeat nf_step|]. intros _. pose proof (runPrecompile_left p i g Hp Hg) as Hl.
    destruct (runPrecompile p i g) as [[r l] err]. apply gc_bind; [repeat nf_step|].
    intros _. by apply gc_ret.
Qed.

Lemma gc_callInCaller a b i g v : is_u64 g -> g < G -> gc left3 g (callInCaller pcs run a b i g v).
Proof.
  intros Hg HG. assert (0 <= g <= g) as Hgg by (unfold is_u64 in Hg; lia).
  unfold callInCaller. apply gc_bind; [done|]. intros e0. destruct (_ >? _); [by apply gc_ret|].
  apply gc_precompile; [|intros p Hp; by apply gc_ret, runPrecompile_left].
  apply gc_bind; [done|]. intros db. destruct (negb db); [by apply gc_ret|].
  apply gc_bind; [nf_step|]. intros id. apply gc_bind; [nf_step|]. intros code.
  destruct (_ =? 0); [by apply gc_ret|]. apply gc_bind; [nf_step|]. intros h.
  apply gc_runNested; [simpl; lia|]. intros c' r err Hc'. by apply gc_settle.
Qed.

Lemma gc_staticBody a b i g : is_u64 g -> g < G -> gc left3 g (staticBody pcs run a b i g).
Proof.
  intros Hg HG. assert (0 <= g <= g) as Hgg by (unfold is_u64 in Hg; lia).
  unfold staticBody. apply gc_bind; [nf_step|]. intros id. apply gc_precompile.
  - apply gc_bind; [nf_step|]. intros code. destruct (_ =? 0); [by apply gc_ret|].
    apply gc_bind; [nf_step|]. intros h. apply gc_runNested; [simpl; lia|].
    intros c' r err Hc'. by apply gc_settle.
  - intros p Hp. pose proof (runPrecompile_left p i g Hp Hg) as Hl.
    destruct (runPrecompile p i g) as [[r l] err]. apply gc_bind; [repeat nf_step|].
    intros _. by apply gc_ret.
Qed.

Lemma gc_StaticCall a b i g : is_u64 g -> g < G -> gc left3 g (StaticCall pcs run a b i g).
Proof.
  intros Hg HG. assert (0 <= g <= g) as Hgg by (unfold is_u64 in Hg; lia).
  unfold StaticCall. apply gc_bind; [done|]. intros e0. destruct (_ >? _); [by apply gc_ret|].
  apply gc_bind; [done|]. intros db. destruct (negb db); [by apply gc_ret|].
  cbv zeta. apply gc_bind; [done|]. intros _ e P. unfold gbind.
  pose proof (gc_staticBody a b i g Hg HG e P) as B.
  by destruct (staticBody pcs run a b i g e) as [r e'| | |].
Qed.

Abbreviation left4 := (fun r : bytes * Address * Z * option vmerr => r.1.2).

Lemma gc_deployCode id a r g : is_u64 g -> gc left4 g (deployCode id a r g).
Proof.
  intros Hg. assert (0 <= g <= g) as Hgg by (unfold is_u64 in Hg; lia).
  unfold deployCode. apply gc_bind; [done|]. intros e0. destruct (_ >? 0); [|by apply gc_ret].
  destruct (_ >? _); [apply gc_bind; [nf_step|]; intros _; apply gc_ret; simpl; lia|].
  cbv zeta. destruct (Z.ltb_spec g (zlen r *u CreateDataGas)).
  - apply gc_bind; [nf_step|]. intros _. apply gc_ret. simpl; lia.
  - apply gc_bind; [nf_step|]. intros _. apply gc_ret. simpl.
    pose proof (u64_nonneg (zlen r * CreateDataGas)). unfold is_u64 in Hg.
    rewrite u64_small by (unfold is_u64; lia). lia.
Qed.

Lemma gc_create a code g v addr : is_u64 g -> g < G -> gc left4 g (create run a code g v addr).
Proof.
  intros Hg HG. assert (0 <= g <= g) as Hgg by (unfold is_u64 in Hg; lia).
  assert (0 <= g / CallGasFraction <= g) as Hd.
  { unfold CallGasFraction, is_u64 in *. split; [apply Z.div_pos; lia|]. apply Z.div_le_upper_bound; lia. }
  unfold create. apply gc_bind; [done|]. intros e0. cbv zeta. destruct (_ >? _); [by apply gc_ret|].
  apply gc_bind; [nf_step|]. intros h. apply gc_bind; [nf_step|]. intros nonce.
  destruct (_ || _); [apply gc_ret; simpl; lia|]. apply gc_bind; [nf_step|]. intros _.
  apply gc_bind; [nf_step|]. intros id. apply gc_bind; [nf_step|]. intros ex.
  apply gc_bind; [repeat nf_step|]. intros _. apply gc_bind; [nf_step|]. intros _.
  apply gc_bind; [repeat nf_step|]. intros poor. destruct poor; [by apply gc_ret|].
  apply gc_bind; [repeat nf_step|]. intros _. unfold is_u64 in Hg.
  rewrite !u64_small by (unfold is_u64; rewrite ?u64_small by (unfold is_u64; lia); lia).
  apply gc_runNested; [simpl; lia|]. simpl. intros c' r err Hc'.
  rewrite !u64_small by (unfold is_u64; lia).
  destruct err as [er|].
  - apply gc_bind; [nf_step|]. intros _. destruct (is_revert er); apply gc_ret; simpl; lia.
  - intros e P. pose proof (gc_deployCode id addr r (g - (g - g / CallGasFraction) + Gas c')
      ltac:(unfold is_u64; lia) e P) as B.
    destruct (deployCode _ _ _ _ e); try done. destruct B as [B ?]. split; [cbv beta in *; lia|done].
Qed.

Lemma gc_Create a code g v : is_u64 g -> g < G -> gc left4 g (Create keccak256 run a code g v).
Proof.
  intros Hg HG. assert (0 <= g <= g) as Hgg by (unfold is_u64 in Hg; lia).
  unfold Create. apply gc_bind; [done|]. intros e0. destruct (_ >? _); [by apply gc_ret|].
  destruct (readOnly e0); [by apply gc_ret|]. apply gc_bind; [done|]. intros db.
  destruct (negb db); [by apply gc_ret|]. apply gc_bind; [nf_step|]. intros n.
  apply gc_bind; [nf_step|]. intros _. by apply gc_create.
Qed.

Lemma gc_Create2 a code g v salt : is_u64 g -> g < G -> gc left4 g (Create2 keccak256 run a code g v salt).
Proof.
  intros Hg HG. assert (0 <= g <= g) as Hgg by (unfold is_u64 in Hg; lia).
  unfold Create2. apply gc_bind; [done|]. intros e0. destruct (_ >? _); [by apply gc_ret|].
  destruct (readOnly e0); [by apply gc_ret|]. apply gc_bind; [done|]. intros db.
  destruct (negb db); [by apply gc_ret|]. apply gc_bind; [nf_step|]. intros addr.
  by apply gc_create.
Qed.

End Calls.
