(* ===== verification/Termination.v ===== *)
(** * Termination: gas bounds every execution

    For the tables from Berlin to Prague: a step either halts the frame or
    consumes gas, and the gas handed to a nested frame is smaller than the
    gas of its caller.  Hence an execution needs no more fuel than it has
    gas. *)

From S2P Require Import Prelude StateDB Machine Calls GasTable Witness Instructions JumpTable.
From S2P Require Import Interpreter Wp InstrSafe CallSafe ExecSafe GasSafe.

(** ** Instruction code with bounded gas *)

Section Metered.

Context {DB : Type} `{StateDB DB}.
Context (g0 : Z) (cfg : Config).

(** At most [g0] gas left, and the configuration unchanged. *)
Definition within (s : mstate DB) : Prop := 0 <= Gas (ctr s) <= g0 /\ config (evm s) = cfg.

Definition wpg {A} (m : M (mstate DB) A) (Q : A -> mstate DB -> Prop) (s : mstate DB) : Prop :=
  match m s with
  | Ok a s' => Q a s'
  | Err _ _ s' => within s'
  | Panic _ => True
  | Fuel => False
  end.

Lemma wpg_bind {A B} (m : M (mstate DB) A) (k : A -> M (mstate DB) B) Q s :
  wpg m (fun a s' => wpg (k a) Q s') s -> wpg (gbind m k) Q s.
Proof. unfold wpg, gbind. by destruct (m s). Qed.

Lemma wpg_cons {A} (m : M (mstate DB) A) (Q Q' : A -> mstate DB -> Prop) s :
  (forall a s', Q a s' -> Q' a s') -> wpg m Q s -> wpg m Q' s.
Proof. unfold wpg. intros HQ. destruct (m s); auto. Qed.

Lemma wpg_ret {A} (a : A) (Q : A -> mstate DB -> Prop) s : Q a s -> wpg (gret a) Q s.
Proof. done. Qed.

Lemma wpg_get Q s : Q s s -> wpg gget Q s.
Proof. done. Qed.

Lemma wpg_modify f Q s : Q tt (f s) -> wpg (gmodify f) Q s.
Proof. done. Qed.

Lemma wpg_Pop x r Q s : stk s = x :: r -> Q x (set_stk r s) -> wpg Pop Q s.
Proof. unfold wpg, Pop. by intros ->. Qed.

Lemma wpg_Back i x Q s : stk s !! i = Some x -> Q x s -> wpg (Back i) Q s.
Proof. unfold wpg, Back. by intros ->. Qed.

(** Pushing changes nothing but the stack. *)
Lemma wpg_Push v Q s : (forall l, Q tt (set_stk l s)) -> wpg (Push v) Q s.
Proof. intros HQ. unfold wpg, Push. destruct (_ <=? _)%nat; [|apply HQ]. specialize (HQ (stk s)). by destruct s. Qed.

Lemma wpg_memWindow o l Q s : (forall b, Q b s) -> wpg (memWindow o l) Q s.
Proof. intros HQ. unfold wpg, memWindow, MemGet. destruct (mem_Get _ _ _); [apply HQ|done]. Qed.

Lemma wpg_MemSet o l b Q s : (forall m, Q tt (set_mem m s)) -> wpg (MemSet o l b) Q s.
Proof. intros HQ. unfold wpg, MemSet. destruct (mem_Set _ _ _ _); [apply HQ|done]. Qed.

Lemma wpg_liftE_modify f Q s : Q tt (set_evm (f (evm s)) s) -> wpg (liftE (gmodify f)) Q s.
Proof. done. Qed.

Lemma wpg_chargeGas c Q s :
  0 <= c -> is_u64 (Gas (ctr s)) -> within s ->
  (c <= Gas (ctr s) -> Q tt (set_ctr (set_Gas (Gas (ctr s) - c) (ctr s)) s)) -> wpg (chargeGas c) Q s.
Proof.
  intros Hc Hg W HQ. unfold wpg, chargeGas, gbind, gget.
  destruct (UseGas c (ctr s)) as [c'|] eqn:E; [|done].
  apply UseGas_Some in E as [E1 ->]; [|done..]. by apply HQ.
Qed.

(** Calls, by what they return at most. *)
Lemma wpg_call {A} pcs left g (m : M (EVM DB) A) Q s :
  gc pcs left g m -> pcs_u64 pcs (config (evm s)) -> within s ->
  (forall a e', 0 <= left a <= g -> config e' = config (evm s) -> Q a (set_evm e' s)) ->
  wpg (liftE m) Q s.
Proof.
  intros Hm P [Wg Wc] HQ. unfold wpg, liftE. specialize (Hm (evm s) P).
  destruct (m (evm s)) as [a e'|er r e'| |]; try done.
  - destruct Hm as [? ?]. by apply HQ.
  - split; simpl; [done|congruence].
Qed.

(** Instructions that run no other contract. *)
Lemma wpg_plain {A} w n (m : M (mstate DB) A) Q s :
  pl (fun _ _ => True) False eq w n m Q -> length (stk s) = n -> writable w (evm s) -> within s ->
  wpg m (fun a s' => Q a (length (stk s')) /\ Gas (ctr s') = Gas (ctr s) /\
                     config (evm s') = config (evm s)) s.
Proof.
  intros Hm L Wr [Hg Hc]. specialize (Hm s L Wr). unfold wpg. destruct (m s) as [a s'|er r s'| |]; try done.
  - destruct Hm as [? [Eg []]]. done.
  - destruct Hm as [Eg []]. unfold within. rewrite <- Eg. split; [done|congruence].
Qed.

End Metered.

(** ** The call opcodes *)

Section CallOps.

Context {DB : Type} `{StateDB DB}.
Context (keccak256 : bytes -> bytes).
Context (pcs : gmap Z PrecompiledContract).
Context (rvrun : bytes -> bytes -> Z -> bytes * option vmerr).
Context (run : Contract -> bytes -> M (EVM DB) (Contract * bytes * option vmerr)).

(** [G] bounds the gas of nested frames, [g0] what may be left afterwards. *)
Context (G g0 : Z) (cfg : Config) (Hg0 : is_u64 g0) (Hpcs : pcs_u64 pcs cfg).
Context (run_gas : forall c i e, pcs_u64 pcs (config e) -> 0 <= Gas c < G ->
  match run c i e with
  | Ok (c', _, _) e' => 0 <= Gas c' <= Gas c /\ config e' = config e
  | Err _ _ _ => False
  | Panic _ => True
  | Fuel => False
  end).

Abbreviation inside := (fun (_ : bytes) (s : mstate DB) => within g0 cfg s).

Lemma wpg_finishCall r o l s :
  0 <= Gas (ctr s) -> 0 <= r.1.2 -> Gas (ctr s) + r.1.2 <= g0 -> config (evm s) = cfg ->
  wpg g0 cfg (finishCall r o l) inside s.
Proof.
  destruct r as [[ret left] err]. simpl. intros Hs Hl Hsum Hc. unfold finishCall, addGas. unfold is_u64 in Hg0.
  apply wpg_bind, wpg_modify, wpg_bind, wpg_Push. intros st.
  apply wpg_bind, wpg_liftE_modify.
  destruct (_ && _); [apply wpg_bind, wpg_MemSet; intros m|]; apply wpg_ret; split; simpl; try done;
    rewrite u64_small by (unfold is_u64; lia); lia.
Qed.

Lemma wpg_finishCreate r s :
  0 <= Gas (ctr s) -> 0 <= r.1.2 -> Gas (ctr s) + r.1.2 <= g0 -> config (evm s) = cfg ->
  wpg g0 cfg (finishCreate r) inside s.
Proof.
  destruct r as [[[ret addr] left] err]. simpl. intros Hs Hl Hsum Hc. unfold finishCreate, addGas. unfold is_u64 in Hg0.
  apply wpg_bind, wpg_modify, wpg_bind, wpg_liftE_modify.
  destruct err; [|apply wpg_bind, wpg_liftE_modify]; apply wpg_bind, wpg_Push; intros st;
    apply wpg_ret; split; simpl; try done; rewrite u64_small by (unfold is_u64; lia); lia.
Qed.

(** The operands of a call, and the gas passed on. *)
Definition passes (s : mstate DB) (g : Z) : Prop :=
  0 <= g < G /\ 0 <= Gas (ctr s) /\ Gas (ctr s) + g <= g0 /\ config (evm s) = cfg.

Lemma wpg_popCallee a0 a1 rest Q (s : mstate DB) :
  stk s = a0 :: a1 :: rest ->
  Q (bigToAddress a1)
    (set_evm (set_balTracker (match balTracker (evm s) with
                              | Some l => Some (RecordAddressTouch (bigToAddress a1) :: l)
                              | None => None
                              end) (evm s)) (set_stk rest s)) ->
  wpg g0 cfg popCallee Q s.
Proof.
  intros E HQ. unfold popCallee. apply wpg_bind. eapply wpg_Pop; [exact E|].
  apply wpg_bind. eapply wpg_Pop; [done|]. apply wpg_bind, wpg_liftE_modify, wpg_ret. done.
Qed.

Lemma wpg_popWindows a b c d rest Q (s : mstate DB) :
  stk s = a :: b :: c :: d :: rest ->
  (forall args, Q (args, c, d) (set_stk rest s)) ->
  wpg g0 cfg popWindows Q s.
Proof.
  intros E HQ. unfold popWindows.
  apply wpg_bind. eapply wpg_Pop; [exact E|]. do 3 (apply wpg_bind; eapply wpg_Pop; [done|]).
  apply wpg_bind, wpg_memWindow. intros args. apply wpg_ret. apply HQ.
Qed.

(** Run the call with [rule], then look at the result. *)
Ltac call_with rule :=
  eapply wpg_call;
  [ eapply rule; [exact run_gas|unfold is_u64 in *; lia|lia]
  | simpl; match goal with E : config _ = _ |- _ => rewrite E end; exact Hpcs
  | unfold is_u64 in *; split; simpl; [lia|done]
  | intros ?r ?e' ?Hl ?Hc' ].

Ltac settled := simpl in *; first [lia | congruence].

Lemma wpg_opCall a0 a1 v b c d e rest (s : mstate DB) :
  stk s = a0 :: a1 :: v :: b :: c :: d :: e :: rest ->
  passes s (if Z.sgn v >? 0 then callGasTemp (evm s) +u CallStipend else callGasTemp (evm s)) ->
  wpg g0 cfg (opCall pcs rvrun run) inside s.
Proof.
  intros E. set (g := if _ >? _ then _ else _). intros (Hg & Hs & Hsum & Hc). unfold opCall.
  apply wpg_bind. eapply wpg_popCallee; [exact E|]. apply wpg_bind. eapply wpg_Pop; [done|].
  apply wpg_bind. eapply wpg_popWindows; [done|]. intros args.
  apply wpg_bind, wpg_bind, wpg_get, wpg_ret. change (if _ >? _ then _ else _) with g. simpl.
  apply wpg_bind, wpg_get, wpg_bind, wpg_liftE_modify, wpg_bind, wpg_modify, wpg_bind.
  call_with @gc_Call.
  apply wpg_bind, wpg_modify, wpg_bind, wpg_liftE_modify.
  apply wpg_finishCall; settled.
Qed.

Lemma wpg_opCallCode a0 a1 v b c d e rest (s : mstate DB) :
  stk s = a0 :: a1 :: v :: b :: c :: d :: e :: rest ->
  passes s (if Z.sgn v >? 0 then callGasTemp (evm s) +u CallStipend else callGasTemp (evm s)) ->
  wpg g0 cfg (opCallCode pcs run) inside s.
Proof.
  intros E. set (g := if _ >? _ then _ else _). intros (Hg & Hs & Hsum & Hc). unfold opCallCode.
  apply wpg_bind. eapply wpg_popCallee; [exact E|]. apply wpg_bind. eapply wpg_Pop; [done|].
  apply wpg_bind. eapply wpg_popWindows; [done|]. intros args.
  apply wpg_bind, wpg_bind, wpg_get, wpg_ret. change (if _ >? _ then _ else _) with g. simpl.
  apply wpg_bind, wpg_bind, wpg_get, wpg_ret, wpg_bind. call_with @gc_callInCaller.
  apply wpg_finishCall; settled.
Qed.

Lemma wpg_opDelegateCall a0 a1 b c d e rest (s : mstate DB) :
  stk s = a0 :: a1 :: b :: c :: d :: e :: rest -> passes s (callGasTemp (evm s)) ->
  wpg g0 cfg (opDelegateCall pcs run) inside s.
Proof.
  intros E (Hg & Hs & Hsum & Hc). unfold opDelegateCall.
  apply wpg_bind. eapply wpg_popCallee; [exact E|].
  apply wpg_bind. eapply wpg_popWindows; [done|]. intros args.
  apply wpg_bind, wpg_get, wpg_bind. simpl. call_with @gc_callInCaller.
  apply wpg_finishCall; settled.
Qed.

Lemma wpg_opStaticCall a0 a1 b c d e rest (s : mstate DB) :
  stk s = a0 :: a1 :: b :: c :: d :: e :: rest -> passes s (callGasTemp (evm s)) ->
  wpg g0 cfg (opStaticCall pcs run) inside s.
Proof.
  intros E (Hg & Hs & Hsum & Hc). unfold opStaticCall.
  apply wpg_bind. eapply wpg_popCallee; [exact E|].
  apply wpg_bind. eapply wpg_popWindows; [done|]. intros args.
  apply wpg_bind, wpg_get, wpg_bind. simpl. call_with @gc_StaticCall.
  apply wpg_finishCall; settled.
Qed.

Lemma wpg_writeGuard Q (s : mstate DB) : within g0 cfg s -> Q tt s -> wpg g0 cfg writeGuard Q s.
Proof. intros W HQ. unfold wpg, writeGuard, gbind, gget. by destruct (readOnly (evm s)). Qed.

Lemma wpg_takeGas Q (s : mstate DB) : Q (Gas (ctr s)) (set_ctr (set_Gas 0 (ctr s)) s) -> wpg g0 cfg takeGas Q s.
Proof. done. Qed.

Lemma wpg_opCreate v o l rest (s : mstate DB) :
  stk s = v :: o :: l :: rest -> 0 <= Gas (ctr s) < G -> Gas (ctr s) <= g0 -> config (evm s) = cfg ->
  wpg g0 cfg (opCreate keccak256 run) inside s.
Proof.
  intros E Hs Hb Hc. unfold opCreate. apply wpg_bind, wpg_writeGuard; [split; [lia|done]|].
  apply wpg_bind. eapply wpg_Pop; [exact E|]. do 2 (apply wpg_bind; eapply wpg_Pop; [done|]).
  apply wpg_bind, wpg_memWindow. intros code. apply wpg_bind, wpg_takeGas, wpg_bind, wpg_bind, wpg_get, wpg_ret.
  simpl. apply wpg_bind. call_with @gc_Create.
  apply wpg_finishCreate; settled.
Qed.

Lemma wpg_opCreate2 v o l salt rest (s : mstate DB) :
  stk s = v :: o :: l :: salt :: rest -> 0 <= Gas (ctr s) < G -> Gas (ctr s) <= g0 -> config (evm s) = cfg ->
  wpg g0 cfg (opCreate2 keccak256 run) inside s.
Proof.
  intros E Hs Hb Hc. unfold opCreate2. apply wpg_bind, wpg_writeGuard; [split; [lia|done]|].
  apply wpg_bind. eapply wpg_Pop; [exact E|]. do 3 (apply wpg_bind; eapply wpg_Pop; [done|]).
  apply wpg_bind, wpg_memWindow. intros code. apply wpg_bind, wpg_takeGas, wpg_bind, wpg_bind, wpg_get, wpg_ret.
  simpl. apply wpg_bind. call_with @gc_Create2.
  apply wpg_finishCreate; settled.
Qed.

End CallOps.

(** ** Costs *)

Section Costs.

Context {DB : Type} `{StateDB DB}.

(** The result is at least [lo]. *)
Definition costs (lo : Z) (m : M (mstate DB) Z) : Prop := forall s,
  match m s with
  | Ok a _ => lo <= a
  | _ => True
  end.

Lemma costs_bind {A} lo (m : M (mstate DB) A) (k : A -> M (mstate DB) Z) :
  (forall a, costs lo (k a)) -> costs lo (gbind m k).
Proof. intros Hk s. unfold gbind. destruct (m s) as [a s'| | |]; try done. apply Hk. Qed.

Lemma costs_ret lo a : lo <= a -> costs lo (gret a).
Proof. by intros Ha s. Qed.

(** The warm/cold checks return nothing or the surcharge. *)
Lemma check_result (q : DB -> bool) extra mt (s : mstate DB) :
  match liftE (let! db := hasDB in
               if negb db then gret 0
               else let! warm := readDB q in
                    if (warm : bool) then gret 0 else do! mutDB mt in gret extra) s with
  | Ok a s' => (a = 0 \/ a = extra) /\ stk s' = stk s /\ ctr s' = ctr s /\ config (evm s') = config (evm s)
  | Err _ _ _ => False
  | Panic _ => True
  | Fuel => False
  end.
Proof.
  unfold liftE, gbind, hasDB, readDB, mutDB. destruct (statedb (evm s)) as [db|] eqn:E; simpl; [|by auto].
  rewrite E. destruct (q db); simpl; [by auto|]. rewrite E. simpl. auto.
Qed.

Lemma costs_accountCheck x a : 0 <= x -> costs 0 (accountCheck x a).
Proof.
  intros Hx s. pose proof (check_result (fun db => AddressInAccessList db a) x
    (MAddAddressToAccessList a) s) as C. unfold accountCheck. destruct (liftE _ s); try done. lia.
Qed.

Lemma costs_slotCheck x a k : 0 <= x -> costs 0 (slotCheck x a k).
Proof.
  intros Hx s. pose proof (check_result (fun db => (SlotInAccessList db a k).2) x
    (MAddSlotToAccessList a k) s) as C. unfold slotCheck. destruct (liftE _ s); try done. lia.
Qed.

Ltac costs_step :=
  lazymatch goal with
  | |- costs _ (gbind _ _) => apply costs_bind; intros ?
  | |- costs _ (gret _) => apply costs_ret
  | |- costs _ (accountCheck _ _) => apply costs_accountCheck; done
  | |- costs _ (slotCheck _ _ _) => apply costs_slotCheck; done
  | |- costs _ (match ?x with _ => _ end) => destruct x
  | |- costs _ ?m => let h := head_of m in unfold h
  | |- 0 <= safeAdd _ _ => apply safeAdd_nonneg
  | |- 0 <= u64 _ => apply u64_nonneg
  | |- 0 <= memExpansionGas _ _ => apply memExpansionGas_u64
  | |- 0 <= (if ?x then _ else _) => destruct x
  end.

Ltac costs_solve := repeat costs_step; try done.

(** The cost of every dynamic gas function of the metered tables. *)
Definition cost_function (f : Z -> M (mstate DB) Z) : Prop := forall x, costs 0 (f x).

Lemma cost_exp : cost_function gasExp.
Proof. intros x. costs_solve. Qed.
Lemma cost_copy : cost_function gasCopy.
Proof. intros x. costs_solve. Qed.
Lemma cost_memExpansion : cost_function gasMemExpansion.
Proof. intros x. costs_solve. Qed.
Lemma cost_sha3 : cost_function gasSha3.
Proof. intros x. costs_solve. Qed.
Lemma cost_log n : cost_function (makeGasLog n).
Proof. intros x. costs_solve. Qed.
Lemma cost_create : cost_function gasCreateDynamic.
Proof. intros x. costs_solve. Qed.
Lemma cost_create2 : cost_function gasCreate2Dynamic.
Proof. intros x. costs_solve. Qed.
Lemma cost_mcopy : cost_function gasMcopy.
Proof. intros x. costs_solve. Qed.
Lemma cost_sload : cost_function gasSloadEIP2929.
Proof. intros x. costs_solve. Qed.
Lemma cost_balance : cost_function gasBalanceEIP2929.
Proof. intros x. costs_solve. Qed.
Lemma cost_extCodeSize : cost_function gasExtCodeSizeEIP2929.
Proof. intros x. costs_solve. Qed.
Lemma cost_extCodeHash : cost_function gasExtCodeHashEIP2929.
Proof. intros x. costs_solve. Qed.
Lemma cost_extCodeCopy : cost_function gasExtCodeCopyEIP2929.
Proof. intros x. costs_solve. Qed.
Lemma cost_selfdestruct : cost_function gasSelfdestructEIP2929.
Proof. intros x. costs_solve. Qed.

Lemma SstoreGas_warm original current v :
  let g := (SstoreGas original current v false).1 in 100 <= g <= 20000.
Proof.
  unfold SstoreGas. cbn [fst]. repeat case_match; cbn [fst]; rewrite u64_small;
    unfold is_u64, WarmStorageReadCost, GasSstoreSet, GasSstoreReset; lia.
Qed.

(** SSTORE has no constant cost; its dynamic cost is at least 100. *)
Lemma cost_sstore x : costs 100 (gasSstoreEIP2929 x).
Proof.
  unfold gasSstoreEIP2929. apply costs_bind. intros loc. intros s. unfold gbind at 1.
  unfold sstoreCold, gbind at 1, gget at 1.
  pose proof (check_result (fun db => (SlotInAccessList db (caddr (ctr s)) (bigToHash loc)).2) ColdSloadCost
    (MAddSlotToAccessList (caddr (ctr s)) (bigToHash loc)) s) as C.
  unfold slotCheck. destruct (liftE _ s) as [cold s'| | |]; try done. destruct C as [C _].
  assert (0 <= cold <= 2100) as Hc by (unfold ColdSloadCost in C; lia). clear C. revert s'.
  apply (costs_bind 100). intros db. destruct (negb db).
  { apply costs_ret. rewrite u64_small; unfold is_u64, WarmStorageReadCost; lia. }
  do 4 (apply costs_bind; intros ?).
  pose proof (SstoreGas_warm a1 a0 (bigToHash a2)) as B.
  destruct (SstoreGas _ _ _ _) as [g r]. simpl in B. apply costs_ret.
  rewrite u64_small; unfold is_u64; lia.
Qed.

End Costs.

(** ** What a call costs and what it passes on *)

Section CallCost.

Context {DB : Type} `{StateDB DB}.
Context (g0 : Z) (cfg : Config).

(** Only the EVM differs, and its configuration does not. *)
Definition same_frame (s s' : mstate DB) : Prop :=
  stk s' = stk s /\ ctr s' = ctr s /\ config (evm s') = config (evm s).

Lemma wpg_accountCheck x a Q (s : mstate DB) :
  0 <= x <= 2600 ->
  (forall g s', 0 <= g <= 2600 -> same_frame s s' -> Q g s') -> wpg g0 cfg (accountCheck x a) Q s.
Proof.
  intros Hx HQ. pose proof (check_result (fun db => AddressInAccessList db a) x
    (MAddAddressToAccessList a) s) as C.
  unfold wpg, accountCheck. destruct (liftE _ s); try done. apply HQ; [lia|by destruct C].
Qed.

Lemma wpg_missing a Q (s : mstate DB) : (forall b, Q b s) -> wpg g0 cfg (missing a) Q s.
Proof.
  intros HQ. unfold wpg, missing, liftE, gbind, hasDB, readDB. destruct s as [p st me c e]; simpl.
  destruct (statedb e) eqn:E; simpl; [rewrite E|]; apply HQ.
Qed.

Lemma wpg_valueGas g new a0 a1 v rest Q (s : mstate DB) :
  stk s = a0 :: a1 :: v :: rest -> is_u64 g -> is_u64 (default 0 new) ->
  (forall g', is_u64 g' -> (Z.sgn v <> 0 -> CallValueTransferGas <= g') -> Q g' s) ->
  wpg g0 cfg (valueGas g CallValueTransferGas new) Q s.
Proof.
  intros E Hg Hn HQ. unfold valueGas. apply wpg_bind. eapply wpg_Back; [by rewrite E|].
  destruct (Z.eqb_spec (Z.sgn v) 0); [apply wpg_ret, HQ; [done|lia]|].
  assert (is_u64 CallValueTransferGas) as H9 by done.
  destruct (safeAdd_spec g CallValueTransferGas Hg H9) as [E1 U1].
  assert (CallValueTransferGas <= safeAdd g CallValueTransferGas) as B1.
  { rewrite E1. unfold is_u64, MaxUint64, CallValueTransferGas in *. lia. }
  destruct new as [extra|]; [|apply wpg_ret, HQ; auto].
  apply wpg_bind. eapply wpg_Back; [by rewrite E|]. apply wpg_bind, wpg_missing. intros b.
  apply wpg_ret, HQ; destruct b; auto.
  - by destruct (safeAdd_spec _ _ U1 Hn).
  - intros _. destruct (safeAdd_spec _ extra U1 Hn) as [E2 _]. rewrite E2.
    change (default 0 (Some extra)) with extra in *. unfold is_u64, MaxUint64 in *. lia.
Qed.

(** The total cost [c] of a call over [base], with the gas passed on. *)
Definition call_costed (s : mstate DB) (base c : Z) (s' : mstate DB) : Prop :=
  exists b, base <= b /\ is_u64 b /\ same_frame s s' /\
    0 <= callGasTemp (evm s') /\
    (c <= Gas (ctr s) -> c = b + callGasTemp (evm s')) /\ 0 <= c.

Lemma wpg_finishCallGas g x a0 rest (s : mstate DB) :
  stk s = a0 :: rest -> is_u64 g -> is_u64 (Gas (ctr s)) ->
  wpg g0 cfg (finishCallGas g x) (call_costed s g) s.
Proof.
  intros E Hg Hs. unfold finishCallGas. apply wpg_bind, wpg_bind, wpg_get, wpg_ret, wpg_bind.
  eapply wpg_Back; [by rewrite E|]. apply wpg_bind, wpg_get, wpg_bind, wpg_liftE_modify, wpg_ret.
  destruct (safeAdd_spec g _ Hg (memExpansionGas_u64 (mem_Len (mem s)) x)) as [Eb Ub].
  pose proof (memExpansionGas_u64 (mem_Len (mem s)) x) as Hm.
  assert (is_u64 (Uint64 a0)) as Ha by apply u64_range.
  destruct (callGasEIP150_bound _ _ _ Hs Ub Ha) as (T0 & T1 & T2).
  set (b := safeAdd g _) in *. set (t := callGasEIP150 _ _ _) in *.
  exists b. simpl. split; [unfold is_u64, MaxUint64 in *; lia|]. do 3 (split; [done|]).
  assert (is_u64 t) as Ut.
  { unfold is_u64 in *. destruct (Z.le_gt_cases b (Gas (ctr s))); lia. }
  destruct (safeAdd_spec b t Ub Ut) as [Ec Uc].
  split; [|unfold is_u64 in Uc; lia]. rewrite Ec. unfold is_u64, MaxUint64 in *.
  intros Hc. destruct (Z.le_gt_cases b (Gas (ctr s))); lia.
Qed.

Lemma call_costed_trans (s s1 s' : mstate DB) base g c :
  same_frame s s1 -> base <= g -> call_costed s1 g c s' -> call_costed s base c s'.
Proof.
  intros (E1 & E2 & E3) Hb (b & B1 & B2 & (F1 & F2 & F3) & B4 & B5 & B6). exists b.
  split; [lia|]. split; [done|]. split; [repeat split; congruence|]. by rewrite <- E2.
Qed.

(** What the value-bearing calls pay for a transfer. *)
Definition surcharge (v : Z) : Z := if Z.sgn v >? 0 then CallValueTransferGas else 0.

Lemma wpg_value_cost new x a0 a1 v rest (s : mstate DB) :
  stk s = a0 :: a1 :: v :: rest -> is_u64 (Gas (ctr s)) -> is_u64 (default 0 new) ->
  wpg g0 cfg (let! a := Back 1 in
              let! gas := gasEIP2929AccountCheck (bigToAddress a) in
              let! gas := valueGas gas CallValueTransferGas new in
              finishCallGas gas x) (call_costed s (surcharge v)) s.
Proof.
  intros E Hs Hn. apply wpg_bind. eapply wpg_Back; [by rewrite E|]. apply wpg_bind, wpg_accountCheck; [done|].
  intros g s1 Hg F. pose proof F as (F1 & F2 & F3). apply wpg_bind.
  eapply wpg_valueGas; [by rewrite F1, E|unfold is_u64; lia|done|]. intros g' Hg' Hv.
  eapply wpg_cons; [|eapply wpg_finishCallGas; [by rewrite F1, E|done|by rewrite F2]].
  intros c s'. apply call_costed_trans; [done|]. unfold surcharge. unfold is_u64 in Hg'.
  destruct (Z.gtb_spec (Z.sgn v) 0); [apply Hv; lia|lia].
Qed.

Lemma wpg_plain_cost x a0 a1 rest (s : mstate DB) :
  stk s = a0 :: a1 :: rest -> is_u64 (Gas (ctr s)) ->
  wpg g0 cfg (let! a := Back 1 in
              let! gas := gasEIP2929AccountCheck (bigToAddress a) in
              finishCallGas gas x) (call_costed s 0) s.
Proof.
  intros E Hs. apply wpg_bind. eapply wpg_Back; [by rewrite E|]. apply wpg_bind, wpg_accountCheck; [done|].
  intros g s1 Hg F. pose proof F as (F1 & F2 & F3).
  eapply wpg_cons; [|eapply wpg_finishCallGas; [by rewrite F1, E|unfold is_u64; lia|by rewrite F2]].
  intros c s'. apply call_costed_trans; [done|lia].
Qed.

End CallCost.

(** ** Steps *)

Section Steps.

Context {DB : Type} `{StateDB DB}.
Context (keccak256 : bytes -> bytes).
Context (pcs : gmap Z PrecompiledContract).
Context (rvrun : bytes -> bytes -> Z -> bytes * option vmerr).
Context (run : Contract -> bytes -> M (EVM DB) (Contract * bytes * option vmerr)).

Abbreviation plain0 := (pl (fun _ _ : EVM DB => True) False eq).
Abbreviation gas_good := (gas_ok (fun _ _ : EVM DB => True)).
Abbreviation plain_good := (plain_ok (fun _ _ : EVM DB => True)).

(** A plain operation is paid for unless it ends the frame. *)
Definition priced (o : operation DB) : Prop :=
  0 <= constantGas o /\
  (forall f, dynamicGas o = Some f -> cost_function f) /\
  (halts o = true \/ 0 < constantGas o \/
   (exists f, dynamicGas o = Some f /\ forall x, costs 1 (f x)) \/
   (forall s a s', execute o s <> Ok a s')).

(** The calling operations of the tables from Berlin on. *)
Definition call_priced (o : operation DB) : Prop :=
  halts o = false /\ 0 < constantGas o /\
  ((execute o = opCall pcs rvrun run /\ dynamicGas o = Some gasCallEIP2929 /\
      memorySize o = Some memoryCall /\ minStack o = 7%nat) \/
   (execute o = opCallCode pcs run /\ dynamicGas o = Some gasCallCodeEIP2929 /\
      memorySize o = Some memoryCallCode /\ minStack o = 7%nat) \/
   (execute o = opDelegateCall pcs run /\ dynamicGas o = Some gasDelegateCallEIP2929 /\
      memorySize o = Some memoryDelegateCall /\ minStack o = 6%nat) \/
   (execute o = opStaticCall pcs run /\ dynamicGas o = Some gasStaticCallEIP2929 /\
      memorySize o = Some memoryStaticCall /\ minStack o = 6%nat) \/
   (execute o = opCreate keccak256 run /\ dynamicGas o = Some gasCreateDynamic /\
      memorySize o = Some memoryCreate /\ minStack o = 3%nat) \/
   (execute o = opCreate2 keccak256 run /\ dynamicGas o = Some gasCreate2Dynamic /\
      memorySize o = Some memoryCreate2 /\ minStack o = 4%nat)).

Definition metered_op (code : Z) (o : operation DB) : Prop :=
  if calling code then call_priced o else priced o.

Context (g0 : Z) (cfg : Config) (Hg0 : is_u64 g0).

Abbreviation wp := (wpg g0 cfg).

(** The outcome of a step from [g0] gas. *)
Definition stepped (r : option bytes) (s' : mstate DB) : Prop :=
  within g0 cfg s' /\ (r = None -> Gas (ctr s') < g0).

Lemma wpg_orOutOfGas {A} (m : M (mstate DB) A) Q s : wp m Q s -> wp (orOutOfGas m) Q s.
Proof. unfold wpg, orOutOfGas. by destruct (m s). Qed.

Lemma wpg_dropData {A} (m : M (mstate DB) A) Q s : wp m Q s -> wp (dropData m) Q s.
Proof. unfold wpg, dropData. by destruct (m s). Qed.

Lemma wpg_const (o : operation DB) Q (s : mstate DB) :
  0 <= constantGas o -> is_u64 (Gas (ctr s)) -> within g0 cfg s ->
  (constantGas o <= Gas (ctr s) ->
     Q tt (set_ctr (set_Gas (Gas (ctr s) - constantGas o) (ctr s)) s)) ->
  wp (if constantGas o >? 0 then chargeGas (constantGas o) else gret tt) Q s.
Proof.
  intros Hc Hs W HQ. destruct (Z.gtb_spec (constantGas o) 0); [by apply wpg_chargeGas|].
  apply wpg_ret. replace (constantGas o) with 0 in HQ by lia. rewrite Z.sub_0_r in HQ.
  unfold is_u64 in Hs. specialize (HQ ltac:(lia)). by destruct s as [? ? ? [] ?].
Qed.

(** Stack height and configuration are kept, [c] gas is used. *)
Definition used (c : Z) (s s' : mstate DB) : Prop :=
  length (stk s') = length (stk s) /\ config (evm s') = config (evm s) /\
  Gas (ctr s') = Gas (ctr s) - c /\ 0 <= c <= Gas (ctr s).

Lemma wpg_required (o : operation DB) (s : mstate DB) :
  gas_good o -> (minStack o <= length (stk s))%nat -> within g0 cfg s ->
  wp (requiredMemory o) (fun _ => used 0 s) s.
Proof.
  intros [_ Hm] Hn W. pose proof W as [Wg Wc]. unfold requiredMemory.
  destruct (memorySize o) as [f|]; [|apply wpg_ret; repeat split; lia].
  apply wpg_bind. eapply wpg_cons;
    [|eapply wpg_plain; [by apply Hm|done|by intros ?|done]].
  intros [x|] s' (L & Eg & Ec); [apply wpg_ret|].
  - repeat split; try done; lia.
  - split; simpl; [by rewrite Eg|by rewrite Ec].
Qed.

Lemma wpg_dynamic lo (o : operation DB) x (s : mstate DB) :
  gas_good o -> 0 <= lo -> (dynamicGas o = None -> lo = 0) ->
  (forall f, dynamicGas o = Some f -> forall x, costs lo (f x)) ->
  (minStack o <= length (stk s))%nat -> within g0 cfg s ->
  wp (chargeDynamic o x) (fun _ s' => exists c, lo <= c /\ used c s s') s.
Proof.
  intros [Hd _] Hlo Hnone Hcost Hn W. pose proof W as [Wg Wc]. unfold chargeDynamic.
  destruct (dynamicGas o) as [f|]; [|apply wpg_ret; exists 0; rewrite Hnone by done; repeat split; lia].
  apply wpg_bind, wpg_orOutOfGas. pose proof (Hcost f eq_refl x s) as C.
  pose proof (wpg_plain g0 cfg false _ (f x) _ s (Hd f x _ eq_refl Hn) eq_refl ltac:(by intros ?) W) as P.
  unfold wpg in P |- *. destruct (f x s) as [c s'| | |]; try done. destruct P as (L & Eg & Ec).
  apply wpg_chargeGas; [lia|unfold is_u64 in *; lia|split; [by rewrite Eg|by rewrite Ec]|].
  intros Hle. exists c. split; [done|]. repeat split; simpl; try done; lia.
Qed.

Lemma perform_priced (o : operation DB) (s : mstate DB) :
  gas_good o -> plain_good o -> priced o ->
  (minStack o <= length (stk s) <= maxStack o)%nat -> (length (stk s) <= stackLimit)%nat ->
  Gas (ctr s) = g0 -> config (evm s) = cfg ->
  wp (perform o) stepped s.
Proof.
  intros Hgas Hplain (Hc & Hd & Hpaid) Hn Hl Eg Ec. unfold is_u64 in Hg0.
  assert (exists lo, 0 <= lo /\ (dynamicGas o = None -> lo = 0) /\
    (forall f, dynamicGas o = Some f -> forall x, costs lo (f x)) /\
    (halts o = true \/ 0 < constantGas o + lo \/ (forall s a s', execute o s <> Ok a s')))
    as (lo & Hlo & Hnone & Hcost & Hpay).
  { destruct Hpaid as [?|[?|[(f & Ef & Hf)|?]]].
    1,2,4: exists 0; split; [lia|]; split; [done|]; split; [done|]; auto with lia.
    exists 1. split; [lia|]. rewrite Ef. split; [done|]. split; [by intros ? [= <-]|]. right; left; lia. }
  unfold perform. apply wpg_bind, wpg_const; [done|unfold is_u64; lia|split; [lia|done]|].
  intros Hle. apply wpg_bind. set (s1 := set_ctr _ _).
  eapply wpg_cons; [|apply (wpg_required o s1); [done|simpl; lia|split; simpl; [lia|done]]].
  intros x s2 (L2 & C2 & G2 & _). simpl in L2, C2, G2.
  apply wpg_bind. eapply wpg_cons; [|apply (wpg_dynamic lo o x s2);
    [done..|rewrite L2; lia|split; [lia|congruence]]].
  intros _ s3 (c & Hlc & L3 & C3 & G3 & B3). apply wpg_bind, wpg_modify.
  match goal with |- wp _ _ ?s' => set (s4 := s') end.
  assert (stk s4 = stk s3 /\ ctr s4 = ctr s3 /\ evm s4 = evm s3) as (S4 & T4 & E4).
  { subst s4. by destruct (_ && _). }
  apply wpg_bind, wpg_dropData.
  pose proof (wpg_plain g0 cfg false (length (stk s)) (execute o) _ s4
    ltac:(apply Hplain; lia) ltac:(congruence) ltac:(by intros ?)
    ltac:(split; [rewrite T4; lia|congruence])) as P.
  unfold wpg in P |- *. destruct (execute o s4) as [r s5| | |] eqn:Ex; try done.
  destruct P as (_ & G5 & C5). rewrite T4 in G5. rewrite E4 in C5.
  assert (within g0 cfg s5) as W5 by (split; [lia|congruence]).
  destruct (halts o) eqn:Eh; [by split|].
  destruct Hpay as [?|[?|Hstuck]]; [done| |by destruct (Hstuck s4 r s5)].
  assert (Gas (ctr s5) < g0) by lia. by destruct (jumps o).
Qed.

(** Memory size functions only look at the stack. *)
Definition reads {A} (m : M (mstate DB) A) : Prop := forall s,
  match m s with
  | Ok _ s' | Err _ _ s' => s' = s
  | Panic _ => True
  | Fuel => False
  end.

Lemma reads_backU64 i k : (forall x, reads (k x)) -> reads (backU64 (DB := DB) i k).
Proof.
  intros Hk s. unfold backU64, gbind, Back. destruct (stk s !! i); [|done].
  destruct (bigUint64WithOverflow _) as [x []]; [done|apply Hk].
Qed.

Lemma reads_call i : reads (memory_call (DB := DB) i).
Proof. unfold memory_call. repeat (apply reads_backU64; intros ?). done. Qed.

Lemma reads_range i j : reads (memory_range (DB := DB) i j).
Proof. unfold memory_range. repeat (apply reads_backU64; intros ?). done. Qed.

Lemma wpg_required_reads (o : operation DB) mf Q (s : mstate DB) :
  memorySize o = Some mf -> reads mf -> within g0 cfg s -> (forall x, Q x s) ->
  wp (requiredMemory o) Q s.
Proof.
  intros Em Hr W HQ. unfold requiredMemory. rewrite Em. apply wpg_bind. specialize (Hr s).
  unfold wpg. destruct (mf s) as [[x|] s'|? ? s'| |]; try done; rewrite Hr; [apply HQ|done..].
Qed.

(** The state in which a calling operation of total cost [c] is executed. *)
Definition charged (c : Z) (s : mstate DB) : mstate DB :=
  set_ctr (set_Gas (Gas (ctr s) - c) (ctr s)) s.

Lemma perform_calling (o : operation DB) f mf (s : mstate DB) :
  halts o = false -> 0 < constantGas o ->
  memorySize o = Some mf -> reads mf -> dynamicGas o = Some f ->
  Gas (ctr s) = g0 -> config (evm s) = cfg ->
  (forall x s1, s1 = charged (constantGas o) s -> constantGas o <= g0 ->
     wp (f x) (fun c s2 => 0 <= c /\ same_frame s1 s2 /\
       (c <= Gas (ctr s1) -> forall m,
          wpg (Gas (ctr s1)) cfg (execute o) (fun _ => within (Gas (ctr s1)) cfg)
            (set_mem m (charged c s2)))) s1) ->
  wp (perform o) stepped s.
Proof.
  intros Hh Hc Em Hr Ed Eg Ec HX. unfold is_u64 in Hg0.
  unfold perform. apply wpg_bind, wpg_const; [lia|unfold is_u64; lia|split; [lia|done]|].
  intros Hle. apply wpg_bind. set (s1 := set_ctr _ _).
  assert (Gas (ctr s1) = g0 - constantGas o) as G1 by (simpl; lia).
  assert (constantGas o <= g0) as Hle' by lia. specialize (fun x => HX x s1 eq_refl Hle').
  eapply wpg_required_reads; [exact Em|exact Hr|split; simpl; [lia|done]|]. intros x.
  apply wpg_bind. unfold chargeDynamic. rewrite Ed. apply wpg_bind, wpg_orOutOfGas.
  eapply wpg_cons; [|apply HX]. intros c s2 (H0 & (F1 & F2 & F3) & Hx).
  apply wpg_chargeGas; [done|unfold is_u64; rewrite F2; lia|split; [rewrite F2; lia|by rewrite F3]|].
  rewrite F2. intros Hc2. specialize (Hx Hc2). apply wpg_bind, wpg_modify.
  match goal with |- wp _ _ ?s' => set (s4 := s') end.
  assert (exists m, s4 = set_mem m (charged c s2)) as [m E4].
  { unfold s4, charged. rewrite F2. destruct (_ && _); [by eexists|]. exists (mem s2). by destruct s2. }
  rewrite E4. apply wpg_bind, wpg_dropData. specialize (Hx m). unfold wpg in Hx |- *.
  destruct (execute o _) as [r s5|er r s5| |]; try done.
  - rewrite Hh. destruct Hx as [Hx Ec5]. rewrite G1 in Hx.
    assert (stepped None s5) by (split; [split; [lia|done]|lia]). by destruct (jumps o).
  - destruct Hx as [Hx Ec5]. split; [lia|done].
Qed.

Context (Hpcs : pcs_u64 pcs cfg).
Context (run_gas : forall c i e, pcs_u64 pcs (config e) -> 0 <= Gas c < g0 ->
  match run c i e with
  | Ok (c', _, _) e' => 0 <= Gas c' <= Gas c /\ config e' = config e
  | Err _ _ _ => False
  | Panic _ => True
  | Fuel => False
  end).

(** The stipend of a value-bearing call is covered by its surcharge. *)
Lemma costed_passes v c m (s1 s2 : mstate DB) :
  0 <= Gas (ctr s1) < g0 -> config (evm s1) = cfg ->
  call_costed s1 (surcharge v) c s2 -> c <= Gas (ctr s1) ->
  let s3 := set_mem m (charged c s2) in
  passes g0 (Gas (ctr s1)) cfg s3
    (if Z.sgn v >? 0 then callGasTemp (evm s3) +u CallStipend else callGasTemp (evm s3)).
Proof.
  intros Hg Hc (b & Hb & Ub & (F1 & F2 & F3) & T0 & Hsum & _) Hle. specialize (Hsum Hle).
  unfold passes. simpl. rewrite F2. unfold surcharge, CallValueTransferGas, CallStipend in *.
  unfold is_u64 in *. destruct (Z.sgn v >? 0).
  - rewrite u64_small by (unfold is_u64; lia). repeat split; try lia. congruence.
  - repeat split; try lia. congruence.
Qed.

Lemma costed_passes_plain c m (s1 s2 : mstate DB) :
  0 <= Gas (ctr s1) < g0 -> config (evm s1) = cfg ->
  call_costed s1 0 c s2 -> c <= Gas (ctr s1) ->
  let s3 := set_mem m (charged c s2) in
  passes g0 (Gas (ctr s1)) cfg s3 (callGasTemp (evm s3)).
Proof. exact (costed_passes 0 c m s1 s2). Qed.

Lemma costed_frame base c (s1 s2 : mstate DB) :
  call_costed s1 base c s2 -> 0 <= c /\ same_frame s1 s2.
Proof. by intros (b & _ & _ & F & _ & _ & ?). Qed.

(** A creation may use all the gas that is left. *)
Lemma wpg_create_cost per i x (s : mstate DB) :
  wp (gas_per_word i per x) (fun c s2 => 0 <= c /\ same_frame s s2) s.
Proof.
  unfold wpg, gas_per_word, gbind, Back. destruct (stk s !! i); [|done]. simpl.
  split; [apply safeAdd_nonneg|done].
Qed.

Lemma stack_destruct n (l : list Z) :
  (n <= length l)%nat -> exists l1 l2, l = l1 ++ l2 /\ length l1 = n.
Proof. intros Hn. exists (take n l), (drop n l). rewrite take_drop, length_take. split; [done|lia]. Qed.

Ltac operands L n :=
  destruct (stack_destruct n _ L) as (?l1 & ?l2 & ?Es & ?El);
  repeat match goal with H : length ?l = S _ |- _ => destruct l as [|?x l]; [discriminate|]; injection H as H end;
  match goal with H : length ?l = 0%nat |- _ => apply nil_length_inv in H; subst l end.

(** Pay by the rule [cost], then execute by the rule [ex]. *)
Ltac by_call S1 Es cost ex :=
  eapply wpg_cons; [|eapply cost; [by rewrite S1, Es|unfold is_u64; try lia; try done..]];
  intros c s2 HC; destruct (costed_frame _ _ _ _ HC) as [H0 F]; split; [done|]; split; [done|];
  intros Hc2 m; destruct F as [F _];
  eapply ex; [unfold is_u64; lia|exact Hpcs|exact run_gas|simpl; by rewrite F, S1, Es|].

Ltac by_create S1 Es ex :=
  eapply wpg_cons; [|apply wpg_create_cost];
  intros c s2 [H0 F]; split; [done|]; split; [done|]; intros Hc2 m; destruct F as (F1 & F2 & F3);
  eapply ex; [unfold is_u64; lia|exact Hpcs|exact run_gas|simpl; by rewrite F1, S1, Es
             |simpl; rewrite F2; lia|simpl; rewrite F2; lia|simpl; congruence].

Lemma perform_call_priced (o : operation DB) (s : mstate DB) :
  call_priced o -> (minStack o <= length (stk s))%nat ->
  Gas (ctr s) = g0 -> config (evm s) = cfg -> wp (perform o) stepped s.
Proof.
  intros (Hh & Hc & Hop) Hn Eg Ec. unfold is_u64 in Hg0.
  assert (forall s1, s1 = charged (constantGas o) s -> constantGas o <= g0 ->
    0 <= Gas (ctr s1) < g0 /\ config (evm s1) = cfg /\ stk s1 = stk s) as H1.
  { intros s1 -> Hle. simpl. rewrite Eg. repeat split; try done; lia. }
  destruct Hop as [Hop|[Hop|[Hop|[Hop|[Hop|Hop]]]]]; destruct Hop as (Ex & Ed & Em & Emin); rewrite Emin in Hn.
  all: eapply perform_calling; [done|done|exact Em| |exact Ed|done|done|];
    [first [apply reads_call|apply reads_range]|].
  all: intros x s1 E1 Hle; destruct (H1 s1 E1 Hle) as (B1 & C1 & S1); rewrite Ex; clear E1.
  - operands Hn 7%nat. by_call S1 Es (@wpg_value_cost _ _ g0 cfg (Some CallNewAccountGas)) @wpg_opCall;
      by apply costed_passes.
  - operands Hn 7%nat. by_call S1 Es (@wpg_value_cost _ _ g0 cfg None) @wpg_opCallCode; by apply costed_passes.
  - operands Hn 6%nat. by_call S1 Es (@wpg_plain_cost _ _ g0 cfg) @wpg_opDelegateCall; by apply costed_passes_plain.
  - operands Hn 6%nat. by_call S1 Es (@wpg_plain_cost _ _ g0 cfg) @wpg_opStaticCall; by apply costed_passes_plain.
  - operands Hn 3%nat. by_create S1 Es @wpg_opCreate.
  - operands Hn 4%nat. by_create S1 Es @wpg_opCreate2.
Qed.

End Steps.

(** ** The metered tables *)

Section MeteredTables.

Context {DB : Type} `{StateDB DB}.
Context (keccak256 : bytes -> bytes).
Context (pcs : gmap Z PrecompiledContract).
Context (rvrun : bytes -> bytes -> Z -> bytes * option vmerr).
Context (run : Contract -> bytes -> M (EVM DB) (Contract * bytes * option vmerr)).

Abbreviation good := (metered_op keccak256 pcs rvrun run).

(** All entries but those of the opcodes [K] are metered. *)
Definition metered_but (K : list Z) (t : JumpTable DB) : Prop :=
  forall code o, t !! code = Some o -> existsb (Z.eqb code) K = false -> good code o.

Definition metered_ops (K : list Z) (l : list (Z * operation DB)) : Prop :=
  Forall (fun p => existsb (Z.eqb p.1) K = true \/ good p.1 p.2) l.

Lemma metered_assign K l t : metered_ops K l -> metered_but K t -> metered_but K (assign l t).
Proof.
  unfold assign. revert t. induction l as [|[c o] l IH]; intros t Hl Ht; simpl; [done|].
  apply Forall_cons in Hl as [Hp Hl]. apply IH; [done|]. intros code o' Hlook HK.
  destruct (decide (c = code)) as [->|Hne].
  - rewrite lookup_insert_eq in Hlook. injection Hlook as <-. simpl in Hp. rewrite HK in Hp. by destruct Hp.
  - rewrite lookup_insert_ne in Hlook by done. by apply Ht.
Qed.

(** Assigning an opcode removes it from the exceptions. *)
Lemma metered_close K l t :
  metered_ops [] l -> metered_but K t -> forallb (fun k => existsb (Z.eqb k) l.*1) K = true ->
  metered_but [] (assign l t).
Proof.
  unfold assign. revert K t. induction l as [|[c o] l IH]; intros K t Hl Ht HK; simpl.
  - intros code o E _. apply Ht; [done|]. destruct (existsb _ K) eqn:E2; [|done].
    apply existsb_exists in E2 as (k & Hk & _). rewrite forallb_forall in HK.
    specialize (HK k Hk). done.
  - apply Forall_cons in Hl as [[Hp|Hp] Hl]; [done|].
    apply (IH (filter (fun k => k <> c) K)); [done| |].
    + intros code o' Hlook HK'. destruct (decide (c = code)) as [->|Hne].
      * rewrite lookup_insert_eq in Hlook. by injection Hlook as <-.
      * rewrite lookup_insert_ne in Hlook by done. apply Ht; [done|].
        apply not_true_iff_false. intros E. apply not_true_iff_false in HK'. apply HK'.
        apply existsb_exists in E as (k & Hk & Ek). apply existsb_exists. exists k. split; [|done].
        apply list_elem_of_In, list_elem_of_filter. apply Z.eqb_eq in Ek. split; [congruence|].
        by apply list_elem_of_In.
    + apply forallb_forall. intros k Hk. apply list_elem_of_In, list_elem_of_filter in Hk as [Hkc Hk].
      rewrite forallb_forall in HK. specialize (HK k). rewrite <- list_elem_of_In in HK.
      specialize (HK Hk). simpl in HK. apply orb_true_iff in HK as [HK|HK]; [|done].
      apply Z.eqb_eq in HK. done.
Qed.

Lemma sstore_positive x : costs 1 (gasSstoreEIP2929 (DB := DB) x).
Proof. intros s. pose proof (cost_sstore x s) as C. destruct (gasSstoreEIP2929 x s); try done. lia. Qed.

Lemma sstore_cost : cost_function (gasSstoreEIP2929 (DB := DB)).
Proof. intros x s. pose proof (cost_sstore x s) as C. destruct (gasSstoreEIP2929 x s); try done. lia. Qed.

Ltac fields :=
  cbn [execute constantGas dynamicGas minStack maxStack memorySize halts op dyn memf halting jumping writing fst snd].

Ltac cost_lemma :=
  first [ exact cost_exp | exact cost_copy | exact cost_memExpansion | exact cost_sha3 | apply cost_log
        | exact cost_create | exact cost_create2 | exact cost_mcopy | exact cost_sload | exact cost_balance
        | exact cost_extCodeSize | exact cost_extCodeHash | exact cost_extCodeCopy
        | exact cost_selfdestruct | exact sstore_cost ].

Ltac paid :=
  first [ left; reflexivity
        | right; left; reflexivity
        | right; right; left; eexists; split; [reflexivity|exact sstore_positive]
        | right; right; right; intros ? ? ?; discriminate ].

Ltac priced_solve :=
  split; [fields; by vm_compute|];
  split; [intros f; fields; intros Ef; first [discriminate Ef|injection Ef as <-; cost_lemma]|];
  fields; paid.

Ltac call_priced_solve :=
  split; [reflexivity|]; split; [reflexivity|]; fields;
  repeat first [left; repeat split; reflexivity | repeat split; reflexivity | right].

(** Decide whether the opcode is excepted, and prove it metered otherwise. *)
Ltac metered_solve :=
  lazymatch goal with
  | |- existsb (Z.eqb ?c) ?K = true \/ _ =>
      let b := eval vm_compute in (existsb (Z.eqb c) K) in
      lazymatch b with
      | true => left; vm_compute; reflexivity
      | false =>
          right; unfold metered_op;
          let d := eval vm_compute in (calling c) in change (calling c) with d; cbv iota;
          first [priced_solve | call_priced_solve]
      end
  end.

Ltac metered_list := repeat (apply Forall_cons; split; [cbn [fst snd]; metered_solve|]); by apply Forall_nil.

(** Repriced in Berlin; before, calls were passed stale or unpaid gas. *)
Definition repriced : list Z := [EXTCODECOPY; CALL; CALLCODE; DELEGATECALL; STATICCALL; SELFDESTRUCT].

Lemma metered_plain_range {A} (f : A -> Z * operation DB) l :
  Forall (fun a => (f a).1 < CREATE /\ priced (f a).2) l -> metered_ops repriced (f <$> l).
Proof.
  intros Hl. apply Forall_fmap. eapply Forall_impl; [exact Hl|]. intros a [Hc Hp]. right.
  unfold metered_op. simpl. by rewrite calling_small.
Qed.

Lemma frontier_metered : metered_ops repriced (frontierOps keccak256 pcs rvrun run).
Proof. metered_list. Qed.

Lemma ranges_metered : metered_ops repriced (pushOps ++ dupOps ++ swapOps ++ logOps).
Proof.
  repeat (apply Forall_app; split); apply metered_plain_range, Forall_seq; intros i Hi;
    (split; [simpl; unfold PUSH1, DUP1, SWAP1, LOG0, CREATE; lia|priced_solve]).
Qed.

Lemma berlin_metered : metered_ops [] (berlinOps pcs rvrun run).
Proof. metered_list. Qed.

Lemma istanbulTable_metered : metered_but repriced (NewIstanbulJumpTable keccak256 pcs rvrun run).
Proof.
  unfold NewIstanbulJumpTable, NewConstantinopleJumpTable, NewByzantiumJumpTable, NewSpuriousDragonJumpTable,
    NewTangerineWhistleJumpTable, NewHomesteadJumpTable, NewFrontierJumpTable.
  do 5 (apply metered_assign; [metered_list|]). apply metered_assign; [|by intros ? ? ?%lookup_empty_Some].
  apply Forall_app. split; [exact frontier_metered|exact ranges_metered].
Qed.

Lemma berlinTable_metered : metered_but [] (NewBerlinJumpTable keccak256 pcs rvrun run).
Proof. exact (metered_close repriced _ _ berlin_metered istanbulTable_metered eq_refl). Qed.

Lemma londonTable_metered : metered_but [] (NewLondonJumpTable keccak256 pcs rvrun run).
Proof. apply metered_assign; [metered_list|exact berlinTable_metered]. Qed.

Lemma shanghaiTable_metered : metered_but [] (NewShanghaiJumpTable keccak256 pcs rvrun run).
Proof. apply metered_assign; [metered_list|exact londonTable_metered]. Qed.

Lemma cancunTable_metered : metered_but [] (NewCancunJumpTable keccak256 pcs rvrun run).
Proof. apply metered_assign; [metered_list|exact shanghaiTable_metered]. Qed.

(** The rules under which [SelectJumpTable] gives one of these tables. *)
Definition metered_rules (rules : ForkRules) : bool :=
  negb (IsIPlus rules || IsVerkle rules || IsGlamsterdan rules) &&
  (IsPrague rules || IsCancun rules || IsShanghai rules || IsMerge rules || IsLondon rules ||
   IsBerlin rules).

Lemma selectTable_metered rules :
  metered_rules rules = true -> metered_but [] (SelectJumpTable keccak256 pcs rvrun run rules).
Proof.
  unfold metered_rules, SelectJumpTable.
  destruct (IsIPlus rules); [intros E; discriminate E|].
  destruct (IsVerkle rules); [intros E; discriminate E|].
  destruct (IsGlamsterdan rules); [intros E; discriminate E|].
  destruct (IsPrague rules); [intros; exact cancunTable_metered|].
  destruct (IsCancun rules); [intros; exact cancunTable_metered|].
  destruct (IsShanghai rules); [intros; exact shanghaiTable_metered|].
  destruct (IsMerge rules); [intros; exact londonTable_metered|].
  destruct (IsLondon rules); [intros; exact londonTable_metered|].
  destruct (IsBerlin rules); [intros; exact berlinTable_metered|intros E; discriminate E].
Qed.

End MeteredTables.

(** ** Executions *)

Section Runs.

Context {DB : Type} `{StateDB DB}.
Context (keccak256 : bytes -> bytes).
Context (pcs : gmap Z PrecompiledContract).
Context (rvrun : bytes -> bytes -> Z -> bytes * option vmerr).
Context (rules : ForkRules) (Hrules : metered_rules rules = true).

Abbreviation table := (fun run => SelectJumpTable keccak256 pcs rvrun run rules).
Abbreviation anyrel := (fun _ _ : EVM DB => True).

(** What [Run] returns: no more gas than it was given, and the
    configuration unchanged. *)
Definition bounded (g : Z) (c : Config) (r : out (EVM DB) (Contract * bytes * option vmerr)) : Prop :=
  match r with
  | Ok (c', _, _) e' => 0 <= Gas c' <= g /\ config e' = c
  | Err _ _ _ => False
  | Panic _ => True
  | Fuel => False
  end.

Lemma step_metered run (s : mstate DB) :
  (length (stk s) <= stackLimit)%nat -> is_u64 (Gas (ctr s)) -> pcs_u64 pcs (config (evm s)) ->
  (forall c i e, pcs_u64 pcs (config e) -> 0 <= Gas c < Gas (ctr s) ->
     bounded (Gas c) (config e) (run c i e)) ->
  wpg (Gas (ctr s)) (config (evm s)) (step (table run))
    (stepped (Gas (ctr s)) (config (evm s))) s.
Proof.
  intros L Hg P R. assert (within (Gas (ctr s)) (config (evm s)) s) as W
    by (unfold is_u64 in Hg; split; [lia|done]).
  unfold step. apply wpg_bind, wpg_get. destruct (_ !! _) as [o|] eqn:E; [|done].
  destruct (Nat.ltb_spec (length (stk s)) (minStack o)); [done|].
  destruct (Nat.ltb_spec (maxStack o) (length (stk s))); [done|].
  pose proof (selectTable_ok anyrel keccak256 pcs rvrun run rules _ _ E) as [Hgas Hex].
  pose proof (selectTable_metered keccak256 pcs rvrun run rules Hrules _ _ E eq_refl) as Hm.
  unfold metered_op in Hm. destruct (calling _).
  - by eapply perform_call_priced.
  - by apply perform_priced.
Qed.

Lemma exec_metered fuel (s : mstate DB) :
  (length (stk s) <= stackLimit)%nat -> is_u64 (Gas (ctr s)) -> pcs_u64 pcs (config (evm s)) ->
  Gas (ctr s) < Z.of_nat fuel ->
  bounded (Gas (ctr s)) (config (evm s)) (exec table fuel s).
Proof.
  revert s. induction fuel as [|n IH]; intros s L Hg P Hf; [unfold is_u64 in Hg; lia|]. simpl.
  set (run := fun c input e => exec table n (initFrame c input e)).
  pose proof (step_metered run s L Hg P) as W.
  pose proof (step_ok anyrel True keccak256 pcs rvrun run) as SO.
  assert (forall c i, ple anyrel True false (run c i)) as R1.
  { intros c i e _. apply (exec_ok anyrel True keccak256 pcs rvrun); [|done|simpl; lia].
    intros. apply selectTable_ok; cls. }
  assert (forall c i e er r e', run c i e <> Err er r e') as R2 by (intros; apply exec_returns).
  specialize (SO R1 R2 (table run) _ (selectTable_ok anyrel keccak256 pcs rvrun run rules) L s eq_refl).
  specialize (SO ltac:(intros ?; discriminate)).
  assert (forall c i e, pcs_u64 pcs (config e) -> 0 <= Gas c < Gas (ctr s) ->
     bounded (Gas c) (config e) (run c i e)) as R3.
  { intros c i e Pe Hc. apply (IH (initFrame c i e)); simpl; [lia| |done|lia].
    unfold is_u64 in *. lia. }
  specialize (W R3). unfold wpg in W. cbv beta in W, SO.
  destruct (step _ s) as [[ret|] s'|er r s'|p|]; try exact W; try exact I.
  - by destruct W.
  - destruct W as [[B C] Hlt]. specialize (Hlt eq_refl). destruct SO as [L' _].
    assert (bounded (Gas (ctr s')) (config (evm s')) (exec table n s')) as R.
    { apply IH; [done|unfold is_u64 in *; lia|by rewrite C|lia]. }
    unfold bounded in *. destruct (exec table n s') as [[[c' r] err] e'| | |]; try done.
    rewrite C in R. split; [lia|by destruct R].
Qed.

End Runs.
