(* ===== verification/FuelMono.v ===== *)
(** * FuelMono: the result of an execution does not depend on the fuel

    An interpreter that knows more answers gives the calling operations,
    and with them a whole execution, the same result or one more. *)

From S2P Require Import Prelude StateDB Machine Calls GasTable Witness Instructions JumpTable.
From S2P Require Import Interpreter Wp InstrSafe.

(** [m'] answers whatever [m] answers. *)
Definition approx {S A} (m m' : M S A) : Prop := forall s, m s = Fuel \/ m s = m' s.

#[export] Instance approx_refl {S A} : Reflexive (@approx S A).
Proof. intros m s. by right. Qed.

Lemma approx_bind {S A B} (m m' : M S A) (k k' : A -> M S B) :
  approx m m' -> (forall a, approx (k a) (k' a)) -> approx (gbind m k) (gbind m' k').
Proof.
  intros Hm Hk s. unfold gbind. destruct (Hm s) as [E|E]; rewrite E; [by left|].
  destruct (m' s); try by right. apply Hk.
Qed.

Lemma approx_liftE {DB A} (m m' : M (EVM DB) A) : approx m m' -> approx (liftE m) (liftE m').
Proof. intros Hm s. unfold liftE. by destruct (Hm (evm s)) as [E|E]; rewrite E; [left|right]. Qed.

Ltac approx_step :=
  match goal with |- approx ?m ?m' => constr_eq m m'; reflexivity end ||
  lazymatch goal with
  | H : forall c i, approx (?r c i) (?r' c i) |- approx (?r _ _) (?r' _ _) => apply H
  | |- approx (gbind _ _) (gbind _ _) => apply approx_bind; [|intros ?]
  | |- approx (liftE _) (liftE _) => apply approx_liftE
  | |- approx (match ?x with _ => _ end) _ => destruct x
  | |- approx ?m _ => let h := head_of m in unfold h; cbv zeta
  end.

Section FuelMono.

Context {DB : Type} `{StateDB DB}.
Context (keccak256 : bytes -> bytes).
Context (pcs : gmap Z PrecompiledContract).
Context (rvrun : bytes -> bytes -> Z -> bytes * option vmerr).

Abbreviation runner := (Contract -> bytes -> M (EVM DB) (Contract * bytes * option vmerr)).

Section Tables.

Context (run run' : runner) (Hrun : forall c i, approx (run c i) (run' c i)).

Lemma approx_Call a b i g v : approx (Call pcs rvrun run a b i g v) (Call pcs rvrun run' a b i g v).
Proof. repeat approx_step. Qed.

Lemma approx_callInCaller a b i g v :
  approx (callInCaller pcs run a b i g v) (callInCaller pcs run' a b i g v).
Proof. repeat approx_step. Qed.

Lemma approx_StaticCall a b i g : approx (StaticCall pcs run a b i g) (StaticCall pcs run' a b i g).
Proof. repeat approx_step. Qed.

Lemma approx_create a code g v addr : approx (create run a code g v addr) (create run' a code g v addr).
Proof. repeat approx_step. Qed.

(** Table entries that differ in how much [execute] answers only. *)
Definition op_approx (o o' : operation DB) : Prop :=
  o' = o \/
  (constantGas o' = constantGas o /\ dynamicGas o' = dynamicGas o /\ minStack o' = minStack o /\
   maxStack o' = maxStack o /\ memorySize o' = memorySize o /\ halts o' = halts o /\
   jumps o' = jumps o /\ approx (execute o) (execute o')).

Definition ops_approx : list (Z * operation DB) -> list (Z * operation DB) -> Prop :=
  Forall2 (fun p p' => p'.1 = p.1 /\ op_approx p.2 p'.2).

Definition table_approx (t t' : JumpTable DB) : Prop :=
  forall code, option_Forall2 op_approx (t !! code) (t' !! code).

Lemma assign_approx l l' t t' :
  ops_approx l l' -> table_approx t t' -> table_approx (assign l t) (assign l' t').
Proof.
  unfold assign. intros Hl. revert t t'.
  induction Hl as [|[c o] [c' o'] l l' [Hc Ho] Hl IH]; intros t t' Ht; simpl; [done|].
  apply IH. simpl in *. subst c'. intros code. destruct (decide (c = code)) as [->|Hne].
  - rewrite !lookup_insert_eq. by constructor.
  - by rewrite !lookup_insert_ne.
Qed.

Lemma ops_approx_refl l : ops_approx l l.
Proof. induction l; constructor; [split; [done|by left]|done]. Qed.

Ltac op_approx_solve :=
  cbn [fst snd]; split; [reflexivity|];
  first [ match goal with |- op_approx ?o ?o' => constr_eq o o'; left; reflexivity end
        | right;
          cbn [execute constantGas dynamicGas minStack maxStack memorySize halts jumps op dyn memf
               halting jumping writing];
          repeat (split; [reflexivity|]); repeat approx_step ].

Ltac ops_approx_solve :=
  repeat (apply Forall2_cons_2; [op_approx_solve|]); apply Forall2_nil_2.

Lemma frontier_approx : ops_approx (frontierOps keccak256 pcs rvrun run) (frontierOps keccak256 pcs rvrun run').
Proof. ops_approx_solve. Qed.

Lemma homestead_approx : ops_approx (homesteadOps pcs run) (homesteadOps pcs run').
Proof. ops_approx_solve. Qed.
Lemma tangerine_approx : ops_approx (tangerineWhistleOps pcs rvrun run) (tangerineWhistleOps pcs rvrun run').
Proof. ops_approx_solve. Qed.
Lemma byzantium_approx : ops_approx (byzantiumOps pcs run) (byzantiumOps pcs run').
Proof. ops_approx_solve. Qed.
Lemma constantinople_approx : ops_approx (constantinopleOps keccak256 run) (constantinopleOps keccak256 run').
Proof. ops_approx_solve. Qed.
Lemma berlin_approx : ops_approx (berlinOps pcs rvrun run) (berlinOps pcs rvrun run').
Proof. ops_approx_solve. Qed.
Lemma glamsterdan_approx :
  ops_approx (glamsterdanOps keccak256 pcs rvrun run) (glamsterdanOps keccak256 pcs rvrun run').
Proof. ops_approx_solve. Qed.
Lemma verkle_approx : ops_approx (verkleOps pcs rvrun run) (verkleOps pcs rvrun run').
Proof. ops_approx_solve. Qed.

Abbreviation related T := (table_approx (T keccak256 pcs rvrun run) (T keccak256 pcs rvrun run')).

Lemma homesteadTable_approx : related NewHomesteadJumpTable.
Proof.
  apply assign_approx; [exact homestead_approx|]. apply assign_approx; [|intros ?; rewrite lookup_empty; constructor].
  apply Forall2_app; [exact frontier_approx|apply ops_approx_refl].
Qed.

Lemma frontierTable_approx : related NewFrontierJumpTable.
Proof.
  apply assign_approx; [|intros ?; rewrite lookup_empty; constructor].
  apply Forall2_app; [exact frontier_approx|apply ops_approx_refl].
Qed.

Lemma byzantiumTable_approx : related NewByzantiumJumpTable.
Proof.
  exact (assign_approx _ _ _ _ byzantium_approx
           (assign_approx _ _ _ _ tangerine_approx homesteadTable_approx)).
Qed.

Lemma constantinopleTable_approx : related NewConstantinopleJumpTable.
Proof. exact (assign_approx _ _ _ _ constantinople_approx byzantiumTable_approx). Qed.

Lemma istanbulTable_approx : related NewIstanbulJumpTable.
Proof. exact (assign_approx _ _ _ _ (ops_approx_refl _) constantinopleTable_approx). Qed.

Lemma berlinTable_approx : related NewBerlinJumpTable.
Proof. exact (assign_approx _ _ _ _ berlin_approx istanbulTable_approx). Qed.

Lemma londonTable_approx : related NewLondonJumpTable.
Proof. exact (assign_approx _ _ _ _ (ops_approx_refl _) berlinTable_approx). Qed.

Lemma shanghaiTable_approx : related NewShanghaiJumpTable.
Proof. exact (assign_approx _ _ _ _ (ops_approx_refl _) londonTable_approx). Qed.

Lemma cancunTable_approx : related NewCancunJumpTable.
Proof. exact (assign_approx _ _ _ _ (ops_approx_refl _) shanghaiTable_approx). Qed.

Lemma glamsterdanTable_approx : related NewGlamsterdanJumpTable.
Proof. exact (assign_approx _ _ _ _ glamsterdan_approx cancunTable_approx). Qed.

Lemma verkleTable_approx : related NewVerkleJumpTable.
Proof. exact (assign_approx _ _ _ _ verkle_approx glamsterdanTable_approx). Qed.

Lemma iplusTable_approx : related NewIPlusJumpTable.
Proof. exact (assign_approx _ _ _ _ (ops_approx_refl _) glamsterdanTable_approx). Qed.

Lemma selectTable_approx rules :
  table_approx (SelectJumpTable keccak256 pcs rvrun run rules) (SelectJumpTable keccak256 pcs rvrun run' rules).
Proof.
  unfold SelectJumpTable.
  destruct (IsIPlus rules); [exact iplusTable_approx|].
  destruct (IsVerkle rules); [exact verkleTable_approx|].
  destruct (IsGlamsterdan rules); [exact glamsterdanTable_approx|].
  destruct (IsPrague rules); [exact cancunTable_approx|].
  destruct (IsCancun rules); [exact cancunTable_approx|].
  destruct (IsShanghai rules); [exact shanghaiTable_approx|].
  destruct (IsMerge rules); [exact londonTable_approx|].
  destruct (IsLondon rules); [exact londonTable_approx|].
  destruct (IsBerlin rules); [exact berlinTable_approx|].
  destruct (IsIstanbul rules); [exact istanbulTable_approx|].
  destruct (IsConstantinople rules); [exact constantinopleTable_approx|].
  destruct (IsByzantium rules); [exact byzantiumTable_approx|].
  destruct (IsHomestead rules); [exact homesteadTable_approx|exact frontierTable_approx].
Qed.

Lemma perform_approx o o' : op_approx o o' -> approx (perform o) (perform o').
Proof.
  intros [->|(E1 & E2 & E3 & E4 & E5 & E6 & E7 & Ex)]; [reflexivity|].
  unfold perform, requiredMemory, chargeDynamic. rewrite E1, E2, E5, E6, E7.
  do 4 (apply approx_bind; [reflexivity|intros ?]). apply approx_bind; [|reflexivity].
  intros s. unfold dropData. by destruct (Ex s) as [E|E]; rewrite E; [left|right].
Qed.

Lemma op_approx_heights o o' : op_approx o o' -> minStack o' = minStack o /\ maxStack o' = maxStack o.
Proof. intros [->|(_ & _ & -> & -> & _)]; done. Qed.

Lemma step_approx t t' : table_approx t t' -> approx (step t) (step t').
Proof.
  intros Ht. unfold step. apply approx_bind; [reflexivity|]. intros s.
  destruct (Ht (GetOp (ctr s) (pc s))) as [o o' Ho|]; [|reflexivity].
  destruct (op_approx_heights o o' Ho) as [-> ->].
  destruct (_ <? _)%nat; [reflexivity|]. destruct (_ <? _)%nat; [reflexivity|]. by apply perform_approx.
Qed.

End Tables.

(** More fuel gives the same answer. *)
Lemma exec_mono (table : runner -> JumpTable DB) n k (s : mstate DB) :
  (forall run run', (forall c i, approx (run c i) (run' c i)) -> table_approx (table run) (table run')) ->
  exec table n s = Fuel \/ exec table (n + k) s = exec table n s.
Proof.
  intros HT. revert s. induction n as [|n IH]; intros s; simpl; [by left|].
  set (run := fun c input e => exec table n (initFrame c input e)).
  set (run' := fun c input e => exec table (n + k) (initFrame c input e)).
  assert (forall c i, approx (run c i) (run' c i)) as R.
  { intros c i e. destruct (IH (initFrame c i e)) as [E|E]; [by left|by right]. }
  destruct (step_approx (table run) (table run') (HT run run' R) s) as [E|E]; rewrite E; [by left|].
  destruct (step (table run') s) as [[ret|] s'| | |]; auto.
Qed.

Lemma exec_fuel_mono rules n k (s : mstate DB) :
  let table run := SelectJumpTable keccak256 pcs rvrun run rules in
  exec table n s = Fuel \/ exec table (n + k) s = exec table n s.
Proof. intros table. apply exec_mono. intros run run' R. by apply selectTable_approx. Qed.

End FuelMono.
