(* ===== verification/GasProps.v ===== *)
(** * GasProps: gas bounds execution, and where it does not

    From Berlin to Prague every execution ends within its gas.  The tables
    before Berlin and from Glamsterdam on hand out gas nobody paid for. *)

From S2P Require Import Prelude StateDB MemStateDB MemStateDBProofs Machine Calls GasTable Witness.
From S2P Require Import Instructions JumpTable Interpreter Wp InstrSafe CallSafe ExecSafe GasSafe.
From S2P Require Import Termination FuelMono Fixture.

Section GasProps.

Context {DB : Type} `{StateDB DB}.
Context (keccak256 : bytes -> bytes).
Context (pcs : gmap Z PrecompiledContract).
Context (rvrun : bytes -> bytes -> Z -> bytes * option vmerr).

(** C4. Termination and gas accounting, for the jump tables from Berlin to
    Prague: whatever the code, input, world and call depth, [Run] ends
    within as many loop iterations as the frame has gas (nested frames
    included), with a result that no longer depends on the fuel; it leaves
    between 0 and the given amount of gas, so that execution never creates
    gas. *)
Theorem run_terminates rules contract input (e : EVM DB) :
  metered_rules rules = true -> is_u64 (Gas contract) -> pcs_u64 pcs (config e) ->
  exists r, bounded (Gas contract) (config e) r /\
    forall fuel, Gas contract < Z.of_nat fuel ->
      Run (fun run => SelectJumpTable keccak256 pcs rvrun run rules) fuel contract input e = r.
Proof.
  intros Hr Hg P. set (s := initFrame contract input e). set (n := S (Z.to_nat (Gas contract))).
  pose proof (fun m => exec_metered keccak256 pcs rvrun rules Hr m s ltac:(simpl; lia) Hg P) as B.
  pose proof (fun k => exec_fuel_mono keccak256 pcs rvrun rules n k s) as F. cbv zeta in F.
  unfold Run. fold s. change (Gas (ctr s)) with (Gas contract) in B. change (config (evm s)) with (config e) in B.
  unfold is_u64 in Hg. eexists. split; [apply (B n); lia|]. intros m Hm.
  replace m with (n + (m - n))%nat by lia. specialize (B n ltac:(lia)).
  destruct (F (m - n)%nat) as [E|E]; [|exact E]. rewrite E in B. destruct B.
Qed.

(** From Glamsterdam on, a value-bearing CALL of a warm existing account
    costs 150 + 2000 gas, but the callee is given the 2300 stipend, which it
    may return unused: the call is paid for with less than it hands out. *)
Lemma glamsterdam_stipend_unpaid (s : mstate DB) db a0 a1 v rest :
  stk s = a0 :: a1 :: v :: rest -> 0 < v -> Uint64 a0 = 0 ->
  statedb (evm s) = Some db ->
  AddressInAccessList db (bigToAddress a1) = true -> Exist db (bigToAddress a1) = true ->
  is_u64 (Gas (ctr s)) -> 2000 <= Gas (ctr s) ->
  exists s1, gasCallGlamst 0 s = Ok 2000 s1 /\ callGasFor v s1 = Ok 2300 s1 /\
    WarmStorageReadGlamst + 2000 < CallStipend.
Proof.
  intros Es Hv Ha Edb Ewarm Eex Hu Hg.
  exists (set_evm (set_callGasTemp 0 (evm s)) s).
  assert (callGasEIP150 (Gas (ctr s)) 2000 0 = 0) as E0.
  { destruct (callGasEIP150_bound (Gas (ctr s)) 2000 0 Hu) as (T0 & T1 & _); [done..|].
    unfold callGasEIP150 in *. destruct (_ <? _); [done|]. destruct (Z.gtb_spec 0 (Gas (ctr s) -u 2000 -u (Gas (ctr s) -u 2000) / CallGasFraction)); [|done].
    pose proof (u64_nonneg (Gas (ctr s) -u 2000 - (Gas (ctr s) -u 2000) / CallGasFraction)). lia. }
  assert ((Z.sgn v =? 0) = false) as Ev by (apply Z.eqb_neq; lia).
  assert (accountCheck (ColdAccountAccessGlamst -u WarmStorageReadGlamst) (bigToAddress a1) s = Ok 0 s) as Ec.
  { unfold accountCheck, liftE, gbind, hasDB, readDB. rewrite Edb. simpl. rewrite Edb, Ewarm. by destruct s. }
  assert (missing (bigToAddress a1) s = Ok false s) as Em.
  { unfold missing, liftE, gbind, hasDB, readDB. rewrite Edb. simpl. rewrite Edb, Eex. by destruct s. }
  repeat split.
  - unfold gasCallGlamst, gasEIP8038AccountCheck, valueGas, finishCallGas, gasMemExpansion, Back, gbind, gget, gret.
    rewrite Es. simpl. rewrite Ec, Es. simpl. rewrite Ev, Es. simpl. rewrite Em, Es. simpl. rewrite Ha.
    change (safeAdd (safeAdd 0 CallValueTransferGlamst) (memExpansionGas _ 0)) with 2000.
    rewrite E0. done.
  - unfold callGasFor, gbind, gget, gret. simpl. destruct (Z.gtb_spec (Z.sgn v) 0); [done|lia].
Qed.

(** The entry of DELEGATECALL from Tangerine Whistle to Istanbul. *)
Definition delegateCallEIP150 (run : Contract -> bytes -> M (EVM DB) (Contract * bytes * option vmerr))
  : operation DB :=
  memf memoryDelegateCall (dyn gasMemExpansion (op (opDelegateCall pcs run) GasCallEIP150 6 1024)).

Lemma callInCaller_empty run a b i g v (e : EVM DB) db :
  statedb e = Some db -> depth e <= MaxCallDepth (config e) ->
  default pcs (precompiles (config e)) !! b = None -> GetCode (Snapshot db).2 b = [] ->
  callInCaller pcs run a b i g v e = Ok ([], g, None) (set_statedb (Some (Snapshot db).2) e).
Proof.
  intros Edb Hd Ep Ec. unfold callInCaller, gbind, gget, precompile, hasDB, takeSnapshot, readDB.
  destruct (Z.gtb_spec (depth e) (MaxCallDepth (config e))); [lia|].
  rewrite Ep, Edb. simpl. rewrite Edb. simpl. by rewrite Ec.
Qed.

(** A DELEGATECALL without arguments to an account without code: the gas
    passed on comes back. *)
Lemma opDelegateCall_empty run (s : mstate DB) db g a rest :
  stk s = g :: a :: 0 :: 0 :: 0 :: 0 :: rest ->
  statedb (evm s) = Some db -> depth (evm s) <= MaxCallDepth (config (evm s)) ->
  default pcs (precompiles (config (evm s))) !! bigToAddress a = None ->
  GetCode (Snapshot db).2 (bigToAddress a) = [] ->
  exists s', opDelegateCall pcs run s = Ok [] s' /\
    Gas (ctr s') = Gas (ctr s) +u callGasTemp (evm s).
Proof.
  destruct s as [p st me c e]. intros Es Edb Hd Ep Ec. simpl in Es. subst st.
  unfold opDelegateCall, popCallee, popWindows, memWindow, touch, record, finishCall, addGas, Pop, MemGet, mem_Get,
    DelegateCall, liftE, gmodify, gget, gbind, gret. simpl.
  erewrite callInCaller_empty; [|exact Edb|exact Hd|exact Ep|exact Ec].
  simpl. unfold Push. destruct (_ <=? _)%nat; simpl; eexists; split; reflexivity.
Qed.

(** Between Tangerine Whistle and Istanbul DELEGATECALL is priced by
    memory expansion alone, and passes on the gas computed for an earlier
    CALL without charging for it: calling an account without code leaves the
    frame with the old [callGasTemp] on top of its own gas. *)
Lemma delegatecall_gas_unpaid run (s : mstate DB) db g a rest :
  stk s = g :: a :: 0 :: 0 :: 0 :: 0 :: rest ->
  statedb (evm s) = Some db -> depth (evm s) <= MaxCallDepth (config (evm s)) ->
  default pcs (precompiles (config (evm s))) !! bigToAddress a = None ->
  GetCode (Snapshot db).2 (bigToAddress a) = [] ->
  700 <= Gas (ctr s) -> 0 <= callGasTemp (evm s) ->
  is_u64 (Gas (ctr s) + callGasTemp (evm s)) ->
  NewIstanbulJumpTable keccak256 pcs rvrun run !! DELEGATECALL = Some (delegateCallEIP150 run) /\
  exists s', perform (delegateCallEIP150 run) s = Ok None s' /\
    Gas (ctr s') = Gas (ctr s) - 700 + callGasTemp (evm s).
Proof.
  intros Es Edb Hd Ep Ec Hg Ht Hu. split; [reflexivity|]. unfold is_u64 in Hu.
  set (s1 := set_ctr (set_Gas (Gas (ctr s) - 700) (ctr s)) s).
  destruct (opDelegateCall_empty run s1 db g a rest Es Edb Hd Ep Ec) as (s2 & E2 & G2).
  assert (chargeGas GasCallEIP150 s = Ok tt s1) as C1.
  { unfold chargeGas, gbind, gget, UseGas. destruct (Z.ltb_spec (Gas (ctr s)) GasCallEIP150); [unfold GasCallEIP150 in *; lia|].
    rewrite u64_small by (unfold is_u64, GasCallEIP150; lia). reflexivity. }
  assert (memoryDelegateCall s1 = Ok (Some 0) s1) as C2.
  { unfold memoryDelegateCall, memory_call, backU64, gbind, Back. do 4 (simpl; rewrite Es). reflexivity. }
  assert (chargeGas 0 s1 = Ok tt s1) as C3.
  { unfold chargeGas, gbind, gget, UseGas. destruct (Z.ltb_spec (Gas (ctr s1)) 0); [simpl in *; lia|].
    rewrite u64_small by (unfold is_u64; simpl; lia). simpl. by rewrite Z.sub_0_r. }
  exists (set_pc (pc s2 +u 1) s2). split.
  - unfold perform, requiredMemory, chargeDynamic, resizeMemory, dropData, orOutOfGas, gasMemExpansion, gbind, gget, gret, gmodify.
    simpl. rewrite C1, C2. simpl. change (memExpansionGas _ 0) with 0. rewrite C3. simpl. by rewrite E2.
  - simpl. rewrite G2. simpl. rewrite u64_small by (unfold is_u64; lia). lia.
Qed.

End GasProps.

(** The sender contract of the fixture, which calls and self-destructs. *)
Lemma run_terminates_witness :
  exists r, bounded 100000 (config fx_e) r /\ forall fuel, 100000 < Z.of_nat fuel ->
    Run (fx_table fx_cancun) fuel (set_CodeHash fx_sender 0 (NewContract 1 0xB0 (Some 0) 100000)) [] fx_e = r.
Proof.
  apply (run_terminates fx_keccak fx_pcs fx_rv fx_cancun
    (set_CodeHash fx_sender 0 (NewContract 1 0xB0 (Some 0) 100000)) [] fx_e).
  - reflexivity.
  - vm_compute. done.
  - apply map_Forall_insert_2; [|apply map_Forall_empty]. done.
Defined.

(** Forty such calls turn 10000 gas into 15280. *)
Definition w_valueCalls : bytes :=
  mjoin (replicate 40 [0x5f; 0x5f; 0x5f; 0x5f; 0x60; 1; 0x60; 0xE0; 0x5f; 0xf1; 0x50]).
Definition w_minting : MemoryStateDB :=
  fx_db [MAddBalance 0xA0 1000000; MAddBalance 0xE0 1; MAddAddressToAccessList 0xE0].
Definition w_valueFrame : mstate MemoryStateDB :=
  set_stk [0; 0xE0; 1; 0; 0; 0; 0]
    (initFrame (NewContract 1 0xA0 (Some 0) 10000) [] (fx_evm fx_glamsterdan w_minting)).

Definition gas_left (r : out (EVM MemoryStateDB) (Contract * bytes * option vmerr)) : option Z :=
  match r with Ok (c, _, None) _ => Some (Gas c) | _ => None end.

Lemma glamsterdam_stipend_unpaid_witness :
  (exists s1, gasCallGlamst 0 w_valueFrame = Ok 2000 s1 /\ callGasFor 1 s1 = Ok 2300 s1 /\
     WarmStorageReadGlamst + 2000 < CallStipend) /\
  gas_left (fx_run fx_glamsterdan 1000
    (set_CodeHash w_valueCalls 0 (NewContract 1 0xA0 (Some 0) 10000)) []
    (fx_evm fx_glamsterdan w_minting)) = Some 15280.
Proof.
  split; [|vm_compute; reflexivity].
  apply (glamsterdam_stipend_unpaid w_valueFrame w_minting 0 0xE0 1 [0; 0; 0; 0]);
    first [reflexivity | vm_compute; done].
Defined.

(** A CALL with all gas followed by three DELEGATECALLs turns 100000 gas
    into 390301. *)
Definition w_delegateCalls : bytes :=
  [0x60; 0; 0x60; 0; 0x60; 0; 0x60; 0; 0x60; 0; 0x60; 0xE0; 0x62; 0xff; 0xff; 0xff; 0xf1; 0x50] ++
  mjoin (replicate 3 [0x60; 0; 0x60; 0; 0x60; 0; 0x60; 0; 0x60; 0xE0; 0x60; 0; 0xf4; 0x50]).
Definition w_delegateFrame : mstate MemoryStateDB :=
  set_stk [0; 0xE0; 0; 0; 0; 0]
    (initFrame (NewContract 1 0xA0 (Some 0) 10000) []
       (set_callGasTemp 97000 (fx_evm fx_istanbul w_minting))).

Lemma delegatecall_gas_unpaid_witness :
  (NewIstanbulJumpTable fx_keccak fx_pcs fx_rv (fx_run fx_istanbul 5) !! DELEGATECALL =
     Some (delegateCallEIP150 fx_pcs (fx_run fx_istanbul 5)) /\
   exists s', perform (delegateCallEIP150 fx_pcs (fx_run fx_istanbul 5)) w_delegateFrame = Ok None s' /\
     Gas (ctr s') = 10000 - 700 + 97000) /\
  gas_left (fx_run fx_istanbul 1000
    (set_CodeHash w_delegateCalls 0 (NewContract 1 0xA0 (Some 0) 100000)) []
    (fx_evm fx_istanbul w_minting)) = Some 390301.
Proof.
  split; [|vm_compute; reflexivity].
  apply (delegatecall_gas_unpaid fx_keccak fx_pcs fx_rv (fx_run fx_istanbul 5) w_delegateFrame w_minting 0 0xE0 []);
    first [reflexivity | vm_compute; done].
Defined.
