(* ===== verification/Words.v ===== *)
(** * Words: the arithmetic instructions compute modulo 2^256

    The word functions of Instructions.v against two's complement
    arithmetic. *)

From S2P Require Import Prelude StateDB Machine Calls GasTable Instructions.

Definition is_word (x : Z) : Prop := 0 <= x < 2 ^ 256.

(** The signed value of a word. *)
Definition signed (x : Z) : Z := if x <? 2 ^ 255 then x else x - 2 ^ 256.

(** The word that represents an integer. *)
Definition word (x : Z) : Z := x mod 2 ^ 256.

(** The signed value of the low [n] bits of [x]. *)
Definition low_signed (n x : Z) : Z :=
  let y := x mod 2 ^ n in if y <? 2 ^ (n - 1) then y else y - 2 ^ n.

Lemma toU256_word x : toU256 x = word x.
Proof.
  unfold toU256, tt256m1, word. rewrite <- Z.land_ones by lia. f_equal.
Qed.

Lemma word_range x : is_word (word x).
Proof. apply Z.mod_pos_bound. lia. Qed.

Lemma word_small x : is_word x -> word x = x.
Proof. apply Z.mod_small. Qed.

Lemma word_fromS256 x : word (fromS256 x) = word x.
Proof.
  unfold fromS256, word. destruct (_ >=? _); [done|]. unfold tt256.
  rewrite <- (Z.mod_add x 1 (2 ^ 256)) by lia. f_equal.
Qed.

Lemma toS256_signed x : toS256 x = signed x.
Proof. reflexivity. Qed.

Lemma quot_abs a b : Z.sgn b <> 0 ->
  Z.quot a b = if negb (Z.sgn a =? Z.sgn b) then - (Z.abs a / Z.abs b) else Z.abs a / Z.abs b.
Proof.
  intros Hb. rewrite Z.quot_div by lia.
  pose proof (Z.sgn_spec a) as Sa. pose proof (Z.sgn_spec b) as Sb.
  destruct (Z.eqb_spec (Z.sgn a) (Z.sgn b)); simpl;
    destruct Sa as [[? ->]|[[? ->]|[? ->]]], Sb as [[? ->]|[[? ->]|[? ->]]]; subst; simpl in *; try lia.
  all: rewrite ?Z.div_0_l by lia; lia.
Qed.

Lemma rem_abs a b : Z.sgn b <> 0 ->
  Z.rem a b = if Z.sgn a <? 0 then - (Z.abs a mod Z.abs b) else Z.abs a mod Z.abs b.
Proof.
  intros Hb. rewrite Z.rem_mod by lia.
  destruct (Z.sgn_spec a) as [[? ->]|[[? ->]|[? ->]]]; subst; simpl; try lia.
  rewrite Z.mod_0_l by lia. lia.
Qed.

Lemma sdiv_spec x y :
  sdiv_word x y = if signed y =? 0 then 0 else word (Z.quot (signed x) (signed y)).
Proof.
  unfold sdiv_word. rewrite !toS256_signed.
  destruct (Z.eqb_spec (Z.sgn (signed y)) 0), (Z.eqb_spec (signed y) 0); try lia.
  rewrite toU256_word, word_fromS256, (quot_abs (signed x)) by done. done.
Qed.

Lemma smod_spec x y :
  smod_word x y = if signed y =? 0 then 0 else word (Z.rem (signed x) (signed y)).
Proof.
  unfold smod_word. rewrite !toS256_signed.
  destruct (Z.eqb_spec (Z.sgn (signed y)) 0), (Z.eqb_spec (signed y) 0); try lia.
  rewrite toU256_word, word_fromS256, (rem_abs (signed x)) by done. done.
Qed.

Lemma pow_mod_spec x p m : 0 < m -> pow_mod x p m = x ^ Z.pos p mod m.
Proof.
  intros Hm. induction p as [p IH|p IH|]; simpl pow_mod.
  - rewrite IH. rewrite Pos2Z.inj_xI, Z.pow_add_r, Z.pow_1_r, Z.pow_twice_r by lia.
    rewrite <- Z.mul_mod by lia. by rewrite Z.mul_mod_idemp_l by lia.
  - rewrite IH, Pos2Z.inj_xO, Z.pow_twice_r. by rewrite <- Z.mul_mod by lia.
  - by rewrite Z.pow_1_r.
Qed.

Lemma exp_spec x y : is_word y -> exp_word x y = word (x ^ y).
Proof.
  unfold is_word, exp_word. intros Hy. destruct y as [|p|p]; [done| |lia].
  apply pow_mod_spec. done.
Qed.

Lemma sar_spec s x : is_word s -> is_word x -> sar_word s x = word (signed x / 2 ^ s).
Proof.
  unfold is_word. intros Hs Hx. unfold sar_word. rewrite toS256_signed.
  destruct (Z.geb_spec s 256).
  - assert (2 ^ 255 < 2 ^ s) by (apply Z.pow_lt_mono_r; lia).
    unfold signed. destruct (Z.ltb_spec x (2 ^ 255)).
    + rewrite Z.div_small by lia. destruct (Z.geb_spec (Z.sgn x) 0); [done|lia].
    + replace ((x - 2 ^ 256) / 2 ^ s) with (-1).
      * destruct (Z.geb_spec (Z.sgn (x - 2 ^ 256)) 0); [lia|done].
      * apply Z.div_unique with (x - 2 ^ 256 + 2 ^ s); lia.
  - rewrite toU256_word, word_fromS256. unfold Uint64. rewrite u64_small by (unfold is_u64; lia).
    by rewrite Z.shiftr_div_pow2 by lia.
Qed.

Lemma shl_spec s x : is_word s -> is_word x -> shl_word s x = word (x * 2 ^ s).
Proof.
  unfold is_word. intros Hs Hx. unfold shl_word. destruct (Z.geb_spec s 256).
  - unfold word. replace s with (256 + (s - 256)) by lia. rewrite Z.pow_add_r by lia.
    rewrite (Z.mul_comm (2 ^ 256)), Z.mul_assoc. by rewrite Z.mod_mul by lia.
  - rewrite toU256_word. unfold Uint64. rewrite u64_small by (unfold is_u64; lia).
    by rewrite Z.shiftl_mul_pow2 by lia.
Qed.

Lemma shr_spec s x : is_word s -> is_word x -> shr_word s x = x / 2 ^ s.
Proof.
  unfold is_word. intros Hs Hx. unfold shr_word. destruct (Z.geb_spec s 256).
  - assert (2 ^ 256 <= 2 ^ s) by (apply Z.pow_le_mono_r; lia). rewrite Z.div_small; lia.
  - unfold Uint64. rewrite u64_small by (unfold is_u64; lia). by rewrite Z.shiftr_div_pow2 by lia.
Qed.

(** Setting all bits from [n] on, where bit [n] is set, is subtraction. *)
Lemma lor_lnot_ones x n :
  0 <= n -> Z.testbit x n = true -> Z.lor x (Z.lnot (2 ^ n - 1)) = x mod 2 ^ (n + 1) - 2 ^ (n + 1).
Proof.
  intros Hn Hb.
  replace (2 ^ n - 1) with (Z.ones n) by (rewrite Z.ones_equiv; lia).
  replace (x mod 2 ^ (n + 1) - 2 ^ (n + 1)) with (Z.lor (x mod 2 ^ (n + 1)) (Z.lnot (Z.ones (n + 1)))).
  - apply Z.bits_inj'. intros i Hi. rewrite !Z.lor_spec, !Z.lnot_spec by lia.
    rewrite <- Z.land_ones, Z.land_spec by lia. rewrite !Z.testbit_ones_nonneg by lia.
    destruct (Z.ltb_spec i n), (Z.ltb_spec i (n + 1)); try lia; rewrite ?orb_true_r, ?andb_true_r, ?orb_false_r; try done.
    replace i with n by lia. by rewrite Hb.
  - assert (Z.lnot (Z.ones (n + 1)) = - 2 ^ (n + 1)) as E by (rewrite Z.ones_equiv; unfold Z.lnot; lia).
    pose proof (Z.add_lor_land (x mod 2 ^ (n + 1)) (Z.lnot (Z.ones (n + 1)))) as A.
    assert (Z.land (x mod 2 ^ (n + 1)) (Z.lnot (Z.ones (n + 1))) = 0) as L.
    { rewrite <- Z.land_ones, <- Z.land_assoc, Z.land_lnot_diag by lia. apply Z.land_0_r. }
    lia.
Qed.

Lemma testbit_low_signed n x :
  0 < n -> Z.testbit x (n - 1) = negb (x mod 2 ^ n <? 2 ^ (n - 1)).
Proof.
  intros Hn. rewrite <- (Z.mod_pow2_bits_low x n (n - 1)) by lia.
  pose proof (Z.mod_pos_bound x (2 ^ n) ltac:(apply Z.pow_pos_nonneg; lia)) as B.
  assert (2 ^ n = 2 * 2 ^ (n - 1)) as E by (rewrite <- Z.pow_succ_r by lia; f_equal; lia).
  destruct (Z.ltb_spec (x mod 2 ^ n) (2 ^ (n - 1))); simpl.
  - apply bits_above with (n - 1); lia.
  - rewrite Z.testbit_true by lia. replace (x mod 2 ^ n / 2 ^ (n - 1)) with 1; [done|].
    apply Z.div_unique with (x mod 2 ^ n - 2 ^ (n - 1)); lia.
Qed.

Lemma signextend_spec b x :
  is_word b -> is_word x ->
  signextend_word b x = if b <? 31 then word (low_signed (8 * (b + 1)) x) else x.
Proof.
  unfold is_word. intros Hb Hx. unfold signextend_word.
  destruct (Z.ltb_spec b 31); [|done]. cbv zeta. rewrite toU256_word. f_equal.
  unfold Uint64. rewrite !(u64_small (_ * 8)), !u64_small
    by (unfold is_u64; rewrite ?u64_small by (unfold is_u64; lia); lia).
  assert (0 <= b * 8 + 7 /\ b * 8 + 7 + 1 = 8 * (b + 1)) as [Hn En] by lia.
  rewrite Z.shiftl_1_l. unfold low_signed. set (n := 8 * (b + 1)) in *.
  replace (b * 8 + 7) with (n - 1) in * by lia.
  pose proof (testbit_low_signed n x ltac:(lia)) as T.
  destruct (Z.testbit x (n - 1)) eqn:Eb.
  - rewrite lor_lnot_ones by done. replace (n - 1 + 1) with n by lia.
    by destruct (_ <? _).
  - assert (2 ^ n = 2 * 2 ^ (n - 1)) as E by (rewrite <- Z.pow_succ_r by lia; f_equal; lia).
    pose proof (Z.mod_pos_bound x (2 ^ n) ltac:(apply Z.pow_pos_nonneg; lia)) as B.
    destruct (Z.ltb_spec (x mod 2 ^ n) (2 ^ (n - 1))); [|done].
    replace (2 ^ (n - 1) - 1) with (Z.ones (n - 1)) by (rewrite Z.ones_equiv; lia).
    rewrite Z.land_ones by lia. replace (2 ^ n) with (2 ^ (n - 1) * 2) in * by lia.
    assert (0 < 2 ^ (n - 1)) by (apply Z.pow_pos_nonneg; lia).
    rewrite Z.rem_mul_r in * by lia.
    pose proof (Z.mod_pos_bound (x / 2 ^ (n - 1)) 2). pose proof (Z.mod_pos_bound x (2 ^ (n - 1))).
    set (q := (x / 2 ^ (n - 1)) mod 2) in *. assert (q = 0 \/ q = 1) as [Eq|Eq] by lia; rewrite Eq in *; lia.
Qed.

(** ** BYTE *)

Lemma be_bytes_lookup n x i :
  (i < n)%nat -> be_bytes n x !! i = Some ((x / 256 ^ Z.of_nat (n - 1 - i)) mod 256).
Proof.
  revert x. induction n as [|n IH]; intros x Hi; [lia|]. simpl be_bytes.
  destruct (decide (i = n)) as [->|].
  - rewrite lookup_app_r by (rewrite length_be_bytes; lia). rewrite length_be_bytes, Nat.sub_diag. simpl.
    replace (n - 0 - n)%nat with 0%nat by lia. by rewrite Z.div_1_r.
  - rewrite lookup_app_l by (rewrite length_be_bytes; lia). rewrite IH by lia. f_equal. f_equal.
    rewrite Z.div_div by lia. f_equal. rewrite <- Z.pow_succ_r by lia. f_equal. lia.
Qed.

Lemma pad32_word x : is_word x -> pad32 (Bytes x) = Some (be_bytes 32 x).
Proof.
  intros Hx. unfold is_word in Hx. assert (byte_len x <= 32)%nat as L by (apply byte_len_le; simpl; lia).
  unfold pad32. destruct (Z.leb_spec (zlen (Bytes x)) 32);
    [|unfold zlen in *; rewrite length_Bytes in *; lia].
  f_equal. apply SetBytes_inj.
  - apply Forall_app. split; [apply zeros_bytes|apply Bytes_bytes].
  - apply be_bytes_bytes.
  - unfold zlen, zeros in *. rewrite length_app, length_replicate, length_be_bytes. lia.
  - rewrite SetBytes_app, SetBytes_zeros, SetBytes_Bytes, SetBytes_be_bytes_small; simpl; lia.
Qed.

(** ** The instructions *)

Section Alu.

Context {DB : Type} `{StateDB DB}.

(** Instruction and specification, first operand on top of the stack. *)
Definition alu2 : list (M (mstate DB) bytes * (Z -> Z -> Z)) :=
  [ (opAdd, fun x y => word (x + y));
    (opSub, fun x y => word (x - y));
    (opMul, fun x y => word (x * y));
    (opDiv, fun x y => if y =? 0 then 0 else x / y);
    (opSdiv, fun x y => if signed y =? 0 then 0 else word (Z.quot (signed x) (signed y)));
    (opMod, fun x y => if y =? 0 then 0 else x mod y);
    (opSmod, fun x y => if signed y =? 0 then 0 else word (Z.rem (signed x) (signed y)));
    (opExp, fun x y => word (x ^ y));
    (opSignExtend, fun x y => if x <? 31 then word (low_signed (8 * (x + 1)) y) else y);
    (opLt, fun x y => if x <? y then 1 else 0);
    (opGt, fun x y => if y <? x then 1 else 0);
    (opSlt, fun x y => if signed x <? signed y then 1 else 0);
    (opSgt, fun x y => if signed y <? signed x then 1 else 0);
    (opEq, fun x y => if x =? y then 1 else 0);
    (opByte, fun x y => if x <? 32 then (y / 256 ^ (31 - x)) mod 256 else 0);
    (opSHL, fun x y => word (y * 2 ^ x));
    (opSHR, fun x y => y / 2 ^ x);
    (opSAR, fun x y => word (signed y / 2 ^ x)) ].

(** ADDMOD and MULMOD do not wrap in between. *)
Definition alu3 : list (M (mstate DB) bytes * (Z -> Z -> Z -> Z)) :=
  [ (opAddmod, fun x y z => if z =? 0 then 0 else (x + y) mod z);
    (opMulmod, fun x y z => if z =? 0 then 0 else (x * y) mod z) ].

Definition computes2 (p : M (mstate DB) bytes * (Z -> Z -> Z)) : Prop :=
  forall s x y rest, stk s = x :: y :: rest -> is_word x -> is_word y ->
    p.1 s = Ok [] (set_stk (p.2 x y :: rest) s) /\ is_word (p.2 x y).

Definition computes3 (p : M (mstate DB) bytes * (Z -> Z -> Z -> Z)) : Prop :=
  forall s x y z rest, stk s = x :: y :: z :: rest -> is_word x -> is_word y -> is_word z ->
    p.1 s = Ok [] (set_stk (p.2 x y z :: rest) s) /\ is_word (p.2 x y z).

Lemma binop_step f (s : mstate DB) x y rest :
  stk s = x :: y :: rest -> binop f s = Ok [] (set_stk (f x y :: rest) s).
Proof.
  intros E. unfold binop, gbind, Pop, Peek, SetTop. rewrite E. reflexivity.
Qed.

Lemma ternop_step f (s : mstate DB) x y z rest :
  stk s = x :: y :: z :: rest -> ternop f s = Ok [] (set_stk (f x y z :: rest) s).
Proof.
  intros E. unfold ternop, gbind, Pop, Peek, SetTop. rewrite E. reflexivity.
Qed.

(** A binary operation given by a function that agrees with the
    specification on words. *)
Lemma binop_computes f g :
  (forall x y, is_word x -> is_word y -> f x y = g x y /\ is_word (g x y)) -> computes2 (binop f, g).
Proof.
  intros Hf s x y rest E Hx Hy. destruct (Hf x y Hx Hy) as [Efg Hg]. simpl.
  split; [|done]. rewrite <- Efg. by apply binop_step.
Qed.

Lemma ternop_computes f g :
  (forall x y z, is_word x -> is_word y -> is_word z -> f x y z = g x y z /\ is_word (g x y z)) ->
  computes3 (ternop f, g).
Proof.
  intros Hf s x y z rest E Hx Hy Hz. destruct (Hf x y z Hx Hy Hz) as [Efg Hg]. simpl.
  split; [|done]. rewrite <- Efg. by apply ternop_step.
Qed.

Lemma byte_computes : computes2 (opByte, fun x y => if x <? 32 then (y / 256 ^ (31 - x)) mod 256 else 0).
Proof.
  intros s x y rest E Hx Hy. simpl. unfold opByte, gbind, Pop, Peek, SetTop. rewrite E. simpl.
  destruct (Z.ltb_spec x 32); simpl; [|by split].
  unfold is_word in Hx. rewrite pad32_word by done. cbn [gopt gret]. unfold go_index, Uint64.
  rewrite u64_small by (unfold is_u64; lia). destruct (Z.leb_spec 0 x); [|lia].
  rewrite be_bytes_lookup by lia. cbn [gopt gret]. replace (Z.of_nat (32 - 1 - Z.to_nat x)) with (31 - x) by lia.
  split; [done|]. pose proof (Z.mod_pos_bound (y / 256 ^ (31 - x)) 256). unfold is_word. lia.
Qed.

Lemma zero_word : is_word 0.
Proof. done. Qed.

Lemma one_word (b : bool) : is_word (if b then 1 else 0).
Proof. by destruct b. Qed.

Hint Resolve word_range zero_word one_word : core.

Lemma div_pos_word x y : is_word x -> 0 < y -> is_word (x / y).
Proof.
  unfold is_word. intros Hx Hy. split; [apply Z.div_pos; lia|].
  apply Z.le_lt_trans with x; [|lia]. apply Z.div_le_upper_bound; nia.
Qed.

Lemma mod_pos_word x y : is_word y -> 0 < y -> is_word (x mod y).
Proof. unfold is_word. intros Hx Hy. pose proof (Z.mod_pos_bound x y Hy). lia. Qed.

Lemma sgn_eqb y : (Z.sgn y =? 0) = (y =? 0).
Proof. destruct (Z.eqb_spec (Z.sgn y) 0), (Z.eqb_spec y 0); lia. Qed.

Lemma div_computes : computes2 (opDiv, fun x y => if y =? 0 then 0 else x / y).
Proof.
  apply binop_computes. intros x y Hx Hy. unfold div_word. rewrite sgn_eqb.
  destruct (Z.eqb_spec y 0); simpl; [by split|]. split; [done|]. unfold is_word in Hy. apply div_pos_word; [done|lia].
Qed.

Lemma mod_computes : computes2 (opMod, fun x y => if y =? 0 then 0 else x mod y).
Proof.
  apply binop_computes. intros x y Hx Hy. unfold mod_word. rewrite sgn_eqb.
  destruct (Z.eqb_spec y 0); simpl; [by split|]. split; [done|]. apply mod_pos_word; [done|]. unfold is_word in Hy. lia.
Qed.

Lemma modular_computes f :
  computes3 (ternop (fun x y z => if negb (Z.sgn z =? 0) then toU256 (f x y mod z) else 0),
             fun x y z => if z =? 0 then 0 else f x y mod z).
Proof.
  apply ternop_computes. intros x y z Hx Hy Hz. rewrite sgn_eqb, toU256_word.
  destruct (Z.eqb_spec z 0); simpl; [by split|].
  assert (is_word (f x y mod z)) by (apply mod_pos_word; [done|unfold is_word in Hz; lia]).
  by rewrite word_small.
Qed.

Lemma signed_computes f g :
  (forall x y, f x y = if signed y =? 0 then 0 else word (g (signed x) (signed y))) ->
  computes2 (binop f, fun x y => if signed y =? 0 then 0 else word (g (signed x) (signed y))).
Proof. intros Hf. apply binop_computes. intros x y Hx Hy. rewrite Hf. split; [done|]. destruct (_ =? _); auto. Qed.

Lemma compare_computes (f g : Z -> Z -> bool) :
  (forall x y, f x y = g x y) -> computes2 (binop (fun x y => bit (f x y)), fun x y => if g x y then 1 else 0).
Proof. intros Hf. apply binop_computes. intros x y _ _. rewrite Hf. auto. Qed.

Lemma signextend_computes :
  computes2 (opSignExtend, fun x y => if x <? 31 then word (low_signed (8 * (x + 1)) y) else y).
Proof.
  apply binop_computes. intros x y Hx Hy. rewrite signextend_spec by done. split; [done|].
  destruct (_ <? _); auto.
Qed.

Lemma shr_computes : computes2 (opSHR, fun x y => y / 2 ^ x).
Proof.
  apply binop_computes. intros x y Hx Hy. rewrite shr_spec by done. split; [done|].
  unfold is_word in Hx. apply div_pos_word; [done|]. apply Z.pow_pos_nonneg; lia.
Qed.

(** C28. The arithmetic, comparison and shift instructions compute the
    two's complement function of their operands modulo 2^256 (signed
    division truncates, the sign of SMOD is that of the dividend, division
    by zero gives zero, EXP is exact modulo 2^256, SAR rounds towards minus
    infinity, shifts of 256 and more saturate, ADDMOD and MULMOD work on
    the unbounded intermediate result), leave a word on the stack, and
    change nothing else. *)
Theorem alu_correct : Forall computes2 alu2 /\ Forall computes3 alu3.
Proof.
  split; repeat (apply Forall_cons; split); try apply Forall_nil_2.
  - apply binop_computes. intros x y _ _. rewrite toU256_word. auto.
  - apply binop_computes. intros x y _ _. rewrite toU256_word. auto.
  - apply binop_computes. intros x y _ _. rewrite toU256_word. auto.
  - exact div_computes.
  - apply signed_computes, sdiv_spec.
  - exact mod_computes.
  - apply signed_computes, smod_spec.
  - apply binop_computes. intros x y _ Hy. rewrite exp_spec by done. auto.
  - exact signextend_computes.
  - by apply compare_computes.
  - apply compare_computes. intros x y. apply Z.gtb_ltb.
  - by apply compare_computes.
  - apply (compare_computes (fun x y => toS256 x >? toS256 y) (fun x y => signed y <? signed x)).
    intros x y. apply Z.gtb_ltb.
  - by apply compare_computes.
  - exact byte_computes.
  - apply binop_computes. intros x y Hx Hy. rewrite shl_spec by done. auto.
  - exact shr_computes.
  - apply binop_computes. intros x y Hx Hy. rewrite sar_spec by done. auto.
  - apply (modular_computes Z.add).
  - apply (modular_computes Z.mul).
Qed.

End Alu.
