(* ===== verification/Jumpdest.v ===== *)
(** * Jumpdest: which jump targets are valid

    The linear scan of contract.go finds exactly the JUMPDEST bytes that
    start an instruction. *)

From S2P Require Import Prelude StateDB Machine.

(** Positions at which an instruction starts: 0, and after each instruction
    with its immediate bytes. *)
Inductive boundary (code : bytes) : Z -> Prop :=
  | boundary_start : boundary code 0
  | boundary_next i op :
      boundary code i -> go_index code i = Some op ->
      boundary code (i + 1 + (if IsPush op then op - PUSH1 + 1 else 0)).

Lemma boundary_nonneg code i : boundary code i -> 0 <= i.
Proof.
  induction 1 as [|i op _ IH _]; [lia|]. destruct (IsPush op) eqn:E; [|lia].
  unfold IsPush in E. zbool. unfold PUSH1 in *. lia.
Qed.

(** The immediate of a PUSH is at most 32 bytes long. *)
Lemma IsPush_range op : IsPush op = true -> 1 <= op - PUSH1 + 1 <= 32.
Proof. unfold IsPush, PUSH1, PUSH32. intros E. zbool. lia. Qed.

(** The instruction starts reachable from [i]. *)
Inductive reaches (code : bytes) : Z -> Z -> Prop :=
  | reaches_here i : reaches code i i
  | reaches_next i op j :
      go_index code i = Some op ->
      reaches code (i + 1 + (if IsPush op then op - PUSH1 + 1 else 0)) j -> reaches code i j.

Lemma reaches_snoc code i j op :
  reaches code i j -> go_index code j = Some op ->
  reaches code i (j + 1 + (if IsPush op then op - PUSH1 + 1 else 0)).
Proof.
  induction 1 as [i|i op' j E _ IH]; intros Ej.
  - econstructor; [exact Ej|constructor].
  - econstructor; [exact E|auto].
Qed.

Lemma reaches_boundary code i j : reaches code i j -> boundary code i -> boundary code j.
Proof. induction 1 as [i|i op j E _ IH]; [done|]. intros B. apply IH. by constructor. Qed.

Lemma boundary_reaches code j : boundary code j <-> reaches code 0 j.
Proof.
  split.
  - induction 1 as [|i op _ IH E]; [constructor|]. by apply reaches_snoc.
  - intros R. eapply reaches_boundary; [exact R|constructor].
Qed.

(** Past the end of the code nothing follows. *)
Lemma reaches_end code i j : zlen code <= i -> reaches code i j -> j = i.
Proof. intros Hi R. destruct R as [i|i op j E _]; [done|]. apply go_index_lt in E. lia. Qed.

Lemma analyze_spec fuel code i acc pos :
  zlen code < 2 ^ 63 -> 0 <= i -> zlen code <= i + Z.of_nat fuel -> i < 2 ^ 63 + 100 ->
  pos ∈ analyze fuel code i acc <->
  pos ∈ acc \/ (reaches code i pos /\ go_index code pos = Some JUMPDEST).
Proof.
  intros Hl. revert i acc. induction fuel as [|n IH]; intros i acc Hi Hf Hb; simpl.
  - split; [by left|]. intros [?|[R E]]; [done|]. apply reaches_end in R; [|lia]. subst.
    apply go_index_lt in E. lia.
  - destruct (Z.ltb_spec i (zlen code)) as [Hlt|Hge].
    2:{ split; [by left|]. intros [?|[R E]]; [done|]. apply reaches_end in R; [|lia]. subst.
        apply go_index_lt in E. lia. }
    destruct (go_index_is_Some code i ltac:(lia)) as [op Eop]. rewrite Eop.
    set (len := if IsPush op then op - PUSH1 + 1 else 0).
    assert (0 <= len <= 32) as Hlen.
    { subst len. destruct (IsPush op) eqn:E; [|lia]. apply IsPush_range in E. lia. }
    assert ((if IsPush op then i +u (op - PUSH1 + 1) else i) +u 1 = i + 1 + len) as ->.
    { subst len. destruct (IsPush op);
        [rewrite (u64_small (i + _)) by (unfold is_u64; lia)|]; rewrite u64_small by (unfold is_u64; lia); lia. }
    rewrite IH by lia. split.
    + intros [Ha|[R E]].
      * destruct (Z.eqb_spec op JUMPDEST) as [->|]; [|by left].
        apply elem_of_union in Ha as [->%elem_of_singleton|Ha]; [|by left].
        right. split; [constructor|done].
      * right. split; [|done]. by econstructor.
    + intros [Ha|[R E]].
      * left. destruct (op =? JUMPDEST); [set_solver|done].
      * destruct R as [i|i op' j Eop' R].
        -- left. rewrite Eop in E. injection E as ->. rewrite Z.eqb_refl. set_solver.
        -- right. rewrite Eop in Eop'. injection Eop' as <-. done.
Qed.

(** The cached analysis of a contract is the one of its code. *)
Definition cache_ok (c : Contract) : Prop :=
  jumpdests c = None \/ jumpdests c = Some (analyzeJumpdests (Code c)).

(** C29. JUMPDEST analysis is exact: for every contract with a consistent
    cache, a jump to [dest] is accepted exactly when the byte at [dest] is a
    JUMPDEST that starts an instruction, that is, one not inside the
    immediate of a PUSH; the cache stays consistent and the rest of the
    contract unchanged. *)
Theorem validJumpdest_correct c dest :
  zlen (Code c) < 2 ^ 63 -> 0 <= dest -> cache_ok c ->
  ((validJumpdest c dest).1 = true <-> boundary (Code c) dest /\ go_index (Code c) dest = Some JUMPDEST) /\
  cache_ok (validJumpdest c dest).2 /\
  set_jumpdests None (validJumpdest c dest).2 = set_jumpdests None c.
Proof.
  intros Hl Hd Hc.
  assert (forall pos, pos ∈ analyzeJumpdests (Code c) <->
    boundary (Code c) pos /\ go_index (Code c) pos = Some JUMPDEST) as Spec.
  { intros pos. unfold analyzeJumpdests. rewrite analyze_spec by (unfold zlen in *; lia).
    rewrite boundary_reaches. set_solver. }
  unfold validJumpdest.
  destruct (_ || _) eqn:E1; simpl.
  { split; [|done]. split; [done|]. intros [_ Eg]. apply go_index_lt in Eg. exfalso.
    apply orb_true_iff in E1 as [E1|E1]; zbool.
    - assert (BitLen dest <= 63) by (apply BitLen_le; lia). lia.
    - unfold Uint64 in E1. rewrite u64_small in E1 by (unfold is_u64; lia). lia. }
  zbool. assert (Uint64 dest = dest) as Eu.
  { unfold Uint64. apply u64_small. unfold is_u64. pose proof (BitLen_upper dest).
    assert (2 ^ BitLen dest <= 2 ^ 63) by (apply Z.pow_le_mono_r; lia). lia. }
  rewrite Eu in *. destruct (go_index_is_Some (Code c) dest) as [op Eop]; [lia|]. rewrite Eop.
  destruct (Z.eqb_spec op JUMPDEST) as [->|Hop]; simpl.
  2:{ split; [|done]. split; [done|]. intros [_ ?]. congruence. }
  unfold isCode. destruct Hc as [Hc|Hc]; rewrite Hc; simpl; rewrite bool_decide_eq_true, Spec.
  - split; [naive_solver|]. split; [by right|done].
  - split; [naive_solver|]. split; [by right|done].
Qed.

(** PUSH1 JUMPDEST; JUMPDEST: position 2 is a target, position 1 is not. *)
Lemma validJumpdest_correct_witness :
  let c := set_CodeHash [0x60; 0x5b; 0x5b] 0 (NewContract 1 2 None 10) in
  (((validJumpdest c 2).1 = true <-> boundary (Code c) 2 /\ go_index (Code c) 2 = Some JUMPDEST) /\
   cache_ok (validJumpdest c 2).2 /\ set_jumpdests None (validJumpdest c 2).2 = set_jumpdests None c) /\
  (validJumpdest c 2).1 = true /\ (validJumpdest c 1).1 = false.
Proof.
  intros c. split; [|split; vm_compute; reflexivity].
  apply (validJumpdest_correct c 2); [vm_compute; reflexivity|lia|by left].
Defined.
