(* ===== verification/EvmSpecs.v ===== *)
(** * EvmSpecs: addresses, memory prices, refunds and delegation

    Parts of the EVM against what they are meant to compute: the address of
    a created contract against the RLP package, the four memory price
    functions against the quadratic formula, SSTORE refunds, and the storage
    context of DELEGATECALL. *)

From S2P Require Import Prelude Rlp RlpProofs StateDB MemStateDB MemStateDBProofs Machine Calls.
From S2P Require Import GasTable Witness Instructions JumpTable Interpreter Fixture.

(** ** CREATE addresses *)

Lemma uintToMinBytes_loop_spec k v buf n :
  (0 < k <= 8)%nat -> 0 <= n -> 0 <= v -> (v mod 256 ^ Z.of_nat k <> 0 \/ 0 < n) ->
  uintToMinBytes_loop k v buf n = (be_bytes k v ++ buf, 8).
Proof.
  revert v buf n. induction k as [|k IH]; intros v buf n Hk Hn Hv Hor; [lia|]. simpl.
  rewrite Z.shiftr_div_pow2 by lia. change (2 ^ 8) with 256. unfold u8. change (2 ^ 8) with 256.
  set (n' := if negb (v mod 256 =? 0) || (n >? 0) then 8 - Z.of_nat k else n).
  assert (0 < n' \/ v mod 256 = 0 /\ n' = n /\ n = 0) as Hn'.
  { subst n'. destruct (Z.eqb_spec (v mod 256) 0), (Z.gtb_spec n 0); simpl; lia. }
  destruct k as [|k].
  - simpl. replace n' with 8; [done|]. subst n'. rewrite Z.pow_1_r in Hor.
    destruct (Z.eqb_spec (v mod 256) 0), (Z.gtb_spec n 0); simpl; lia.
  - rewrite IH; [by rewrite <- app_assoc|lia|lia|apply Z.div_pos; lia|].
    destruct Hn' as [?|(E1 & E2 & E3)]; [by right|]. left. intros E. destruct Hor as [Hor|]; [|lia].
    apply Hor. rewrite (Nat2Z.inj_succ (S k)), Z.pow_succ_r, Z.rem_mul_r by lia.
    rewrite E1, E. lia.
Qed.

(** The bytes are never trimmed. *)
Lemma uintToMinBytes_eight v : 0 < v < 2 ^ 64 -> uintToMinBytes v = be_bytes 8 v.
Proof.
  intros Hv. unfold uintToMinBytes. destruct (Z.eqb_spec v 0); [lia|].
  rewrite uintToMinBytes_loop_spec; [|lia|lia|lia|left; rewrite Z.mod_small; simpl; lia].
  by rewrite app_nil_r.
Qed.

(** The list [caller, nonce] as the RLP package encodes it. *)
Definition sender_nonce (caller : Address) (nonce : Z) : gval :=
  GStruct [(true, GByteArray (be_bytes 20 caller)); (true, GUint nonce)].

Lemma encodeRLPBytes_address a : encodeRLPBytes (be_bytes 20 a) = encodeString (be_bytes 20 a).
Proof.
  assert (length (be_bytes 20 a) = 20%nat) as L by apply length_be_bytes.
  unfold encodeRLPBytes, encodeString, zlen. rewrite L. by destruct (be_bytes 20 a) as [|? [|? ?]].
Qed.

Lemma wrapRLPList_short p : zlen p <= 55 -> wrapRLPList p = wrapList p.
Proof.
  intros Hp. unfold wrapRLPList, wrapList. destruct (Z.ltb_spec (zlen p) 56); [|lia].
  destruct (Z.leb_spec (zlen p) 55); [|lia]. pose proof (zlen_nonneg p).
  by rewrite (u8_small (zlen p)) by (unfold is_byte; lia).
Qed.

Lemma be_bytes_Bytes8 n : 2 ^ 56 <= n < 2 ^ 64 -> Bytes n = be_bytes 8 n.
Proof.
  intros Hn. unfold Bytes. rewrite Z.abs_eq by lia. f_equal.
  assert (byte_len n <= 8)%nat by (apply byte_len_le; simpl; lia).
  pose proof (byte_len_upper n) as U.
  assert (~ byte_len n <= 7)%nat; [|lia]. intros L.
  assert (256 ^ Z.of_nat (byte_len n) <= 256 ^ 7) by (apply Z.pow_le_mono_r; lia). lia.
Qed.

Lemma length_sub_nonce n : 128 <= n < 2 ^ 56 -> (length (encodeUint n) <= 8)%nat.
Proof.
  intros Hn. rewrite encodeUint_string by (unfold is_u64; lia).
  assert (byte_len n <= 7)%nat as L by (apply byte_len_le; simpl; lia).
  pose proof (length_Bytes n) as E. unfold encodeString, zlen.
  destruct (Bytes n) as [|x [|y r]]; [simpl; lia|destruct (_ <=? _); simpl; lia|].
  destruct (Z.leb_spec (Z.of_nat (length (x :: y :: r))) 55); simpl in *; lia.
Qed.

(** The hashed pre-image of a CREATE address is the RLP encoding of
    [sender, nonce] exactly for nonces below 128 or from 2^56 on: in between
    [uintToMinBytes] does not trim leading zeros, so the nonce takes eight
    bytes and the contract lands at another address than on other
    clients. *)
Lemma createAddress_rlp_iff caller nonce :
  is_u64 nonce ->
  (EncodeToBytes (sender_nonce caller nonce) = EOk (createAddress_data caller nonce) <->
   nonce < 128 \/ 2 ^ 56 <= nonce).
Proof.
  unfold is_u64. intros Hn.
  assert (EncodeToBytes (sender_nonce caller nonce) =
    EOk (wrapList (encodeString (be_bytes 20 caller) ++ encodeUint nonce))) as ->.
  { unfold EncodeToBytes, sender_nonce. simpl encodeValue. by rewrite app_nil_r. }
  assert (length (encodeString (be_bytes 20 caller)) = 21%nat) as La.
  { rewrite <- encodeRLPBytes_address. unfold encodeRLPBytes, zlen. rewrite length_be_bytes.
    pose proof (length_be_bytes 20 caller) as L. destruct (be_bytes 20 caller) as [|? [|? ?]]; simpl in *; lia. }
  assert (128 <= nonce -> encodeRLPUint nonce = u8 136 :: be_bytes 8 nonce) as Elong.
  { intros H. unfold encodeRLPUint. destruct (Z.eqb_spec nonce 0), (Z.ltb_spec nonce 128); try lia.
    rewrite uintToMinBytes_eight by lia. unfold zlen. by rewrite length_be_bytes. }
  assert (length (encodeRLPUint nonce) <= 9)%nat as Lu.
  { destruct (Z.lt_ge_cases nonce 128); [|rewrite Elong by done; cbn [length]; rewrite length_be_bytes; lia].
    unfold encodeRLPUint. destruct (_ =? _); [simpl; lia|]. destruct (Z.ltb_spec nonce 128); simpl; lia. }
  unfold createAddress_data. rewrite encodeRLPBytes_address, wrapRLPList_short
    by (unfold zlen; rewrite length_app; lia).
  revert La. generalize (encodeString (be_bytes 20 caller)) as A. intros A La. split.
  - intros E. assert (length (wrapList (A ++ encodeUint nonce)) = length (wrapList (A ++ encodeRLPUint nonce))) as E'
      by congruence. clear E. rename E' into E. destruct (Z.lt_ge_cases nonce 128); [by left|].
    destruct (Z.lt_ge_cases nonce (2 ^ 56)); [|by right].
    exfalso. pose proof (length_sub_nonce nonce ltac:(lia)) as Ls.
    rewrite Elong in E by done. revert E. unfold wrapList, zlen.
    rewrite !length_app, La. cbn [length]. rewrite length_be_bytes.
    destruct (Z.leb_spec (Z.of_nat (21 + length (encodeUint nonce))) 55); [|lia].
    change (Z.of_nat (21 + 9) <=? 55) with true. cbn [length]. rewrite !length_app, La. cbn [length]. rewrite length_be_bytes. lia.
  - intros Hor. do 2 f_equal. f_equal. destruct (Z.lt_ge_cases nonce 128).
    + unfold encodeUint, encodeRLPUint. destruct (_ =? _); [done|]. destruct (Z.ltb_spec nonce 128); [done|lia].
    + rewrite Elong, encodeUint_string, be_bytes_Bytes8 by (unfold is_u64; lia).
      pose proof (length_be_bytes 8 nonce) as L. unfold encodeString, zlen. rewrite L.
      by destruct (be_bytes 8 nonce) as [|? [|? ?]].
Qed.

Lemma createAddress_rlp_iff_witness :
  (EncodeToBytes (sender_nonce 7 200) = EOk (createAddress_data 7 200) <-> 200 < 128 \/ 2 ^ 56 <= 200) /\
  createAddress_data 7 200 <> createAddress_data 7 127.
Proof. split; [apply (createAddress_rlp_iff 7 200); done|by vm_compute]. Defined.

(** ** Memory prices *)

(** 3 gas per word plus the quadratic part. *)
Definition memory_price (size : Z) : Z :=
  let words := (size + 31) / 32 in 3 * words + words * words / 512.

Lemma memory_words size : 0 <= size <= 32 * 181000 -> 0 <= (size + 31) / 32 <= 181000.
Proof. intros Hs. split; [apply Z.div_pos; lia|]. assert ((size + 31) / 32 < 181001) by (apply Z.div_lt_upper_bound; lia). lia. Qed.

Lemma memory_price_mono a b : 0 <= a <= b -> memory_price a <= memory_price b.
Proof.
  intros Hab. unfold memory_price. assert (0 <= (a + 31) / 32) by (apply Z.div_pos; lia).
  assert ((a + 31) / 32 <= (b + 31) / 32) by (apply Z.div_le_mono; lia).
  assert ((a + 31) / 32 * ((a + 31) / 32) / 512 <= (b + 31) / 32 * ((b + 31) / 32) / 512)
    by (apply Z.div_le_mono; nia). lia.
Qed.

Lemma memory_price_bound size : 0 <= size <= 32 * 181000 -> 0 <= memory_price size < 2 ^ 40.
Proof.
  intros Hs. pose proof (memory_words size Hs). unfold memory_price. set (w := (size + 31) / 32) in *.
  assert (0 <= w * w / 512 <= w * w) by (split; [apply Z.div_pos; nia|apply Z.div_le_upper_bound; nia]). nia.
Qed.

(** In the priced range the uint64 computation does not wrap. *)
Lemma words_cost_exact size :
  0 <= size <= 32 * 181000 ->
  ((((size +u 31) / 32) *u 3) +u ((((size +u 31) / 32) *u ((size +u 31) / 32)) / 512)) = memory_price size.
Proof.
  intros Hs. pose proof (memory_words size Hs). unfold memory_price.
  rewrite (u64_small (size + 31)) by (unfold is_u64; lia). set (w := (size + 31) / 32) in *.
  assert (0 <= w * w / 512 <= w * w) by (split; [apply Z.div_pos; nia|apply Z.div_le_upper_bound; nia]).
  rewrite (u64_small (w * 3)), (u64_small (w * w)) by (unfold is_u64; nia).
  rewrite u64_small by (unfold is_u64; nia). lia.
Qed.

Lemma MemoryGasCost_exact size : 0 <= size <= 32 * 181000 -> MemoryGasCost size = memory_price size.
Proof.
  intros Hs. pose proof (memory_words size Hs). unfold MemoryGasCost, toWordSize.
  destruct (Z.eqb_spec size 0) as [->|]; [done|]. unfold MaxUint64.
  destruct (Z.gtb_spec size (2 ^ 64 - 1 - 31)); [lia|].
  rewrite <- (words_cost_exact size Hs). rewrite (u64_small (size + 31)) by (unfold is_u64; lia).
  destruct (Z.gtb_spec ((size + 31) / 32) 181000); [lia|done].
Qed.

(** The four functions that price memory growth (of jump_table.go,
    memory.go and two of gas_table.go) agree with the quadratic formula, up
    to the 181000 words to which the reference function is defined. *)
Lemma memory_prices_agree st len size :
  0 <= len <= size -> size <= 32 * 181000 ->
  let fee := memory_price size - memory_price len in
  memExpansionGas len size = fee /\ MemoryCost len size = (fee, true) /\
  MemoryExpansionGas len size = fee /\
  memoryGasCostWithLastCost (mkMemory st (memory_price len)) size =
    Some (fee, mkMemory st (memory_price size)).
Proof.
  intros Hl Hs fee. pose proof (memory_price_mono len size Hl) as Hm.
  pose proof (memory_price_bound size ltac:(lia)). pose proof (memory_price_bound len ltac:(lia)).
  assert (fee = memory_price size -u memory_price len) as Ef
    by (rewrite u64_small by (unfold is_u64; lia); done).
  assert (len = size -> fee = 0) as Ez by (intros ->; subst fee; lia).
  repeat split.
  - unfold memExpansionGas, memWordsCost, GasMemory. destruct (Z.eqb_spec size 0); [symmetry; apply Ez; lia|].
    rewrite !words_cost_exact by lia. destruct (Z.eqb_spec len 0) as [->|].
    + subst fee. change (memory_price 0) with 0. lia.
    + destruct (Z.gtb_spec (memory_price size) (memory_price len)); lia.
  - unfold MemoryCost, MaxMemorySize, MaxUint64. destruct (Z.leb_spec size len); [rewrite Ez by lia; done|].
    destruct (Z.gtb_spec size (32 * 1024 * 1024)); [lia|]. destruct (Z.gtb_spec size (2 ^ 64 - 1 - 31)); [lia|].
    rewrite !words_cost_exact by lia. destruct (Z.eqb_spec len 0) as [->|]; [|by rewrite Ef].
    subst fee. change (memory_price 0) with 0. f_equal. lia.
  - unfold MemoryExpansionGas. destruct (Z.leb_spec size len); [symmetry; apply Ez; lia|].
    by rewrite !MemoryGasCost_exact by lia.
  - unfold memoryGasCostWithLastCost. destruct (Z.eqb_spec size 0) as [->|].
    { replace len with 0 by lia. by rewrite Ez by lia. }
    unfold MaxMemorySize, toWordSize, MaxUint64, GasMemory. destruct (Z.gtb_spec size (32 * 1024 * 1024)); [lia|].
    destruct (Z.eqb_spec size 0); [lia|]. destruct (Z.gtb_spec size (2 ^ 64 - 1 - 31)); [lia|].
    rewrite words_cost_exact by lia. simpl. destruct (Z.ltb_spec (memory_price size) (memory_price len)); [lia|].
    by rewrite Ef.
Qed.

Lemma memory_prices_agree_witness :
  let fee := memory_price 5792000 - memory_price 64 in
  (memExpansionGas 64 5792000 = fee /\ MemoryCost 64 5792000 = (fee, true) /\
   MemoryExpansionGas 64 5792000 = fee /\
   memoryGasCostWithLastCost (mkMemory [] (memory_price 64)) 5792000 =
     Some (fee, mkMemory [] (memory_price 5792000))) /\ fee = 64529322.
Proof. split; [apply (memory_prices_agree [] 64 5792000); lia|reflexivity]. Defined.

(** The price the interpreter uses loses its quadratic part to uint64
    overflow: memory of 2^37 times [m] bytes is sold at 3 gas per word,
    2^55 times m^2 below the formula. *)
Lemma memory_price_wraps m :
  0 < m < 2 ^ 27 ->
  memExpansionGas 0 (2 ^ 37 * m) = 3 * (2 ^ 32 * m) /\
  memory_price (2 ^ 37 * m) = 3 * (2 ^ 32 * m) + 2 ^ 55 * (m * m).
Proof.
  intros Hm. unfold memExpansionGas, memWordsCost, GasMemory, memory_price.
  assert ((2 ^ 37 * m + 31) / 32 = 2 ^ 32 * m) as Ew
    by (symmetry; apply Z.div_unique with 31; lia).
  destruct (Z.eqb_spec (2 ^ 37 * m) 0); [lia|].
  rewrite (u64_small (2 ^ 37 * m + 31)) by (unfold is_u64; lia). rewrite Ew.
  assert (2 ^ 32 * m * (2 ^ 32 * m) = m * m * 2 ^ 64) as Es by lia. rewrite Es. split.
  - simpl. unfold u64 at 3. rewrite Z.mod_mul by lia.
    rewrite (u64_small (2 ^ 32 * m * 3)) by (unfold is_u64; lia). rewrite Z.div_0_l by lia.
    rewrite u64_small by (unfold is_u64; lia). lia.
  - replace (m * m * 2 ^ 64) with (2 ^ 55 * (m * m) * 512) by lia. by rewrite Z.div_mul by lia.
Qed.

Lemma memory_price_wraps_witness :
  memExpansionGas 0 (2 ^ 37 * 1) = 3 * (2 ^ 32 * 1) /\ memory_price (2 ^ 37 * 1) = 3 * (2 ^ 32 * 1) + 2 ^ 55 * (1 * 1).
Proof. apply (memory_price_wraps 1). lia. Defined.

(** ** SSTORE refunds *)

(** Gas and refund of a sequence of writes to one slot within a transaction in
    which it started with [original].  The first write finds the slot [cold] or
    not, and leaves it warm. *)
Fixpoint sstore_run (cold : bool) (original current : Hash) (writes : list Hash) : Z * Z :=
  match writes with
  | [] => (0, 0)
  | v :: rest =>
      let '(gas, refund) := SstoreGas original current v cold in
      let '(gas', refund') := sstore_run false original v rest in
      (gas + gas', refund + refund')
  end.

(** The refund counter holds at least this much in a given state ... *)
Definition refund_floor (original current : Hash) : Z :=
  if negb (original =? 0) && (current =? 0) then SstoreClearsScheduleRefund else 0.

(** ... and at least this much more gas than refund was paid. *)
Definition net_floor (original current : Hash) : Z :=
  if original =? current then 0
  else if original =? 0 then GasSstoreSet
  else if current =? 0 then GasSstoreReset - SstoreClearsScheduleRefund
  else GasSstoreReset.

Lemma SstoreGas_floors original current v :
  let '(gas, refund) := SstoreGas original current v false in
  refund_floor original v <= refund_floor original current + refund /\
  net_floor original v <= net_floor original current + gas - refund.
Proof.
  unfold SstoreGas, refund_floor, net_floor, SstoreClearsScheduleRefund, WarmStorageReadCost, GasSstoreSet, GasSstoreReset.
  rewrite !Z.add_0_l, !u64_small by (unfold is_u64; lia).
  repeat match goal with |- context [?a =? ?b] => destruct (Z.eqb_spec a b); subst; cbn [negb andb]; try congruence end;
    rewrite ?u64_small by (unfold is_u64; lia); try lia.
Qed.

(** A cold slot costs its access on top. *)
Lemma SstoreGas_cold original current v :
  SstoreGas original current v true
  = (ColdSloadCost + (SstoreGas original current v false).1, (SstoreGas original current v false).2).
Proof.
  unfold SstoreGas, ColdSloadCost, WarmStorageReadCost, GasSstoreSet, GasSstoreReset.
  rewrite !u64_small by (unfold is_u64; lia). repeat case_match; reflexivity.
Qed.

Lemma sstore_run_floors original current writes :
  let '(gas, refund) := sstore_run false original current writes in
  0 <= refund_floor original current + refund /\
  GasSstoreReset - SstoreClearsScheduleRefund <= net_floor original current + gas - refund.
Proof.
  revert current. induction writes as [|v rest IH]; intros current; simpl.
  - unfold refund_floor, net_floor, SstoreClearsScheduleRefund, GasSstoreSet, GasSstoreReset.
    repeat case_match; lia.
  - pose proof (SstoreGas_floors original current v) as S. specialize (IH v).
    destruct (SstoreGas _ _ _ _) as [g r], (sstore_run false original v rest) as [g' r']. lia.
Qed.

(** What an access list charges for a storage key. *)
Definition accessListKeyGas : Z := 1900.


(** The 1900 are tight. *)
Lemma sstore_refund_warm : sstore_run false 7 7 [0] = (2900, 4800) /\ sstore_run true 7 7 [0] = (5000, 4800).
Proof. by vm_compute. Qed.

(** ** The storage context of DELEGATECALL *)

Section Delegation.

Context {DB : Type} `{StateDB DB}.
Context (pcs : gmap Z PrecompiledContract).

Abbreviation runner := (Contract -> bytes -> M (EVM DB) (Contract * bytes * option vmerr)).

Lemma callInCaller_ext (run1 run2 : runner) a b i g v e :
  (forall c i e, caddr c = a -> run1 c i e = run2 c i e) ->
  callInCaller pcs run1 a b i g v e = callInCaller pcs run2 a b i g v e.
Proof.
  intros Hr. unfold callInCaller, gbind, gget. destruct (_ >? _); [done|].
  unfold precompile. destruct (_ !! b); [done|]. unfold hasDB, takeSnapshot, readDB, runNested, gbind, gmodify.
  destruct (statedb e) as [db|]; simpl; [|done]. destruct (statedb e); simpl; [|done].
  destruct (zlen _ =? 0); [done|]. simpl. by rewrite Hr.
Qed.

(** Popping operands leaves the contract alone. *)
Lemma popCallee_ctr (s : mstate DB) a s' : popCallee s = Ok a s' -> ctr s' = ctr s.
Proof. unfold popCallee, gbind, Pop. destruct (stk s) as [|x [|y r]]; [done..|]. by intros [= _ <-]. Qed.

Lemma popWindows_ctr (s : mstate DB) w s' : popWindows s = Ok w s' -> ctr s' = ctr s.
Proof.
  unfold popWindows, gbind, Pop. destruct (stk s) as [|a [|b [|c [|d r]]]]; [done..|]. simpl.
  unfold memWindow, MemGet. destruct (mem_Get _ _ _); [|done]. by intros [= _ <-].
Qed.

(** DELEGATECALL runs the callee in the storage of the wrong account:
    what it does depends only on how the interpreter runs frames whose
    address is the caller of the current contract, never on frames of the
    current contract itself. *)
Lemma delegatecall_runs_as_caller (run1 run2 : runner) (s : mstate DB) :
  (forall c i e, caddr c = CallerAddress (ctr s) -> run1 c i e = run2 c i e) ->
  opDelegateCall pcs run1 s = opDelegateCall pcs run2 s.
Proof.
  intros Hr. unfold opDelegateCall. unfold gbind at 1 5.
  destruct (popCallee s) as [addr s1| | |] eqn:E1; try done. apply popCallee_ctr in E1.
  unfold gbind at 1 4. destruct (popWindows s1) as [[[args ro] rs] s2| | |] eqn:E2; try done.
  apply popWindows_ctr in E2. unfold gbind, gget, liftE, DelegateCall.
  rewrite (callInCaller_ext run1 run2) by (intros; apply Hr; congruence). done.
Qed.

End Delegation.

(** 0xA0, called by account 1, delegates to 0xC0, which writes slot 0: the
    write lands in account 1. *)
Definition w_delegating : bytes := [0x5f; 0x5f; 0x5f; 0x5f; 0x60; 0xC0; 0x62; 0x01; 0x00; 0x00; 0xf4; 0x00].
Definition w_delegation : mstate MemoryStateDB :=
  set_stk [0x10000; 0xC0; 0; 0; 0; 0]
    (initFrame (set_CodeHash w_delegating 0 (NewContract 1 0xA0 (Some 0) 100000)) [] fx_e).

Lemma delegatecall_runs_as_caller_witness :
  opDelegateCall fx_pcs (fx_run fx_cancun 20) w_delegation =
  opDelegateCall fx_pcs
    (fun c i e => if caddr c =? 1 then fx_run fx_cancun 20 c i e else Panic PSlice) w_delegation /\
  option_map (fun db => (GetState db 0xA0 0, GetState db 1 0))
    (statedb (end_state (fx_run fx_cancun 100
       (set_CodeHash w_delegating 0 (NewContract 1 0xA0 (Some 0) 100000)) [] fx_e) fx_e)) = Some (0, 1).
Proof.
  split; [|vm_compute; reflexivity].
  apply (delegatecall_runs_as_caller fx_pcs (fx_run fx_cancun 20)
    (fun c i e => if caddr c =? 1 then fx_run fx_cancun 20 c i e else Panic PSlice) w_delegation).
  intros c i e E. change (caddr c = 1) in E. rewrite E. change (1 =? 1) with true. cbv iota. reflexivity.
Defined.

(** ** Memory sizes that wrap *)

Section MemoryWrap.

Context {DB : Type} `{StateDB DB}.
Context (keccak256 : bytes -> bytes).
Context (pcs : gmap Z PrecompiledContract).
Context (rvrun : bytes -> bytes -> Z -> bytes * option vmerr).
Context (run : Contract -> bytes -> M (EVM DB) (Contract * bytes * option vmerr)).

Definition mloadOp : operation DB := memf memoryMload (dyn gasMemExpansion (op opMload GasMload 1 1024)).

Lemma select_mload rules : SelectJumpTable keccak256 pcs rvrun run rules !! MLOAD = Some mloadOp.
Proof.
  unfold SelectJumpTable.
  repeat match goal with |- (if ?b then _ else _) !! _ = _ => destruct b; [reflexivity|] end. reflexivity.
Qed.

(** An offset for which the size rounded up to words wraps to zero: the
    access is free, memory does not grow, and the read is out of range. *)
Lemma mload_perform_panics (s : mstate DB) o rest :
  stk s = o :: rest -> 2 ^ 64 - 63 <= o <= 2 ^ 64 - 33 ->
  is_u64 (Gas (ctr s)) -> 3 <= Gas (ctr s) ->
  perform mloadOp s = Panic PMemory.
Proof.
  intros Es Ho Hu Hg. unfold is_u64 in Hu.
  set (s1 := set_ctr (set_Gas (Gas (ctr s) - 3) (ctr s)) s).
  assert (chargeGas GasMload s = Ok tt s1) as C1.
  { unfold chargeGas, gbind, gget, UseGas. destruct (Z.ltb_spec (Gas (ctr s)) GasMload); [unfold GasMload in *; lia|].
    rewrite u64_small by (unfold is_u64, GasMload; lia). reflexivity. }
  assert (memoryMload s1 = Ok (Some (o + 32)) s1) as C2.
  { unfold memoryMload, memory_const, backU64, gbind, Back. simpl. rewrite Es. simpl.
    unfold bigUint64WithOverflow. rewrite (proj2 (IsUint64_spec o)) by (unfold is_u64; lia).
    destruct (Z.ltb_spec (Z.sgn o) 0); [lia|]. simpl. unfold sumU64, safeAddU_val, Uint64.
    rewrite (u64_small o), (u64_small (o + 32)) by (unfold is_u64; lia). destruct (Z.ltb_spec (o + 32) o); [lia|done]. }
  assert (((o + 32) +u 31) / 32 * 32 = 0) as Ez.
  { unfold u64. replace (o + 32 + 31) with (o + 63 - 2 ^ 64 + 1 * 2 ^ 64) by lia.
    rewrite Z.mod_add, Z.mod_small by lia. rewrite Z.div_small; lia. }
  assert (chargeGas 0 s1 = Ok tt s1) as C3.
  { unfold chargeGas, gbind, gget, UseGas. destruct (Z.ltb_spec (Gas (ctr s1)) 0); [simpl in *; lia|].
    rewrite u64_small by (unfold is_u64; simpl; lia). simpl. by rewrite Z.sub_0_r. }
  assert (opMload s1 = Panic PMemory) as C4.
  { unfold opMload, gbind, Peek, MemGet, mem_Get, go_slice, Uint64. simpl. rewrite Es.
    rewrite (u64_small o), i64_neg by (unfold is_u64; lia). destruct (Z.leb_spec 0 (o - 2 ^ 64)); [lia|done]. }
  unfold perform, requiredMemory, chargeDynamic, resizeMemory, dropData, orOutOfGas, gasMemExpansion, gbind, gget, gret, gmodify.
  cbn [mloadOp constantGas memorySize dynamicGas execute memf dyn op]. change (GasMload >? 0) with true. cbv iota.
  rewrite C1, C2. destruct (Z.gtb_spec (o + 32) 0); [|lia]. rewrite Ez.
  unfold gasMemExpansion, gbind, gget, gret. change (memExpansionGas _ 0) with 0.
  cbv beta iota. rewrite C3. cbv beta iota. simpl. by rewrite C4.
Qed.

(** A run-time panic any contract can cause, in every fork: MLOAD at an
    offset between 2^64 - 63 and 2^64 - 33.  The required size does not
    overflow, but rounding it up to words does, so no memory is allocated
    and none paid for. *)
Lemma mload_offset_panics rules (s : mstate DB) o rest :
  GetOp (ctr s) (pc s) = MLOAD -> stk s = o :: rest -> (length (stk s) <= 1024)%nat ->
  2 ^ 64 - 63 <= o <= 2 ^ 64 - 33 -> is_u64 (Gas (ctr s)) -> 3 <= Gas (ctr s) ->
  step (SelectJumpTable keccak256 pcs rvrun run rules) s = Panic PMemory.
Proof.
  intros Eop Es Hl Ho Hu Hg. unfold step, gbind, gget. rewrite Eop, select_mload.
  cbn [mloadOp minStack maxStack memf dyn op]. rewrite Es in Hl |- *.
  destruct (Nat.ltb_spec (length (o :: rest)) 1); [simpl in *; lia|].
  destruct (Nat.ltb_spec 1024 (length (o :: rest))); [lia|]. by eapply mload_perform_panics.
Qed.

End MemoryWrap.

(** PUSH8 0xffffffffffffffdf; MLOAD, sent as a call from account 1. *)
Definition w_mload : bytes := [0x67; 0xff; 0xff; 0xff; 0xff; 0xff; 0xff; 0xff; 0xdf; 0x51].
Definition w_mloadFrame : mstate MemoryStateDB :=
  set_pc 9 (set_stk [0xffffffffffffffdf]
    (initFrame (set_CodeHash w_mload 0 (NewContract 1 0xA0 (Some 0) 100)) [] fx_e)).

Lemma mload_offset_panics_witness :
  step (SelectJumpTable fx_keccak fx_pcs fx_rv (fx_run fx_cancun 5) fx_cancun) w_mloadFrame = Panic PMemory /\
  fx_run fx_cancun 20 (set_CodeHash w_mload 0 (NewContract 1 0xA0 (Some 0) 100)) [] fx_e = Panic PMemory.
Proof.
  split; [|vm_compute; reflexivity].
  apply (mload_offset_panics fx_keccak fx_pcs fx_rv (fx_run fx_cancun 5) fx_cancun w_mloadFrame 0xffffffffffffffdf []);
    first [reflexivity | simpl; lia | vm_compute; done].
Defined.
