(* ===== verification/Transactions.v ===== *)
(** * Transactions: the transaction types and their encodings

    [types.Transaction] and its ten payload types (pkg/core/types:
    transaction.go, tx_aa.go, tx_frame.go, pq_transaction.go, local_tx.go,
    tx_multidim.go), the typed-envelope codec of transaction_rlp.go and the
    bytes that are signed.  A [*big.Int] or [*Address] that may be nil is an
    [option]; nil and empty slices are the same list, which the code does
    not distinguish either. *)

From S2P Require Import Prelude Rlp StateDB.

(** ** Layouts

    The code describes an encoding by a struct that [reflect] walks.  A
    [layout A] is such a struct type: its reflected type, the reflected
    value of an [A], and the [A] held by a reflected value. *)
Record layout (A : Type) := mkLayout {
  lty : gty;
  lval : A -> gval;
  lget : gval -> option A;
}.
Arguments mkLayout {A}.
Arguments lty {A}.
Arguments lval {A}.
Arguments lget {A}.

Definition lUint (bits : Z) : layout Z :=
  mkLayout (TUint bits) GUint (fun v => match v with GUint u => Some u | _ => None end).

Definition lUint64 : layout Z := lUint 64.
Definition lUint8 : layout Z := lUint 8.

(** A [*big.Int] that is not nil. *)
Definition lBig : layout Z :=
  mkLayout (TPtr TBig) (fun z => GPtr (GBig true z))
    (fun v => match v with GPtr (GBig _ z) => Some z | _ => None end).

(** A [*big.Int] that may be nil. *)
Definition lBigPtr : layout (option Z) :=
  mkLayout (TPtr TBig) (fun o => match o with Some z => GPtr (GBig true z) | None => GNil end)
    (fun v => match v with GPtr (GBig _ z) => Some (Some z) | GNil => Some None | _ => None end).

Definition lBytes : layout bytes :=
  mkLayout TBytes GBytes (fun v => match v with GBytes b => Some b | _ => None end).

(** [[n]byte], identified with its big-endian value. *)
Definition lFixed (n : nat) : layout Z :=
  mkLayout (TByteArray n) (fun a => GByteArray (be_bytes n a))
    (fun v => match v with GByteArray b => Some (SetBytes b) | _ => None end).

Definition lAddress : layout Address := lFixed 20.
Definition lHash : layout Hash := lFixed 32.

Definition lSlice {A} (l : layout A) : layout (list A) :=
  mkLayout (TSlice (lty l)) (fun xs => GSlice (map (lval l) xs))
    (fun v => match v with GSlice vs => mapM (lget l) vs | _ => None end).

(** The exported fields of a struct, in order. *)
Record fields (A : Type) := mkFields {
  ftys : list (bool * gty);
  fvals : A -> list (bool * gval);
  fget : list (bool * gval) -> option A;
}.
Arguments mkFields {A}.
Arguments ftys {A}.
Arguments fvals {A}.
Arguments fget {A}.

Definition fnil : fields unit :=
  mkFields [] (fun _ => []) (fun vs => match vs with [] => Some tt | _ => None end).

Definition fcons {A B} (l : layout A) (f : fields B) : fields (A * B) :=
  mkFields ((true, lty l) :: ftys f)
    (fun p => (true, lval l p.1) :: fvals f p.2)
    (fun vs => match vs with
               | (_, v) :: vs' =>
                   match lget l v, fget f vs' with
                   | Some a, Some b => Some (a, b)
                   | _, _ => None
                   end
               | [] => None
               end).

Definition lStruct {A} (f : fields A) : layout A :=
  mkLayout (TStruct (ftys f)) (fun a => GStruct (fvals f a))
    (fun v => match v with GStruct vs => fget f vs | _ => None end).

Notation "'struct' { x ; .. ; y }" := (lStruct (fcons x .. (fcons y fnil) ..))
  (at level 0) : go_scope.
Notation "⟪ x ; .. ; y ⟫" := (pair x .. (pair y tt) ..) (at level 0) : go_scope.

(** [rlp.EncodeToBytes] of a struct, and [rlp.DecodeBytes] into a fresh
    one.  A value of another shape than the type's does not occur. *)
Inductive tres (A : Type) := TOk (a : A) | TErr | TPanic | TFuel.
Arguments TOk {A} _.
Arguments TErr {A}.
Arguments TPanic {A}.
Arguments TFuel {A}.

Definition tbind {A B} (r : tres A) (k : A -> tres B) : tres B :=
  match r with TOk a => k a | TErr => TErr | TPanic => TPanic | TFuel => TFuel end.

Definition encodeAs {A} (l : layout A) (a : A) : eres := EncodeToBytes (lval l a).

Definition decodeAs {A} (l : layout A) (fuel : nat) (b : bytes) : tres A :=
  match DecodeBytes fuel (lty l) b with
  | SOk v _ => match lget l v with Some a => TOk a | None => TPanic end
  | SErr _ _ => TErr
  | SPanic => TPanic
  | SFuel => TFuel
  end.

(** ** Transaction types *)

Definition LegacyTxType : Z := 0x00.
Definition AccessListTxType : Z := 0x01.
Definition DynamicFeeTxType : Z := 0x02.
Definition BlobTxType : Z := 0x03.
Definition SetCodeTxType : Z := 0x04.
Definition AATxType : Z := 0x05.
Definition FrameTxType : Z := 0x06.
Definition PQTransactionType : Z := 0x07.
Definition LocalTxType : Z := 0x08.
Definition MultiDimFeeTxType : Z := 0x09.

Record AccessTuple := mkTuple {
  at_Address : Address;
  at_StorageKeys : list Hash;
}.

Abbreviation AccessList := (list AccessTuple) (only parsing).

Record Authorization := mkAuth {
  au_ChainID : option Z;
  au_Address : Address;
  au_Nonce : Z;
  au_V : option Z;
  au_R : option Z;
  au_S : option Z;
}.

(** [types.Frame] of tx_frame.go *)
Record TxFrame := mkTxFrame {
  fr_Mode : Z;
  fr_Target : option Address;
  fr_GasLimit : Z;
  fr_Data : bytes;
}.

Record LegacyTx := mkLegacyTx {
  leg_Nonce : Z;
  leg_GasPrice : option Z;
  leg_Gas : Z;
  leg_To : option Address;
  leg_Value : option Z;
  leg_Data : bytes;
  leg_V : option Z;
  leg_R : option Z;
  leg_S : option Z;
}.

Record AccessListTx := mkAccessListTx {
  al_ChainID : option Z;
  al_Nonce : Z;
  al_GasPrice : option Z;
  al_Gas : Z;
  al_To : option Address;
  al_Value : option Z;
  al_Data : bytes;
  al_AccessList : AccessList;
  al_V : option Z;
  al_R : option Z;
  al_S : option Z;
}.

Record DynamicFeeTx := mkDynamicFeeTx {
  df_ChainID : option Z;
  df_Nonce : Z;
  df_GasTipCap : option Z;
  df_GasFeeCap : option Z;
  df_Gas : Z;
  df_To : option Address;
  df_Value : option Z;
  df_Data : bytes;
  df_AccessList : AccessList;
  df_V : option Z;
  df_R : option Z;
  df_S : option Z;
}.

Record BlobTx := mkBlobTx {
  bl_ChainID : option Z;
  bl_Nonce : Z;
  bl_GasTipCap : option Z;
  bl_GasFeeCap : option Z;
  bl_Gas : Z;
  bl_To : Address;
  bl_Value : option Z;
  bl_Data : bytes;
  bl_AccessList : AccessList;
  bl_BlobFeeCap : option Z;
  bl_BlobHashes : list Hash;
  bl_V : option Z;
  bl_R : option Z;
  bl_S : option Z;
}.

Record SetCodeTx := mkSetCodeTx {
  sc_ChainID : option Z;
  sc_Nonce : Z;
  sc_GasTipCap : option Z;
  sc_GasFeeCap : option Z;
  sc_Gas : Z;
  sc_To : Address;
  sc_Value : option Z;
  sc_Data : bytes;
  sc_AccessList : AccessList;
  sc_AuthorizationList : list Authorization;
  sc_V : option Z;
  sc_R : option Z;
  sc_S : option Z;
}.

Record AATx := mkAATx {
  aa_ChainID : option Z;
  aa_Nonce : Z;
  aa_Sender : Address;
  aa_SenderValidationData : bytes;
  aa_Deployer : option Address;
  aa_DeployerData : bytes;
  aa_Paymaster : option Address;
  aa_PaymasterData : bytes;
  aa_SenderExecutionData : bytes;
  aa_MaxPriorityFeePerGas : option Z;
  aa_MaxFeePerGas : option Z;
  aa_SenderValidationGas : Z;
  aa_PaymasterValidationGas : Z;
  aa_SenderExecutionGas : Z;
  aa_PaymasterPostOpGas : Z;
  aa_AccessList : AccessList;
  aa_AuthorizationList : list Authorization;
}.

Record FrameTx := mkFrameTx {
  ft_ChainID : option Z;
  ft_Nonce : option Z;
  ft_Sender : Address;
  ft_Frames : list TxFrame;
  ft_MaxPriorityFeePerGas : option Z;
  ft_MaxFeePerGas : option Z;
  ft_MaxFeePerBlobGas : option Z;
  ft_BlobVersionedHashes : list Hash;
}.

Record PQTransaction := mkPQTx {
  pq_ChainID : option Z;
  pq_Nonce : Z;
  pq_To : option Address;
  pq_Value : option Z;
  pq_Gas : Z;
  pq_GasPrice : option Z;
  pq_Data : bytes;
  pq_SignatureType : Z;
  pq_Signature : bytes;
  pq_PublicKey : bytes;
  pq_ClassicSignature : bytes;
}.

Record LocalTx := mkLocalTx {
  lo_ChainID : option Z;
  lo_Nonce : Z;
  lo_GasTipCap : option Z;
  lo_GasFeeCap : option Z;
  lo_Gas : Z;
  lo_To : option Address;
  lo_Value : option Z;
  lo_Data : bytes;
  lo_ScopeHint : bytes;
}.

(** The two [[3]*big.Int] vectors are triples. *)
Record MultiDimFeeTx := mkMultiDimFeeTx {
  md_ChainID : option Z;
  md_Nonce : Z;
  md_GasLimit : Z;
  md_To : option Address;
  md_Value : option Z;
  md_Data : bytes;
  md_AccessList : AccessList;
  md_MaxFeesPerGas : option Z * option Z * option Z;
  md_PriorityFeesPerGas : option Z * option Z * option Z;
  md_V : option Z;
  md_R : option Z;
  md_S : option Z;
}.

Inductive TxData :=
  | Legacy (t : LegacyTx)
  | AccessListT (t : AccessListTx)
  | DynamicFee (t : DynamicFeeTx)
  | Blob (t : BlobTx)
  | SetCodeT (t : SetCodeTx)
  | AA (t : AATx)
  | FrameT (t : FrameTx)
  | PQ (t : PQTransaction)
  | Local (t : LocalTx)
  | MultiDim (t : MultiDimFeeTx).

Record BlobSidecarData := mkSidecar {
  sd_Blobs : list bytes;
  sd_Commitments : list bytes;
  sd_Proofs : list bytes;
}.

(** [Transaction] without its hash and size caches: the payload, the cached
    sender and the sidecar. *)
Record Transaction := mkTx {
  inner : TxData;
  from : option Address;
  sidecar : option BlobSidecarData;
}.

(** [NewTransaction]: [copy] copies every field. *)
Definition NewTransaction (t : TxData) : Transaction := mkTx t None None.

(** ** Encoding helpers *)

Definition bigOrZero (i : option Z) : Z := default 0 i.

Definition addressPtrToBytes (a : option Address) : bytes :=
  match a with Some x => be_bytes 20 x | None => [] end.

Definition bytesToAddressPtr (b : bytes) : option Address :=
  match b with [] => None | _ => Some (BytesToAddress b) end.

Definition accessTupleRLP : layout _ := struct { lAddress ; lSlice lHash }.

Definition encodeAccessList (al : AccessList) : list (Address * (list Hash * unit)) :=
  map (fun t => ⟪ at_Address t ; at_StorageKeys t ⟫) al.

Definition decodeAccessList (al : list (Address * (list Hash * unit))) : AccessList :=
  map (fun '⟪ a ; ks ⟫ => mkTuple a ks) al.

Definition authorizationRLP : layout _ := struct { lBig ; lAddress ; lUint64 ; lBig ; lBig ; lBig }.

Definition encodeAuthList (auths : list Authorization) :=
  map (fun a => ⟪ bigOrZero (au_ChainID a) ; au_Address a ; au_Nonce a ;
                  bigOrZero (au_V a) ; bigOrZero (au_R a) ; bigOrZero (au_S a) ⟫) auths.

Definition decodeAuthList (auths : list (Z * (Address * (Z * (Z * (Z * (Z * unit)))))))
  : list Authorization :=
  map (fun '⟪ c ; a ; n ; v ; r ; s ⟫ => mkAuth (Some c) a n (Some v) (Some r) (Some s)) auths.

Definition frameRLP : layout _ := struct { lUint8 ; lBytes ; lUint64 ; lBytes }.

Definition encodeFrames (frames : list TxFrame) :=
  map (fun f => ⟪ fr_Mode f ; addressPtrToBytes (fr_Target f) ; fr_GasLimit f ; fr_Data f ⟫) frames.

Definition decodeFrames (frames : list (Z * (bytes * (Z * (bytes * unit))))) : list TxFrame :=
  map (fun '⟪ m ; t ; g ; d ⟫ => mkTxFrame m (bytesToAddressPtr t) g d) frames.

(** *** The struct types *)

Definition legacyTxRLP : layout _ :=
  struct { lUint64 ; lBig ; lUint64 ; lBytes ; lBig ; lBytes ; lBig ; lBig ; lBig }.

Definition accessListTxRLP : layout _ :=
  struct { lBig ; lUint64 ; lBig ; lUint64 ; lBytes ; lBig ; lBytes ; lSlice accessTupleRLP ;
           lBig ; lBig ; lBig }.

Definition dynamicFeeTxRLP : layout _ :=
  struct { lBig ; lUint64 ; lBig ; lBig ; lUint64 ; lBytes ; lBig ; lBytes ; lSlice accessTupleRLP ;
           lBig ; lBig ; lBig }.

Definition blobTxRLP : layout _ :=
  struct { lBig ; lUint64 ; lBig ; lBig ; lUint64 ; lAddress ; lBig ; lBytes ; lSlice accessTupleRLP ;
           lBig ; lSlice lHash ; lBig ; lBig ; lBig }.

Definition blobTxNetworkV0RLP : layout _ :=
  struct { blobTxRLP ; lSlice lBytes ; lSlice lBytes ; lSlice lBytes }.

Definition blobTxNetworkV1RLP : layout _ :=
  struct { blobTxRLP ; lUint8 ; lSlice lBytes ; lSlice lBytes ; lSlice lBytes }.

Definition setCodeTxRLP : layout _ :=
  struct { lBig ; lUint64 ; lBig ; lBig ; lUint64 ; lAddress ; lBig ; lBytes ; lSlice accessTupleRLP ;
           lSlice authorizationRLP ; lBig ; lBig ; lBig }.

Definition localTxRLP : layout _ :=
  struct { lBig ; lUint64 ; lBig ; lBig ; lUint64 ; lBytes ; lBig ; lBytes ; lBytes }.

Definition aaTxRLP : layout _ :=
  struct { lBig ; lUint64 ; lAddress ; lBytes ; lBytes ; lBytes ; lBytes ; lBytes ; lBytes ;
           lBig ; lBig ; lUint64 ; lUint64 ; lUint64 ; lUint64 ;
           lSlice accessTupleRLP ; lSlice authorizationRLP }.

Definition frameTxRLP : layout _ :=
  struct { lBig ; lBig ; lAddress ; lSlice frameRLP ; lBig ; lBig ; lBig ; lSlice lHash }.

Definition pqTxRLP : layout _ :=
  struct { lBig ; lUint64 ; lBytes ; lBig ; lUint64 ; lBig ; lBytes ; lUint8 ; lBytes ; lBytes ; lBytes }.

Definition multiDimFeeTxRLP : layout _ :=
  struct { lBigPtr ; lUint64 ; lUint64 ; lBytes ; lBigPtr ; lBytes ; lSlice accessTupleRLP ;
           lSlice lBigPtr ; lSlice lBigPtr ; lBigPtr ; lBigPtr ; lBigPtr }.

(** [result[0] = txType; copy(result[1:], payload)] *)
Definition envelope (txType : Z) (payload : eres) : eres := map_eres (cons txType) payload.

Definition encodeLegacyTx (t : LegacyTx) : eres :=
  encodeAs legacyTxRLP
    ⟪ leg_Nonce t ; bigOrZero (leg_GasPrice t) ; leg_Gas t ; addressPtrToBytes (leg_To t) ;
      bigOrZero (leg_Value t) ; leg_Data t ;
      bigOrZero (leg_V t) ; bigOrZero (leg_R t) ; bigOrZero (leg_S t) ⟫.

Definition encodeLocalTx (t : LocalTx) : eres :=
  envelope LocalTxType (encodeAs localTxRLP
    ⟪ bigOrZero (lo_ChainID t) ; lo_Nonce t ; bigOrZero (lo_GasTipCap t) ; bigOrZero (lo_GasFeeCap t) ;
      lo_Gas t ; addressPtrToBytes (lo_To t) ; bigOrZero (lo_Value t) ; lo_Data t ; lo_ScopeHint t ⟫).

Definition EncodeFrameTx (t : FrameTx) : eres :=
  envelope FrameTxType (encodeAs frameTxRLP
    ⟪ bigOrZero (ft_ChainID t) ; bigOrZero (ft_Nonce t) ; ft_Sender t ; encodeFrames (ft_Frames t) ;
      bigOrZero (ft_MaxPriorityFeePerGas t) ; bigOrZero (ft_MaxFeePerGas t) ;
      bigOrZero (ft_MaxFeePerBlobGas t) ; ft_BlobVersionedHashes t ⟫).

Definition EncodePQ (t : PQTransaction) : eres :=
  envelope PQTransactionType (encodeAs pqTxRLP
    ⟪ bigOrZero (pq_ChainID t) ; pq_Nonce t ; addressPtrToBytes (pq_To t) ; bigOrZero (pq_Value t) ;
      pq_Gas t ; bigOrZero (pq_GasPrice t) ; pq_Data t ; pq_SignatureType t ; pq_Signature t ;
      pq_PublicKey t ; pq_ClassicSignature t ⟫).

Definition vec3 {A} (v : A * A * A) : list A := let '(a, b, c) := v in [a; b; c].

Definition MultiDim_EncodeRLP (t : MultiDimFeeTx) : eres :=
  envelope MultiDimFeeTxType (encodeAs multiDimFeeTxRLP
    ⟪ md_ChainID t ; md_Nonce t ; md_GasLimit t ; addressPtrToBytes (md_To t) ; md_Value t ;
      md_Data t ; encodeAccessList (md_AccessList t) ; vec3 (md_MaxFeesPerGas t) ;
      vec3 (md_PriorityFeesPerGas t) ; md_V t ; md_R t ; md_S t ⟫).

(** The payloads of [encodeTypedTx]. *)
Definition encode_accessListTx (t : AccessListTx) : eres :=
  encodeAs accessListTxRLP
    ⟪ bigOrZero (al_ChainID t) ; al_Nonce t ; bigOrZero (al_GasPrice t) ; al_Gas t ;
      addressPtrToBytes (al_To t) ; bigOrZero (al_Value t) ; al_Data t ;
      encodeAccessList (al_AccessList t) ;
      bigOrZero (al_V t) ; bigOrZero (al_R t) ; bigOrZero (al_S t) ⟫.

Definition encode_dynamicFeeTx (t : DynamicFeeTx) : eres :=
  encodeAs dynamicFeeTxRLP
    ⟪ bigOrZero (df_ChainID t) ; df_Nonce t ; bigOrZero (df_GasTipCap t) ; bigOrZero (df_GasFeeCap t) ;
      df_Gas t ; addressPtrToBytes (df_To t) ; bigOrZero (df_Value t) ; df_Data t ;
      encodeAccessList (df_AccessList t) ;
      bigOrZero (df_V t) ; bigOrZero (df_R t) ; bigOrZero (df_S t) ⟫.

Definition blobTx_tuple (t : BlobTx) :=
  ⟪ bigOrZero (bl_ChainID t) ; bl_Nonce t ; bigOrZero (bl_GasTipCap t) ; bigOrZero (bl_GasFeeCap t) ;
    bl_Gas t ; bl_To t ; bigOrZero (bl_Value t) ; bl_Data t ; encodeAccessList (bl_AccessList t) ;
    bigOrZero (bl_BlobFeeCap t) ; bl_BlobHashes t ;
    bigOrZero (bl_V t) ; bigOrZero (bl_R t) ; bigOrZero (bl_S t) ⟫.

Definition encode_blobTx (t : BlobTx) : eres := encodeAs blobTxRLP (blobTx_tuple t).

Definition encode_setCodeTx (t : SetCodeTx) : eres :=
  encodeAs setCodeTxRLP
    ⟪ bigOrZero (sc_ChainID t) ; sc_Nonce t ; bigOrZero (sc_GasTipCap t) ; bigOrZero (sc_GasFeeCap t) ;
      sc_Gas t ; sc_To t ; bigOrZero (sc_Value t) ; sc_Data t ; encodeAccessList (sc_AccessList t) ;
      encodeAuthList (sc_AuthorizationList t) ;
      bigOrZero (sc_V t) ; bigOrZero (sc_R t) ; bigOrZero (sc_S t) ⟫.

Definition encode_aaTx (t : AATx) : eres :=
  encodeAs aaTxRLP
    ⟪ bigOrZero (aa_ChainID t) ; aa_Nonce t ; aa_Sender t ; aa_SenderValidationData t ;
      addressPtrToBytes (aa_Deployer t) ; aa_DeployerData t ; addressPtrToBytes (aa_Paymaster t) ;
      aa_PaymasterData t ; aa_SenderExecutionData t ; bigOrZero (aa_MaxPriorityFeePerGas t) ;
      bigOrZero (aa_MaxFeePerGas t) ; aa_SenderValidationGas t ; aa_PaymasterValidationGas t ;
      aa_SenderExecutionGas t ; aa_PaymasterPostOpGas t ; encodeAccessList (aa_AccessList t) ;
      encodeAuthList (aa_AuthorizationList t) ⟫.

(** [encodeTypedTx]; the error of other payload types is [GOther]'s. *)
Definition encodeTypedTx (txType : Z) (t : TxData) : eres :=
  match t with
  | AccessListT t => envelope txType (encode_accessListTx t)
  | DynamicFee t => envelope txType (encode_dynamicFeeTx t)
  | Blob t => envelope txType (encode_blobTx t)
  | SetCodeT t => envelope txType (encode_setCodeTx t)
  | AA t => envelope txType (encode_aaTx t)
  | _ => EErr ErrValueTooLarge
  end.

(** [Transaction.EncodeRLP] *)
Definition EncodeRLP (t : TxData) : eres :=
  match t with
  | Legacy l => encodeLegacyTx l
  | AccessListT _ => encodeTypedTx AccessListTxType t
  | DynamicFee _ => encodeTypedTx DynamicFeeTxType t
  | Blob _ => encodeTypedTx BlobTxType t
  | SetCodeT _ => encodeTypedTx SetCodeTxType t
  | AA _ => encodeTypedTx AATxType t
  | FrameT f => EncodeFrameTx f
  | PQ p => EncodePQ p
  | Local l => encodeLocalTx l
  | MultiDim m => MultiDim_EncodeRLP m
  end.

(** ** Decoding *)

Definition wrap (t : TxData) : tres Transaction := TOk (NewTransaction t).

Definition decodeLegacyTx (fuel : nat) (d : bytes) : tres Transaction :=
  tbind (decodeAs legacyTxRLP fuel d)
    (fun '⟪ n ; gp ; g ; to ; v ; da ; sv ; sr ; ss ⟫ =>
       wrap (Legacy (mkLegacyTx n (Some gp) g (bytesToAddressPtr to) (Some v) da (Some sv) (Some sr) (Some ss)))).

Definition decodeAccessListTx (fuel : nat) (d : bytes) : tres Transaction :=
  tbind (decodeAs accessListTxRLP fuel d)
    (fun '⟪ c ; n ; gp ; g ; to ; v ; da ; al ; sv ; sr ; ss ⟫ =>
       wrap (AccessListT (mkAccessListTx (Some c) n (Some gp) g (bytesToAddressPtr to) (Some v) da
               (decodeAccessList al) (Some sv) (Some sr) (Some ss)))).

Definition decodeDynamicFeeTx (fuel : nat) (d : bytes) : tres Transaction :=
  tbind (decodeAs dynamicFeeTxRLP fuel d)
    (fun '⟪ c ; n ; tip ; cap ; g ; to ; v ; da ; al ; sv ; sr ; ss ⟫ =>
       wrap (DynamicFee (mkDynamicFeeTx (Some c) n (Some tip) (Some cap) g (bytesToAddressPtr to) (Some v) da
               (decodeAccessList al) (Some sv) (Some sr) (Some ss)))).

(** The struct read, and the sidecar when the bytes are in network form. *)
Definition decodeBlobTxFull (fuel : nat) (d : bytes) : tres Transaction :=
  let build '⟪ c ; n ; tip ; cap ; g ; to ; v ; da ; al ; bf ; bh ; sv ; sr ; ss ⟫
      (sd : option BlobSidecarData) :=
    TOk (mkTx (Blob (mkBlobTx (Some c) n (Some tip) (Some cap) g to (Some v) da (decodeAccessList al)
                       (Some bf) bh (Some sv) (Some sr) (Some ss))) None sd) in
  match decodeAs blobTxRLP fuel d with
  | TOk dec => build dec None
  | TErr =>
      match decodeAs blobTxNetworkV0RLP fuel d with
      | TOk ⟪ dec ; bs ; cs ; ps ⟫ => build dec (Some (mkSidecar bs cs ps))
      | TErr =>
          match decodeAs blobTxNetworkV1RLP fuel d with
          | TOk ⟪ dec ; _ ; bs ; cs ; ps ⟫ => build dec (Some (mkSidecar bs cs ps))
          | TErr => TErr
          | TPanic => TPanic
          | TFuel => TFuel
          end
      | TPanic => TPanic
      | TFuel => TFuel
      end
  | TPanic => TPanic
  | TFuel => TFuel
  end.

Definition decodeSetCodeTx (fuel : nat) (d : bytes) : tres Transaction :=
  tbind (decodeAs setCodeTxRLP fuel d)
    (fun '⟪ c ; n ; tip ; cap ; g ; to ; v ; da ; al ; auths ; sv ; sr ; ss ⟫ =>
       wrap (SetCodeT (mkSetCodeTx (Some c) n (Some tip) (Some cap) g to (Some v) da
               (decodeAccessList al) (decodeAuthList auths) (Some sv) (Some sr) (Some ss)))).

Definition DecodeAATx (fuel : nat) (d : bytes) : tres Transaction :=
  tbind (decodeAs aaTxRLP fuel d)
    (fun '⟪ c ; n ; se ; svd ; de ; ded ; pm ; pmd ; sed ; tip ; cap ; g1 ; g2 ; g3 ; g4 ; al ; auths ⟫ =>
       wrap (AA (mkAATx (Some c) n se svd (bytesToAddressPtr de) ded (bytesToAddressPtr pm) pmd sed
               (Some tip) (Some cap) g1 g2 g3 g4 (decodeAccessList al) (decodeAuthList auths)))).

Definition DecodeFrameTx (fuel : nat) (d : bytes) : tres Transaction :=
  tbind (decodeAs frameTxRLP fuel d)
    (fun '⟪ c ; n ; se ; fs ; tip ; cap ; bf ; bh ⟫ =>
       wrap (FrameT (mkFrameTx (Some c) (Some n) se (decodeFrames fs) (Some tip) (Some cap) (Some bf) bh))).

Definition decodePQFromPayload (fuel : nat) (d : bytes) : tres Transaction :=
  tbind (decodeAs pqTxRLP fuel d)
    (fun '⟪ c ; n ; to ; v ; g ; gp ; da ; st ; sg ; pk ; cs ⟫ =>
       wrap (PQ (mkPQTx (Some c) n (bytesToAddressPtr to) (Some v) g (Some gp) da st sg pk cs))).

Definition DecodeMultiDimFeeTx (fuel : nat) (d : bytes) : tres Transaction :=
  tbind (decodeAs multiDimFeeTxRLP fuel d)
    (fun '⟪ c ; n ; g ; to ; v ; da ; al ; mf ; pf ; sv ; sr ; ss ⟫ =>
       match mf, pf with
       | [m0; m1; m2], [p0; p1; p2] =>
           wrap (MultiDim (mkMultiDimFeeTx c n g (bytesToAddressPtr to) v da (decodeAccessList al)
                   (m0, m1, m2) (p0, p1, p2) sv sr ss))
       | _, _ => TErr
       end).

Definition decodeTypedTx (fuel : nat) (txType : Z) (payload : bytes) : tres Transaction :=
  match payload with
  | [] => TErr
  | _ =>
      if txType =? AccessListTxType then decodeAccessListTx fuel payload
      else if txType =? DynamicFeeTxType then decodeDynamicFeeTx fuel payload
      else if txType =? BlobTxType then decodeBlobTxFull fuel payload
      else if txType =? SetCodeTxType then decodeSetCodeTx fuel payload
      else if txType =? AATxType then DecodeAATx fuel payload
      else if txType =? FrameTxType then DecodeFrameTx fuel payload
      else if txType =? PQTransactionType then decodePQFromPayload fuel payload
      else if txType =? MultiDimFeeTxType then DecodeMultiDimFeeTx fuel payload
      else TErr
  end.

Definition DecodeTxRLP (fuel : nat) (d : bytes) : tres Transaction :=
  match d with
  | [] => TErr
  | b :: rest =>
      if (b <=? 0x7f) && negb (b =? 0) then decodeTypedTx fuel b rest
      else if b >=? 0xc0 then decodeLegacyTx fuel d
      else if b =? 0 then
        match rest with [] => TErr | _ => decodeLegacyTx fuel rest end
      else TErr
  end.

(** ** Accessors (the [TxData] interface) *)

Definition txType (t : TxData) : Z :=
  match t with
  | Legacy _ => LegacyTxType
  | AccessListT _ => AccessListTxType
  | DynamicFee _ => DynamicFeeTxType
  | Blob _ => BlobTxType
  | SetCodeT _ => SetCodeTxType
  | AA _ => AATxType
  | FrameT _ => FrameTxType
  | PQ _ => PQTransactionType
  | Local _ => LocalTxType
  | MultiDim _ => MultiDimFeeTxType
  end.

(** [(v - 35) / 2] is [big.Int.Div], Euclidean division. *)
Definition deriveChainID (v : option Z) : Z :=
  match v with
  | None => 0
  | Some v =>
      if (BitLen v <=? 8) && ((Uint64 v =? 27) || (Uint64 v =? 28)) then 0
      else (v - 35) / 2
  end.

Definition tx_ChainId (t : TxData) : option Z :=
  match t with
  | Legacy t => Some (deriveChainID (leg_V t))
  | AccessListT t => al_ChainID t
  | DynamicFee t => df_ChainID t
  | Blob t => bl_ChainID t
  | SetCodeT t => sc_ChainID t
  | AA t => aa_ChainID t
  | FrameT t => ft_ChainID t
  | PQ t => pq_ChainID t
  | Local t => lo_ChainID t
  | MultiDim t => md_ChainID t
  end.

Definition tx_AccessList (t : TxData) : AccessList :=
  match t with
  | Legacy _ | FrameT _ | PQ _ | Local _ => []
  | AccessListT t => al_AccessList t
  | DynamicFee t => df_AccessList t
  | Blob t => bl_AccessList t
  | SetCodeT t => sc_AccessList t
  | AA t => aa_AccessList t
  | MultiDim t => md_AccessList t
  end.

Definition tx_Data (t : TxData) : bytes :=
  match t with
  | Legacy t => leg_Data t
  | AccessListT t => al_Data t
  | DynamicFee t => df_Data t
  | Blob t => bl_Data t
  | SetCodeT t => sc_Data t
  | AA t => aa_SenderExecutionData t
  | FrameT _ => []
  | PQ t => pq_Data t
  | Local t => lo_Data t
  | MultiDim t => md_Data t
  end.

(** [CalldataTokenGas]: four tokens per non-zero byte, four gas per token. *)
Definition CalldataTokenGas (data : bytes) : Z :=
  fold_left (fun tokens b => if b =? 0 then tokens +u 1 else tokens +u 4) data 0 *u 4.

Definition FrameTxIntrinsicCost : Z := 15000.

(** A nil frame list skips the calldata part; no frame encodes to the empty
    list 0xc0 otherwise.  The model takes an empty list as nil. *)
Definition CalcFrameTxGas (t : FrameTx) : Z :=
  let gas :=
    match ft_Frames t with
    | [] => FrameTxIntrinsicCost
    | _ =>
        match encodeAs (lSlice frameRLP) (encodeFrames (ft_Frames t)) with
        | EOk encoded => FrameTxIntrinsicCost +u CalldataTokenGas encoded
        | _ => FrameTxIntrinsicCost
        end
    end in
  fold_left (fun gas f => gas +u fr_GasLimit f) (ft_Frames t) gas.

Definition AABaseCost : Z := 15000.

Definition aa_totalGas (t : AATx) : Z :=
  AABaseCost +u aa_SenderValidationGas t +u aa_PaymasterValidationGas t
  +u aa_SenderExecutionGas t +u aa_PaymasterPostOpGas t.

Definition tx_Gas (t : TxData) : Z :=
  match t with
  | Legacy t => leg_Gas t
  | AccessListT t => al_Gas t
  | DynamicFee t => df_Gas t
  | Blob t => bl_Gas t
  | SetCodeT t => sc_Gas t
  | AA t => aa_totalGas t
  | FrameT t => CalcFrameTxGas t
  | PQ t => pq_Gas t
  | Local t => lo_Gas t
  | MultiDim t => md_GasLimit t
  end.

Definition tx_GasPrice (t : TxData) : option Z :=
  match t with
  | Legacy t => leg_GasPrice t
  | AccessListT t => al_GasPrice t
  | DynamicFee t => df_GasFeeCap t
  | Blob t => bl_GasFeeCap t
  | SetCodeT t => sc_GasFeeCap t
  | AA t => aa_MaxFeePerGas t
  | FrameT t => ft_MaxFeePerGas t
  | PQ t => pq_GasPrice t
  | Local t => lo_GasFeeCap t
  | MultiDim t => Some (bigOrZero (md_MaxFeesPerGas t).1.1)
  end.

Definition tx_GasTipCap (t : TxData) : option Z :=
  match t with
  | Legacy t => leg_GasPrice t
  | AccessListT t => al_GasPrice t
  | DynamicFee t => df_GasTipCap t
  | Blob t => bl_GasTipCap t
  | SetCodeT t => sc_GasTipCap t
  | AA t => aa_MaxPriorityFeePerGas t
  | FrameT t => ft_MaxPriorityFeePerGas t
  | PQ t => pq_GasPrice t
  | Local t => lo_GasTipCap t
  | MultiDim t => Some (bigOrZero (md_PriorityFeesPerGas t).1.1)
  end.

(** Every payload type returns its gas price here. *)
Definition tx_GasFeeCap (t : TxData) : option Z := tx_GasPrice t.

Definition tx_Value (t : TxData) : option Z :=
  match t with
  | Legacy t => leg_Value t
  | AccessListT t => al_Value t
  | DynamicFee t => df_Value t
  | Blob t => bl_Value t
  | SetCodeT t => sc_Value t
  | AA _ | FrameT _ => Some 0
  | PQ t => pq_Value t
  | Local t => lo_Value t
  | MultiDim t => md_Value t
  end.

(** [FrameTx.NonceSeq]: the low 64 bits of the two-dimensional nonce. *)
Definition NonceSeq (t : FrameTx) : Z :=
  match ft_Nonce t with
  | None => 0
  | Some n => Uint64 (Z.land n (2 ^ 64 - 1))
  end.

Definition tx_Nonce (t : TxData) : Z :=
  match t with
  | Legacy t => leg_Nonce t
  | AccessListT t => al_Nonce t
  | DynamicFee t => df_Nonce t
  | Blob t => bl_Nonce t
  | SetCodeT t => sc_Nonce t
  | AA t => aa_Nonce t
  | FrameT t => NonceSeq t
  | PQ t => pq_Nonce t
  | Local t => lo_Nonce t
  | MultiDim t => md_Nonce t
  end.

Definition tx_To (t : TxData) : option Address :=
  match t with
  | Legacy t => leg_To t
  | AccessListT t => al_To t
  | DynamicFee t => df_To t
  | Blob t => Some (bl_To t)
  | SetCodeT t => Some (sc_To t)
  | AA t => Some (aa_Sender t)
  | FrameT _ => None
  | PQ t => pq_To t
  | Local t => lo_To t
  | MultiDim t => md_To t
  end.

Definition AuthorizationList (t : TxData) : list Authorization :=
  match t with SetCodeT s => sc_AuthorizationList s | _ => [] end.

Definition tx_BlobHashes (t : TxData) : list Hash :=
  match t with Blob b => bl_BlobHashes b | _ => [] end.

Definition tx_Frames (t : TxData) : list TxFrame :=
  match t with FrameT f => ft_Frames f | _ => [] end.

Definition FrameSender (t : TxData) : Address :=
  match t with FrameT f => ft_Sender f | _ => 0 end.

Definition BlobGas (t : TxData) : Z :=
  match t with Blob b => u64 (zlen (bl_BlobHashes b)) *u 131072 | _ => 0 end.

Definition RawSignatureValues (t : TxData) : option Z * option Z * option Z :=
  match t with
  | Legacy t => (leg_V t, leg_R t, leg_S t)
  | AccessListT t => (al_V t, al_R t, al_S t)
  | DynamicFee t => (df_V t, df_R t, df_S t)
  | Blob t => (bl_V t, bl_R t, bl_S t)
  | SetCodeT t => (sc_V t, sc_R t, sc_S t)
  | _ => (None, None, None)
  end.

(** local_tx.go: the gas limit after the discount for declared scopes. *)
Definition LocalTxDiscountBPS : Z := 5000.

Definition GasWithDiscount (t : LocalTx) (discountBPS : Z) : Z :=
  if discountBPS =? 0 then lo_Gas t
  else if discountBPS >=? 10000 then 0
  else (lo_Gas t *u (10000 -u discountBPS)) / 10000.

Definition ApplyLocalTxDiscount (t : TxData) : Z :=
  match t with Local l => GasWithDiscount l LocalTxDiscountBPS | _ => tx_Gas t end.

(** ** Signed bytes

    What [SigningHash] hashes.  [enc] is the encoder whose error is
    dropped: [b, _ := rlp.EncodeToBytes(v)]. *)

Definition enc (v : gval) : bytes := match EncodeToBytes v with EOk b => b | _ => [] end.

(** [interface{}] arguments: a *big.Int that may be nil, a uint64, bytes. *)
Definition gBig (o : option Z) : gval := lval lBigPtr o.

Definition encodeUnsignedFields (vals : list gval) : bytes := concat (map enc vals).

Definition encodeHashList (hashes : list Hash) : bytes :=
  WrapList (concat (map (fun h => enc (GBytes (be_bytes 32 h))) hashes)).

Definition encodeAccessListBytes (l : AccessList) : bytes :=
  WrapList (concat (map (fun t =>
    WrapList (enc (GBytes (be_bytes 20 (at_Address t))) ++ encodeHashList (at_StorageKeys t))) l)).

Definition encodeAuthListBytes (l : list Authorization) : bytes :=
  WrapList (concat (map (fun a =>
    WrapList (enc (gBig (au_ChainID a)) ++ enc (GBytes (be_bytes 20 (au_Address a))) ++
              enc (GUint (au_Nonce a)) ++ enc (gBig (Some (bigOrZero (au_V a)))) ++
              enc (gBig (Some (bigOrZero (au_R a)))) ++ enc (gBig (Some (bigOrZero (au_S a)))))) l)).

Definition signing_legacy (t : LegacyTx) : bytes :=
  let chainID := deriveChainID (leg_V t) in
  WrapList (encodeUnsignedFields
    ([GUint (leg_Nonce t); gBig (leg_GasPrice t); GUint (leg_Gas t);
      GBytes (addressPtrToBytes (leg_To t)); gBig (leg_Value t); GBytes (leg_Data t)] ++
     (if Z.sgn chainID >? 0 then [gBig (Some chainID); GUint 0; GUint 0] else []))).

Definition signing_accessList (t : AccessListTx) : bytes :=
  encodeUnsignedFields
    [gBig (al_ChainID t); GUint (al_Nonce t); gBig (al_GasPrice t); GUint (al_Gas t);
     GBytes (addressPtrToBytes (al_To t)); gBig (al_Value t); GBytes (al_Data t)] ++
  encodeAccessListBytes (al_AccessList t).

Definition signing_dynamicFee (t : DynamicFeeTx) : bytes :=
  encodeUnsignedFields
    [gBig (df_ChainID t); GUint (df_Nonce t); gBig (df_GasTipCap t); gBig (df_GasFeeCap t);
     GUint (df_Gas t); GBytes (addressPtrToBytes (df_To t)); gBig (df_Value t); GBytes (df_Data t)] ++
  encodeAccessListBytes (df_AccessList t).

Definition signing_blob (t : BlobTx) : bytes :=
  encodeUnsignedFields
    [gBig (bl_ChainID t); GUint (bl_Nonce t); gBig (bl_GasTipCap t); gBig (bl_GasFeeCap t);
     GUint (bl_Gas t); GBytes (be_bytes 20 (bl_To t)); gBig (bl_Value t); GBytes (bl_Data t)] ++
  encodeAccessListBytes (bl_AccessList t) ++
  enc (gBig (bl_BlobFeeCap t)) ++ encodeHashList (bl_BlobHashes t).

Definition signing_setCode (t : SetCodeTx) : bytes :=
  encodeUnsignedFields
    [gBig (sc_ChainID t); GUint (sc_Nonce t); gBig (sc_GasTipCap t); gBig (sc_GasFeeCap t);
     GUint (sc_Gas t); GBytes (be_bytes 20 (sc_To t)); gBig (sc_Value t); GBytes (sc_Data t)] ++
  encodeAccessListBytes (sc_AccessList t) ++ encodeAuthListBytes (sc_AuthorizationList t).

(** [typedSigningHash] hashes the type byte and the wrapped fields. *)
Definition typed_signing (ty : Z) (payload : bytes) : bytes := ty :: WrapList payload.

(** [ComputeFrameSigHash]: the data of VERIFY frames is left out. *)
Definition ModeDefault : Z := 0.
Definition ModeVerify : Z := 1.
Definition ModeSender : Z := 2.

Definition elide (f : TxFrame) : TxFrame :=
  if fr_Mode f =? ModeVerify then mkTxFrame (fr_Mode f) (fr_Target f) (fr_GasLimit f) [] else f.

Definition signing_frame (t : FrameTx) : option bytes :=
  match encodeAs frameTxRLP
    ⟪ bigOrZero (ft_ChainID t) ; bigOrZero (ft_Nonce t) ; ft_Sender t ;
      encodeFrames (map elide (ft_Frames t)) ;
      bigOrZero (ft_MaxPriorityFeePerGas t) ; bigOrZero (ft_MaxFeePerGas t) ;
      bigOrZero (ft_MaxFeePerBlobGas t) ; ft_BlobVersionedHashes t ⟫ with
  | EOk payload => Some (FrameTxType :: payload)
  | _ => None
  end.

(** [pqRealSigningHash] (pq_tx_validator.go): the fields without lengths. *)
Definition big_bytes (o : option Z) : bytes := match o with Some z => Bytes z | None => [] end.

Definition signing_pq (t : PQTransaction) : bytes :=
  big_bytes (pq_ChainID t) ++ be_bytes 8 (pq_Nonce t) ++ addressPtrToBytes (pq_To t) ++
  big_bytes (pq_Value t) ++ be_bytes 8 (pq_Gas t) ++ big_bytes (pq_GasPrice t) ++ pq_Data t.

(** The bytes hashed by [SigningHash]; [None] is the zero hash. *)
Definition signing_data (t : TxData) : option bytes :=
  match t with
  | Legacy t => Some (signing_legacy t)
  | AccessListT t => Some (typed_signing AccessListTxType (signing_accessList t))
  | DynamicFee t => Some (typed_signing DynamicFeeTxType (signing_dynamicFee t))
  | Blob t => Some (typed_signing BlobTxType (signing_blob t))
  | SetCodeT t => Some (typed_signing SetCodeTxType (signing_setCode t))
  | FrameT t => signing_frame t
  | PQ t => Some (signing_pq t)
  | AA _ | Local _ | MultiDim _ => None
  end.

Definition SigningHash (keccak256 : bytes -> bytes) (t : TxData) : Hash :=
  match signing_data t with
  | Some b => SetBytes (keccak256 b)
  | None => 0
  end.

(** [Transaction.Hash] *)
Definition tx_Hash (keccak256 : bytes -> bytes) (t : TxData) : Hash :=
  match EncodeRLP t with
  | EOk b => SetBytes (keccak256 b)
  | _ => 0
  end.
