(* ===== verification/TxProofs.v ===== *)
(** * TxProofs: transaction encodings are faithful

    Decoding inverts encoding for every transaction type that the decoder
    knows, and the signed bytes determine what is signed. *)

From S2P Require Import Prelude Rlp RlpProofs StateDB Transactions.

(** ** Laws of layouts *)

(** [ldom]: the values a layout represents faithfully. *)
Class LayoutLaws {A} (l : layout A) := {
  ldom : A -> Prop;
  lay_wt : forall a, ldom a -> wt (lty l) (lval l a);
  lay_get : forall a, ldom a -> lget l (lval l a) = Some a;
}.
Arguments ldom {A} l {_} _.

Class FieldLaws {A} (f : fields A) := {
  fdom : A -> Prop;
  fld_wt : forall a, fdom a -> Forall2 wt_field (ftys f) (fvals f a);
  fld_get : forall a, fdom a -> fget f (fvals f a) = Some a;
  fld_exported : forall a, Forall (fun p => p.1 = true) (fvals f a);
}.
Arguments fdom {A} f {_} _.

#[export] Instance lUint64_laws : LayoutLaws lUint64.
Proof. refine {| ldom := is_u64 : Z -> Prop |}; [|done]. unfold is_u64. intros. constructor; lia. Defined.

#[export] Instance lUint8_laws : LayoutLaws lUint8.
Proof. refine {| ldom := is_byte : Z -> Prop |}; [|done]. unfold is_byte. intros. constructor; lia. Defined.

#[export] Instance lBig_laws : LayoutLaws lBig.
Proof. refine {| ldom := fun z : Z => 0 <= z |}; [|done]. intros. by repeat constructor. Defined.

#[export] Instance lBigPtr_laws : LayoutLaws lBigPtr.
Proof.
  refine {| ldom := fun o : option Z => exists z, o = Some z /\ 0 <= z |}.
  - intros ? (z & -> & Hz). by repeat constructor.
  - by intros ? (z & -> & Hz).
Defined.

#[export] Instance lBytes_laws : LayoutLaws lBytes.
Proof. refine {| ldom := fun _ : bytes => True |}; [|done]. intros. constructor. Defined.

#[export] Instance lFixed_laws n : LayoutLaws (lFixed n).
Proof.
  refine {| ldom := fun a : Z => 0 <= a < 256 ^ Z.of_nat n |}.
  - intros a _. cbn [lFixed lty lval]. pose proof (wt_bytearray (be_bytes n a)) as W.
    by rewrite length_be_bytes in W.
  - intros a Ha. cbn [lFixed lget lval]. by rewrite SetBytes_be_bytes_small.
Defined.

#[export] Instance lSlice_laws {A} (l : layout A) `{!LayoutLaws l} : LayoutLaws (lSlice l).
Proof.
  refine {| ldom := Forall (ldom l) |}.
  - intros xs H. constructor. apply Forall_map. eapply Forall_impl; [exact H|]. apply lay_wt.
  - intros xs H. cbn [lSlice lget lval]. induction H as [|x xs Hx _ IH]; [done|].
    simpl. by rewrite (lay_get x Hx), IH.
Defined.

#[export] Instance fnil_laws : FieldLaws fnil.
Proof. refine {| fdom := fun _ : unit => True |}; [constructor|by intros []|constructor]. Defined.

#[export] Instance fcons_laws {A B} (l : layout A) (f : fields B) `{!LayoutLaws l, !FieldLaws f} :
  FieldLaws (fcons l f).
Proof.
  refine {| fdom := fun p : A * B => ldom l p.1 /\ fdom f p.2 |}.
  - intros [a b] [Ha Hb]. constructor; [|by apply fld_wt]. constructor. by apply lay_wt.
  - intros [a b] [Ha Hb]. cbn [fcons fget fvals fst snd]. simpl in Ha, Hb.
    by rewrite (lay_get a Ha), (fld_get b Hb).
  - intros [a b]. constructor; [done|apply fld_exported].
Defined.

#[export] Instance lStruct_laws {A} (f : fields A) `{!FieldLaws f} : LayoutLaws (lStruct f).
Proof.
  refine {| ldom := fdom f |}.
  - intros a H. constructor. by apply fld_wt.
  - intros a H. by apply fld_get.
Defined.

(** Encoding a represented value succeeds, and decoding it, with whatever
    bytes following, gives it back. *)
Lemma decodeAs_encodeAs {A} (l : layout A) `{!LayoutLaws l} a :
  ldom l a -> exists enc, encodeAs l a = EOk enc /\
    exists n, forall fuel rest, (n <= fuel)%nat -> zlen (enc ++ rest) < 2 ^ 63 ->
      decodeAs l fuel (enc ++ rest) = TOk a.
Proof.
  intros H. pose proof (lay_wt a H) as W.
  destruct (DecodeBytes_wt _ _ _ W (Nat.le_refl _)) as (enc & E & _).
  exists enc. split; [done|]. exists (vsize (lval l a)). intros fuel rest Hf Hr.
  destruct (DecodeBytes_wt _ _ fuel W Hf) as (enc' & E' & D). rewrite E in E'. injection E' as <-.
  unfold decodeAs. rewrite D by done. by rewrite (lay_get a H).
Qed.

Lemma decodeAs_encodeAs_all {A} (l : layout A) `{!LayoutLaws l} a :
  ldom l a -> exists enc, encodeAs l a = EOk enc /\
    (zlen enc < 2 ^ 63 -> exists n, forall fuel, (n <= fuel)%nat -> decodeAs l fuel enc = TOk a).
Proof.
  intros H. destruct (decodeAs_encodeAs l a H) as (enc & E & n & D). exists enc. split; [done|].
  intros Hr. exists n. intros fuel Hf. specialize (D fuel [] Hf). rewrite app_nil_r in D. auto.
Qed.

(** A struct encodes to a list. *)
Lemma encodeAs_struct {A} (f : fields A) a b :
  encodeAs (lStruct f) a = EOk b -> exists p, b = wrapList p.
Proof.
  unfold encodeAs, EncodeToBytes. cbn [lStruct lval encodeValue].
  destruct (concat_enc _); simpl; [|done..]. intros [= <-]. by eexists.
Qed.

Lemma wrapList_head p : zlen (wrapList p) < 2 ^ 63 -> exists h r, wrapList p = h :: r /\ 192 <= h.
Proof.
  intros H. assert (zlen p < 2 ^ 63) as Hp by (pose proof (zlen_le_wrapList p); lia).
  destruct (wrapList_form p Hp) as [[? ->]|[? ->]]; eexists _, _; (split; [done|]).
  - pose proof (zlen_nonneg p). lia.
  - pose proof (zlen_nonneg (Bytes (zlen p))). lia.
Qed.

(** ** The transaction codec *)

(** Field values that Go's types admit (big integers may not be negative:
    RLP does not encode a sign). *)
Definition is_Address (a : Z) : Prop := 0 <= a < 2 ^ 160.
Definition is_Hash (h : Z) : Prop := 0 <= h < 2 ^ 256.
Definition ok_big (o : option Z) : Prop := 0 <= bigOrZero o.
Definition ok_to (o : option Address) : Prop := match o with Some a => is_Address a | None => True end.
Definition ok_tuple (t : AccessTuple) : Prop := is_Address (at_Address t) /\ Forall is_Hash (at_StorageKeys t).
Definition ok_auth (a : Authorization) : Prop :=
  ok_big (au_ChainID a) /\ is_Address (au_Address a) /\ is_u64 (au_Nonce a) /\
  ok_big (au_V a) /\ ok_big (au_R a) /\ ok_big (au_S a).
Definition ok_frame (f : TxFrame) : Prop := is_byte (fr_Mode f) /\ ok_to (fr_Target f) /\ is_u64 (fr_GasLimit f).
Definition ok_bigs (l : list (option Z)) : Prop := Forall ok_big l.
Definition ok_u64s (l : list Z) : Prop := Forall is_u64 l.

Definition tx_ok (t : TxData) : Prop :=
  match t with
  | Legacy t =>
      ok_u64s [leg_Nonce t; leg_Gas t] /\ ok_to (leg_To t) /\
      ok_bigs [leg_GasPrice t; leg_Value t; leg_V t; leg_R t; leg_S t]
  | AccessListT t =>
      ok_u64s [al_Nonce t; al_Gas t] /\ ok_to (al_To t) /\ Forall ok_tuple (al_AccessList t) /\
      ok_bigs [al_ChainID t; al_GasPrice t; al_Value t; al_V t; al_R t; al_S t]
  | DynamicFee t =>
      ok_u64s [df_Nonce t; df_Gas t] /\ ok_to (df_To t) /\ Forall ok_tuple (df_AccessList t) /\
      ok_bigs [df_ChainID t; df_GasTipCap t; df_GasFeeCap t; df_Value t; df_V t; df_R t; df_S t]
  | Blob t =>
      ok_u64s [bl_Nonce t; bl_Gas t] /\ is_Address (bl_To t) /\ Forall ok_tuple (bl_AccessList t) /\
      Forall is_Hash (bl_BlobHashes t) /\
      ok_bigs [bl_ChainID t; bl_GasTipCap t; bl_GasFeeCap t; bl_Value t; bl_BlobFeeCap t; bl_V t; bl_R t; bl_S t]
  | SetCodeT t =>
      ok_u64s [sc_Nonce t; sc_Gas t] /\ is_Address (sc_To t) /\ Forall ok_tuple (sc_AccessList t) /\
      Forall ok_auth (sc_AuthorizationList t) /\
      ok_bigs [sc_ChainID t; sc_GasTipCap t; sc_GasFeeCap t; sc_Value t; sc_V t; sc_R t; sc_S t]
  | AA t =>
      ok_u64s [aa_Nonce t; aa_SenderValidationGas t; aa_PaymasterValidationGas t; aa_SenderExecutionGas t;
               aa_PaymasterPostOpGas t] /\
      is_Address (aa_Sender t) /\ ok_to (aa_Deployer t) /\ ok_to (aa_Paymaster t) /\
      Forall ok_tuple (aa_AccessList t) /\ Forall ok_auth (aa_AuthorizationList t) /\
      ok_bigs [aa_ChainID t; aa_MaxPriorityFeePerGas t; aa_MaxFeePerGas t]
  | FrameT t =>
      is_Address (ft_Sender t) /\ Forall ok_frame (ft_Frames t) /\ Forall is_Hash (ft_BlobVersionedHashes t) /\
      ok_bigs [ft_ChainID t; ft_Nonce t; ft_MaxPriorityFeePerGas t; ft_MaxFeePerGas t; ft_MaxFeePerBlobGas t]
  | PQ t =>
      ok_u64s [pq_Nonce t; pq_Gas t] /\ ok_to (pq_To t) /\ is_byte (pq_SignatureType t) /\
      ok_bigs [pq_ChainID t; pq_Value t; pq_GasPrice t]
  | Local t =>
      ok_u64s [lo_Nonce t; lo_Gas t] /\ ok_to (lo_To t) /\
      ok_bigs [lo_ChainID t; lo_GasTipCap t; lo_GasFeeCap t; lo_Value t]
  | MultiDim t =>
      ok_u64s [md_Nonce t; md_GasLimit t] /\ ok_to (md_To t) /\ Forall ok_tuple (md_AccessList t) /\
      ok_bigs ([md_ChainID t; md_Value t; md_V t; md_R t; md_S t] ++
               vec3 (md_MaxFeesPerGas t) ++ vec3 (md_PriorityFeesPerGas t))
  end.

(** Nil big integers come back as zero. *)
Definition set0 (o : option Z) : option Z := Some (bigOrZero o).
Definition norm_auth (a : Authorization) : Authorization :=
  mkAuth (set0 (au_ChainID a)) (au_Address a) (au_Nonce a) (set0 (au_V a)) (set0 (au_R a)) (set0 (au_S a)).
Definition map3 {A} (f : A -> A) (v : A * A * A) : A * A * A := let '(a, b, c) := v in (f a, f b, f c).

Definition norm (t : TxData) : TxData :=
  match t with
  | Legacy (mkLegacyTx n gp g to v d sv sr ss) =>
      Legacy (mkLegacyTx n (set0 gp) g to (set0 v) d (set0 sv) (set0 sr) (set0 ss))
  | AccessListT (mkAccessListTx c n gp g to v d al sv sr ss) =>
      AccessListT (mkAccessListTx (set0 c) n (set0 gp) g to (set0 v) d al (set0 sv) (set0 sr) (set0 ss))
  | DynamicFee (mkDynamicFeeTx c n tip cap g to v d al sv sr ss) =>
      DynamicFee (mkDynamicFeeTx (set0 c) n (set0 tip) (set0 cap) g to (set0 v) d al (set0 sv) (set0 sr) (set0 ss))
  | Blob (mkBlobTx c n tip cap g to v d al bf bh sv sr ss) =>
      Blob (mkBlobTx (set0 c) n (set0 tip) (set0 cap) g to (set0 v) d al (set0 bf) bh (set0 sv) (set0 sr) (set0 ss))
  | SetCodeT (mkSetCodeTx c n tip cap g to v d al auths sv sr ss) =>
      SetCodeT (mkSetCodeTx (set0 c) n (set0 tip) (set0 cap) g to (set0 v) d al (map norm_auth auths)
                  (set0 sv) (set0 sr) (set0 ss))
  | AA (mkAATx c n se d1 de d2 pm d3 d4 tip cap g1 g2 g3 g4 al auths) =>
      AA (mkAATx (set0 c) n se d1 de d2 pm d3 d4 (set0 tip) (set0 cap) g1 g2 g3 g4 al (map norm_auth auths))
  | FrameT (mkFrameTx c n se fs tip cap bf bh) =>
      FrameT (mkFrameTx (set0 c) (set0 n) se fs (set0 tip) (set0 cap) (set0 bf) bh)
  | PQ (mkPQTx c n to v g gp d st sg pk cs) => PQ (mkPQTx (set0 c) n to (set0 v) g (set0 gp) d st sg pk cs)
  | Local (mkLocalTx c n tip cap g to v d sh) =>
      Local (mkLocalTx (set0 c) n (set0 tip) (set0 cap) g to (set0 v) d sh)
  | MultiDim (mkMultiDimFeeTx c n g to v d al mf pf sv sr ss) =>
      MultiDim (mkMultiDimFeeTx (set0 c) n g to (set0 v) d al (map3 set0 mf) (map3 set0 pf)
                  (set0 sv) (set0 sr) (set0 ss))
  end.

Lemma is_Address_dom a : is_Address a -> ldom lAddress a.
Proof. done. Qed.

Lemma is_Hash_dom h : is_Hash h -> ldom lHash h.
Proof. done. Qed.

Lemma hashes_dom l : Forall is_Hash l -> ldom (lSlice lHash) l.
Proof. done. Qed.

Lemma address_roundtrip o : ok_to o -> bytesToAddressPtr (addressPtrToBytes o) = o.
Proof.
  destruct o as [a|]; [|done]. intros Ha. unfold addressPtrToBytes, bytesToAddressPtr, BytesToAddress.
  rewrite SetBytes_be_bytes_small by exact Ha. pose proof (length_be_bytes 20 a) as L.
  destruct (be_bytes 20 a); [done|]. by rewrite Z.mod_small.
Qed.

Lemma accessList_roundtrip al : decodeAccessList (encodeAccessList al) = al.
Proof. unfold decodeAccessList, encodeAccessList. rewrite map_map. induction al as [|[] al IH]; simpl; by f_equal. Qed.

Lemma accessList_dom al : Forall ok_tuple al -> ldom (lSlice accessTupleRLP) (encodeAccessList al).
Proof.
  intros H. apply Forall_map. eapply Forall_impl; [exact H|]. intros t [Ha Hk]. repeat split; auto; apply Ha.
Qed.

Lemma authList_roundtrip l : decodeAuthList (encodeAuthList l) = map norm_auth l.
Proof. unfold decodeAuthList, encodeAuthList. rewrite map_map. by apply map_ext. Qed.

Lemma authList_dom l : Forall ok_auth l -> ldom (lSlice authorizationRLP) (encodeAuthList l).
Proof.
  intros H. apply Forall_map. eapply Forall_impl; [exact H|].
  intros a (Hc & Ha & Hn & Hv & Hr & Hs). repeat split; auto; first [apply Ha|apply Hn].
Qed.

Lemma frames_roundtrip l : Forall ok_frame l -> decodeFrames (encodeFrames l) = l.
Proof.
  unfold decodeFrames, encodeFrames. rewrite map_map. induction 1 as [|[m t g d] l (_ & Ht & _) _ IH]; simpl; [done|].
  simpl in Ht. rewrite (address_roundtrip t Ht). by f_equal.
Qed.

Lemma frames_dom l : Forall ok_frame l -> ldom (lSlice frameRLP) (encodeFrames l).
Proof.
  intros H. apply Forall_map. eapply Forall_impl; [exact H|].
  intros f (Hm & Ht & Hg). repeat split; auto; first [apply Hm|apply Hg].
Qed.

(** An encoding that starts with a type byte: it suffices that the decoder
    of that type rebuilds the transaction from its fields. *)
Lemma typed_roundtrip {A} (f : fields A) `{!FieldLaws f} a ty t :
  ldom (lStruct f) a -> 0 < ty <= 127 ->
  (forall fuel x r, decodeAs (lStruct f) fuel (x :: r) = TOk a ->
     decodeTypedTx fuel ty (x :: r) = TOk (NewTransaction t)) ->
  exists enc, envelope ty (encodeAs (lStruct f) a) = EOk enc /\
    (zlen enc < 2 ^ 63 ->
     exists n, forall fuel, (n <= fuel)%nat -> DecodeTxRLP fuel enc = TOk (NewTransaction t)).
Proof.
  intros Ha Hty Hdec. destruct (decodeAs_encodeAs_all _ a Ha) as (enc & E & D).
  exists (ty :: enc). rewrite E. split; [done|]. intros Hl. rewrite zlen_cons in Hl.
  destruct (encodeAs_struct f a enc E) as [p ->].
  destruct (wrapList_head p ltac:(lia)) as (h & r & Er & _).
  destruct (D ltac:(lia)) as [n Dn]. exists n. intros fuel Hf. specialize (Dn fuel Hf).
  cbn [DecodeTxRLP]. destruct (Z.leb_spec ty 0x7f); [|lia]. destruct (Z.eqb_spec ty 0); [lia|].
  cbn [andb negb]. rewrite Er in *. by apply Hdec.
Qed.

Lemma legacy_roundtrip a t :
  ldom legacyTxRLP a ->
  (forall fuel d, decodeAs legacyTxRLP fuel d = TOk a -> decodeLegacyTx fuel d = TOk (NewTransaction t)) ->
  exists enc, encodeAs legacyTxRLP a = EOk enc /\
    (zlen enc < 2 ^ 63 ->
     exists n, forall fuel, (n <= fuel)%nat -> DecodeTxRLP fuel enc = TOk (NewTransaction t)).
Proof.
  intros Ha Hdec. destruct (decodeAs_encodeAs_all _ a Ha) as (enc & E & D).
  exists enc. split; [done|]. intros Hl. destruct (encodeAs_struct _ a enc E) as [p ->].
  destruct (wrapList_head p Hl) as (h & r & Er & Hh). destruct (D Hl) as [n Dn].
  exists n. intros fuel Hf. specialize (Dn fuel Hf). rewrite Er in *. cbn [DecodeTxRLP].
  destruct (Z.leb_spec h 0x7f); [lia|]. destruct (Z.geb_spec h 0xc0); [|lia]. cbn [andb]. by apply Hdec.
Qed.

Ltac tx_fields :=
  repeat match goal with
  | H : ok_bigs _ |- _ => unfold ok_bigs in H; rewrite ?Forall_cons in H
  | H : ok_u64s _ |- _ => unfold ok_u64s in H; rewrite ?Forall_cons in H
  | H : _ /\ _ |- _ => destruct H
  end.

Ltac tx_dom :=
  repeat split; cbn [fst snd];
  first [assumption | by apply accessList_dom | by apply authList_dom | by apply frames_dom
        | match goal with H : is_u64 ?x |- _ => apply H end
        | match goal with H : is_Address ?x |- _ => apply H end
        | match goal with H : is_byte ?x |- _ => apply H end
        | eexists; split; [reflexivity | assumption]
        | repeat (apply Forall_cons_2; [eexists; split; [reflexivity | assumption]|]); apply Forall_nil_2].

Ltac tx_decode :=
  intros fuel x r E; unfold decodeTypedTx;
  cbn [Z.eqb Pos.eqb AccessListTxType DynamicFeeTxType BlobTxType SetCodeTxType AATxType FrameTxType
       PQTransactionType MultiDimFeeTxType];
  unfold decodeAccessListTx, decodeDynamicFeeTx, decodeBlobTxFull, decodeSetCodeTx, DecodeAATx, DecodeFrameTx,
    decodePQFromPayload, DecodeMultiDimFeeTx, accessListTxRLP, dynamicFeeTxRLP, blobTxRLP, setCodeTxRLP, aaTxRLP,
    frameTxRLP, pqTxRLP, multiDimFeeTxRLP;
  rewrite E; cbn [tbind]; unfold wrap, NewTransaction, blobTx_tuple, set0; cbv beta iota;
  rewrite ?address_roundtrip, ?accessList_roundtrip, ?authList_roundtrip, ?frames_roundtrip by assumption;
  reflexivity.

Ltac tx_typed :=
  unfold EncodeRLP, encodeTypedTx, encode_accessListTx, encode_dynamicFeeTx, encode_blobTx, encode_setCodeTx,
    encode_aaTx, EncodeFrameTx, EncodePQ, MultiDim_EncodeRLP, accessListTxRLP, dynamicFeeTxRLP, blobTxRLP,
    setCodeTxRLP, aaTxRLP, frameTxRLP, pqTxRLP, multiDimFeeTxRLP;
  apply (typed_roundtrip _); [tx_dom | done | tx_decode].

(** A nil integer is encoded as zero. *)
Lemma encodeValue_set0 o : encodeValue (lval lBigPtr (set0 o)) = encodeValue (lval lBigPtr o).
Proof. by destruct o. Qed.

Lemma multiDim_norm t : EncodeRLP (norm (MultiDim t)) = EncodeRLP (MultiDim t).
Proof.
  destruct t as [c n g to v d al [[m0 m1] m2] [[p0 p1] p2] sv sr ss].
  unfold EncodeRLP, norm, MultiDim_EncodeRLP, encodeAs, EncodeToBytes.
  cbn [multiDimFeeTxRLP lStruct lval fcons fvals fnil fst snd lSlice map3 vec3 map encodeValue
       md_ChainID md_Nonce md_GasLimit md_To md_Value md_Data md_AccessList md_MaxFeesPerGas md_PriorityFeesPerGas
       md_V md_R md_S].
  by rewrite !encodeValue_set0.
Qed.

Lemma local_undecodable t :
  tx_ok (Local t) -> exists enc, encodeLocalTx t = EOk enc /\
    forall fuel, DecodeTxRLP fuel enc = TErr.
Proof.
  destruct t. intros Ht. simpl in Ht. tx_fields. unfold encodeLocalTx, localTxRLP.
  match goal with |- context [encodeAs ?l ?a] =>
    destruct (decodeAs_encodeAs_all l a) as (enc & E & _); [tx_dom|rewrite E] end.
  eexists. split; [done|]. intros fuel. by destruct enc.
Qed.

Lemma tx_roundtrip t :
  tx_ok t ->
  exists enc, EncodeRLP t = EOk enc /\
    (zlen enc < 2 ^ 63 ->
     exists n, forall fuel, (n <= fuel)%nat ->
       DecodeTxRLP fuel enc = match t with Local _ => TErr | _ => TOk (NewTransaction (norm t)) end).
Proof.
  destruct t as [[]|[]|[]|[]|[]|[]|[]|[]|l|[]]; intros Ht;
    match type of Ht with tx_ok (Local _) => idtac | _ => simpl in Ht; tx_fields end.
  - apply legacy_roundtrip; [tx_dom|]. intros fuel d E. unfold decodeLegacyTx. rewrite E. simpl. by rewrite address_roundtrip.
  - tx_typed.
  - tx_typed.
  - tx_typed.
  - tx_typed.
  - tx_typed.
  - tx_typed.
  - tx_typed.
  - destruct (local_undecodable l Ht) as (enc & E & D). exists enc. split; [done|]. exists 0%nat. auto.
  - destruct md_MaxFeesPerGas as [[m0 m1] m2], md_PriorityFeesPerGas as [[p0 p1] p2].
    rewrite <- multiDim_norm. cbn [norm map3 vec3 app] in *. rewrite !Forall_cons in *. tx_fields. tx_typed.
Qed.

(** C33. Every transaction whose fields are in range has an encoding, and the
    decoder gives the transaction back from it (nil integers as zero), for
    all ten types but one: the encoding of a [LocalTx], type 0x08, is
    rejected by the decoder. *)
Theorem DecodeTxRLP_EncodeRLP t :
  tx_ok t ->
  exists enc, EncodeRLP t = EOk enc /\
    (zlen enc < 2 ^ 63 ->
     exists n, forall fuel, (n <= fuel)%nat ->
       DecodeTxRLP fuel enc = match t with Local _ => TErr | _ => TOk (NewTransaction (norm t)) end).
Proof. apply tx_roundtrip. Qed.

(** A dynamic fee transaction with an access list. *)
Definition w_tx : TxData :=
  DynamicFee (mkDynamicFeeTx (Some 1) 7 (Some 2) (Some 300) 21000 (Some 0xE0) None [1; 0; 255]
    [mkTuple 0xE0 [0; 5]] (Some 1) (Some (2 ^ 200)) (Some 3)).

Lemma DecodeTxRLP_EncodeRLP_witness :
  exists enc, EncodeRLP w_tx = EOk enc /\
    (zlen enc < 2 ^ 63 ->
     exists n, forall fuel, (n <= fuel)%nat -> DecodeTxRLP fuel enc = TOk (NewTransaction (norm w_tx))).
Proof.
  apply (DecodeTxRLP_EncodeRLP w_tx). unfold w_tx, tx_ok, ok_u64s, ok_bigs, is_u64, ok_big, ok_tuple, is_Hash. simpl.
  repeat first [apply Forall_cons_2 | apply Forall_nil_2 | split]; simpl; lia.
Defined.

(** ** What a signature commits to *)

(** Encodings of values of one type are prefix-free. *)
Lemma item_inj t v1 v2 b1 b2 r1 r2 :
  wt t v1 -> wt t v2 -> EncodeToBytes v1 = EOk b1 -> EncodeToBytes v2 = EOk b2 ->
  b1 ++ r1 = b2 ++ r2 -> zlen (b1 ++ r1) < 2 ^ 63 -> v1 = v2 /\ r1 = r2.
Proof.
  intros W1 W2 E1 E2 Eb Hl. set (n := Nat.max (vsize v1) (vsize v2)).
  destruct (DecodeBytes_wt t v1 n W1 ltac:(lia)) as (b1' & E1' & D1).
  destruct (DecodeBytes_wt t v2 n W2 ltac:(lia)) as (b2' & E2' & D2).
  assert (b1' = b1) as -> by congruence. assert (b2' = b2) as -> by congruence.
  specialize (D1 r1 Hl). rewrite Eb in Hl. specialize (D2 r2 Hl). rewrite Eb, D2 in D1.
  injection D1 as Ev Ez. split; [done|].
  apply (f_equal (drop (length b1))) in Eb. unfold zlen in Ez.
  rewrite drop_app_length in Eb. replace (length b1) with (length b2) in Eb by lia.
  by rewrite drop_app_length in Eb.
Qed.

Lemma enc_wt t v : wt t v -> EncodeToBytes v = EOk (enc v).
Proof.
  intros W. destruct (DecodeBytes_wt t v _ W (Nat.le_refl _)) as (b & E & _). unfold enc. by rewrite E.
Qed.

Lemma items_inj ts vs1 vs2 r1 r2 :
  Forall2 wt ts vs1 -> Forall2 wt ts vs2 ->
  encodeUnsignedFields vs1 ++ r1 = encodeUnsignedFields vs2 ++ r2 ->
  zlen (encodeUnsignedFields vs1 ++ r1) < 2 ^ 63 -> vs1 = vs2 /\ r1 = r2.
Proof.
  unfold encodeUnsignedFields. intros F1. revert vs2.
  induction F1 as [|t v1 ts vs1 W1 _ IH]; intros vs2 F2 E Hl; inversion F2 as [|? v2 ? vs2' W2 F2']; subst; [done|].
  cbn [map concat] in *. rewrite <- !app_assoc in *.
  destruct (item_inj t v1 v2 _ _ _ _ W1 W2 (enc_wt _ _ W1) (enc_wt _ _ W2) E Hl) as [-> E'].
  destruct (IH vs2' F2' E') as [-> ->]; [|done].
  rewrite zlen_app in Hl. pose proof (zlen_nonneg (enc v2)). lia.
Qed.

Lemma wrapList_inj p1 p2 : wrapList p1 = wrapList p2 -> zlen (wrapList p1) < 2 ^ 63 -> p1 = p2.
Proof.
  intros E Hl. pose proof (zlen_le_wrapList p1). pose proof (zlen_le_wrapList p2) as L2. rewrite <- E in L2.
  destruct (wrapList_form p1) as [[H1 F1]|[H1 F1]]; [lia| |];
  (destruct (wrapList_form p2) as [[H2 F2]|[H2 F2]]; [lia| |]); rewrite F1, F2 in E; injection E as Eh Et.
  - done.
  - pose proof (zlen_nonneg (Bytes (zlen p2))). pose proof (zlen_nonneg p1).
    assert (0 < zlen (Bytes (zlen p2))) by (destruct (long_length (zlen p2)) as (_ & HB & _); lia). lia.
  - pose proof (zlen_nonneg (Bytes (zlen p1))). pose proof (zlen_nonneg p2).
    assert (0 < zlen (Bytes (zlen p1))) by (destruct (long_length (zlen p1)) as (_ & HB & _); lia). lia.
  - apply (f_equal (drop (length (Bytes (zlen p1))))) in Et. rewrite drop_app_length in Et.
    replace (length (Bytes (zlen p1))) with (length (Bytes (zlen p2))) in Et by (unfold zlen in *; lia).
    by rewrite drop_app_length in Et.
Qed.

Lemma lval_inj {A} (l : layout A) `{!LayoutLaws l} a b : ldom l a -> ldom l b -> lval l a = lval l b -> a = b.
Proof. intros Ha Hb E. pose proof (lay_get a Ha) as Ga. rewrite E, (lay_get b Hb) in Ga. congruence. Qed.

(** The pieces of the signed bytes are encodings of reflected values. *)
Lemma enc_gBig o : enc (gBig o) = enc (lval lBig (bigOrZero o)).
Proof. by destruct o. Qed.

Lemma enc_slice {A} (l : layout A) xs `{!LayoutLaws l} :
  Forall (ldom l) xs -> enc (lval (lSlice l) xs) = WrapList (concat (map (fun x => enc (lval l x)) xs)).
Proof.
  intros H. unfold enc, EncodeToBytes. cbn [lSlice lval encodeValue]. rewrite map_map.
  rewrite (concat_enc_ok _ (map (fun x => enc (lval l x)) xs)); [done|].
  apply map_EOk. rewrite Forall2_fmap_r. induction H as [|x xs Hx _ IH]; constructor; [|done].
  apply (enc_wt (lty l)). by apply lay_wt.
Qed.

Lemma enc_struct {A} (f : fields A) a :
  Forall2 wt_field (ftys f) (fvals f a) -> Forall (fun p => p.1 = true) (fvals f a) ->
  enc (lval (lStruct f) a) = WrapList (encodeUnsignedFields (map snd (fvals f a))).
Proof.
  intros W Ht. unfold enc, EncodeToBytes, encodeUnsignedFields.
  cbn [lStruct lval encodeValue].
  rewrite (concat_enc_ok _ (map enc (map snd (fvals f a)))); [done|].
  apply map_EOk. rewrite map_map. revert Ht. generalize (fvals f a), (ftys f), W.
  clear. intros l ts W. induction W as [|t p ts l Wp _ IH]; intros Ht; [constructor|].
  apply Forall_cons in Ht as [Hp Ht]. constructor; [|by apply IH].
  destruct Wp as [t v Wv|]; [|done]. by apply (enc_wt t).
Qed.

Lemma encodeHashList_enc hs : Forall is_Hash hs -> encodeHashList hs = enc (lval (lSlice lHash) hs).
Proof. intros H. by rewrite (enc_slice lHash hs (hashes_dom hs H)). Qed.

Lemma encodeAccessListBytes_enc al :
  Forall ok_tuple al -> encodeAccessListBytes al = enc (lval (lSlice accessTupleRLP) (encodeAccessList al)).
Proof.
  intros H. pose proof (accessList_dom al H) as D. rewrite (enc_slice _ _ D).
  unfold encodeAccessListBytes, encodeAccessList. rewrite map_map. do 2 f_equal.
  apply map_ext_Forall. eapply Forall_impl; [exact H|]. intros t [Ha Hk]. unfold accessTupleRLP.
  rewrite enc_struct; [|apply (fld_wt (f := fcons lAddress (fcons (lSlice lHash) fnil)));
    repeat split; first [exact Hk|apply Ha]|repeat constructor].
  unfold encodeUnsignedFields. cbn [map fcons fvals fnil fst snd concat]. rewrite app_nil_r.
  by rewrite encodeHashList_enc.
Qed.

Lemma encodeAuthListBytes_enc l :
  Forall ok_auth l -> encodeAuthListBytes l = enc (lval (lSlice authorizationRLP) (encodeAuthList l)).
Proof.
  intros H. pose proof (authList_dom l H) as D. rewrite (enc_slice _ _ D).
  unfold encodeAuthListBytes, encodeAuthList. rewrite map_map. do 2 f_equal.
  apply map_ext_Forall. eapply Forall_impl; [exact H|]. intros a (Hc & Ha & Hn & Hv & Hr & Hs).
  unfold authorizationRLP.
  rewrite enc_struct; [|apply (fld_wt (f := fcons lBig (fcons lAddress (fcons lUint64 (fcons lBig (fcons lBig (fcons lBig fnil)))))));
    repeat split; first [assumption|apply Ha|apply Hn]|repeat constructor].
  unfold encodeUnsignedFields. cbn [map fcons fvals fnil fst snd concat]. by rewrite app_nil_r, enc_gBig.
Qed.

Lemma fields_inj {A} (f : fields A) `{!FieldLaws f} a1 a2 r1 r2 :
  fdom f a1 -> fdom f a2 ->
  encodeUnsignedFields (map snd (fvals f a1)) ++ r1 = encodeUnsignedFields (map snd (fvals f a2)) ++ r2 ->
  zlen (encodeUnsignedFields (map snd (fvals f a1)) ++ r1) < 2 ^ 63 -> a1 = a2 /\ r1 = r2.
Proof.
  intros H1 H2 E Hl.
  assert (forall a, fdom f a -> Forall2 wt (map snd (ftys f)) (map snd (fvals f a))) as W.
  { intros a Ha. pose proof (fld_wt a Ha) as W. pose proof (fld_exported a) as X. revert X.
    induction W as [|t v ts vs Wv _ IH]; intros X; [constructor|]. apply Forall_cons in X as [Xv X].
    simpl. constructor; [|by apply IH]. by destruct Wv. }
  destruct (items_inj _ _ _ r1 r2 (W _ H1) (W _ H2) E Hl) as [Ev ->]. split; [|done].
  assert (fvals f a1 = fvals f a2) as Ef.
  { pose proof (fld_exported a1) as X1. pose proof (fld_exported a2) as X2. revert Ev X1 X2. clear.
    generalize (fvals f a1), (fvals f a2). induction l as [|[b v] l IH]; intros [|[b' v'] l']; [done..|].
    simpl. intros [= -> E] X1 X2. apply Forall_cons in X1 as [? X1], X2 as [? X2]. simpl in *. subst.
    f_equal. by apply IH. }
  pose proof (fld_get a1 H1) as G. rewrite Ef, (fld_get a2 H2) in G. congruence.
Qed.

(** Transactions whose signature commits to their fields. *)
Definition signs_fields (t : TxData) : Prop :=
  match t with
  | Legacy _ | AccessListT _ | DynamicFee _ | Blob _ | SetCodeT _ | FrameT _ => True
  | _ => False
  end.

(** The transaction without its signature.  A legacy transaction has its
    chain in the place of [V], zero when it is not bound to one; the data
    of VERIFY frames, which holds signatures, is left out. *)
Definition signed_part (t : TxData) : TxData :=
  match norm t with
  | Legacy (mkLegacyTx n gp g to v d sv sr ss) =>
      Legacy (mkLegacyTx n gp g to v d (Some (Z.max 0 (deriveChainID sv))) None None)
  | AccessListT (mkAccessListTx c n gp g to v d al sv sr ss) =>
      AccessListT (mkAccessListTx c n gp g to v d al None None None)
  | DynamicFee (mkDynamicFeeTx c n tip cap g to v d al sv sr ss) =>
      DynamicFee (mkDynamicFeeTx c n tip cap g to v d al None None None)
  | Blob (mkBlobTx c n tip cap g to v d al bf bh sv sr ss) =>
      Blob (mkBlobTx c n tip cap g to v d al bf bh None None None)
  | SetCodeT (mkSetCodeTx c n tip cap g to v d al auths sv sr ss) =>
      SetCodeT (mkSetCodeTx c n tip cap g to v d al auths None None None)
  | FrameT (mkFrameTx c n se fs tip cap bf bh) =>
      FrameT (mkFrameTx c n se (map elide fs) tip cap bf bh)
  | t => t
  end.

(** *** The fields under the signature *)

Abbreviation fLegacy := (fcons lUint64 (fcons lBig (fcons lUint64 (fcons lBytes (fcons lBig (fcons lBytes fnil)))))).
Abbreviation fChain := (fcons lBig (fcons lUint64 (fcons lUint64 fnil))).
Abbreviation fAccess := (fcons lBig (fcons lUint64 (fcons lBig (fcons lUint64 (fcons lBytes (fcons lBig
  (fcons lBytes (fcons (lSlice accessTupleRLP) fnil)))))))).
Abbreviation fDynamic := (fcons lBig (fcons lUint64 (fcons lBig (fcons lBig (fcons lUint64 (fcons lBytes (fcons lBig
  (fcons lBytes (fcons (lSlice accessTupleRLP) fnil))))))))).
Abbreviation fBlob := (fcons lBig (fcons lUint64 (fcons lBig (fcons lBig (fcons lUint64 (fcons lAddress (fcons lBig
  (fcons lBytes (fcons (lSlice accessTupleRLP) (fcons lBig (fcons (lSlice lHash) fnil))))))))))).
Abbreviation fSetCode := (fcons lBig (fcons lUint64 (fcons lBig (fcons lBig (fcons lUint64 (fcons lAddress (fcons lBig
  (fcons lBytes (fcons (lSlice accessTupleRLP) (fcons (lSlice authorizationRLP) fnil)))))))))).

Ltac signed_fields :=
  unfold encodeUnsignedFields; cbn [map concat fcons fvals fnil fst snd app];
  rewrite ?enc_gBig, ?app_nil_r, <- ?app_assoc;
  rewrite ?encodeAccessListBytes_enc, ?encodeAuthListBytes_enc, ?encodeHashList_enc by assumption;
  reflexivity.

Lemma signing_accessList_fields t :
  Forall ok_tuple (al_AccessList t) ->
  signing_accessList t = encodeUnsignedFields (map snd (fvals fAccess
    ⟪ bigOrZero (al_ChainID t) ; al_Nonce t ; bigOrZero (al_GasPrice t) ; al_Gas t ;
      addressPtrToBytes (al_To t) ; bigOrZero (al_Value t) ; al_Data t ; encodeAccessList (al_AccessList t) ⟫)).
Proof. intros Ha. unfold signing_accessList. signed_fields. Qed.

Lemma signing_dynamicFee_fields t :
  Forall ok_tuple (df_AccessList t) ->
  signing_dynamicFee t = encodeUnsignedFields (map snd (fvals fDynamic
    ⟪ bigOrZero (df_ChainID t) ; df_Nonce t ; bigOrZero (df_GasTipCap t) ; bigOrZero (df_GasFeeCap t) ; df_Gas t ;
      addressPtrToBytes (df_To t) ; bigOrZero (df_Value t) ; df_Data t ; encodeAccessList (df_AccessList t) ⟫)).
Proof. intros Ha. unfold signing_dynamicFee. signed_fields. Qed.

Lemma signing_blob_fields t :
  Forall ok_tuple (bl_AccessList t) -> Forall is_Hash (bl_BlobHashes t) ->
  signing_blob t = encodeUnsignedFields (map snd (fvals fBlob
    ⟪ bigOrZero (bl_ChainID t) ; bl_Nonce t ; bigOrZero (bl_GasTipCap t) ; bigOrZero (bl_GasFeeCap t) ; bl_Gas t ;
      bl_To t ; bigOrZero (bl_Value t) ; bl_Data t ; encodeAccessList (bl_AccessList t) ;
      bigOrZero (bl_BlobFeeCap t) ; bl_BlobHashes t ⟫)).
Proof. intros Ha Hh. unfold signing_blob. signed_fields. Qed.

Lemma signing_setCode_fields t :
  Forall ok_tuple (sc_AccessList t) -> Forall ok_auth (sc_AuthorizationList t) ->
  signing_setCode t = encodeUnsignedFields (map snd (fvals fSetCode
    ⟪ bigOrZero (sc_ChainID t) ; sc_Nonce t ; bigOrZero (sc_GasTipCap t) ; bigOrZero (sc_GasFeeCap t) ; sc_Gas t ;
      sc_To t ; bigOrZero (sc_Value t) ; sc_Data t ; encodeAccessList (sc_AccessList t) ;
      encodeAuthList (sc_AuthorizationList t) ⟫)).
Proof. intros Ha Hh. unfold signing_setCode. signed_fields. Qed.

Lemma signing_legacy_fields t :
  signing_legacy t = WrapList (
    encodeUnsignedFields (map snd (fvals fLegacy
      ⟪ leg_Nonce t ; bigOrZero (leg_GasPrice t) ; leg_Gas t ; addressPtrToBytes (leg_To t) ;
        bigOrZero (leg_Value t) ; leg_Data t ⟫)) ++
    (if deriveChainID (leg_V t) >? 0
     then encodeUnsignedFields (map snd (fvals fChain ⟪ deriveChainID (leg_V t) ; 0 ; 0 ⟫)) else [])).
Proof.
  unfold signing_legacy. f_equal. replace (Z.sgn (deriveChainID (leg_V t)) >? 0) with (deriveChainID (leg_V t) >? 0)
    by (rewrite !Z.gtb_ltb; destruct (Z.ltb_spec 0 (deriveChainID (leg_V t))), (Z.ltb_spec 0 (Z.sgn (deriveChainID (leg_V t)))); lia).
  destruct (deriveChainID (leg_V t) >? 0); signed_fields.
Qed.

Lemma to_inj a b : ok_to a -> ok_to b -> addressPtrToBytes a = addressPtrToBytes b -> a = b.
Proof. intros Ha Hb E. rewrite <- (address_roundtrip a Ha), E. by apply address_roundtrip. Qed.

Lemma accessList_inj a b : encodeAccessList a = encodeAccessList b -> a = b.
Proof. intros E. rewrite <- (accessList_roundtrip a), E. apply accessList_roundtrip. Qed.

Lemma authList_inj a b : encodeAuthList a = encodeAuthList b -> map norm_auth a = map norm_auth b.
Proof. intros E. by rewrite <- !authList_roundtrip, E. Qed.

Lemma elided_inj a b :
  Forall ok_frame a -> Forall ok_frame b ->
  encodeFrames (map elide a) = encodeFrames (map elide b) -> map elide a = map elide b.
Proof.
  assert (forall l, Forall ok_frame l -> Forall ok_frame (map elide l)) as Hel.
  { intros l Hl. apply Forall_map. eapply Forall_impl; [exact Hl|]. intros f Hf. unfold elide. by destruct (_ =? _). }
  intros Ha Hb E. rewrite <- (frames_roundtrip _ (Hel a Ha)), E. by apply frames_roundtrip, Hel.
Qed.

(** Equal signed bytes of a typed transaction have equal fields. *)
Lemma typed_signing_inj {A} (f : fields A) `{!FieldLaws f} ty a1 a2 b :
  fdom f a1 -> fdom f a2 ->
  typed_signing ty (encodeUnsignedFields (map snd (fvals f a1))) = b ->
  typed_signing ty (encodeUnsignedFields (map snd (fvals f a2))) = b -> zlen b < 2 ^ 63 -> a1 = a2.
Proof.
  intros H1 H2 <- E Hl. unfold typed_signing in *. rewrite zlen_cons in Hl. injection E as E. symmetry in E.
  apply wrapList_inj in E; [|unfold WrapList in *; lia].
  destruct (fields_inj f a1 a2 [] []) as [? _]; rewrite ?app_nil_r; try done.
  pose proof (zlen_le_wrapList (encodeUnsignedFields (map snd (fvals f a1)))). unfold WrapList in *. lia.
Qed.

Ltac signed_tuple :=
  repeat match goal with
  | H : (_, _) = (_, _) |- _ => injection H; clear H; intros
  | H : addressPtrToBytes _ = addressPtrToBytes _ |- _ => apply to_inj in H; [|assumption..]
  | H : encodeAccessList _ = encodeAccessList _ |- _ => apply accessList_inj in H
  | H : encodeAuthList _ = encodeAuthList _ |- _ => apply authList_inj in H
  | H : encodeFrames (map elide _) = encodeFrames (map elide _) |- _ => apply elided_inj in H; [|assumption..]
  end.

Lemma chain_nonempty c : encodeUnsignedFields (map snd (fvals fChain ⟪ c ; 0 ; 0 ⟫)) <> [].
Proof.
  unfold encodeUnsignedFields. cbn [map concat fcons fvals fst snd fnil].
  change (enc (lval lUint64 0)) with [128]. by destruct (enc (lval lBig c)).
Qed.

Lemma legacy_commits t1 t2 b :
  tx_ok (Legacy t1) -> tx_ok (Legacy t2) -> signing_legacy t1 = b -> signing_legacy t2 = b ->
  zlen b < 2 ^ 63 -> signed_part (Legacy t1) = signed_part (Legacy t2).
Proof.
  intros O1 O2 <- E Hl. rewrite !signing_legacy_fields in *. symmetry in E. apply wrapList_inj in E; [|exact Hl].
  match type of Hl with zlen (WrapList ?p) < _ => pose proof (zlen_le_wrapList p) as Hp end. unfold WrapList in Hl.
  destruct t1 as [n1 gp1 g1 to1 v1 d1 sv1 sr1 ss1], t2 as [n2 gp2 g2 to2 v2 d2 sv2 sr2 ss2].
  simpl in O1, O2. tx_fields. cbn [leg_Nonce leg_GasPrice leg_Gas leg_To leg_Value leg_Data leg_V] in *.
  destruct (fun H1 H2 => fields_inj fLegacy _ _ _ _ H1 H2 E) as [Et Er]; [tx_dom|tx_dom|lia|].
  assert (Z.max 0 (deriveChainID (set0 sv1)) = Z.max 0 (deriveChainID (set0 sv2))) as Ec.
  { assert (forall sv, Z.max 0 (deriveChainID (set0 sv)) = Z.max 0 (deriveChainID sv)) as Hz by (by intros [?|]).
    rewrite !Hz. destruct (Z.gtb_spec (deriveChainID sv1) 0), (Z.gtb_spec (deriveChainID sv2) 0).
    - destruct (fields_inj fChain ⟪ deriveChainID sv1 ; 0 ; 0 ⟫ ⟪ deriveChainID sv2 ; 0 ; 0 ⟫ [] []) as [E3 _];
        [repeat split; simpl; lia..|by rewrite !app_nil_r| |by injection E3 as ->].
      rewrite app_nil_r. rewrite zlen_app in Hp.
      match type of Hp with zlen ?a + _ <= _ => pose proof (zlen_nonneg a) end. lia.
    - by destruct (chain_nonempty _ Er).
    - by destruct (chain_nonempty _ (eq_sym Er)).
    - lia. }
  signed_tuple. unfold signed_part, norm. rewrite Ec. unfold set0. congruence.
Qed.

(** Signed bytes start with the type, or a list prefix for legacy ones. *)
Lemma signing_data_head t b :
  signs_fields t -> signing_data t = Some b -> zlen b < 2 ^ 63 ->
  exists h r, b = h :: r /\ (txType t = LegacyTxType /\ 192 <= h \/ txType t <> LegacyTxType /\ h = txType t).
Proof.
  intros Hs E Hl. destruct t; try done; cbn [signing_data] in E.
  1: { injection E as <-. destruct (wrapList_head _ Hl) as (h & r & Eh & Hh). exists h, r. split; [exact Eh|]. by left. }
  5: { unfold signing_frame in E. destruct (encodeAs _ _); [|done..]. injection E as <-. eexists _, _. split; [done|]. by right. }
  all: injection E as <-; eexists _, _; split; [reflexivity|]; by right.
Qed.

Lemma frame_commits t1 t2 b :
  tx_ok (FrameT t1) -> tx_ok (FrameT t2) -> signing_frame t1 = Some b -> signing_frame t2 = Some b ->
  zlen b < 2 ^ 63 -> signed_part (FrameT t1) = signed_part (FrameT t2).
Proof.
  intros O1 O2 E1 E2 Hl. unfold signing_frame in E1, E2.
  destruct t1 as [c1 n1 se1 fs1 tip1 cap1 bf1 bh1], t2 as [c2 n2 se2 fs2 tip2 cap2 bf2 bh2].
  simpl in O1, O2. tx_fields. cbn [ft_ChainID ft_Nonce ft_Sender ft_Frames ft_MaxPriorityFeePerGas ft_MaxFeePerGas
    ft_MaxFeePerBlobGas ft_BlobVersionedHashes] in *.
  assert (forall l, Forall ok_frame l -> Forall ok_frame (map elide l)) as Hel.
  { intros l Hf. apply Forall_map. eapply Forall_impl; [exact Hf|]. intros f Hk. unfold elide. by destruct (_ =? _). }
  pose proof (Hel fs1 ltac:(assumption)). pose proof (Hel fs2 ltac:(assumption)).
  destruct (encodeAs _ _) as [p1| |] eqn:P1 in E1; [|done..].
  destruct (encodeAs _ _) as [p2| |] eqn:P2 in E2; [|done..]. injection E1 as <-. injection E2 as ->.
  rewrite zlen_cons in Hl. unfold frameTxRLP in *.
  match type of P1 with encodeAs ?l ?a1 = _ => match type of P2 with encodeAs _ ?a2 = _ =>
    destruct (decodeAs_encodeAs_all l a1) as (q1 & Q1 & D1); [tx_dom|];
    destruct (decodeAs_encodeAs_all l a2) as (q2 & Q2 & D2); [tx_dom|] end end.
  rewrite P1 in Q1. rewrite P2 in Q2. injection Q1 as <-. injection Q2 as <-.
  destruct (D1 ltac:(lia)) as [k1 K1], (D2 ltac:(lia)) as [k2 K2].
  specialize (K1 (Nat.max k1 k2) ltac:(lia)). specialize (K2 (Nat.max k1 k2) ltac:(lia)). rewrite K1 in K2.
  injection K2 as ? ? ? ? ? ? ? ?. signed_tuple. unfold signed_part, norm, set0. congruence.
Qed.

(** Two transactions of one typed kind with the same signed bytes. *)
Tactic Notation "commits" constr(lem) constr(f) "in" hyp(E1) hyp(E2) :=
  rewrite lem in E1 by assumption; rewrite lem in E2 by assumption;
  apply (inj Some) in E1; apply (inj Some) in E2;
  match type of E1 with typed_signing ?ty (encodeUnsignedFields (map _ (fvals _ ?a1))) = ?b =>
  match type of E2 with typed_signing _ (encodeUnsignedFields (map _ (fvals _ ?a2))) = _ =>
    assert (a1 = a2) by (apply (typed_signing_inj f ty a1 a2 b); [tx_dom | tx_dom | exact E1 | exact E2 | assumption])
  end end;
  clear E1 E2; signed_tuple; unfold signed_part, norm, set0; congruence.

(** C34. For the six types that are signed through [SigningHash] (legacy,
    access list, dynamic fee, blob, set-code and frame transactions) a
    signature commits to the whole transaction: two transactions with the
    same signed bytes agree in type and in every field but the signature
    (and the data of VERIFY frames, which is left out by design); legacy
    ones also agree in the chain they are bound to.  Account abstraction,
    PQ, local and multidimensional-fee transactions are not covered; for PQ
    transactions it is false, see [pq_signature_ambiguous]. *)
Theorem signing_data_commits t1 t2 b :
  tx_ok t1 -> tx_ok t2 -> signs_fields t1 -> signs_fields t2 ->
  signing_data t1 = Some b -> signing_data t2 = Some b -> zlen b < 2 ^ 63 ->
  signed_part t1 = signed_part t2.
Proof.
  intros O1 O2 S1 S2 E1 E2 Hl.
  assert (txType t1 = txType t2) as Ety.
  { destruct (signing_data_head t1 b S1 E1 Hl) as (h & r & -> & H1).
    destruct (signing_data_head t2 _ S2 E2 Hl) as (h' & r' & [= -> ->] & H2).
    assert (txType t1 <= 127 /\ txType t2 <= 127) by (destruct t1, t2; done). lia. }
  destruct t1, t2; try done; clear Ety S1 S2; cbn [signing_data] in E1, E2.
  1: injection E1 as E1; injection E2 as E2; by eapply legacy_commits.
  5: by eapply frame_commits.
  all: destruct t, t0; simpl in O1, O2; tx_fields.
  - commits (signing_accessList_fields) (fAccess) in E1 E2.
  - commits (signing_dynamicFee_fields) (fDynamic) in E1 E2.
  - commits (signing_blob_fields) (fBlob) in E1 E2.
  - commits (signing_setCode_fields) (fSetCode) in E1 E2.
Qed.

Definition w_tx2 : TxData :=
  DynamicFee (mkDynamicFeeTx (Some 1) 7 (Some 2) (Some 300) 21000 (Some 0xE0) (Some 0) [1; 0; 255]
    [mkTuple 0xE0 [0; 5]] None (Some 9) None).

Lemma signing_data_commits_witness : signed_part w_tx = signed_part w_tx2.
Proof.
  apply (signing_data_commits w_tx w_tx2 (default [] (signing_data w_tx)));
    [| |done|done|vm_compute; reflexivity|vm_compute; reflexivity|vm_compute; reflexivity];
  unfold w_tx, w_tx2, tx_ok, ok_u64s, ok_bigs, is_u64, ok_big, ok_tuple, is_Hash; simpl;
  repeat first [apply Forall_cons_2 | apply Forall_nil_2 | split]; simpl; lia.
Defined.

Definition pq_with (gasPrice : Z) (data : bytes) (t : PQTransaction) : PQTransaction :=
  mkPQTx (pq_ChainID t) (pq_Nonce t) (pq_To t) (pq_Value t) (pq_Gas t) (Some gasPrice) data
    (pq_SignatureType t) (pq_Signature t) (pq_PublicKey t) (pq_ClassicSignature t).

(** The signature of a post-quantum transaction does not commit to its
    fields: the signed bytes are the fields without lengths, so the first
    byte of the data can be moved into the gas price, multiplying it by 256,
    under the same signature. *)
Lemma pq_signature_ambiguous t gasPrice x data :
  0 < gasPrice -> is_byte x ->
  signing_data (PQ (pq_with gasPrice (x :: data) t)) = signing_data (PQ (pq_with (256 * gasPrice + x) data t)).
Proof.
  intros Hg Hx. cbn [signing_data]. unfold signing_pq, pq_with. simpl. do 6 f_equal.
  assert (Bytes (256 * gasPrice + x) = Bytes gasPrice ++ [x]) as ->; [|by rewrite <- app_assoc].
  unfold is_byte in Hx. apply Bytes_unique; [lia| | |].
  - apply Forall_app. split; [apply Bytes_bytes|by apply Forall_singleton].
  - rewrite SetBytes_snoc, SetBytes_Bytes. lia.
  - intros h r E. destruct (Bytes gasPrice) as [|b l] eqn:Eb.
    + pose proof (SetBytes_Bytes gasPrice) as H. rewrite Eb in H. unfold SetBytes in H. simpl in H. lia.
    + injection E as <- _. by eapply Bytes_head.
Qed.

(** A price of 10 and data 0x05... become a price of 2565. *)
Lemma pq_signature_ambiguous_witness :
  let t := mkPQTx (Some 1) 0 (Some 0xE0) (Some 1) 21000 None [] 0 [1] [2] [] in
  signing_data (PQ (pq_with 10 [5; 6] t)) = signing_data (PQ (pq_with 2565 [6] t)) /\
  pq_with 10 [5; 6] t <> pq_with 2565 [6] t.
Proof. intros t. split; [apply (pq_signature_ambiguous t 10 5 [6]); unfold is_byte; lia|done]. Defined.
