(* ===== verification/Signer.v ===== *)
(** * Signer: sender recovery

    pkg/core/types/signer.go: the two signers and the secp256k1 arithmetic
    they recover public keys with.  [ModInverse] and [Exp] are those of
    math/big. *)

From S2P Require Import Prelude Rlp StateDB Transactions.

(** ** math/big *)

(** Extended Euclid: the gcd and the coefficient of the first argument. *)
Fixpoint egcd (fuel : nat) (r0 r1 s0 s1 : Z) : option (Z * Z) :=
  match fuel with
  | O => None
  | S n => if r1 =? 0 then Some (r0, s0) else egcd n r1 (r0 mod r1) s1 (s0 - r0 / r1 * s1)
  end.

(** [new(big.Int).ModInverse(a, n)] for positive [n]; [None] is nil.  Every
    two steps halve the remainder, which bounds the fuel. *)
Definition ModInverse (a n : Z) : option Z :=
  match egcd (Z.to_nat (2 * BitLen n + 2)) (a mod n) n 1 0 with
  | Some (d, x) => if d =? 1 then Some (x mod n) else None
  | None => None
  end.

(** [new(big.Int).Exp(b, e, m)] *)
Fixpoint pow_pos_mod (b : Z) (e : positive) (m : Z) : Z :=
  match e with
  | xH => b mod m
  | xO e' => let h := pow_pos_mod b e' m in h * h mod m
  | xI e' => let h := pow_pos_mod b e' m in (h * h mod m) * b mod m
  end.

Definition ExpMod (b e m : Z) : Z :=
  match e with
  | Z0 => 1 mod m
  | Zpos p => pow_pos_mod b p m
  | Zneg _ => 1
  end.

(** ** The curve *)

Definition secp256k1N : Z := 0xfffffffffffffffffffffffffffffffebaaedce6af48a03bbfd25e8cd0364141.
Definition secp256k1P : Z := 0xfffffffffffffffffffffffffffffffffffffffffffffffffffffffefffffc2f.
Definition secp256k1Gx : Z := 0x79be667ef9dcbbac55a06295ce870b07029bfcdb2dce28d959f2815b16f81798.
Definition secp256k1Gy : Z := 0x483ada7726a3c4655da4fbfc0e1108a8fd17b448a68554199c47d08ffb10d4b8.
Definition secp256k1B : Z := 7.

Definition signerComputeY (x : Z) : option Z :=
  let p := secp256k1P in
  let x3 := ((x * x mod p) * x mod p + secp256k1B) mod p in
  let y := ExpMod x3 (Z.shiftr (p + 1) 2) p in
  if y * y mod p =? x3 then Some y else None.

(** Points are pairs; (0, 0) is the point at infinity. *)
Definition signerPointDouble '(x1, y1) : Z * Z :=
  if Z.sgn y1 =? 0 then (0, 0)
  else
    let p := secp256k1P in
    let num := 3 * (x1 * x1 mod p) mod p in
    let den := 2 * y1 mod p in
    match ModInverse den p with
    | None => (0, 0)
    | Some denInv =>
        let slope := num * denInv mod p in
        let x3 := (slope * slope - 2 * x1) mod p in
        let y3 := ((x1 - x3) * slope - y1) mod p in
        (x3, y3)
    end.

Definition signerPointAdd '(x1, y1) '(x2, y2) : Z * Z :=
  if (Z.sgn x1 =? 0) && (Z.sgn y1 =? 0) then (x2, y2)
  else if (Z.sgn x2 =? 0) && (Z.sgn y2 =? 0) then (x1, y1)
  else if (x1 =? x2) && (y1 =? y2) then signerPointDouble (x1, y1)
  else if x1 =? x2 then (0, 0)
  else
    let p := secp256k1P in
    let dy := (y2 - y1) mod p in
    let dx := (x2 - x1) mod p in
    match ModInverse dx p with
    | None => (0, 0)
    | Some dxInv =>
        let slope := dy * dxInv mod p in
        let x3 := (slope * slope - x1 - x2) mod p in
        let y3 := ((x1 - x3) * slope - y1) mod p in
        (x3, y3)
    end.

(** Double-and-add from the highest bit. *)
Fixpoint scalar_loop (i : nat) (scalar : Z) (b r : Z * Z) : Z * Z :=
  match i with
  | O => r
  | S j =>
      let r := signerPointDouble r in
      let r := if Z.testbit scalar (Z.of_nat j) then signerPointAdd r b else r in
      scalar_loop j scalar b r
  end.

Definition signerScalarMult (pt : Z * Z) (k : Z) : Z * Z :=
  let scalar := k mod secp256k1N in
  if Z.sgn scalar =? 0 then (0, 0)
  else scalar_loop (Z.to_nat (BitLen scalar)) scalar pt (0, 0).

Definition signerVerify (hash r s : Z) (q : Z * Z) : bool :=
  let n := secp256k1N in
  if (Z.sgn r <=? 0) || (r >=? n) then false
  else if (Z.sgn s <=? 0) || (s >=? n) then false
  else
    match ModInverse s n with
    | None => false
    | Some sInv =>
        let u1 := hash * sInv mod n in
        let u2 := r * sInv mod n in
        let '(rx, _) := signerPointAdd (signerScalarMult (secp256k1Gx, secp256k1Gy) u1) (signerScalarMult q u2) in
        rx mod n =? r
    end.

(** [recoverPubkey]: the public key as a point; the caller hashes its
    64 coordinate bytes. *)
Definition recoverPubkey (hash r s v : Z) : option (Z * Z) :=
  let p := secp256k1P in
  if r >=? p then None
  else
    match signerComputeY r with
    | None => None
    | Some y =>
        let y := if Bool.eqb (Z.odd y) (Z.odd v) then y else p - y in
        match ModInverse r secp256k1N with
        | None => None
        | Some rInv =>
            let sR := signerScalarMult (r, y) s in
            let '(eGx, eGy) := signerScalarMult (secp256k1Gx, secp256k1Gy) hash in
            let negEGy := (p - eGy) mod p in
            let diff := signerPointAdd sR (eGx, negEGy) in
            let '(qx, qy) := signerScalarMult diff rInv in
            if (Z.sgn qx =? 0) && (Z.sgn qy =? 0) then None
            else if negb (signerVerify hash r s (qx, qy)) then None
            else Some (qx, qy)
        end
    end.

Section Signers.

(** [sha3.NewLegacyKeccak256] *)
Context (keccak256 : bytes -> bytes).

Definition RecoverPlain (sighash r s v : Z) : option Address :=
  if v >? 1 then None
  else if (Z.sgn r <=? 0) || (Z.sgn s <=? 0) then None
  else if (r >=? secp256k1N) || (s >=? secp256k1N) then None
  else
    match recoverPubkey sighash r s v with
    | None => None
    | Some (qx, qy) => Some (BytesToAddress (drop 12 (keccak256 (be_bytes 32 qx ++ be_bytes 32 qy))))
    end.

(** [LondonSigner.Sender] *)
Definition LondonSigner_Sender (chainID : Z) (t : TxData) : option Address :=
  let '(v, r, rs) := RawSignatureValues t in
  match r, rs with
  | Some r, Some rs =>
      let recovery :=
        match t with
        | Legacy _ =>
            match v with
            | None => None
            | Some v =>
                let vVal := Uint64 v in
                Some (if (vVal =? 27) || (vVal =? 28) then u8 (vVal -u 27)
                      else u8 (vVal -u 35 -u 2 *u chainID))
            end
        | AccessListT _ | DynamicFee _ | Blob _ | SetCodeT _ =>
            let recovery := match v with None => 0 | Some v => u8 (Uint64 v) end in
            match tx_ChainId t with
            | Some c => if Uint64 c =? chainID then Some recovery else None
            | None => Some recovery
            end
        | _ => None
        end in
      match recovery with
      | None => None
      | Some recovery =>
          if recovery >? 1 then None
          else RecoverPlain (SigningHash keccak256 t) r rs recovery
      end
  | _, _ => None
  end.

(** [EIP155Signer.Sender] *)
Definition EIP155Signer_Sender (chainID : Z) (t : TxData) : option Address :=
  match t with
  | Legacy _ =>
      match RawSignatureValues t with
      | (Some v, Some r, Some rs) =>
          let vVal := Uint64 v in
          let recovery := if (vVal =? 27) || (vVal =? 28) then u8 (vVal -u 27)
                          else u8 (vVal -u 35 -u 2 *u chainID) in
          if recovery >? 1 then None
          else RecoverPlain (SigningHash keccak256 t) r rs recovery
      | _ => None
      end
  | _ => None
  end.

End Signers.

(** ** Properties *)

Lemma u8_u64 x : u8 (u64 x) = u8 x.
Proof. unfold u8, u64. apply Z.mod_mod_divide. by exists (2 ^ 56). Qed.

Lemma recovery_mod v c1 c2 :
  c1 mod 128 = c2 mod 128 -> u8 (v -u 35 -u 2 *u c1) = u8 (v -u 35 -u 2 *u c2).
Proof.
  intros E. rewrite !u8_u64.
  assert (forall c, u8 (v -u 35 - 2 *u c) = (v - 35 - 2 * (c mod 128)) mod 2 ^ 8) as H; [|by rewrite !H, E].
  intros c. unfold u8. rewrite Zminus_mod.
  change ((v -u 35) mod 2 ^ 8) with (u8 (v -u 35)). change ((2 *u c) mod 2 ^ 8) with (u8 (2 *u c)).
  rewrite !u8_u64. unfold u8. rewrite <- Zminus_mod.
  replace (v - 35 - 2 * c) with (v - 35 - 2 * (c mod 128) + - (c / 128) * 2 ^ 8)
    by (pose proof (Z.div_mod c 128); lia).
  by rewrite Z.mod_add.
Qed.

(** Legacy replay protection is modulo 128: signers of chains whose
    numbers agree modulo 128 recover the same sender from every legacy
    transaction, so a transaction signed for chain 129 is accepted on
    chain 1. *)
Lemma legacy_sender_mod_128 keccak256 c1 c2 t :
  c1 mod 128 = c2 mod 128 ->
  LondonSigner_Sender keccak256 c1 (Legacy t) = LondonSigner_Sender keccak256 c2 (Legacy t) /\
  EIP155Signer_Sender keccak256 c1 (Legacy t) = EIP155Signer_Sender keccak256 c2 (Legacy t).
Proof.
  intros E. unfold LondonSigner_Sender, EIP155Signer_Sender. simpl.
  destruct (leg_V t) as [v|]; [|by destruct (leg_R t), (leg_S t)].
  by rewrite (recovery_mod (Uint64 v) c1 c2 E).
Qed.

(** A transaction whose [V] binds it to chain 129. *)
Lemma legacy_sender_mod_128_witness :
  let t := mkLegacyTx 0 (Some 1) 21000 (Some 0xE0) (Some 5) [] (Some (35 + 2 * 129)) (Some 3) (Some 4) in
  (LondonSigner_Sender (fun b => b) 1 (Legacy t) = LondonSigner_Sender (fun b => b) 129 (Legacy t) /\
   EIP155Signer_Sender (fun b => b) 1 (Legacy t) = EIP155Signer_Sender (fun b => b) 129 (Legacy t)) /\
  deriveChainID (leg_V t) = 129.
Proof. intros t. split; [apply (legacy_sender_mod_128 (fun b => b) 1 129 t); reflexivity|reflexivity]. Defined.
