(* ===== verification/ChainConfig.v ===== *)
(** * The chain configuration (core/config)

    Models [ChainConfig], its fork queries and [Rules] (chain_config.go),
    [Validate], [ActiveFork] and [GetRules] (chain_config_ext.go), and the fork
    schedule with its comparison of two configurations
    (chain_config_forks.go).  A nil pointer is [None]. *)

From stdpp Require Import base list strings pretty sorting.
From Stdlib Require Import ZArith Lia.
From S2P Require Import Prelude Machine.
Local Open Scope Z_scope.

Record ChainConfig := mkChainConfig {
  ChainID : option Z;
  HomesteadBlock : option Z;
  EIP150Block : option Z;
  EIP155Block : option Z;
  EIP158Block : option Z;
  ByzantiumBlock : option Z;
  ConstantinopleBlock : option Z;
  PetersburgBlock : option Z;
  IstanbulBlock : option Z;
  BerlinBlock : option Z;
  LondonBlock : option Z;
  TerminalTotalDifficulty : option Z;
  ShanghaiTime : option Z;
  CancunTime : option Z;
  PragueTime : option Z;
  AmsterdamTime : option Z;
  GlamsterdanTime : option Z;
  HogotaTime : option Z;
  IPlusTime : option Z;
  BPO1Time : option Z;
  BPO2Time : option Z;
}.

Definition isNone {A} (o : option A) : bool := match o with None => true | Some _ => false end.

(** ** Fork queries *)

Definition isBlockForked (forkBlock head : option Z) : bool :=
  match forkBlock, head with Some f, Some h => f <=? h | _, _ => false end.

Definition isTimestampForked (forkTime : option Z) (blockTime : Z) : bool :=
  match forkTime with Some f => f <=? blockTime | None => false end.

Definition cfg_IsHomestead c num := isBlockForked (HomesteadBlock c) num.
Definition cfg_IsEIP158 c num := isBlockForked (EIP158Block c) num.
Definition cfg_IsByzantium c num := isBlockForked (ByzantiumBlock c) num.
Definition cfg_IsConstantinople c num := isBlockForked (ConstantinopleBlock c) num.
Definition cfg_IsPetersburg c num :=
  isBlockForked (PetersburgBlock c) num
  || (isNone (PetersburgBlock c) && isBlockForked (ConstantinopleBlock c) num).
Definition cfg_IsIstanbul c num := isBlockForked (IstanbulBlock c) num.
Definition cfg_IsBerlin c num := isBlockForked (BerlinBlock c) num.
Definition cfg_IsLondon c num := isBlockForked (LondonBlock c) num.
Definition cfg_IsShanghai c time := isTimestampForked (ShanghaiTime c) time.
Definition cfg_IsCancun c time := isTimestampForked (CancunTime c) time.
Definition cfg_IsPrague c time := isTimestampForked (PragueTime c) time.
Definition cfg_IsAmsterdam c time := isTimestampForked (AmsterdamTime c) time.
Definition cfg_IsGlamsterdan c time := isTimestampForked (GlamsterdanTime c) time.
Definition cfg_IsHogota c time := isTimestampForked (HogotaTime c) time.
Definition cfg_IsIPlus c time := isTimestampForked (IPlusTime c) time.
Definition cfg_IsBPO1 c time := isTimestampForked (BPO1Time c) time.
Definition cfg_IsBPO2 c time := isTimestampForked (BPO2Time c) time.
Definition cfg_IsMerge c := negb (isNone (TerminalTotalDifficulty c)).

(** The struct [Rules].  The flags of single EIPs that repeat the flag of
    their fork are left out, except those the EVM takes over. *)
Record Rules := mkForkFlags {
  r_IsHomestead : bool;
  r_IsEIP150 : bool;
  r_IsEIP155 : bool;
  r_IsEIP158 : bool;
  r_IsByzantium : bool;
  r_IsConstantinople : bool;
  r_IsPetersburg : bool;
  r_IsIstanbul : bool;
  r_IsBerlin : bool;
  r_IsLondon : bool;
  r_IsMerge : bool;
  r_IsShanghai : bool;
  r_IsCancun : bool;
  r_IsPrague : bool;
  r_IsAmsterdam : bool;
  r_IsGlamsterdan : bool;
  r_IsEIP7708 : bool;
  r_IsEIP7954 : bool;
  r_IsHogota : bool;
  r_IsIPlus : bool;
}.

Definition cfg_Rules (c : ChainConfig) (num : option Z) (isMerge : bool) (timestamp : Z)
  : Rules :=
  let isMerge := isMerge && cfg_IsLondon c num in
  {| r_IsHomestead := cfg_IsHomestead c num;
     r_IsEIP150 := isBlockForked (EIP150Block c) num;
     r_IsEIP155 := isBlockForked (EIP155Block c) num;
     r_IsEIP158 := cfg_IsEIP158 c num;
     r_IsByzantium := cfg_IsByzantium c num;
     r_IsConstantinople := cfg_IsConstantinople c num;
     r_IsPetersburg := cfg_IsPetersburg c num;
     r_IsIstanbul := cfg_IsIstanbul c num;
     r_IsBerlin := cfg_IsBerlin c num;
     r_IsLondon := cfg_IsLondon c num;
     r_IsMerge := isMerge;
     r_IsShanghai := isMerge && cfg_IsShanghai c timestamp;
     r_IsCancun := isMerge && cfg_IsCancun c timestamp;
     r_IsPrague := isMerge && cfg_IsPrague c timestamp;
     r_IsAmsterdam := isMerge && cfg_IsAmsterdam c timestamp;
     r_IsGlamsterdan := isMerge && cfg_IsGlamsterdan c timestamp;
     r_IsEIP7708 := isMerge && cfg_IsGlamsterdan c timestamp;
     r_IsEIP7954 := isMerge && cfg_IsGlamsterdan c timestamp;
     r_IsHogota := isMerge && cfg_IsHogota c timestamp;
     r_IsIPlus := isMerge && cfg_IsIPlus c timestamp |}.

Definition GetRules (c : ChainConfig) (blockNum time : Z) : Rules :=
  cfg_Rules c (Some blockNum) (cfg_IsMerge c) time.

(** ** Validation *)

Inductive cfg_error :=
  | InvalidChainID
  | NegativeFork (name : string)
  | ForkOrdering (name lastName : string)
  | NeedsTTD.

Definition blockForks (c : ChainConfig) : list (string * option Z) :=
  [ ("Homestead", HomesteadBlock c); ("EIP150", EIP150Block c);
    ("EIP155", EIP155Block c); ("EIP158", EIP158Block c);
    ("Byzantium", ByzantiumBlock c); ("Constantinople", ConstantinopleBlock c);
    ("Petersburg", PetersburgBlock c); ("Istanbul", IstanbulBlock c);
    ("Berlin", BerlinBlock c); ("London", LondonBlock c) ]%string.

Definition timeForks (c : ChainConfig) : list (string * option Z) :=
  [ ("Shanghai", ShanghaiTime c); ("Cancun", CancunTime c);
    ("Prague", PragueTime c); ("Amsterdam", AmsterdamTime c);
    ("Glamsterdan", GlamsterdanTime c); ("Hogota", HogotaTime c);
    ("IPlus", IPlusTime c) ]%string.

(** The body shared by the two loops of [Validate]; [signed] is the sign test
    that only block numbers, big integers, go through. *)
Fixpoint check_forks (signed : bool) (last : option (string * Z))
    (forks : list (string * option Z)) : option cfg_error :=
  match forks with
  | [] => None
  | (_, None) :: rest => check_forks signed last rest
  | (name, Some p) :: rest =>
      if signed && (p <? 0) then Some (NegativeFork name)
      else match last with
           | Some (lastName, l) =>
               if p <? l then Some (ForkOrdering name lastName)
               else check_forks signed (Some (name, p)) rest
           | None => check_forks signed (Some (name, p)) rest
           end
  end.

Definition Validate (c : ChainConfig) : option cfg_error :=
  if match ChainID c with None => true | Some id => id <=? 0 end
  then Some InvalidChainID
  else match check_forks true None (blockForks c) with
       | Some e => Some e
       | None =>
           match check_forks false None (timeForks c) with
           | Some e => Some e
           | None =>
               if negb (isNone (ShanghaiTime c)) && isNone (TerminalTotalDifficulty c)
               then Some NeedsTTD
               else None
           end
       end.

Definition ActiveFork (c : ChainConfig) (time : Z) : string :=
  if cfg_IsIPlus c time then "IPlus"
  else if cfg_IsHogota c time then "Hogota"
  else if cfg_IsGlamsterdan c time then "Glamsterdan"
  else if cfg_IsAmsterdam c time then "Amsterdam"
  else if cfg_IsPrague c time then "Prague"
  else if cfg_IsCancun c time then "Cancun"
  else if cfg_IsShanghai c time then "Shanghai"
  else if cfg_IsMerge c then "Paris"
  else "London".

(** ** The fork schedule and the comparison of configurations *)

Record ForkID := mkForkID {
  fork_Name : string;
  fork_Block : option Z;
  fork_Timestamp : option Z;
}.

Definition ForkID_IsActive (f : ForkID) (num : option Z) (time : Z) : bool :=
  match fork_Block f, fork_Timestamp f with
  | Some b, _ => match num with Some n => b <=? n | None => false end
  | None, Some t => t <=? time
  | None, None => false
  end.

Definition ForkSchedule (c : ChainConfig) : list ForkID :=
  map (fun '(n, b) => mkForkID n b None) (blockForks c)
  ++ [ mkForkID "Shanghai" None (ShanghaiTime c); mkForkID "Cancun" None (CancunTime c);
       mkForkID "Prague" None (PragueTime c); mkForkID "Amsterdam" None (AmsterdamTime c);
       mkForkID "Glamsterdan" None (GlamsterdanTime c); mkForkID "Hogota" None (HogotaTime c) ].

Definition ActiveForks (c : ChainConfig) (num : option Z) (time : Z) : list ForkID :=
  List.filter (fun f => ForkID_IsActive f num time) (ForkSchedule c).

Definition PendingForks (c : ChainConfig) (num : option Z) (time : Z) : list ForkID :=
  List.filter (fun f => (negb (isNone (fork_Block f)) || negb (isNone (fork_Timestamp f)))
                        && negb (ForkID_IsActive f num time)) (ForkSchedule c).

Definition UnscheduledForks (c : ChainConfig) : list ForkID :=
  List.filter (fun f => isNone (fork_Block f) && isNone (fork_Timestamp f)) (ForkSchedule c).

Definition forkPointString (f : ForkID) : string :=
  match fork_Block f, fork_Timestamp f with
  | Some b, _ => "block:" +:+ pretty b
  | None, Some t => "time:" +:+ pretty t
  | None, None => "nil"
  end.

Record ForkConfigDiff := mkDiff {
  ForkName : string;
  LocalPoint : string;
  RemotePoint : string;
}.

(** The loop of [ConfigDiff] over both schedules at once. *)
Fixpoint diff_loop (localForks remoteForks : list ForkID) : list ForkConfigDiff :=
  match localForks, remoteForks with
  | lf :: ls, rf :: rs =>
      if negb (bool_decide (fork_Name lf = fork_Name rf)) then diff_loop ls rs
      else if negb (bool_decide (forkPointString lf = forkPointString rf))
      then mkDiff (fork_Name lf) (forkPointString lf) (forkPointString rf) :: diff_loop ls rs
      else diff_loop ls rs
  | _, _ => []
  end.

Definition ConfigDiff (localC remoteC : ChainConfig) : list ForkConfigDiff :=
  diff_loop (ForkSchedule localC) (ForkSchedule remoteC).

(** The inner loop: the first fork with the name decides. *)
Fixpoint find_fork (name : string) (fs : list ForkID) : option ForkID :=
  match fs with
  | [] => None
  | f :: rest => if bool_decide (fork_Name f = name) then Some f else find_fork name rest
  end.

Fixpoint first_active (schedule : list ForkID) (num time : Z) (diffs : list ForkConfigDiff)
  : option ForkConfigDiff :=
  match diffs with
  | [] => None
  | d :: rest =>
      match find_fork (ForkName d) schedule with
      | Some f => if ForkID_IsActive f (Some num) time then Some d
                  else first_active schedule num time rest
      | None => first_active schedule num time rest
      end
  end.

(** [Some d] is the [ConfigCompatError] built from [d]. *)
Definition CheckConfigCompatible (localC remoteC : ChainConfig) (headNum headTime : Z)
  : option ForkConfigDiff :=
  first_active (ForkSchedule localC) headNum headTime (ConfigDiff localC remoteC).

Definition NextForkAfter (c : ChainConfig) (num : option Z) (time : Z) : ForkID :=
  match PendingForks c num time with
  | [] => mkForkID "" None None
  | f :: _ => f
  end.

(** ** Correctness *)

(** The scheduled points of a list of forks. *)
Definition points (forks : list (string * option Z)) : list Z := omap snd forks.

Lemma Sorted_cons2 (l p : Z) ps : Sorted Z.le (l :: p :: ps) <-> l <= p /\ Sorted Z.le (p :: ps).
Proof.
  split; [intros [H1 H2]%Sorted_inv; split; [by inversion H2|done]|].
  intros [H1 H2]. constructor; [done|by constructor].
Qed.

Lemma check_forks_iff signed forks last :
  check_forks signed last forks = None <->
  (signed = true -> Forall (fun p => 0 <= p) (points forks)) /\
  Sorted Z.le (option_list (snd <$> last) ++ points forks).
Proof.
  revert last; induction forks as [|[n [p|]] rest IH]; intros last; simpl.
  - split; [intros _; split; [constructor|]|done].
    destruct last as [[? ?]|]; repeat constructor.
  - assert (HS : Sorted Z.le (option_list (snd <$> last) ++ p :: points rest) <->
                 from_option (fun '(_, l) => l <= p) True last /\ Sorted Z.le (p :: points rest)).
    { destruct last as [[ln l]|]; simpl; [apply Sorted_cons2|naive_solver]. }
    rewrite HS, Forall_cons. specialize (IH (Some (n, p))); simpl in IH.
    destruct (signed && (p <? 0)) eqn:E.
    + apply andb_true_iff in E as [-> E%Z.ltb_lt].
      split; [discriminate|]. intros [H _]. specialize (H eq_refl). lia.
    + assert (signed = true -> 0 <= p) by (intros ->; simpl in E; lia).
      destruct last as [[ln l]|]; simpl; [destruct (Z.ltb_spec p l)|]; rewrite ?IH.
      * split; [discriminate|]. intros [_ [? _]]. lia.
      * naive_solver.
      * naive_solver.
  - apply IH.
Qed.

(** [Validate] accepts a configuration exactly when its chain identifier is
    positive, the scheduled block forks are non-negative and in ascending
    order, the scheduled timestamp forks are in ascending order, and a
    scheduled Shanghai comes with a terminal total difficulty.  Only Shanghai
    is tied to the merge: a later fork may be scheduled without it. *)
Lemma Validate_iff c :
  Validate c = None <->
  (exists id, ChainID c = Some id /\ 0 < id) /\
  Forall (fun b => 0 <= b) (points (blockForks c)) /\
  Sorted Z.le (points (blockForks c)) /\
  Sorted Z.le (points (timeForks c)) /\
  (is_Some (ShanghaiTime c) -> is_Some (TerminalTotalDifficulty c)).
Proof.
  pose proof (check_forks_iff true (blockForks c) None) as HB; simpl option_list in HB.
  pose proof (check_forks_iff false (timeForks c) None) as HT; simpl option_list in HT.
  rewrite !app_nil_l in HB, HT. unfold Validate.
  destruct (match ChainID c with None => true | Some id => id <=? 0 end) eqn:E.
  { split; [discriminate|]. intros ((id & Hid & ?) & _). rewrite Hid in E. lia. }
  assert (HI : exists id, ChainID c = Some id /\ 0 < id).
  { destruct (ChainID c) as [id|]; [exists id; split; [done|lia]|done]. }
  destruct (check_forks true None (blockForks c)) as [e|].
  { split; [discriminate|]. intros (_ & H1 & H2 & _).
    assert (Some e = None) by (apply HB; done). done. }
  destruct (check_forks false None (timeForks c)) as [e|].
  { split; [discriminate|]. intros (_ & _ & _ & H1 & _).
    assert (Some e = None) by (apply HT; done). done. }
  destruct HB as [HB _], HT as [HT _]. specialize (HB eq_refl). specialize (HT eq_refl).
  destruct HB as [HB1 HB2]; specialize (HB1 eq_refl). destruct HT as [_ HT].
  destruct (ShanghaiTime c), (TerminalTotalDifficulty c); simpl.
  2: split; [discriminate|]; intros (_ & _ & _ & _ & H); by destruct (H (mk_is_Some _ _ eq_refl)).
  all: split; [intros _; repeat split; auto; by intros ?%is_Some_None || eauto|done].
Qed.

Lemma forkPointString_inj f g :
  (fork_Block f = None \/ fork_Timestamp f = None) ->
  (fork_Block g = None \/ fork_Timestamp g = None) ->
  forkPointString f = forkPointString g ->
  fork_Block f = fork_Block g /\ fork_Timestamp f = fork_Timestamp g.
Proof.
  destruct f as [n [b|] [t|]], g as [n' [b'|] [t'|]]; cbn; intros HA HB E;
    try (destruct HA; discriminate); try (destruct HB; discriminate); try discriminate E;
    try done;
    [apply (inj (String.append "block:")) in E | apply (inj (String.append "time:")) in E];
    apply (inj pretty) in E; by subst.
Qed.

(** The schedule of a configuration has distinct names in a fixed order and
    one kind of activation point per fork. *)
Lemma ForkSchedule_names c c' :
  map fork_Name (ForkSchedule c) = map fork_Name (ForkSchedule c').
Proof. reflexivity. Qed.

Lemma ForkSchedule_NoDup c : NoDup (map fork_Name (ForkSchedule c)).
Proof. simpl. by apply (bool_decide_unpack _). Qed.

Lemma ForkSchedule_point c f :
  f ∈ ForkSchedule c -> fork_Block f = None \/ fork_Timestamp f = None.
Proof.
  unfold ForkSchedule. rewrite elem_of_app. intros [H|H].
  - right. apply list_elem_of_fmap in H as ([n b] & -> & _). done.
  - left. repeat (apply elem_of_cons in H as [->|H]; [done|]). by apply elem_of_nil in H.
Qed.

Lemma find_fork_In fs f :
  NoDup (map fork_Name fs) -> f ∈ fs -> find_fork (fork_Name f) fs = Some f.
Proof.
  induction fs as [|g fs IH]; simpl; intros HN Hf; [by apply elem_of_nil in Hf|].
  apply NoDup_cons in HN as [Hg HN]. case_bool_decide as E.
  - apply elem_of_cons in Hf as [->|Hf]; [done|]. destruct Hg. rewrite E.
    by apply list_elem_of_fmap_2.
  - apply elem_of_cons in Hf as [->|Hf]; [done|auto].
Qed.

Lemma ForkID_ext f g :
  fork_Name f = fork_Name g -> fork_Block f = fork_Block g ->
  fork_Timestamp f = fork_Timestamp g -> f = g.
Proof. destruct f, g; cbn; congruence. Qed.

Lemma diff_loop_elem ls rs d :
  map fork_Name ls = map fork_Name rs ->
  d ∈ diff_loop ls rs <->
  exists i lf rf, ls !! i = Some lf /\ rs !! i = Some rf /\
    forkPointString lf <> forkPointString rf /\
    d = mkDiff (fork_Name lf) (forkPointString lf) (forkPointString rf).
Proof.
  revert rs; induction ls as [|lf ls IH]; intros [|rf rs] HN; simpl in HN |- *; try discriminate HN.
  - rewrite elem_of_nil. split; [done|]. intros (i & ? & ? & Hl & _). done.
  - injection HN as H0 HN. specialize (IH rs HN). rewrite bool_decide_eq_true_2 by done; simpl.
    case_bool_decide as E; simpl; [|rewrite elem_of_cons]; rewrite IH; split.
    + intros (i & H). by exists (S i).
    + intros ([|i] & lf' & rf' & Hl & Hr & Hp & Hd); simplify_eq/=; by exists i, lf', rf'.
    + intros [->|(i & H)]; [by exists 0%nat, lf, rf|by exists (S i)].
    + intros ([|i] & lf' & rf' & Hl & Hr & Hp & Hd); simplify_eq/=; [by left|].
      right. by exists i, lf', rf'.
Qed.

Lemma first_active_None schedule num time diffs :
  first_active schedule num time diffs = None <->
  forall d f, d ∈ diffs -> find_fork (ForkName d) schedule = Some f ->
              ForkID_IsActive f (Some num) time = false.
Proof.
  induction diffs as [|d diffs IH]; simpl.
  { split; [|done]. intros _ d f H. by apply elem_of_nil in H. }
  destruct (find_fork (ForkName d) schedule) as [f|] eqn:Ef; [destruct (ForkID_IsActive f _ _) eqn:Ea|].
  - split; [done|]. intros H. rewrite (H d f) in Ea; [done|by left|done].
  - rewrite IH. split; [|intros H d' f' Hd; apply H; by right].
    intros H d' f' [->|Hd]%elem_of_cons Hf; [congruence|eauto].
  - rewrite IH. split; [|intros H d' f' Hd; apply H; by right].
    intros H d' f' [->|Hd]%elem_of_cons Hf; [congruence|eauto].
Qed.

(** Two configurations pass [CheckConfigCompatible] exactly when every fork
    of the local schedule that is active at the head has the same activation
    point in the remote schedule.  The test is one-sided: a fork that only the
    remote configuration has activated is not reported. *)
Lemma CheckConfigCompatible_iff localC remoteC headNum headTime :
  CheckConfigCompatible localC remoteC headNum headTime = None <->
  ActiveForks localC (Some headNum) headTime ⊆ ForkSchedule remoteC.
Proof.
  unfold CheckConfigCompatible, ConfigDiff. rewrite first_active_None.
  pose proof (ForkSchedule_names localC remoteC) as HN.
  pose proof (ForkSchedule_NoDup localC) as HD.
  split; intros H.
  - intros f Hf. unfold ActiveForks in Hf.
    apply list_elem_of_In, List.filter_In in Hf as [Hf%list_elem_of_In Ha].
    apply list_elem_of_lookup_1 in Hf as Hi. destruct Hi as [i Hi].
    assert (Hn : map fork_Name (ForkSchedule remoteC) !! i = Some (fork_Name f))
      by (rewrite <- HN; by apply list_lookup_fmap_Some_2).
    apply list_lookup_fmap_Some in Hn as (g & Hg & Hj).
    destruct (decide (forkPointString f = forkPointString g)) as [E|E].
    + apply forkPointString_inj in E as [E1 E2]; eauto using ForkSchedule_point, list_elem_of_lookup_2.
      rewrite (ForkID_ext f g) by done. by eapply list_elem_of_lookup_2.
    + rewrite (H (mkDiff (fork_Name f) (forkPointString f) (forkPointString g)) f) in Ha; [done| |].
      * apply diff_loop_elem; [done|]. by exists i, f, g.
      * by apply find_fork_In.
  - intros d f Hd Hf. apply diff_loop_elem in Hd as (i & lf & rf & Hl & Hr & Hp & ->); [|done].
    cbn [ForkName] in Hf.
    rewrite (find_fork_In _ lf) in Hf by eauto using list_elem_of_lookup_2.
    injection Hf as <-. destruct (ForkID_IsActive lf _ _) eqn:Ea; [|done].
    assert (HI : lf ∈ ForkSchedule remoteC).
    { apply H, list_elem_of_In, List.filter_In. split; [|done].
      apply list_elem_of_In. by eapply list_elem_of_lookup_2. }
    apply list_elem_of_lookup_1 in HI as [j Hj].
    assert (i = j); [|congruence].
    eapply NoDup_lookup; [exact HD|by apply list_lookup_fmap_Some_2|].
    rewrite HN. by apply list_lookup_fmap_Some_2.
Qed.
