(* ===== verification/Blocks.v ===== *)
(** * Blocks and headers (core/types/header.go, header_rlp.go, block.go,
    block_rlp.go, withdrawal.go)

    The containers of the chain and their RLP forms.  Hashes, addresses, blooms
    and nonces are the big-endian values of their byte arrays.  The decoders
    read the RLP stream item by item, as the source does. *)

From stdpp Require Import base list.
From Stdlib Require Import ZArith Lia.
From S2P Require Import Prelude Rlp StateDB Transactions.
Local Open Scope Z_scope.
Local Open Scope go_scope.

Record Header := mkHeader {
  h_ParentHash : Hash;
  h_UncleHash : Hash;
  h_Coinbase : Address;
  h_Root : Hash;
  h_TxHash : Hash;
  h_ReceiptHash : Hash;
  h_Bloom : Z;
  h_Difficulty : option Z;
  h_Number : option Z;
  h_GasLimit : Z;
  h_GasUsed : Z;
  h_Time : Z;
  h_Extra : bytes;
  h_MixDigest : Hash;
  h_Nonce : Z;
  h_BaseFee : option Z;
  h_WithdrawalsHash : option Hash;
  h_BlobGasUsed : option Z;
  h_ExcessBlobGas : option Z;
  h_ParentBeaconRoot : option Hash;
  h_RequestsHash : option Hash;
  h_BlockAccessListHash : option Hash;
  h_TargetBlobsPerBlock : option Z;
  h_CalldataGasUsed : option Z;
  h_CalldataExcessGas : option Z;
  h_GasLimitVec : option (Z * Z * Z);
  h_GasUsedVec : option (Z * Z * Z);
  h_ExcessGasVec : option (Z * Z * Z);
}.

(** ** Encoding a header *)

Definition lBloom : layout Z := lFixed 256.
Definition lNonce : layout Z := lFixed 8.

Definition bigIntOrZero (v : option Z) : Z := default 0 v.

(** The fifteen mandatory items. *)
Definition base_items (h : Header) : list eres :=
  [ encodeAs lHash (h_ParentHash h); encodeAs lHash (h_UncleHash h);
    encodeAs lAddress (h_Coinbase h); encodeAs lHash (h_Root h);
    encodeAs lHash (h_TxHash h); encodeAs lHash (h_ReceiptHash h);
    encodeAs lBloom (h_Bloom h); encodeAs lBig (bigIntOrZero (h_Difficulty h));
    encodeAs lBig (bigIntOrZero (h_Number h)); encodeAs lUint64 (h_GasLimit h);
    encodeAs lUint64 (h_GasUsed h); encodeAs lUint64 (h_Time h);
    encodeAs lBytes (h_Extra h); encodeAs lHash (h_MixDigest h);
    encodeAs lNonce (h_Nonce h) ].

(** The optional items in order; [None] for a nil field.  [eip7706] is the
    package variable [EIP7706HashFields]. *)
Definition optional_items (eip7706 : bool) (h : Header) : list (option eres) :=
  [ encodeAs lBig <$> h_BaseFee h; encodeAs lHash <$> h_WithdrawalsHash h;
    encodeAs lUint64 <$> h_BlobGasUsed h; encodeAs lUint64 <$> h_ExcessBlobGas h;
    encodeAs lHash <$> h_ParentBeaconRoot h; encodeAs lHash <$> h_RequestsHash h;
    (if eip7706 then encodeAs lUint64 <$> h_CalldataGasUsed h else None);
    (if eip7706 then encodeAs lUint64 <$> h_CalldataExcessGas h else None) ].

Definition emptyRLP : bytes := [0x80].

(** Is a field at or after this position present? *)
Definition anyFrom (l : list (option eres)) : bool := existsb (fun o => bool_decide (is_Some o)) l.

(** A missing field is written as a placeholder while a later one is present. *)
Fixpoint appendOptional (l : list (option eres)) : list eres :=
  if anyFrom l then
    match l with
    | [] => []
    | o :: rest => default (EOk emptyRLP) o :: appendOptional rest
    end
  else [].

Definition Header_EncodeRLP (eip7706 : bool) (h : Header) : eres :=
  map_eres WrapList
    (concat_enc (base_items h ++ appendOptional (optional_items eip7706 h))).

(** [computeHeaderHash] *)
Definition Header_Hash (keccak256 : bytes -> bytes) (eip7706 : bool) (h : Header) : Hash :=
  match Header_EncodeRLP eip7706 h with EOk e => BytesToHash (keccak256 e) | _ => 0 end.

(** ** Decoding a header *)

(** [decodeHash], [decodeAddress], [decodeBloom] and [decodeBlockNonce]:
    [copy(h[n-len(b):], b)], whose slice expression panics on a longer string. *)
Definition decodeFixed (n : Z) : D Z :=
  b <~ stream_Bytes ;;
  if zlen b >? n then dpanic else dret (SetBytes b).

Definition finishHeader (h : Header) : D Header := _ <~ ListEnd ;; dret h.

(** The rest of the optional fields, unless the list ends here. *)
Definition orEnd (h : Header) (k : D Header) : D Header := fun s =>
  if AtListEnd s then finishHeader h s else k s.

(** An optional hash: a string of another length leaves the field nil. *)
Definition decodeOptHash : D (option Hash) :=
  b <~ stream_Bytes ;;
  dret (if zlen b =? 32 then Some (BytesToHash b) else None).

Definition decodeOptional (eip7706 : bool) (h : Header) : D Header :=
  let 'mkHeader p u c r t rc bl d n gl gu ti ex mx no _ _ _ _ _ _ _ _ _ _ _ _ _ := h in
  let hdr bf wh bg eb pb rq cu ce :=
    mkHeader p u c r t rc bl d n gl gu ti ex mx no bf wh bg eb pb rq None None cu ce None None None in
  orEnd h (bf <~ stream_BigInt ;; let bf := Some bf in
  orEnd (hdr bf None None None None None None None) (wh <~ decodeOptHash ;;
  orEnd (hdr bf wh None None None None None None) (bg <~ stream_Uint64 ;; let bg := Some bg in
  orEnd (hdr bf wh bg None None None None None) (eb <~ stream_Uint64 ;; let eb := Some eb in
  orEnd (hdr bf wh bg eb None None None None) (pb <~ decodeOptHash ;;
  orEnd (hdr bf wh bg eb pb None None None) (rq <~ decodeOptHash ;;
  if negb eip7706 then finishHeader (hdr bf wh bg eb pb rq None None) else
  orEnd (hdr bf wh bg eb pb rq None None) (cu <~ stream_Uint64 ;; let cu := Some cu in
  orEnd (hdr bf wh bg eb pb rq cu None) (ce <~ stream_Uint64 ;;
  finishHeader (hdr bf wh bg eb pb rq cu (Some ce)))))))))).

Definition decodeHeader (eip7706 : bool) : D Header :=
  _ <~ stream_List ;;
  parent <~ decodeFixed 32 ;; uncle <~ decodeFixed 32 ;; coinbase <~ decodeFixed 20 ;;
  root <~ decodeFixed 32 ;; tx <~ decodeFixed 32 ;; receipt <~ decodeFixed 32 ;;
  bloom <~ decodeFixed 256 ;;
  difficulty <~ stream_BigInt ;; number <~ stream_BigInt ;;
  gasLimit <~ stream_Uint64 ;; gasUsed <~ stream_Uint64 ;; time <~ stream_Uint64 ;;
  extra <~ stream_Bytes ;; mix <~ decodeFixed 32 ;; nonce <~ decodeFixed 8 ;;
  decodeOptional eip7706
    (mkHeader parent uncle coinbase root tx receipt bloom (Some difficulty) (Some number)
       gasLimit gasUsed time extra mix nonce None None None None None None None None None None
       None None None).

Definition tres_of {A} (r : sres A) : tres A :=
  match r with SOk a _ => TOk a | SErr _ _ => TErr | SPanic => TPanic | SFuel => TFuel end.

Definition DecodeHeaderRLP (eip7706 : bool) (d : bytes) : tres Header :=
  tres_of (decodeHeader eip7706 (newByteStream d)).

(** ** Withdrawals *)

Record Withdrawal := mkWithdrawal {
  w_Index : Z;
  w_ValidatorIndex : Z;
  w_Address : Address;
  w_Amount : Z;
}.

Definition withdrawalRLP : layout _ := struct { lUint64 ; lUint64 ; lAddress ; lUint64 }.

(** An encoding error gives nil. *)
Definition EncodeWithdrawal (w : Withdrawal) : bytes :=
  match encodeAs withdrawalRLP ⟪ w_Index w ; w_ValidatorIndex w ; w_Address w ; w_Amount w ⟫ with
  | EOk b => b
  | _ => []
  end.

Definition DecodeWithdrawal (fuel : nat) (d : bytes) : tres Withdrawal :=
  tbind (decodeAs withdrawalRLP fuel d) (fun '(i, (v, (a, (m, _)))) => TOk (mkWithdrawal i v a m)).

(** ** Blocks *)

(** [b_Withdrawals = None] is the nil slice of a block before Shanghai. *)
Record Body := mkBody {
  b_Transactions : list Transaction;
  b_Uncles : list Header;
  b_Withdrawals : option (list Withdrawal);
}.

Record Block := mkBlock {
  blk_header : Header;
  blk_body : Body;
}.

(** A legacy transaction is a list item, a typed one a string item. *)
Definition encodeBlockTx (tx : Transaction) : eres :=
  if txType (inner tx) =? LegacyTxType then EncodeRLP (inner tx)
  else match EncodeRLP (inner tx) with
       | EOk e => EncodeToBytes (GBytes e)
       | r => r
       end.

Definition Block_EncodeRLP (eip7706 : bool) (b : Block) : eres :=
  let body := blk_body b in
  map_eres WrapList (concat_enc
    ([ Header_EncodeRLP eip7706 (blk_header b);
       map_eres WrapList (concat_enc (map encodeBlockTx (b_Transactions body)));
       map_eres WrapList (concat_enc (map (Header_EncodeRLP eip7706) (b_Uncles body))) ]
     ++ match b_Withdrawals body with
        | None => []
        | Some ws => [ EOk (WrapList (concat (map EncodeWithdrawal ws))) ]
        end)).

(** Decoders over a stream that end in the results of the decoders of whole
    byte strings. *)
Definition B (A : Type) : Type := Stream -> tres (A * Stream).

Definition bret {A} (a : A) : B A := fun s => TOk (a, s).
Definition bbind {A B'} (m : B A) (k : A -> B B') : B B' := fun s =>
  tbind (m s) (fun '(a, s') => k a s').
Definition ofD {A} (m : D A) : B A := fun s =>
  match m s with SOk a s' => TOk (a, s') | SErr _ _ => TErr | SPanic => TPanic | SFuel => TFuel end.
Definition ofT {A} (r : tres A) : B A := fun s => tbind r (fun a => TOk (a, s)).

Notation "x <~~ m ;; k" := (bbind m (fun x => k))
  (at level 100, m at next level, right associativity) : go_scope.

(** [for !s.AtListEnd() { ... append(out, x) }] *)
Fixpoint items_loop {A} (lf : nat) (item : B A) (acc : list A) : B (list A) := fun s =>
  if AtListEnd s then TOk (acc, s)
  else match lf with
       | O => TFuel
       | S lf' => tbind (item s) (fun '(a, s') => items_loop lf' item (acc ++ [a]) s')
       end.

(** A list of items between [List] and [ListEnd]. *)
Definition list_of {A} (fuel : nat) (item : B A) : B (list A) :=
  _ <~~ ofD stream_List ;;
  xs <~~ items_loop fuel item [] ;;
  _ <~~ ofD ListEnd ;;
  bret xs.

Definition decodeBlockTx (fuel : nat) : B Transaction :=
  k <~~ ofD stream_Kind ;;
  txData <~~ (match k.1 with KList => ofD RawItem | _ => ofD stream_Bytes end) ;;
  ofT (DecodeTxRLP fuel txData).

Definition decodeRawHeader (eip7706 : bool) : B Header :=
  raw <~~ ofD RawItem ;; ofT (DecodeHeaderRLP eip7706 raw).

Definition decodeRawWithdrawal (fuel : nat) : B Withdrawal :=
  raw <~~ ofD RawItem ;; ofT (DecodeWithdrawal fuel raw).

Definition decodeBlock (eip7706 : bool) (fuel : nat) : B Block :=
  _ <~~ ofD stream_List ;;
  header <~~ decodeRawHeader eip7706 ;;
  txs <~~ list_of fuel (decodeBlockTx fuel) ;;
  uncles <~~ list_of fuel (decodeRawHeader eip7706) ;;
  withdrawals <~~ (fun s => if AtListEnd s then TOk (None, s)
                            else (ws <~~ list_of fuel (decodeRawWithdrawal fuel) ;; bret (Some ws)) s) ;;
  _ <~~ ofD ListEnd ;;
  bret (mkBlock header (mkBody txs uncles withdrawals)).

Definition DecodeBlockRLP (eip7706 : bool) (fuel : nat) (d : bytes) : tres Block :=
  tbind (decodeBlock eip7706 fuel (newByteStream d)) (fun '(b, _) => TOk b).
