(* ===== verification/BlockProofs.v ===== *)
(** * Round trips of headers and blocks

    The decoders of Blocks.v invert the encoders: headers up to the fields that
    the encoding does not carry, and whole blocks with their transactions,
    uncles and withdrawals. *)

From stdpp Require Import base list.
From Stdlib Require Import ZArith Lia.
From S2P Require Import Prelude Rlp RlpProofs StateDB Transactions TxProofs Blocks.
Local Open Scope Z_scope.
Local Open Scope go_scope.

(** ** Readers *)

(** [m] reads the item [e] as [a]. *)
Definition reads {A} (m : D A) (e : bytes) (a : A) : Prop :=
  0 < zlen e /\ forall s, at_item s e -> m s = SOk a (set_pos (pos s + zlen e) s).

(** [m] reads the rest [r] of the innermost list, and leaves the list. *)
Definition closes {A} (m : D A) (r : bytes) (a : A) : Prop :=
  forall s e st, stack s = e :: st -> e = pos s + zlen r -> at_item s r ->
    m s = SOk a (mkStream (data s) e st).

Lemma closes_bind {A B} (m : D A) (k : A -> D B) e r a b :
  reads m e a -> closes (k a) r b -> closes (x <~ m ;; k x) (e ++ r) b.
Proof.
  intros [_ Hm] Hk s l st Hs Hl Hat. unfold dbind.
  rewrite Hm by (by eapply at_item_prefix).
  erewrite (Hk _ l st); [done|done| |by apply at_item_next].
  rewrite pos_set_pos, Hl, zlen_app. lia.
Qed.

Lemma reads_bytes d : reads stream_Bytes (encodeString d) d.
Proof. split; [apply encodeString_pos|]. intros s. apply stream_Bytes_string. Qed.

Lemma reads_uint u : is_u64 u -> reads stream_Uint64 (encodeUint u) u.
Proof. intros H. split; [by apply encodeUint_pos|]. intros s Hs. by apply stream_Uint64_uint. Qed.

Lemma reads_big z : 0 <= z -> reads stream_BigInt (encodeBigInt z) z.
Proof.
  intros H. split; [rewrite encodeBigInt_string; apply encodeString_pos|].
  intros s Hs. by apply stream_BigInt_big.
Qed.

Lemma reads_bind {A B} (m : D A) (f : A -> B) e a :
  reads m e a -> reads (x <~ m ;; dret (f x)) e (f a).
Proof. intros [H0 H]. split; [done|]. intros s Hs. unfold dbind. by rewrite H. Qed.

Lemma reads_fixed (n : nat) x :
  0 <= x < 256 ^ Z.of_nat n -> reads (decodeFixed (Z.of_nat n)) (encodeString (be_bytes n x)) x.
Proof.
  intros Hx. split; [apply encodeString_pos|]. intros s Hs. unfold decodeFixed, dbind.
  rewrite (stream_Bytes_string _ _ Hs).
  assert (zlen (be_bytes n x) = Z.of_nat n) as -> by (unfold zlen; by rewrite length_be_bytes).
  destruct (Z.gtb_spec (Z.of_nat n) (Z.of_nat n)); [lia|]. unfold dret.
  by rewrite SetBytes_be_bytes_small.
Qed.

(** The encodings of the kinds of optional fields. *)
Definition encHash (x : Hash) : bytes := encodeString (be_bytes 32 x).

(** An optional hash: the placeholder is read as nil. *)
Lemma reads_optHash o :
  (forall x, o = Some x -> is_Hash x) -> reads decodeOptHash (default emptyRLP (encHash <$> o)) o.
Proof.
  intros Ho. split; [destruct o; [apply encodeString_pos|done]|]. intros s Hs.
  unfold decodeOptHash, dbind. destruct o as [x|]; cbn [default from_option fmap option_fmap option_map] in *.
  - unfold encHash in *. rewrite (stream_Bytes_string _ _ Hs).
    assert (zlen (be_bytes 32 x) = 32) as -> by (unfold zlen; by rewrite length_be_bytes).
    change (32 =? 32) with true. cbv iota. unfold dret, BytesToHash.
    specialize (Ho x eq_refl). unfold is_Hash in Ho.
    rewrite SetBytes_be_bytes_small by (simpl Z.of_nat; lia). by rewrite Z.mod_small by lia.
  - change emptyRLP with (encodeString []) in *. by rewrite (stream_Bytes_string _ _ Hs).
Qed.

(** ** Headers *)

Definition anySome {A} (l : list (option A)) : bool := existsb (fun o => bool_decide (is_Some o)) l.

(** [appendOptional] on encodings. *)
Fixpoint append_opt (l : list (option bytes)) : bytes :=
  if anySome l then
    match l with
    | [] => []
    | o :: rest => default emptyRLP o ++ append_opt rest
    end
  else [].

Lemma anySome_fmap {A B} (f : A -> B) l : anySome (map (fmap f) l) = anySome l.
Proof.
  induction l as [|o l IH]; [done|].
  change (bool_decide (is_Some (f <$> o)) || anySome (map (fmap f) l)
          = bool_decide (is_Some o) || anySome l).
  rewrite IH. by destruct o.
Qed.

Lemma appendOptional_ok l : concat_enc (appendOptional (map (fmap EOk) l)) = EOk (append_opt l).
Proof.
  induction l as [|o l IH]; [done|]. cbn [map appendOptional append_opt].
  change (anyFrom ?x) with (anySome x).
  change (fmap EOk o :: map (fmap EOk) l) with (map (fmap EOk) (o :: l)).
  rewrite anySome_fmap. destruct (anySome (o :: l)); [|done]. simpl. rewrite IH. by destruct o.
Qed.

Lemma concat_enc_app l1 l2 b1 b2 :
  concat_enc l1 = EOk b1 -> concat_enc l2 = EOk b2 -> concat_enc (l1 ++ l2) = EOk (b1 ++ b2).
Proof.
  revert b1; induction l1 as [|e l1 IH]; simpl; intros b1 H1 H2; [by injection H1 as <-|].
  destruct e as [e| |]; try done. destruct (concat_enc l1) as [b| |]; try done.
  injection H1 as <-. rewrite (IH b) by done. by rewrite <- app_assoc.
Qed.

Definition base_bytes (h : Header) : list bytes :=
  [ encHash (h_ParentHash h); encHash (h_UncleHash h);
    encodeString (be_bytes 20 (h_Coinbase h)); encHash (h_Root h);
    encHash (h_TxHash h); encHash (h_ReceiptHash h);
    encodeString (be_bytes 256 (h_Bloom h)); encodeBigInt (bigIntOrZero (h_Difficulty h));
    encodeBigInt (bigIntOrZero (h_Number h)); encodeUint (h_GasLimit h);
    encodeUint (h_GasUsed h); encodeUint (h_Time h);
    encodeString (h_Extra h); encHash (h_MixDigest h);
    encodeString (be_bytes 8 (h_Nonce h)) ].

Definition optional_bytes (eip7706 : bool) (h : Header) : list (option bytes) :=
  [ encodeBigInt <$> h_BaseFee h; encHash <$> h_WithdrawalsHash h;
    encodeUint <$> h_BlobGasUsed h; encodeUint <$> h_ExcessBlobGas h;
    encHash <$> h_ParentBeaconRoot h; encHash <$> h_RequestsHash h;
    (if eip7706 then encodeUint <$> h_CalldataGasUsed h else None);
    (if eip7706 then encodeUint <$> h_CalldataExcessGas h else None) ].

Definition header_payload (eip7706 : bool) (h : Header) : bytes :=
  concat (base_bytes h) ++ append_opt (optional_bytes eip7706 h).

Lemma EOk_fmap {A} (g : A -> bytes) (o : option A) : EOk <$> (g <$> o) = (fun x => EOk (g x)) <$> o.
Proof. by destruct o. Qed.

Lemma optional_items_eq eip7706 h :
  optional_items eip7706 h = map (fmap EOk) (optional_bytes eip7706 h).
Proof.
  unfold optional_items, optional_bytes. destruct eip7706; cbn [map]; rewrite !EOk_fmap; reflexivity.
Qed.

Lemma anyFrom_optional eip7706 h i :
  anyFrom (drop i (optional_items eip7706 h)) = anySome (drop i (optional_bytes eip7706 h)).
Proof.
  rewrite optional_items_eq, skipn_map. apply anySome_fmap.
Qed.

Lemma Header_EncodeRLP_eq eip7706 h :
  Header_EncodeRLP eip7706 h = EOk (wrapList (header_payload eip7706 h)).
Proof.
  unfold Header_EncodeRLP, header_payload.
  rewrite (concat_enc_app _ _ (concat (base_bytes h)) (append_opt (optional_bytes eip7706 h))); [done| |].
  - by apply concat_enc_ok.
  - by rewrite optional_items_eq, appendOptional_ok.
Qed.

(** The fields are in the range of their Go types. *)
Record header_ok (h : Header) : Prop := mkHeaderOk {
  ok_hashes : Forall is_Hash [h_ParentHash h; h_UncleHash h; h_Root h; h_TxHash h; h_ReceiptHash h; h_MixDigest h];
  ok_coinbase : is_Address (h_Coinbase h);
  ok_bloom : 0 <= h_Bloom h < 256 ^ 256;
  ok_nonce : 0 <= h_Nonce h < 256 ^ 8;
  ok_numbers : 0 <= bigIntOrZero (h_Difficulty h) /\ 0 <= bigIntOrZero (h_Number h) /\
               0 <= bigIntOrZero (h_BaseFee h);
  ok_words : Forall is_u64 [h_GasLimit h; h_GasUsed h; h_Time h];
  ok_optwords : Forall (fun o => is_u64 (default 0 o))
    [h_BlobGasUsed h; h_ExcessBlobGas h; h_CalldataGasUsed h; h_CalldataExcessGas h];
  ok_opthashes : Forall (fun o => forall x, o = Some x -> is_Hash x)
    [h_WithdrawalsHash h; h_ParentBeaconRoot h; h_RequestsHash h];
}.

(** What the decoder makes of an encoded header: nil numbers become zero, a
    missing number below a present field becomes zero, and the fields outside
    the encoding are nil. *)
Definition norm_header (eip7706 : bool) (h : Header) : Header :=
  let any i := anyFrom (drop i (optional_items eip7706 h)) in
  let num i o := if any i then Some (default 0 o) else None in
  mkHeader (h_ParentHash h) (h_UncleHash h) (h_Coinbase h) (h_Root h) (h_TxHash h)
    (h_ReceiptHash h) (h_Bloom h) (Some (bigIntOrZero (h_Difficulty h)))
    (Some (bigIntOrZero (h_Number h))) (h_GasLimit h) (h_GasUsed h) (h_Time h) (h_Extra h)
    (h_MixDigest h) (h_Nonce h)
    (num 0%nat (h_BaseFee h)) (h_WithdrawalsHash h) (num 2%nat (h_BlobGasUsed h))
    (num 3%nat (h_ExcessBlobGas h)) (h_ParentBeaconRoot h) (h_RequestsHash h) None None
    (num 6%nat (h_CalldataGasUsed h)) (num 7%nat (h_CalldataExcessGas h)) None None None.

Lemma closes_finish h : closes (finishHeader h) [] h.
Proof.
  intros s e st Hs He _. unfold finishHeader, dbind, ListEnd. rewrite Hs, zlen_nil, Z.add_0_r in *.
  subst e. by rewrite Z.eqb_refl.
Qed.

(** One optional field: either nothing follows, or the field (or its
    placeholder) is read and the rest follows. *)
Lemma closes_optional {X} (m : D X) (k : X -> D Header) o rest x h res :
  (anySome (o :: rest) = false -> h = res) ->
  reads m (default emptyRLP o) x ->
  (anySome (o :: rest) = true -> closes (k x) (append_opt rest) res) ->
  closes (orEnd h (y <~ m ;; k y)) (append_opt (o :: rest)) res.
Proof.
  intros Hf Hm Ht. cbn [append_opt]. intros s e st Hs He Hat. unfold orEnd, AtListEnd. rewrite Hs.
  destruct (anySome (o :: rest)).
  - destruct Hm as [H0 Hm]. rewrite zlen_app in He. pose proof (zlen_nonneg (append_opt rest)).
    destruct (Z.geb_spec (pos s) e); [lia|].
    apply (closes_bind m k (default emptyRLP o) (append_opt rest) x res); auto; [by split|].
    by rewrite zlen_app.
  - rewrite (Hf eq_refl). rewrite zlen_nil in He. destruct (Z.geb_spec (pos s) e); [|lia].
    apply (closes_finish res s e st); auto.
Qed.

Lemma default_empty {A} (enc : A -> bytes) (z : A) (o : option A) :
  enc z = emptyRLP -> default emptyRLP (enc <$> o) = enc (default z o).
Proof. intros E. by destruct o. Qed.

(** No field at or after a position: they are all nil. *)
Lemma anySome_false {A} (o : option A) l : anySome (o :: l) = false -> o = None /\ anySome l = false.
Proof. unfold anySome; simpl. destruct o; simpl; [done|by split]. Qed.

Ltac no_fields :=
  repeat match goal with
  | H : anySome (_ :: _) = false |- _ => apply anySome_false in H as [? H]
  | H : (if ?b then _ else None) = None |- _ => destruct b
  | H : _ <$> ?o = None |- _ => destruct o; [discriminate H|clear H]
  end.

Ltac optional x :=
  eapply (closes_optional _ _ _ _ x);
  [ intros HF; no_fields; reflexivity
  | first
    [ by apply reads_optHash
    | rewrite (default_empty encodeBigInt 0) by done; by apply reads_big
    | rewrite (default_empty encodeUint 0) by done; by apply reads_uint ]
  | intros HT; rewrite ?HT; clear HT ].

Lemma decodeOptional_ok eip7706 h h0 :
  header_ok h ->
  h0 = mkHeader (h_ParentHash h) (h_UncleHash h) (h_Coinbase h) (h_Root h) (h_TxHash h)
         (h_ReceiptHash h) (h_Bloom h) (Some (bigIntOrZero (h_Difficulty h)))
         (Some (bigIntOrZero (h_Number h))) (h_GasLimit h) (h_GasUsed h) (h_Time h) (h_Extra h)
         (h_MixDigest h) (h_Nonce h) None None None None None None None None None None None None None ->
  closes (decodeOptional eip7706 h0) (append_opt (optional_bytes eip7706 h)) (norm_header eip7706 h).
Proof.
  intros [_ _ _ _ Hn _ Hw Hh] ->. rewrite !Forall_cons in Hw. rewrite !Forall_cons in Hh.
  destruct Hw as (W1 & W2 & W3 & W4 & _), Hh as (H1 & H2 & H3 & _), Hn as (_ & _ & N3).
  unfold norm_header, decodeOptional. rewrite !anyFrom_optional. unfold optional_bytes.
  destruct h as [p u c r t rc bl d n gl gu ti ex mx no bf wh bg eb pb rq ba tb cu ce v1 v2 v3].
  cbn [h_ParentHash h_UncleHash h_Coinbase h_Root h_TxHash h_ReceiptHash h_Bloom h_Difficulty
   h_Number h_GasLimit h_GasUsed h_Time h_Extra h_MixDigest h_Nonce h_BaseFee h_WithdrawalsHash
   h_BlobGasUsed h_ExcessBlobGas h_ParentBeaconRoot h_RequestsHash h_CalldataGasUsed h_CalldataExcessGas
   drop] in *.
  optional (bigIntOrZero bf). optional wh. optional (default 0 bg). optional (default 0 eb).
  optional pb. optional rq.
  destruct eip7706; cbn [negb].
  - optional (default 0 cu). optional (default 0 ce). apply closes_finish.
  - apply closes_finish.
Qed.

Lemma reads_hash x : is_Hash x -> reads (decodeFixed 32) (encHash x) x.
Proof. exact (reads_fixed 32 x). Qed.

Lemma reads_address x : is_Address x -> reads (decodeFixed 20) (encodeString (be_bytes 20 x)) x.
Proof. exact (reads_fixed 20 x). Qed.

Create HintDb readdb.
#[local] Hint Resolve reads_hash reads_address reads_bytes reads_uint reads_big : readdb.

Lemma decodeHeader_ok eip7706 h s :
  header_ok h -> at_item s (wrapList (header_payload eip7706 h)) ->
  decodeHeader eip7706 s
  = SOk (norm_header eip7706 h) (set_pos (pos s + zlen (wrapList (header_payload eip7706 h))) s).
Proof.
  intros Hok Hat. unfold decodeHeader, dbind at 1. rewrite (stream_List_wrap _ _ Hat).
  apply at_item_payload in Hat.
  match goal with |- ?m _ = _ =>
    assert (closes m (header_payload eip7706 h) (norm_header eip7706 h)) as HC;
    [|rewrite (HC _ (pos s + zlen (wrapList (header_payload eip7706 h))) (stack s));
      [done|done|simpl; lia|exact Hat]] end.
  pose proof (decodeOptional_ok eip7706 h _ Hok eq_refl) as HO.
  destruct Hok as [Hh Hc Hb Hn (N1 & N2 & _) Hw _ _].
  rewrite !Forall_cons in Hh. destruct Hh as (A1 & A2 & A3 & A4 & A5 & A6 & _).
  rewrite !Forall_cons in Hw. destruct Hw as (W1 & W2 & W3 & _).
  unfold header_payload, base_bytes. cbn [concat]. rewrite <- !app_assoc.
  do 6 (eapply closes_bind; [by eauto with readdb|]).
  eapply closes_bind; [exact (reads_fixed 256 _ Hb)|].
  do 7 (eapply closes_bind; [by eauto with readdb|]).
  eapply closes_bind; [exact (reads_fixed 8 _ Hn)|]. exact HO.
Qed.

Lemma at_item_whole b : zlen b < 2 ^ 63 -> at_item (newByteStream b) b.
Proof.
  intros H. exists [], []. cbn [newByteStream data pos app]. rewrite app_nil_r.
  unfold limit; simpl. repeat split; rewrite ?(@zlen_nil Z); try done; lia.
Qed.

Lemma DecodeHeaderRLP_ok eip7706 h :
  header_ok h -> zlen (wrapList (header_payload eip7706 h)) < 2 ^ 63 ->
  DecodeHeaderRLP eip7706 (wrapList (header_payload eip7706 h)) = TOk (norm_header eip7706 h).
Proof.
  intros Hok Hl. unfold DecodeHeaderRLP. by rewrite (decodeHeader_ok eip7706 h) by auto using at_item_whole.
Qed.

(** Every header whose fields are in range has an encoding, and decoding
    it gives back all the fields that the encoding carries.  Nil numbers come
    back as zero when a later field is present; the block access list hash,
    the blob target and the gas vectors are not part of the encoding, so the
    block hash does not commit to them. *)
Lemma DecodeHeaderRLP_EncodeRLP eip7706 h :
  header_ok h ->
  exists enc, Header_EncodeRLP eip7706 h = EOk enc /\
    (zlen enc < 2 ^ 63 -> DecodeHeaderRLP eip7706 enc = TOk (norm_header eip7706 h)).
Proof.
  intros Hok. eexists. split; [apply Header_EncodeRLP_eq|]. by apply DecodeHeaderRLP_ok.
Qed.

(** A header after Shanghai without a base fee field, and with an access list hash. *)
Definition w_header : Header :=
  mkHeader 1 2 3 4 5 6 7 None (Some 8) 30000000 21000 1700000000 [1; 2; 3] 9 10 None (Some 11)
    None (Some 131072) None None (Some 12) (Some 6) None None None None None.

Lemma DecodeHeaderRLP_EncodeRLP_witness :
  header_ok w_header /\
  exists enc, Header_EncodeRLP false w_header = EOk enc /\
    (zlen enc < 2 ^ 63 -> DecodeHeaderRLP false enc = TOk (norm_header false w_header)).
Proof.
  assert (header_ok w_header) as H.
  { constructor; unfold is_Hash, is_Address, is_u64; simpl;
      repeat first [apply Forall_cons_2 | apply Forall_nil_2]; cbn; try intros; simplify_eq; lia. }
  split; [exact H|exact (DecodeHeaderRLP_EncodeRLP false w_header H)].
Defined.

(** ** Blocks *)

Lemma RawItem_wrap s p :
  at_item s (wrapList p) ->
  RawItem s = SOk (wrapList p) (set_pos (pos s + zlen (wrapList p)) s).
Proof.
  intros H. pose proof (zlen_nonneg p). pose proof (zlen_le_wrapList p).
  assert (zlen p < 2 ^ 63) as Hlen by (at_bounds H; lia).
  pose proof (at_item_slice0 s (wrapList p) []) as HS. rewrite app_nil_r in HS. specialize (HS H).
  unfold RawItem.
  destruct (wrapList_form p Hlen) as [(H55 & E)|(H55 & E)]; rewrite E in *; at_bounds H;
    (destruct (Z.geb_spec (pos s) (limit s)); [pose proof (zlen_nonneg (Bytes (zlen p))); lia|]);
    rewrite (at_item_index s _ _ H).
  - prefix_case. rewrite zlen_cons in *.
    replace (pos s + 1 + (192 + zlen p - 192)) with (pos s + (1 + zlen p)) by lia.
    destruct (Z.gtb_spec (pos s + (1 + zlen p)) (limit s)); [lia|]. by rewrite HS.
  - destruct (long_length (zlen p)) as (_ & HB & HR & Hi & _); [lia|]. prefix_case.
    replace (247 + zlen (Bytes (zlen p)) - 247) with (zlen (Bytes (zlen p))) by lia.
    pose proof (at_item_slice s [_] (Bytes (zlen p)) p H) as HL.
    rewrite (@zlen_cons Z), (@zlen_nil Z), Z.add_0_r in HL.
    rewrite (@zlen_cons Z), (@zlen_app Z) in *.
    destruct (Z.gtb_spec (pos s + 1 + zlen (Bytes (zlen p))) (limit s)); [lia|].
    rewrite HL, HR, Hi, i64_small by lia.
    replace (pos s + 1 + zlen (Bytes (zlen p)) + zlen p)
      with (pos s + (1 + (zlen (Bytes (zlen p)) + zlen p))) by lia.
    destruct (Z.gtb_spec (pos s + (1 + (zlen (Bytes (zlen p)) + zlen p))) (limit s)); [lia|].
    by rewrite HS.
Qed.

Lemma stream_Kind_string s d :
  at_item s (encodeString d) -> exists k n, stream_Kind s = SOk (k, n) s /\ k <> KList.
Proof.
  intros H. pose proof (zlen_nonneg d). pose proof (zlen_le_encodeString d).
  assert (zlen d < 2 ^ 63) as Hlen by (at_bounds H; lia).
  assert (pos s < limit s) by (at_bounds H; pose proof (encodeString_pos d); lia).
  unfold stream_Kind. destruct (Z.geb_spec (pos s) (limit s)); [lia|].
  destruct (encodeString_form d Hlen) as [(x & -> & Hx & E)|[(H55 & Hne & E)|(H55 & E)]];
    rewrite E in *; at_bounds H; rewrite (at_item_index s _ _ H).
  - prefix_case. by eexists _, _.
  - prefix_case. by eexists _, _.
  - destruct (long_length (zlen d)) as (_ & HB & _); [lia|]. prefix_case.
    replace (183 + zlen (Bytes (zlen d)) - 183) with (zlen (Bytes (zlen d))) by lia.
    pose proof (at_item_slice s [_] (Bytes (zlen d)) d H) as HS.
    rewrite (@zlen_cons Z), (@zlen_nil Z), Z.add_0_r in HS.
    destruct (Z.gtb_spec (pos s + 1 + zlen (Bytes (zlen d))) (limit s)); [lia|].
    rewrite HS. by eexists _, _.
Qed.

(** [m] reads the item [e] as [a], in the decoder of blocks. *)
Definition breads {A} (m : B A) (e : bytes) (a : A) : Prop :=
  0 < zlen e /\ forall s, at_item s e -> m s = TOk (a, set_pos (pos s + zlen e) s).

Lemma bbind_read {A B'} (m : B A) (k : A -> B B') e r a s :
  breads m e a -> at_item s (e ++ r) -> bbind m k s = k a (set_pos (pos s + zlen e) s).
Proof.
  intros [_ Hm] Hat. unfold bbind. by rewrite Hm by (by eapply at_item_prefix).
Qed.

Lemma items_loop_ok {A} (item : B A) encs xs lf acc s e st :
  Forall2 (breads item) encs xs -> (length xs <= lf)%nat ->
  stack s = e :: st -> e = pos s + zlen (concat encs) -> at_item s (concat encs) ->
  items_loop lf item acc s = TOk (acc ++ xs, set_pos e s).
Proof.
  intros HF. revert lf acc s. induction HF as [|enc x encs xs Hx HF IH]; intros lf acc s Hl Hs He Hat.
  - cbn [concat] in He. rewrite (@zlen_nil Z) in He.
    assert (AtListEnd s = true) as HA by (unfold AtListEnd; rewrite Hs; destruct (Z.geb_spec (pos s) e); [done|lia]).
    rewrite app_nil_r. destruct lf; simpl; rewrite HA; do 2 f_equal; unfold set_pos;
      destruct s; simpl in *; f_equal; lia.
  - destruct lf as [|lf]; [simpl in Hl; lia|]. cbn [concat items_loop] in *. rewrite (@zlen_app Z) in He.
    pose proof (zlen_nonneg (concat encs)). pose proof Hx as [H0 Hread].
    assert (AtListEnd s = false) as -> by (unfold AtListEnd; rewrite Hs; destruct (Z.geb_spec (pos s) e); [lia|done]).
    rewrite Hread by (by eapply at_item_prefix). cbn [tbind].
    rewrite IH; [by rewrite <- app_assoc|simpl in Hl; lia|done|rewrite pos_set_pos; lia|by apply at_item_next].
Qed.

Lemma list_of_ok {A} (item : B A) encs xs fuel :
  Forall2 (breads item) encs xs -> (length xs <= fuel)%nat ->
  breads (list_of fuel item) (wrapList (concat encs)) xs.
Proof.
  intros HF Hl. split; [apply wrapList_pos|]. intros s Hat.
  unfold list_of, bbind at 1, ofD at 1. rewrite (stream_List_wrap _ _ Hat). cbn [tbind].
  unfold bbind at 1.
  rewrite (items_loop_ok item encs xs fuel [] _ (pos s + zlen (wrapList (concat encs))) (stack s) HF Hl);
    [|done|simpl; lia|by apply at_item_payload].
  cbn [tbind]. unfold bbind, ofD, ListEnd, bret, set_pos. simpl. by rewrite Z.eqb_refl.
Qed.

Lemma raw_header_ok eip7706 h :
  header_ok h -> zlen (wrapList (header_payload eip7706 h)) < 2 ^ 63 ->
  breads (decodeRawHeader eip7706) (wrapList (header_payload eip7706 h)) (norm_header eip7706 h).
Proof.
  intros Hok Hl. split; [apply wrapList_pos|]. intros s Hat. unfold decodeRawHeader, bbind, ofD, ofT.
  rewrite (RawItem_wrap _ _ Hat). cbn [tbind]. by rewrite DecodeHeaderRLP_ok.
Qed.

Lemma withdrawal_ok w :
  is_u64 (w_Index w) -> is_u64 (w_ValidatorIndex w) -> is_Address (w_Address w) -> is_u64 (w_Amount w) ->
  exists p, EncodeWithdrawal w = wrapList p /\
    (zlen (wrapList p) < 2 ^ 63 ->
     exists n, forall fuel, (n <= fuel)%nat -> breads (decodeRawWithdrawal fuel) (wrapList p) w).
Proof.
  intros H1 H2 H3 H4. unfold EncodeWithdrawal, withdrawalRLP.
  destruct (decodeAs_encodeAs_all withdrawalRLP ⟪ w_Index w ; w_ValidatorIndex w ; w_Address w ; w_Amount w ⟫)
    as (enc & E & D); [tx_dom|].
  unfold withdrawalRLP in E. rewrite E. destruct (encodeAs_struct _ _ _ E) as [p ->].
  exists p. split; [done|]. intros Hl. destruct (D Hl) as [n Dn]. exists n. intros fuel Hf.
  split; [apply wrapList_pos|]. intros s Hat.
  unfold decodeRawWithdrawal, bbind, ofD, ofT, DecodeWithdrawal. rewrite (RawItem_wrap _ _ Hat). cbn [tbind].
  rewrite (Dn fuel Hf). by destruct w.
Qed.

Lemma block_tx_ok tx :
  tx_ok (inner tx) -> (forall t, inner tx <> Local t) ->
  exists enc, encodeBlockTx tx = EOk enc /\
    (zlen enc < 2 ^ 63 ->
     exists n, forall fuel, (n <= fuel)%nat ->
       breads (decodeBlockTx fuel) enc (NewTransaction (norm (inner tx)))).
Proof.
  intros Hok Hloc. destruct (tx_roundtrip (inner tx) Hok) as (enc & E & D).
  assert (Hdec : zlen enc < 2 ^ 63 -> exists n, forall fuel, (n <= fuel)%nat ->
            DecodeTxRLP fuel enc = TOk (NewTransaction (norm (inner tx)))).
  { intros Hl. destruct (D Hl) as [n Dn]. exists n. intros fuel Hf. rewrite (Dn fuel Hf).
    destruct (inner tx); try done. by destruct (Hloc t). }
  unfold encodeBlockTx. destruct (Z.eqb_spec (txType (inner tx)) LegacyTxType) as [Ety|Ety].
  - assert (exists p, enc = wrapList p) as [p ->].
    { destruct (inner tx); try discriminate Ety. simpl in E. unfold encodeLegacyTx in E.
      by eapply encodeAs_struct. }
    exists (wrapList p). split; [done|]. intros Hl. destruct (Hdec Hl) as [n Dn]. exists n. intros fuel Hf.
    split; [apply wrapList_pos|]. intros s Hat.
    destruct (stream_Kind_list s p Hat) as [m Hk]. unfold decodeBlockTx, bbind, ofD, ofT.
    rewrite Hk. cbn [tbind fst]. rewrite (RawItem_wrap _ _ Hat). cbn [tbind]. by rewrite Dn.
  - rewrite E. exists (encodeString enc). split; [done|]. intros Hl.
    pose proof (zlen_le_encodeString enc).
    destruct (Hdec ltac:(lia)) as [n Dn]. exists n. intros fuel Hf.
    split; [apply encodeString_pos|]. intros s Hat.
    destruct (stream_Kind_string s enc Hat) as (k & m & Hk & Hnk). unfold decodeBlockTx, bbind, ofD, ofT.
    rewrite Hk. cbn [tbind fst].
    destruct k; try done; rewrite (stream_Bytes_string _ _ Hat); cbn [tbind]; by rewrite Dn.
Qed.

(** The encoding of each element can be read back as [f] of it. *)
Definition item_ok {X A} (encode : X -> eres) (item : nat -> B A) (f : X -> A) (x : X) : Prop :=
  exists enc, encode x = EOk enc /\
    (zlen enc < 2 ^ 63 -> exists n, forall fuel, (n <= fuel)%nat -> breads (item fuel) enc (f x)).

Lemma coded_items_ok {X A} (encode : X -> eres) (item : nat -> B A) f xs :
  Forall (item_ok encode item f) xs ->
  exists encs, map encode xs = map EOk encs /\
    (zlen (concat encs) < 2 ^ 63 ->
     exists n, forall fuel, (n <= fuel)%nat -> Forall2 (breads (item fuel)) encs (map f xs)).
Proof.
  induction 1 as [|x xs (enc & E & Hx) _ (encs & Es & IH)].
  { exists []. split; [done|]. intros _. exists 0%nat. intros. constructor. }
  exists (enc :: encs). split; [simpl; by rewrite E, Es|]. cbn [concat]. rewrite (@zlen_app Z). intros Hl.
  pose proof (zlen_nonneg enc). pose proof (zlen_nonneg (concat encs)).
  destruct (Hx ltac:(lia)) as [n1 H1], (IH ltac:(lia)) as [n2 H2].
  exists (Nat.max n1 n2). intros fuel Hf. constructor; [apply H1; lia|apply H2; lia].
Qed.

Lemma list_ok {X A} (encode : X -> eres) (item : nat -> B A) f xs :
  Forall (item_ok encode item f) xs ->
  exists p, concat_enc (map encode xs) = EOk p /\
    (zlen (wrapList p) < 2 ^ 63 ->
     exists n, forall fuel, (n <= fuel)%nat ->
       breads (list_of fuel (item fuel)) (wrapList p) (map f xs)).
Proof.
  intros H. destruct (coded_items_ok _ _ _ _ H) as (encs & E & D). exists (concat encs).
  split; [by apply concat_enc_ok|]. intros Hl. pose proof (zlen_le_wrapList (concat encs)).
  destruct (D ltac:(lia)) as [n Dn]. exists (Nat.max n (length xs)). intros fuel Hf.
  apply list_of_ok; [apply Dn; lia|]. rewrite length_map. lia.
Qed.

Definition withdrawal_wf (w : Withdrawal) : Prop :=
  is_u64 (w_Index w) /\ is_u64 (w_ValidatorIndex w) /\ is_Address (w_Address w) /\ is_u64 (w_Amount w).

(** No LocalTx: its encoding is not accepted by the decoder. *)
Definition block_tx_wf (tx : Transaction) : Prop :=
  tx_ok (inner tx) /\ forall t, inner tx <> Local t.

Definition block_ok (b : Block) : Prop :=
  header_ok (blk_header b) /\ Forall block_tx_wf (b_Transactions (blk_body b)) /\
  Forall header_ok (b_Uncles (blk_body b)) /\
  Forall withdrawal_wf (default [] (b_Withdrawals (blk_body b))).

Definition norm_block (eip7706 : bool) (b : Block) : Block :=
  mkBlock (norm_header eip7706 (blk_header b))
    (mkBody (map (fun tx => NewTransaction (norm (inner tx))) (b_Transactions (blk_body b)))
       (map (norm_header eip7706) (b_Uncles (blk_body b))) (b_Withdrawals (blk_body b))).

Lemma txs_item_ok txs :
  Forall block_tx_wf txs ->
  Forall (item_ok encodeBlockTx decodeBlockTx (fun tx => NewTransaction (norm (inner tx)))) txs.
Proof. intros H. eapply Forall_impl; [exact H|]. intros tx [H1 H2]. by apply block_tx_ok. Qed.

Lemma headers_item_ok eip7706 hs :
  Forall header_ok hs ->
  Forall (item_ok (Header_EncodeRLP eip7706) (fun _ => decodeRawHeader eip7706) (norm_header eip7706)) hs.
Proof.
  intros H. eapply Forall_impl; [exact H|]. intros h Hh. eexists. split; [apply Header_EncodeRLP_eq|].
  intros Hl. exists 0%nat. intros _ _. by apply raw_header_ok.
Qed.

Lemma withdrawals_item_ok ws :
  Forall withdrawal_wf ws ->
  Forall (item_ok (fun w => EOk (EncodeWithdrawal w)) decodeRawWithdrawal id) ws.
Proof.
  intros H. eapply Forall_impl; [exact H|]. intros w (H1 & H2 & H3 & H4).
  destruct (withdrawal_ok w H1 H2 H3 H4) as (p & E & D). exists (wrapList p). by rewrite E.
Qed.

Lemma concat_enc_EOk {A} (f : A -> bytes) l : concat_enc (map (fun x => EOk (f x)) l) = EOk (concat (map f l)).
Proof. apply concat_enc_ok. by rewrite map_map. Qed.

(** [m] reads the rest of the innermost list and leaves it. *)
Definition bcloses {A} (m : B A) (r : bytes) (a : A) : Prop :=
  forall s e st, stack s = e :: st -> e = pos s + zlen r -> at_item s r ->
    m s = TOk (a, mkStream (data s) e st).

Lemma bcloses_bind {A B'} (m : B A) (k : A -> B B') e r a b :
  breads m e a -> bcloses (k a) r b -> bcloses (bbind m k) (e ++ r) b.
Proof.
  intros Hm Hk s l st Hs Hl Hat. rewrite (bbind_read m k e r a s Hm Hat).
  erewrite (Hk _ l st); [done|done| |by apply at_item_next].
  rewrite pos_set_pos, Hl, (@zlen_app Z). lia.
Qed.

Lemma bcloses_end {A} (a : A) : bcloses (_ <~~ ofD ListEnd ;; bret a) [] a.
Proof.
  intros s e st Hs He _. unfold bbind, ofD, ListEnd. rewrite Hs. rewrite (@zlen_nil Z), Z.add_0_r in He.
  subst e. by rewrite Z.eqb_refl.
Qed.

(** An optional list at the end of another one. *)
Definition opt_tail {X} (encode : X -> bytes) (l : option (list X)) : bytes :=
  match l with None => [] | Some l => wrapList (concat (map encode l)) end.

Definition block_tail (ws : option (list Withdrawal)) : bytes := opt_tail EncodeWithdrawal ws.

Lemma opt_tail_close {X R} (encode : X -> bytes) (item : nat -> B X) (l : option (list X)) (k : option (list X) -> R) :
  Forall (item_ok (fun x => EOk (encode x)) item id) (default [] l) -> zlen (opt_tail encode l) < 2 ^ 63 ->
  exists n, forall fuel, (n <= fuel)%nat ->
    bcloses
      (l' <~~ (fun s => if AtListEnd s then TOk (None, s)
                        else (xs <~~ list_of fuel (item fuel) ;; bret (Some xs)) s) ;;
       _ <~~ ofD ListEnd ;; bret (k l')) (opt_tail encode l) (k l).
Proof.
  intros Hwf Hl. destruct l as [l|]; simpl opt_tail in *.
  - destruct (list_ok _ _ _ _ Hwf) as (p & E & D).
    rewrite concat_enc_EOk in E. injection E as E. cbn [default from_option] in E. rewrite E in *.
    destruct (D Hl) as [n Dn]. exists n. intros fuel Hf.
    rewrite <- (app_nil_r (wrapList p)). specialize (Dn fuel Hf). rewrite map_id in Dn.
    intros s e st Hs He Hat. destruct Dn as [H0 Dn]. rewrite (@zlen_app Z), (@zlen_nil Z) in He.
    unfold bbind at 1, AtListEnd. rewrite Hs. destruct (Z.geb_spec (pos s) e); [lia|].
    unfold bbind at 1. rewrite Dn by (by eapply at_item_prefix). cbn [tbind]. unfold bret at 1. cbn [tbind].
    refine (bcloses_end (k (Some l)) (set_pos _ s) e st Hs _ (at_item_next _ _ _ Hat)).
    rewrite pos_set_pos, (@zlen_nil Z). lia.
  - exists 0%nat. intros fuel _ s e st Hs He Hat. unfold bbind at 1, AtListEnd. rewrite Hs.
    rewrite (@zlen_nil Z) in He. destruct (Z.geb_spec (pos s) e); [|lia]. cbn [tbind].
    refine (bcloses_end (k None) s e st Hs _ Hat). rewrite (@zlen_nil Z). lia.
Qed.

Lemma block_encoding eip7706 b pt pu :
  concat_enc (map encodeBlockTx (b_Transactions (blk_body b))) = EOk pt ->
  concat_enc (map (Header_EncodeRLP eip7706) (b_Uncles (blk_body b))) = EOk pu ->
  Block_EncodeRLP eip7706 b =
    EOk (wrapList (wrapList (header_payload eip7706 (blk_header b)) ++ wrapList pt ++ wrapList pu ++
                   block_tail (b_Withdrawals (blk_body b)))).
Proof.
  intros E1 E2. unfold Block_EncodeRLP. rewrite E1, E2, Header_EncodeRLP_eq. unfold map_eres, WrapList.
  unfold block_tail. destruct (b_Withdrawals (blk_body b)); cbn [app concat_enc opt_tail]; by rewrite !app_nil_r.
Qed.

(** Decoding the encoding of a block whose fields are in range gives the
    block back: the header and the uncles up to the fields their encoding does
    not carry, every transaction normalised, in order, and the withdrawals,
    with a nil list and an empty one kept apart.  A LocalTx in the block is
    the one exception. *)
Lemma DecodeBlockRLP_EncodeRLP eip7706 b :
  block_ok b ->
  exists enc, Block_EncodeRLP eip7706 b = EOk enc /\
    (zlen enc < 2 ^ 63 ->
     exists n, forall fuel, (n <= fuel)%nat ->
       DecodeBlockRLP eip7706 fuel enc = TOk (norm_block eip7706 b)).
Proof.
  intros (Hh & Ht & Hu & Hw).
  destruct (list_ok _ _ _ _ (txs_item_ok _ Ht)) as (pt & Et & Dt).
  destruct (list_ok _ _ _ _ (headers_item_ok eip7706 _ Hu)) as (pu & Eu & Du).
  rewrite (block_encoding eip7706 b pt pu Et Eu). eexists. split; [done|]. intros Hl.
  match goal with |- context [wrapList (?x ++ ?y)] => set (payload := x ++ y) in * end.
  pose proof (zlen_le_wrapList payload) as Hp.
  assert (HL : zlen payload = zlen (wrapList (header_payload eip7706 (blk_header b))) + (zlen (wrapList pt) +
            (zlen (wrapList pu) + zlen (block_tail (b_Withdrawals (blk_body b))))))
    by (unfold payload; by rewrite !(@zlen_app Z)).
  pose proof (zlen_nonneg (wrapList (header_payload eip7706 (blk_header b)))).
  pose proof (zlen_nonneg (wrapList pt)). pose proof (zlen_nonneg (wrapList pu)).
  pose proof (zlen_nonneg (block_tail (b_Withdrawals (blk_body b)))).
  destruct (Dt ltac:(lia)) as [n1 D1], (Du ltac:(lia)) as [n2 D2].
  destruct (opt_tail_close EncodeWithdrawal decodeRawWithdrawal (b_Withdrawals (blk_body b))
    (fun ws => mkBlock (norm_header eip7706 (blk_header b))
       (mkBody (map (fun tx => NewTransaction (norm (inner tx))) (b_Transactions (blk_body b)))
          (map (norm_header eip7706) (b_Uncles (blk_body b))) ws)) (withdrawals_item_ok _ Hw) ltac:(unfold block_tail in *; lia)) as [n3 D3].
  exists (Nat.max n1 (Nat.max n2 n3)). intros fuel Hf.
  unfold DecodeBlockRLP, decodeBlock, bbind at 1, ofD at 1.
  pose proof (at_item_whole _ Hl) as Hat. rewrite (stream_List_wrap _ _ Hat). cbn [tbind].
  match goal with |- tbind (?m ?st) _ = _ =>
    assert (bcloses m payload (norm_block eip7706 b)) as HC;
    [|rewrite (HC st (pos (newByteStream (wrapList payload)) + zlen (wrapList payload)) []);
      [reflexivity|reflexivity|simpl pos; lia|by apply at_item_payload]] end.
  eapply bcloses_bind; [apply raw_header_ok; [exact Hh|lia]|].
  eapply bcloses_bind; [apply D1; lia|]. eapply bcloses_bind; [apply D2; lia|]. apply D3; lia.
Qed.

Definition w_block : Block :=
  mkBlock w_header
    (mkBody [NewTransaction w_tx; NewTransaction (Legacy (mkLegacyTx 1 (Some 2) 21000 (Some 0xE0) (Some 5) [] (Some 27) (Some 1) (Some 1)))]
       [w_header] (Some [mkWithdrawal 1 2 3 4])).

Lemma w_header_ok : header_ok w_header.
Proof.
  constructor; unfold is_Hash, is_Address, is_u64; simpl;
    repeat first [apply Forall_cons_2 | apply Forall_nil_2]; cbn; try intros; simplify_eq; lia.
Qed.

Lemma w_block_ok : block_ok w_block.
Proof.
  split; [exact w_header_ok|]. unfold w_block, w_tx; cbn [blk_body b_Transactions b_Uncles b_Withdrawals default from_option].
  split; [|split]; repeat first [apply Forall_cons_2 | apply Forall_nil_2]; try exact w_header_ok;
    unfold block_tx_wf, tx_ok, ok_u64s, ok_bigs, is_u64, ok_big, ok_tuple, is_Hash, withdrawal_wf, is_Address, is_u64;
    cbn; repeat first [apply Forall_cons_2 | apply Forall_nil_2 | split]; cbn; try done; lia.
Qed.

Lemma DecodeBlockRLP_EncodeRLP_witness :
  block_ok w_block /\
  exists enc, Block_EncodeRLP false w_block = EOk enc /\
    (zlen enc < 2 ^ 63 ->
     exists n, forall fuel, (n <= fuel)%nat ->
       DecodeBlockRLP false fuel enc = TOk (norm_block false w_block)).
Proof. split; [exact w_block_ok|exact (DecodeBlockRLP_EncodeRLP false w_block w_block_ok)]. Defined.

(** A header whose first field, the parent hash, is a string of more than
    32 bytes does not give an error: [decodeHash] slices with a negative index
    and the decoder panics.  Blocks come from peers and from the Engine API. *)
Lemma DecodeHeaderRLP_long_hash_panics eip7706 d rest :
  32 < zlen d -> zlen (wrapList (encodeString d ++ rest)) < 2 ^ 63 ->
  DecodeHeaderRLP eip7706 (wrapList (encodeString d ++ rest)) = TPanic.
Proof.
  intros Hd Hl. unfold DecodeHeaderRLP, decodeHeader, dbind at 1.
  pose proof (at_item_whole _ Hl) as Hat. rewrite (stream_List_wrap _ _ Hat).
  apply at_item_payload, at_item_prefix in Hat. unfold dbind at 1, decodeFixed at 1, dbind at 1.
  rewrite (stream_Bytes_string _ _ Hat). by destruct (Z.gtb_spec (zlen d) 32); [|lia].
Qed.

Lemma DecodeHeaderRLP_long_hash_panics_witness :
  DecodeHeaderRLP false (wrapList (encodeString (replicate 33 1) ++ [])) = TPanic.
Proof. apply (DecodeHeaderRLP_long_hash_panics false (replicate 33 1) []); by vm_compute. Defined.
