(* ===== verification/Receipts.v ===== *)
(** * Receipts: receipts, log blooms and log filters

    core/types/receipt.go, receipt_rlp.go, bloom.go and the filters of log.go.
    A bloom filter is the 2048-bit number its 256 bytes spell in big-endian
    order, as hashes and addresses are. *)

From stdpp Require Import base list.
From Stdlib Require Import ZArith Lia.
From S2P Require Import Prelude Rlp RlpProofs StateDB Transactions TxProofs Blocks BlockProofs.
Local Open Scope Z_scope.
Local Open Scope go_scope.

(** ** Receipts *)

(** [PostState], and the inclusion fields that [DeriveReceiptFields] fills in,
    are left out. *)
Record Receipt := mkReceipt {
  rc_Type : Z;
  rc_Status : Z;
  rc_CumulativeGasUsed : Z;
  rc_Bloom : Z;
  rc_Logs : list Log;
  rc_TxHash : Hash;
  rc_ContractAddress : Address;
  rc_GasUsed : Z;
  rc_EffectiveGasPrice : option Z;
  rc_BlobGasUsed : Z;
  rc_BlobGasPrice : option Z;
  rc_CalldataGasUsed : Z;
  rc_CalldataGasPrice : option Z;
  rc_DimStorageGas : Z;
  rc_BlockGasUsed : Z;
}.

Definition ReceiptStatusFailed : Z := 0.
Definition ReceiptStatusSuccessful : Z := 1.

Definition Succeeded (r : Receipt) : bool := rc_Status r =? ReceiptStatusSuccessful.

(** ** Bloom filters *)

Section Bloom.

Context (keccak256 : bytes -> bytes).

(** Bits 0 to 10 of each of the first three big-endian words of the hash. *)
Definition bloom9 (d : bytes) : list Z :=
  let h := keccak256 d in
  map (fun i => Z.land (SetBytes (take 2 (drop (2 * i) h))) 0x7FF) [0; 1; 2]%nat.

(** [bloom[255 - bit/8] |= 1 << (bit%8)] sets the bit number [bit]. *)
Definition BloomAdd (bloom : Z) (d : bytes) : Z :=
  fold_left (fun b bit => Z.lor b (Z.shiftl 1 bit)) (bloom9 d) bloom.

Definition BloomContains (bloom : Z) (d : bytes) : bool :=
  forallb (fun bit => negb (Z.land bloom (Z.shiftl 1 bit) =? 0)) (bloom9 d).

(** One log: [LogBloom], and the body of the loop of [LogsBloom]. *)
Definition addLog (bloom : Z) (l : Log) : Z :=
  fold_left (fun b t => BloomAdd b (be_bytes 32 t)) (log_Topics l)
    (BloomAdd bloom (be_bytes 20 (log_Address l))).

Definition LogsBloom (logs : list Log) : Z := fold_left addLog logs 0.

Definition LogBloom (l : Log) : Z := addLog 0 l.

Definition CreateBloom (receipts : list Receipt) : Z :=
  fold_left (fun b r => Z.lor b (rc_Bloom r)) receipts 0.

Definition BloomMatchesLog (bloom : Z) (l : Log) : bool :=
  BloomContains bloom (be_bytes 20 (log_Address l))
  && forallb (fun t => BloomContains bloom (be_bytes 32 t)) (log_Topics l).

(** ** Log filters *)

Record LogFilter := mkLogFilter {
  f_Addresses : list Address;
  f_Topics : list (list Hash);
  f_FromBlock : Z;
  f_ToBlock : Z;
}.

(** The positions of the filter against the topics of the log. *)
Fixpoint topicsMatch (sets : list (list Hash)) (topics : list Hash) : bool :=
  match sets with
  | [] => true
  | set :: sets' =>
      match set, topics with
      | [], _ => topicsMatch sets' (tail topics)
      | _, [] => false
      | _, t :: topics' => bool_decide (t ∈ set) && topicsMatch sets' topics'
      end
  end.

(** [blockNumber] is the field [BlockNumber] of the log, set by the caller. *)
Definition FilterMatch (blockNumber : Z) (l : Log) (f : LogFilter) : bool :=
  negb ((f_FromBlock f >? 0) && (blockNumber <? f_FromBlock f))
  && negb ((f_ToBlock f >? 0) && (blockNumber >? f_ToBlock f))
  && match f_Addresses f with [] => true | _ => bool_decide (log_Address l ∈ f_Addresses f) end
  && topicsMatch (f_Topics f) (log_Topics l).

Definition FilterLogs (logs : list (Z * Log)) (f : LogFilter) : list (Z * Log) :=
  filter (fun bl => FilterMatch bl.1 bl.2 f = true) logs.

Definition BloomMatchesFilter (bloom : Z) (f : LogFilter) : bool :=
  match f_Addresses f with
  | [] => true
  | _ => existsb (fun a => BloomContains bloom (be_bytes 20 a)) (f_Addresses f)
  end
  && forallb (fun set => match set with
                         | [] => true
                         | _ => existsb (fun t => BloomContains bloom (be_bytes 32 t)) set
                         end) (f_Topics f).

End Bloom.

(** ** The encoding of receipts *)

Definition encodeLog (l : Log) : eres :=
  map_eres WrapList (concat_enc
    [ encodeAs lAddress (log_Address l);
      map_eres WrapList (concat_enc (map (encodeAs lHash) (log_Topics l)));
      encodeAs lBytes (log_Data l) ]).

Definition Receipt_EncodeRLP (r : Receipt) : eres :=
  let encoded := map_eres WrapList (concat_enc
    [ encodeAs lUint64 (rc_Status r);
      encodeAs lUint64 (rc_CumulativeGasUsed r);
      encodeAs lBloom (rc_Bloom r);
      map_eres WrapList (concat_enc (map encodeLog (rc_Logs r))) ]) in
  if negb (rc_Type r =? 0) then map_eres (fun e => rc_Type r :: e) encoded else encoded.

Definition decodeLog (fuel : nat) : B Log :=
  _ <~~ ofD stream_List ;;
  addr <~~ ofD (decodeFixed 20) ;;
  topics <~~ list_of fuel (ofD (decodeFixed 32)) ;;
  d <~~ ofD stream_Bytes ;;
  _ <~~ ofD ListEnd ;;
  bret (mkLog addr topics d 0 0).

Definition decodeReceipt (ty : Z) (fuel : nat) : B Receipt :=
  _ <~~ ofD stream_List ;;
  status <~~ ofD stream_Uint64 ;;
  cumulative <~~ ofD stream_Uint64 ;;
  bloom <~~ ofD (decodeFixed 256) ;;
  logs <~~ list_of fuel (decodeLog fuel) ;;
  _ <~~ ofD ListEnd ;;
  bret (mkReceipt ty status cumulative bloom logs 0 0 0 None 0 None 0 None 0 0).

Definition DecodeReceiptRLP (fuel : nat) (d : bytes) : tres Receipt :=
  let '(ty, body) := match d with
                     | x :: rest => if x <? 0x80 then (x, rest) else (0, d)
                     | [] => (0, d)
                     end in
  tbind (decodeReceipt ty fuel (newByteStream body)) (fun '(r, _) => TOk r).

(** ** Blooms never miss a log *)

Section BloomProofs.

Context (keccak256 : bytes -> bytes).

(** The bits of [b1] are set in [b2]. *)
Definition bits_le (b1 b2 : Z) : Prop := forall i, 0 <= i -> Z.testbit b1 i = true -> Z.testbit b2 i = true.

Lemma bits_le_refl b : bits_le b b.
Proof. by intros i. Qed.

Lemma bits_le_trans b1 b2 b3 : bits_le b1 b2 -> bits_le b2 b3 -> bits_le b1 b3.
Proof. intros H1 H2 i Hi Hb. by apply H2, H1. Qed.

Lemma bits_le_lor_l b c : bits_le b (Z.lor b c).
Proof. intros i Hi Hb. by rewrite Z.lor_spec, Hb. Qed.

Lemma bits_le_lor_r b c : bits_le c (Z.lor b c).
Proof. intros i Hi Hb. by rewrite Z.lor_spec, Hb, orb_true_r. Qed.

Lemma fold_bits_le {A} (f : Z -> A -> Z) l b :
  (forall b x, bits_le b (f b x)) -> bits_le b (fold_left f l b).
Proof.
  intros Hf. revert b. induction l as [|x l IH]; intros b; [apply bits_le_refl|]. simpl.
  eapply bits_le_trans; [apply Hf|apply IH].
Qed.

(** What one step of a fold sets stays set. *)
Lemma fold_bits_le_at {A} (f : Z -> A -> Z) l b x c :
  (forall b x, bits_le b (f b x)) -> (forall b, bits_le c (f b x)) -> x ∈ l ->
  bits_le c (fold_left f l b).
Proof.
  intros Hf Hc Hx. revert b. induction l as [|y l IH]; intros b; [by apply not_elem_of_nil in Hx|].
  simpl. apply elem_of_cons in Hx as [<-|Hx].
  - eapply bits_le_trans; [apply Hc|by apply fold_bits_le].
  - by apply IH.
Qed.

Lemma bloom9_nonneg d bit : bit ∈ bloom9 keccak256 d -> 0 <= bit.
Proof.
  unfold bloom9. intros H. apply list_elem_of_fmap in H as (i & -> & _).
  apply Z.land_nonneg. right; lia.
Qed.

Lemma shiftl1_testbit bit i : 0 <= bit -> 0 <= i -> Z.testbit (Z.shiftl 1 bit) i = (i =? bit).
Proof.
  intros Hb Hi. rewrite Z.shiftl_1_l. destruct (Z.eqb_spec i bit) as [->|Hn].
  - by apply Z.pow2_bits_true.
  - by apply Z.pow2_bits_false; auto.
Qed.

Lemma bit_set bloom bit :
  0 <= bit -> negb (Z.land bloom (Z.shiftl 1 bit) =? 0) = true <-> Z.testbit bloom bit = true.
Proof.
  intros Hb. split.
  - intros H. destruct (Z.testbit bloom bit) eqn:E; [done|]. exfalso.
    apply negb_true_iff, Z.eqb_neq in H. apply H. apply Z.bits_inj'. intros i Hi.
    rewrite Z.land_spec, Z.bits_0, shiftl1_testbit by done.
    destruct (Z.eqb_spec i bit) as [->|]; [by rewrite E|by rewrite andb_false_r].
  - intros H. apply negb_true_iff, Z.eqb_neq. intros E.
    assert (Z.testbit (Z.land bloom (Z.shiftl 1 bit)) bit = true) as T.
    { rewrite Z.land_spec, H, shiftl1_testbit by done. by rewrite Z.eqb_refl. }
    by rewrite E, Z.bits_0 in T.
Qed.

Lemma BloomContains_mono b1 b2 d :
  bits_le b1 b2 -> BloomContains keccak256 b1 d = true -> BloomContains keccak256 b2 d = true.
Proof.
  intros Hle. unfold BloomContains. rewrite !forallb_forall. intros H bit Hin.
  pose proof (bloom9_nonneg d bit ltac:(by apply list_elem_of_In)) as Hn.
  apply bit_set; [done|]. apply Hle; [done|]. apply bit_set; [done|]. by apply H.
Qed.

Lemma BloomAdd_le b d : bits_le b (BloomAdd keccak256 b d).
Proof. apply fold_bits_le. intros; apply bits_le_lor_l. Qed.

Lemma BloomAdd_contains b d : BloomContains keccak256 (BloomAdd keccak256 b d) d = true.
Proof.
  unfold BloomContains. rewrite forallb_forall. intros bit Hin.
  apply list_elem_of_In in Hin. pose proof (bloom9_nonneg d bit Hin) as Hn.
  apply bit_set; [done|]. unfold BloomAdd.
  apply (fold_bits_le_at _ _ b bit (Z.shiftl 1 bit)); try done.
  - intros; apply bits_le_lor_l.
  - intros; apply bits_le_lor_r.
  - rewrite shiftl1_testbit by done. apply Z.eqb_refl.
Qed.

Lemma addLog_le b l : bits_le b (addLog keccak256 b l).
Proof.
  unfold addLog. eapply bits_le_trans; [apply BloomAdd_le|]. apply fold_bits_le. intros; apply BloomAdd_le.
Qed.

Lemma addLog_address b l :
  BloomContains keccak256 (addLog keccak256 b l) (be_bytes 20 (log_Address l)) = true.
Proof.
  unfold addLog. eapply BloomContains_mono; [|apply BloomAdd_contains].
  apply fold_bits_le. intros; apply BloomAdd_le.
Qed.

Lemma fold_contains {A} (g : A -> bytes) l b x :
  x ∈ l -> BloomContains keccak256 (fold_left (fun b y => BloomAdd keccak256 b (g y)) l b) (g x) = true.
Proof.
  intros Hx. revert b. induction l as [|y l IH]; intros b; [by apply not_elem_of_nil in Hx|]. simpl.
  apply elem_of_cons in Hx as [<-|Hx]; [|by apply IH].
  eapply BloomContains_mono; [|apply BloomAdd_contains]. apply fold_bits_le. intros; apply BloomAdd_le.
Qed.

Lemma addLog_topic b l t :
  t ∈ log_Topics l -> BloomContains keccak256 (addLog keccak256 b l) (be_bytes 32 t) = true.
Proof. intros Ht. by apply (fold_contains (be_bytes 32)). Qed.

(** The bloom of a log is contained in that of any list with the log. *)
Lemma LogsBloom_has logs l d :
  l ∈ logs -> (forall b, BloomContains keccak256 (addLog keccak256 b l) d = true) ->
  BloomContains keccak256 (LogsBloom keccak256 logs) d = true.
Proof.
  intros Hl Hd. unfold LogsBloom. generalize 0. induction logs as [|y logs IH]; intros b;
    [by apply not_elem_of_nil in Hl|]. simpl. apply elem_of_cons in Hl as [<-|Hl]; [|by apply IH].
  eapply BloomContains_mono; [|apply Hd]. apply fold_bits_le, addLog_le.
Qed.

Lemma topicsMatch_in sets topics set :
  topicsMatch sets topics = true -> set ∈ sets -> set <> [] -> exists t, t ∈ topics /\ t ∈ set.
Proof.
  revert topics. induction sets as [|s sets IH]; intros topics Hm Hin Hne; [by apply not_elem_of_nil in Hin|].
  apply elem_of_cons in Hin as [->|Hin].
  - destruct s as [|x s], topics as [|t topics]; try done. simpl in Hm.
    apply andb_true_iff in Hm as [Ht _]. apply bool_decide_eq_true in Ht. exists t. split; [left|done].
  - destruct s as [|x s]; simpl in Hm.
    + destruct (IH (tail topics) Hm Hin Hne) as (t & H1 & H2). exists t. split; [|done].
      destruct topics; [done|by right].
    + destruct topics as [|t topics]; [done|]. apply andb_true_iff in Hm as [_ Hm].
      destruct (IH topics Hm Hin Hne) as (u & H1 & H2). exists u. split; [by right|done].
Qed.

(** A bloom that has the address and the topics of a log passes the filters
    the log passes. *)
Lemma BloomMatchesFilter_log bloom n l f :
  BloomMatchesLog keccak256 bloom l = true -> FilterMatch n l f = true ->
  BloomMatchesFilter keccak256 bloom f = true.
Proof.
  unfold BloomMatchesLog, FilterMatch, BloomMatchesFilter. rewrite !andb_true_iff.
  intros [Ha Ht] [[_ Hfa] Hft]. rewrite forallb_forall in Ht. split.
  - destruct (f_Addresses f) as [|a0 addrs]; [done|]. apply bool_decide_eq_true in Hfa.
    apply existsb_exists. exists (log_Address l). split; [by apply list_elem_of_In|done].
  - apply forallb_forall. intros set Hset. apply list_elem_of_In in Hset.
    destruct set as [|t0 set]; [done|].
    destruct (topicsMatch_in _ _ _ Hft Hset ltac:(done)) as (t & Hin & Hs).
    apply existsb_exists. exists t. split; [by apply list_elem_of_In|].
    apply Ht. by apply list_elem_of_In.
Qed.

Lemma LogsBloom_matches logs l : l ∈ logs -> BloomMatchesLog keccak256 (LogsBloom keccak256 logs) l = true.
Proof.
  intros Hl. unfold BloomMatchesLog. apply andb_true_iff. split.
  - apply (LogsBloom_has logs l); [done|]. intros; apply addLog_address.
  - apply forallb_forall. intros t Ht. apply (LogsBloom_has logs l); [done|].
    intros. by apply addLog_topic, list_elem_of_In.
Qed.

Lemma BloomMatchesLog_mono b1 b2 l :
  bits_le b1 b2 -> BloomMatchesLog keccak256 b1 l = true -> BloomMatchesLog keccak256 b2 l = true.
Proof.
  intros Hle. unfold BloomMatchesLog. rewrite !andb_true_iff, !forallb_forall. intros [Ha Ht]. split.
  - by eapply BloomContains_mono.
  - intros t Hin. eapply BloomContains_mono; [done|by apply Ht].
Qed.

(** C38. Skipping a block by its bloom is sound: when the block's bloom is
    [CreateBloom] of receipts whose blooms are those of their logs, and some
    log of some receipt matches the filter, then the bloom matches the filter. *)
Theorem BloomMatchesFilter_complete receipts r l n f :
  Forall (fun r => rc_Bloom r = LogsBloom keccak256 (rc_Logs r)) receipts ->
  r ∈ receipts -> l ∈ rc_Logs r -> FilterMatch n l f = true ->
  BloomMatchesFilter keccak256 (CreateBloom receipts) f = true.
Proof.
  intros Hb Hr Hl Hf. eapply BloomMatchesFilter_log; [|exact Hf].
  eapply BloomMatchesLog_mono; [|by apply LogsBloom_matches].
  unfold CreateBloom. apply (fold_bits_le_at _ receipts 0 r); [| |done].
  - intros; apply bits_le_lor_l.
  - intros b. rewrite Forall_forall in Hb. rewrite <- (Hb r Hr). apply bits_le_lor_r.
Qed.

End BloomProofs.

Definition w_log : Log := mkLog 0xAA01 [7; 9] [1; 2; 3] 0 0.

Definition w_filter : LogFilter := mkLogFilter [5; 0xAA01] [[]; [9; 10]] 0 100.

Definition w_receipt : Receipt :=
  mkReceipt 2 1 21000 (LogsBloom (fun b => b) [w_log]) [w_log] 0 0 0 None 0 None 0 None 0 0.

Lemma BloomMatchesFilter_complete_witness :
  FilterMatch 50 w_log w_filter = true /\
  BloomMatchesFilter (fun b => b) (CreateBloom [w_receipt]) w_filter = true.
Proof.
  split; [by vm_compute|].
  apply (BloomMatchesFilter_complete (fun b => b) [w_receipt] w_receipt w_log 50 w_filter).
  - by repeat constructor.
  - by left.
  - by left.
  - by vm_compute.
Defined.

(** ** The round trip of receipts *)

Lemma breads_ofD {A} (m : D A) e a : reads m e a -> breads (ofD m) e a.
Proof. intros [H0 H]. split; [done|]. intros s Hs. unfold ofD. by rewrite H. Qed.

(** A list item whose payload is read and closed by [m]. *)
Lemma breads_list {A} (m : B A) p a : bcloses m p a -> breads (_ <~~ ofD stream_List ;; m) (wrapList p) a.
Proof.
  intros Hm. split; [apply wrapList_pos|]. intros s Hat. unfold bbind at 1, ofD at 1.
  rewrite (stream_List_wrap _ _ Hat). cbn [tbind].
  rewrite (Hm _ (pos s + zlen (wrapList p)) (stack s)); [done|done|simpl; lia|by apply at_item_payload].
Qed.

Record log_ok (l : Log) : Prop := {
  lk_address : is_Address (log_Address l);
  lk_topics : Forall is_Hash (log_Topics l);
}.

(** What the encoding of a log carries. *)
Definition norm_log (l : Log) : Log := mkLog (log_Address l) (log_Topics l) (log_Data l) 0 0.

Definition log_payload (l : Log) : bytes :=
  encodeString (be_bytes 20 (log_Address l)) ++ wrapList (concat (map encHash (log_Topics l)))
  ++ encodeString (log_Data l).

Lemma encodeLog_eq l : encodeLog l = EOk (wrapList (log_payload l)).
Proof.
  unfold encodeLog, log_payload.
  rewrite (concat_enc_EOk encHash (log_Topics l) : concat_enc (map (encodeAs lHash) (log_Topics l)) = _).
  rewrite (concat_enc_ok _ [encodeString (be_bytes 20 (log_Address l));
    wrapList (concat (map encHash (log_Topics l))); encodeString (log_Data l)]) by done.
  cbn [map_eres concat]. by rewrite app_nil_r.
Qed.

Lemma decodeLog_ok l fuel :
  log_ok l -> (length (log_Topics l) <= fuel)%nat ->
  breads (decodeLog fuel) (wrapList (log_payload l)) (norm_log l).
Proof.
  intros [Ha Ht] Hf. apply breads_list. unfold log_payload.
  eapply bcloses_bind; [apply breads_ofD, reads_address; exact Ha|].
  eapply bcloses_bind.
  { apply (list_of_ok _ (map encHash (log_Topics l)) (log_Topics l)); [|done].
    rewrite <- (map_id (log_Topics l)) at 2. apply Forall2_fmap, Forall_Forall2_diag.
    eapply Forall_impl; [exact Ht|]. intros t Hx. by apply breads_ofD, reads_hash. }
  rewrite <- (app_nil_r (encodeString (log_Data l))).
  eapply bcloses_bind; [apply breads_ofD, reads_bytes|]. apply bcloses_end.
Qed.

Record receipt_ok (r : Receipt) : Prop := {
  rk_type : 0 <= rc_Type r < 0x80;
  rk_status : is_u64 (rc_Status r);
  rk_cumulative : is_u64 (rc_CumulativeGasUsed r);
  rk_bloom : 0 <= rc_Bloom r < 256 ^ 256;
  rk_logs : Forall log_ok (rc_Logs r);
}.

(** The consensus fields of a receipt. *)
Definition norm_receipt (r : Receipt) : Receipt :=
  mkReceipt (rc_Type r) (rc_Status r) (rc_CumulativeGasUsed r) (rc_Bloom r) (map norm_log (rc_Logs r))
    0 0 0 None 0 None 0 None 0 0.

Definition receipt_payload (r : Receipt) : bytes :=
  encodeUint (rc_Status r) ++ encodeUint (rc_CumulativeGasUsed r)
  ++ encodeString (be_bytes 256 (rc_Bloom r))
  ++ wrapList (concat (map (fun l => wrapList (log_payload l)) (rc_Logs r))).

Lemma Receipt_EncodeRLP_eq r :
  Receipt_EncodeRLP r
  = EOk ((if rc_Type r =? 0 then [] else [rc_Type r]) ++ wrapList (receipt_payload r)).
Proof.
  unfold Receipt_EncodeRLP. rewrite (map_ext _ _ encodeLog_eq), concat_enc_EOk.
  rewrite (concat_enc_ok _ [encodeUint (rc_Status r); encodeUint (rc_CumulativeGasUsed r);
    encodeString (be_bytes 256 (rc_Bloom r));
    wrapList (concat (map (fun l => wrapList (log_payload l)) (rc_Logs r)))]) by done.
  cbn [map_eres concat]. rewrite app_nil_r. by destruct (rc_Type r =? 0).
Qed.

Lemma decodeReceipt_ok r fuel s :
  receipt_ok r -> (length (rc_Logs r) <= fuel)%nat ->
  Forall (fun l => (length (log_Topics l) <= fuel)%nat) (rc_Logs r) ->
  at_item s (wrapList (receipt_payload r)) ->
  exists s', decodeReceipt (rc_Type r) fuel s = TOk (norm_receipt r, s').
Proof.
  intros [_ Hs Hc Hb Hl] Hn Hf Hat. eexists.
  refine (proj2 (breads_list _ _ _ _) s Hat). unfold receipt_payload.
  eapply bcloses_bind; [by apply breads_ofD, reads_uint|].
  eapply bcloses_bind; [by apply breads_ofD, reads_uint|].
  eapply bcloses_bind; [apply breads_ofD; exact (reads_fixed 256 _ Hb)|].
  rewrite <- (app_nil_r (wrapList (concat _))).
  eapply bcloses_bind; [|apply bcloses_end].
  apply (list_of_ok _ (map (fun l => wrapList (log_payload l)) (rc_Logs r)) (map norm_log (rc_Logs r)));
    [|by rewrite length_map].
  apply Forall2_fmap, Forall_Forall2_diag. rewrite Forall_forall in *. intros l Hin. apply decodeLog_ok; auto.
Qed.

Lemma max_fuel {A} (f : A -> nat) l n fuel :
  (foldr Nat.max n (map f l) <= fuel)%nat -> (n <= fuel)%nat /\ Forall (fun x => (f x <= fuel)%nat) l.
Proof.
  induction l as [|x l IH]; simpl; intros H; [by split|].
  destruct IH as [IH1 IH2]; [lia|]. split; [done|]. constructor; [lia|done].
Qed.

Lemma wrapList_first p :
  zlen (wrapList p) < 2 ^ 63 -> exists x t, wrapList p = x :: t /\ 0x80 <= x.
Proof.
  intros H. pose proof (zlen_le_wrapList p).
  pose proof (zlen_nonneg p). pose proof (zlen_nonneg (Bytes (zlen p))).
  destruct (wrapList_form p ltac:(lia)) as [(_ & ->)|(_ & ->)]; eexists _, _; (split; [done|lia]).
Qed.

(** Decoding the encoding of a receipt gives back its type and its consensus
    fields. *)
Lemma receipt_roundtrip r :
  receipt_ok r ->
  exists enc, Receipt_EncodeRLP r = EOk enc /\
    (zlen enc < 2 ^ 63 ->
     exists n, forall fuel, (n <= fuel)%nat -> DecodeReceiptRLP fuel enc = TOk (norm_receipt r)).
Proof.
  intros Hok. eexists. split; [apply Receipt_EncodeRLP_eq|]. intros Hl.
  exists (foldr Nat.max (length (rc_Logs r)) (map (fun l => length (log_Topics l)) (rc_Logs r))).
  intros fuel Hf. destruct (max_fuel _ _ _ _ Hf) as [F1 F2].
  assert (zlen (wrapList (receipt_payload r)) < 2 ^ 63) as Hw.
  { rewrite (@zlen_app Z) in Hl. pose proof (zlen_nonneg (if rc_Type r =? 0 then [] else [rc_Type r])). lia. }
  pose proof (at_item_whole _ Hw) as Hat.
  destruct (decodeReceipt_ok r fuel _ Hok F1 F2 Hat) as [s' E].
  unfold DecodeReceiptRLP. destruct (Z.eqb_spec (rc_Type r) 0) as [H0|H0]; cbn [app].
  - destruct (wrapList_first (receipt_payload r) Hw) as (x & t & Ex & Hx).
    rewrite Ex in *. destruct (Z.ltb_spec x 0x80); [lia|]. rewrite <- H0, E. done.
  - destruct Hok as [Ht _ _ _ _]. destruct (Z.ltb_spec (rc_Type r) 0x80); [|lia]. by rewrite E.
Qed.
