(* ===== verification/Fees.v ===== *)
(** * Block fee markets (core/gas: fee.go, constants.go, blob_gas.go,
    calldata_gas.go)

    The base fee of EIP-1559, the exponential fee of EIP-4844 with its later
    floors, and the calldata fee of EIP-7706.  Fees are big integers; gas is
    [uint64]. *)

From stdpp Require Import base list.
From Stdlib Require Import ZArith Lia.
From S2P Require Import Prelude Rlp StateDB Machine ChainConfig Transactions Blocks.
Local Open Scope Z_scope.
Local Open Scope go_scope.

Definition ElasticityMultiplier : Z := 2.
Definition BaseFeeChangeDenominator : Z := 8.
Definition InitialBaseFee : Z := 1000000000.
Definition MinBaseFee : Z := 7.

(** [new(big.Int).Div(a, b)] panics on zero; Euclidean otherwise. *)
Definition big_Div (a b : Z) : option Z := if b =? 0 then None else Some (a / b).

(** The base fee of the next block; [None] is a division by zero. *)
Definition CalcBaseFee (parent : Header) : option Z :=
  match h_BaseFee parent with
  | None => Some InitialBaseFee
  | Some baseFee =>
      let parentGasTarget := h_GasLimit parent / ElasticityMultiplier in
      if h_GasUsed parent =? parentGasTarget then Some baseFee
      else if h_GasUsed parent >? parentGasTarget then
        let gasUsedDelta := h_GasUsed parent -u parentGasTarget in
        match big_Div (baseFee * gasUsedDelta) parentGasTarget with
        | None => None
        | Some q =>
            let baseFeeDelta := q / BaseFeeChangeDenominator in
            let baseFeeDelta := if baseFeeDelta =? 0 then 1 else baseFeeDelta in
            Some (baseFee + baseFeeDelta)
        end
      else
        let gasUsedDelta := parentGasTarget -u h_GasUsed parent in
        match big_Div (baseFee * gasUsedDelta) parentGasTarget with
        | None => None
        | Some q =>
            let fee := baseFee - q / BaseFeeChangeDenominator in
            Some (if fee <? MinBaseFee then MinBaseFee else fee)
        end
  end.

(** ** The exponential fee *)

(** The loop of [fakeExponential]: [fe_loop fuel i accum output], with [None]
    when the fuel runs out. *)
Fixpoint fe_loop (fuel : nat) (numerator denominator i accum output : Z) : option Z :=
  if accum <=? 0 then Some output
  else match fuel with
       | O => None
       | S f => fe_loop f numerator denominator (i + 1)
                  (accum * numerator / (denominator * i)) (output + accum)
       end.

(** [fakeExponential] and [FakeExponentialV2]; the denominators of the source
    are positive. *)
Definition fakeExponential (fuel : nat) (factor numerator denominator : Z) : option Z :=
  output ← fe_loop fuel numerator denominator 1 (factor * denominator) 0;
  Some (output / denominator).

Definition calcBlobBaseFee (fuel : nat) (excessBlobGas : Z) : option Z :=
  fakeExponential fuel 1 excessBlobGas 3338477.

(** ** Blob gas *)

Definition GasPerBlob : Z := 131072.
Definition MinBaseFeePerBlobGas : Z := Z.shiftl 1 25.
Definition BlobBaseCost : Z := Z.shiftl 1 13.
Definition FusakaBlobBaseFeeUpdateFraction : Z := 5376681.

Record BlobSchedule := mkBlobSchedule {
  bs_Target : Z;
  bs_Max : Z;
  bs_UpdateFraction : Z;
}.

Definition CancunBlobSchedule := mkBlobSchedule 3 6 3338477.
Definition PragueBlobSchedule := mkBlobSchedule 6 9 5376681.
Definition BPO1BlobSchedule := mkBlobSchedule 10 15 8346193.
Definition BPO2BlobSchedule := mkBlobSchedule 14 21 11684671.

Definition GetBlobSchedule (c : ChainConfig) (time : Z) : BlobSchedule :=
  if cfg_IsBPO2 c time then BPO2BlobSchedule
  else if cfg_IsBPO1 c time then BPO1BlobSchedule
  else if cfg_IsPrague c time then PragueBlobSchedule
  else CancunBlobSchedule.

(** The reserve price of EIP-7918. *)
Definition CalcBlobReservePrice (baseFeePerGas : option Z) : Z :=
  match baseFeePerGas with
  | Some b => if b <=? 0 then 0 else BlobBaseCost * b / GasPerBlob
  | None => 0
  end.

Definition BlobBaseFeeWithFloor (computedFee : Z) (baseFeePerGas : option Z) : Z :=
  match baseFeePerGas with
  | Some b =>
      if b <=? 0 then computedFee
      else let reservePrice := BlobBaseCost * b / GasPerBlob in
           if reservePrice >? computedFee then reservePrice else computedFee
  | None => computedFee
  end.

Definition CalcBlobBaseFeeV2WithFraction (fuel : nat) (excessBlobGas : Z) (baseFeePerGas : option Z)
    (updateFraction : Z) : option Z :=
  computedFee ← fakeExponential fuel MinBaseFeePerBlobGas excessBlobGas updateFraction;
  Some (match baseFeePerGas with
        | Some b =>
            if b >? 0 then
              let reservePrice := BlobBaseCost * b / GasPerBlob in
              if reservePrice >? computedFee then reservePrice else computedFee
            else computedFee
        | None => computedFee
        end).

Definition CalcBlobBaseFeeGlamst (fuel : nat) (excessBlobGas : Z) (baseFeePerGas : option Z) : option Z :=
  computedFee ← fakeExponential fuel MinBaseFeePerBlobGas excessBlobGas FusakaBlobBaseFeeUpdateFraction;
  Some (BlobBaseFeeWithFloor computedFee baseFeePerGas).

Definition IsExecutionFeeLed (baseFeePerGas blobBaseFee : option Z) : bool :=
  match baseFeePerGas, blobBaseFee with
  | Some b, Some f => BlobBaseCost * b >? GasPerBlob * f
  | _, _ => false
  end.

Definition CalcExcessBlobGasV2WithSchedule (fuel : nat) (parentExcessBlobGas parentBlobGasUsed : Z)
    (parentBaseFeePerGas : option Z) (sched : BlobSchedule) : option Z :=
  let targetBlobGas := bs_Target sched *u GasPerBlob in
  if parentExcessBlobGas +u parentBlobGasUsed <? targetBlobGas then Some 0
  else
    let normal := parentExcessBlobGas +u parentBlobGasUsed -u targetBlobGas in
    match parentBaseFeePerGas with
    | Some b =>
        if b >? 0 then
          blobBaseFee ← fakeExponential fuel MinBaseFeePerBlobGas parentExcessBlobGas (bs_UpdateFraction sched);
          if BlobBaseCost * b >? GasPerBlob * blobBaseFee then
            Some (parentExcessBlobGas +u (parentBlobGasUsed *u (bs_Max sched -u bs_Target sched)) / bs_Max sched)
          else Some normal
        else Some normal
    | None => Some normal
    end.

Definition CalcExcessBlobGasV2ForHeader (fuel : nat) (parent : Header) (c : ChainConfig) (headerTime : Z)
  : option Z :=
  let sched := GetBlobSchedule c headerTime in
  let sched := match h_TargetBlobsPerBlock parent with
               | Some t => mkBlobSchedule t (bs_Max sched) (bs_UpdateFraction sched)
               | None => sched
               end in
  CalcExcessBlobGasV2WithSchedule fuel (default 0 (h_ExcessBlobGas parent))
    (default 0 (h_BlobGasUsed parent)) (h_BaseFee parent) sched.

(** ** Calldata gas *)

Definition CalldataGasLimitRatio : Z := 4.
Definition CalldataTargetRatio : Z := 4.
Definition CalldataBaseFeeUpdateFraction : Z := 8.
Definition MinCalldataBaseFee : Z := 1.

Definition CalcCalldataGasLimit (executionGasLimit : Z) : Z := executionGasLimit / CalldataGasLimitRatio.

Definition CalcCalldataGasTarget (calldataGasLimit : Z) : Z := calldataGasLimit / CalldataTargetRatio.

Definition CalcCalldataExcessGas (parentExcess parentUsed parentGasLimit : Z) : Z :=
  let target := CalcCalldataGasTarget (CalcCalldataGasLimit parentGasLimit) in
  let sum := parentExcess +u parentUsed in
  if sum <? target then 0 else sum -u target.

Definition CalcCalldataBaseFee (fuel : nat) (excessCalldataGas calldataGasLimit : Z) : option Z :=
  let target := CalcCalldataGasTarget calldataGasLimit in
  if target =? 0 then Some MinCalldataBaseFee
  else fakeExponential fuel MinCalldataBaseFee excessCalldataGas
         (target *u CalldataBaseFeeUpdateFraction).

Definition CalcCalldataBaseFeeFromHeader (fuel : nat) (parent : Header) : option Z :=
  match h_CalldataExcessGas parent with
  | None => Some MinCalldataBaseFee
  | Some excess => CalcCalldataBaseFee fuel excess (CalcCalldataGasLimit (h_GasLimit parent))
  end.

(** ** Correctness *)

Lemma fe_loop_fuel f f' n d i a o v :
  fe_loop f n d i a o = Some v -> (f <= f')%nat -> fe_loop f' n d i a o = Some v.
Proof.
  revert f' i a o; induction f as [|f IH]; intros [|f'] i a o; simpl; intros H Hf; try done; try lia.
  - by destruct (a <=? 0).
  - destruct (a <=? 0); [done|]. apply IH; [done|lia].
Qed.

Lemma fe_step n d i a : 0 <= n -> 0 < d -> 1 <= i -> 0 <= a -> 0 <= a * n / (d * i).
Proof. intros. apply Z.div_pos; nia. Qed.

(** From the point where [i * d] exceeds the numerator the terms decrease. *)
Lemma fe_loop_tail n d i a o :
  0 <= n -> 0 < d -> 1 <= i -> n < d * i -> 0 <= a ->
  exists f v, fe_loop f n d i a o = Some v.
Proof.
  intros Hn Hd. remember (Z.to_nat a) as k. revert i a o Heqk.
  induction k as [k IH] using lt_wf_ind. intros i a o -> Hi Hni Ha.
  destruct (Z.leb_spec a 0) as [Ha0|Ha0].
  { exists 0%nat, o. simpl. by destruct (Z.leb_spec a 0); [|lia]. }
  assert (a * n / (d * i) < a) by (apply Z.div_lt_upper_bound; nia).
  pose proof (fe_step n d i a Hn Hd Hi Ha).
  destruct (IH (Z.to_nat (a * n / (d * i))) ltac:(lia) (i + 1) (a * n / (d * i)) (o + a) eq_refl)
    as (f & v & E); [lia|nia|lia|].
  exists (S f), v. simpl. by destruct (Z.leb_spec a 0); [lia|].
Qed.

Lemma fe_loop_total n d i a o :
  0 <= n -> 0 < d -> 1 <= i -> 0 <= a -> exists f v, fe_loop f n d i a o = Some v.
Proof.
  intros Hn Hd. remember (Z.to_nat (n / d + 1 - i)) as k. revert i a o Heqk.
  induction k as [|k IH]; intros i a o Hk Hi Ha.
  - apply fe_loop_tail; try done.
    pose proof (Z.mul_succ_div_gt n d Hd). assert (n / d + 1 <= i) by lia. nia.
  - destruct (Z.leb_spec a 0) as [Ha0|Ha0].
    { exists 0%nat, o. simpl. by destruct (Z.leb_spec a 0); [|lia]. }
    pose proof (fe_step n d i a Hn Hd Hi Ha).
    destruct (IH (i + 1) (a * n / (d * i)) (o + a)) as (f & v & E); [lia|lia|done|].
    exists (S f), v. simpl. by destruct (Z.leb_spec a 0); [lia|].
Qed.

Lemma fe_loop_ge f n d i a o v : fe_loop f n d i a o = Some v -> o <= v.
Proof.
  revert i a o; induction f as [|f IH]; intros i a o; simpl; destruct (Z.leb_spec a 0); intros E;
    simplify_eq; try lia.
  apply IH in E. lia.
Qed.

(** A larger numerator gives larger terms, and so a larger sum. *)
Lemma fe_loop_mono f n1 n2 d i a1 a2 o1 o2 v1 v2 :
  0 <= n1 <= n2 -> 0 < d -> 1 <= i -> 0 <= a1 <= a2 -> o1 <= o2 ->
  fe_loop f n1 d i a1 o1 = Some v1 -> fe_loop f n2 d i a2 o2 = Some v2 -> v1 <= v2.
Proof.
  intros Hn Hd. revert i a1 a2 o1 o2. induction f as [|f IH]; intros i a1 a2 o1 o2 Hi Ha Ho E1 E2.
  - simpl in *. destruct (Z.leb_spec a1 0), (Z.leb_spec a2 0); simplify_eq; lia.
  - pose proof (fe_loop_ge _ _ _ _ _ _ _ E2). simpl in E1, E2.
    destruct (Z.leb_spec a1 0), (Z.leb_spec a2 0); simplify_eq; try lia.
    eapply (IH (i + 1)); [lia| |..|exact E1|exact E2]; [|lia].
    split; [apply fe_step; lia|]. apply Z.div_le_mono; nia.
Qed.

(** C40. The exponential fee is well defined and behaves as a price: for a
    positive factor and denominator the loop ends on every excess, the fee is
    at least the minimum [factor], and it does not decrease when the excess
    grows. *)
Theorem fakeExponential_price factor n1 n2 denominator :
  0 < factor -> 0 <= n1 <= n2 -> 0 < denominator ->
  exists N v1 v2, factor <= v1 <= v2 /\
    forall fuel, (N <= fuel)%nat ->
      fakeExponential fuel factor n1 denominator = Some v1 /\
      fakeExponential fuel factor n2 denominator = Some v2.
Proof.
  intros Hf Hn Hd.
  destruct (fe_loop_total n1 denominator 1 (factor * denominator) 0) as (f1 & o1 & E1); [nia..|].
  destruct (fe_loop_total n2 denominator 1 (factor * denominator) 0) as (f2 & o2 & E2); [nia..|].
  apply fe_loop_fuel with (f' := Nat.max f1 f2) in E1, E2; try lia.
  exists (Nat.max f1 f2), (o1 / denominator), (o2 / denominator). split.
  - split.
    + apply Z.div_le_lower_bound; [done|].
      destruct (Nat.max f1 f2) as [|f]; simpl in E1; destruct (Z.leb_spec (factor * denominator) 0);
        try nia; [done|]. apply fe_loop_ge in E1. lia.
    + apply Z.div_le_mono; [done|].
      eapply (fe_loop_mono _ n1 n2 denominator 1); [exact Hn|exact Hd|lia| |apply Z.le_refl|exact E1|exact E2]; nia.
  - intros fuel HN. unfold fakeExponential.
    by rewrite (fe_loop_fuel _ fuel _ _ _ _ _ _ E1), (fe_loop_fuel _ fuel _ _ _ _ _ _ E2).
Qed.

Lemma fakeExponential_price_witness :
  exists N v1 v2, 1 <= v1 <= v2 /\
    forall fuel, (N <= fuel)%nat ->
      fakeExponential fuel 1 393216 3338477 = Some v1 /\
      fakeExponential fuel 1 40000000 3338477 = Some v2.
Proof. apply (fakeExponential_price 1 393216 40000000 3338477); lia. Defined.

Lemma fee_share b delta target : 0 <= b -> 0 <= delta <= target -> 0 < target ->
  0 <= b * delta / target / 8 <= b / 8.
Proof.
  intros Hb Hd Ht. assert (0 <= b * delta / target <= b).
  { split; [apply Z.div_pos; nia|]. apply Z.div_le_upper_bound; nia. }
  split; [apply Z.div_pos; lia|apply Z.div_le_mono; lia].
Qed.

Lemma fee_share_above b delta target : 0 <= b -> 0 <= delta <= target + 1 -> 0 < target ->
  0 <= b * delta / target / 8 <= (b + b / target) / 8.
Proof.
  intros Hb Hd Ht. assert (0 <= b * delta / target <= b + b / target).
  { split; [apply Z.div_pos; nia|]. rewrite (Z.add_comm b), <- Z.div_add by lia. apply Z.div_le_mono; nia. }
  split; [apply Z.div_pos; lia|apply Z.div_le_mono; lia].
Qed.


Definition w_parent (used : Z) : Header :=
  mkHeader 0 0 0 0 0 0 0 None (Some 8) 30000000 used 0 [] 0 0 (Some 100) None
    None None None None None None None None None None None.

