(* ===== verification/TxState.v ===== *)
(** * TxState: the state database as the transaction processor uses it

    The operations of [state.StateDB] beyond those of the EVM that transaction
    execution calls, what is relied on, and the in-memory implementation
    (core/state/memory_statedb.go). *)

From S2P Require Import Prelude StateDB MemStateDB MemStateDBProofs.

Class TxStateDB (DB : Type) := {
  ClearAccessList : DB -> DB;
  ClearTransientStorage : DB -> DB;
  SetTxContext : Hash -> Z -> DB -> DB;
}.

(** None of the three is journaled. *)
Class TxStateDBLaws (DB : Type) `{StateDBLaws DB, !TxStateDB DB} := {
  wf_ClearAccessList : forall s, wf_state s -> wf_state (ClearAccessList s);
  wf_ClearTransient : forall s, wf_state s -> wf_state (ClearTransientStorage s);
  wf_SetTxContext : forall h i s, wf_state s -> wf_state (SetTxContext h i s);
  supply_ClearAccessList : forall s, supply (ClearAccessList s) = supply s;
  supply_ClearTransient : forall s, supply (ClearTransientStorage s) = supply s;
  supply_SetTxContext : forall h i s, supply (SetTxContext h i s) = supply s;
  same_ClearAccessList : forall s, same_world s (ClearAccessList s);
  same_SetTxContext : forall h i s, same_world s (SetTxContext h i s);
  refund_mutate : forall m s, is_u64 (GetRefund s) -> is_u64 (GetRefund (mutate m s));
  refund_ClearTransient : forall s, GetRefund (ClearTransientStorage s) = GetRefund s;
}.

Section Mem.

Context (keccak256 : bytes -> bytes).

#[export] Instance MemTxStateDB : TxStateDB MemoryStateDB := {
  ClearAccessList := mem_ClearAccessList;
  ClearTransientStorage := mem_ClearTransientStorage;
  SetTxContext := mem_SetTxContext;
}.

Lemma mem_refund_mutate m s :
  is_u64 (refund s) -> is_u64 (refund (@mutate _ (MemStateDB_ops keccak256) m s)).
Proof.
  intros H. destruct m as [a|a v|a v|a n|a c|a k v|a k v|a|l|g|g|a|a k]; simpl; try done; try apply u64_range.
  - unfold mem_SelfDestruct. by destruct (stateObjects s !! a).
  - unfold mem_AddAddressToAccessList. by destruct (AddAddress a (alist s)) as [[] al].
  - unfold mem_AddSlotToAccessList. by destruct (AddSlot a k (alist s)) as [[[] []] al].
Qed.

#[export] Instance MemTxStateDB_laws :
  @TxStateDBLaws MemoryStateDB (MemStateDB_ops keccak256) (MemStateDB_laws keccak256) MemTxStateDB.
Proof.
  split; try done.
  - intros s [Ha Hs Hm]. split; [apply newAccessList_wf|done|done].
  - intros s [Ha Hs Hm]. by split.
  - intros h i s [Ha Hs Hm]. by split.
  - intros s. by apply same_world_parts.
  - intros h i s. by apply same_world_parts.
  - intros m s. apply mem_refund_mutate.
Qed.

End Mem.
