(* ===== verification/Bal.v ===== *)
(** * Bal: block access lists (EIP-7928)

    pkg/bal: the tracker of one transaction (tracker.go), the list of a block
    and its order (types.go, validator.go), and the block tracker with its
    size limit (block_tracker.go).  Go maps are [gmap]s; the code sorts what
    it takes out of them. *)

From stdpp Require Import gmap sorting.
From S2P Require Import Prelude StateDB Machine.

(** ** Entries *)

Record StorageAccess := mkStorageAccess {
  sa_Slot : Hash;
  sa_Value : Hash;
}.

Record StorageChange := mkStorageChange {
  sc_Slot : Hash;
  sc_OldValue : Hash;
  sc_NewValue : Hash;
}.

(** A change is the pair of the old and the new value. *)
Record AccessEntry := mkAccessEntry {
  ae_Address : Address;
  ae_AccessIndex : Z;
  ae_StorageReads : list StorageAccess;
  ae_StorageChanges : list StorageChange;
  ae_BalanceChange : option (Z * Z);
  ae_NonceChange : option (Z * Z);
  ae_CodeChange : option (bytes * bytes);
}.

Abbreviation BlockAccessList := (list AccessEntry).

Definition AddEntry (e : AccessEntry) (bal : BlockAccessList) : BlockAccessList := bal ++ [e].

(** [bytes.Compare] on addresses is the comparison of their values. *)
Definition entry_le (a b : AccessEntry) : Prop :=
  ae_Address a < ae_Address b \/
  (ae_Address a = ae_Address b /\ ae_AccessIndex a <= ae_AccessIndex b).

#[export] Instance entry_le_dec : RelDecision entry_le.
Proof. intros a b. unfold entry_le. apply _. Defined.

(** [sort.SliceStable] *)
Definition Sort (bal : BlockAccessList) : BlockAccessList := merge_sort entry_le bal.

Definition BALItemCost : Z := 2000.

(** Strictly ascending by (address, access index). *)
Fixpoint ValidateBALOrdering (bal : BlockAccessList) : bool :=
  match bal with
  | prev :: (curr :: _) as rest =>
      if ae_Address prev >? ae_Address curr then false
      else if (ae_Address prev =? ae_Address curr) && (ae_AccessIndex prev >=? ae_AccessIndex curr)
      then false
      else ValidateBALOrdering rest
  | _ => true
  end.

(** ** The tracker of one transaction *)

Record AccessTracker := mkTracker {
  reads : gmap (Z * Z) Hash;
  changes : gmap (Z * Z) (Hash * Hash);
  balanceChanges : gmap Z (Z * Z);
  nonceChanges : gmap Z (Z * Z);
  codeChanges : gmap Z (bytes * bytes);
  touchedAddrs : gset Z;
}.

Definition NewTracker : AccessTracker := mkTracker ∅ ∅ ∅ ∅ ∅ ∅.

Definition tracker_RecordStorageRead (a : Address) (slot value : Hash) (t : AccessTracker) : AccessTracker :=
  mkTracker (<[(a, slot) := value]> (reads t)) (changes t) (balanceChanges t) (nonceChanges t)
    (codeChanges t) ({[a]} ∪ touchedAddrs t).

Definition tracker_RecordStorageChange (a : Address) (slot oldVal newVal : Hash) (t : AccessTracker)
  : AccessTracker :=
  mkTracker (reads t) (<[(a, slot) := (oldVal, newVal)]> (changes t)) (balanceChanges t) (nonceChanges t)
    (codeChanges t) ({[a]} ∪ touchedAddrs t).

Definition tracker_RecordBalanceChange (a : Address) (oldBal newBal : Z) (t : AccessTracker) : AccessTracker :=
  mkTracker (reads t) (changes t) (<[a := (oldBal, newBal)]> (balanceChanges t)) (nonceChanges t)
    (codeChanges t) ({[a]} ∪ touchedAddrs t).

Definition RecordNonceChange (a : Address) (oldNonce newNonce : Z) (t : AccessTracker) : AccessTracker :=
  mkTracker (reads t) (changes t) (balanceChanges t) (<[a := (oldNonce, newNonce)]> (nonceChanges t))
    (codeChanges t) ({[a]} ∪ touchedAddrs t).

Definition tracker_RecordAddressTouch (a : Address) (t : AccessTracker) : AccessTracker :=
  mkTracker (reads t) (changes t) (balanceChanges t) (nonceChanges t) (codeChanges t)
    ({[a]} ∪ touchedAddrs t).

Definition RecordCodeChange (a : Address) (oldCode newCode : bytes) (t : AccessTracker) : AccessTracker :=
  mkTracker (reads t) (changes t) (balanceChanges t) (nonceChanges t)
    (<[a := (oldCode, newCode)]> (codeChanges t)) ({[a]} ∪ touchedAddrs t).

(** The calls of the EVM, of which the newest comes first. *)
Definition applyEvent (ev : bal_event) (t : AccessTracker) : AccessTracker :=
  match ev with
  | RecordStorageRead a slot v => tracker_RecordStorageRead a slot v t
  | RecordStorageChange a slot o n => tracker_RecordStorageChange a slot o n t
  | RecordBalanceChange a o n => tracker_RecordBalanceChange a o n t
  | RecordAddressTouch a => tracker_RecordAddressTouch a t
  end.

Definition applyEvents (evs : list bal_event) (t : AccessTracker) : AccessTracker := foldr applyEvent t evs.

(** [hashLess] and [addrLess] compare big-endian values. *)
Definition read_le (x y : StorageAccess) : Prop := sa_Slot x <= sa_Slot y.
Definition change_le (x y : StorageChange) : Prop := sc_Slot x <= sc_Slot y.

#[export] Instance read_le_dec : RelDecision read_le := fun x y => Z.le_dec (sa_Slot x) (sa_Slot y).
#[export] Instance change_le_dec : RelDecision change_le := fun x y => Z.le_dec (sc_Slot x) (sc_Slot y).

(** The entries of one address, by slot. *)
Definition readsOf (a : Address) (t : AccessTracker) : list StorageAccess :=
  merge_sort read_le
    (omap (fun kv => if bool_decide (kv.1.1 = a) then Some (mkStorageAccess kv.1.2 kv.2) else None)
       (map_to_list (reads t))).

Definition changesOf (a : Address) (t : AccessTracker) : list StorageChange :=
  merge_sort change_le
    (omap (fun kv => if bool_decide (kv.1.1 = a) then Some (mkStorageChange kv.1.2 kv.2.1 kv.2.2) else None)
       (map_to_list (changes t))).

Definition Build (t : AccessTracker) (txIndex : Z) : BlockAccessList :=
  map (fun a => mkAccessEntry a txIndex (readsOf a t) (changesOf a t)
                  (balanceChanges t !! a) (nonceChanges t !! a) (codeChanges t !! a))
    (merge_sort Z.le (elements (touchedAddrs t))).

(** ** The block tracker *)

Record BlockBALTracker := mkBlockTracker {
  bt_gasLimit : Z;
  bt_maxItems : Z;
  bt_itemCount : Z;
  bt_currentIdx : Z;
  bt_entries : list AccessEntry;
  bt_addressSeen : gset (Z * Z);  (* address, access index *)
}.

Definition NewBlockBALTracker (gasLimit : Z) : BlockBALTracker :=
  mkBlockTracker gasLimit (gasLimit / BALItemCost) 0 0 [] ∅.

Definition set_currentIdx (i : Z) (t : BlockBALTracker) : BlockBALTracker :=
  mkBlockTracker (bt_gasLimit t) (bt_maxItems t) (bt_itemCount t) i (bt_entries t) (bt_addressSeen t).

Definition BeginPreExecution : BlockBALTracker -> BlockBALTracker := set_currentIdx 0.
Definition BeginTx (txIndex : Z) : BlockBALTracker -> BlockBALTracker := set_currentIdx txIndex.
Definition BeginPostExecution (txCount : Z) : BlockBALTracker -> BlockBALTracker := set_currentIdx (txCount +u 1).

(** [None] is [ErrBALSizeExceeded]. *)
Definition RecordAccess (a : Address) (t : BlockBALTracker) : option BlockBALTracker :=
  if bool_decide ((a, bt_currentIdx t) ∈ bt_addressSeen t) then Some t
  else if bt_itemCount t >=? bt_maxItems t then None
  else Some (mkBlockTracker (bt_gasLimit t) (bt_maxItems t) (bt_itemCount t +u 1) (bt_currentIdx t)
               (bt_entries t ++ [mkAccessEntry a (bt_currentIdx t) [] [] None None None])
               ({[(a, bt_currentIdx t)]} ∪ bt_addressSeen t)).

(** ** Order *)

Definition key (e : AccessEntry) : Z * Z := (ae_Address e, ae_AccessIndex e).

#[local] Instance entry_le_total : Total entry_le.
Proof. intros a b. unfold entry_le. lia. Qed.

#[local] Instance entry_le_trans : Transitive entry_le.
Proof. intros a b c. unfold entry_le. lia. Qed.

(** A sorted list without repeated keys is strictly ordered. *)
Lemma ordering_strict bal :
  Sorted entry_le bal -> NoDup (map key bal) -> ValidateBALOrdering bal = true.
Proof.
  induction 1 as [|e bal HS IH Hd]; intros HN; [done|]. destruct bal as [|e' bal]; [done|].
  inversion Hd as [|? ? Hle]; subst. apply NoDup_cons in HN as [Hn HN].
  assert (key e <> key e') as Hk by (intros E; apply Hn; rewrite E; left).
  change (ValidateBALOrdering (e :: e' :: bal)) with
    (if ae_Address e >? ae_Address e' then false
     else if (ae_Address e =? ae_Address e') && (ae_AccessIndex e >=? ae_AccessIndex e') then false
     else ValidateBALOrdering (e' :: bal)).
  rewrite IH by done. unfold entry_le, key in *.
  destruct (Z.gtb_spec (ae_Address e) (ae_Address e')); [lia|].
  destruct (Z.eqb_spec (ae_Address e) (ae_Address e')); [|done].
  destruct (Z.geb_spec (ae_AccessIndex e) (ae_AccessIndex e')); [|done].
  exfalso. apply Hk. f_equal; lia.
Qed.

Lemma Sort_valid bal : NoDup (map key bal) -> ValidateBALOrdering (Sort bal) = true.
Proof.
  intros HN. apply ordering_strict; [apply (Sorted_merge_sort entry_le)|].
  assert (map key (Sort bal) ≡ₚ map key bal) as -> by apply Permutation_map, merge_sort_Permutation. exact HN.
Qed.

Lemma Build_keys t i : map key (Build t i) = map (fun a => (a, i)) (merge_sort Z.le (elements (touchedAddrs t))).
Proof. unfold Build. rewrite map_map. by apply map_ext. Qed.

Lemma Build_NoDup t i : NoDup (map key (Build t i)).
Proof.
  rewrite Build_keys. apply (NoDup_fmap_2 (fun a => (a, i))).
  rewrite merge_sort_Permutation. apply NoDup_elements.
Qed.
