(* ===== verification/Processor.v ===== *)
(** * Processor: executing a transaction against the state

    core/execution/processor.go from the intrinsic gas to
    [applyTransactionInternal], with [Message] (core/config/message.go), the
    gas pool (core/gaspool), the authorizations of EIP-7702
    (core/eips/eip7702.go) and frame transactions
    (core/eips/frame_execution.go).

    State passing: outside the EVM the state is the database, the gas pool
    and the access tracker ([pst]); inside, the EVM holds the database.  Errors
    of [applyMessage] are values ([txerr]); panics and exhausted fuel come
    from the interpreter. *)

From stdpp Require Import gmap.
From S2P Require Import Prelude Rlp StateDB Machine Calls GasTable Instructions JumpTable Interpreter.
From S2P Require Import Transactions Signer Blocks Receipts ChainConfig Fees TxState.

(** ** Intrinsic gas *)

Definition TxGas : Z := 21000.
Definition TxDataZeroGas : Z := 4.
Definition TxDataNonZeroGas : Z := 16.
Definition TxCreateGas : Z := 32000.
Definition PerAuthBaseCost : Z := 12500.
Definition PerEmptyAccountCost : Z := 25000.
Definition TotalCostFloorPerToken : Z := 10.
Definition TotalCostFloorPerTokenGlamst : Z := 16.
Definition TxBaseGlamsterdam : Z := 4500.
Definition GasNewAccount : Z := 25000.
Definition AccessListAddressGlamst : Z := 3200.
Definition AccessListStorageGlamst : Z := 2500.

(** The loop over the calldata that [intrinsicGas] and [intrinsicGasGlamst]
    share, from the gas [g]. *)
Definition calldataGas (g : Z) (data : bytes) : Z :=
  fold_left (fun g b => if b =? 0 then g +u TxDataZeroGas else g +u TxDataNonZeroGas) data g.

Definition intrinsicGas (data : bytes) (isCreate isShanghai : bool) (authCount : Z) : Z :=
  let g := if isCreate then TxGas +u TxCreateGas else TxGas in
  let g := calldataGas g data in
  let g := if isCreate && isShanghai
           then g +u ((zlen data +u 31) / 32) *u InitCodeWordGas else g in
  g +u authCount *u PerEmptyAccountCost.

Definition calldataTokens (data : bytes) : Z :=
  fold_left (fun tokens b => if b =? 0 then tokens +u 1 else tokens +u 4) data 0.

Definition calldataFloorGas (data : bytes) (isCreate : bool) : Z :=
  let floor := TxGas +u calldataTokens data *u TotalCostFloorPerToken in
  if isCreate then floor +u TxCreateGas else floor.

(** The zero and the non-zero bytes counted so far. *)
Definition countBytes (z : Z * Z) (b : bytes) : Z * Z :=
  fold_left (fun '(zero, nonzero) x => if x =? 0 then (zero +u 1, nonzero) else (zero, nonzero +u 1)) b z.

Definition accessListDataTokens (al : AccessList) : Z :=
  let '(zero, nonzero) :=
    fold_left (fun z t =>
      fold_left (fun z key => countBytes z (be_bytes 32 key)) (at_StorageKeys t)
        (countBytes z (be_bytes 20 (at_Address t)))) al (0, 0) in
  zero +u nonzero *u 4.

Definition calldataFloorGasGlamst (data : bytes) (al : AccessList) (isCreate : bool) : Z :=
  let totalTokens := zlen data *u 4 +u accessListDataTokens al in
  let floor := TxBaseGlamsterdam +u totalTokens *u TotalCostFloorPerTokenGlamst in
  if isCreate then floor +u TxCreateGas else floor.

Definition accessListGas (al : AccessList) : Z :=
  fold_left (fun g t => g +u 2400 +u zlen (at_StorageKeys t) *u 1900) al 0.

Definition accessListGasGlamst (al : AccessList) : Z :=
  let g := fold_left (fun g t => g +u AccessListAddressGlamst
             +u zlen (at_StorageKeys t) *u AccessListStorageGlamst) al 0 in
  g +u accessListDataTokens al *u TotalCostFloorPerTokenGlamst.

Definition intrinsicGasGlamst (data : bytes) (isCreate hasValue toExists : bool) (authCount : Z) : Z :=
  let g := if isCreate then TxBaseGlamsterdam +u TxCreateGas else TxBaseGlamsterdam in
  let g := calldataGas g data in
  let g := if negb isCreate && hasValue && negb toExists then g +u GasNewAccount else g in
  g +u authCount *u PerEmptyAccountCost.

(** gas_reservoir.go with the default configuration.  The fraction 0.25 is
    taken in float64; where that rounds (from 2^53 on) the cap applies. *)
Definition InitReservoir (gas : Z) : Z * Z :=
  let reservoir := gas / 4 in
  let reservoir := if reservoir <? 5000 then 5000 else reservoir in
  let reservoir := if reservoir >? 500000 then 500000 else reservoir in
  let reservoir := if reservoir >? gas then gas else reservoir in
  (gas -u reservoir, reservoir).

(** ** Messages *)

(** [Message]; the value is never nil ([TransactionToMessage]), and the
    slasher only observes. *)
Record Message := mkMessage {
  m_From : Address;
  m_To : option Address;
  m_Nonce : Z;
  m_Value : Z;
  m_GasLimit : Z;
  m_GasPrice : option Z;
  m_GasFeeCap : option Z;
  m_GasTipCap : option Z;
  m_Data : bytes;
  m_AccessList : AccessList;
  m_BlobHashes : list Hash;
  m_AuthList : list Authorization;
  m_Frames : list TxFrame;
  m_FrameSender : Address;
  m_TxType : Z;
  m_TxHash : Hash;
}.

(** A transaction without a recovered sender has the zero address. *)
Definition TransactionToMessage (keccak256 : bytes -> bytes) (tx : Transaction) : Message :=
  let t := inner tx in
  let frame := txType t =? FrameTxType in
  {| m_From := if frame then FrameSender t else default 0 (from tx);
     m_To := tx_To t;
     m_Nonce := tx_Nonce t;
     m_Value := default 0 (tx_Value t);
     m_GasLimit := ApplyLocalTxDiscount t;
     m_GasPrice := tx_GasPrice t;
     m_GasFeeCap := tx_GasFeeCap t;
     m_GasTipCap := tx_GasTipCap t;
     m_Data := tx_Data t;
     m_AccessList := tx_AccessList t;
     m_BlobHashes := tx_BlobHashes t;
     m_AuthList := AuthorizationList t;
     m_Frames := if frame then tx_Frames t else [];
     m_FrameSender := if frame then FrameSender t else 0;
     m_TxType := txType t;
     m_TxHash := tx_Hash keccak256 t |}.

(** [min(GasFeeCap, BaseFee + GasTipCap)] under a base fee, the gas price
    otherwise. *)
Definition msgEffectiveGasPrice (msg : Message) (baseFee : option Z) : Z :=
  let legacy := default 0 (m_GasPrice msg) in
  match m_GasFeeCap msg, baseFee with
  | Some cap, Some b =>
      if b >? 0 then
        let effectivePrice := b + default 0 (m_GasTipCap msg) in
        if effectivePrice >? cap then cap else effectivePrice
      else legacy
  | _, _ => legacy
  end.

(** ** Authorizations of EIP-7702 *)

Definition DelegationPrefix : bytes := [0xef; 0x01; 0x00].

Definition HasDelegationPrefix (code : bytes) : bool :=
  bool_decide (take 3 code = DelegationPrefix).

Definition AddressToDelegation (addr : Address) : bytes := DelegationPrefix ++ be_bytes 20 addr.

(** The local RLP helpers of eip7702.go. *)
Definition encodeBytesRLP (b : bytes) : bytes :=
  match b with
  | [x] => if x <? 128 then b else u8 (0x80 + 1) :: b
  | _ =>
      if zlen b <=? 55 then u8 (0x80 + u8 (zlen b)) :: b
      else let lenBytes := Bytes (zlen b) in u8 (0xb7 + u8 (zlen lenBytes)) :: lenBytes ++ b
  end.

Definition encodeBigIntRLP (i : option Z) : bytes :=
  match i with
  | Some z => if Z.sgn z =? 0 then [0x80] else encodeBytesRLP (Bytes z)
  | None => [0x80]
  end.

Definition encodeUint64RLP (n : Z) : bytes :=
  if n =? 0 then [0x80] else if n <? 128 then [n] else encodeBytesRLP (Bytes n).

Definition encodeListHeaderRLP (payload : bytes) : bytes :=
  if zlen payload <=? 55 then u8 (0xc0 + u8 (zlen payload)) :: payload
  else let lenBytes := Bytes (zlen payload) in u8 (0xf7 + u8 (zlen lenBytes)) :: lenBytes ++ payload.

Definition authMagic : Z := 0x05.

Definition computeAuthorizationHash (keccak256 : bytes -> bytes) (auth : Authorization) : bytes :=
  let payload := encodeBigIntRLP (au_ChainID auth) ++ encodeBytesRLP (be_bytes 20 (au_Address auth))
                 ++ encodeUint64RLP (au_Nonce auth) in
  keccak256 (authMagic :: encodeListHeaderRLP payload).

Definition secp256k1halfN : Z := secp256k1N / 2.

(** crypto/secp256k1: [ValidateSignatureValues] with [homestead] set. *)
Definition ValidateSignatureValues (v : Z) (r s : option Z) : bool :=
  match r, s with
  | Some r, Some s =>
      negb (v >? 1) && negb ((r <=? 0) || (s <=? 0))
      && negb ((r >=? secp256k1N) || (s >=? secp256k1N)) && negb (s >? secp256k1halfN)
  | _, _ => false
  end.

(** [RecoverAuthority]; [Ecrecover hash sig] is the public key recovery of the
    crypto package, [None] an error. *)
Definition RecoverAuthority (keccak256 : bytes -> bytes) (Ecrecover : bytes -> bytes -> option bytes)
    (auth : Authorization) : option Address :=
  let recover v :=
    if negb (ValidateSignatureValues v (au_R auth) (au_S auth)) then None
    else
      let sig := be_bytes 32 (default 0 (au_R auth)) ++ be_bytes 32 (default 0 (au_S auth)) ++ [v] in
      pub ← Ecrecover (computeAuthorizationHash keccak256 auth) sig;
      Some (BytesToAddress (drop 12 (keccak256 (drop 1 pub)))) in
  match au_V auth with
  | Some v => if negb (IsUint64 v) || (Uint64 v >? 1) then None else recover (u8 (Uint64 v))
  | None => recover 0
  end.

(** ** Frame transactions of EIP-8141 *)

Definition EntryPointAddress : Address := 0xaa.

Inductive frame_error :=
  | ErrFrameNonceMismatch
  | ErrFrameSenderNotApproved
  | ErrFrameInvalidMode
  | ErrFrameApprove
  | ErrFrameVerifyNoApprove
  | ErrFramePayerNotApproved.

Record FrameResult := mkFrameResult {
  frr_Status : Z;
  frr_GasUsed : Z;
  frr_Logs : list Log;
}.

(** The fields [CurrentFrame] and the unfilled tail of [FrameResults] are not
    read by the caller. *)
Record FrameExecutionContext := mkFrameExec {
  fec_SenderApproved : bool;
  fec_PayerApproved : bool;
  fec_Payer : Address;
  fec_FrameResults : list FrameResult;
}.

(** [None] is one of the errors of the method. *)
Definition processApprove (scope : Z) (sender target : Address) (ctx : FrameExecutionContext)
  : option FrameExecutionContext :=
  let 'mkFrameExec s p payer rs := ctx in
  if scope =? 0 then
    if s then None else if negb (target =? sender) then None
    else Some (mkFrameExec true p payer rs)
  else if scope =? 1 then
    if p then None else if negb s then None
    else Some (mkFrameExec s true target rs)
  else if scope =? 2 then
    if s then None else if p then None else if negb (target =? sender) then None
    else Some (mkFrameExec true true target rs)
  else None.

(** What the callback of [ExecuteFrameTx] returns. *)
Record frame_call := mkFrameCall {
  fc_status : Z;
  fc_gasUsed : Z;
  fc_logs : list Log;
  fc_approved : bool;
  fc_scope : Z;
  fc_err : option vmerr;
}.

Section ExecuteFrameTx.

Context {S : Type}.
Context (callFn : Address -> Address -> Z -> bytes -> Z -> nat -> M S frame_call).

(** The caller of a frame, by mode. *)
Definition frameCaller (sender : Address) (mode : Z) (senderApproved : bool) : frame_error + Address :=
  if (mode =? ModeDefault) || (mode =? ModeVerify) then inr EntryPointAddress
  else if mode =? ModeSender then
    if negb senderApproved then inl ErrFrameSenderNotApproved else inr sender
  else inl ErrFrameInvalidMode.

(** The body of the loop after the call. *)
Definition recordFrame (sender target : Address) (frame : TxFrame) (r : frame_call)
    (ctx : FrameExecutionContext) : frame_error + FrameExecutionContext :=
  let '(status, gasUsed) :=
    match fc_err r with
    | Some _ => (ReceiptStatusFailed, fr_GasLimit frame)
    | None => (fc_status r, fc_gasUsed r)
    end in
  let ctx := mkFrameExec (fec_SenderApproved ctx) (fec_PayerApproved ctx) (fec_Payer ctx)
               (fec_FrameResults ctx ++ [mkFrameResult status gasUsed (fc_logs r)]) in
  match (if fc_approved r then processApprove (fc_scope r) sender target ctx else Some ctx) with
  | None => inl ErrFrameApprove
  | Some ctx =>
      if (fr_Mode frame =? ModeVerify) && negb (fc_approved r) then inl ErrFrameVerifyNoApprove
      else inr ctx
  end.

Fixpoint frames_loop (sender : Address) (i : nat) (frames : list TxFrame)
    (ctx : FrameExecutionContext) : M S (frame_error + FrameExecutionContext) :=
  match frames with
  | [] => gret (inr ctx)
  | frame :: rest =>
      let target := default sender (fr_Target frame) in
      match frameCaller sender (fr_Mode frame) (fec_SenderApproved ctx) with
      | inl e => gret (inl e)
      | inr caller =>
          let! r := callFn caller target (fr_GasLimit frame) (fr_Data frame) (fr_Mode frame) i in
          match recordFrame sender target frame r ctx with
          | inl e => gret (inl e)
          | inr ctx => frames_loop sender (Datatypes.S i) rest ctx
          end
      end
  end.

Definition ExecuteFrameTx (tx : FrameTx) (stateNonce : Z) : M S (frame_error + FrameExecutionContext) :=
  if negb (NonceSeq tx =? stateNonce) then gret (inl ErrFrameNonceMismatch)
  else
    let! r := frames_loop (ft_Sender tx) 0 (ft_Frames tx) (mkFrameExec false false 0 []) in
    match r with
    | inl e => gret (inl e)
    | inr ctx => gret (if negb (fec_PayerApproved ctx) then inl ErrFramePayerNotApproved else inr ctx)
    end.

End ExecuteFrameTx.

Definition MaxFrameTxCost (tx : FrameTx) : Z :=
  let cost := CalcFrameTxGas tx * bigOrZero (ft_MaxFeePerGas tx) in
  match ft_BlobVersionedHashes tx, ft_MaxFeePerBlobGas tx with
  | _ :: _, Some fee => cost + (zlen (ft_BlobVersionedHashes tx) *u 131072) * fee
  | _, _ => cost
  end.

(** ** Transaction execution *)

(** The errors with which [applyMessage] and [applyTransactionInternal] reject
    a transaction. *)
Inductive txerr :=
  | ErrGasPoolExhausted
  | ErrNonceTooLow
  | ErrNonceTooHigh
  | ErrSenderNotEOA
  | ErrTipAboveFeeCap
  | ErrFeeCapTooLow
  | ErrInsufficientBalance_tx
  | ErrIntrinsicGasTooLow
  | ErrPQTransactionFork.

(** The error of the execution itself: of the EVM, or of a frame. *)
Inductive exec_error := XVm (e : vmerr) | XFrame (e : frame_error).

(** core/execution/result.go *)
Record ExecutionResult := mkExecutionResult {
  UsedGas : Z;
  BlockGasUsed : Z;
  DimStorageGas : Z;
  ExecErr : option exec_error;
  ReturnData : bytes;
  ContractAddress : Address;
}.

Section Processor.

Context {DB : Type} `{StateDB DB, !TxStateDB DB}.
Context (keccak256 : bytes -> bytes).
(** The precompiled contracts of the forks, the RISC-V executor and the
    public key recovery of the crypto package. *)
Context (PrecompiledContractsCancun PrecompiledContractsGlamsterdan PrecompiledContractsIPlus
         : gmap Z PrecompiledContract).
Context (rvrun : bytes -> bytes -> Z -> bytes * option vmerr).
Context (Ecrecover : bytes -> bytes -> option bytes).
(** Fuel of the interpreter and of the exponential fee. *)
Context (fuel feeFuel : nat).

Record pst := mkP {
  p_db : DB;
  p_gp : Z;
  p_tracker : option (list bal_event);
}.

Definition set_db (db : DB) (s : pst) : pst := mkP db (p_gp s) (p_tracker s).

(** Computations that may be rejected. *)
Abbreviation P := (M pst).
Abbreviation R A := (M pst (txerr + A)).

Definition rbind {A B} (m : R A) (k : A -> R B) : R B :=
  let! r := m in match r with inl e => gret (inl e) | inr a => k a end.

Definition readP {A} (f : DB -> A) : P A := fun s => Ok (f (p_db s)) s.
Definition modP (f : DB -> DB) : P unit := gmodify (fun s => set_db (f (p_db s)) s).
Definition mutP (m : mutation) : P unit := modP (mutate m).

(** Code of the EVM object [e], which shares the database and the tracker. *)
Definition withEVM {A} (e : EVM DB) (m : M (EVM DB) A) : P (A * EVM DB) := fun s =>
  match m (set_balTracker (p_tracker s) (set_statedb (Some (p_db s)) e)) with
  | Ok a e' => Ok (a, e') (mkP (default (p_db s) (statedb e')) (p_gp s) (balTracker e'))
  | Err er r e' => Err er r (mkP (default (p_db s) (statedb e')) (p_gp s) (balTracker e'))
  | Panic p => Panic p
  | Fuel => Fuel
  end.

(** *** The gas pool *)

Definition AddGas (amount : Z) : P unit :=
  gmodify (fun s => mkP (p_db s) (p_gp s +u amount) (p_tracker s)).

Definition SubGas (amount : Z) : R unit := fun s =>
  if p_gp s <? amount then Ok (inl ErrGasPoolExhausted) s
  else Ok (inr tt) (mkP (p_db s) (p_gp s -u amount) (p_tracker s)).

(** [gp.AddGas(msg.GasLimit); return nil, err] *)
Definition reject {A} (msg : Message) (e : txerr) : R A :=
  do! AddGas (m_GasLimit msg) in gret (inl e).

(** *** Validation *)

Definition checkNonce (msg : Message) : R unit :=
  let! stateNonce := readP (fun db => GetNonce db (m_From msg)) in
  if m_Nonce msg <? stateNonce then reject msg ErrNonceTooLow
  else if m_Nonce msg >? stateNonce then reject msg ErrNonceTooHigh
  else gret (inr tt).

(** EIP-3607, with the exceptions for delegations and frame transactions. *)
Definition checkEOA (msg : Message) : R unit :=
  if m_TxType msg =? FrameTxType then gret (inr tt)
  else
    let! codeHash := readP (fun db => GetCodeHash db (m_From msg)) in
    if negb (codeHash =? 0) && negb (codeHash =? EmptyCodeHash) then
      let! code := readP (fun db => GetCode db (m_From msg)) in
      if negb (HasDelegationPrefix code) then reject msg ErrSenderNotEOA else gret (inr tt)
    else gret (inr tt).

Definition checkFeeCaps (header : Header) (msg : Message) : R unit :=
  match h_BaseFee header, m_GasFeeCap msg, m_GasTipCap msg with
  | Some b, Some cap, Some tip =>
      if b >? 0 then
        if cap <? tip then reject msg ErrTipAboveFeeCap
        else if cap <? b then reject msg ErrFeeCapTooLow
        else gret (inr tt)
      else gret (inr tt)
  | _, _, _ => gret (inr tt)
  end.

Definition isGlamsterdan (config : option ChainConfig) (header : Header) : bool :=
  match config with Some c => cfg_IsGlamsterdan c (h_Time header) | None => false end.

(** The separate fee of the calldata (EIP-7706). *)
Definition calldataGasCost (config : option ChainConfig) (header : Header) (msg : Message) : P Z :=
  if isGlamsterdan config header && bool_decide (is_Some (h_CalldataExcessGas header)) then
    match CalcCalldataBaseFeeFromHeader feeFuel header with
    | Some calldataBaseFee => gret (calldataBaseFee * CalldataTokenGas (m_Data msg))
    | None => fun _ => Fuel
    end
  else gret 0.

(** The balance check and the deduction of the gas cost; frame transactions
    skip both. *)
Definition buyGas (header : Header) (msg : Message) (calldataCost : Z) : R unit :=
  let gasCost := msgEffectiveGasPrice msg (h_BaseFee header) * m_GasLimit msg in
  let balanceGasCost :=
    match m_GasFeeCap msg with
    | Some cap => if m_TxType msg >=? DynamicFeeTxType then cap * m_GasLimit msg else gasCost
    | None => gasCost
    end in
  let totalCost := m_Value msg + balanceGasCost + calldataCost in
  if m_TxType msg =? FrameTxType then gret (inr tt)
  else
    let! balance := readP (fun db => GetBalance db (m_From msg)) in
    if balance <? totalCost then reject msg ErrInsufficientBalance_tx
    else do! mutP (MSubBalance (m_From msg) (gasCost + calldataCost)) in gret (inr tt).

Definition isCreate (msg : Message) : bool := bool_decide (m_To msg = None).

Definition incrementNonce (msg : Message) : P unit :=
  if negb (isCreate msg) && negb (m_TxType msg =? FrameTxType) && negb (m_TxType msg =? AATxType)
  then mutP (MSetNonce (m_From msg) (m_Nonce msg +u 1))
  else gret tt.

(** *** Intrinsic gas of a message *)

Definition authCount (msg : Message) : Z :=
  if m_TxType msg =? SetCodeTxType then u64 (zlen (m_AuthList msg)) else 0.

Definition isPrague (config : option ChainConfig) (header : Header) : bool :=
  match config with Some c => cfg_IsPrague c (h_Time header) | None => false end.

(** The calldata floor of EIP-7623 and EIP-7976. *)
Definition floorGas (config : option ChainConfig) (header : Header) (msg : Message) : Z :=
  if isGlamsterdan config header
  then calldataFloorGasGlamst (m_Data msg) (m_AccessList msg) (isCreate msg)
  else calldataFloorGas (m_Data msg) (isCreate msg).

Definition messageGas (config : option ChainConfig) (header : Header) (msg : Message) (db : DB) : Z :=
  let igas :=
    if isGlamsterdan config header then
      let hasValue := m_Value msg >? 0 in
      let toExists := match m_To msg with Some a => Exist db a | None => false end in
      intrinsicGasGlamst (m_Data msg) (isCreate msg) hasValue toExists (authCount msg)
        +u accessListGasGlamst (m_AccessList msg)
    else
      let isShanghai := match config with
                        | Some c => cfg_IsMerge c && cfg_IsShanghai c (h_Time header)
                        | None => false
                        end in
      intrinsicGas (m_Data msg) (isCreate msg) isShanghai (authCount msg)
        +u accessListGas (m_AccessList msg) in
  if isPrague config header && (floorGas config header msg >? igas)
  then floorGas config header msg else igas.

Definition checkIntrinsicGas (config : option ChainConfig) (header : Header) (msg : Message) : R Z :=
  let! igas := readP (messageGas config header msg) in
  if igas >? m_GasLimit msg then reject msg ErrIntrinsicGasTooLow else gret (inr igas).

(** *** The EVM of a message *)

Definition SelectPrecompiles (rules : ForkRules) : gmap Z PrecompiledContract :=
  if IsIPlus rules then PrecompiledContractsIPlus
  else if IsGlamsterdan rules then PrecompiledContractsGlamsterdan
  else PrecompiledContractsCancun.

Definition noRules : ForkRules :=
  mkRules false false false false false false false false false false false false false false false false.

Definition forkRulesOf (c : ChainConfig) (header : Header) : ForkRules :=
  let r := cfg_Rules c (h_Number header) (cfg_IsMerge c) (h_Time header) in
  {| IsVerkle := false;
     IsGlamsterdan := r_IsGlamsterdan r;
     IsPrague := r_IsPrague r;
     IsCancun := r_IsCancun r;
     IsShanghai := r_IsShanghai r;
     IsMerge := r_IsMerge r;
     IsLondon := r_IsLondon r;
     IsBerlin := r_IsBerlin r;
     IsIstanbul := r_IsIstanbul r;
     IsConstantinople := r_IsConstantinople r;
     IsByzantium := r_IsByzantium r;
     IsHomestead := r_IsHomestead r;
     IsEIP158 := r_IsEIP158 r;
     IsEIP7708 := r_IsEIP7708 r;
     IsEIP7954 := r_IsEIP7954 r;
     IsIPlus := r_IsIPlus r |}.

Definition evmRules (config : option ChainConfig) (header : Header) : ForkRules :=
  match config with Some c => forkRulesOf c header | None => noRules end.

(** The rules that select the jump table: without a configuration the EVM
    keeps the Cancun table it was created with. *)
Definition tableRules (config : option ChainConfig) (header : Header) : ForkRules :=
  match config with
  | Some c => forkRulesOf c header
  | None => mkRules false false false true false false false false false false false false false
              false false false
  end.

Definition evmRun (config : option ChainConfig) (header : Header)
  : Contract -> bytes -> M (EVM DB) (Contract * bytes * option vmerr) :=
  Run (fun run => SelectJumpTable keccak256 PrecompiledContractsCancun rvrun run
                    (tableRules config header)) fuel.

(** The chain identifier of the EVM is never set; blob base fee and slot
    number are left out of the block context. *)
Definition messageEVM (config : option ChainConfig) (getHash : option (Z -> Hash)) (header : Header)
    (msg : Message) (gasLeft : Z) : EVM DB :=
  let blockCtx := mkBlockContext getHash (h_Number header) (h_Time header) (h_Coinbase header)
                    (h_GasLimit header) (h_BaseFee header) (h_MixDigest header) None 0 in
  let txCtx := mkTxContext (m_From msg) (Some (msgEffectiveGasPrice msg (h_BaseFee header)))
                 (m_BlobHashes msg) in
  let precompiles := match config with
                     | Some c => Some (SelectPrecompiles (forkRulesOf c header))
                     | None => None
                     end in
  let e := NewEVM blockCtx txCtx 0 0 precompiles (evmRules config header) None in
  if isGlamsterdan config header then
    set_reservoirForward (InitReservoir gasLeft).2 (set_dimGasUsage (Some (mkDimGas 0 0 0 0 0)) e)
  else e.

(** The addresses and slots that are warm from the start.  The precompiles
    come in the order of a Go map, which has none. *)
Definition warmList (config : option ChainConfig) (header : Header) (msg : Message) : list mutation :=
  [MAddAddressToAccessList (m_From msg)]
  ++ match m_To msg with Some a => [MAddAddressToAccessList a] | None => [] end
  ++ [MAddAddressToAccessList (h_Coinbase header)]
  ++ match config with
     | Some c => map (fun p => MAddAddressToAccessList p.1)
                   (map_to_list (SelectPrecompiles (forkRulesOf c header)))
     | None => []
     end
  ++ flat_map (fun t => MAddAddressToAccessList (at_Address t)
                        :: map (MAddSlotToAccessList (at_Address t)) (at_StorageKeys t))
       (m_AccessList msg).

Definition mutates (ms : list mutation) (db : DB) : DB := fold_left (fun s m => mutate m s) ms db.

Definition processOneAuthorization (auth : Authorization) (chainID : option Z) (db : DB) : DB :=
  if match au_ChainID auth with
     | Some id => negb (Z.sgn id =? 0) &&
                  match chainID with Some c => negb (id =? c) | None => true end
     | None => false
     end
  then db
  else match RecoverAuthority keccak256 Ecrecover auth with
       | None => db
       | Some signerAddr =>
           let currentNonce := GetNonce db signerAddr in
           if negb (au_Nonce auth =? currentNonce) then db
           else
             let db := if negb (Empty db signerAddr)
                       then mutate (MAddRefund (PerEmptyAccountCost -u PerAuthBaseCost)) db else db in
             let db := mutate (MSetCode signerAddr (AddressToDelegation (au_Address auth))) db in
             mutate (MSetNonce signerAddr (currentNonce +u 1)) db
       end.

(** Invalid authorizations are skipped, so this never fails. *)
Definition ProcessAuthorizations (auths : list Authorization) (chainID : option Z) (db : DB) : DB :=
  fold_left (fun db auth => processOneAuthorization auth chainID db) auths db.

Definition applyAuthorizations (config : option ChainConfig) (msg : Message) : P unit :=
  if m_TxType msg =? SetCodeTxType then
    let chainID := match config with Some c => ChainID c | None => None end in
    modP (ProcessAuthorizations (m_AuthList msg) chainID)
  else gret tt.

(** *** Execution *)

Abbreviation E := (M (EVM DB)).

(** What the three branches of the execution produce. *)
Record executed := mkExecuted {
  x_err : option exec_error;
  x_ret : bytes;
  x_gas : Z;  (* gasRemaining *)
  x_addr : Address;
  x_frame : option FrameExecutionContext;
}.

(** The frame transaction is rebuilt from the message, without the chain id
    and the blob fields. *)
Definition messageFrameTx (msg : Message) : FrameTx :=
  mkFrameTx None (Some (m_Nonce msg)) (m_FrameSender msg) (m_Frames msg)
    (m_GasTipCap msg) (m_GasFeeCap msg) None [].

Definition vmFrame (sender : Address) (f : TxFrame) : Frame :=
  mkFrame (fr_Mode f) (default sender (fr_Target f)) (fr_GasLimit f) (fr_Data f) 0.

Definition messageFrameCtx (msg : Message) : FrameContext :=
  {| SenderApproved := false;
     PayerApproved := false;
     LastApproveScope := 0;
     ApproveCalledThisFrame := false;
     TxType := FrameTxType;
     FNonce := Some (m_Nonce msg);
     Sender := m_FrameSender msg;
     MaxPriorityFee := m_GasTipCap msg;
     MaxFee := m_GasFeeCap msg;
     MaxBlobFee := None;
     MaxCost := Some (MaxFrameTxCost (messageFrameTx msg));
     BlobCount := u64 (zlen (m_BlobHashes msg));
     SigHash := SigningHash keccak256 (FrameT (messageFrameTx msg));
     Frames := map (vmFrame (m_FrameSender msg)) (m_Frames msg);
     CurrentFrameIndex := 0 |}.

Definition set_Status (s : Z) (f : Frame) : Frame :=
  mkFrame (Mode f) (Target f) (FGasLimit f) (FData f) s.

Definition enterFrame (i : nat) (c : FrameContext) : FrameContext :=
  mkFrameContext (SenderApproved c) (PayerApproved c) (LastApproveScope c) false (TxType c) (FNonce c)
    (Sender c) (MaxPriorityFee c) (MaxFee c) (MaxBlobFee c) (MaxCost c) (BlobCount c) (SigHash c)
    (Frames c) (Z.of_nat i).

Definition leaveFrame (i : nat) (status : Z) (c : FrameContext) : FrameContext :=
  mkFrameContext (SenderApproved c) (PayerApproved c) (LastApproveScope c) (ApproveCalledThisFrame c)
    (TxType c) (FNonce c) (Sender c) (MaxPriorityFee c) (MaxFee c) (MaxBlobFee c) (MaxCost c)
    (BlobCount c) (SigHash c) (alter (set_Status status) i (Frames c)) (CurrentFrameIndex c).

Definition modFrameCtx (f : FrameContext -> FrameContext) : E unit :=
  gmodify (fun e => set_FrameCtx (f <$> FrameCtx e) e).

(** [gasLeft] less the limits of the frames before [i], in uint64. *)
Definition availGas (gasLeft : Z) (frames : list TxFrame) (i : nat) : Z :=
  fold_left (fun g f => g -u fr_GasLimit f) (take i frames) gasLeft.

(** The callback of [ExecuteFrameTx]. *)
Definition frameCallFn (run : Contract -> bytes -> E (Contract * bytes * option vmerr))
    (msg : Message) (gasLeft : Z) (caller target : Address) (frameGasLimit : Z) (data : bytes)
    (mode : Z) (frameIndex : nat) : E frame_call :=
  do! gwhen (0 <? frameIndex)%nat
        (gmodify (fun e => set_statedb (ClearTransientStorage <$> statedb e) e)) in
  do! modFrameCtx (enterFrame frameIndex) in
  let avail := availGas gasLeft (m_Frames msg) frameIndex in
  let frameGasLimit := if frameGasLimit >? avail then avail else frameGasLimit in
  let! '(_, remainGas, callErr) :=
    (if mode =? ModeVerify
     then StaticCall PrecompiledContractsCancun run caller target data frameGasLimit
     else Call PrecompiledContractsCancun rvrun run caller target data frameGasLimit (Some 0)) in
  let status := match callErr with Some _ => ReceiptStatusFailed | None => ReceiptStatusSuccessful end in
  let! e := gget in
  let '(approved, approveScope) :=
    match FrameCtx e with
    | Some c => if ApproveCalledThisFrame c then (true, LastApproveScope c) else (false, 0)
    | None => (false, 0)
    end in
  do! modFrameCtx (leaveFrame frameIndex status) in
  let! logs := readDB (fun db => GetLogs db (m_TxHash msg)) in
  gret (mkFrameCall status (frameGasLimit -u remainGas) logs approved approveScope callErr).

Definition totalFrameGas (rs : list FrameResult) : Z :=
  fold_left (fun g r => g +u frr_GasUsed r) rs 0.

(** The transfer between sender and payer is for other transaction types
    only, so never made here. *)
Definition executeFrames (run : Contract -> bytes -> E (Contract * bytes * option vmerr))
    (msg : Message) (gasLeft : Z) : E executed :=
  do! gmodify (set_FrameCtx (Some (messageFrameCtx msg))) in
  let! stateNonceForFrame := readDB (fun db => GetNonce db (m_FrameSender msg)) in
  let! r := ExecuteFrameTx (frameCallFn run msg gasLeft) (messageFrameTx msg) stateNonceForFrame in
  match r with
  | inl e => gret (mkExecuted (Some (XFrame e)) [] 0 0 None)
  | inr ctx =>
      let total := totalFrameGas (fec_FrameResults ctx) in
      let gasRemaining := if total >=? gasLeft then 0 else gasLeft -u total in
      do! gwhen (fec_SenderApproved ctx)
            (mutDB (MSetNonce (m_FrameSender msg) (m_Nonce msg +u 1))) in
      gret (mkExecuted None [] gasRemaining 0 (Some ctx))
  end.

Definition execute (run : Contract -> bytes -> E (Contract * bytes * option vmerr))
    (msg : Message) (gasLeft : Z) : E executed :=
  if (m_TxType msg =? FrameTxType) && (0 <? length (m_Frames msg))%nat
  then executeFrames run msg gasLeft
  else
    match m_To msg with
    | None =>
        let! '(ret, addr, gas, err) :=
          Create keccak256 run (m_From msg) (m_Data msg) gasLeft (Some (m_Value msg)) in
        gret (mkExecuted (XVm <$> err) ret gas addr None)
    | Some to =>
        let! '(ret, gas, err) :=
          Call PrecompiledContractsCancun rvrun run (m_From msg) to (m_Data msg) gasLeft
            (Some (m_Value msg)) in
        gret (mkExecuted (XVm <$> err) ret gas 0 None)
    end.

(** *** Settlement *)

(** Gas used by the sender and, before the refund, by the block. *)
Definition finalGas (config : option ChainConfig) (header : Header) (msg : Message)
    (igas gasLeft gasRemaining rawRefund : Z) : Z * Z :=
  let gasUsed := igas +u (gasLeft -u gasRemaining) in
  let refund := if rawRefund >? gasUsed / 5 then gasUsed / 5 else rawRefund in
  let used := gasUsed -u refund in
  if isPrague config header then
    let floor := floorGas config header msg in
    (if floor >? used then floor else used, if floor >? gasUsed then floor else gasUsed)
  else (used, gasUsed).

Definition refundRecipient (msg : Message) (frameCtx : option FrameExecutionContext) : Address :=
  match frameCtx with
  | Some c => if negb (fec_Payer c =? 0) && negb (fec_Payer c =? m_From msg)
              then fec_Payer c else m_From msg
  | None => m_From msg
  end.

Definition payCoinbase (header : Header) (msg : Message) (gasUsed : Z) (e : EVM DB) : P unit :=
  let gasPrice := msgEffectiveGasPrice msg (h_BaseFee header) in
  match h_BaseFee header with
  | Some b =>
      if b >? 0 then
        do! gwhen (gasPrice - b >? 0)
              (mutP (MAddBalance (h_Coinbase header) ((gasPrice - b) * gasUsed))) in
        gwhen (IsEIP7708 (forkRules (Machine.config e)))
          (do! withEVM e (EmitBurnLog (m_From msg) (b * gasUsed)) in gret tt)
      else mutP (MAddBalance (h_Coinbase header) (gasPrice * gasUsed))
  | None => mutP (MAddBalance (h_Coinbase header) (gasPrice * gasUsed))
  end.

Definition settleMessage (config : option ChainConfig) (header : Header) (msg : Message)
    (igas gasLeft : Z) (x : executed) (e : EVM DB) : P ExecutionResult :=
  let! rawRefund := readP GetRefund in
  let '(gasUsed, gasUsedBeforeRefund) :=
    finalGas config header msg igas gasLeft (x_gas x) rawRefund in
  let remainingGas := m_GasLimit msg -u gasUsed in
  let gasPrice := msgEffectiveGasPrice msg (h_BaseFee header) in
  do! gwhen (remainingGas >? 0)
        (mutP (MAddBalance (refundRecipient msg (x_frame x)) (gasPrice * remainingGas))) in
  do! (if isGlamsterdan config header then AddGas (m_GasLimit msg -u gasUsedBeforeRefund)
       else AddGas remainingGas) in
  do! payCoinbase header msg gasUsed e in
  let dimStorageGas := match dimGasUsage e with Some d => DimStorage d | None => 0 end in
  gret (mkExecutionResult gasUsed gasUsedBeforeRefund dimStorageGas (x_err x) (x_ret x) (x_addr x)).

(** [applyMessage] up to the gas left for the execution: the checks, the
    deduction and the nonce. *)
Definition preCheck (config : option ChainConfig) (header : Header) (msg : Message) : R Z :=
  rbind (SubGas (m_GasLimit msg)) (fun _ =>
  rbind (checkNonce msg) (fun _ =>
  rbind (checkEOA msg) (fun _ =>
  rbind (checkFeeCaps header msg) (fun _ =>
  let! calldataCost := calldataGasCost config header msg in
  rbind (buyGas header msg calldataCost) (fun _ =>
  do! incrementNonce msg in
  checkIntrinsicGas config header msg))))).

Definition applyMessage (config : option ChainConfig) (getHash : option (Z -> Hash))
    (header : Header) (msg : Message) : R ExecutionResult :=
  rbind (preCheck config header msg) (fun igas =>
  let gasLeft := m_GasLimit msg -u igas in
  let evm := messageEVM config getHash header msg gasLeft in
  do! modP (mutates (warmList config header msg)) in
  do! applyAuthorizations config msg in
  let! '(x, evm) := withEVM evm (execute (evmRun config header) msg gasLeft) in
  let! res := settleMessage config header msg igas gasLeft x evm in
  gret (inr res)).

(** *** [applyTransactionInternal] *)

Definition PQPubKeyToAddress (pubkey : bytes) : Address :=
  BytesToAddress (take 20 (drop 12 (keccak256 pubkey))).

(** Fill in the sender.  A signature that does not recover is ignored. *)
Definition recoverSender (config : ChainConfig) (tx : Transaction) : Transaction :=
  let setSender a := mkTx (inner tx) (Some a) (sidecar tx) in
  match from tx with
  | Some _ => tx
  | None =>
      match inner tx with
      | AA t => setSender (aa_Sender t)
      | PQ t => match pq_PublicKey t with
                | [] => tx
                | pk => setSender (PQPubKeyToAddress pk)
                end
      | t =>
          match ChainConfig.ChainID config with
          | None => tx
          | Some id => match LondonSigner_Sender keccak256 (Uint64 id) t with
                       | Some a => setSender a
                       | None => tx
                       end
          end
      end
  end.

(** The logs and the bloom are read from the database after the message. *)
Definition makeReceipt (header : Header) (tx : Transaction) (msg : Message) (res : ExecutionResult)
    (db : DB) : option Receipt :=
  let logs := GetLogs db (tx_Hash keccak256 (inner tx)) in
  let blobGas := BlobGas (inner tx) in
  let calldataGas := CalldataTokenGas (tx_Data (inner tx)) in
  let useCalldata := (calldataGas >? 0) && bool_decide (is_Some (h_CalldataExcessGas header)) in
  blobPrice ← (if blobGas >? 0 then
                 match h_ExcessBlobGas header with
                 | Some excess => Some <$> calcBlobBaseFee feeFuel excess
                 | None => Some None
                 end
               else Some None);
  calldataPrice ← (if useCalldata then Some <$> CalcCalldataBaseFeeFromHeader feeFuel header
                   else Some None);
  Some {| rc_Type := txType (inner tx);
          rc_Status := match ExecErr res with Some _ => ReceiptStatusFailed
                                            | None => ReceiptStatusSuccessful end;
          rc_CumulativeGasUsed := UsedGas res;
          rc_Bloom := LogsBloom keccak256 logs;
          rc_Logs := logs;
          rc_TxHash := tx_Hash keccak256 (inner tx);
          rc_ContractAddress := if isCreate msg then ContractAddress res else 0;
          rc_GasUsed := UsedGas res;
          rc_EffectiveGasPrice := Some (msgEffectiveGasPrice msg (h_BaseFee header));
          rc_BlobGasUsed := if blobGas >? 0 then blobGas else 0;
          rc_BlobGasPrice := blobPrice;
          rc_CalldataGasUsed := if useCalldata then calldataGas else 0;
          rc_CalldataGasPrice := calldataPrice;
          rc_DimStorageGas := DimStorageGas res;
          rc_BlockGasUsed := BlockGasUsed res |}.

Definition snapshotP : P Z := fun s =>
  Ok (Snapshot (p_db s)).1 (set_db (Snapshot (p_db s)).2 s).

Definition revertP (id : Z) : P unit := fun s =>
  match RevertToSnapshot id (p_db s) with
  | Some db => Ok tt (set_db db s)
  | None => Panic PRevert
  end.

Definition applyTransactionInternal (config : ChainConfig) (getHash : option (Z -> Hash))
    (header : Header) (tx : Transaction) : R (Receipt * Z) :=
  let rules := cfg_Rules config (h_Number header) (cfg_IsMerge config) (h_Time header) in
  if (txType (inner tx) =? PQTransactionType) && negb (r_IsIPlus rules)
  then gret (inl ErrPQTransactionFork)
  else
    let tx := recoverSender config tx in
    let msg := TransactionToMessage keccak256 tx in
    do! modP ClearAccessList in
    let! snapshot := snapshotP in
    let! r := applyMessage (Some config) getHash header msg in
    match r with
    | inl e => do! revertP snapshot in gret (inl e)
    | inr res =>
        let! receipt := readP (makeReceipt header tx msg res) in
        match receipt with
        | Some rc => gret (inr (rc, UsedGas res))
        | None => fun _ => Fuel
        end
    end.

(** The nonce of an AA sender advances after a successful transaction only;
    the paymaster callback is not modelled. *)
Definition ApplyAAPostExecution (tx : Transaction) (receipt : Receipt) : P unit :=
  match inner tx with
  | AA t =>
      if negb (rc_Status receipt =? ReceiptStatusSuccessful) then gret tt
      else
        let! nonceBefore := readP (fun db => GetNonce db (aa_Sender t)) in
        mutP (MSetNonce (aa_Sender t) (nonceBefore +u 1))
  | _ => gret tt
  end.

End Processor.
