(* ===== verification/ProcessorProofs.v ===== *)
(** * ProcessorProofs: what a transaction does to gas and ether

    Rejected transactions leave no trace; the gas a transaction uses stays
    within its limit and is taken from the block's pool; the ether it spends
    is refunded, paid to the coinbase or burned, except for frame
    transactions, which nobody pays for. *)

From stdpp Require Import gmap.
From S2P Require Import Prelude Rlp StateDB MemStateDB MemStateDBProofs Machine Calls GasTable Witness.
From S2P Require Import Instructions JumpTable Interpreter Wp InstrSafe CallSafe ExecSafe Fixture EvmProps GasSafe Termination.
From S2P Require Import Transactions Signer Blocks Receipts ChainConfig Fees TxState Processor.

Section Processor.

Context {DB : Type} {ops : StateDB DB} {laws : StateDBLaws DB}.
Context {txops : TxStateDB DB} {txlaws : TxStateDBLaws DB}.
Context (keccak256 : bytes -> bytes).
Context (pcsCancun pcsGlamsterdan pcsIPlus : gmap Z PrecompiledContract).
Context (rvrun : bytes -> bytes -> Z -> bytes * option vmerr).
Context (Ecrecover : bytes -> bytes -> option bytes).
Context (fuel feeFuel : nat).

Implicit Types (s : pst (DB := DB)) (msg : Message) (header : Header).

(** ** Sequences of mutations *)

Definition delta (m : mutation) : Z :=
  match m with MAddBalance _ v => v | MSubBalance _ v => - v | _ => 0 end.

(** Mutations whose effect on the supply is [delta]. *)
Definition quiet (m : mutation) : bool :=
  match m with MCreateAccount _ | MSelfDestruct _ => false | _ => true end.

Definition deltas (ms : list mutation) : Z := foldr (fun m z => delta m + z) 0 ms.

Lemma supply_quiet m (db : DB) : quiet m = true -> supply (mutate m db) = supply db + delta m.
Proof.
  intros Hm. pose proof (supply_mutate m db) as Hs. destruct m; try done; simpl in *; try lia.
  - apply supply_Add.
  - rewrite supply_Sub. lia.
Qed.

Lemma mutates_app ms1 ms2 (db : DB) : mutates (ms1 ++ ms2) db = mutates ms2 (mutates ms1 db).
Proof. apply fold_left_app. Qed.

Lemma mutates_supply ms (db : DB) :
  Forall (fun m => quiet m = true) ms -> supply (mutates ms db) = supply db + deltas ms.
Proof.
  intros H. revert db. induction H as [|m ms Hm _ IH]; intros db; simpl; [lia|].
  change (mutates (m :: ms) db) with (mutates ms (mutate m db)). rewrite IH, supply_quiet by done. lia.
Qed.

Lemma mutates_wf ms (db : DB) : wf_state db -> wf_state (mutates ms db).
Proof. revert db. induction ms as [|m ms IH]; intros db W; [done|]. by apply IH, wf_mutate. Qed.

Lemma mutates_live ms (db : DB) id d0 : wf_state db -> live id d0 db -> live id d0 (mutates ms db).
Proof.
  revert db. induction ms as [|m ms IH]; intros db W Hl; [done|].
  apply IH; [by apply wf_mutate|by apply live_mutate].
Qed.

Lemma mutates_refund ms (db : DB) : is_u64 (GetRefund db) -> is_u64 (GetRefund (mutates ms db)).
Proof. revert db. induction ms as [|m ms IH]; intros db H; [done|]. by apply IH, refund_mutate. Qed.

(** ** Validation *)

(** What [preCheck] does to the database when it accepts. *)
Definition charges header msg (cost : Z) : list mutation :=
  (if m_TxType msg =? FrameTxType then []
   else [MSubBalance (m_From msg) (msgEffectiveGasPrice msg (h_BaseFee header) * m_GasLimit msg + cost)])
  ++ (if negb (isCreate msg) && negb (m_TxType msg =? FrameTxType) && negb (m_TxType msg =? AATxType)
      then [MSetNonce (m_From msg) (m_Nonce msg +u 1)] else []).

(** The cost of the calldata, when the computation of its price ends. *)
Definition calldataCharge config header msg : option Z :=
  if isGlamsterdan config header && bool_decide (is_Some (h_CalldataExcessGas header))
  then (fun fee => fee * CalldataTokenGas (m_Data msg)) <$> CalcCalldataBaseFeeFromHeader feeFuel header
  else Some 0.

(** Outcomes of a check that ran on [s], whose gas pool had [gp] before the
    gas limit was taken. *)
Definition checked {A} (fu : Prop) msg s gp (Q : A -> pst -> Prop) (r : out pst (txerr + A)) : Prop :=
  match r with
  | Ok (inl _) s' => p_gp s' = gp /\ p_tracker s' = p_tracker s /\ exists ms, p_db s' = mutates ms (p_db s)
  | Ok (inr a) s' => Q a s'
  | Fuel => fu
  | _ => False
  end.

(** The pool has paid the gas limit. *)
Definition paid msg s gp : Prop := is_u64 gp /\ m_GasLimit msg <= gp /\ p_gp s = gp - m_GasLimit msg.

Lemma rbind_checked {A B} fu msg s s0 gp (m : M pst (txerr + A)) (k : A -> M pst (txerr + B)) Q Q' :
  checked fu msg s gp Q (m s0) -> (forall a s', Q a s' -> checked fu msg s gp Q' (k a s')) ->
  checked fu msg s gp Q' (rbind m k s0).
Proof.
  unfold rbind, gbind. intros Hm Hk. destruct (m s0) as [[e|a] s'| | |]; try done. by apply Hk.
Qed.

Lemma reject_checked {A} fu msg s s1 gp e (Q : A -> pst -> Prop) ms :
  is_u64 (m_GasLimit msg) -> paid msg s1 gp -> p_tracker s1 = p_tracker s ->
  p_db s1 = mutates ms (p_db s) -> checked fu msg s gp Q (reject msg e s1).
Proof.
  unfold is_u64, reject, gbind, AddGas, gmodify, gret, checked, paid. intros Hl (Hu & Hle & E) Ht Ed.
  rewrite E. split; [|split; [done|by exists ms]]. simpl.
  rewrite u64_small by (unfold is_u64 in *; lia). lia.
Qed.

(** The state after the gas limit was taken and the mutations [ms] were made. *)
Definition during msg s gp ms s1 : Prop :=
  paid msg s1 gp /\ p_tracker s1 = p_tracker s /\ p_db s1 = mutates ms (p_db s).

Ltac reject_here := by eapply reject_checked; eauto.

Lemma checkNonce_checked fu msg s gp ms s1 :
  is_u64 (m_GasLimit msg) -> during msg s gp ms s1 ->
  checked fu msg s gp (fun _ s' => s' = s1) (checkNonce msg s1).
Proof.
  intros Hl (Hp & Ht & Ed). unfold checkNonce, gbind at 1, readP.
  destruct (_ <? _); [reject_here|]. destruct (_ >? _); [reject_here|done].
Qed.

Lemma checkEOA_checked fu msg s gp ms s1 :
  is_u64 (m_GasLimit msg) -> during msg s gp ms s1 ->
  checked fu msg s gp (fun _ s' => s' = s1) (checkEOA msg s1).
Proof.
  intros Hl (Hp & Ht & Ed). unfold checkEOA. destruct (_ =? _); [done|].
  unfold gbind at 1, readP. destruct (_ && _); [|done]. unfold gbind at 1.
  destruct (negb _); [reject_here|done].
Qed.

Lemma checkFeeCaps_checked fu header msg s gp ms s1 :
  is_u64 (m_GasLimit msg) -> during msg s gp ms s1 ->
  checked fu msg s gp (fun _ s' => s' = s1) (checkFeeCaps header msg s1).
Proof.
  intros Hl (Hp & Ht & Ed). unfold checkFeeCaps.
  destruct (h_BaseFee header), (m_GasFeeCap msg), (m_GasTipCap msg); try done.
  destruct (_ >? _); [|done]. destruct (_ <? _); [reject_here|]. destruct (_ <? _); [reject_here|done].
Qed.

Lemma buyGas_checked fu header msg cost s gp s1 :
  is_u64 (m_GasLimit msg) -> during msg s gp [] s1 ->
  checked fu msg s gp
    (fun _ s' => during msg s gp
       (if m_TxType msg =? FrameTxType then []
        else [MSubBalance (m_From msg)
                (msgEffectiveGasPrice msg (h_BaseFee header) * m_GasLimit msg + cost)]) s')
    (buyGas header msg cost s1).
Proof.
  intros Hl (Hp & Ht & Ed). unfold buyGas. destruct (_ =? _); [done|].
  unfold gbind at 1, readP. destruct (_ <? _); [reject_here|].
  unfold gbind, mutP, modP, gmodify, gret, set_db, checked, during, paid in *. simpl in *. by rewrite Ed.
Qed.

Lemma preCheck_checked config header msg s :
  is_u64 (p_gp s) -> is_u64 (m_GasLimit msg) ->
  checked (calldataCharge config header msg = None) msg s (p_gp s)
    (fun igas s' => exists cost, calldataCharge config header msg = Some cost /\
       during msg s (p_gp s) (charges header msg cost) s' /\
       igas <= m_GasLimit msg /\ igas = messageGas config header msg (p_db s'))
    (preCheck feeFuel config header msg s).
Proof.
  intros Hgp Hl. unfold preCheck. unfold is_u64 in Hgp.
  eapply (rbind_checked _ _ _ _ _ _ _ (fun _ s1 => during msg s (p_gp s) [] s1)).
  { unfold SubGas. unfold is_u64 in Hl. destruct (Z.ltb_spec (p_gp s) (m_GasLimit msg)); simpl.
    - split; [done|]. split; [done|]. by exists [].
    - unfold during, paid. simpl. repeat split; try done; [lia..|].
      rewrite u64_small by (unfold is_u64; lia). done. }
  intros _ s1 D1. eapply rbind_checked; [by eapply checkNonce_checked|]. intros _ ? ->.
  eapply rbind_checked; [by eapply checkEOA_checked|]. intros _ ? ->.
  eapply rbind_checked; [by eapply checkFeeCaps_checked|]. intros _ ? ->.
  assert (calldataGasCost feeFuel config header msg s1
          = match calldataCharge config header msg with Some c => Ok c s1 | None => Fuel end) as Ec.
  { unfold calldataGasCost, calldataCharge. destruct (_ && _); [|done].
    by destruct (CalcCalldataBaseFeeFromHeader feeFuel header). }
  unfold gbind at 1. rewrite Ec. destruct (calldataCharge config header msg) as [cost|] eqn:Hc; [|done].
  eapply rbind_checked; [by apply buyGas_checked|]. intros [] s2 D2. cbv beta in D2.
  assert (exists s3, incrementNonce msg s2 = Ok tt s3 /\ during msg s (p_gp s) (charges header msg cost) s3)
    as (s3 & E3 & D3).
  { unfold incrementNonce, charges. destruct (negb (isCreate msg) && _ && _).
    - eexists. split; [reflexivity|]. destruct D2 as (P & T & E). unfold during, paid, set_db in *. simpl.
      rewrite E, mutates_app. by split.
    - rewrite app_nil_r. by exists s2. }
  unfold gbind at 1. rewrite E3. unfold checkIntrinsicGas, gbind at 1, readP.
  destruct (Z.gtb_spec (messageGas config header msg (p_db s3)) (m_GasLimit msg)).
  - destruct D3 as (P & T & E). reject_here.
  - simpl. exists cost. split; [done|]. split; [done|]. split; [lia|done].
Qed.

(** ** Rejected transactions *)

Abbreviation applyMessage_ :=
  (applyMessage keccak256 pcsCancun pcsGlamsterdan pcsIPlus rvrun Ecrecover fuel feeFuel).
Abbreviation applyTransaction_ :=
  (applyTransactionInternal keccak256 pcsCancun pcsGlamsterdan pcsIPlus rvrun Ecrecover fuel feeFuel).

(** Past the checks nothing rejects. *)
Lemma applyMessage_rejected config getHash header msg s e s' :
  applyMessage_ config getHash header msg s = Ok (inl e) s' ->
  preCheck feeFuel config header msg s = Ok (inl e) s'.
Proof.
  unfold applyMessage, rbind, gbind, gret.
  intros Em. destruct (preCheck feeFuel config header msg s) as [[e1|igas] s1| | |]; try discriminate Em;
    [by injection Em as <- <-|].
  exfalso. revert Em. repeat (case_match; try (intros Em; discriminate Em)).
Qed.

(** C23. What a rejected transaction leaves behind, whatever the reason (nonce,
    sender with code, fee caps, balance, intrinsic gas, gas pool, or the fork
    of a PQ transaction), although gas has been deducted and the nonce advanced
    before the intrinsic gas is checked: the gas pool and the access tracker
    are unchanged, and the state either is untouched (the fork check) or is
    the one with the access list cleared, restored by a revert.  So balances,
    nonces, code, storage, transient storage, logs and the refund counter read
    as before; what can differ is the access list, which is not given back,
    and that an account that did not exist may be left behind empty. *)
Theorem rejected_transaction_reverts config getHash header tx s e s' :
  wf_state (p_db s) -> is_u64 (p_gp s) -> is_u64 (ApplyLocalTxDiscount (inner tx)) ->
  applyTransaction_ config getHash header tx s = Ok (inl e) s' ->
  p_gp s' = p_gp s /\ p_tracker s' = p_tracker s /\ same_world (p_db s) (p_db s') /\
  (p_db s' = p_db s \/ restored (ClearAccessList (p_db s)) (p_db s')).
Proof.
  intros W Hgp Hl. unfold applyTransactionInternal.
  destruct (_ && _); [intros [= <- <-]; do 3 (split; [done|]); by left|].
  cbv zeta. set (tx' := recoverSender keccak256 config tx).
  assert (inner tx' = inner tx) as Ei.
  { unfold tx', recoverSender. repeat case_match; done. }
  set (msg := TransactionToMessage keccak256 tx').
  assert (m_GasLimit msg = ApplyLocalTxDiscount (inner tx)) as El by (unfold msg; simpl; by rewrite Ei).
  unfold gbind at 1, modP, gmodify. unfold gbind at 1, snapshotP.
  set (db1 := ClearAccessList (p_db s)). set (s2 := set_db (Snapshot (p_db (set_db db1 s))).2 (set_db db1 s)).
  assert (wf_state db1) as W1 by (by apply wf_ClearAccessList).
  unfold gbind at 1. destruct (applyMessage_ (Some config) getHash header msg s2) as [[e1|res] s3| | |] eqn:Em; try done.
  - apply applyMessage_rejected in Em.
    pose proof (preCheck_checked (Some config) header msg s2 Hgp ltac:(by rewrite El)) as Hc.
    rewrite Em in Hc. destruct Hc as (Hg & Ht & ms & Ed).
    unfold gbind, revertP. destruct (RevertToSnapshot _ (p_db s3)) as [db4|] eqn:Er; [|done].
    intros [= <- <-]. simpl. do 2 (split; [done|]). simpl in Ed. rewrite Ed in Er.
    assert (restored db1 db4) as R.
    { eapply revert_restored; [|apply mutates_live; [|by apply live_new]|exact Er];
        [by apply mutates_wf, wf_snapshot|by apply wf_snapshot]. }
    split; [|by right]. transitivity db1; [apply same_ClearAccessList|apply R].
  - unfold gbind, readP. by destruct (makeReceipt _ _ _ _ _ _ _).
Qed.

(** ** Execution keeps the supply *)

(** What every execution keeps. *)
Record calm (db db' : DB) : Prop := {
  calm_wf : wf_state db';
  calm_supply : supply db' = supply db;
  calm_refund : is_u64 (GetRefund db) -> is_u64 (GetRefund db');
}.

Definition ledger (db db' : DB) : Prop :=
  same_supply db db' /\ (is_u64 (GetRefund db) -> is_u64 (GetRefund db')).

#[local] Instance ledger_ObsLaws : ObsLaws false ledger.
Proof.
  split.
  - split; [by split|]. intros a b c [S1 R1] [S2 R2]. unfold ledger, same_supply in *. split; [congruence|auto].
  - intros a b R E. split; [done|]. by rewrite (sw_refund _ _ (rs_world _ _ R)).
  - intros m a Hm. split; [by apply obs_warm|apply refund_mutate].
  - intros a. split; [apply supply_Snapshot|]. by rewrite (sw_refund _ _ (same_Snapshot a)).
  - intros a b E. split; [by apply supply_Create|]. apply (refund_mutate (MCreateAccount a)).
  - intros m a _ Hm. split; [by apply obs_write|apply refund_mutate].
  - intros a b v d _. split; [by apply obs_transfer|]. intros R.
    by apply (refund_mutate (MAddBalance b v)), (refund_mutate (MSubBalance a v)).
  - intros a b v d _. split; [by apply obs_credit|]. intros R.
    by apply (refund_mutate (MSubBalance a v)), (refund_mutate (MAddBalance b v)).
Qed.

Lemma calm_refl db : wf_state db -> calm db db.
Proof. by split. Qed.

Lemma calm_trans a b c : calm a b -> calm b c -> calm a c.
Proof. intros [W1 S1 R1] [W2 S2 R2]. split; [done|congruence|auto]. Qed.

Lemma calm_evolves db db' : evolves ledger db db' -> calm db db'.
Proof. intros [W _ [S R]]. by split. Qed.

Lemma calm_mutate m db : quiet m = true -> delta m = 0 -> wf_state db -> calm db (mutate m db).
Proof.
  intros Hq Hd W. split; [by apply wf_mutate|rewrite supply_quiet by done; lia|apply refund_mutate].
Qed.

Lemma calm_mutates ms db :
  Forall (fun m => quiet m = true /\ delta m = 0) ms -> wf_state db -> calm db (mutates ms db).
Proof.
  intros H. revert db. induction H as [|m ms [Hq Hd] _ IH]; intros db W; [by apply calm_refl|].
  eapply calm_trans; [by apply (calm_mutate m)|]. apply IH. by apply wf_mutate.
Qed.

Lemma calm_clearTransient db : wf_state db -> calm db (ClearTransientStorage db).
Proof.
  intros W. split; [by apply wf_ClearTransient|apply supply_ClearTransient|].
  by rewrite refund_ClearTransient.
Qed.

(** EVM code that ends, or leaves a calm database. *)
Definition calms {A} (m : M (EVM DB) A) : Prop := forall e db,
  statedb e = Some db -> wf_state db ->
  match m e with
  | Ok _ e' => exists db', statedb e' = Some db' /\ calm db db'
  | Err _ _ _ => False
  | Panic _ | Fuel => True
  end.

Lemma calms_bind {A B} (m : M (EVM DB) A) (k : A -> M (EVM DB) B) :
  calms m -> (forall a, calms (k a)) -> calms (gbind m k).
Proof.
  intros Hm Hk e db E W. unfold gbind. specialize (Hm e db E W).
  destruct (m e) as [a e1| | |]; try done. destruct Hm as (db1 & E1 & C1).
  specialize (Hk a e1 db1 E1 (calm_wf _ _ C1)). destruct (k a e1) as [b e2| | |]; try done.
  destruct Hk as (db2 & E2 & C2). exists db2. split; [done|by eapply calm_trans].
Qed.

Lemma calms_ret {A} (a : A) : calms (gret a).
Proof. intros e db E W. exists db. split; [done|by apply calm_refl]. Qed.

Lemma calms_get : calms gget.
Proof. intros e db E W. exists db. split; [done|by apply calm_refl]. Qed.

Lemma calms_read {A} (f : DB -> A) : calms (readDB f).
Proof. intros e db E W. unfold readDB. rewrite E. exists db. split; [done|by apply calm_refl]. Qed.

(** Updates of the EVM that leave the database alone. *)
Lemma calms_modify f : (forall e, statedb (f e) = statedb e) -> calms (gmodify f).
Proof. intros Hf e db E W. exists db. rewrite Hf. split; [done|by apply calm_refl]. Qed.

Lemma calms_mut m : quiet m = true -> delta m = 0 -> calms (mutDB m).
Proof.
  intros Hq Hd e db E W. unfold mutDB. rewrite E. exists (mutate m db). split; [done|by apply calm_mutate].
Qed.

Lemma calms_when b m : calms m -> calms (gwhen b m).
Proof. intros H. destruct b; [done|apply calms_ret]. Qed.

(** Code of the EVM. *)
Lemma calms_evm {A} (m : M (EVM DB) A) :
  ple (world_rel false ledger) True false m -> (forall e er r e', m e <> Err er r e') -> calms m.
Proof.
  intros P N e db E W. destruct (m e) as [a e'|er r e'|p|] eqn:Em; try done; [|by eapply N].
  destruct (evolves_from ledger m e db a e' P E W Em) as (db' & E' & Ev).
  exists db'. split; [done|by apply calm_evolves].
Qed.

(** Any interpreter of the development. *)
Abbreviation run_ config header := (evmRun (DB := DB) keccak256 pcsCancun rvrun fuel config header).

Lemma run_ok (RE : EVM DB -> EVM DB -> Prop) `{!EvmRel RE} config header c i :
  ple RE True false (run_ config header c i).
Proof. by apply table_run_ok. Qed.

Lemma run_returns config header c i (e : EVM DB) er r e' : run_ config header c i e <> Err er r e'.
Proof. apply table_run_returns. Qed.

Lemma calms_Call config header a b i g v : calms (Call pcsCancun rvrun (run_ config header) a b i g v).
Proof.
  apply calms_evm.
  - apply ple_Call; [exact _|apply run_ok; exact _|apply run_returns].
  - apply Call_returns, run_returns.
Qed.

Lemma calms_StaticCall config header a b i g : calms (StaticCall pcsCancun (run_ config header) a b i g).
Proof.
  apply calms_evm.
  - apply ple_StaticCall; [exact _|apply run_ok; exact _|apply run_returns].
  - apply StaticCall_returns, run_returns.
Qed.

Lemma calms_Create config header a code g v : calms (Create keccak256 (run_ config header) a code g v).
Proof.
  apply calms_evm.
  - apply ple_Create; [exact _|apply run_ok; exact _|apply run_returns].
  - apply Create_returns, run_returns.
Qed.

Lemma calms_frameCall config header msg gasLeft caller target g d mode i :
  calms (frameCallFn pcsCancun rvrun (run_ config header) msg gasLeft caller target g d mode i).
Proof.
  unfold frameCallFn. apply calms_bind.
  { apply calms_when. intros e db E W. exists (ClearTransientStorage db). simpl. rewrite E.
    split; [done|by apply calm_clearTransient]. }
  intros _. apply calms_bind; [by apply calms_modify|]. intros _.
  apply calms_bind; [destruct (_ =? _); [apply calms_StaticCall|apply calms_Call]|]. intros [[r left] err].
  apply calms_bind; [apply calms_get|]. intros e1.
  destruct (match FrameCtx e1 with Some _ => _ | None => _ end) as [approved scope].
  apply calms_bind; [by apply calms_modify|]. intros _.
  apply calms_bind; [apply calms_read|]. intros logs. apply calms_ret.
Qed.

Lemma calms_frames (callFn : Address -> Address -> Z -> bytes -> Z -> nat -> M (EVM DB) frame_call)
    sender frames i ctx :
  (forall c t g d m i, calms (callFn c t g d m i)) -> calms (frames_loop callFn sender i frames ctx).
Proof.
  intros Hc. revert i ctx. induction frames as [|f frames IH]; intros i ctx; simpl; [apply calms_ret|].
  destruct (frameCaller _ _ _); [apply calms_ret|]. apply calms_bind; [apply Hc|]. intros r.
  destruct (recordFrame _ _ _ _ _); [apply calms_ret|apply IH].
Qed.

Lemma calms_execute config header msg gasLeft :
  calms (execute keccak256 pcsCancun rvrun (run_ config header) msg gasLeft).
Proof.
  unfold execute, executeFrames, ExecuteFrameTx. destruct (_ && _).
  - apply calms_bind; [by apply calms_modify|]. intros _. apply calms_bind; [apply calms_read|]. intros n.
    apply calms_bind.
    { destruct (negb _); [apply calms_ret|]. apply calms_bind; [apply calms_frames, calms_frameCall|].
      intros [er|ctx]; apply calms_ret. }
    intros [er|ctx]; [apply calms_ret|]. apply calms_bind; [|intros _; apply calms_ret].
    apply calms_when. by apply calms_mut.
  - destruct (m_To msg).
    + apply calms_bind; [apply calms_Call|]. intros [[r g] err]. apply calms_ret.
    + apply calms_bind; [apply calms_Create|]. intros [[[r a] g] err]. apply calms_ret.
Qed.

(** ** Settlement *)

(** What the coinbase is paid for the gas used. *)
Definition coinbasePay header (price used : Z) : Z :=
  match h_BaseFee header with
  | Some b => if b >? 0 then (if price - b >? 0 then (price - b) * used else 0) else price * used
  | None => price * used
  end.

(** The gas used stays within the limit, and at most a fifth is refunded. *)
Lemma finalGas_bounds config header msg igas left raw used before :
  is_u64 (m_GasLimit msg) -> 0 <= igas <= m_GasLimit msg -> 0 <= left <= m_GasLimit msg - igas ->
  is_u64 raw -> (isPrague config header = true -> 0 <= floorGas config header msg <= igas) ->
  finalGas config header msg igas (m_GasLimit msg - igas) left raw = (used, before) ->
  0 <= used <= before /\ before <= m_GasLimit msg /\ 4 * before <= 5 * used.
Proof.
  unfold is_u64, finalGas. intros Hl Hi Hg Hr Hf.
  rewrite (u64_small (m_GasLimit msg - igas - left)) by (unfold is_u64; lia).
  set (g := igas + (m_GasLimit msg - igas - left)).
  assert (0 <= g <= m_GasLimit msg) as Hgb by (unfold g; lia).
  rewrite (u64_small g) by (unfold is_u64; lia).
  assert (0 <= g / 5 /\ 5 * (g / 5) <= g) as [Hd1 Hd2] by (split; [apply Z.div_pos; lia|apply Z.mul_div_le; lia]).
  set (refund := if raw >? g / 5 then g / 5 else raw).
  assert (0 <= refund <= g / 5) as Hrf by (unfold refund; destruct (Z.gtb_spec raw (g / 5)); lia).
  rewrite (u64_small (g - refund)) by (unfold is_u64; lia).
  destruct (isPrague config header).
  - specialize (Hf eq_refl). intros [= <- <-].
    destruct (Z.gtb_spec (floorGas config header msg) (g - refund)),
      (Z.gtb_spec (floorGas config header msg) g); lia.
  - intros [= <- <-]. lia.
Qed.

(** Well-formed, with a refund counter in range. *)
Definition sound (db : DB) : Prop := wf_state db /\ is_u64 (GetRefund db).

Lemma sound_mutate m db : sound db -> sound (mutate m db).
Proof. intros [W R]. split; [by apply wf_mutate|by apply refund_mutate]. Qed.

Lemma sound_calm db db' : sound db -> calm db db' -> sound db'.
Proof. intros [W R] [W' _ R']. split; auto. Qed.

Lemma payCoinbase_ok header msg used e s s' :
  sound (p_db s) -> payCoinbase header msg used e s = Ok tt s' ->
  sound (p_db s') /\ p_gp s' = p_gp s /\
  supply (p_db s') = supply (p_db s) + coinbasePay header (msgEffectiveGasPrice msg (h_BaseFee header)) used.
Proof.
  intros W. set (price := msgEffectiveGasPrice msg (h_BaseFee header)). unfold payCoinbase, coinbasePay. fold price.
  assert (forall v s1, mutP (MAddBalance (h_Coinbase header) v) s = Ok tt s1 ->
            sound (p_db s1) /\ p_gp s1 = p_gp s /\ supply (p_db s1) = supply (p_db s) + v) as HA.
  { intros v s1 [= <-]. simpl. split; [by apply (sound_mutate (MAddBalance _ _))|]. split; [done|apply supply_Add]. }
  destruct (h_BaseFee header) as [b|]; [|intros E; exact (HA _ _ E)].
  destruct (b >? 0); [|intros E; exact (HA _ _ E)].
  unfold gbind at 1.
  assert (exists s1, gwhen (price - b >? 0) (mutP (MAddBalance (h_Coinbase header) ((price - b) * used))) s = Ok tt s1 /\
    p_gp s1 = p_gp s /\ sound (p_db s1) /\
    supply (p_db s1) = supply (p_db s) + (if price - b >? 0 then (price - b) * used else 0)) as (s1 & -> & G1 & W1 & S1).
  { destruct (price - b >? 0); simpl.
    - destruct (HA ((price - b) * used) _ eq_refl) as (? & ? & ?). eexists. by split.
    - exists s. split; [done|]. split; [done|]. split; [done|lia]. }
  destruct (IsEIP7708 _); simpl; [|intros [= <-]; by rewrite <- S1].
  unfold gbind, withEVM. set (e1 := set_balTracker _ _).
  assert (calms (EmitBurnLog (DB := DB) (m_From msg) (b * used))) as HC.
  { unfold EmitBurnLog. destruct (_ <=? _); [apply calms_ret|]. apply calms_bind; [|intros; by apply calms_mut].
    destruct (pad32 _); [apply calms_ret|done]. }
  specialize (HC e1 (p_db s1) eq_refl (proj1 W1)). destruct (EmitBurnLog _ _ e1) as [u e2| | |]; try done.
  destruct HC as (db2 & E2 & C2). intros [= <-]. simpl. rewrite E2. simpl.
  split; [by eapply sound_calm|]. split; [done|]. rewrite (calm_supply _ _ C2). lia.
Qed.

(** The gas pool and the supply after a settlement, for an execution that
    returned at most the gas it was given. *)
Record settled config header msg (gp sup : Z) (res : ExecutionResult) s' : Prop := {
  st_sound : sound (p_db s');
  st_used : 0 <= UsedGas res <= BlockGasUsed res;
  st_limit : BlockGasUsed res <= m_GasLimit msg;
  st_refund : 4 * BlockGasUsed res <= 5 * UsedGas res;
  st_pool : p_gp s' = gp - (if isGlamsterdan config header then BlockGasUsed res else UsedGas res);
  st_supply :
    let price := msgEffectiveGasPrice msg (h_BaseFee header) in
    supply (p_db s') = sup + price * (m_GasLimit msg - UsedGas res) + coinbasePay header price (UsedGas res);
}.

Lemma settleMessage_ok config header msg igas x e s gp res s' :
  is_u64 (m_GasLimit msg) -> 0 <= igas <= m_GasLimit msg -> 0 <= x_gas x <= m_GasLimit msg - igas ->
  (isPrague config header = true -> 0 <= floorGas config header msg <= igas) ->
  paid msg s gp -> sound (p_db s) ->
  settleMessage config header msg igas (m_GasLimit msg - igas) x e s = Ok res s' ->
  settled config header msg gp (supply (p_db s)) res s'.
Proof.
  intros Hl Hi Hx Hf (Hu & Hle & Hgp) W. pose proof (proj2 W) as Hr. unfold settleMessage, gbind at 1, readP.
  destruct (finalGas _ _ _ _ _ _ _) as [used before] eqn:Efg.
  destruct (finalGas_bounds _ _ _ _ _ _ _ _ Hl Hi Hx Hr Hf Efg) as (B1 & B2 & B3).
  unfold is_u64 in Hl, Hu. cbv zeta. rewrite !(u64_small (m_GasLimit msg - _)) by (unfold is_u64; lia).
  set (price := msgEffectiveGasPrice msg (h_BaseFee header)).
  unfold gbind at 1.
  assert (exists s1, gwhen (m_GasLimit msg - used >? 0)
      (mutP (MAddBalance (refundRecipient msg (x_frame x)) (price * (m_GasLimit msg - used)))) s = Ok tt s1 /\
    p_gp s1 = p_gp s /\ sound (p_db s1) /\
    supply (p_db s1) = supply (p_db s) + price * (m_GasLimit msg - used)) as (s1 & -> & G1 & W1 & S1).
  { destruct (Z.gtb_spec (m_GasLimit msg - used) 0); simpl.
    - eexists. split; [reflexivity|]. simpl. split; [done|].
      split; [by apply (sound_mutate (MAddBalance _ _))|apply supply_Add].
    - exists s. split; [done|]. split; [done|]. split; [done|]. replace (m_GasLimit msg - used) with 0 by lia. lia. }
  unfold gbind at 1.
  set (back := if isGlamsterdan config header then before else used).
  match goal with |- match ?m s1 with _ => _ end = _ -> _ =>
    assert (m s1 = Ok tt (mkP (p_db s1) (gp - back) (p_tracker s1))) as -> end.
  { unfold back, AddGas, gmodify. destruct (isGlamsterdan config header); cbv beta; rewrite G1, Hgp;
      rewrite u64_small by (unfold is_u64; lia); do 2 f_equal; lia. }
  unfold gbind at 1. destruct (payCoinbase header msg used e _) as [[] s3| | |] eqn:Ep; try done.
  apply payCoinbase_ok in Ep as (W3 & G3 & S3); [|done]. intros [= <- <-].
  split; simpl; [done|lia|lia|lia| |].
  - rewrite G3. simpl. by unfold back.
  - rewrite S3. simpl. rewrite S1. fold price. lia.
Qed.

(** ** Messages *)

Lemma messageGas_bounds config header msg (db : DB) :
  0 <= messageGas config header msg db /\
  (isPrague config header = true -> 0 <= floorGas config header msg <= messageGas config header msg db).
Proof.
  assert (0 <= floorGas config header msg) as Hf.
  { unfold floorGas, calldataFloorGasGlamst, calldataFloorGas.
    destruct (isGlamsterdan _ _), (isCreate msg); cbv zeta; apply u64_nonneg. }
  unfold messageGas. cbv zeta. set (igas := if isGlamsterdan config header then _ else _).
  assert (0 <= igas) as Hi by (unfold igas; destruct (isGlamsterdan _ _); apply u64_nonneg).
  destruct (isPrague config header); simpl; [|done].
  destruct (Z.gtb_spec (floorGas config header msg) igas); split; try done; intros; lia.
Qed.

Lemma calm_warm config header msg db :
  wf_state db -> calm db (mutates (warmList pcsCancun pcsGlamsterdan pcsIPlus config header msg) db).
Proof.
  apply calm_mutates. unfold warmList. repeat rewrite Forall_app. repeat split.
  - by repeat constructor.
  - destruct (m_To msg); by repeat constructor.
  - by repeat constructor.
  - destruct config; [|done]. apply Forall_fmap, Forall_forall. by intros.
  - apply Forall_forall. intros m Hm. apply list_elem_of_In, in_flat_map in Hm as (t & _ & [<-|Hm]); [done|].
    by apply in_map_iff in Hm as (k & <- & _).
Qed.

Lemma calm_authorizations auths chainID db :
  wf_state db -> calm db (ProcessAuthorizations keccak256 Ecrecover auths chainID db).
Proof.
  revert db. induction auths as [|a auths IH]; intros db W; [by apply calm_refl|]. simpl.
  assert (calm db (processOneAuthorization keccak256 Ecrecover a chainID db)) as C1.
  { unfold processOneAuthorization. destruct (match au_ChainID a with Some _ => _ | None => _ end); [by apply calm_refl|].
    destruct (RecoverAuthority _ _ a) as [addr|]; [|by apply calm_refl]. destruct (negb _); [by apply calm_refl|].
    cbv zeta. set (db1 := if negb (Empty db addr) then _ else db).
    assert (calm db db1) as C by (unfold db1; destruct (negb _); [by apply calm_mutate|by apply calm_refl]).
    eapply calm_trans; [exact C|]. pose proof (calm_wf _ _ C) as W1.
    eapply calm_trans; [by apply (calm_mutate (MSetCode addr (AddressToDelegation (au_Address a))))|].
    apply calm_mutate; [done|done|by apply wf_mutate]. }
  eapply calm_trans; [exact C1|]. apply IH. apply C1.
Qed.

Lemma charges_quiet header msg cost : Forall (fun m => quiet m = true) (charges header msg cost).
Proof. unfold charges. apply Forall_app. split; case_match; by repeat constructor. Qed.

Lemma deltas_charges header msg cost :
  deltas (charges header msg cost)
  = if m_TxType msg =? FrameTxType then 0
    else - (msgEffectiveGasPrice msg (h_BaseFee header) * m_GasLimit msg + cost).
Proof.
  unfold charges. destruct (m_TxType msg =? FrameTxType); simpl; repeat case_match; simpl; lia.
Qed.

(** The execution of a message returns at most the gas it is given. *)
Definition frugal config getHash header msg : Prop := forall igas e x e',
  0 <= igas <= m_GasLimit msg ->
  Machine.config e = Machine.config
    (messageEVM (DB := DB) pcsCancun pcsGlamsterdan pcsIPlus config getHash header msg (m_GasLimit msg - igas)) ->
  execute keccak256 pcsCancun rvrun (run_ config header) msg (m_GasLimit msg - igas) e = Ok x e' ->
  0 <= x_gas x <= m_GasLimit msg - igas.

Lemma applyMessage_settled config getHash header msg s res s' :
  wf_state (p_db s) -> is_u64 (p_gp s) -> is_u64 (m_GasLimit msg) -> is_u64 (GetRefund (p_db s)) ->
  frugal config getHash header msg ->
  applyMessage_ config getHash header msg s = Ok (inr res) s' ->
  exists cost, calldataCharge config header msg = Some cost /\ m_GasLimit msg <= p_gp s /\
    settled config header msg (p_gp s) (supply (p_db s) + deltas (charges header msg cost)) res s'.
Proof.
  intros W Hgp Hl Hr Hx. unfold applyMessage, rbind at 1, gbind at 1.
  pose proof (preCheck_checked config header msg s Hgp Hl) as Hc.
  destruct (preCheck feeFuel config header msg s) as [[e1|igas] s1| | |]; try done.
  destruct Hc as (cost & Ec & (Hp & _ & Ed) & Hi & Eg).
  destruct (messageGas_bounds config header msg (p_db s1)) as [Hi0 Hf]. rewrite <- Eg in Hi0, Hf.
  assert (wf_state (p_db s1)) as W1 by (rewrite Ed; by apply mutates_wf).
  assert (is_u64 (GetRefund (p_db s1))) as Hr1 by (rewrite Ed; by apply mutates_refund).
  assert (supply (p_db s1) = supply (p_db s) + deltas (charges header msg cost)) as S1
    by (rewrite Ed; apply mutates_supply, charges_quiet).
  unfold is_u64 in Hl. rewrite (u64_small (m_GasLimit msg - igas)) by (unfold is_u64; lia).
  unfold gbind at 1, modP, gmodify. set (s2 := set_db _ s1).
  assert (calm (p_db s1) (p_db s2)) as C2 by (by apply calm_warm).
  unfold gbind at 1.
  assert (exists s3, applyAuthorizations keccak256 Ecrecover config msg s2 = Ok tt s3 /\
            p_gp s3 = p_gp s1 /\ calm (p_db s2) (p_db s3)) as (s3 & -> & G3 & C3).
  { unfold applyAuthorizations. destruct (_ =? _).
    - eexists. split; [reflexivity|]. split; [done|]. apply calm_authorizations, C2.
    - exists s2. split; [done|]. split; [done|]. apply calm_refl, C2. }
  unfold gbind at 1, withEVM. set (e := set_balTracker _ _).
  pose proof (calms_execute config header msg (m_GasLimit msg - igas) e (p_db s3) eq_refl (calm_wf _ _ C3)) as HC.
  specialize (Hx igas e). destruct (execute _ _ _ _ _ _ e) as [x e4| | |] eqn:Ee; try done.
  specialize (Hx x e4 ltac:(lia) eq_refl eq_refl). destruct HC as (db4 & E4 & C4). rewrite E4. simpl.
  set (s4 := mkP _ _ _). unfold gbind.
  destruct (settleMessage config header msg igas _ x e4 s4) as [res' s5| | |] eqn:Es; try done.
  intros [= -> ->]. exists cost. split; [done|]. split; [by destruct Hp as (_ & ? & _)|].
  assert (calm (p_db s1) db4) as C by (eapply calm_trans; [exact C2|by eapply calm_trans]).
  rewrite <- S1, <- (calm_supply _ _ C).
  eapply (settleMessage_ok config header msg igas x e4 s4); eauto;
    [|by eapply (sound_calm (p_db s1)); [split|exact C]].
  destruct Hp as (U & B & G). repeat split; try apply U; try done. simpl. by rewrite G3.
Qed.

(** *** Frame transactions return what the frames leave *)

Lemma totalFrameGas_nonneg rs : 0 <= totalFrameGas rs.
Proof.
  assert (forall g, 0 <= g -> 0 <= fold_left (fun g r => g +u frr_GasUsed r) rs g) as H; [|by apply H].
  induction rs as [|r rs IH]; intros g Hg; [done|]. simpl. apply IH, u64_nonneg.
Qed.

Lemma executeFrames_gas run msg gasLeft (e : EVM DB) x e' :
  is_u64 gasLeft -> executeFrames keccak256 pcsCancun rvrun run msg gasLeft e = Ok x e' ->
  0 <= x_gas x <= gasLeft.
Proof.
  unfold is_u64. intros Hg. unfold executeFrames, gbind, gret. repeat (case_match; try done).
  all: intros [= <- <-]; simpl; try lia.
  all: match goal with |- context [totalFrameGas ?rs] => pose proof (totalFrameGas_nonneg rs) end.
  all: destruct (Z.geb_spec (totalFrameGas (fec_FrameResults f)) gasLeft); [lia|].
  all: rewrite u64_small by (unfold is_u64; lia); lia.
Qed.

Definition is_frame msg : bool := (m_TxType msg =? FrameTxType) && (0 <? length (m_Frames msg))%nat.

Lemma frugal_frames config getHash header msg :
  is_u64 (m_GasLimit msg) -> is_frame msg = true -> frugal config getHash header msg.
Proof.
  unfold is_u64, is_frame. intros Hl Hf igas e x e' Hi _. unfold execute. rewrite Hf.
  apply executeFrames_gas. unfold is_u64. lia.
Qed.

(** *** Metered execution *)

Section Metered.

Context (config : ChainConfig) (getHash : option (Z -> Hash)) (header : Header) (msg : Message).
Context (Hm : metered_rules (forkRulesOf config header) = true).
Context (Hpcs : map_Forall (fun _ p => forall i, is_u64 (RequiredGas p i))
                  (SelectPrecompiles pcsCancun pcsGlamsterdan pcsIPlus (forkRulesOf config header))).
Context (Hl : is_u64 (m_GasLimit msg)) (Hfuel : m_GasLimit msg < Z.of_nat fuel).

Abbreviation run := (run_ (Some config) header).

Lemma run_gas c i (e : EVM DB) :
  pcs_u64 pcsCancun (Machine.config e) -> 0 <= Gas c < m_GasLimit msg + 1 ->
  match run c i e with
  | Ok (c', _, _) e' => 0 <= Gas c' <= Gas c /\ Machine.config e' = Machine.config e
  | Err _ _ _ => False
  | Panic _ => True
  | Fuel => False
  end.
Proof.
  intros P Hg. unfold is_u64 in Hl.
  pose proof (exec_metered keccak256 pcsCancun rvrun (forkRulesOf config header) Hm fuel
    (initFrame c i e)) as B. simpl in B.
  specialize (B ltac:(lia) ltac:(unfold is_u64; lia) P ltac:(lia)).
  unfold evmRun, Run, tableRules. exact B.
Qed.

(** The execution ends within the fuel, and returns at most its gas. *)
Lemma execute_gas igas e :
  is_frame msg = false -> 0 <= igas <= m_GasLimit msg ->
  Machine.config e = Machine.config
    (messageEVM (DB := DB) pcsCancun pcsGlamsterdan pcsIPlus (Some config) getHash header msg (m_GasLimit msg - igas)) ->
  match execute keccak256 pcsCancun rvrun run msg (m_GasLimit msg - igas) e with
  | Ok x _ => 0 <= x_gas x <= m_GasLimit msg - igas
  | Fuel => False
  | _ => True
  end.
Proof.
  intros Hf Hi Ec. unfold is_u64 in Hl. set (g := m_GasLimit msg - igas).
  assert (pcs_u64 pcsCancun (Machine.config e)) as P.
  { rewrite Ec. unfold messageEVM, pcs_u64. by destruct (isGlamsterdan _ _). }
  unfold execute. fold (is_frame msg). rewrite Hf. destruct (m_To msg) as [to|].
  - pose proof (gc_Call pcsCancun rvrun run (m_GasLimit msg + 1) run_gas (m_From msg) to (m_Data msg) g
      (Some (m_Value msg)) ltac:(unfold is_u64, g; lia) ltac:(unfold g; lia) e P) as B.
    unfold gbind. destruct (Call _ _ _ _ _ _ _ _ e) as [[[r left] err] e1| | |]; try done. apply B.
  - pose proof (gc_Create keccak256 pcsCancun run (m_GasLimit msg + 1) run_gas (m_From msg) (m_Data msg) g
      (Some (m_Value msg)) ltac:(unfold is_u64, g; lia) ltac:(unfold g; lia) e P) as B.
    unfold gbind. destruct (Create _ _ _ _ _ _ e) as [[[[r a] left] err] e1| | |]; try done. apply B.
Qed.

Lemma frugal_metered : frugal (Some config) getHash header msg.
Proof.
  destruct (is_frame msg) eqn:Hf; [by apply frugal_frames|].
  intros igas e x e' Hi Ec E. pose proof (execute_gas igas e Hf Hi Ec) as B. by rewrite E in B.
Qed.

Context (Hglam : isGlamsterdan (Some config) header = false).

Lemma applyMessage_ends s :
  wf_state (p_db s) -> is_u64 (p_gp s) ->
  match applyMessage_ (Some config) getHash header msg s with
  | Err _ _ _ => False
  | Fuel => is_frame msg = true
  | _ => True
  end.
Proof.
  intros W Hgp. unfold applyMessage, rbind at 1, gbind at 1.
  pose proof (preCheck_checked (Some config) header msg s Hgp Hl) as Hc.
  assert (calldataCharge (Some config) header msg = Some 0) as Ec by (unfold calldataCharge; by rewrite Hglam).
  destruct (preCheck feeFuel (Some config) header msg s) as [[e1|igas] s1| | |]; try done;
    [|simpl in Hc; congruence].
  destruct Hc as (c & _ & (_ & _ & Ed) & Hi & Eg).
  destruct (messageGas_bounds (Some config) header msg (p_db s1)) as [Hi0 _]. rewrite <- Eg in Hi0.
  unfold is_u64 in Hl. rewrite (u64_small (m_GasLimit msg - igas)) by (unfold is_u64; lia).
  unfold gbind at 1, modP, gmodify. unfold gbind at 1. set (s2 := set_db _ s1).
  assert (calm (p_db s1) (p_db s2)) as C2 by (apply calm_warm; rewrite Ed; by apply mutates_wf).
  assert (exists s3, applyAuthorizations keccak256 Ecrecover (Some config) msg s2 = Ok tt s3 /\ wf_state (p_db s3))
    as (s3 & -> & W3).
  { unfold applyAuthorizations. destruct (_ =? _); eexists; (split; [reflexivity|]);
      [apply calm_authorizations, C2|apply C2]. }
  unfold gbind at 1, withEVM. set (e := set_balTracker _ _).
  pose proof (fun Hf => execute_gas igas e Hf ltac:(lia) eq_refl) as B.
  pose proof (calms_execute (Some config) header msg (m_GasLimit msg - igas) e (p_db s3) eq_refl W3) as HC.
  destruct (execute _ _ _ _ _ _ e) as [x e4| | |]; try done;
    [|by destruct (is_frame msg); [|destruct (B eq_refl)]].
  unfold settleMessage, payCoinbase, AddGas, mutP, modP, withEVM, EmitBurnLog, mutDB, gwhen, gopt, gbind, gret,
    gmodify, readP, gpanic. repeat (case_match; simplify_eq/=; try done).
Qed.

(** What is burned of the price of the gas used. *)
Definition burnt (price used : Z) : Z :=
  match h_BaseFee header with
  | Some b => if b >? 0 then Z.min price b * used else 0
  | None => 0
  end.

(** What a message that is not rejected does to the pool and the supply. *)
Lemma message_accounting s res s' :
  sound (p_db s) -> is_u64 (p_gp s) ->
  applyMessage_ (Some config) getHash header msg s = Ok (inr res) s' ->
  sound (p_db s') /\ 0 <= UsedGas res <= BlockGasUsed res /\ BlockGasUsed res <= m_GasLimit msg /\
  4 * BlockGasUsed res <= 5 * UsedGas res /\ m_GasLimit msg <= p_gp s /\ p_gp s' = p_gp s - UsedGas res /\
  (m_TxType msg <> FrameTxType ->
   supply (p_db s') = supply (p_db s) - burnt (msgEffectiveGasPrice msg (h_BaseFee header)) (UsedGas res)).
Proof.
  intros [W Hr] Hgp E.
  destruct (applyMessage_settled _ _ _ _ _ _ _ W Hgp Hl Hr frugal_metered E) as (c & Ec & Hle & [So U B R P S]).
  rewrite Hglam in P. do 6 (split; [done|]). intros Hty.
  rewrite deltas_charges in S. destruct (Z.eqb_spec (m_TxType msg) FrameTxType); [done|].
  unfold calldataCharge in Ec. rewrite Hglam in Ec. simplify_eq/=.
  unfold burnt, coinbasePay in *. set (price := msgEffectiveGasPrice msg (h_BaseFee header)) in *.
  destruct (h_BaseFee header) as [b|]; [|lia]. destruct (b >? 0); [|lia].
  destruct (Z.gtb_spec (price - b) 0); [rewrite Z.min_r by lia|rewrite Z.min_l by lia]; lia.
Qed.

(** C24. Gas accounting of a message, for the forks from Berlin to Prague and
    precompiled contracts whose gas cost is a uint64: executing a message that
    is not a frame transaction ends, or panics, within as many interpreter
    steps as its gas limit.  When a message, of a frame transaction or not, is
    executed, the gas it is charged for is at most the gas used before the
    refund, which is at most the limit; the refund is at most a fifth of the
    gas used; and exactly the charged gas is gone from the block's gas pool
    (none, when the message is rejected). *)
Theorem message_gas_bounded s :
  wf_state (p_db s) -> is_u64 (p_gp s) -> is_u64 (GetRefund (p_db s)) ->
  match applyMessage_ (Some config) getHash header msg s with
  | Ok (inr res) s' =>
      0 <= UsedGas res <= BlockGasUsed res /\ BlockGasUsed res <= m_GasLimit msg /\
      4 * BlockGasUsed res <= 5 * UsedGas res /\ p_gp s' = p_gp s - UsedGas res
  | Ok (inl _) s' => p_gp s' = p_gp s
  | Panic _ => True
  | Err _ _ _ => False
  | Fuel => is_frame msg = true
  end.
Proof.
  intros W Hgp Hr. pose proof (applyMessage_ends s W Hgp) as N.
  destruct (applyMessage_ (Some config) getHash header msg s) as [[e|res] s'| | |] eqn:E; try done.
  - apply applyMessage_rejected in E. pose proof (preCheck_checked (Some config) header msg s Hgp Hl) as Hc.
    rewrite E in Hc. apply Hc.
  - by destruct (message_accounting s res s' (conj W Hr) Hgp E) as (_ & U & B & R & _ & P & _).
Qed.

(** C25. Ether accounting of a message that is not of a frame transaction, for
    the forks from Berlin to Prague:
    value transfers, contract executions, creations, refunds and the payment
    of the coinbase together neither create nor destroy ether, except that the
    base fee of the gas used is burned (all of the price, where it is below
    the base fee). *)
Theorem message_burns_base_fee s res s' :
  wf_state (p_db s) -> is_u64 (p_gp s) -> is_u64 (GetRefund (p_db s)) ->
  m_TxType msg <> FrameTxType ->
  applyMessage_ (Some config) getHash header msg s = Ok (inr res) s' ->
  supply (p_db s') = supply (p_db s) - burnt (msgEffectiveGasPrice msg (h_BaseFee header)) (UsedGas res).
Proof.
  intros W Hgp Hr Hty E.
  by destruct (message_accounting s res s' (conj W Hr) Hgp E) as (_ & _ & _ & _ & _ & _ & S); apply S.
Qed.

End Metered.

(** Frame transactions are not paid for: nothing is deducted before, in or
    after the frames, yet the unused gas is refunded and the coinbase receives
    its tip, so that executing one creates ether, for every fork and whatever
    the frames do. *)
Lemma frame_transaction_mints config getHash header msg s res s' :
  wf_state (p_db s) -> is_u64 (p_gp s) -> is_u64 (GetRefund (p_db s)) ->
  is_u64 (m_GasLimit msg) -> is_frame msg = true ->
  applyMessage_ config getHash header msg s = Ok (inr res) s' ->
  let price := msgEffectiveGasPrice msg (h_BaseFee header) in
  0 <= UsedGas res <= m_GasLimit msg /\
  supply (p_db s') = supply (p_db s) + price * (m_GasLimit msg - UsedGas res)
                     + coinbasePay header price (UsedGas res).
Proof.
  intros W Hgp Hr Hl Hf E price.
  destruct (applyMessage_settled _ _ _ _ _ _ _ W Hgp Hl Hr (frugal_frames _ _ _ _ Hl Hf) E)
    as (c & Ec & _ & [_ U B _ _ S]).
  rewrite deltas_charges in S. unfold is_frame in Hf. apply andb_true_iff in Hf as [Hty _]. rewrite Hty in S.
  split; [lia|]. rewrite S. fold price. lia.
Qed.

(** A signature that does not recover does not make a transaction invalid:
    it is executed exactly as if the zero address had sent it. *)
Lemma unrecoverable_sender_is_zero config getHash header tx s id :
  from tx = None -> ChainConfig.ChainID config = Some id ->
  LondonSigner_Sender keccak256 (Uint64 id) (inner tx) = None ->
  (forall t, inner tx <> AA t) -> (forall t, inner tx <> PQ t) ->
  applyTransaction_ config getHash header tx s
  = applyTransaction_ config getHash header (mkTx (inner tx) (Some 0) (sidecar tx)) s.
Proof.
  intros Hfrom Hid Hsig HA HP.
  assert (recoverSender keccak256 config tx = tx) as E.
  { unfold recoverSender. rewrite Hfrom, Hid. destruct (inner tx); rewrite ?Hsig; try done;
      [by destruct (HA t)|by destruct (HP t)]. }
  unfold applyTransactionInternal. simpl inner. rewrite E.
  unfold TransactionToMessage, recoverSender at 1. simpl. rewrite Hfrom. reflexivity.
Qed.

(** An APPROVE that the EVM refuses still approves: executed by a contract
    that is not the target of the frame it fails, but it has already left its
    mark in the frame context, which no revert removes; and the mark of a
    failed frame that targets the sender is processed like that of a
    successful one.  So any contract that the sender's code calls can approve
    in the sender's name. *)
Lemma refused_approve_counts (m : mstate DB) fc f off len scope rest :
  stk m = off :: len :: scope :: rest -> FrameCtx (evm m) = Some fc -> Uint64 scope <= 2 ->
  go_index (Frames fc) (CurrentFrameIndex fc) = Some f -> caddr (ctr m) <> Target f ->
  (exists m' fc', opApprove m = Err ErrCallerNotFrameTarget [] m' /\ FrameCtx (evm m') = Some fc' /\
     ApproveCalledThisFrame fc' = true /\ LastApproveScope fc' = Uint64 scope) /\
  (forall sender frame gas logs er ctx,
     fec_SenderApproved ctx = false -> fec_PayerApproved ctx = false ->
     exists ctx', recordFrame sender sender frame (mkFrameCall ReceiptStatusFailed gas logs true 2 (Some er)) ctx
                  = inr ctx' /\
       fec_SenderApproved ctx' = true /\ fec_PayerApproved ctx' = true /\ fec_Payer ctx' = sender).
Proof.
  intros Es Ef Hs Eg Hne. split.
  - unfold opApprove, withFrameCtx, putFrameCtx, self, gmodify, gfail, gbind, Pop. rewrite Es. simpl. rewrite Ef.
    destruct (Z.gtb_spec (Uint64 scope) 2); [lia|]. simpl. rewrite Eg. simpl.
    destruct (Z.eqb_spec (caddr (ctr m)) (Target f)); [done|]. simpl.
    eexists _, _. split; [reflexivity|]. by simpl.
  - intros sender frame gas logs er [sa pa payer rs] Hsa Hpa. simpl in *. subst. unfold recordFrame. simpl.
    rewrite Z.eqb_refl. simpl. rewrite andb_false_r. eexists. split; [reflexivity|]. done.
Qed.

End Processor.

(** ** Witnesses *)

#[local] Instance w_txops : TxStateDB MemoryStateDB := MemTxStateDB.
#[local] Instance w_txlaws : TxStateDBLaws MemoryStateDB := MemTxStateDB_laws fx_keccak.

(** A chain with every fork up to Prague, and Glamsterdam if [glam]. *)
Definition w_config (glam : bool) : ChainConfig :=
  mkChainConfig (Some 1) (Some 0) (Some 0) (Some 0) (Some 0) (Some 0) (Some 0) (Some 0) (Some 0) (Some 0)
    (Some 0) (Some 0) (Some 0) (Some 0) (Some 0) None (if glam then Some 0 else None) None None None None.

(** Block 100 with base fee 7 and coinbase 0xCB. *)
Definition w_blockHeader : Header :=
  mkHeader 0 0 0xCB 0 0 0 0 None (Some 100) 30000000 0 1000 [] 0 0 (Some 7) None None None None None None None
    None None None None None.

Definition w_state (l : list mutation) : pst := mkP (fx_db l) 30000000 None.

Definition w_apply (fuel : nat) := applyMessage fx_keccak fx_pcs fx_pcs fx_pcs fx_rv (fun _ _ => None) fuel 10.
Definition w_applyTx (fuel : nat) :=
  applyTransactionInternal fx_keccak fx_pcs fx_pcs fx_pcs fx_rv (fun _ _ => None) fuel 10.

(** A call of the contract 0xC0, which stores, with tip 1 and fee cap 10. *)
Definition w_msg : Message :=
  mkMessage 1 (Some 0xC0) 0 5 90000 (Some 10) (Some 10) (Some 1) [1; 2] [] [] [] [] 0 2 0xFF.

Definition w_rich : pst := w_state [MAddBalance 1 10000000; MSetCode 0xC0 fx_store].

Definition ok_of {S A E} (r : out S (E + A)) (d : A) : A :=
  match r with Ok (inr a) _ => a | _ => d end.

Definition w_none : ExecutionResult := mkExecutionResult 0 0 0 None [] 0.

Lemma w_pcs_u64 rules :
  map_Forall (fun _ p => forall i, is_u64 (RequiredGas p i)) (SelectPrecompiles fx_pcs fx_pcs fx_pcs rules).
Proof.
  unfold SelectPrecompiles. repeat case_match; (apply map_Forall_insert_2; [|apply map_Forall_empty]; done).
Defined.

(** The call costs 43186 gas. *)
Definition w_called := w_apply (Z.to_nat 90001) (Some (w_config false)) None w_blockHeader w_msg w_rich.

Lemma message_gas_bounded_witness :
  match w_called with
  | Ok (inr res) s' =>
      0 <= UsedGas res <= BlockGasUsed res /\ BlockGasUsed res <= m_GasLimit w_msg /\
      4 * BlockGasUsed res <= 5 * UsedGas res /\ p_gp s' = p_gp w_rich - UsedGas res
  | Ok (inl _) s' => p_gp s' = p_gp w_rich
  | Panic _ => True
  | Err _ _ _ => False
  | Fuel => is_frame w_msg = true
  end /\ UsedGas (ok_of w_called w_none) = 43186.
Proof.
  split; [|vm_compute; reflexivity]. unfold w_called, w_apply.
  apply (message_gas_bounded fx_keccak fx_pcs fx_pcs fx_pcs fx_rv (fun _ _ => None) (Z.to_nat 90001) 10
    (w_config false) None w_blockHeader w_msg).
  - reflexivity.
  - apply w_pcs_u64.
  - vm_compute. split; [discriminate|reflexivity].
  - rewrite Z2Nat.id by lia. reflexivity.
  - reflexivity.
  - apply fx_db_wf.
  - vm_compute. split; [discriminate|reflexivity].
  - vm_compute. split; [discriminate|reflexivity].
Defined.

Lemma message_burns_base_fee_witness :
  supply (p_db (end_state w_called w_rich)) = 10000000 - 7 * 43186.
Proof.
  rewrite (message_burns_base_fee fx_keccak fx_pcs fx_pcs fx_pcs fx_rv (fun _ _ => None) (Z.to_nat 90001) 10
    (w_config false) None w_blockHeader w_msg) with (s := w_rich) (res := ok_of w_called w_none).
  - vm_compute. reflexivity.
  - reflexivity.
  - apply w_pcs_u64.
  - vm_compute. split; [discriminate|reflexivity].
  - rewrite Z2Nat.id by lia. reflexivity.
  - reflexivity.
  - apply fx_db_wf.
  - vm_compute. split; [discriminate|reflexivity].
  - vm_compute. split; [discriminate|reflexivity].
  - discriminate.
  - vm_compute. reflexivity.
Defined.

(** A call whose gas limit does not cover the intrinsic gas. *)
Definition w_lowGas : Transaction :=
  mkTx (DynamicFee (mkDynamicFeeTx (Some 1) 0 (Some 1) (Some 10) 20000 (Some 0xC0) (Some 5) [] [] None None None))
    (Some 1) None.

Definition w_rejected := w_applyTx 5 (w_config false) None w_blockHeader w_lowGas w_rich.

Lemma rejected_transaction_reverts_witness :
  match w_rejected with Ok (inl ErrIntrinsicGasTooLow) _ => True | _ => False end /\
  (p_gp (end_state w_rejected w_rich) = p_gp w_rich /\
   p_tracker (end_state w_rejected w_rich) = p_tracker w_rich /\
   same_world (p_db w_rich) (p_db (end_state w_rejected w_rich)) /\
   (p_db (end_state w_rejected w_rich) = p_db w_rich \/
    restored (ClearAccessList (p_db w_rich)) (p_db (end_state w_rejected w_rich)))).
Proof.
  split; [vm_compute; exact I|].
  apply (rejected_transaction_reverts fx_keccak fx_pcs fx_pcs fx_pcs fx_rv (fun _ _ => None) 5 10
    (w_config false) None w_blockHeader w_lowGas w_rich ErrIntrinsicGasTooLow (end_state w_rejected w_rich)).
  - apply fx_db_wf.
  - vm_compute. split; [discriminate|reflexivity].
  - vm_compute. split; [discriminate|reflexivity].
  - vm_compute. reflexivity.
Defined.

(** The account 0xB1 approves whatever it is asked to, and has no ether. *)
Definition w_approver : bytes := [0x60; 2; 0x60; 0; 0x60; 0; 0xaa].
Definition w_poor : pst := w_state [MSetCode 0xB1 w_approver].

Definition w_frameMsg : Message :=
  mkMessage 0xB1 None 0 0 200000 (Some 10) (Some 10) (Some 1) [] [] [] []
    [mkTxFrame ModeVerify None 50000 []] 0xB1 FrameTxType 0xFF.

Definition w_framed := w_apply 100 (Some (w_config true)) None w_blockHeader w_frameMsg w_poor.

(** Of 200000 gas 86500 are used; 908000 wei appear at the sender and 86500 at
    the coinbase. *)
Lemma frame_transaction_mints_witness :
  (0 <= UsedGas (ok_of w_framed w_none) <= m_GasLimit w_frameMsg /\
   supply (p_db (end_state w_framed w_poor))
   = supply (p_db w_poor) + 8 * (m_GasLimit w_frameMsg - UsedGas (ok_of w_framed w_none))
     + coinbasePay w_blockHeader 8 (UsedGas (ok_of w_framed w_none))) /\
  supply (p_db w_poor) = 0 /\ supply (p_db (end_state w_framed w_poor)) = 994500 /\
  GetBalance (p_db (end_state w_framed w_poor)) 0xB1 = 908000.
Proof.
  split; [|vm_compute; done].
  apply (frame_transaction_mints fx_keccak fx_pcs fx_pcs fx_pcs fx_rv (fun _ _ => None) 100 10
    (Some (w_config true)) None w_blockHeader w_frameMsg w_poor).
  - apply fx_db_wf.
  - vm_compute. split; [discriminate|reflexivity].
  - vm_compute. split; [discriminate|reflexivity].
  - vm_compute. split; [discriminate|reflexivity].
  - reflexivity.
  - vm_compute. reflexivity.
Defined.

(** A transaction without a signature takes the ether of the zero address. *)
Definition w_unsigned : Transaction :=
  NewTransaction (DynamicFee (mkDynamicFeeTx (Some 1) 0 (Some 1) (Some 10) 21000 (Some 0xE1) (Some 1000) [] []
    (Some 0) (Some 0) (Some 0))).

Definition w_zero : pst := w_state [MAddBalance 0 1000000].

Definition w_stolen := w_applyTx 5 (w_config false) None w_blockHeader w_unsigned w_zero.

Lemma unrecoverable_sender_is_zero_witness :
  w_stolen = w_applyTx 5 (w_config false) None w_blockHeader (mkTx (inner w_unsigned) (Some 0) None) w_zero /\
  match w_stolen with Ok (inr (rc, used)) s' =>
    rc_Status rc = ReceiptStatusSuccessful /\ GetBalance (p_db s') 0xE1 = 1000 | _ => False end.
Proof.
  split; [|vm_compute; done]. unfold w_stolen, w_applyTx.
  apply (unrecoverable_sender_is_zero fx_keccak fx_pcs fx_pcs fx_pcs fx_rv (fun _ _ => None) 5 10
    (w_config false) None w_blockHeader w_unsigned w_zero 1).
  - reflexivity.
  - reflexivity.
  - vm_compute. reflexivity.
  - discriminate.
  - discriminate.
Defined.

(** The wallet 0xB1 only forwards calls to 0xA7, whose code approves; then
    0xC1, which stores its caller, is called by the wallet. *)
Definition w_forward : bytes :=
  [0x60; 0; 0x60; 0; 0x60; 0; 0x60; 0; 0x60; 0; 0x60; 0xA7; 0x61; 0x3f; 0xff; 0xf1; 0x00].
Definition w_storeCaller : bytes := [0x33; 0x60; 0; 0x55].
Definition w_wallet : pst :=
  w_state [MSetCode 0xB1 w_forward; MSetCode 0xA7 w_approver; MSetCode 0xC1 w_storeCaller].

Definition w_hijackMsg : Message :=
  mkMessage 0xB1 None 0 0 400000 (Some 10) (Some 10) (Some 1) [] [] [] []
    [mkTxFrame ModeDefault None 100000 []; mkTxFrame ModeSender (Some 0xC1) 100000 []] 0xB1 FrameTxType 0xFF.

Definition w_hijacked := w_apply 100 (Some (w_config true)) None w_blockHeader w_hijackMsg w_wallet.

(** The frame context of the first frame, inside 0xA7. *)
Definition w_inner : mstate MemoryStateDB :=
  set_stk [0; 0; 2]
    (initFrame (NewContract 0xB1 0xA7 (Some 0) 1000) []
       (set_FrameCtx (Some (messageFrameCtx fx_keccak w_hijackMsg)) fx_e)).

Lemma refused_approve_counts_witness :
  ((exists m' fc', opApprove w_inner = Err ErrCallerNotFrameTarget [] m' /\ FrameCtx (evm m') = Some fc' /\
     ApproveCalledThisFrame fc' = true /\ LastApproveScope fc' = Uint64 2) /\
   (forall sender frame gas logs er ctx,
     fec_SenderApproved ctx = false -> fec_PayerApproved ctx = false ->
     exists ctx', recordFrame sender sender frame (mkFrameCall ReceiptStatusFailed gas logs true 2 (Some er)) ctx
                  = inr ctx' /\
       fec_SenderApproved ctx' = true /\ fec_PayerApproved ctx' = true /\ fec_Payer ctx' = sender)) /\
  (ExecErr (ok_of w_hijacked w_none) = None /\
   GetState (p_db (end_state w_hijacked w_wallet)) 0xC1 0 = 0xB1 /\
   GetNonce (p_db (end_state w_hijacked w_wallet)) 0xB1 = 1).
Proof.
  split; [|vm_compute; done].
  apply (refused_approve_counts w_inner (messageFrameCtx fx_keccak w_hijackMsg)
    (mkFrame ModeDefault 0xB1 100000 [] 0) 0 0 2 []).
  - reflexivity.
  - reflexivity.
  - vm_compute. discriminate.
  - vm_compute. reflexivity.
  - vm_compute. discriminate.
Defined.
