(* ===== verification/BlockProcessor.v ===== *)
(** * BlockProcessor: executing a block

    [StateProcessor] of core/execution/processor.go: the system contracts
    before the transactions (core/eips/beacon_root.go, eip2935.go,
    eip7997.go), the loop over the transactions with its accounting and the
    block access list, withdrawals, and the requests of EIP-7685.  Logging,
    metrics and the fields of receipts and logs that only repeat the position
    in the block are left out. *)

From stdpp Require Import gmap.
From S2P Require Import Prelude Rlp StateDB Machine Calls Interpreter.
From S2P Require Import Transactions Blocks Receipts ChainConfig Fees TxState Bal Processor.

(** ** Constants *)

Definition BeaconHistoryBufferLength : Z := 8191.
Definition BeaconRootAddress : Address := 0x000F3df6D732807Ef1319fB7B8bB8522d0Beac02.
Definition HistoryServeWindow : Z := 8192.
Definition HistoryStorageAddress : Address := 0x0F792be4B0c0cb4DAE440Ef133E90C0eCD48CCCC.
Definition FactoryAddress : Address := 0x12.

Definition FactoryCode : bytes :=
  be_bytes 53 0x60203610602f5760003560203603806020600037600034f5806026573d600060003e3d6000fd5b60005260206000f35b60006000fd.

Definition DepositContractAddress : Address := 0x00000000219ab540356cBB839Cbe05303d7705Fa.
Definition WithdrawalRequestAddress : Address := 0x0c15F14308530b7CDB8460094BbB9cC28b9AaAAb.
Definition ConsolidationRequestAddress : Address := 0x00431F263cE400f4da8Fc0D8Edf967BBB28Bc16a.
Definition DepositRequestType : Z := 0x00.
Definition WithdrawalRequestType : Z := 0x01.
Definition ConsolidationRequestType : Z := 0x02.

(** ** Requests of EIP-7685 *)

Record Request := mkRequest {
  rq_Type : Z;
  rq_Data : bytes;
}.

Definition requestCountSlot : Hash := 0.
Definition requestDataSlotBase : Hash := 1.

(** The low eight bytes. *)
Definition countToUint64 (val : Hash) : Z :=
  fold_left (fun count b => Z.lor (u64 (Z.shiftl count 8)) b) (drop 24 (be_bytes 32 val)) 0.

(** The bytes from the last one on; [carry] stays below 2^64. *)
Fixpoint incrementSlot_loop (le : bytes) (carry : Z) : bytes :=
  match le with
  | [] => []
  | b :: rest =>
      if carry >? 0 then
        let sum := b +u Z.land carry 0xFF in
        Z.land sum 0xFF :: incrementSlot_loop rest (Z.shiftr carry 8 +u Z.shiftr sum 8)
      else le
  end.

Definition incrementSlot (base : Hash) (offset : Z) : Hash :=
  SetBytes (rev (incrementSlot_loop (rev (be_bytes 32 base)) offset)).

Fixpoint dropZeros (b : bytes) : bytes :=
  match b with 0 :: r => dropZeros r | _ => b end.

Definition trimTrailingZeros (b : bytes) : bytes := rev (dropZeros (rev b)).

(** ** Errors and results of a block *)

Inductive block_error :=
  | BlockTxError (i : nat) (e : txerr)
  | BlockAAState (i : nat)
  | BlockCalldataGas
  | BlockBALFeasibility.

Record ProcessResult := mkProcessResult {
  Receipts : list Receipt;
  BlockAccessList : option Bal.BlockAccessList;
}.

Section BlockProcessor.

Context {DB : Type} `{StateDB DB, !TxStateDB DB}.
Context (keccak256 : bytes -> bytes).
Context (PrecompiledContractsCancun PrecompiledContractsGlamsterdan PrecompiledContractsIPlus
         : gmap Z PrecompiledContract).
Context (rvrun : bytes -> bytes -> Z -> bytes * option vmerr).
Context (Ecrecover : bytes -> bytes -> option bytes).
Context (fuel feeFuel : nat).

(** The fields of [StateProcessor]; the slasher and the paymaster validator
    are callbacks that are not modelled. *)
Context (config : ChainConfig) (getHash : option (Z -> Hash)).

Abbreviation P := (M (pst (DB := DB))).

(** *** System contracts *)

Definition ProcessBeaconBlockRoot (header : Header) (db : DB) : DB :=
  match h_ParentBeaconRoot header with
  | None => db
  | Some root =>
      let timestampIdx := h_Time header mod BeaconHistoryBufferLength in
      let rootIdx := timestampIdx +u BeaconHistoryBufferLength in
      let db := mutate (MSetState BeaconRootAddress timestampIdx (h_Time header)) db in
      mutate (MSetState BeaconRootAddress rootIdx root) db
  end.

Definition ProcessParentBlockHash (parentNumber : Z) (parentHash : Hash) (db : DB) : DB :=
  let db := if negb (Exist db HistoryStorageAddress)
            then mutate (MCreateAccount HistoryStorageAddress) db else db in
  mutate (MSetState HistoryStorageAddress (parentNumber mod HistoryServeWindow) parentHash) db.

Definition GetHistoricalBlockHash (db : DB) (blockNumber : Z) : Hash :=
  if negb (Exist db HistoryStorageAddress) then 0
  else GetState db HistoryStorageAddress (blockNumber mod HistoryServeWindow).

Definition ApplyEIP7997 (db : DB) : DB :=
  if GetCodeSize db FactoryAddress >? 0 then db
  else
    let db := if negb (Exist db FactoryAddress) then mutate (MCreateAccount FactoryAddress) db else db in
    mutate (MSetCode FactoryAddress FactoryCode) db.

Definition balActive (header : Header) : bool := cfg_IsAmsterdam config (h_Time header).

(** The tracker records the slots with the values they had before. *)
Definition beaconRootStep (header : Header) (t : AccessTracker) : P AccessTracker :=
  if negb (cfg_IsCancun config (h_Time header)) then gret t
  else
    match h_ParentBeaconRoot header with
    | Some root =>
        if balActive header then
          let tsSlot := h_Time header mod BeaconHistoryBufferLength in
          let rootSlot := tsSlot +u BeaconHistoryBufferLength in
          let! oldTsVal := readP (fun db => GetState db BeaconRootAddress tsSlot) in
          let! oldRootVal := readP (fun db => GetState db BeaconRootAddress rootSlot) in
          do! modP (ProcessBeaconBlockRoot header) in
          gret (tracker_RecordStorageChange BeaconRootAddress rootSlot oldRootVal root
                  (tracker_RecordStorageChange BeaconRootAddress tsSlot oldTsVal (h_Time header) t))
        else do! modP (ProcessBeaconBlockRoot header) in gret t
    | None => gret t
    end.

Definition parentHashStep (header : Header) (t : AccessTracker) : P AccessTracker :=
  if negb (cfg_IsPrague config (h_Time header)) then gret t
  else
    let! number := gopt PSlice (h_Number header) in
    if negb (Uint64 number >? 0) then gret t
    else
      let parentNum := Uint64 number -u 1 in
      let slot := parentNum mod HistoryServeWindow in
      let! oldVal := readP (fun db => GetState db HistoryStorageAddress slot) in
      do! modP (ProcessParentBlockHash parentNum (h_ParentHash header)) in
      gret (if balActive header
            then tracker_RecordStorageChange HistoryStorageAddress slot oldVal (h_ParentHash header) t
            else t).

Definition factoryStep (header : Header) (t : AccessTracker) : P AccessTracker :=
  if negb (cfg_IsGlamsterdan config (h_Time header)) then gret t
  else
    let! size := readP (fun db => GetCodeSize db FactoryAddress) in
    do! modP ApplyEIP7997 in
    gret (if balActive header && (size =? 0) then tracker_RecordAddressTouch FactoryAddress t else t).

(** The access list with the entries of index 0, if there is one. *)
Definition preExecution (header : Header) : P (option Bal.BlockAccessList) :=
  let! t := beaconRootStep header NewTracker in
  let! t := parentHashStep header t in
  let! t := factoryStep header t in
  gret (if balActive header then Some (Build t 0) else None).

(** *** Accesses of a transaction *)

(** Balances and nonces of the sender, where it is cached, and the recipient. *)
Definition capturePreState (tx : Transaction) (db : DB) : gmap Z Z * gmap Z Z :=
  let add (a : Address) (m : gmap Z Z * gmap Z Z) :=
    (<[a := GetBalance db a]> m.1, <[a := GetNonce db a]> m.2) in
  let m := match from tx with Some a => add a (∅, ∅) | None => (∅, ∅) end in
  match tx_To (inner tx) with Some a => add a m | None => m end.

Definition populateTracker (pre : gmap Z Z * gmap Z Z) (db : DB) (t : AccessTracker) : AccessTracker :=
  let t := fold_left (fun t kv =>
             let postBal := GetBalance db kv.1 in
             if negb (kv.2 =? postBal) then tracker_RecordBalanceChange kv.1 kv.2 postBal t else t)
             (map_to_list pre.1) t in
  fold_left (fun t kv =>
    let postNonce := GetNonce db kv.1 in
    if negb (kv.2 =? postNonce) then RecordNonceChange kv.1 kv.2 postNonce t else t)
    (map_to_list pre.2) t.

(** *** The checks of account abstraction *)

Definition userOpEffectiveGasPrice (maxFee tipCap baseFee : Z) : Z :=
  let effective := baseFee + tipCap in if effective >? maxFee then maxFee else effective.

(** [MaxUserOpGasCost] of the operation built by [buildAAUserOp]; a nil fee
    panics. *)
Definition MaxUserOpGasCost (t : AATx) (baseFee : option Z) : option Z :=
  tip ← aa_MaxPriorityFeePerGas t;
  maxFee ← aa_MaxFeePerGas t;
  let totalGas := 0 +u aa_SenderValidationGas t +u aa_SenderExecutionGas t in
  let totalGas := match aa_Paymaster t with
                  | Some _ => totalGas +u (aa_PaymasterValidationGas t +u aa_PaymasterPostOpGas t)
                  | None => totalGas
                  end in
  Some (totalGas * userOpEffectiveGasPrice maxFee tip (default 0 baseFee)).

(** [ValidateUserOpState]: the nonce, and the balance of whoever pays. *)
Definition ValidateUserOpState (t : AATx) (baseFee : option Z) (db : DB) : option bool :=
  if negb (aa_Nonce t =? GetNonce db (aa_Sender t)) then Some false
  else
    maxGasCost ← MaxUserOpGasCost t baseFee;
    Some (negb (GetBalance db (default (aa_Sender t) (aa_Paymaster t)) <? maxGasCost)).

(** *** The loop over the transactions *)

Record blockAcc := mkAcc {
  ba_receipts : list Receipt;
  ba_gas : Z;
  ba_calldata : Z;
  ba_bal : option Bal.BlockAccessList;
}.

Definition set_cumulative (g : Z) (r : Receipt) : Receipt :=
  mkReceipt (rc_Type r) (rc_Status r) g (rc_Bloom r) (rc_Logs r) (rc_TxHash r) (rc_ContractAddress r)
    (rc_GasUsed r) (rc_EffectiveGasPrice r) (rc_BlobGasUsed r) (rc_BlobGasPrice r) (rc_CalldataGasUsed r)
    (rc_CalldataGasPrice r) (rc_DimStorageGas r) (rc_BlockGasUsed r).

Definition calldataActive (header : Header) : bool :=
  cfg_IsGlamsterdan config (h_Time header) && bool_decide (is_Some (h_CalldataExcessGas header)).

Definition aaCheck (header : Header) (tx : Transaction) (i : nat) : P (option block_error) :=
  if balActive header then
    match inner tx with
    | AA t =>
        let! r := readP (ValidateUserOpState t (h_BaseFee header)) in
        let! valid := gopt PSlice r in
        gret (if (valid : bool) then None else Some (BlockAAState i))
    | _ => gret None
    end
  else gret None.

(** Merge the accesses of the transaction, and every eighth transaction check
    the size of the list against the gas used. *)
Definition mergeAccesses (i : nat) (pre : gmap Z Z * gmap Z Z) (cumulative : Z) (bal : Bal.BlockAccessList)
    (s : pst (DB := DB)) : option Bal.BlockAccessList :=
  let tracker := applyEvents (default [] (p_tracker s)) NewTracker in
  let tracker := populateTracker pre (p_db s) tracker in
  let bal := bal ++ Build tracker (Z.of_nat (i + 1)) in
  if ((Z.of_nat i + 1) mod 8 =? 0) && (cumulative >? 0) && (u64 (zlen bal) *u BALItemCost >? cumulative)
  then None else Some bal.

Definition processTx (header : Header) (i : nat) (tx : Transaction) (acc : blockAcc)
  : P (block_error + blockAcc) :=
  do! modP (SetTxContext (tx_Hash keccak256 (inner tx)) (Z.of_nat i)) in
  do! gmodify (fun s => mkP (p_db s) (p_gp s) (if balActive header then Some [] else None)) in
  let! pre := readP (capturePreState tx) in
  let! aa := aaCheck header tx i in
  match aa with
  | Some e => gret (inl e)
  | None =>
      let! r := applyTransactionInternal keccak256 PrecompiledContractsCancun PrecompiledContractsGlamsterdan
                  PrecompiledContractsIPlus rvrun Ecrecover fuel feeFuel config getHash header tx in
      match r with
      | inl e => gret (inl (BlockTxError i e))
      | inr (receipt, usedGas) =>
          do! ApplyAAPostExecution tx receipt in
          let cumulative := ba_gas acc +u usedGas in
          let receipt := set_cumulative cumulative receipt in
          let txCalldata := CalldataTokenGas (tx_Data (inner tx)) in
          if calldataActive header
             && (ba_calldata acc +u txCalldata >? CalcCalldataGasLimit (h_GasLimit header))
          then gret (inl BlockCalldataGas)
          else
            let calldata := if calldataActive header then ba_calldata acc +u txCalldata
                            else ba_calldata acc in
            let receipts := ba_receipts acc ++ [receipt] in
            match ba_bal acc with
            | None => gret (inr (mkAcc receipts cumulative calldata None))
            | Some bal =>
                let! s := gget in
                match mergeAccesses i pre cumulative bal s with
                | None => gret (inl BlockBALFeasibility)
                | Some bal => gret (inr (mkAcc receipts cumulative calldata (Some bal)))
                end
            end
      end
  end.

Fixpoint txs_loop (header : Header) (i : nat) (txs : list Transaction) (acc : blockAcc)
  : P (block_error + blockAcc) :=
  match txs with
  | [] => gret (inr acc)
  | tx :: rest =>
      let! r := processTx header i tx acc in
      match r with
      | inl e => gret (inl e)
      | inr acc => txs_loop header (S i) rest acc
      end
  end.

(** *** Withdrawals *)

Definition ProcessWithdrawals (ws : list Withdrawal) (db : DB) : DB :=
  fold_left (fun db w => mutate (MAddBalance (w_Address w) (w_Amount w * 1000000000)) db) ws db.

Definition withdrawalsStep (header : Header) (n : nat) (ws : list Withdrawal)
    (bal : option Bal.BlockAccessList) : P (option Bal.BlockAccessList) :=
  if negb (cfg_IsShanghai config (h_Time header)) then gret bal
  else
    let! pre := readP (fun db => fold_left (fun m w =>
                  match m !! w_Address w with
                  | Some _ => m
                  | None => <[w_Address w := GetBalance db (w_Address w)]> m
                  end) ws (∅ : gmap Z Z)) in
    do! modP (ProcessWithdrawals ws) in
    match bal with
    | None => gret None
    | Some bal =>
        let! db := readP (fun db => db) in
        let t := populateTracker (pre, ∅) db NewTracker in
        gret (Some (bal ++ Build t (Z.of_nat (n + 1))))
    end.

(** *** [ProcessWithBAL] *)

Definition ProcessWithBAL (block : Block) : P (block_error + ProcessResult) :=
  let header := blk_header block in
  let txs := b_Transactions (blk_body block) in
  do! gmodify (fun s => mkP (p_db s) (0 +u h_GasLimit header) (p_tracker s)) in
  let! bal := preExecution header in
  let! r := txs_loop header 0 txs (mkAcc [] 0 0 bal) in
  match r with
  | inl e => gret (inl e)
  | inr acc =>
      let! bal := withdrawalsStep header (length txs) (default [] (b_Withdrawals (blk_body block)))
                    (ba_bal acc) in
      gret (inr (mkProcessResult (ba_receipts acc) (Sort <$> bal)))
  end.

(** *** [ProcessRequests] *)

Definition readRequests (addr : Address) (reqType : Z) (count : Z) (db : DB) : list Request :=
  omap (fun i => let data := GetState db addr (incrementSlot requestDataSlotBase (Z.of_nat i)) in
                 if data =? 0 then None
                 else match trimTrailingZeros (be_bytes 32 data) with
                      | [] => None
                      | trimmed => Some (mkRequest reqType trimmed)
                      end)
    (seq 0 (Z.to_nat count)).

(** The requests of one contract; its count is reset. *)
Definition readRequestsFromStorage (addr : Address) (reqType : Z) (db : DB) : list Request * DB :=
  let count := countToUint64 (GetState db addr requestCountSlot) in
  if count =? 0 then ([], db)
  else (readRequests addr reqType count db, mutate (MSetState addr requestCountSlot 0) db).

Definition processContractRequests (addr : Address) (reqType : Z) (db : DB) : list Request * DB :=
  if negb (Exist db addr) then ([], db) else readRequestsFromStorage addr reqType db.

Definition ProcessRequests (header : Header) (db : DB) : list Request * DB :=
  if negb (cfg_IsPrague config (h_Time header)) then ([], db)
  else
    let '(deposits, db) := processContractRequests DepositContractAddress DepositRequestType db in
    let '(withdrawals, db) := processContractRequests WithdrawalRequestAddress WithdrawalRequestType db in
    let '(consolidations, db) := processContractRequests ConsolidationRequestAddress ConsolidationRequestType db in
    (deposits ++ withdrawals ++ consolidations, db).

End BlockProcessor.
