(* ===== verification/BlockProcessorProofs.v ===== *)
(** * BlockProcessorProofs: the accounting of a block

    The gas and the ether of a block are those of its transactions and
    withdrawals, and the block access list it produces is in the order that
    verifiers demand. *)

From stdpp Require Import gmap.
From S2P Require Import Prelude Rlp StateDB MemStateDB MemStateDBProofs Machine Calls GasSafe Termination Interpreter Fixture.
From S2P Require Import Transactions Blocks Receipts ChainConfig Fees TxState Bal Processor ProcessorProofs BlockProcessor.

Section BlockProcessor.

Context {DB : Type} {ops : StateDB DB} {laws : StateDBLaws DB}.
Context {txops : TxStateDB DB} {txlaws : TxStateDBLaws DB}.
Context (keccak256 : bytes -> bytes).
Context (pcsCancun pcsGlamsterdan pcsIPlus : gmap Z PrecompiledContract).
Context (rvrun : bytes -> bytes -> Z -> bytes * option vmerr).
Context (Ecrecover : bytes -> bytes -> option bytes).
Context (fuel feeFuel : nat).
Context (config : ChainConfig) (getHash : option (Z -> Hash)).

Implicit Types s : pst (DB := DB).

Abbreviation P := (M (pst (DB := DB))).

Abbreviation processTx_ :=
  (processTx keccak256 pcsCancun pcsGlamsterdan pcsIPlus rvrun Ecrecover fuel feeFuel config getHash).
Abbreviation txs_loop_ :=
  (txs_loop keccak256 pcsCancun pcsGlamsterdan pcsIPlus rvrun Ecrecover fuel feeFuel config getHash).
Abbreviation ProcessWithBAL_ :=
  (ProcessWithBAL keccak256 pcsCancun pcsGlamsterdan pcsIPlus rvrun Ecrecover fuel feeFuel config getHash).

(** ** One transaction *)

Lemma aaCheck_pure header tx i s r s' : aaCheck config header tx i s = Ok r s' -> s' = s.
Proof.
  unfold aaCheck. destruct (balActive config header); [|by intros [= _ <-]].
  destruct (inner tx); try by intros [= _ <-]. unfold gbind, readP, gopt.
  destruct (ValidateUserOpState t (h_BaseFee header) (p_db s)); [|done]. by intros [= _ <-].
Qed.

(** What an accepted transaction went through. *)
Lemma processTx_inv header i tx acc s acc' s' :
  processTx_ header i tx acc s = Ok (inr acc') s' ->
  exists s1 s2 r used pre,
    p_gp s1 = p_gp s /\ p_db s1 = SetTxContext (tx_Hash keccak256 (inner tx)) (Z.of_nat i) (p_db s) /\
    applyTransactionInternal keccak256 pcsCancun pcsGlamsterdan pcsIPlus rvrun Ecrecover fuel feeFuel
      config getHash header tx s1 = Ok (inr (r, used)) s2 /\
    ApplyAAPostExecution tx r s2 = Ok tt s' /\
    ba_receipts acc' = ba_receipts acc ++ [set_cumulative (ba_gas acc +u used) r] /\
    ba_gas acc' = ba_gas acc +u used /\
    match ba_bal acc with
    | None => ba_bal acc' = None
    | Some bal => exists bal', ba_bal acc' = Some bal' /\
        mergeAccesses i pre (ba_gas acc +u used) bal s' = Some bal'
    end.
Proof.
  unfold processTx. unfold gbind at 1, modP, gmodify. unfold gbind at 1. unfold gbind at 1, readP.
  set (s1 := mkP _ _ _). set (pre := capturePreState tx (p_db s1)). unfold gbind at 1.
  destruct (aaCheck config header tx i s1) as [aa s1'| | |] eqn:Ea; try done.
  apply aaCheck_pure in Ea. subst s1'. destruct aa; [done|]. unfold gbind at 1.
  destruct (applyTransactionInternal _ _ _ _ _ _ _ _ _ _ _ _ s1) as [[e|[r used]] s2| | |] eqn:Et; try done.
  unfold gbind at 1. destruct (ApplyAAPostExecution tx r s2) as [[] s3| | |] eqn:Ep; try done.
  cbv zeta. destruct (_ && _); [done|]. intros E. exists s1, s2, r, used, pre.
  split; [done|]. split; [done|]. split; [done|].
  destruct (ba_bal acc) as [bal|]; [|injection E as <- <-; by repeat split].
  revert E. unfold gbind, gget. destruct (mergeAccesses i pre _ bal s3) as [bal'|] eqn:Em; [|done].
  intros [= <- <-]. split; [done|]. split; [done|]. split; [done|]. exists bal'. by split.
Qed.

(** ** The block access list *)

(** The entries so far, of access indices up to [i]. *)
Definition bal_ok (i : Z) (bal : Bal.BlockAccessList) : Prop :=
  NoDup (map key bal) /\ Forall (fun e => ae_AccessIndex e <= i) bal.

Lemma bal_ok_build t i : bal_ok i (Build t i).
Proof.
  split; [apply Build_NoDup|]. unfold Build. apply Forall_fmap, Forall_forall. intros a _. simpl. lia.
Qed.

Lemma bal_ok_app i j bal t : i < j -> bal_ok i bal -> bal_ok j (bal ++ Build t j).
Proof.
  intros Hij [HN HF]. destruct (bal_ok_build t j) as [HN' HF']. split.
  - rewrite map_app. apply NoDup_app. split; [done|]. split; [|done].
    intros k H1 H2. rewrite Build_keys in H2.
    apply list_elem_of_fmap in H1 as (e & -> & He). apply list_elem_of_fmap in H2 as (a & Ea & _).
    rewrite Forall_forall in HF. specialize (HF e He). unfold key in Ea. simplify_eq. lia.
  - apply Forall_app. split; [|done]. eapply Forall_impl; [exact HF|]. simpl. intros. lia.
Qed.

Definition obal_ok (i : Z) (bal : option Bal.BlockAccessList) : Prop :=
  match bal with Some bal => bal_ok i bal | None => True end.

Lemma processTx_bal header i tx acc s acc' s' :
  obal_ok (Z.of_nat i) (ba_bal acc) -> processTx_ header i tx acc s = Ok (inr acc') s' ->
  obal_ok (Z.of_nat (S i)) (ba_bal acc').
Proof.
  intros Hb E. apply processTx_inv in E as (s1 & s2 & r & used & pre & _ & _ & _ & _ & _ & _ & E).
  destruct (ba_bal acc) as [bal|]; [|by rewrite E]. destruct E as (bal' & -> & Em).
  unfold mergeAccesses in Em. destruct (_ && _); [done|]. injection Em as <-.
  replace (i + 1)%nat with (S i) by lia. apply (bal_ok_app (Z.of_nat i)); [lia|done].
Qed.

Lemma txs_loop_bal header i txs acc s acc' s' :
  obal_ok (Z.of_nat i) (ba_bal acc) -> txs_loop_ header i txs acc s = Ok (inr acc') s' ->
  obal_ok (Z.of_nat (i + length txs)) (ba_bal acc').
Proof.
  revert i acc s. induction txs as [|tx txs IH]; intros i acc s Hb; simpl.
  - intros [= <- <-]. by rewrite Nat.add_0_r.
  - unfold gbind. destruct (processTx_ header i tx acc s) as [[e|acc1] s1| | |] eqn:Ep; try done.
    intros E. apply (IH (S i) acc1 s1) in E; [|by eapply processTx_bal].
    by replace (i + S (length txs))%nat with (S i + length txs)%nat by lia.
Qed.

Lemma preExecution_bal header s bal s' : preExecution config header s = Ok bal s' -> obal_ok 0 bal.
Proof.
  unfold preExecution, gbind, gret.
  destruct (beaconRootStep _ _ _ _) as [t1 s1| | |]; try done.
  destruct (parentHashStep _ _ _ _) as [t2 s2| | |]; try done.
  destruct (factoryStep _ _ _ _) as [t3 s3| | |]; try done.
  intros [= <- <-]. destruct (balActive config header); [apply bal_ok_build|done].
Qed.

Lemma withdrawalsStep_bal header n ws bal s bal' s' :
  obal_ok (Z.of_nat n) bal -> withdrawalsStep config header n ws bal s = Ok bal' s' ->
  obal_ok (Z.of_nat (S n)) bal'.
Proof.
  intros Hb. unfold withdrawalsStep. destruct (negb _).
  - intros [= <- <-]. destruct bal; [|done]. destruct Hb as [HN HF]. split; [done|].
    eapply Forall_impl; [exact HF|]. simpl. intros. lia.
  - unfold gbind, readP, modP, gmodify. destruct bal as [bal|]; intros [= <- <-]; [|done].
    replace (n + 1)%nat with (S n) by lia. apply (bal_ok_app (Z.of_nat n)); [lia|done].
Qed.

(** C6. The block access list of a processed block passes the check of its
    order: the entries of the system calls, of each transaction and of the
    withdrawals are strictly ascending by address and access index, so that
    no address has two entries for one index. *)
Theorem block_access_list_ordered block s res s' bal :
  ProcessWithBAL_ block s = Ok (inr res) s' -> BlockProcessor.BlockAccessList res = Some bal ->
  ValidateBALOrdering bal = true.
Proof.
  unfold ProcessWithBAL, gbind at 1, gmodify, gbind at 1.
  destruct (preExecution _ _ _) as [bal0 s1| | |] eqn:E0; try done. apply preExecution_bal in E0.
  unfold gbind at 1.
  destruct (txs_loop_ _ _ _ _ s1) as [[e|acc] s2| | |] eqn:E1; try done.
  apply txs_loop_bal in E1; [|done]. unfold gbind.
  destruct (withdrawalsStep _ _ _ _ _ s2) as [bal2 s3| | |] eqn:E2; try done.
  apply withdrawalsStep_bal in E2; [|done]. intros [= <- <-]. simpl.
  destruct bal2 as [bal2|]; [|done]. intros [= <-]. apply Sort_valid, E2.
Qed.

(** ** Gas and ether *)

Definition gasSum (rs : list Receipt) : Z := foldr (fun r z => rc_GasUsed r + z) 0 rs.

(** The base fee burned for the gas of the receipts. *)
Definition burntSum header (rs : list Receipt) : Z :=
  foldr (fun r z => burnt header (default 0 (rc_EffectiveGasPrice r)) (rc_GasUsed r) + z) 0 rs.

Definition withdrawn (ws : list Withdrawal) : Z := foldr (fun w z => w_Amount w * 1000000000 + z) 0 ws.

Lemma gasSum_app rs rs' : gasSum (rs ++ rs') = gasSum rs + gasSum rs'.
Proof. induction rs; simpl; lia. Qed.

Lemma burntSum_app header rs rs' : burntSum header (rs ++ rs') = burntSum header rs + burntSum header rs'.
Proof. induction rs; simpl; lia. Qed.

Lemma calm_Snapshot (db : DB) : wf_state db -> calm db (Snapshot db).2.
Proof.
  intros W. split; [by apply wf_snapshot|apply supply_Snapshot|]. by rewrite (sw_refund _ _ (same_Snapshot db)).
Qed.

Lemma calm_ClearAccessList (db : DB) : wf_state db -> calm db (ClearAccessList db).
Proof.
  intros W. split; [by apply wf_ClearAccessList|apply supply_ClearAccessList|].
  by rewrite (sw_refund _ _ (same_ClearAccessList db)).
Qed.

Lemma calm_SetTxContext h i (db : DB) : wf_state db -> calm db (SetTxContext h i db).
Proof.
  intros W. split; [by apply wf_SetTxContext|apply supply_SetTxContext|].
  by rewrite (sw_refund _ _ (same_SetTxContext h i db)).
Qed.

Lemma calm_newAccount a (db : DB) :
  wf_state db -> calm db (if negb (Exist db a) then mutate (MCreateAccount a) db else db).
Proof.
  intros W. destruct (Exist db a) eqn:E; [by apply calm_refl|]. split; simpl.
  - by apply (wf_mutate (MCreateAccount a)).
  - by apply supply_Create.
  - apply (refund_mutate (MCreateAccount a)).
Qed.

Lemma calm_ProcessParentBlockHash n h (db : DB) : wf_state db -> calm db (ProcessParentBlockHash n h db).
Proof.
  intros W. pose proof (calm_newAccount HistoryStorageAddress db W) as C.
  eapply calm_trans; [exact C|]. apply calm_mutate; try done. apply C.
Qed.

Lemma calm_ProcessBeaconBlockRoot header (db : DB) : wf_state db -> calm db (ProcessBeaconBlockRoot header db).
Proof.
  intros W. unfold ProcessBeaconBlockRoot. destruct (h_ParentBeaconRoot header); [|by apply calm_refl].
  apply (calm_mutates [MSetState _ _ _; MSetState _ _ _]); [|done]. by repeat constructor.
Qed.

Lemma calm_ApplyEIP7997 (db : DB) : wf_state db -> calm db (ApplyEIP7997 db).
Proof.
  intros W. unfold ApplyEIP7997. destruct (_ >? 0); [by apply calm_refl|].
  pose proof (calm_newAccount FactoryAddress db W) as C.
  eapply calm_trans; [exact C|]. apply calm_mutate; try done. apply C.
Qed.

(** Code of the block that ends and keeps the ledger and the gas pool. *)
Definition steady {A} (m : P A) : Prop := forall s, wf_state (p_db s) ->
  match m s with
  | Ok _ s' => calm (p_db s) (p_db s') /\ p_gp s' = p_gp s
  | Panic _ => True
  | Err _ _ _ | Fuel => False
  end.

Lemma steady_bind {A B} (m : P A) (k : A -> P B) : steady m -> (forall a, steady (k a)) -> steady (gbind m k).
Proof.
  intros Hm Hk s W. unfold gbind. specialize (Hm s W). destruct (m s) as [a s1| | |]; try done.
  destruct Hm as [C1 G1]. specialize (Hk a s1 (calm_wf _ _ C1)). destruct (k a s1) as [b s2| | |]; try done.
  destruct Hk as [C2 G2]. split; [by eapply calm_trans|congruence].
Qed.

Lemma steady_ret {A} (a : A) : steady (gret a).
Proof. intros s W. split; [by apply calm_refl|done]. Qed.

Lemma steady_read {A} (f : DB -> A) : steady (readP f).
Proof. intros s W. split; [by apply calm_refl|done]. Qed.

Lemma steady_opt {A} p (o : option A) : steady (gopt p o).
Proof. intros s W. destruct o; [split; [by apply calm_refl|done]|done]. Qed.

Lemma steady_mod f : (forall db, wf_state db -> calm db (f db)) -> steady (modP f).
Proof. intros Hf s W. split; [by apply Hf|done]. Qed.

Lemma steady_preExecution header : steady (preExecution config header).
Proof.
  unfold preExecution, beaconRootStep, parentHashStep, factoryStep.
  repeat (apply steady_bind; [|intros ?]); try apply steady_ret; repeat case_match;
    repeat first [apply steady_bind; [|intros ?] | apply steady_ret | apply steady_read | apply steady_opt
                 | apply steady_mod; intros; by eauto using calm_ProcessBeaconBlockRoot,
                     calm_ProcessParentBlockHash, calm_ApplyEIP7997 | case_match].
Qed.

Section Ledger.

Context (header : Header).
Context (Hm : metered_rules (forkRulesOf config header) = true).
Context (Hpcs : map_Forall (fun _ p => forall i, is_u64 (RequiredGas p i))
                  (SelectPrecompiles pcsCancun pcsGlamsterdan pcsIPlus (forkRulesOf config header))).
Context (Hglam : cfg_IsGlamsterdan config (h_Time header) = false).

(** The fuel of the fee series is enough for the prices of the block. *)
Definition feesPriced : Prop :=
  h_CalldataExcessGas header = None /\
  match h_ExcessBlobGas header with Some e => is_Some (calcBlobBaseFee feeFuel e) | None => True end.

Context (Hfees : feesPriced).

(** A transaction of one of the forks from Berlin to Prague, whose gas limit
    the fuel covers. *)
Definition metered_tx (tx : Transaction) : Prop :=
  txType (inner tx) <> FrameTxType /\ is_u64 (ApplyLocalTxDiscount (inner tx)) /\
  ApplyLocalTxDiscount (inner tx) < Z.of_nat fuel.

Abbreviation apply_ :=
  (applyTransactionInternal keccak256 pcsCancun pcsGlamsterdan pcsIPlus rvrun Ecrecover fuel feeFuel
     config getHash header).

Lemma makeReceipt_some tx msg res (db : DB) :
  exists r, makeReceipt keccak256 feeFuel header tx msg res db = Some r /\ rc_GasUsed r = UsedGas res /\
    rc_EffectiveGasPrice r = Some (msgEffectiveGasPrice msg (h_BaseFee header)).
Proof.
  destruct Hfees as [Hc Hb]. unfold makeReceipt. rewrite Hc. rewrite (bool_decide_false (is_Some None)) by (by intros []).
  rewrite andb_false_r. destruct (BlobGas (inner tx) >? 0); [|by eexists].
  destruct (h_ExcessBlobGas header); [destruct Hb as [x ->]|]; by eexists.
Qed.

(** What one transaction does to the pool and the supply. *)
Lemma apply_accounting tx s :
  metered_tx tx -> sound (p_db s) -> is_u64 (p_gp s) ->
  match apply_ tx s with
  | Ok (inr (r, used)) s' =>
      sound (p_db s') /\ rc_GasUsed r = used /\ 0 <= used <= p_gp s /\ p_gp s' = p_gp s - used /\
      supply (p_db s') = supply (p_db s) - burnt header (default 0 (rc_EffectiveGasPrice r)) used
  | Ok (inl _) _ | Panic _ => True
  | Err _ _ _ | Fuel => False
  end.
Proof.
  intros (Hty & Hl & Hf) Hs Hgp. unfold applyTransactionInternal. destruct (_ && _); [done|].
  cbv zeta. set (tx' := recoverSender keccak256 config tx).
  assert (inner tx' = inner tx) as Ei by (unfold tx', recoverSender; repeat case_match; done).
  set (msg := TransactionToMessage keccak256 tx').
  assert (m_GasLimit msg = ApplyLocalTxDiscount (inner tx)) as El by (unfold msg; simpl; by rewrite Ei).
  assert (m_TxType msg = txType (inner tx)) as Et by (unfold msg; simpl; by rewrite Ei).
  assert (is_frame msg = false) as Efr.
  { unfold is_frame. rewrite Et. by destruct (Z.eqb_spec (txType (inner tx)) FrameTxType). }
  unfold gbind at 1, modP, gmodify. unfold gbind at 1, snapshotP. set (s2 := set_db _ (set_db _ s)).
  assert (calm (p_db s) (p_db s2)) as C2.
  { eapply calm_trans; [apply (calm_ClearAccessList (p_db s)), Hs|]. apply calm_Snapshot, wf_ClearAccessList, Hs. }
  pose proof (sound_calm _ _ Hs C2) as Hs2. rewrite <- El in Hl, Hf.
  pose proof (applyMessage_ends keccak256 pcsCancun pcsGlamsterdan pcsIPlus rvrun Ecrecover fuel feeFuel
    config getHash header msg Hm Hpcs Hl Hf Hglam s2 (proj1 Hs2) Hgp) as Hend.
  unfold gbind at 1. destruct (applyMessage _ _ _ _ _ _ _ _ _ _ _ _ s2) as [[e1|res] s3| | |] eqn:Em; try done;
    [..|congruence].
  - unfold gbind, revertP. by destruct (RevertToSnapshot _ _).
  - apply message_accounting in Em as (Hs3 & Hu & Hbl & _ & Hlim & Eg & Esup); try done.
    unfold gbind, readP. destruct (makeReceipt_some tx' msg res (p_db s3)) as (r & -> & Er & Ep).
    unfold gret. rewrite Ep. simpl. rewrite (Esup ltac:(by rewrite Et)), (calm_supply _ _ C2).
    change (p_gp s2) with (p_gp s) in *. split; [done|]. split; [done|]. split; [lia|]. by split.
Qed.

(** The state of the loop: the receipts account for the gas taken from the
    pool and for the ether gone since [supply0]. *)
Record accounted (supply0 : Z) (acc : blockAcc) s : Prop := {
  acd_sound : sound (p_db s);
  acd_pool : 0 <= p_gp s;
  acd_used : 0 <= ba_gas acc;
  acd_gas : ba_gas acc + p_gp s = h_GasLimit header;
  acd_sum : gasSum (ba_receipts acc) = ba_gas acc;
  acd_cumulative : forall i r, ba_receipts acc !! i = Some r ->
    rc_CumulativeGasUsed r = gasSum (take (S i) (ba_receipts acc));
  acd_supply : supply (p_db s) = supply0 - burntSum header (ba_receipts acc);
}.

Context (Hlimit : is_u64 (h_GasLimit header)).

Lemma cumulative_snoc rs r :
  (forall i r, rs !! i = Some r -> rc_CumulativeGasUsed r = gasSum (take (S i) rs)) ->
  rc_CumulativeGasUsed r = gasSum (rs ++ [r]) ->
  forall i r', (rs ++ [r]) !! i = Some r' -> rc_CumulativeGasUsed r' = gasSum (take (S i) (rs ++ [r])).
Proof.
  intros H E i r' Hi. apply lookup_app_Some in Hi as [Hi|[Hle Hi]].
  - rewrite (H i r' Hi), take_app_le; [done|]. apply lookup_lt_Some in Hi. lia.
  - apply list_lookup_singleton_Some in Hi as [Hi <-]. rewrite E, take_ge; [done|].
    rewrite length_app. simpl. lia.
Qed.

Lemma ApplyAAPostExecution_calm tx r : steady (ApplyAAPostExecution (DB := DB) tx r).
Proof.
  unfold ApplyAAPostExecution. destruct (inner tx); try apply steady_ret.
  destruct (negb _); [apply steady_ret|]. apply steady_bind; [apply steady_read|]. intros n.
  apply steady_mod. intros db W. by apply calm_mutate.
Qed.

Lemma processTx_accounting supply0 i tx acc s acc' s' :
  metered_tx tx -> accounted supply0 acc s -> processTx_ header i tx acc s = Ok (inr acc') s' ->
  accounted supply0 acc' s'.
Proof.
  intros Ht [So Hp Hu Hg Hsum Hc Hsup] E. unfold is_u64 in Hlimit.
  apply processTx_inv in E as (s1 & s2 & r & used & pre & Eg1 & Ed1 & Ea & Epost & Er & Eg & _).
  pose proof (calm_SetTxContext (tx_Hash keccak256 (inner tx)) (Z.of_nat i) (p_db s) (proj1 So)) as C1.
  rewrite <- Ed1 in C1. pose proof (sound_calm _ _ So C1) as So1.
  pose proof (apply_accounting tx s1 Ht So1 ltac:(unfold is_u64; lia)) as A. rewrite Ea in A.
  destruct A as (So2 & Egu & Hused & Egp & Es2).
  pose proof (ApplyAAPostExecution_calm tx r s2 (proj1 So2)) as C3. rewrite Epost in C3. destruct C3 as [C3 Eg3].
  rewrite u64_small in Er, Eg by (unfold is_u64; lia).
  assert (gasSum (ba_receipts acc') = ba_gas acc + used) as Esum.
  { rewrite Er, gasSum_app. simpl. lia. }
  split; try lia.
  - by apply (sound_calm _ _ So2).
  - rewrite Er. apply cumulative_snoc; [done|]. by rewrite <- Er, Esum.
  - rewrite (calm_supply _ _ C3), Es2, (calm_supply _ _ C1), Er, burntSum_app. simpl. rewrite Egu. lia.
Qed.

Lemma processTx_ends i tx acc s :
  metered_tx tx -> sound (p_db s) -> is_u64 (p_gp s) ->
  match processTx_ header i tx acc s with Err _ _ _ | Fuel => False | _ => True end.
Proof.
  intros Ht So Hg. unfold processTx. unfold gbind at 1, modP, gmodify. unfold gbind at 1.
  unfold gbind at 1, readP. set (s1 := mkP _ _ _). unfold gbind at 1.
  assert (match aaCheck config header tx i s1 with Err _ _ _ | Fuel => False | _ => True end) as H1.
  { unfold aaCheck. destruct (balActive _ _); [|done]. destruct (inner tx); try done.
    unfold gbind, readP, gopt. by destruct (ValidateUserOpState _ _ _). }
  destruct (aaCheck config header tx i s1) as [aa s1'| | |] eqn:Ea; try done.
  apply aaCheck_pure in Ea. subst s1'. destruct aa; [done|]. unfold gbind at 1.
  pose proof (apply_accounting tx s1 Ht) as A. specialize (A (sound_calm _ _ So (calm_SetTxContext _ _ _ (proj1 So))) Hg).
  destruct (applyTransactionInternal _ _ _ _ _ _ _ _ _ _ _ _ s1) as [[e|[r used]] s2| | |]; try done.
  unfold gbind at 1. pose proof (ApplyAAPostExecution_calm tx r s2 (proj1 (proj1 A))) as C3.
  destruct (ApplyAAPostExecution tx r s2) as [[] s3| | |]; try done.
  cbv zeta. destruct (_ && _); [done|]. destruct (ba_bal acc); [|done].
  unfold gbind, gget. by destruct (mergeAccesses _ _ _ _ _).
Qed.

Lemma txs_loop_accounting supply0 i txs acc s :
  Forall metered_tx txs -> accounted supply0 acc s ->
  match txs_loop_ header i txs acc s with
  | Ok (inr acc') s' => accounted supply0 acc' s' /\
      length (ba_receipts acc') = (length (ba_receipts acc) + length txs)%nat
  | Ok (inl _) _ | Panic _ => True
  | Err _ _ _ | Fuel => False
  end.
Proof.
  intros Ht. revert i acc s. induction Ht as [|tx txs Ht _ IH]; intros i acc s Ha; simpl; [split; [done|lia]|].
  assert (is_u64 (p_gp s)) as Hg by (destruct Ha; unfold is_u64 in *; lia).
  pose proof (processTx_ends i tx acc s Ht (acd_sound _ _ _ Ha) Hg) as He. unfold gbind.
  destruct (processTx_ header i tx acc s) as [[e|acc1] s1| | |] eqn:Ep; try done.
  specialize (IH (S i) acc1 s1 (processTx_accounting _ _ _ _ _ _ _ Ht Ha Ep)).
  destruct (txs_loop_ header (S i) txs acc1 s1) as [[e|acc'] s'| | |]; try done. destruct IH as [IH Hlen].
  split; [done|]. rewrite Hlen. apply processTx_inv in Ep as (? & ? & ? & ? & ? & _ & _ & _ & _ & -> & _).
  rewrite length_app. simpl. lia.
Qed.

Lemma ProcessWithdrawals_supply ws (db : DB) :
  supply (ProcessWithdrawals ws db) = supply db + withdrawn ws.
Proof.
  unfold ProcessWithdrawals. revert db. induction ws as [|w ws IH]; intros db; simpl; [lia|].
  rewrite IH, supply_Add. lia.
Qed.

Lemma withdrawalsStep_supply n ws bal s : exists bal' s',
  withdrawalsStep config header n ws bal s = Ok bal' s' /\ p_gp s' = p_gp s /\
  supply (p_db s') = supply (p_db s) + (if cfg_IsShanghai config (h_Time header) then withdrawn ws else 0).
Proof.
  unfold withdrawalsStep. destruct (cfg_IsShanghai config (h_Time header)); simpl.
  - unfold gbind, readP, modP, gmodify. destruct bal; do 2 eexists; (split; [done|]); (split; [done|]);
      apply ProcessWithdrawals_supply.
  - do 2 eexists. split; [done|]. split; [done|lia].
Qed.

(** C5. The accounting of a block of the forks from Berlin to Prague, without
    frame transactions and without a calldata gas field in its header, and with
    precompiled contracts whose gas cost is a uint64 (and enough fuel for the
    series of the blob fee): executing it ends, or panics, within as many
    interpreter steps per transaction as its gas limit.
    A block that is accepted has one receipt per transaction, the
    cumulative gas of each receipt is the sum of the gas of the receipts so
    far, the total is within the gas limit of the header and is exactly what
    the gas pool lost, and the ether in circulation grows by the withdrawals
    and shrinks by the base fee of the gas used, and by nothing else. *)
Theorem block_accounting block s :
  blk_header block = header -> sound (p_db s) -> Forall metered_tx (b_Transactions (blk_body block)) ->
  match ProcessWithBAL_ block s with
  | Ok (inr res) s' =>
      length (Receipts res) = length (b_Transactions (blk_body block)) /\
      (forall i r, Receipts res !! i = Some r ->
         rc_CumulativeGasUsed r = gasSum (take (S i) (Receipts res))) /\
      0 <= gasSum (Receipts res) <= h_GasLimit header /\
      p_gp s' = h_GasLimit header - gasSum (Receipts res) /\
      supply (p_db s') = supply (p_db s)
        + (if cfg_IsShanghai config (h_Time header) then withdrawn (default [] (b_Withdrawals (blk_body block))) else 0)
        - burntSum header (Receipts res)
  | Ok (inl _) _ | Panic _ => True
  | Err _ _ _ | Fuel => False
  end.
Proof.
  intros Eh So Ht. unfold ProcessWithBAL. rewrite Eh. unfold gbind at 1, gmodify, gbind at 1.
  set (s0 := mkP _ _ _). pose proof (steady_preExecution header s0 (proj1 So)) as H1.
  destruct (preExecution config header s0) as [bal s1| | |]; try done. destruct H1 as [C1 G1].
  assert (p_gp s1 = h_GasLimit header) as G1'.
  { rewrite G1. unfold s0. simpl. by rewrite u64_small. }
  unfold gbind at 1.
  assert (accounted (supply (p_db s)) (mkAcc [] 0 0 bal) s1) as A1.
  { split; simpl; try done; try (unfold is_u64 in *; lia).
    - by apply (sound_calm _ _ So).
    - by rewrite (calm_supply _ _ C1), Z.sub_0_r. }
  pose proof (txs_loop_accounting (supply (p_db s)) 0 _ _ s1 Ht A1) as H2.
  destruct (txs_loop_ header 0 _ _ s1) as [[e|acc] s2| | |]; try done.
  destruct H2 as [[_ Hp Hu Hg Hsum Hc Hsup] Hlen].
  unfold gbind. destruct (withdrawalsStep_supply (length (b_Transactions (blk_body block)))
    (default [] (b_Withdrawals (blk_body block))) (ba_bal acc) s2) as (bal2 & s3 & -> & G3 & S3).
  unfold gret. simpl. split; [done|]. split; [done|]. split; [lia|]. split; lia.
Qed.

End Ledger.

End BlockProcessor.

(** ** Witnesses: a block with two transactions and two withdrawals *)

#[local] Instance w_txops : TxStateDB MemoryStateDB := MemTxStateDB.
#[local] Instance w_txlaws : TxStateDBLaws MemoryStateDB := MemTxStateDB_laws fx_keccak.

(** Every fork up to Prague, and Amsterdam with its access lists. *)
Definition w_balConfig : ChainConfig :=
  mkChainConfig (Some 1) (Some 0) (Some 0) (Some 0) (Some 0) (Some 0) (Some 0) (Some 0) (Some 0) (Some 0)
    (Some 0) (Some 0) (Some 0) (Some 0) (Some 0) (Some 0) None None None None None.

(** Calls of the contract 0xC0, which stores, by the account 1. *)
Definition w_callTx (nonce : Z) : Transaction :=
  mkTx (DynamicFee (mkDynamicFeeTx (Some 1) nonce (Some 1) (Some 10) 90000 (Some 0xC0) (Some 5) [1; 2] []
    (Some 0) (Some 0) (Some 0))) (Some 1) None.

Definition w_twoTxBlock : Block :=
  mkBlock w_blockHeader (mkBody [w_callTx 0; w_callTx 1] []
    (Some [mkWithdrawal 1 2 0xE1 3; mkWithdrawal 2 2 0xE2 4])).

Definition w_processBlock :=
  ProcessWithBAL fx_keccak fx_pcs fx_pcs fx_pcs fx_rv (fun _ _ => None) (Z.to_nat 90001) 10 w_balConfig None
    w_twoTxBlock w_rich.

Definition w_noResult : ProcessResult := mkProcessResult [] None.

(** The access list has the entries of the history contract, the sender, the
    contract and the withdrawals. *)
Lemma block_access_list_ordered_witness :
  (fun e => (ae_Address e, ae_AccessIndex e))
    <$> default [] (BlockProcessor.BlockAccessList (ok_of w_processBlock w_noResult))
  = [(1, 1); (1, 2); (0xC0, 1); (0xC0, 2); (0xE1, 3); (0xE2, 3); (HistoryStorageAddress, 0)] /\
  ValidateBALOrdering (default [] (BlockProcessor.BlockAccessList (ok_of w_processBlock w_noResult))) = true.
Proof.
  split; [vm_compute; reflexivity|].
  apply (block_access_list_ordered fx_keccak fx_pcs fx_pcs fx_pcs fx_rv (fun _ _ => None) (Z.to_nat 90001) 10
    w_balConfig None w_twoTxBlock w_rich (ok_of w_processBlock w_noResult) (end_state w_processBlock w_rich)).
  - vm_compute. reflexivity.
  - vm_compute. reflexivity.
Defined.

(** The first call sets the slot, the second finds it set. *)
Lemma block_accounting_witness :
  match w_processBlock with
  | Ok (inr res) s' =>
      length (Receipts res) = 2%nat /\
      (forall i r, Receipts res !! i = Some r ->
         rc_CumulativeGasUsed r = gasSum (take (S i) (Receipts res))) /\
      0 <= gasSum (Receipts res) <= 30000000 /\
      p_gp s' = 30000000 - gasSum (Receipts res) /\
      supply (p_db s') = supply (p_db w_rich) + 7 * 1000000000 - burntSum w_blockHeader (Receipts res)
  | Ok (inl _) _ | Panic _ => True
  | Err _ _ _ | Fuel => False
  end /\
  rc_CumulativeGasUsed <$> Receipts (ok_of w_processBlock w_noResult) = [43186; 66472].
Proof.
  split; [|vm_compute; reflexivity]. unfold w_processBlock.
  apply (block_accounting fx_keccak fx_pcs fx_pcs fx_pcs fx_rv (fun _ _ => None) (Z.to_nat 90001) 10
    w_balConfig None w_blockHeader) with (block := w_twoTxBlock) (s := w_rich).
  - reflexivity.
  - apply w_pcs_u64.
  - reflexivity.
  - split; [reflexivity|exact I].
  - vm_compute. split; [discriminate|reflexivity].
  - reflexivity.
  - split; [apply fx_db_wf|vm_compute; split; [discriminate|reflexivity]].
  - repeat constructor; try discriminate; rewrite Z2Nat.id by lia; reflexivity.
Defined.
