(* ===== verification/Trie.v ===== *)
(** * Trie: the Merkle Patricia trie

    Nodes, hex-prefix keys, insertion, deletion, hashing, and Merkle proofs
    (trie/mpt/node.go, encoding.go, trie.go, hasher.go, decoder.go, proof.go).
    Keccak-256 is an argument. *)

From stdpp Require Import gmap.
From S2P Require Import Prelude Rlp.

(** ** Nodes *)

Record nodeFlag := mkFlag {
  fl_hash : option bytes;
  fl_dirty : bool;
}.

Definition dirtyFlag : nodeFlag := mkFlag None true.

(** The nil interface is [NilN]; the 17 children of a branch are a list. *)
Inductive node :=
  | NilN
  | fullNode (Children : list node) (flags : nodeFlag)
  | shortNode (Key : bytes) (Val : node) (flags : nodeFlag)
  | hashNode (h : bytes)
  | valueNode (v : bytes).

Definition isNil (n : node) : bool := match n with NilN => true | _ => false end.

Definition node_cache (n : node) : option bytes * bool :=
  match n with
  | fullNode _ f | shortNode _ _ f => (fl_hash f, fl_dirty f)
  | _ => (None, true)
  end.

Inductive trie_error := ErrNotFound | ErrHashNode | ErrUnknownNode | ErrProofInvalid | errDecodeInvalid.

(** A value, an error, a run-time panic, or a loop that does not end. *)
Inductive trieRes (A : Type) := TDone (a : A) | TFail (e : trie_error) | TCrash | TLoop.
Arguments TDone {A} a.
Arguments TFail {A} e.
Arguments TCrash {A}.
Arguments TLoop {A}.

Definition trieBind {A B} (m : trieRes A) (k : A -> trieRes B) : trieRes B :=
  match m with TDone a => k a | TFail e => TFail e | TCrash => TCrash | TLoop => TLoop end.

Definition topt {A} (o : option A) : trieRes A :=
  match o with Some a => TDone a | None => TCrash end.

Notation "'let*' x := m 'in' k" := (trieBind m (fun x => k))
  (at level 10, x name, m at level 100, k at level 200) : go_scope.

(** [f] of the child [i], a panic out of range. *)
Definition at_child {A} (f : node -> trieRes A) : list node -> Z -> trieRes A :=
  fix go (l : list node) (i : Z) : trieRes A :=
    match l with
    | [] => TCrash
    | c :: l => if i =? 0 then f c else go l (i - 1)
    end.

(** ** Hex-prefix encoding (encoding.go) *)

Definition terminatorByte : Z := 16.

Definition hasTerm (s : bytes) : bool :=
  match last s with Some b => b =? terminatorByte | None => false end.

(** A trailing odd nibble indexes out of range. *)
Fixpoint decodeNibbles (nibbles : bytes) : option bytes :=
  match nibbles with
  | [] => Some []
  | h :: l :: rest => cons (Z.lor (u8 (Z.shiftl h 4)) l) <$> decodeNibbles rest
  | _ => None
  end.

Definition hexToCompact (hex : bytes) : option bytes :=
  let terminator := if hasTerm hex then 1 else 0 in
  let hex := if hasTerm hex then removelast hex else hex in
  let b0 := Z.shiftl terminator 5 in
  match hex with
  | h :: rest =>
      if Nat.odd (length hex) then cons (Z.lor (Z.lor b0 16) h) <$> decodeNibbles rest
      else cons b0 <$> decodeNibbles hex
  | [] => Some [b0]
  end.

Fixpoint nibblesOf (str : bytes) : bytes :=
  match str with
  | [] => []
  | b :: rest => b / 16 :: b mod 16 :: nibblesOf rest
  end.

Definition keybytesToHex (str : bytes) : bytes := nibblesOf str ++ [terminatorByte].

Definition compactToHex (compact : bytes) : bytes :=
  match nibblesOf compact with
  | [] => compact
  | (f :: _) as base =>
      let chop := 2 - Z.land f 1 in
      let rest := drop (Z.to_nat chop) base in
      if negb (Z.land f 2 =? 0) then rest ++ [terminatorByte] else rest
  end.

Definition hexToKeybytes (hex : bytes) : option bytes :=
  decodeNibbles (if hasTerm hex then removelast hex else hex).

Fixpoint prefixLen (a b : bytes) : nat :=
  match a, b with
  | x :: a, y :: b => if x =? y then S (prefixLen a b) else O
  | _, _ => O
  end.

(** ** Lookup, insertion, deletion (trie.go) *)

Definition keysEqual (a b : bytes) : bool := bool_decide (a = b).

(** [None] when the key is not found. *)
Fixpoint trie_get (n : node) (key : bytes) (pos : nat) : trieRes (option bytes) :=
  match n with
  | NilN => TDone None
  | valueNode v => TDone (Some v)
  | shortNode k val _ =>
      if (length key - pos <? length k)%nat || negb (keysEqual k (take (length k) (drop pos key)))
      then TDone None
      else trie_get val key (pos + length k)
  | fullNode cs _ =>
      match key !! pos with
      | None => at_child (fun c => trie_get c key pos) cs 16
      | Some b => at_child (fun c => trie_get c key (S pos)) cs b
      end
  | hashNode _ => TDone None
  end.

(** Insertion at an empty place. *)
Definition newLeaf (key : bytes) (value : node) : node :=
  match key with [] => value | _ => shortNode key value dirtyFlag end.

Definition set_child (cs : list node) (i : Z) (c : node) : list node := <[Z.to_nat i := c]> cs.

(** The branch that replaces a short node with another key. *)
Definition splitShort (k : bytes) (val : node) (key : bytes) (value : node) (matchLen : nat) : trieRes node :=
  match k !! matchLen, key !! matchLen with
  | Some a, Some b =>
      if (16 <? a) || (16 <? b) then TCrash
      else
        let cs := replicate 17 NilN in
        let cs := set_child cs a (newLeaf (drop (S matchLen) k) val) in
        let cs := set_child cs b (newLeaf (drop (S matchLen) key) value) in
        let branch := fullNode cs dirtyFlag in
        TDone (if (0 <? matchLen)%nat then shortNode (take matchLen key) branch dirtyFlag else branch)
  | _, _ => TCrash
  end.

Fixpoint trie_insert (n : node) (key : bytes) (value : bytes) : trieRes node :=
  match key with
  | [] => TDone (valueNode value)
  | b :: rest =>
      match n with
      | NilN => TDone (shortNode key (valueNode value) dirtyFlag)
      | shortNode k val _ =>
          let matchLen := prefixLen key k in
          if (matchLen =? length k)%nat then
            let* nn := trie_insert val (drop matchLen key) value in
            TDone (shortNode k nn dirtyFlag)
          else splitShort k val key (valueNode value) matchLen
      | fullNode cs _ =>
          let* child := at_child (fun c => trie_insert c rest value) cs b in
          TDone (fullNode (set_child cs b child) dirtyFlag)
      | hashNode _ => TFail ErrHashNode
      | valueNode _ => TFail ErrUnknownNode
      end
  end.

(** The children of a branch that are not nil, with their index. *)
Definition remaining (cs : list node) : list (nat * node) :=
  List.filter (fun ic => negb (isNil ic.2)) (imap pair cs).

(** The branch after the deletion of a child. *)
Definition collapseBranch (cs : list node) : node :=
  match remaining cs with
  | [] => NilN
  | [(i, c)] =>
      if (i =? 16)%nat then shortNode [terminatorByte] c dirtyFlag
      else match c with
           | shortNode k val _ => shortNode (Z.of_nat i :: k) val dirtyFlag
           | _ => shortNode [Z.of_nat i] c dirtyFlag
           end
  | _ => fullNode cs dirtyFlag
  end.

Definition mergeShort (k : bytes) (child : node) : node :=
  match child with
  | NilN => NilN
  | shortNode k' val _ => shortNode (k ++ k') val dirtyFlag
  | _ => shortNode k child dirtyFlag
  end.

Fixpoint trie_delete (n : node) (key : bytes) : trieRes node :=
  match n with
  | NilN => TDone NilN
  | shortNode k val _ =>
      let matchLen := prefixLen key k in
      if (matchLen <? length k)%nat then TDone n
      else if (matchLen =? length key)%nat then TDone NilN
      else
        let* child := trie_delete val (drop (length k) key) in
        TDone (mergeShort k child)
  | fullNode cs _ =>
      match key with
      | [] => TCrash
      | b :: rest =>
          let* child := at_child (fun c => trie_delete c rest) cs b in
          TDone (collapseBranch (set_child cs b child))
      end
  | valueNode _ => match key with [] => TDone NilN | _ => TDone n end
  | hashNode _ => TFail ErrHashNode
  end.

Definition trie_Get (root : node) (key : bytes) : trieRes bytes :=
  let* v := trie_get root (keybytesToHex key) 0 in
  match v with Some v => TDone v | None => TFail ErrNotFound end.

Definition trie_Delete (root : node) (key : bytes) : trieRes node := trie_delete root (keybytesToHex key).

Definition trie_Put (root : node) (key value : bytes) : trieRes node :=
  match value with
  | [] => trie_Delete root key
  | _ => trie_insert root (keybytesToHex key) value
  end.

(** [Len] and [Clone]. *)
Fixpoint countValues (n : node) : Z :=
  match n with
  | valueNode _ => 1
  | shortNode _ val _ => countValues val
  | fullNode cs _ => fold_right (fun c z => countValues c + z) 0 cs
  | _ => 0
  end.

Fixpoint cloneNode (n : node) : node :=
  match n with
  | shortNode k val _ => shortNode k (cloneNode val) (mkFlag None false)
  | fullNode cs _ => fullNode (map cloneNode cs) (mkFlag None false)
  | _ => n
  end.

(** ** Encoding and hashing (hasher.go) *)

Definition trie_putUintBigEndian (u : Z) : bytes :=
  if u <? 2 ^ 8 then be_bytes 1 u
  else if u <? 2 ^ 16 then be_bytes 2 u
  else if u <? 2 ^ 24 then be_bytes 3 u
  else if u <? 2 ^ 32 then be_bytes 4 u
  else be_bytes 8 u.

Definition wrapListPayload (payload : bytes) : bytes :=
  let n := zlen payload in
  if n <=? 55 then u8 (0xc0 + u8 n) :: payload
  else let lenBytes := trie_putUintBigEndian (u64 n) in
       u8 (0xf7 + u8 (zlen lenBytes)) :: lenBytes ++ payload.

(** The reference of a node inside its parent.  [rlp.EncodeToBytes] of a byte
    slice is [encodeString] and does not fail. *)
Fixpoint encodeNodeValue (n : node) : bytes :=
  match n with
  | NilN => [0x80]
  | valueNode v => encodeString v
  | hashNode h => encodeString h
  | shortNode k val _ => wrapListPayload (encodeString k ++ encodeNodeValue val)
  | fullNode cs _ => wrapListPayload (concat (map encodeNodeValue cs))
  end.

Definition encodeNode (n : node) : bytes :=
  match n with
  | NilN => []
  | hashNode h => h
  | _ => encodeNodeValue n
  end.

Definition set_cache (h : option bytes) (n : node) : node :=
  match n with
  | shortNode k val _ => shortNode k val (mkFlag h false)
  | fullNode cs _ => fullNode cs (mkFlag h false)
  | _ => n
  end.

(** [f] on the first [k] elements that are not nil. *)
Definition map_children {A} (f : node -> trieRes A) (keep : node -> A) : nat -> list node -> trieRes (list A) :=
  fix go (k : nat) (l : list node) : trieRes (list A) :=
    match l, k with
    | [], _ => TDone []
    | c :: l, O => let* r := go O l in TDone (keep c :: r)
    | c :: l, S k =>
        let* x := (if isNil c then TDone (keep c) else f c) in
        let* r := go k l in
        TDone (x :: r)
    end.

(** [rootHash[:]] of [trie_BytesToHash]. *)
Definition trie_BytesToHash (b : bytes) : bytes :=
  let b := drop (length b - 32) b in replicate (32 - length b) 0 ++ b.

Section Hashing.

Context (Keccak256 : bytes -> bytes).

Definition trie_store (n : node) (force : bool) : node :=
  match n with
  | hashNode _ | valueNode _ => n
  | _ =>
      let enc := encodeNode n in
      if (zlen enc <? 32) && negb force then n else hashNode (Keccak256 enc)
  end.

Definition finishHash (force : bool) (collapsed cached : node) : node * node :=
  let hashed := trie_store collapsed force in
  (hashed, set_cache (match hashed with hashNode h => Some h | _ => None end) cached).

(** The reference of the node, and the node with its hash cached. *)
Fixpoint trie_hash (n : node) (force : bool) : trieRes (node * node) :=
  match node_cache n with
  | (Some h, false) => TDone (hashNode h, n)
  | _ =>
      match n with
      | NilN => TCrash
      | shortNode k val f =>
          let* ck := topt (hexToCompact k) in
          let* v := (match val with valueNode _ => TDone (val, val) | _ => trie_hash val false end) in
          TDone (finishHash force (shortNode ck v.1 f) (shortNode k v.2 f))
      | fullNode cs f =>
          let* l := map_children (fun c => trie_hash c false) (fun c => (c, c)) 16 cs in
          TDone (finishHash force (fullNode (map fst l) f) (fullNode (map snd l) f))
      | _ => TDone (finishHash force n n)
      end
  end.

Definition emptyRoot : bytes := Keccak256 (encodeString []).

(** The root hash, and the trie with its hashes cached. *)
Definition trie_Hash (root : node) : trieRes (bytes * node) :=
  match root with
  | NilN => TDone (emptyRoot, NilN)
  | _ =>
      let* r := trie_hash root true in
      TDone (match r.1 with hashNode h => trie_BytesToHash h | hashed => Keccak256 (encodeNode hashed) end, r.2)
  end.

(** ** Proofs (proof.go) *)

Fixpoint collapseForProof (n : node) : trieRes node :=
  let reference (collapsed : node) :=
    let enc := encodeNodeValue collapsed in
    if zlen enc >=? 32 then hashNode (Keccak256 enc) else collapsed in
  match n with
  | shortNode k val f =>
      let* ck := topt (hexToCompact k) in
      let* v := collapseForProof val in
      TDone (reference (shortNode ck v f))
  | fullNode cs f =>
      let* l := map_children collapseForProof (fun c => c) 16 cs in
      TDone (reference (fullNode l f))
  | _ => TDone n
  end.

(** The encoding of a node in a proof. *)
Definition proofNode (n : node) : trieRes bytes :=
  match n with
  | shortNode k val f =>
      let* ck := topt (hexToCompact k) in
      let* v := collapseForProof val in
      TDone (encodeNodeValue (shortNode ck v f))
  | fullNode cs f =>
      let* l := map_children collapseForProof (fun c => c) 16 cs in
      TDone (encodeNodeValue (fullNode l f))
  | _ => TDone []
  end.

(** The nodes on the path, and whether the key was found. *)
Fixpoint trie_prove (n : node) (key : bytes) (pos : nat) : trieRes (list bytes * bool) :=
  match n with
  | NilN => TDone ([], false)
  | shortNode k val _ =>
      let* enc := proofNode n in
      if (length key - pos <? length k)%nat || negb (keysEqual k (take (length k) (drop pos key)))
      then TDone ([enc], false)
      else let* r := trie_prove val key (pos + length k) in TDone (enc :: r.1, r.2)
  | fullNode cs _ =>
      let* enc := proofNode n in
      match key !! pos with
      | None => let* b := at_child (fun c => TDone (negb (isNil c))) cs 16 in TDone ([enc], b)
      | Some b =>
          let* r := at_child (fun c => trie_prove c key (S pos)) cs b in TDone (enc :: r.1, r.2)
      end
  | valueNode _ => TDone ([], true)
  | hashNode _ => TDone ([], false)
  end.

(** The proof, and the trie with its hashes cached. *)
Definition trie_Prove (root : node) (key : bytes) : trieRes (list bytes * node) :=
  match root with
  | NilN => TFail ErrNotFound
  | _ =>
      let* h := trie_Hash root in
      let* r := trie_prove h.2 (keybytesToHex key) 0 in
      if r.2 then TDone (r.1, h.2) else TFail ErrNotFound
  end.

(** The same path, whether or not it leads to a value. *)
Fixpoint trie_proveAbsence (n : node) (key : bytes) (pos : nat) : trieRes (list bytes) :=
  match n with
  | shortNode k val _ =>
      let* enc := proofNode n in
      if (length key - pos <? length k)%nat || negb (keysEqual k (take (length k) (drop pos key)))
      then TDone [enc]
      else let* r := trie_proveAbsence val key (pos + length k) in TDone (enc :: r)
  | fullNode cs _ =>
      let* enc := proofNode n in
      match key !! pos with
      | None => TDone [enc]
      | Some b => let* r := at_child (fun c => trie_proveAbsence c key (S pos)) cs b in TDone (enc :: r)
      end
  | _ => TDone []
  end.

Definition trie_ProveAbsence (root : node) (key : bytes) : trieRes (list bytes * node) :=
  match root with
  | NilN => TDone ([], NilN)
  | _ =>
      let* h := trie_Hash root in
      let* r := trie_proveAbsence h.2 (keybytesToHex key) 0 in
      TDone (r, h.2)
  end.

End Hashing.

(** ** Decoding (decoder.go)

    Lengths are Go [int]s: eight length bytes can make them negative. *)

Definition decodeLength (data : bytes) : Z :=
  fold_left (fun length b => i64 (Z.lor (i64 (Z.shiftl length 8)) b)) data 0.

Definition tslice (data : bytes) (a b : Z) : trieRes bytes := topt (go_slice data a b).

(** The length bytes after the prefix, and where the item would end. *)
Definition longEnd (data : bytes) (lenLen : Z) : trieRes (Z * Z) :=
  if zlen data <? 1 + lenLen then TFail errDecodeInvalid
  else
    let* lb := tslice data 1 (1 + lenLen) in
    let end_ := i64 (1 + lenLen + decodeLength lb) in
    if zlen data <? end_ then TFail errDecodeInvalid else TDone (1 + lenLen, end_).

(** Strings lose their header, lists keep it. *)
Definition decodeOneElement (data : bytes) : trieRes (bytes * bytes) :=
  match data with
  | [] => TFail errDecodeInvalid
  | prefix :: rest =>
      if prefix <=? 0x7f then TDone ([prefix], rest)
      else if prefix =? 0x80 then TDone ([], rest)
      else if prefix <=? 0xb7 then
        let end_ := 1 + (prefix - 0x80) in
        if zlen data <? end_ then TFail errDecodeInvalid
        else
          let* c := tslice data 1 end_ in
          let* r := tslice data end_ (zlen data) in
          TDone (c, r)
      else if prefix <=? 0xbf then
        let* se := longEnd data (prefix - 0xb7) in
        let* c := tslice data se.1 se.2 in
        let* r := tslice data se.2 (zlen data) in
        TDone (c, r)
      else if prefix <=? 0xf7 then
        let end_ := 1 + (prefix - 0xc0) in
        if zlen data <? end_ then TFail errDecodeInvalid
        else
          let* c := tslice data 0 end_ in
          let* r := tslice data end_ (zlen data) in
          TDone (c, r)
      else
        let* se := longEnd data (prefix - 0xf7) in
        let* c := tslice data 0 se.2 in
        let* r := tslice data se.2 (zlen data) in
        TDone (c, r)
  end.

(** Every element but one of a negative length takes at least a byte. *)
Fixpoint decode_elems (fuel : nat) (payload : bytes) : trieRes (list bytes) :=
  match payload with
  | [] => TDone []
  | _ =>
      match fuel with
      | O => TLoop
      | S fuel =>
          let* cr := decodeOneElement payload in
          let* elems := decode_elems fuel cr.2 in
          TDone (cr.1 :: elems)
      end
  end.

Definition decodeRLPList (data : bytes) : trieRes (list bytes) :=
  match data with
  | [] => TFail errDecodeInvalid
  | prefix :: _ =>
      if prefix <? 0xc0 then TFail errDecodeInvalid
      else
        let* payload :=
          (if prefix <=? 0xf7 then
             let end_ := 1 + (prefix - 0xc0) in
             if zlen data <? end_ then TFail errDecodeInvalid else tslice data 1 end_
           else let* se := longEnd data (prefix - 0xf7) in tslice data se.1 se.2) in
        decode_elems (length payload) payload
  end.

(** [decodeNode] and [decodeRef], one unit of fuel per nested node. *)
Fixpoint decodeNode (fuel : nat) (h : option bytes) (data : bytes) : trieRes node :=
  match fuel with
  | O => TLoop
  | S fuel =>
      let decodeRef (data : bytes) :=
        match data with
        | [] => TDone NilN
        | _ => if zlen data =? 32 then TDone (hashNode data) else decodeNode fuel None data
        end in
      let* elems := decodeRLPList data in
      match elems with
      | [e0; e1] =>
          let key := compactToHex e0 in
          if hasTerm key then TDone (shortNode key (valueNode e1) (mkFlag h false))
          else let* child := decodeRef e1 in TDone (shortNode key child (mkFlag h false))
      | _ =>
          if (length elems =? 17)%nat then
            let* cs := fold_right (fun e acc => let* c := decodeRef e in let* r := acc in TDone (c :: r))
                         (TDone []) (take 16 elems) in
            let v := match elems !! 16%nat with Some (b :: v) => valueNode (b :: v) | _ => NilN end in
            TDone (fullNode (cs ++ [v]) (mkFlag h false))
          else TFail errDecodeInvalid
      end
  end.

(** ** Verification (proof.go) *)

Section Verify.

Context (Keccak256 : bytes -> bytes).

(** The reference to the next node: a hash, or the node itself. *)
Definition childRef (ref : bytes) : bytes * option bytes :=
  if zlen ref =? 32 then (ref, None) else ([], Some ref).

Fixpoint verify_loop (hexKey wantHash : bytes) (wantInline : option bytes) (pos : nat)
    (proof : list bytes) : trieRes (option bytes) :=
  match proof with
  | [] => TFail ErrProofInvalid
  | encoded :: rest =>
      let isLast := match rest with [] => true | _ => false end in
      let expected := match wantInline with
                      | Some w => keysEqual encoded w
                      | None => keysEqual (Keccak256 encoded) wantHash
                      end in
      if negb expected then TFail ErrProofInvalid
      else
        match decodeRLPList encoded with
        | TCrash => TCrash
        | TLoop => TLoop
        | TFail _ => TFail ErrProofInvalid
        | TDone items =>
            match items with
            | [compactKey; val] =>
                let hexNibbles := compactToHex compactKey in
                let matchLen := prefixLen hexNibbles (drop pos hexKey) in
                if (matchLen <? length hexNibbles)%nat then
                  (if isLast then TDone None else TFail ErrProofInvalid)
                else if hasTerm hexNibbles then
                  (if isLast then TDone (Some val) else TFail ErrProofInvalid)
                else if isLast then TFail ErrProofInvalid
                else verify_loop hexKey (childRef val).1 (childRef val).2 (pos + length hexNibbles) rest
            | _ =>
                if (length items =? 17)%nat then
                  match hexKey !! pos with
                  | None => TFail ErrProofInvalid
                  | Some nibble =>
                      if nibble =? terminatorByte then
                        match items !! 16%nat with
                        | Some (b :: v) => TDone (Some (b :: v))
                        | _ => TDone None
                        end
                      else
                        match items !! Z.to_nat nibble with
                        | None => TCrash
                        | Some [] => if isLast then TDone None else TFail ErrProofInvalid
                        | Some ref =>
                            if isLast then TFail ErrProofInvalid
                            else verify_loop hexKey (childRef ref).1 (childRef ref).2 (S pos) rest
                        end
                  end
                else TFail ErrProofInvalid
            end
        end
  end.

(** [Some] value for a key that exists, [None] for one that does not. *)
Definition VerifyProof (rootHash key : bytes) (proof : list bytes) : trieRes (option bytes) :=
  match proof with
  | [] => if keysEqual rootHash (emptyRoot Keccak256) then TDone None else TFail ErrProofInvalid
  | _ => verify_loop (keybytesToHex key) rootHash None 0 proof
  end.

End Verify.
