(* ===== verification/TrieProofs.v ===== *)
(** * TrieProofs: the trie is a map with one form per content

    Lookups after insertions and deletions are those of the map they spell,
    tries with equal lookups are equal up to cached hashes, and the cached
    hashes are right; so the root hash is a function of the content. *)

From stdpp Require Import gmap.
From S2P Require Import Prelude Rlp Trie.

(** ** Nodes and children *)

Section node_ind.

Context (P : node -> Prop).
Context (Hnil : P NilN) (Hhash : forall h, P (hashNode h)) (Hval : forall v, P (valueNode v)).
Context (Hshort : forall k val f, P val -> P (shortNode k val f)).
Context (Hfull : forall cs f, (forall i c, cs !! i = Some c -> P c) -> P (fullNode cs f)).

Fixpoint node_rect' (n : node) : P n.
Proof.
  destruct n as [|cs f|k val f|h|v]; [exact Hnil| |by apply Hshort|by apply Hhash|by apply Hval].
  apply Hfull. induction cs as [|c cs IH]; intros i x.
  - rewrite lookup_nil. discriminate.
  - destruct i as [|i]; simpl.
    + intros [= <-]. apply node_rect'.
    + apply IH.
Defined.

End node_ind.

Lemma node_nil n : n = NilN \/ n <> NilN.
Proof. destruct n; (by left) || (by right). Qed.

Lemma at_child_lookup {A} (f : node -> trieRes A) cs i :
  0 <= i -> at_child f cs i = match cs !! Z.to_nat i with Some c => f c | None => TCrash end.
Proof.
  revert i. induction cs as [|c cs IH]; intros i Hi; [done|]. simpl.
  destruct (Z.eqb_spec i 0) as [->|Hn]; [done|]. rewrite IH by lia.
  replace (Z.to_nat i) with (S (Z.to_nat (i - 1))) by lia. done.
Qed.

Lemma set_child_lookup cs i j c :
  0 <= i < zlen cs -> set_child cs i c !! j = if decide (j = Z.to_nat i) then Some c else cs !! j.
Proof.
  unfold zlen, set_child. intros Hi. destruct (decide (j = Z.to_nat i)) as [->|Hn].
  - apply list_lookup_insert_eq. lia.
  - by apply list_lookup_insert_ne.
Qed.

Lemma remaining_elem cs i c : (i, c) ∈ remaining cs <-> cs !! i = Some c /\ c <> NilN.
Proof.
  unfold remaining. rewrite list_elem_of_In, List.filter_In, <- list_elem_of_In.
  rewrite list_elem_of_lookup. setoid_rewrite list_lookup_imap. split.
  - intros [[j Hj] Hc]. simpl in Hc. destruct (cs !! j) eqn:E; simpl in Hj; simplify_eq. split; [done|].
    by intros ->.
  - intros [Hi Hc]. split; [exists i; by rewrite Hi|]. by destruct c.
Qed.

Lemma remaining_NoDup cs : NoDup (remaining cs).*1.
Proof.
  unfold remaining. assert (forall k, NoDup (List.filter (fun ic : nat * node => negb (isNil ic.2)) (imap (fun i => pair (k + i)%nat) cs)).*1
    /\ forall i, i ∈ (List.filter (fun ic : nat * node => negb (isNil ic.2)) (imap (fun i => pair (k + i)%nat) cs)).*1 -> (k <= i)%nat) as H.
  2: { apply (H 0%nat). }
  induction cs as [|c cs IH]; intros k; simpl; [split; [constructor|by intros i ?%elem_of_nil]|].
  destruct (IH (S k)) as [IN IL].
  assert (imap ((fun i => pair (k + i)%nat) ∘ S) cs = imap (fun i => pair (S k + i)%nat) cs) as ->.
  { apply imap_ext. intros i x _. simpl. f_equal. lia. }
  destruct (isNil c); simpl.
  - split; [done|]. intros i Hi. apply IL in Hi. lia.
  - split.
    + constructor; [|done]. intros Hi. apply IL in Hi. lia.
    + intros i [->|Hi]%elem_of_cons; [lia|]. apply IL in Hi. lia.
Qed.

(** At least two children. *)
Definition two (cs : list node) : Prop :=
  exists i j c d, i <> j /\ cs !! i = Some c /\ c <> NilN /\ cs !! j = Some d /\ d <> NilN.

Lemma remaining_cases cs :
  match remaining cs with
  | [] => forall i c, cs !! i = Some c -> c = NilN
  | [(i, c)] => cs !! i = Some c /\ c <> NilN /\ forall j d, cs !! j = Some d -> j <> i -> d = NilN
  | _ => two cs
  end.
Proof.
  pose proof (remaining_elem cs) as HE. pose proof (remaining_NoDup cs) as HN.
  destruct (remaining cs) as [|[i c] [|[j d] l]].
  - intros i c Hc. destruct (node_nil c) as [|Hn]; [done|].
    exfalso. eapply elem_of_nil, HE. by split.
  - destruct (proj1 (HE i c) ltac:(by left)) as [H1 H2]. split; [done|]. split; [done|].
    intros j d Hj Hne. destruct (node_nil d) as [|Hn]; [done|].
    assert ((j, d) ∈ [(i, c)]) as Hin by (by apply HE). apply list_elem_of_singleton in Hin. congruence.
  - destruct (proj1 (HE i c) ltac:(by left)) as [H1 H2].
    destruct (proj1 (HE j d) ltac:(right; by left)) as [H3 H4].
    exists i, j, c, d. repeat split; try done. simpl in HN. intros ->.
    apply NoDup_cons in HN as [HN _]. apply HN. by left.
Qed.

(** ** Keys *)

Definition nib (x : Z) : Prop := 0 <= x < 16.

(** Nibbles with the terminator at the end, and nowhere else. *)
Inductive key : bytes -> Prop :=
  | key_end : key [terminatorByte]
  | key_cons x k : nib x -> key k -> key (x :: k).

Lemma key_nibbles k : Forall is_byte k -> key (keybytesToHex k).
Proof.
  unfold keybytesToHex. induction 1 as [|b k Hb _ IH]; [constructor|]. unfold is_byte in Hb. simpl.
  constructor; [split; [apply Z.div_pos|apply Z.div_lt_upper_bound]; lia|].
  constructor; [apply Z.mod_pos_bound; lia|done].
Qed.

Lemma nibblesOf_inj k k' : nibblesOf k = nibblesOf k' -> k = k'.
Proof.
  revert k'. induction k as [|b k IH]; intros [|b' k'] H; try done. simpl in H. simplify_eq.
  f_equal; [|by apply IH]. rewrite (Z.div_mod b 16), (Z.div_mod b' 16) by lia. congruence.
Qed.

Lemma keybytesToHex_inj k k' : keybytesToHex k = keybytesToHex k' -> k = k'.
Proof. unfold keybytesToHex. intros H. simplify_list_eq. by apply nibblesOf_inj. Qed.

Lemma key_head x k : key (x :: k) -> (nib x /\ key k) \/ (x = terminatorByte /\ k = []).
Proof. inversion 1; auto. Qed.

Lemma key_range x k : key (x :: k) -> 0 <= x <= 16.
Proof. intros [[H _]|[-> _]]%key_head; unfold nib, terminatorByte in *; lia. Qed.

Lemma key_nonempty k : key k -> k <> [].
Proof. by inversion 1. Qed.

Lemma key_app p k : Forall nib p -> key (p ++ k) <-> key k.
Proof.
  induction 1 as [|x p Hx _ IH]; [done|]. simpl. rewrite <- IH. split.
  - intros [[_ H]|[-> _]]%key_head; [done|]. unfold nib, terminatorByte in Hx. lia.
  - by constructor.
Qed.

(** A key is no proper prefix of a key. *)
Lemma key_prefix p r : key p -> key (p ++ r) -> r = [].
Proof.
  induction 1 as [|x p Hx _ IH]; simpl.
  - intros [[H _]|[_ H]]%key_head; [unfold nib, terminatorByte in H; lia|done].
  - intros [[_ H]|[-> _]]%key_head; [by apply IH|unfold nib, terminatorByte in Hx; lia].
Qed.

(** Nibbles before a part of a key that is not empty. *)
Lemma key_split p r : key (p ++ r) -> r <> [] -> Forall nib p /\ key r.
Proof.
  induction p as [|x p IH]; intros H Hr; [by split|].
  apply key_head in H as [[Hx H]|[_ H]]; [|by destruct p, r].
  destruct (IH H Hr). split; [by constructor|done].
Qed.

Lemma prefixLen_spec a b : exists c a' b',
  a = c ++ a' /\ b = c ++ b' /\ prefixLen a b = length c /\
  match a', b' with x :: _, y :: _ => x <> y | _, _ => True end.
Proof.
  revert b. induction a as [|x a IH]; intros b; [by exists [], [], b|].
  destruct b as [|y b]; [by exists [], (x :: a), []|]. simpl.
  destruct (Z.eqb_spec x y) as [->|Hn]; [|by exists [], (x :: a), (y :: b)].
  destruct (IH b) as (c & a' & b' & -> & -> & -> & H). by exists (y :: c), a', b'.
Qed.

(** ** Lookup *)

Lemma trie_get_shift n a k pos : trie_get n (a ++ k) (length a + pos) = trie_get n k pos.
Proof.
  revert k pos. induction n as [|h|v|p val f IH|cs f IH] using node_rect'; intros k pos; try done; simpl.
  - rewrite length_app. replace (length a + length k - (length a + pos))%nat with (length k - pos)%nat by lia.
    rewrite drop_app_add, <- Nat.add_assoc, IH. done.
  - rewrite lookup_app_r by lia. replace (length a + pos - length a)%nat with pos by lia.
    assert (forall q i, at_child (fun c => trie_get c (a ++ k) (length a + q)) cs i
                        = at_child (fun c => trie_get c k q) cs i) as E.
    { intros q. clear pos. induction cs as [|c cs IHc]; intros i; [done|]. simpl.
      rewrite (IH 0%nat c eq_refl), IHc; [done|]. intros j d Hd. by apply (IH (S j)). }
    destruct (k !! pos); [|apply E]. replace (S (length a + pos)) with (length a + S pos)%nat by lia. apply E.
Qed.

Lemma get_app n a k : trie_get n (a ++ k) (length a) = trie_get n k 0.
Proof. rewrite <- (trie_get_shift n a k 0). f_equal. lia. Qed.

Lemma get_short p val f k : trie_get (shortNode p val f) (p ++ k) 0 = trie_get val k 0.
Proof.
  simpl. rewrite Nat.sub_0_r, drop_0, take_app_length, length_app.
  destruct (Nat.ltb_spec (length p + length k) (length p)); [lia|].
  unfold keysEqual. rewrite bool_decide_true by done. simpl. apply get_app.
Qed.

Lemma get_short_no p val f k : ~ p `prefix_of` k -> trie_get (shortNode p val f) k 0 = TDone None.
Proof.
  intros H. simpl. rewrite drop_0. unfold keysEqual. rewrite (bool_decide_false (p = _)); [by rewrite orb_true_r|].
  intros E. apply H. exists (drop (length p) k). rewrite E at 1. by rewrite take_drop.
Qed.

Lemma get_full cs f b k :
  0 <= b -> trie_get (fullNode cs f) (b :: k) 0
            = match cs !! Z.to_nat b with Some c => trie_get c k 0 | None => TCrash end.
Proof.
  intros Hb. simpl. rewrite at_child_lookup by done. destruct (cs !! _); [|done].
  apply (get_app n [b] k).
Qed.

Lemma get_short1 a val f k : trie_get (shortNode [a] val f) (a :: k) 0 = trie_get val k 0.
Proof. apply (get_short [a]). Qed.

Lemma get_short_cons a p val f g k :
  trie_get (shortNode (a :: p) val f) (a :: k) 0 = trie_get (shortNode p val g) k 0.
Proof.
  destruct (decide (p `prefix_of` k)) as [[r ->]|Hno].
  - rewrite get_short. apply (get_short (a :: p)).
  - rewrite !get_short_no; [done|done|]. by intros ?%prefix_cons_inv_2.
Qed.

Lemma get_leaf p v f : trie_get (shortNode p (valueNode v) f) p 0 = TDone (Some v).
Proof. rewrite <- (app_nil_r p) at 2. by rewrite get_short. Qed.

Lemma newLeaf_get a p val f k : trie_get (newLeaf p val) k 0 = trie_get (shortNode (a :: p) val f) (a :: k) 0.
Proof.
  unfold newLeaf. destruct p as [|x p]; [by rewrite get_short1|by rewrite (get_short_cons a _ _ _ dirtyFlag)].
Qed.

(** ** Well-formed tries *)

Definition is_value (n : node) : Prop := exists v, n = valueNode v /\ v <> [].

Definition slots (P : node -> Prop) : nat -> list node -> Prop :=
  fix go (k : nat) (l : list node) : Prop :=
    match l with
    | [] => True
    | c :: l => (c = NilN \/ match k with O => is_value c | S _ => P c end) /\ go (pred k) l
    end.

(** Leaves hold a value, extensions lead to a branch, branches have two
    children or more. *)
Fixpoint wf (n : node) : Prop :=
  match n with
  | shortNode k val _ =>
      match val with
      | valueNode v => key k /\ v <> []
      | fullNode _ _ => k <> [] /\ Forall nib k /\ wf val
      | _ => False
      end
  | fullNode cs _ => length cs = 17%nat /\ slots wf 16 cs /\ two cs
  | _ => False
  end.

Definition wf0 (n : node) : Prop := n = NilN \/ wf n.

(** What may hang at the nibble [b] of a branch. *)
Definition slot_ok (b : Z) (c : node) : Prop :=
  c = NilN \/ (nib b /\ wf c) \/ (b = terminatorByte /\ is_value c).

Lemma slots_lookup P k cs :
  slots P k cs <-> forall i c, cs !! i = Some c -> c = NilN \/ (if (i <? k)%nat then P c else is_value c).
Proof.
  revert k. induction cs as [|c cs IH]; intros k; simpl; [split; done|]. rewrite IH. split.
  - intros [H0 H] [|i] d; simpl; [intros [= <-]|intros Hd]; [by destruct k|].
    destruct (H i d Hd) as [|Hi]; [by left|right].
    destruct k; simpl in *; [done|]. destruct (Nat.ltb_spec i k), (Nat.ltb_spec (S i) (S k)); done || lia.
  - intros H. split; [destruct (H 0%nat c eq_refl); [by left|right]; by destruct k|].
    intros i d Hd. destruct (H (S i) d Hd) as [|Hi]; [by left|right].
    destruct k; simpl in *; [done|]. destruct (Nat.ltb_spec i k), (Nat.ltb_spec (S i) (S k)); done || lia.
Qed.

Lemma wf_full cs f :
  wf (fullNode cs f) <->
  length cs = 17%nat /\ (forall b c, 0 <= b -> cs !! Z.to_nat b = Some c -> slot_ok b c) /\ two cs.
Proof.
  simpl. rewrite slots_lookup. split; intros (HL & H & Ht); (split; [done|]); (split; [|done]).
  - intros b c Hb Hc. pose proof (lookup_lt_Some _ _ _ Hc). destruct (H _ _ Hc) as [->|Hi]; [by left|right].
    destruct (Nat.ltb_spec (Z.to_nat b) 16); [left|right]; (split; [|done]); unfold nib, terminatorByte; lia.
  - intros i c Hc. pose proof (lookup_lt_Some _ _ _ Hc).
    destruct (H (Z.of_nat i) c ltac:(lia) ltac:(by rewrite Nat2Z.id)) as [|[[Hb ?]|[Hb ?]]]; [by left|right|right];
      unfold nib, terminatorByte in Hb; destruct (Nat.ltb_spec i 16); done || lia.
Qed.

(** The child at the head of a key. *)
Lemma wf_child cs f b k :
  wf (fullNode cs f) -> key (b :: k) -> exists c, cs !! Z.to_nat b = Some c /\ slot_ok b c.
Proof.
  intros (HL & H & _)%wf_full Hk%key_range. destruct (lookup_lt_is_Some_2 cs (Z.to_nat b)) as [c Hc]; [lia|].
  exists c. split; [done|]. apply H; [lia|done].
Qed.

Lemma slot_wf0 b c k : slot_ok b c -> key k -> key (b :: k) -> wf0 c.
Proof.
  intros [->|[[_ H]|[-> _]]] Hk Hb; [by left|by right|].
  apply key_head in Hb as [[Hb _]|[_ ->]]; [unfold nib, terminatorByte in Hb; lia|by inversion Hk].
Qed.

(** What may follow the nibbles [p] of a short node. *)
Definition sub (p : bytes) (val : node) : Prop :=
  (is_value val /\ key p) \/ (exists cs f, val = fullNode cs f /\ wf val /\ Forall nib p).

Lemma wf_short p val f : wf (shortNode p val f) <-> sub p val /\ p <> [].
Proof.
  split.
  - intros H. destruct val as [|cs g|? ? ?|?|v]; simpl in H; try done.
    + destruct H as (Hn & Hp & Hw). split; [|done]. right. by exists cs, g.
    + destruct H as [Hk Hv]. split; [|by apply key_nonempty]. left. split; [by exists v|done].
  - intros [[[(v & -> & Hv) Hk]|(cs & g & -> & Hw & Hp)] Hn]; [by split|exact (conj Hn (conj Hp Hw))].
Qed.

Lemma sub_value k v : key k -> v <> [] -> sub k (valueNode v).
Proof. intros Hk Hv. left. split; [by exists v|done]. Qed.

Lemma sub_newLeaf a p val : sub (a :: p) val -> slot_ok a (newLeaf p val) /\ newLeaf p val <> NilN.
Proof.
  intros [[Hv Hk]|(cs & f & -> & Hw & Hp)].
  - apply key_head in Hk as [[Ha Hk]|[-> ->]].
    + pose proof (key_nonempty p Hk). unfold newLeaf. destruct p; [done|]. split; [|done].
      right; left. split; [done|]. apply wf_short. split; [by left|done].
    + simpl. destruct Hv as (v & -> & Hv). split; [|done]. right; right. split; [done|by exists v].
  - apply Forall_cons in Hp as [Ha Hp]. unfold newLeaf. destruct p as [|x p].
    + split; [|done]. right; left. by split.
    + split; [|done]. right; left. split; [done|]. apply wf_short. split; [|done]. right. by exists cs, f.
Qed.

Lemma sub_app c q val : sub (c ++ q) val -> q <> [] -> Forall nib c /\ sub q val.
Proof.
  intros [[Hv Hk]|(cs & f & -> & Hw & Hp)] Hq.
  - destruct (key_split c q Hk Hq). split; [done|by left].
  - apply Forall_app in Hp as [Hc Hp]. split; [done|]. right. by exists cs, f.
Qed.

Lemma sub_join c q val : Forall nib c -> sub q val -> sub (c ++ q) val.
Proof.
  intros Hc [[Hv Hk]|(cs & f & -> & Hw & Hp)].
  - left. split; [done|]. by apply key_app.
  - right. exists cs, f. split; [done|]. split; [done|]. by apply Forall_app.
Qed.

(** A branch with the children [x] at [a] and [y] at [b]. *)
Definition branch2 (a : Z) (x : node) (b : Z) (y : node) : list node :=
  set_child (set_child (replicate 17 NilN) a x) b y.

Lemma branch2_lookup a x b y i :
  0 <= a <= 16 -> 0 <= b <= 16 -> 0 <= i <= 16 ->
  branch2 a x b y !! Z.to_nat i = Some (if decide (i = b) then y else if decide (i = a) then x else NilN).
Proof.
  intros Ha Hb Hi. unfold branch2. rewrite set_child_lookup.
  2: { unfold set_child, zlen. rewrite length_insert, length_replicate. lia. }
  destruct (decide (i = b)) as [->|Hnb]; [by rewrite decide_True|]. rewrite decide_False by lia.
  rewrite set_child_lookup by (unfold zlen; rewrite length_replicate; lia).
  destruct (decide (i = a)) as [->|Hna]; [by rewrite decide_True|]. rewrite decide_False by lia.
  apply lookup_replicate. split; [done|lia].
Qed.

Lemma branch2_wf a x b y f :
  a <> b -> 0 <= a <= 16 -> 0 <= b <= 16 -> slot_ok a x -> x <> NilN -> slot_ok b y -> y <> NilN ->
  wf (fullNode (branch2 a x b y) f).
Proof.
  intros Hab Ha Hb Hx Hxn Hy Hyn. apply wf_full. split; [|split].
  - unfold branch2, set_child. by rewrite !length_insert.
  - intros i c Hi Hc. pose proof (lookup_lt_Some _ _ _ Hc) as Hl.
    unfold branch2, set_child in Hl. rewrite !length_insert, length_replicate in Hl.
    rewrite branch2_lookup in Hc by lia. injection Hc as <-.
    destruct (decide (i = b)) as [->|]; [done|]. destruct (decide (i = a)) as [->|]; [done|]. by left.
  - exists (Z.to_nat a), (Z.to_nat b), x, y. rewrite !branch2_lookup by lia.
    rewrite (decide_False (P := a = b)), !(decide_True) by done. repeat split; try done. lia.
Qed.

Lemma get_total n k : wf0 n -> key k -> exists r, trie_get n k 0 = TDone r.
Proof.
  revert k. induction n as [|h|w|p val f IH|cs f IH] using node_rect'; intros k Hn Hk; destruct Hn as [|Hn]; try done.
  - by exists None.
  - apply wf_short in Hn as [Hs Hp]. destruct (decide (p `prefix_of` k)) as [[r ->]|Hno].
    + rewrite get_short. destruct Hs as [[(v & -> & _) _]|(cs & g & -> & Hw & Hp')]; [by eexists|].
      apply IH; [by right|by apply key_app in Hk].
    + rewrite get_short_no by done. by eexists.
  - destruct k as [|b k]; [by inversion Hk|]. destruct (wf_child cs f b k Hn Hk) as (c & Ec & Hc).
    pose proof (key_range b k Hk). rewrite get_full, Ec by lia.
    pose proof Hk as [[_ Hk']|[-> ->]]%key_head; [apply (IH _ c Ec); [by eapply slot_wf0|done]|].
    destruct Hc as [->|[[Hb _]|[_ (v & -> & _)]]]; [by eexists|unfold nib, terminatorByte in Hb; lia|by eexists].
Qed.

(** ** Insertion *)

Lemma drop_middle {A} (c : list A) x l : drop (S (length c)) (c ++ x :: l) = l.
Proof. replace (S (length c)) with (length c + 1)%nat by lia. by rewrite drop_app_add. Qed.

Definition inserted (n n' : node) (k v : bytes) : Prop :=
  wf n' /\ forall k', key k' ->
    trie_get n' k' 0 = if decide (k' = k) then TDone (Some v) else trie_get n k' 0.

Lemma newLeaf_inserted b k v k' :
  key (b :: k) -> key (b :: k') ->
  trie_get (newLeaf k (valueNode v)) k' 0 = if decide (k' = k) then TDone (Some v) else TDone None.
Proof.
  intros Hk Hk'. rewrite (newLeaf_get b _ _ dirtyFlag). destruct (decide (k' = k)) as [->|Hn].
  - apply get_leaf.
  - apply get_short_no. intros [r Hr]. pose proof Hk' as Hk2. rewrite Hr in Hk2.
    apply key_prefix in Hk2; [|done]. subst r. rewrite app_nil_r in Hr. congruence.
Qed.

Lemma splitShort_ok c a p b k val v f :
  a <> b -> sub (c ++ a :: p) val -> key (c ++ b :: k) -> v <> [] ->
  exists n', splitShort (c ++ a :: p) val (c ++ b :: k) (valueNode v) (length c) = TDone n' /\
    inserted (shortNode (c ++ a :: p) val f) n' (c ++ b :: k) v.
Proof.
  intros Hab Hs Hk Hv. destruct (sub_app c (a :: p) val Hs ltac:(done)) as [Hc Hsa].
  apply key_app in Hk; [|done]. pose proof (key_range b k Hk) as Hb.
  assert (0 <= a <= 16) as Ha.
  { destruct Hsa as [[_ H]|(? & ? & _ & _ & H)]; [by apply key_range in H|].
    apply Forall_cons in H as [H _]. unfold nib in H. lia. }
  destruct (sub_newLeaf a p val Hsa) as [Hx Hxn].
  destruct (sub_newLeaf b k (valueNode v) (sub_value _ _ Hk Hv)) as [Hy Hyn].
  set (x := newLeaf p val) in *. set (y := newLeaf k (valueNode v)) in *.
  pose proof (branch2_wf a x b y dirtyFlag Hab Ha Hb Hx Hxn Hy Hyn) as Hw.
  eexists. split.
  { unfold splitShort. rewrite !list_lookup_middle by done.
    rewrite !drop_middle. destruct (Z.ltb_spec 16 a), (Z.ltb_spec 16 b); try lia. simpl.
    rewrite take_app_length. fold x y. reflexivity. }
  assert (forall i r, key (i :: r) -> trie_get (fullNode (branch2 a x b y) dirtyFlag) (i :: r) 0
     = if decide (i :: r = b :: k) then TDone (Some v)
       else trie_get (shortNode (a :: p) val f) (i :: r) 0) as Hget.
  { intros i r Hir. pose proof (key_range i r Hir). rewrite get_full, branch2_lookup by lia.
    destruct (decide (i = b)) as [->|Hib]; [|destruct (decide (i = a)) as [->|Hia]].
    - unfold y. rewrite (newLeaf_inserted b) by done. destruct (decide (r = k)) as [->|Hr].
      + by rewrite decide_True.
      + rewrite decide_False by congruence. rewrite get_short_no; [done|].
        intros [z Hz]. simplify_list_eq.
    - rewrite decide_False by congruence. apply newLeaf_get.
    - rewrite decide_False by congruence. rewrite get_short_no; [done|]. intros [z Hz]. simplify_list_eq. }
  fold (branch2 a x b y). destruct c as [|c0 c]; simpl length; cbn [Nat.ltb Nat.leb].
  - split; [done|]. intros [|i r] Hir; [by inversion Hir|]. by apply Hget.
  - set (c' := c0 :: c) in *. split.
    { apply wf_short. split; [|done]. right. by exists (branch2 a x b y), dirtyFlag. }
    intros k' Hk'. destruct (decide (c' `prefix_of` k')) as [[r ->]|Hno].
    + rewrite get_short. apply key_app in Hk'; [|done]. destruct r as [|i r]; [by inversion Hk'|].
      rewrite Hget by done. destruct (decide (i :: r = b :: k)) as [Hr|Hr].
      * rewrite decide_True by congruence. done.
      * rewrite decide_False by (intros E; simplify_list_eq; congruence).
        destruct (decide ((a :: p) `prefix_of` (i :: r))) as [[z ->]|Hz].
        -- by rewrite get_short, app_assoc, get_short.
        -- rewrite !get_short_no; [done| |done]. by intros ?%prefix_app_inv.
    + rewrite get_short_no by done. rewrite decide_False by (intros ->; apply Hno; by exists (b :: k)).
      rewrite get_short_no; [done|]. intros Hp. apply Hno. etrans; [|exact Hp]. by exists (a :: p).
Qed.

(** Replacing the child at the head of a key. *)
Lemma set_child_get cs f b c k' x :
  0 <= b < zlen cs -> 0 <= x ->
  trie_get (fullNode (set_child cs b c) f) (x :: k') 0
  = if decide (x = b) then trie_get c k' 0 else trie_get (fullNode cs f) (x :: k') 0.
Proof.
  intros Hb Hx. rewrite !get_full, set_child_lookup by done.
  destruct (decide (x = b)) as [->|Hn]; [by rewrite decide_True|]. by rewrite decide_False by lia.
Qed.

Lemma set_child_slots cs f b c :
  wf (fullNode cs f) -> 0 <= b <= 16 -> slot_ok b c ->
  length (set_child cs b c) = 17%nat /\
  forall x d, 0 <= x -> set_child cs b c !! Z.to_nat x = Some d -> slot_ok x d.
Proof.
  intros (HL & H & _)%wf_full Hb Hc. unfold set_child at 1. rewrite length_insert. split; [done|].
  intros x d Hx. rewrite set_child_lookup by (unfold zlen; lia).
  destruct (decide (Z.to_nat x = Z.to_nat b)) as [E|_]; [|by apply H].
  intros [= <-]. replace x with b by lia. done.
Qed.

Lemma two_set cs b c :
  two cs -> c <> NilN -> (0 <= b < zlen cs) -> two (set_child cs b c).
Proof.
  intros (i & j & x & y & Hij & Hi & Hx & Hj & Hy) Hc Hb.
  exists i, j, (if decide (i = Z.to_nat b) then c else x), (if decide (j = Z.to_nat b) then c else y).
  rewrite !set_child_lookup by done. by repeat split; repeat case_decide.
Qed.

Lemma newLeaf_ok k v : key k -> v <> [] -> inserted NilN (shortNode k (valueNode v) dirtyFlag) k v.
Proof.
  intros Hk Hv. split; [by apply wf_short; split; [by apply sub_value|by apply key_nonempty]|].
  intros k' Hk'. destruct (decide (k' = k)) as [->|Hne].
  - apply get_leaf.
  - apply get_short_no. intros [r ->]. apply key_prefix in Hk' as ->; [|done]. by rewrite app_nil_r in Hne.
Qed.

(** Insertion below a short node whose nibbles the key has. *)
Lemma insert_below_ok p val f k v n' :
  p <> [] -> Forall nib p -> (exists cs g, n' = fullNode cs g) -> inserted val n' k v ->
  inserted (shortNode p val f) (shortNode p n' dirtyFlag) (p ++ k) v.
Proof.
  intros Hn Hp (cs & g & ->) [Hw Hg]. split.
  - apply wf_short. split; [|done]. right. by exists cs, g.
  - intros k' Hk'. destruct (decide (p `prefix_of` k')) as [[r ->]|Hno].
    + rewrite !get_short. apply key_app in Hk'; [|done]. rewrite Hg by done.
      by repeat case_decide; simplify_list_eq.
    + rewrite !get_short_no by done. rewrite decide_False; [done|]. intros ->. apply Hno. by exists k.
Qed.

Lemma insert_short_unfold p val f k v :
  k <> [] ->
  trie_insert (shortNode p val f) k v
  = if (prefixLen k p =? length p)%nat
    then let* nn := trie_insert val (drop (prefixLen k p) k) v in TDone (shortNode p nn dirtyFlag)
    else splitShort p val k (valueNode v) (prefixLen k p).
Proof. by destruct k. Qed.

(** A branch stays one. *)
Lemma insert_full_form cs g k v n' :
  key k -> trie_insert (fullNode cs g) k v = TDone n' -> exists cs' g', n' = fullNode cs' g'.
Proof.
  destruct k as [|b k]; [by inversion 1|]. intros _. simpl. destruct (at_child _ cs b); [|done..].
  intros [= <-]. by eexists _, _.
Qed.

Lemma insert_short_ok p val f k v :
  (forall k, key k -> wf0 val -> exists n', trie_insert val k v = TDone n' /\ inserted val n' k v) ->
  wf (shortNode p val f) -> key k -> v <> [] ->
  exists n', trie_insert (shortNode p val f) k v = TDone n' /\ inserted (shortNode p val f) n' k v.
Proof.
  intros IH [Hs Hp]%wf_short Hk Hv. rewrite insert_short_unfold by (by apply key_nonempty).
  destruct (prefixLen_spec k p) as (c & k1 & p1 & -> & -> & -> & Hd). destruct p1 as [|a p1].
  - rewrite app_nil_r, Nat.eqb_refl, drop_app_length. rewrite app_nil_r in Hs, Hp.
    destruct Hs as [[(w & -> & Hw) Hc]|(cs & g & -> & Hw & Hc)].
    + apply key_prefix in Hk as ->; [|done]. simpl. eexists. split; [done|]. rewrite app_nil_r.
      destruct (newLeaf_ok c v Hc Hv) as [Hl Hg]. split; [done|]. intros k' Hk'. rewrite Hg by done.
      destruct (decide (k' = c)) as [->|Hne]; [done|]. rewrite get_short_no; [done|].
      intros [r ->]. apply key_prefix in Hk' as ->; [|done]. by rewrite app_nil_r in Hne.
    + apply key_app in Hk; [|done]. destruct (IH k1 Hk) as (n' & E & Hi); [by right|].
      rewrite E. simpl. eexists. split; [done|]. apply insert_below_ok; try done. by eapply insert_full_form.
  - destruct k1 as [|b k1].
    { exfalso. rewrite app_nil_r in Hk. destruct Hs as [[_ Hs]|(? & ? & _ & _ & Hs)].
      - by apply key_prefix in Hs.
      - apply Forall_app in Hs as [Hc _]. rewrite <- (app_nil_r c) in Hk. apply key_app in Hk; [by inversion Hk|done]. }
    destruct (Nat.eqb_spec (length c) (length (c ++ a :: p1))) as [E|_].
    { rewrite length_app in E. simpl in E. lia. }
    by apply splitShort_ok.
Qed.

(** Insertion into a child, which may be the value of the branch. *)
Lemma insert_slot_ok b c k v :
  (forall k, key k -> wf0 c -> exists n', trie_insert c k v = TDone n' /\ inserted c n' k v) ->
  slot_ok b c -> key (b :: k) -> v <> [] ->
  exists c', trie_insert c k v = TDone c' /\ slot_ok b c' /\ c' <> NilN /\
    forall k', key (b :: k') -> trie_get c' k' 0 = if decide (k' = k) then TDone (Some v) else trie_get c k' 0.
Proof.
  intros IH Hc Hbk Hv. pose proof Hbk as Hk. apply key_head in Hk as [[Hb Hk]|[-> ->]].
  - destruct (IH k Hk) as (c' & E & Hw & Hg); [by eapply slot_wf0|].
    exists c'. split; [done|]. split; [right; left; by split|]. split; [by intros ->|].
    intros k' [[_ Hk']|[-> _]]%key_head; [by apply Hg|unfold nib, terminatorByte in Hb; lia].
  - exists (valueNode v). split; [by destruct c|]. split; [right; right; split; [done|by exists v]|].
    split; [done|]. intros k' [[H _]|[_ ->]]%key_head; [unfold nib, terminatorByte in H; lia|done].
Qed.

Lemma insert_ok n k v : wf0 n -> key k -> v <> [] ->
  exists n', trie_insert n k v = TDone n' /\ inserted n n' k v.
Proof.
  intros Hn Hk Hv. revert k Hk Hn.
  induction n as [|h|w|p val f IH|cs f IH] using node_rect'; intros k Hk [|Hn]; try done.
  - eexists. split; [by destruct Hk|]. by apply newLeaf_ok.
  - by apply insert_short_ok.
  - destruct k as [|b k]; [by inversion Hk|]. destruct (wf_child cs f b k Hn Hk) as (c & Ec & Hc).
    pose proof (key_range b k Hk) as Hb. pose proof (proj1 (proj1 (wf_full cs f) Hn)) as HL.
    destruct (insert_slot_ok b c k v (IH _ _ Ec) Hc Hk Hv) as (c' & Ei & Hc' & Hn' & Hg).
    simpl. rewrite at_child_lookup, Ec, Ei by lia. simpl. eexists. split; [done|].
    destruct (set_child_slots cs f b c' Hn Hb Hc') as [HL' Hsl]. split.
    + apply wf_full. split; [done|]. split; [done|]. apply two_set; [|done|unfold zlen; lia].
      by apply wf_full in Hn as (_ & _ & ?).
    + intros [|x k'] Hk'; [by inversion Hk'|]. pose proof (key_range _ _ Hk').
      rewrite set_child_get by (unfold zlen; lia). destruct (decide (x = b)) as [->|Hne].
      * rewrite Hg by done. rewrite (get_full cs f b k'), Ec by lia. by repeat case_decide; simplify_eq.
      * rewrite decide_False by congruence. by rewrite !get_full by lia.
Qed.

(** ** Deletion *)

Definition deleted (n n' : node) (k : bytes) : Prop :=
  wf0 n' /\ forall k', key k' -> trie_get n' k' 0 = if decide (k' = k) then TDone None else trie_get n k' 0.

(** A branch that lost a child is a trie with the same lookups. *)
Lemma collapseBranch_ok cs :
  length cs = 17%nat -> (forall b c, 0 <= b -> cs !! Z.to_nat b = Some c -> slot_ok b c) ->
  wf0 (collapseBranch cs) /\
  forall k, key k -> trie_get (collapseBranch cs) k 0 = trie_get (fullNode cs dirtyFlag) k 0.
Proof.
  intros HL Hs. unfold collapseBranch. pose proof (remaining_cases cs) as HR.
  destruct (remaining cs) as [|[i c] [|jd l]].
  - split; [by left|]. intros [|b k] Hk; [by inversion Hk|]. pose proof (key_range b k Hk).
    rewrite get_full by lia. destruct (lookup_lt_is_Some_2 cs (Z.to_nat b)) as [c Hc]; [lia|].
    by rewrite Hc, (HR _ _ Hc).
  - destruct HR as (Hi & Hn & Ho). pose proof (lookup_lt_Some _ _ _ Hi) as Hl.
    specialize (Hs (Z.of_nat i) c ltac:(lia) ltac:(by rewrite Nat2Z.id)).
    assert (forall k, key k -> trie_get (shortNode [Z.of_nat i] c dirtyFlag) k 0
                               = trie_get (fullNode cs dirtyFlag) k 0) as Hg.
    { intros [|b k] Hk; [by inversion Hk|]. pose proof (key_range b k Hk). rewrite get_full by lia.
      destruct (decide (b = Z.of_nat i)) as [->|Hb].
      - rewrite Nat2Z.id, Hi. apply (get_short [Z.of_nat i]).
      - rewrite get_short_no by (intros [z Hz]; simplify_list_eq).
        destruct (lookup_lt_is_Some_2 cs (Z.to_nat b)) as [d Hd]; [lia|].
        by rewrite Hd, (Ho _ _ Hd ltac:(lia)). }
    destruct (Nat.eqb_spec i 16) as [->|H16].
    + split; [|exact Hg]. destruct Hs as [|[[Hs _]|[_ (v & -> & Hv)]]]; [done|unfold nib in Hs; lia|].
      right. split; [constructor|done].
    + destruct Hs as [|[[Hs Hw]|[Hs _]]]; [done| |unfold terminatorByte in Hs; lia].
      destruct c as [|cs' f|p val f|?|?]; try done.
      * split; [|exact Hg]. right. apply wf_short. split; [|done]. right. exists cs', f. split; [done|].
        split; [done|]. by constructor.
      * split.
        -- right. apply wf_short in Hw as [Hw _]. apply wf_short. split; [|done].
           apply (sub_join [Z.of_nat i]); [by constructor|done].
        -- intros k Hk. rewrite <- Hg by done. destruct k as [|b k]; [by inversion Hk|].
           destruct (decide (b = Z.of_nat i)) as [->|Hb].
           ++ by rewrite get_short1, (get_short_cons _ _ _ _ f).
           ++ rewrite !get_short_no; [done| |]; intros [z Hz]; simplify_list_eq.
  - split; [|done]. right. by apply wf_full.
Qed.

Lemma mergeShort_ok p child f (g0 : nodeFlag) k n :
  p <> [] -> Forall nib p -> deleted n child k ->
  deleted (shortNode p n f) (mergeShort p child) (p ++ k).
Proof.
  intros Hn Hp [Hw Hg].
  assert (forall k', key k' -> trie_get (mergeShort p child) k' 0 = trie_get (shortNode p child g0) k' 0) as Hm.
  { intros k' Hk'. destruct child as [|cs f'|p' val f'|h|v]; simpl mergeShort; try done.
    - destruct (decide (p `prefix_of` k')) as [[r ->]|Hno]; [by rewrite get_short|by rewrite get_short_no].
    - destruct (decide (p `prefix_of` k')) as [[r ->]|Hno].
      + rewrite get_short. destruct (decide (p' `prefix_of` r)) as [[r' ->]|Hno].
        * by rewrite app_assoc, !get_short.
        * rewrite !get_short_no; [done|done|]. by intros ?%prefix_app_inv.
      + rewrite !get_short_no; [done|done|]. intros H. apply Hno. etrans; [|exact H]. by exists p'. }
  split.
  - destruct Hw as [->|Hw]; [by left|]. right. destruct child as [|cs f'|p' val f'|h|v]; cbn [mergeShort]; try done.
    apply wf_short in Hw as [Hs _]. apply wf_short. split; [by apply sub_join|by destruct p].
  - intros k' Hk'. rewrite Hm by done. destruct (decide (p `prefix_of` k')) as [[r ->]|Hno].
    + rewrite !get_short. apply key_app in Hk'; [|done]. rewrite Hg by done.
      by repeat case_decide; simplify_list_eq.
    + rewrite !get_short_no by done. rewrite decide_False; [done|]. intros ->. apply Hno. by exists k.
Qed.

Lemma delete_short_ok p val f k :
  (forall k, key k -> wf0 val -> exists n', trie_delete val k = TDone n' /\ deleted val n' k) ->
  wf (shortNode p val f) -> key k ->
  exists n', trie_delete (shortNode p val f) k = TDone n' /\ deleted (shortNode p val f) n' k.
Proof.
  intros IH Hw Hk. pose proof Hw as [Hs Hp]%wf_short. simpl.
  destruct (prefixLen_spec k p) as (c & k1 & p1 & -> & -> & -> & Hd). destruct p1 as [|a p1].
  - rewrite app_nil_r, Nat.ltb_irrefl, length_app. rewrite app_nil_r in Hs, Hp, Hw.
    destruct Hs as [[Hv Hc]|(cs & g & -> & Hwv & Hc)].
    + apply key_prefix in Hk as ->; [|done]. simpl. rewrite Nat.add_0_r, Nat.eqb_refl. eexists. split; [done|].
      split; [by left|]. intros k' Hk'. rewrite app_nil_r. destruct (decide (k' = c)) as [->|Hne]; [done|].
      rewrite get_short_no; [done|]. intros [r ->]. apply key_prefix in Hk' as ->; [|done]. by rewrite app_nil_r in Hne.
    + apply key_app in Hk; [|done]. pose proof (key_nonempty k1 Hk). destruct k1 as [|b k1]; [done|].
      destruct (Nat.eqb_spec (length c) (length c + length (b :: k1))) as [E|_]; [simpl in E; lia|].
      rewrite drop_app_length. destruct (IH _ Hk) as (n' & E & Hi); [by right|]. rewrite E. eexists. split; [done|].
      by apply (mergeShort_ok c n' f f).
  - destruct (Nat.ltb_spec (length c) (length (c ++ a :: p1))) as [_|E].
    2: { rewrite length_app in E. simpl in E. lia. }
    eexists. split; [done|]. split; [by right|]. intros k' Hk'. destruct (decide (k' = c ++ k1)) as [->|]; [|done].
    apply get_short_no. intros Hpre. apply prefix_app_inv in Hpre as [z ->]. by destruct Hd.
Qed.

Lemma delete_slot_ok b c k :
  (forall k, key k -> wf0 c -> exists n', trie_delete c k = TDone n' /\ deleted c n' k) ->
  slot_ok b c -> key (b :: k) ->
  exists c', trie_delete c k = TDone c' /\ slot_ok b c' /\
    forall k', key (b :: k') -> trie_get c' k' 0 = if decide (k' = k) then TDone None else trie_get c k' 0.
Proof.
  intros IH Hc Hbk. pose proof Hbk as Hk. apply key_head in Hk as [[Hb Hk]|[-> ->]].
  - destruct (IH k Hk) as (c' & E & Hw & Hg); [by eapply slot_wf0|].
    exists c'. split; [done|]. split; [destruct Hw; [by left|right; left; by split]|].
    intros k' [[_ Hk']|[-> _]]%key_head; [by apply Hg|unfold nib, terminatorByte in Hb; lia].
  - exists NilN. split; [|split; [by left|]].
    + destruct Hc as [->|[[Hc _]|[_ (v & -> & _)]]]; [done|unfold nib, terminatorByte in Hc; lia|done].
    + intros k' [[H _]|[_ ->]]%key_head; [unfold nib, terminatorByte in H; lia|done].
Qed.

Lemma delete_ok n k : wf0 n -> key k -> exists n', trie_delete n k = TDone n' /\ deleted n n' k.
Proof.
  intros Hn Hk. revert k Hk Hn.
  induction n as [|h|w|p val f IH|cs f IH] using node_rect'; intros k Hk [|Hn]; try done.
  - eexists. split; [done|]. split; [by left|]. intros k' _. by case_decide.
  - by apply delete_short_ok.
  - destruct k as [|b k]; [by inversion Hk|]. destruct (wf_child cs f b k Hn Hk) as (c & Ec & Hc).
    pose proof (key_range b k Hk) as Hb. pose proof (proj1 (proj1 (wf_full cs f) Hn)) as HL.
    destruct (delete_slot_ok b c k (IH _ _ Ec) Hc Hk) as (c' & Ei & Hc' & Hg).
    simpl. rewrite at_child_lookup, Ec, Ei by lia. simpl. eexists. split; [done|].
    destruct (set_child_slots cs f b c' Hn Hb Hc') as [HL' Hsl].
    destruct (collapseBranch_ok _ HL' Hsl) as [Hw' Hg']. split; [done|].
    intros [|x k'] Hk'; [by inversion Hk'|]. pose proof (key_range _ _ Hk'). rewrite Hg' by done.
    rewrite set_child_get by (unfold zlen; lia). destruct (decide (x = b)) as [->|Hne].
    + rewrite Hg by done. rewrite (get_full cs f b k'), Ec by lia. by repeat case_decide; simplify_eq.
    + rewrite decide_False by congruence. by rewrite !get_full by lia.
Qed.

(** ** One form per content *)

(** The trie without its cached hashes. *)
Fixpoint erase (n : node) : node :=
  match n with
  | shortNode k val _ => shortNode k (erase val) dirtyFlag
  | fullNode cs _ => fullNode (map erase cs) dirtyFlag
  | _ => n
  end.

Definition found (n : node) (k : bytes) : Prop := key k /\ exists v, trie_get n k 0 = TDone (Some v).

Lemma short_found p val f k : found (shortNode p val f) k -> p `prefix_of` k.
Proof.
  intros [_ [v Hv]]. destruct (decide (p `prefix_of` k)) as [|Hno]; [done|]. by rewrite get_short_no in Hv.
Qed.

Lemma child_found cs f b c k : 0 <= b -> cs !! Z.to_nat b = Some c -> key (b :: k) ->
  (exists v, trie_get c k 0 = TDone (Some v)) -> found (fullNode cs f) (b :: k).
Proof. intros Hb Hc Hk [v Hv]. split; [done|]. exists v. by rewrite get_full, Hc. Qed.

Lemma wf_found n : wf n -> exists k, found n k.
Proof.
  induction n as [|h|w|p val f IH|cs f IH] using node_rect'; intros Hn; try done.
  - apply wf_short in Hn as [[[(v & -> & Hv) Hk]|(cs & g & -> & Hw & Hp)] Hne].
    + exists p. split; [done|]. exists v. apply get_leaf.
    + destruct (IH Hw) as (k & Hk & v & Hv). exists (p ++ k). split; [by apply key_app|]. exists v. by rewrite get_short.
  - pose proof Hn as (HL & Hs & (i & _ & c & _ & _ & Hi & Hc & _))%wf_full.
    specialize (Hs (Z.of_nat i) c ltac:(lia) ltac:(by rewrite Nat2Z.id)).
    destruct Hs as [|[[Hb Hw]|[Hb (v & -> & Hv)]]]; [done| |].
    + destruct (IH i c Hi Hw) as (k & Hk & v & Hv). exists (Z.of_nat i :: k).
      apply (child_found cs f _ c); [lia|by rewrite Nat2Z.id|by constructor|by exists v].
    + exists [Z.of_nat i]. apply (child_found cs f _ (valueNode v)); [lia|by rewrite Nat2Z.id| |by exists v].
      rewrite Hb. constructor.
Qed.

(** Every child of a branch is on the path of some key. *)
Lemma full_found cs f i c :
  wf (fullNode cs f) -> cs !! i = Some c -> c <> NilN -> exists k, found (fullNode cs f) (Z.of_nat i :: k).
Proof.
  intros (_ & Hs & _)%wf_full Hi Hc.
  specialize (Hs (Z.of_nat i) c ltac:(lia) ltac:(by rewrite Nat2Z.id)).
  destruct Hs as [|[[Hb Hw]|[Hb (v & -> & Hv)]]]; [done| |].
  - destruct (wf_found c Hw) as (k & Hk & Hv). exists k.
    apply (child_found cs f _ c); [lia|by rewrite Nat2Z.id|by constructor|done].
  - exists []. apply (child_found cs f _ (valueNode v)); [lia|by rewrite Nat2Z.id| |by exists v].
    rewrite Hb. constructor.
Qed.

Lemma full_two cs f :
  wf (fullNode cs f) -> exists x y k l, x <> y /\ found (fullNode cs f) (x :: k) /\ found (fullNode cs f) (y :: l).
Proof.
  intros Hw. pose proof Hw as (_ & _ & (i & j & c & d & Hij & Hi & Hc & Hj & Hd))%wf_full.
  destruct (full_found cs f i c Hw Hi Hc) as [k Hk]. destruct (full_found cs f j d Hw Hj Hd) as [l Hl].
  exists (Z.of_nat i), (Z.of_nat j), k, l. split; [lia|done].
Qed.

Definition same_content (n m : node) : Prop := forall k, key k -> trie_get n k 0 = trie_get m k 0.

Lemma same_found n m k : same_content n m -> found n k -> found m k.
Proof. intros H [Hk Hv]. split; [done|]. by rewrite <- H. Qed.

Lemma same_sym n m : same_content n m -> same_content m n.
Proof. intros H k Hk. symmetry. by apply H. Qed.

(** A branch and a short node do not hold the same keys. *)
Lemma short_full p val f cs g :
  p <> [] -> wf (fullNode cs g) -> same_content (fullNode cs g) (shortNode p val f) -> False.
Proof.
  intros Hp Hw H. destruct (full_two cs g Hw) as (x & y & k & l & Hxy & Hx & Hy).
  apply (same_found _ _ _ H), short_found in Hx, Hy. destruct p as [|a p]; [done|].
  apply prefix_cons_inv_1 in Hx, Hy. congruence.
Qed.

(** The nibbles of an extension are the longest common prefix of its keys. *)
Lemma ext_prefix p q cs g val f f' :
  Forall nib p -> wf (fullNode cs g) ->
  same_content (shortNode p (fullNode cs g) f) (shortNode q val f') -> q `prefix_of` p.
Proof.
  intros Hp Hw H. destruct (full_two cs g Hw) as (x & y & k & l & Hxy & [Hkx [v Hx]] & [Hky [w Hy]]).
  assert (forall z, key z -> (exists v, trie_get (fullNode cs g) z 0 = TDone (Some v)) ->
          q `prefix_of` p ++ z) as Hq.
  { intros z Hz [u Hu]. eapply short_found, (same_found _ _ _ H). split; [by apply key_app|].
    exists u. by rewrite get_short. }
  pose proof (Hq _ Hkx ltac:(by exists v)) as H1. pose proof (Hq _ Hky ltac:(by exists w)) as H2.
  clear -H1 H2 Hxy. revert q H1 H2. induction p as [|a p IH]; intros [|b q] H1 H2; simpl in *.
  - done.
  - apply prefix_cons_inv_1 in H1, H2. congruence.
  - apply prefix_nil.
  - pose proof (prefix_cons_inv_1 _ _ _ _ H1) as ->. apply prefix_cons_inv_2 in H1, H2.
    by apply prefix_cons, IH.
Qed.

(** A leaf holds one key, an extension two. *)
Lemma leaf_ext p v f q cs g f' :
  key p -> Forall nib q -> wf (fullNode cs g) ->
  same_content (shortNode q (fullNode cs g) f') (shortNode p (valueNode v) f) -> False.
Proof.
  intros Hk Hq Hw H. destruct (full_two cs g Hw) as (x & y & k & l & Hxy & [Hkx Hx] & [Hky Hy]).
  assert (forall z, key z -> (exists v, trie_get (fullNode cs g) z 0 = TDone (Some v)) -> q ++ z = p) as Hz.
  { intros z Hz [u Hu]. assert (found (shortNode p (valueNode v) f) (q ++ z)) as Hf.
    { apply (same_found _ _ _ H). split; [by apply key_app|]. exists u. by rewrite get_short. }
    pose proof (proj1 Hf) as Hkz. apply short_found in Hf as [r Hr]. rewrite Hr in Hkz.
    apply key_prefix in Hkz as ->; [|done]. by rewrite app_nil_r in Hr. }
  pose proof (Hz _ Hkx Hx). pose proof (Hz _ Hky Hy). simplify_list_eq.
Qed.

Lemma canonical_shorts p val f q val' f' :
  (forall m, wf0 val -> wf0 m -> same_content val m -> erase val = erase m) ->
  wf (shortNode p val f) -> wf (shortNode q val' f') ->
  same_content (shortNode p val f) (shortNode q val' f') -> p = q /\ erase val = erase val'.
Proof.
  intros IH [Hs Hp]%wf_short [Hs' Hq]%wf_short H.
  destruct Hs as [[(v & -> & Hv) Hk]|(cs & g & -> & Hw & Hn)],
           Hs' as [[(v' & -> & Hv') Hk']|(cs' & g' & -> & Hw' & Hn')].
  - assert (p = q) as <-.
    { assert (found (shortNode q (valueNode v') f') p) as [r ->]%short_found.
      { apply (same_found _ _ _ H). split; [done|]. exists v. apply get_leaf. }
      apply key_prefix in Hk as ->; [|done]. by rewrite app_nil_r. }
    split; [done|]. specialize (H p Hk). rewrite !get_leaf in H. simpl. congruence.
  - destruct (leaf_ext p v f q cs' g' f'); try done. by apply same_sym.
  - by destruct (leaf_ext q v' f' p cs g f).
  - assert (p = q) as <-.
    { pose proof (ext_prefix p q cs g _ f f' Hn Hw H) as [r1 ->].
      pose proof (ext_prefix q (q ++ r1) cs' g' _ f' f Hn' Hw' (same_sym _ _ H)) as [r2 E].
      rewrite <- app_assoc in E. rewrite <- (app_nil_r q) in E at 1. simplify_list_eq.
      destruct r1; [by rewrite app_nil_r|done]. }
    split; [done|]. apply IH; [by right|by right|]. intros k Hk.
    specialize (H (p ++ k) ltac:(by apply key_app)). by rewrite !get_short in H.
Qed.

Lemma canonical_full cs f cs' f' :
  (forall i c m, cs !! i = Some c -> wf0 c -> wf0 m -> same_content c m -> erase c = erase m) ->
  wf (fullNode cs f) -> wf (fullNode cs' f') -> same_content (fullNode cs f) (fullNode cs' f') ->
  map erase cs = map erase cs'.
Proof.
  intros IH Hw Hw' H. pose proof Hw as (HL & Hs & _)%wf_full. pose proof Hw' as (HL' & Hs' & _)%wf_full.
  apply list_eq_same_length with 17%nat; [by rewrite length_map..|].
  intros i x y Hi Hx Hy. rewrite list_lookup_fmap in Hx, Hy.
  apply fmap_Some in Hx as (c & Hc & ->), Hy as (d & Hd & ->).
  specialize (Hs (Z.of_nat i) c ltac:(lia) ltac:(by rewrite Nat2Z.id)).
  specialize (Hs' (Z.of_nat i) d ltac:(lia) ltac:(by rewrite Nat2Z.id)).
  assert (forall k, key (Z.of_nat i :: k) -> trie_get c k 0 = trie_get d k 0) as Hcd.
  { intros k Hk. specialize (H _ Hk). by rewrite !get_full, !Nat2Z.id, Hc, Hd in H by lia. }
  destruct (decide (i = 16%nat)) as [->|H16].
  - specialize (Hcd [] ltac:(constructor)).
    destruct Hs as [->|[[Hb _]|[_ (v & -> & Hv)]]]; [|unfold nib in Hb; lia|];
      (destruct Hs' as [->|[[Hb' _]|[_ (v' & -> & Hv')]]]; [|unfold nib in Hb'; lia|]); simpl in Hcd; congruence.
  - assert (nib (Z.of_nat i)) as Hb by (unfold nib; lia).
    apply (IH i c d Hc).
    + destruct Hs as [->|[[_ Hc']|[Hb' _]]]; [by left|by right|unfold terminatorByte in Hb'; lia].
    + destruct Hs' as [->|[[_ Hc']|[Hb' _]]]; [by left|by right|unfold terminatorByte in Hb'; lia].
    + intros k Hk. apply Hcd. by constructor.
Qed.

(** Tries with the same lookups are equal up to their cached hashes. *)
Lemma wf_canonical n m : wf0 n -> wf0 m -> same_content n m -> erase n = erase m.
Proof.
  revert m. assert (forall n, wf n -> same_content n NilN -> False) as Hnil.
  { clear n. intros n Hw H. destruct (wf_found n Hw) as [k [_ [v Hv]]%(same_found _ _ _ H)]. done. }
  induction n as [|h|w|p val f IH|cs f IH] using node_rect'; intros m [Ez|Hn] [->|Hm] H; try done.
  - by destruct (Hnil m Hm (same_sym _ _ H)).
  - by destruct (Hnil _ Hn H).
  - destruct m as [|cs' f'|q val' f'|?|?]; try done.
    + destruct (short_full p val f cs' f'); [by apply wf_short in Hn as [_ ?]|done|by apply same_sym].
    + simpl. by destruct (canonical_shorts p val f q val' f' IH Hn Hm H) as [-> ->].
  - by destruct (Hnil _ Hn H).
  - destruct m as [|cs' f'|q val' f'|?|?]; try done.
    + simpl. f_equal. by apply (canonical_full cs f cs' f' (fun i c m Hc => IH i c Hc m)).
    + destruct (short_full q val' f' cs f); [by apply wf_short in Hm as [_ ?]|done|done].
Qed.

Lemma erase_lookup cs cs' i c :
  map erase cs = map erase cs' -> cs !! i = Some c -> exists d, cs' !! i = Some d /\ erase c = erase d.
Proof.
  intros E Hc. assert (map erase cs !! i = Some (erase c)) as H by (by apply list_lookup_fmap_Some_2).
  rewrite E in H. apply list_lookup_fmap_Some_1 in H as (d & Hd & Ed). by exists d.
Qed.

Lemma erase_nil n m : erase n = erase m -> n = NilN -> m = NilN.
Proof. intros E ->. by destruct m. Qed.

Lemma get_erase n k pos : trie_get (erase n) k pos = trie_get n k pos.
Proof.
  revert pos. induction n as [|h|v|p val f IH|cs f IH] using node_rect'; intros pos; try done; simpl.
  - by rewrite IH.
  - assert (forall q i, at_child (fun c => trie_get c k q) (map erase cs) i
                        = at_child (fun c => trie_get c k q) cs i) as E; [|by destruct (k !! pos)].
    intros q. clear pos. induction cs as [|c cs IHc]; intros i; [done|]. simpl.
    rewrite (IH 0%nat c eq_refl), IHc; [done|]. intros j d Hd. by apply (IH (S j)).
Qed.

Lemma wf_erase n m : erase n = erase m -> wf n -> wf m.
Proof.
  revert m. induction n as [|h|w|p val f IH|cs f IH] using node_rect'; intros m E Hn; try done.
  - destruct m as [|? ?|q val' f'|?|?]; try done. simpl in E. simplify_eq.
    apply wf_short in Hn as [Hs Hp]. apply (wf_short q val' f'). split; [|done].
    destruct Hs as [[(v & -> & Hv) Hk]|(cs & g & -> & Hw & Hk)].
    + left. split; [|done]. exists v. by destruct val'; simplify_eq/=.
    + right. destruct val' as [|cs' g'|? ? ?|?|?]; try done. exists cs', g'. split; [done|]. split; [by apply IH|done].
  - destruct m as [|cs' f'|? ? ?|?|?]; try done. simpl in E. injection E as E.
    apply wf_full in Hn as (HL & Hs & (i & j & c & d & Hij & Hi & Hc & Hj & Hd)). apply (wf_full cs' f').
    split; [by rewrite <- (length_map erase), <- E, length_map|]. split.
    + intros b x Hb Hx. destruct (erase_lookup cs' cs _ x (eq_sym E) Hx) as (y & Hy & Exy).
      destruct (Hs b y Hb Hy) as [->|[[Hbn Hw]|[Hbn (v & -> & Hv)]]].
      * left. by apply (erase_nil NilN).
      * right; left. split; [done|]. by apply (IH _ y Hy).
      * right; right. split; [done|]. exists v. by destruct x; simplify_eq/=.
    + destruct (erase_lookup cs cs' i c E Hi) as (c' & Hi' & Ec), (erase_lookup cs cs' j d E Hj) as (d' & Hj' & Ed).
      exists i, j, c', d'. split; [done|]. split; [done|]. split; [by intros ?%(erase_nil c' c (eq_sym Ec))|].
      split; [done|]. by intros ?%(erase_nil d' d (eq_sym Ed)).
Qed.

(** ** Hashing *)

Lemma decodeNibbles_even l : Nat.even (length l) = true -> is_Some (decodeNibbles l).
Proof.
  assert (forall n l, (length l <= n)%nat -> Nat.even (length l) = true -> is_Some (decodeNibbles l)) as H;
    [|by apply (H (length l))].
  clear l. induction n as [|n IH]; intros [|x [|y l]] Hl He; simpl in *; try done; try lia.
  destruct (IH l ltac:(lia) He) as [r ->]. done.
Qed.

Lemma hexToCompact_some k : is_Some (hexToCompact k).
Proof.
  unfold hexToCompact. set (hex := if hasTerm k then removelast k else k).
  destruct hex as [|h rest] eqn:E; [done|]. rewrite <- E. destruct (Nat.odd (length hex)) eqn:Ho.
  - rewrite E in Ho. simpl in Ho. rewrite Nat.odd_succ in Ho. by apply fmap_is_Some, decodeNibbles_even.
  - apply fmap_is_Some, decodeNibbles_even. rewrite <- Nat.negb_odd, Ho. done.
Qed.

Definition compact (k : bytes) : bytes := default [] (hexToCompact k).

Lemma hexToCompact_compact k : hexToCompact k = Some (compact k).
Proof. unfold compact. by destruct (hexToCompact_some k) as [c ->]. Qed.

Lemma encode_erase n : encodeNodeValue (erase n) = encodeNodeValue n.
Proof.
  induction n as [|h|w|p val f IH|cs f IH] using node_rect'; try done; simpl; [by rewrite IH|].
  do 2 f_equal. rewrite map_map. apply list_fmap_ext. intros i c Hc. by apply IH with i.
Qed.

Lemma erase_idem n : erase (erase n) = erase n.
Proof.
  induction n as [|h|w|p val f IH|cs f IH] using node_rect'; try done; simpl; [by rewrite IH|].
  f_equal. rewrite map_map. apply list_fmap_ext. intros i c Hc. by apply IH with i.
Qed.

Section Hash.

Context (Keccak256 : bytes -> bytes).

(** The reference of a node in its parent, and the node in which all children
    are references. *)
Fixpoint noderef (n : node) : node :=
  match n with
  | shortNode k val _ => trie_store Keccak256 (shortNode (compact k) (noderef val) dirtyFlag) false
  | fullNode cs _ => trie_store Keccak256 (fullNode (map noderef cs) dirtyFlag) false
  | _ => n
  end.

Definition coll (n : node) : node :=
  match n with
  | shortNode k val _ => shortNode (compact k) (noderef val) dirtyFlag
  | fullNode cs _ => fullNode (map noderef cs) dirtyFlag
  | _ => n
  end.

(** The encoding that is hashed. *)
Definition nenc (n : node) : bytes := encodeNodeValue (coll n).

Lemma noderef_coll n : noderef n = match n with NilN => NilN | _ => trie_store Keccak256 (coll n) false end.
Proof. by destruct n. Qed.

Lemma noderef_erase n : noderef (erase n) = noderef n.
Proof.
  induction n as [|h|w|p val f IH|cs f IH] using node_rect'; try done; cbn [erase noderef]; [by rewrite IH|].
  assert (map noderef (map erase cs) = map noderef cs) as ->; [|done].
  rewrite map_map. apply list_fmap_ext. intros i c Hc. by apply IH with i.
Qed.

Lemma nenc_erase n m : erase n = erase m -> nenc n = nenc m.
Proof.
  assert (forall n, coll (erase n) = coll n) as H; [|intros E; unfold nenc; by rewrite <- H, E, H].
  clear. intros [|cs f|k val f|h|v]; try done; simpl; [|by rewrite noderef_erase].
  f_equal. rewrite map_map. apply list_fmap_ext. intros i c Hc. apply noderef_erase.
Qed.

Definition is_node (n : node) : Prop := match n with shortNode _ _ _ | fullNode _ _ => True | _ => False end.

Lemma store_node n force :
  is_node n -> trie_store Keccak256 n force
  = if (zlen (encodeNodeValue n) <? 32) && negb force then n else hashNode (Keccak256 (encodeNodeValue n)).
Proof. by destruct n. Qed.

Lemma store_erase n m force :
  is_node n -> is_node m -> erase n = erase m ->
  erase (trie_store Keccak256 n force) = erase (trie_store Keccak256 m force).
Proof.
  intros Hn Hm E. rewrite !store_node by done. rewrite <- (encode_erase n), E, (encode_erase m). by destruct (_ && _).
Qed.

(** Cached hashes are right; that of the root may be of a short encoding. *)
Fixpoint caches_ok (force : bool) (n : node) : Prop :=
  match n with
  | shortNode _ val f =>
      (fl_dirty f = false -> forall h, fl_hash f = Some h ->
         h = Keccak256 (nenc n) /\ (force = true \/ 32 <= zlen (nenc n))) /\
      caches_ok false val
  | fullNode cs f =>
      (fl_dirty f = false -> forall h, fl_hash f = Some h ->
         h = Keccak256 (nenc n) /\ (force = true \/ 32 <= zlen (nenc n))) /\
      fold_right (fun c P => caches_ok false c /\ P) True cs
  | _ => True
  end.

Lemma caches_children cs :
  fold_right (fun c P => caches_ok false c /\ P) True cs <-> Forall (caches_ok false) cs.
Proof. induction cs as [|c cs IH]; simpl; [done|]. by rewrite Forall_cons, IH. Qed.

Definition hashed_ok (c r c' : node) : Prop :=
  erase r = erase (noderef c) /\ erase c' = erase c /\ caches_ok false c'.

Lemma map_children_ok (f : node -> trieRes (node * node)) (Q : node -> node -> node -> Prop) k cs :
  (forall i c, cs !! i = Some c -> (i < k)%nat -> c <> NilN -> exists r c', f c = TDone (r, c') /\ Q c r c') ->
  (forall i c, cs !! i = Some c -> (k <= i)%nat \/ c = NilN -> Q c c c) ->
  exists l, map_children f (fun c => (c, c)) k cs = TDone l /\ Forall2 (fun c x => Q c x.1 x.2) cs l.
Proof.
  revert k. induction cs as [|c cs IH]; intros k H1 H2; [by exists []|].
  destruct (IH (pred k)) as (l & El & Hl).
  { intros i d Hd Hi. apply (H1 (S i) d Hd). lia. }
  { intros i d Hd Hi. apply (H2 (S i) d Hd). destruct Hi; [left; lia|by right]. }
  destruct k as [|k]; simpl in *.
  - rewrite El. simpl. eexists. split; [done|]. constructor; [|done]. apply (H2 0%nat c eq_refl). left. lia.
  - destruct (node_nil c) as [->|Hn].
    + simpl. rewrite El. simpl. eexists. split; [done|]. constructor; [|done]. apply (H2 0%nat _ eq_refl). by right.
    + destruct (H1 0%nat c eq_refl ltac:(lia) Hn) as (r & c' & Er & Hr).
      assert (isNil c = false) as -> by (by destruct c). rewrite Er. simpl. rewrite El. simpl.
      eexists. split; [done|]. by constructor.
Qed.

(** What hashing a node returns. *)
Definition hash_spec (n : node) (force : bool) (r n' : node) : Prop :=
  erase r = erase (trie_store Keccak256 (coll n) force) /\ erase n' = erase n /\ caches_ok force n'.

Lemma finishHash_ok n x n' force :
  is_node x -> is_node n' -> erase x = erase (coll n) -> erase n' = erase n ->
  caches_ok force (set_cache None n') ->
  exists r c, finishHash Keccak256 force x n' = (r, c) /\ hash_spec n force r c.
Proof.
  intros Hx Hn' Ex En Hc. unfold finishHash. eexists _, _. split; [done|].
  assert (is_node (coll n)) as Hcn by (destruct x, n; by simplify_eq/=).
  assert (erase (trie_store Keccak256 x force) = erase (trie_store Keccak256 (coll n) force)) as Es
    by (by apply store_erase).
  split; [done|]. split; [by destruct n'|].
  assert (encodeNodeValue x = nenc n') as Ee.
  { rewrite (nenc_erase n' n En). unfold nenc. by rewrite <- encode_erase, Ex, encode_erase. }
  rewrite store_node by done. destruct (_ && _) eqn:Eb.
  - by destruct x.
  - rewrite Ee in *. assert (force = true \/ 32 <= zlen (nenc n')) as Hf.
    { apply andb_false_iff in Eb as [Eb%Z.ltb_ge|Eb]; [by right|left]. by destruct force. }
    destruct n' as [|cs f|k val f|h|v]; try done; simpl in *; (split; [|apply Hc]);
      intros _ h [= <-]; by split.
Qed.

Definition uncached (f : nodeFlag) : Prop := forall h, (fl_hash f, fl_dirty f) <> (Some h, false).

Lemma cached_dec f : (exists h, fl_hash f = Some h /\ fl_dirty f = false) \/ uncached f.
Proof.
  unfold uncached. destruct f as [[h|] []]; simpl; [right|left|right|right]; try done. by exists h.
Qed.

Lemma hash_short_eq p val f force :
  uncached f -> trie_hash Keccak256 (shortNode p val f) force
  = let* v := (match val with valueNode _ => TDone (val, val) | _ => trie_hash Keccak256 val false end) in
    TDone (finishHash Keccak256 force (shortNode (compact p) v.1 f) (shortNode p v.2 f)).
Proof.
  intros Hu. specialize (Hu (default [] (fl_hash f))). simpl. rewrite hexToCompact_compact.
  destruct (fl_hash f), (fl_dirty f); done.
Qed.

Lemma hash_full_eq cs f force :
  uncached f -> trie_hash Keccak256 (fullNode cs f) force
  = let* l := map_children (fun c => trie_hash Keccak256 c false) (fun c => (c, c)) 16 cs in
    TDone (finishHash Keccak256 force (fullNode (map fst l) f) (fullNode (map snd l) f)).
Proof.
  intros Hu. specialize (Hu (default [] (fl_hash f))). simpl. destruct (fl_hash f), (fl_dirty f); done.
Qed.

Lemma hash_cached n h force :
  is_node n -> node_cache n = (Some h, false) -> caches_ok force n ->
  trie_hash Keccak256 n force = TDone (hashNode h, n) /\ hash_spec n force (hashNode h) n.
Proof.
  intros Hn Eh Hc. split; [by destruct n; try done; simpl in *; injection Eh as -> ->|].
  assert (h = Keccak256 (nenc n) /\ (force = true \/ 32 <= zlen (nenc n))) as [-> Hl].
  { destruct n; try done; simpl in Eh; injection Eh as Eh Ed; by apply Hc. }
  split; [|by split]. rewrite store_node by (by destruct n). fold (nenc n).
  destruct Hl as [->|Hl]; [by rewrite andb_false_r|]. by destruct (Z.ltb_spec (zlen (nenc n)) 32); [lia|].
Qed.

Lemma hash_spec_ref c r c' : wf c -> hash_spec c false r c' -> hashed_ok c r c'.
Proof. by destruct c. Qed.

Lemma hash_ok n force : wf n -> caches_ok force n ->
  exists r n', trie_hash Keccak256 n force = TDone (r, n') /\ hash_spec n force r n'.
Proof.
  revert force. induction n as [|h|w|p val f IH|cs f IH] using node_rect'; intros force Hw Hc; try done.
  - destruct (cached_dec f) as [(h & Eh & Ed)|Hu].
    { eexists _, _. apply hash_cached; [done|by rewrite <- Eh, <- Ed|done]. }
    rewrite hash_short_eq by done.
    assert (exists r v', (match val with valueNode _ => TDone (val, val) | _ => trie_hash Keccak256 val false end)
              = TDone (r, v') /\ hashed_ok val r v') as (r & v' & -> & Er & Ev & Hv).
    { apply wf_short in Hw as [[[(v & -> & Hv) Hk]|(cs & g & -> & Hw & Hp)] Hne]; [by eexists _, _|].
      apply IH; [done|apply Hc]. }
    simpl. destruct (finishHash_ok (shortNode p val f) (shortNode (compact p) r f) (shortNode p v' f) force)
      as (r' & c & -> & Hs); [done|done|by simpl; rewrite Er|by simpl; rewrite Ev|by split|]. by eexists _, _.
  - destruct (cached_dec f) as [(h & Eh & Ed)|Hu].
    { eexists _, _. apply hash_cached; [done|by rewrite <- Eh, <- Ed|done]. }
    rewrite hash_full_eq by done. apply wf_full in Hw as (HL & Hs & _).
    destruct Hc as [_ Hc%caches_children]. rewrite Forall_lookup in Hc.
    destruct (map_children_ok (fun c => trie_hash Keccak256 c false) hashed_ok 16 cs) as (l & -> & Hl).
    { intros i c Hi Hk Hn.
      destruct (Hs (Z.of_nat i) c ltac:(lia) ltac:(by rewrite Nat2Z.id)) as [|[[_ Hw]|[Hb _]]]; [done| |].
      - destruct (IH i c Hi false Hw (Hc i c Hi)) as (r & c' & E & Hr). exists r, c'.
        split; [done|]. by apply hash_spec_ref.
      - unfold terminatorByte in Hb. lia. }
    { intros i c Hi Hk. split; [|split; [done|by apply Hc with i]].
      destruct (Hs (Z.of_nat i) c ltac:(lia) ltac:(by rewrite Nat2Z.id)) as [->|[[Hb _]|[_ (v & -> & _)]]]; try done.
      destruct Hk as [Hk| ->]; [unfold nib in Hb; lia|done]. }
    assert (map erase (map fst l) = map erase (map noderef cs) /\ map erase (map snd l) = map erase cs /\
            Forall (caches_ok false) (map snd l)) as (E1 & E2 & E3).
    { clear -Hl. induction Hl as [|c x cs l (H1 & H2 & H3) _ (I1 & I2 & I3)]; [done|]. simpl.
      rewrite H1, H2, I1, I2. split; [done|]. split; [done|]. by constructor. }
    destruct (finishHash_ok (fullNode cs f) (fullNode (map fst l) f) (fullNode (map snd l) f) force)
      as (r' & c & E & Hs'); [done|done|by simpl; rewrite E1|by simpl; rewrite E2|by split; [|apply caches_children]|].
    simpl trieBind. rewrite E. by eexists _, _.
Qed.

(** The root hash, a function of the trie without its caches. *)
Definition rootHash (n : node) : bytes :=
  match n with NilN => emptyRoot Keccak256 | _ => trie_BytesToHash (Keccak256 (nenc n)) end.

Lemma Hash_ok n : wf0 n -> caches_ok true n ->
  exists n', trie_Hash Keccak256 n = TDone (rootHash n, n') /\ erase n' = erase n /\ caches_ok true n'.
Proof.
  intros [->|Hw] Hc; [by exists NilN|].
  destruct (hash_ok n true Hw Hc) as (r & n' & E & Er & En & Hn').
  exists n'. split; [|done]. destruct n as [|cs f|p val f|h|v]; try done; unfold trie_Hash; rewrite E; simpl;
    rewrite store_node, andb_false_r in Er by done; by destruct r; simplify_eq/=.
Qed.

(** *** Changes drop the hashes they make wrong *)

Lemma caches_dirty_full b cs : Forall (caches_ok false) cs -> caches_ok b (fullNode cs dirtyFlag).
Proof. intros H. split; [done|]. by apply caches_children. Qed.

Lemma caches_newLeaf p val : caches_ok false val -> caches_ok false (newLeaf p val).
Proof. intros H. destruct p; [done|]. by split. Qed.

Lemma caches_split p val k v m b n' :
  caches_ok false val -> splitShort p val k (valueNode v) m = TDone n' -> caches_ok b n'.
Proof.
  intros Hv. unfold splitShort. destruct (p !! m) as [x|], (k !! m) as [y|]; try done.
  destruct (_ || _); [done|]. intros [= <-].
  assert (forall b, caches_ok b (fullNode (set_child (set_child (replicate 17 NilN) x
            (newLeaf (drop (S m) p) val)) y (newLeaf (drop (S m) k) (valueNode v))) dirtyFlag)) as H.
  { intros b'. apply caches_dirty_full. unfold set_child. apply Forall_insert; [apply Forall_insert|].
    - by repeat constructor.
    - by apply caches_newLeaf.
    - by apply caches_newLeaf. }
  destruct (0 <? m)%nat; [|apply H]. split; [done|apply H].
Qed.

Lemma at_child_inv {A} (f : node -> trieRes A) cs i r :
  at_child f cs i = TDone r -> exists c, cs !! Z.to_nat i = Some c /\ f c = TDone r.
Proof.
  revert i. induction cs as [|c cs IH]; intros i; [done|]. simpl.
  destruct (Z.eqb_spec i 0) as [->|Hn]; [by exists c|]. intros H.
  destruct (decide (0 <= i)).
  - destruct (IH _ H) as (d & Hd & Hf). exists d. split; [|done].
    replace (Z.to_nat i) with (S (Z.to_nat (i - 1))) by lia. done.
  - exfalso. clear -H n. assert (i - 1 < 0) as Hi by lia. revert H Hi. generalize (i - 1). clear.
    induction cs as [|c cs IH]; intros i H Hi; [done|]. simpl in H.
    destruct (Z.eqb_spec i 0); [lia|]. eapply IH; [exact H|lia].
Qed.

Lemma caches_insert b n k v n' : caches_ok b n -> trie_insert n k v = TDone n' -> caches_ok b n'.
Proof.
  revert b k n'. induction n as [|h|w|p val f IH|cs f IH] using node_rect'; intros b k n' Hc.
  - destruct k; simpl; by intros [= <-].
  - by destruct k; simpl; [intros [= <-]|].
  - by destruct k; simpl; [intros [= <-]|].
  - destruct (decide (k = [])) as [->|Hk]; [by simpl; intros [= <-]|]. rewrite insert_short_unfold by done.
    destruct (_ =? _)%nat; [|apply caches_split, Hc].
    destruct (trie_insert val _ v) as [nn| | |] eqn:E; try done. simpl. intros [= <-].
    split; [done|]. eapply IH; [apply Hc|exact E].
  - destruct k as [|x k]; [by simpl; intros [= <-]|]. simpl.
    destruct (at_child _ cs x) as [nn| | |] eqn:E; try done. simpl. intros [= <-].
    apply at_child_inv in E as (c & Ec & E). apply caches_dirty_full.
    destruct Hc as [_ Hc%caches_children]. unfold set_child. apply Forall_insert; [done|].
    eapply IH; [exact Ec| |exact E]. rewrite Forall_lookup in Hc. by eapply Hc.
Qed.

Lemma caches_collapse b cs : Forall (caches_ok false) cs -> caches_ok b (collapseBranch cs).
Proof.
  intros H. unfold collapseBranch. pose proof (remaining_cases cs) as HR.
  destruct (remaining cs) as [|[i c] [|]]; [done| |by apply caches_dirty_full].
  destruct HR as (Hi & _). rewrite Forall_lookup in H. specialize (H i c Hi).
  destruct (i =? 16)%nat; [by split|]. destruct c; by split; try apply H.
Qed.

Lemma caches_delete b n k n' : caches_ok b n -> trie_delete n k = TDone n' -> caches_ok b n'.
Proof.
  revert b k n'. induction n as [|h|w|p val f IH|cs f IH] using node_rect'; intros b k n' Hc; simpl.
  - by intros [= <-].
  - done.
  - destruct k; by intros [= <-].
  - destruct (_ <? _)%nat; [by intros [= <-]|]. destruct (_ =? _)%nat; [by intros [= <-]|].
    destruct (trie_delete val _) as [nn| | |] eqn:E; try done. simpl. intros [= <-].
    apply (IH false) in E; [|apply Hc]. destruct nn; simpl; try done; by split; try apply E.
  - destruct k as [|x k]; [done|]. destruct (at_child _ cs x) as [nn| | |] eqn:E; try done. simpl. intros [= <-].
    apply at_child_inv in E as (c & Ec & E). apply caches_collapse.
    destruct Hc as [_ Hc%caches_children]. unfold set_child. apply Forall_insert; [done|].
    eapply IH; [exact Ec| |exact E]. rewrite Forall_lookup in Hc. by eapply Hc.
Qed.

(** ** Histories *)

Inductive trie_op := OpPut (k v : bytes) | OpDelete (k : bytes) | OpHash.

Definition run_op (op : trie_op) (n : node) : trieRes node :=
  match op with
  | OpPut k v => trie_Put n k v
  | OpDelete k => trie_Delete n k
  | OpHash => let* r := trie_Hash Keccak256 n in TDone r.2
  end.

Fixpoint run_ops (ops : list trie_op) (n : node) : trieRes node :=
  match ops with [] => TDone n | op :: ops => let* n := run_op op n in run_ops ops n end.

(** The same operations on a map. *)
Definition map_op (op : trie_op) (m : gmap bytes bytes) : gmap bytes bytes :=
  match op with
  | OpPut k [] | OpDelete k => base.delete k m
  | OpPut k v => <[k := v]> m
  | OpHash => m
  end.

Definition map_ops (ops : list trie_op) (m : gmap bytes bytes) : gmap bytes bytes :=
  fold_left (fun m op => map_op op m) ops m.

Definition trie_op_ok (op : trie_op) : Prop :=
  match op with OpPut k _ | OpDelete k => Forall is_byte k | OpHash => True end.

(** The trie holds exactly the map, in canonical form, with valid caches. *)
Record represents (n : node) (m : gmap bytes bytes) : Prop := {
  rep_wf : wf0 n;
  rep_caches : caches_ok true n;
  rep_get : forall k, Forall is_byte k -> trie_get n (keybytesToHex k) 0 = TDone (m !! k);
  rep_only : forall k, found n k -> exists b, Forall is_byte b /\ k = keybytesToHex b;
}.

Lemma represents_empty : represents NilN ∅.
Proof. split; try done; [by left|]. by intros k [_ [v Hv]]. Qed.

Lemma represents_delete n m k :
  Forall is_byte k -> represents n m -> exists n', trie_Delete n k = TDone n' /\ represents n' (base.delete k m).
Proof.
  intros Hk [Hw Hc Hg Ho]. destruct (delete_ok n _ Hw (key_nibbles k Hk)) as (n' & E & Hw' & Hg').
  exists n'. split; [done|]. split; [done|by eapply caches_delete| |].
  - intros k' Hk'. rewrite Hg' by (by apply key_nibbles). destruct (decide (k' = k)) as [->|Hne].
    + by rewrite decide_True, lookup_delete_eq.
    + rewrite decide_False by (by intros ?%keybytesToHex_inj). rewrite lookup_delete_ne by done. by apply Hg.
  - intros k' [Hk' [v Hv]]. rewrite Hg' in Hv by done. destruct (decide _); [done|]. apply Ho. by split; [|exists v].
Qed.

Lemma represents_put n m k v :
  Forall is_byte k -> v <> [] -> represents n m ->
  exists n', trie_Put n k v = TDone n' /\ represents n' (<[k := v]> m).
Proof.
  intros Hk Hv [Hw Hc Hg Ho]. destruct (insert_ok n _ v Hw (key_nibbles k Hk) Hv) as (n' & E & Hw' & Hg').
  exists n'. split; [by destruct v|]. split; [by right|by eapply caches_insert| |].
  - intros k' Hk'. rewrite Hg' by (by apply key_nibbles). destruct (decide (k' = k)) as [->|Hne].
    + by rewrite decide_True, lookup_insert_eq.
    + rewrite decide_False by (by intros ?%keybytesToHex_inj). rewrite lookup_insert_ne by done. by apply Hg.
  - intros k' [Hk' [w Hw2]]. rewrite Hg' in Hw2 by done. destruct (decide _) as [->|]; [by exists k|].
    apply Ho. by split; [|exists w].
Qed.

Lemma represents_hash n m :
  represents n m -> exists n', trie_Hash Keccak256 n = TDone (rootHash n, n') /\ erase n' = erase n /\ represents n' m.
Proof.
  intros [Hw Hc Hg Ho]. destruct (Hash_ok n Hw Hc) as (n' & E & En & Hn').
  exists n'. split; [done|]. split; [done|].
  assert (forall k pos, trie_get n' k pos = trie_get n k pos) as Hgn.
  { intros k pos. by rewrite <- get_erase, En, get_erase. }
  split; [|done| |].
  - destruct Hw as [->|Hw]; [left; by apply (erase_nil NilN)|right; by apply (wf_erase n)].
  - intros k Hk. rewrite Hgn. by apply Hg.
  - intros k [Hk [v Hv]]. rewrite Hgn in Hv. apply Ho. by split; [|exists v].
Qed.

Lemma run_ops_represents ops n m :
  Forall trie_op_ok ops -> represents n m ->
  exists n', run_ops ops n = TDone n' /\ represents n' (map_ops ops m).
Proof.
  intros Ho. revert n m. induction Ho as [|op ops Hop _ IH]; intros n m Hr; [by exists n|]. simpl.
  assert (exists n', run_op op n = TDone n' /\ represents n' (map_op op m)) as (n' & -> & Hr').
  { destruct op as [k v|k|]; simpl in *.
    - destruct v as [|x v]; [by apply represents_delete|by apply represents_put].
    - by apply represents_delete.
    - destruct (represents_hash n m Hr) as (n' & -> & _ & Hr'). by exists n'. }
  by apply IH.
Qed.

(** C14. The trie implements a map: after any sequence of insertions (an empty
    value deletes), deletions and hashings from the empty trie, none of which
    fails, looking up a key returns what the same operations on a finite map
    give. *)
Theorem trie_refines_map ops :
  Forall trie_op_ok ops -> exists n, run_ops ops NilN = TDone n /\
    forall k, Forall is_byte k ->
      trie_Get n k = match map_ops ops ∅ !! k with Some v => TDone v | None => TFail ErrNotFound end.
Proof.
  intros Ho. destruct (run_ops_represents ops NilN ∅ Ho represents_empty) as (n & E & Hr).
  exists n. split; [done|]. intros k Hk. unfold trie_Get. rewrite (rep_get _ _ Hr) by done. simpl.
  by destruct (_ !! k).
Qed.

Lemma represents_same n1 n2 m : represents n1 m -> represents n2 m -> erase n1 = erase n2.
Proof.
  intros [W1 _ G1 O1] [W2 _ G2 O2]. apply wf_canonical; [done..|]. intros k Hk.
  destruct (get_total n1 k W1 Hk) as [[v|] E1]; [|destruct (get_total n2 k W2 Hk) as [[v|] E2]; [|congruence]].
  - destruct (O1 k ltac:(by split; [|exists v])) as (b & Hb & ->). by rewrite G1, G2.
  - destruct (O2 k ltac:(by split; [|exists v])) as (b & Hb & ->). by rewrite G1, G2.
Qed.

(** C15. The root hash is a function of the content: two histories that spell
    the same map end in tries with the same root hash (and the same nodes),
    whatever the order of the operations, the keys deleted on the way and the
    hashes cached in between. *)
Theorem trie_root_canonical ops1 ops2 :
  Forall trie_op_ok ops1 -> Forall trie_op_ok ops2 -> map_ops ops1 ∅ = map_ops ops2 ∅ ->
  exists n1 n2 h n1' n2', run_ops ops1 NilN = TDone n1 /\ run_ops ops2 NilN = TDone n2 /\
    trie_Hash Keccak256 n1 = TDone (h, n1') /\ trie_Hash Keccak256 n2 = TDone (h, n2') /\ erase n1' = erase n2'.
Proof.
  intros Ho1 Ho2 Em.
  destruct (run_ops_represents ops1 NilN ∅ Ho1 represents_empty) as (n1 & E1 & R1).
  destruct (run_ops_represents ops2 NilN ∅ Ho2 represents_empty) as (n2 & E2 & R2). rewrite <- Em in R2.
  pose proof (represents_same _ _ _ R1 R2) as Ee.
  destruct (represents_hash _ _ R1) as (n1' & H1 & Q1 & _), (represents_hash _ _ R2) as (n2' & H2 & Q2 & _).
  exists n1, n2, (rootHash n1), n1', n2'. split; [done|]. split; [done|]. split; [done|].
  split; [|congruence]. rewrite H2. do 2 f_equal. unfold rootHash.
  destruct n1, n2; try done; by rewrite (nenc_erase _ _ Ee).
Qed.

End Hash.

(** ** A concrete trie

    Keys that end inside a branch, share a nibble and diverge, one of them
    deleted again, with a hashing in between; a function that returns 32 bytes
    stands for the hash. *)

Definition toyHash (b : bytes) : bytes := zlen b mod 256 :: take 31 (rev b ++ replicate 31 7).

Definition w_put : list trie_op :=
  [OpPut [0x12; 0x34] (replicate 40 5); OpPut [0x12] [1; 2]; OpPut [0x12; 0x37] [9]; OpHash;
   OpPut [0x9a] [3]; OpPut [0x9b] [4]; OpDelete [0x9a]].

Definition w_put' : list trie_op :=
  [OpPut [0x9b] [7]; OpPut [0x12; 0x37] [9]; OpPut [0x12] [1; 2]; OpPut [0x9b] [4]; OpPut [0x12; 0x34] (replicate 40 5)].

Lemma w_put_ok : Forall trie_op_ok w_put /\ Forall trie_op_ok w_put'.
Proof. split; apply Forall_forall; intros op Hop; repeat (apply elem_of_cons in Hop as [->|Hop]; [simpl; try done; repeat constructor; unfold is_byte; lia|]); by apply elem_of_nil in Hop. Qed.

Lemma trie_refines_map_witness : exists n, run_ops toyHash w_put NilN = TDone n /\
    forall k, Forall is_byte k ->
      trie_Get n k = match map_ops w_put ∅ !! k with Some v => TDone v | None => TFail ErrNotFound end.
Proof. apply (trie_refines_map toyHash w_put), w_put_ok. Defined.

Lemma trie_root_canonical_witness :
  exists n1 n2 h n1' n2', run_ops toyHash w_put NilN = TDone n1 /\ run_ops toyHash w_put' NilN = TDone n2 /\
    trie_Hash toyHash n1 = TDone (h, n1') /\ trie_Hash toyHash n2 = TDone (h, n2') /\ erase n1' = erase n2'.
Proof. apply (trie_root_canonical toyHash w_put w_put'); [apply w_put_ok|apply w_put_ok|vm_compute; reflexivity]. Defined.
