(* ===== verification/TrieMerkle.v ===== *)
(** * TrieMerkle: Merkle proofs

    A proof generated from a trie verifies against its root hash, and a proof
    that verifies tells the truth about the trie, unless it exhibits two
    different encodings with the same Keccak hash. *)

From stdpp Require Import gmap.
From S2P Require Import Prelude Rlp RlpProofs Trie TrieProofs.

(** ** The node decoder reads what the node encoder writes *)

Lemma go_slice_mid {A} (a b c : list A) :
  go_slice (a ++ b ++ c) (zlen a) (zlen a + zlen b) = Some b.
Proof.
  unfold go_slice. rewrite !zlen_app. pose proof (zlen_nonneg a). pose proof (zlen_nonneg b). pose proof (zlen_nonneg c).
  destruct (Z.leb_spec 0 (zlen a)); [|lia]. destruct (Z.leb_spec (zlen a) (zlen a + zlen b)); [|lia].
  destruct (Z.leb_spec (zlen a + zlen b) (zlen a + (zlen b + zlen c))); [|lia]. simpl. f_equal.
  replace (Z.to_nat (zlen a)) with (length a) by (unfold zlen; lia). rewrite drop_app_length.
  replace (Z.to_nat _) with (length b) by (unfold zlen; lia). apply take_app_length.
Qed.

Lemma decodeLength_SetBytes b : Forall is_byte b -> SetBytes b < 2 ^ 63 -> decodeLength b = SetBytes b.
Proof.
  unfold decodeLength, SetBytes. intros Hb.
  assert (forall acc, 0 <= acc -> fold_left (fun a x => a * 256 + x) b acc < 2 ^ 63 ->
    fold_left (fun n x => i64 (Z.lor (i64 (Z.shiftl n 8)) x)) b acc = fold_left (fun a x => a * 256 + x) b acc) as H;
    [|by apply H].
  induction Hb as [|x b Hx Hb IH]; intros acc Ha Hl; [done|]. simpl in *. unfold is_byte in Hx.
  assert (acc * 256 + x < 2 ^ 63) as Hs.
  { rewrite fold_be_acc in Hl. assert (1 <= 256 ^ zlen b) by (apply Z.lt_pred_le, Z.pow_pos_nonneg; [lia|apply zlen_nonneg]).
    pose proof (SetBytes_range b Hb). nia. }
  rewrite Z.shiftl_mul_pow2 by lia. change (2 ^ 8) with 256. rewrite (i64_small (acc * 256)) by lia.
  assert (Z.lor (acc * 256) x = acc * 256 + x) as -> by (by apply (lor_shift_add acc x 8)).
  rewrite i64_small by lia. apply IH; lia.
Qed.

(** The length bytes [lb] after a prefix. *)
Lemma longEnd_ok x lb body rest :
  Forall is_byte lb -> SetBytes lb = zlen body -> zlen (x :: lb ++ body ++ rest) < 2 ^ 63 ->
  longEnd (x :: lb ++ body ++ rest) (zlen lb) = TDone (1 + zlen lb, 1 + zlen lb + zlen body).
Proof.
  intros Hb Hs Hl. unfold longEnd. rewrite zlen_cons, !zlen_app in *.
  pose proof (zlen_nonneg body). pose proof (zlen_nonneg lb). pose proof (zlen_nonneg rest).
  destruct (Z.ltb_spec (1 + (zlen lb + (zlen body + zlen rest))) (1 + zlen lb)); [lia|].
  unfold tslice. change (x :: lb ++ body ++ rest) with ([x] ++ lb ++ body ++ rest).
  pose proof (go_slice_mid [x] lb (body ++ rest)) as E. change (zlen [x]) with 1 in E. rewrite E. simpl.
  rewrite decodeLength_SetBytes by (done || lia). rewrite Hs, i64_small by lia.
  destruct (Z.ltb_spec (1 + (zlen lb + (zlen body + zlen rest))) (1 + zlen lb + zlen body)); [lia|done].
Qed.

Lemma slice_item (x : Z) (lb body rest : bytes) :
  tslice (x :: lb ++ body ++ rest) (1 + zlen lb) (1 + zlen lb + zlen body) = TDone body /\
  tslice (x :: lb ++ body ++ rest) 0 (1 + zlen lb + zlen body) = TDone (x :: lb ++ body) /\
  tslice (x :: lb ++ body ++ rest) (1 + zlen lb + zlen body) (zlen (x :: lb ++ body ++ rest)) = TDone rest.
Proof.
  unfold tslice. split; [|split].
  - pose proof (go_slice_mid (x :: lb) body rest) as E. rewrite zlen_cons in E. simpl in E. by rewrite E.
  - pose proof (go_slice_mid [] (x :: lb ++ body) rest) as E. rewrite zlen_cons, zlen_app, zlen_nil in E. simpl in E.
    rewrite <- app_assoc, Z.add_0_l in E. by rewrite <- Z.add_assoc, E.
  - pose proof (go_slice_mid (x :: lb ++ body) rest []) as E. rewrite !zlen_cons, !zlen_app in *. rewrite app_nil_r in E.
    simpl in E. rewrite <- app_assoc in E.
    replace (1 + zlen lb + zlen body) with (1 + (zlen lb + zlen body)) by lia.
    replace (1 + (zlen lb + (zlen body + zlen rest))) with (1 + (zlen lb + zlen body) + zlen rest) by lia.
    by rewrite E.
Qed.

Lemma putUint_ok n : 55 < n < 2 ^ 63 ->
  let lb := trie_putUintBigEndian (u64 n) in
  Forall is_byte lb /\ SetBytes lb = n /\ 1 <= zlen lb <= 8.
Proof.
  intros Hn lb. unfold lb, trie_putUintBigEndian. rewrite u64_small by (unfold is_u64; lia).
  assert (forall k, 1 <= Z.of_nat k <= 8 -> n < 256 ^ Z.of_nat k ->
    Forall is_byte (be_bytes k n) /\ SetBytes (be_bytes k n) = n /\ 1 <= zlen (be_bytes k n) <= 8) as H.
  { intros k Hk Hs. split; [apply be_bytes_bytes|]. split; [by apply SetBytes_be_bytes_small; lia|].
    unfold zlen. rewrite length_be_bytes. lia. }
  repeat (case (Z.ltb_spec n); intros); apply H; simpl; lia.
Qed.

Lemma wrapListPayload_form p :
  zlen p < 2 ^ 63 ->
  (zlen p <= 55 /\ wrapListPayload p = (192 + zlen p) :: p) \/
  (exists lb, 55 < zlen p /\ wrapListPayload p = (247 + zlen lb) :: lb ++ p /\
     Forall is_byte lb /\ SetBytes lb = zlen p /\ 1 <= zlen lb <= 8).
Proof.
  intros Hp. pose proof (zlen_nonneg p). unfold wrapListPayload. destruct (Z.leb_spec (zlen p) 55); [left|right].
  - split; [done|]. rewrite (u8_small (zlen p)) by (unfold is_byte; lia).
    by rewrite u8_small by (unfold is_byte; lia).
  - destruct (putUint_ok (zlen p) ltac:(lia)) as (Hb & Hs & Hl). eexists. split; [done|]. split; [|done].
    rewrite (u8_small (zlen _)) by (unfold is_byte; lia). by rewrite u8_small by (unfold is_byte; lia).
Qed.

(** An encoded element and what [decodeOneElement] makes of it. *)
Inductive elem : bytes -> bytes -> Prop :=
  | elem_string b : elem (encodeString b) b
  | elem_list p : elem (wrapListPayload p) (wrapListPayload p).

Lemma decode_string b rest :
  zlen (encodeString b ++ rest) < 2 ^ 63 -> decodeOneElement (encodeString b ++ rest) = TDone (b, rest).
Proof.
  intros Hl. rewrite zlen_app in Hl. pose proof (zlen_nonneg rest). pose proof (zlen_nonneg b).
  pose proof (zlen_le_encodeString b).
  destruct (encodeString_form b) as [(x & -> & Hx & ->)|[(Hn & Hx & E)|(Hn & E)]]; [lia| | |].
  - simpl. destruct (Z.leb_spec x 127); [done|lia].
  - rewrite E in *. simpl. destruct (Z.leb_spec (128 + zlen b) 127); [lia|].
    destruct (Z.eqb_spec (128 + zlen b) 128) as [E0|Hne].
    { destruct b; [done|]. rewrite zlen_cons in E0. pose proof (zlen_nonneg b). lia. }
    destruct (Z.leb_spec (128 + zlen b) 183); [|lia].
    destruct (slice_item (128 + zlen b) [] b rest) as (S1 & _ & S3). simpl app in *. rewrite zlen_nil in *.
    replace (1 + (128 + zlen b - 128)) with (1 + 0 + zlen b) by lia.
    destruct (Z.ltb_spec (zlen (128 + zlen b :: b ++ rest)) (1 + 0 + zlen b)) as [Hlt|_].
    { rewrite zlen_cons, zlen_app in Hlt. lia. }
    change 1 with (1 + 0) at 1. rewrite S1. simpl trieBind. by rewrite S3.
  - rewrite E in *. destruct (long_length (zlen b)) as (_ & Hlb & Hr & _); [lia|].
    set (lb := Bytes (zlen b)) in *. assert (SetBytes lb = zlen b) as Hs.
    { unfold lb. rewrite SetBytes_Bytes. lia. }
    rewrite zlen_cons, zlen_app in Hl. simpl. destruct (Z.leb_spec (183 + zlen lb) 127); [lia|].
    destruct (Z.eqb_spec (183 + zlen lb) 128); [lia|]. destruct (Z.leb_spec (183 + zlen lb) 183); [lia|].
    destruct (Z.leb_spec (183 + zlen lb) 191); [|lia]. replace (183 + zlen lb - 183) with (zlen lb) by lia.
    rewrite <- app_assoc. rewrite longEnd_ok; [|apply Bytes_bytes|done|rewrite zlen_cons, !zlen_app; lia].
    destruct (slice_item (183 + zlen lb) lb b rest) as (S1 & _ & S3). simpl. by rewrite S1, S3.
Qed.

Lemma decode_list p rest :
  zlen (wrapListPayload p ++ rest) < 2 ^ 63 ->
  decodeOneElement (wrapListPayload p ++ rest) = TDone (wrapListPayload p, rest).
Proof.
  intros Hl. rewrite zlen_app in Hl. pose proof (zlen_nonneg rest). pose proof (zlen_nonneg p).
  assert (zlen p < zlen (wrapListPayload p)) as Hp.
  { unfold wrapListPayload. destruct (_ <=? 55); rewrite zlen_cons; [lia|]. rewrite zlen_app.
    match goal with |- context [zlen (trie_putUintBigEndian ?x)] => pose proof (zlen_nonneg (trie_putUintBigEndian x)) end. lia. }
  destruct (wrapListPayload_form p) as [(Hn & E)|(lb & Hn & E & Hb & Hs & Hlb)]; [lia| |].
  - rewrite E in *. simpl. repeat (match goal with |- context [192 + zlen p <=? ?y] =>
      destruct (Z.leb_spec (192 + zlen p) y); [try lia|try lia] end; try done).
    destruct (Z.eqb_spec (192 + zlen p) 128); [lia|].
    destruct (slice_item (192 + zlen p) [] p rest) as (_ & S2 & S3). simpl app in *. rewrite zlen_nil in *.
    replace (1 + (192 + zlen p - 192)) with (1 + 0 + zlen p) by lia.
    destruct (Z.ltb_spec (zlen (192 + zlen p :: p ++ rest)) (1 + 0 + zlen p)) as [Hlt|_].
    { rewrite zlen_cons, zlen_app in Hlt. lia. }
    rewrite S2. simpl trieBind. by rewrite S3.
  - rewrite E in *. rewrite zlen_cons, zlen_app in Hl. simpl.
    destruct (Z.leb_spec (247 + zlen lb) 127); [lia|]. destruct (Z.eqb_spec (247 + zlen lb) 128); [lia|].
    destruct (Z.leb_spec (247 + zlen lb) 183); [lia|]. destruct (Z.leb_spec (247 + zlen lb) 191); [lia|].
    destruct (Z.leb_spec (247 + zlen lb) 247); [lia|]. replace (247 + zlen lb - 247) with (zlen lb) by lia.
    rewrite <- app_assoc. rewrite longEnd_ok; [|done|done|rewrite zlen_cons, !zlen_app; lia].
    destruct (slice_item (247 + zlen lb) lb p rest) as (_ & S2 & S3). simpl. by rewrite S2, S3.
Qed.

Lemma decode_elem e c rest :
  elem e c -> zlen (e ++ rest) < 2 ^ 63 -> decodeOneElement (e ++ rest) = TDone (c, rest).
Proof. intros []; [apply decode_string|apply decode_list]. Qed.

Lemma elem_pos e c : elem e c -> e <> [].
Proof.
  intros [b|p] E.
  - pose proof (encodeString_pos b) as H. rewrite E in H. done.
  - unfold wrapListPayload in E. by destruct (_ <=? 55).
Qed.

Lemma decode_elems_ok es cs fuel :
  Forall2 elem es cs -> zlen (concat es) < 2 ^ 63 -> (length (concat es) <= fuel)%nat ->
  decode_elems fuel (concat es) = TDone cs.
Proof.
  intros H. revert fuel. induction H as [|e c es cs He _ IH]; intros fuel Hl Hf; [by destruct fuel|].
  simpl in *. pose proof (elem_pos e c He). destruct (e ++ concat es) as [|x l] eqn:E; [by destruct e|].
  destruct fuel as [|fuel]; [simpl in Hf; lia|]. cbn [decode_elems]. rewrite <- E in *.
  rewrite (decode_elem e c) by done. simpl. rewrite length_app in Hf. rewrite zlen_app in Hl.
  assert (0 < length e)%nat by (destruct e; [done|simpl; lia]). pose proof (zlen_nonneg e).
  rewrite IH by lia. done.
Qed.

Lemma decodeRLPList_ok es cs :
  Forall2 elem es cs -> zlen (wrapListPayload (concat es)) < 2 ^ 63 ->
  decodeRLPList (wrapListPayload (concat es)) = TDone cs.
Proof.
  intros H Hl. pose proof (zlen_nonneg (concat es)) as Hz.
  assert (zlen (concat es) < zlen (wrapListPayload (concat es))) as Hp.
  { unfold wrapListPayload. destruct (_ <=? 55); rewrite zlen_cons; [lia|]. rewrite zlen_app.
    match goal with |- context [zlen (trie_putUintBigEndian ?x)] => pose proof (zlen_nonneg (trie_putUintBigEndian x)) end. lia. }
  destruct (wrapListPayload_form (concat es)) as [(Hn & E)|(lb & Hn & E & Hb & Hs & Hlb)]; [lia| |].
  - rewrite E in *. set (p := concat es) in *. simpl. destruct (Z.ltb_spec (192 + zlen p) 192); [lia|].
    destruct (Z.leb_spec (192 + zlen p) 247); [|lia].
    destruct (slice_item (192 + zlen p) [] p []) as (S1 & _ & _). simpl app in *. rewrite zlen_nil, app_nil_r in *.
    replace (1 + (192 + zlen p - 192)) with (1 + 0 + zlen p) by lia.
    destruct (Z.ltb_spec (zlen (192 + zlen p :: p)) (1 + 0 + zlen p)) as [Hlt|_]; [rewrite zlen_cons in Hlt; lia|].
    change 1 with (1 + 0) at 1. rewrite S1. simpl. apply decode_elems_ok; [done| |done]; fold p; lia.
  - rewrite E in *. set (p := concat es) in *. simpl. destruct (Z.ltb_spec (247 + zlen lb) 192); [lia|].
    destruct (Z.leb_spec (247 + zlen lb) 247); [lia|]. replace (247 + zlen lb - 247) with (zlen lb) by lia.
    pose proof (longEnd_ok (247 + zlen lb) lb p []) as L. destruct (slice_item (247 + zlen lb) lb p []) as (S1 & _ & _).
    rewrite app_nil_r in *. rewrite L by done. simpl. rewrite S1. simpl. apply decode_elems_ok; [done| |done]; fold p; lia.
Qed.

(** ** Hex-prefix keys *)

Lemma nibble_pair h l : nib h -> nib l -> Z.lor (u8 (Z.shiftl h 4)) l = 16 * h + l.
Proof.
  unfold nib. intros Hh Hl. rewrite Z.shiftl_mul_pow2 by lia. rewrite u8_small by (unfold is_byte; lia).
  rewrite (lor_shift_add h l 4) by lia. lia.
Qed.

Lemma nibblesOf_decode l b : Forall nib l -> decodeNibbles l = Some b -> nibblesOf b = l.
Proof.
  revert b. assert (forall n l b, (length l <= n)%nat -> Forall nib l -> decodeNibbles l = Some b -> nibblesOf b = l) as H;
    [|intros b; by apply (H (length l))].
  clear l. induction n as [|n IH]; intros [|h [|x l]] b Hn Hf E; simpl in *; try lia; try done; simplify_eq; [done..|].
  apply Forall_cons in Hf as [Hh [Hx Hf]%Forall_cons]. apply fmap_Some in E as (r & Er & ->). simpl.
  rewrite nibble_pair by done. rewrite (IH l r) by (done || lia).
  unfold nib in *. by rewrite <- (Z.div_unique (16 * h + x) 16 h x), <- (Z.mod_unique (16 * h + x) 16 h x) by lia.
Qed.

(** The flags in the first nibble. *)
Lemma compact_first (t odd : bool) h :
  nib h -> let b := (if t then 32 else 0) + (if odd then 16 + h else 0) in
  b / 16 = (if t then 2 else 0) + (if odd then 1 else 0) /\ b mod 16 = (if odd then h else 0).
Proof.
  unfold nib. intros Hh. destruct t, odd; simpl; split;
    try (symmetry; apply (Z.div_unique _ 16 _ h); lia); try (symmetry; apply (Z.mod_unique _ 16 2); lia);
    try (symmetry; apply (Z.mod_unique _ 16 3); lia); try (symmetry; apply (Z.mod_unique _ 16 1); lia); done.
Qed.

Lemma compact_spec (t : bool) ns :
  Forall nib ns -> let k := if t then ns ++ [terminatorByte] else ns in
  compactToHex (compact k) = k.
Proof.
  intros Hn k. unfold compact, hexToCompact.
  assert (hasTerm k = t) as Et.
  { unfold k, hasTerm. destruct t; [by rewrite last_snoc|]. destruct (last ns) as [x|] eqn:E; [|done].
    apply last_Some_elem_of in E. rewrite Forall_forall in Hn. specialize (Hn x E). unfold nib, terminatorByte in *.
    by destruct (Z.eqb_spec x 16); [lia|]. }
  rewrite Et. assert ((if t then removelast k else k) = ns) as ->.
  { unfold k. destruct t; [|done]. apply removelast_last. }
  assert (Z.shiftl (if t then 1 else 0) 5 = if t then 32 else 0) as -> by (by destruct t).
  destruct ns as [|h ns].
  { unfold compactToHex, k. by destruct t. }
  apply Forall_cons in Hn as [Hh Hn]. destruct (Nat.odd (length (h :: ns))) eqn:Eo.
  - assert (exists r, decodeNibbles ns = Some r) as [r Er].
    { apply decodeNibbles_even. simpl in Eo. by rewrite Nat.odd_succ in Eo. }
    rewrite Er. simpl. assert (Z.lor (Z.lor (if t then 32 else 0) 16) h = (if t then 32 else 0) + (16 + h)) as ->.
    { unfold nib in Hh. destruct t;
        [pose proof (lor_shift_add 3 h 4 ltac:(lia) ltac:(lia)) as E; change (Z.lor 32 16) with (3 * 2 ^ 4); lia
        |pose proof (lor_shift_add 1 h 4 ltac:(lia) ltac:(lia)) as E; change (Z.lor 0 16) with (1 * 2 ^ 4); lia]. }
    unfold compactToHex. cbn [nibblesOf]. destruct (compact_first t true h Hh) as [-> ->]. rewrite (nibblesOf_decode ns r) by done.
    unfold k. by destruct t.
  - assert (exists r, decodeNibbles (h :: ns) = Some r) as [r Er].
    { apply decodeNibbles_even. rewrite <- Nat.negb_odd, Eo. done. }
    rewrite Er. simpl. destruct (compact_first t false 0) as [E1 E2]; [done|].
    unfold compactToHex. cbn [nibblesOf]. rewrite Z.add_0_r in *. rewrite E1, E2, (nibblesOf_decode (h :: ns) r); [|by constructor|done].
    unfold k. by destruct t.
Qed.

Lemma key_shape k : key k -> exists ns, Forall nib ns /\ k = ns ++ [terminatorByte].
Proof.
  induction 1 as [|x k Hx _ (ns & Hn & ->)]; [by exists []|]. exists (x :: ns). split; [by constructor|done].
Qed.

Lemma compact_key k : key k -> compactToHex (compact k) = k /\ hasTerm k = true.
Proof.
  intros (ns & Hn & ->)%key_shape. split; [apply (compact_spec true ns Hn)|]. unfold hasTerm. by rewrite last_snoc.
Qed.

Lemma compact_nibs k : Forall nib k -> compactToHex (compact k) = k /\ hasTerm k = false.
Proof.
  intros Hn. split; [apply (compact_spec false k Hn)|]. unfold hasTerm. destruct (last k) as [x|] eqn:E; [|done].
  apply last_Some_elem_of in E. rewrite Forall_forall in Hn. specialize (Hn x E). unfold nib, terminatorByte in *.
  by destruct (Z.eqb_spec x 16); [lia|].
Qed.

(** ** Nodes *)

Section Merkle.

Context (Keccak256 : bytes -> bytes).
Context (Hkeccak : forall b, length (Keccak256 b) = 32%nat).

Abbreviation noderef := (noderef Keccak256).
Abbreviation nenc := (nenc Keccak256).
Abbreviation coll := (coll Keccak256).

(** A child as an element of its parent. *)
Definition refcontent (c : node) : bytes :=
  match noderef c with
  | NilN => []
  | hashNode h => h
  | valueNode v => v
  | n => encodeNodeValue n
  end.

Lemma wf_is_node n : wf n -> is_node n.
Proof. by destruct n. Qed.

Lemma coll_list n : wf n -> exists p, nenc n = wrapListPayload p.
Proof. unfold TrieProofs.nenc. destruct n; try done; intros _; by eexists. Qed.

Lemma noderef_wf n :
  wf n -> noderef n = if zlen (nenc n) <? 32 then coll n else hashNode (Keccak256 (nenc n)).
Proof.
  intros Hw. rewrite noderef_coll. destruct n; try done; rewrite store_node, andb_true_r by done; done.
Qed.

Lemma refcontent_wf n :
  wf n -> refcontent n = if zlen (nenc n) <? 32 then nenc n else Keccak256 (nenc n).
Proof.
  intros Hw. unfold refcontent. rewrite noderef_wf by done. destruct (_ <? 32); [|done].
  unfold TrieProofs.nenc. by destruct n.
Qed.

Lemma elem_ref b c : slot_ok b c -> elem (encodeNodeValue (noderef c)) (refcontent c).
Proof.
  intros [->|[[_ Hw]|[_ (v & -> & _)]]].
  - exact (elem_string []).
  - rewrite refcontent_wf, noderef_wf by done. destruct (_ <? 32); [|apply elem_string].
    fold (nenc c). destruct (coll_list c Hw) as [p ->]. apply elem_list.
  - apply elem_string.
Qed.

(** A reference to the node, by hash or inline. *)
Definition refers (wantHash : bytes) (wantInline : option bytes) (n : node) : Prop :=
  match wantInline with Some w => w = nenc n | None => wantHash = Keccak256 (nenc n) end.

Lemma childRef_ok n : wf n -> refers (childRef (refcontent n)).1 (childRef (refcontent n)).2 n /\ refcontent n <> [].
Proof.
  intros Hw. rewrite refcontent_wf by done. unfold childRef. destruct (Z.ltb_spec (zlen (nenc n)) 32).
  - destruct (Z.eqb_spec (zlen (nenc n)) 32); [lia|]. split; [done|].
    destruct (coll_list n Hw) as [p ->]. apply (elem_pos _ _ (elem_list p)).
  - unfold zlen at 1 2. rewrite Hkeccak. simpl. split; [done|]. intros E. pose proof (Hkeccak (nenc n)) as HL.
    by rewrite E in HL.
Qed.

Definition items (n : node) : list bytes :=
  match n with
  | shortNode k val _ => [compact k; refcontent val]
  | fullNode cs _ => map refcontent cs
  | _ => []
  end.

Lemma slots_elems cs :
  (forall b c, 0 <= b -> cs !! Z.to_nat b = Some c -> slot_ok b c) ->
  Forall2 elem (map (fun c => encodeNodeValue (noderef c)) cs) (map refcontent cs).
Proof.
  intros Hs. apply Forall2_fmap, Forall_Forall2_diag, Forall_lookup. intros i c Hc.
  apply (elem_ref (Z.of_nat i)), Hs; [lia|by rewrite Nat2Z.id].
Qed.

Lemma decode_node n : wf n -> zlen (nenc n) < 2 ^ 63 -> decodeRLPList (nenc n) = TDone (items n).
Proof.
  intros Hw Hl. destruct n as [|cs f|k val f|?|?]; try done.
  - apply wf_full in Hw as (_ & Hs & _).
    assert (nenc (fullNode cs f) = wrapListPayload (concat (map (fun c => encodeNodeValue (noderef c)) cs))) as E.
    { unfold TrieProofs.nenc. simpl. by rewrite map_map. }
    rewrite E in *. apply decodeRLPList_ok; [|done]. by apply slots_elems.
  - apply wf_short in Hw as [Hs _].
    assert (nenc (shortNode k val f)
            = wrapListPayload (concat [encodeString (compact k); encodeNodeValue (noderef val)])) as E.
    { unfold TrieProofs.nenc. simpl. by rewrite app_nil_r. }
    rewrite E in *. apply decodeRLPList_ok; [|done]. repeat constructor.
    destruct Hs as [[Hv _]|(cs & g & -> & Hw & _)].
    + by apply (elem_ref terminatorByte); right; right.
    + by apply (elem_ref 0); right; left.
Qed.

(** Every encoding is shorter than the integers Go counts with. *)
Fixpoint sized (n : node) : bool :=
  match n with
  | shortNode _ val _ => (zlen (nenc n) <? 2 ^ 63) && sized val
  | fullNode cs _ => (zlen (nenc n) <? 2 ^ 63) && forallb sized cs
  | _ => true
  end.

Lemma sized_node n : wf n -> sized n = true -> zlen (nenc n) < 2 ^ 63.
Proof. intros Hw Hs. destruct n; try done; apply andb_true_iff in Hs as [Hs _]; by apply Z.ltb_lt. Qed.

Lemma sized_child cs f i c : sized (fullNode cs f) = true -> cs !! i = Some c -> sized c = true.
Proof.
  intros [_ Hs]%andb_true_iff Hc. rewrite forallb_forall in Hs. apply Hs, list_elem_of_In.
  by eapply list_elem_of_lookup_2.
Qed.

Inductive subnode : node -> node -> Prop :=
  | sub_refl n : subnode n n
  | sub_short m k val f : subnode m val -> subnode m (shortNode k val f)
  | sub_full m cs i c f : cs !! i = Some c -> subnode m c -> subnode m (fullNode cs f).

(** Two byte strings with the same hash, one of the proof and one of the trie. *)
Definition collision (n : node) (proof : list bytes) : Prop :=
  exists e m, e ∈ proof /\ subnode m n /\ e <> nenc m /\ Keccak256 e = Keccak256 (nenc m).

(** One step of the verification, when the node is the one referred to. *)
Lemma verify_step n hexKey wh wi pos encoded rest r :
  wf n -> sized n = true -> refers wh wi n ->
  verify_loop Keccak256 hexKey wh wi pos (encoded :: rest) = TDone r ->
  encoded = nenc n \/ collision n (encoded :: rest).
Proof.
  intros Hw Hs Hr E. destruct (decide (encoded = nenc n)) as [|Hne]; [by left|right].
  simpl in E. destruct wi as [w|]; simpl in Hr.
  - unfold keysEqual in E. rewrite bool_decide_false in E by congruence. done.
  - unfold keysEqual in E. destruct (bool_decide_reflect (Keccak256 encoded = wh)) as [Eh|]; [|done].
    exists encoded, n. split; [by left|]. split; [constructor|]. split; [done|]. congruence.
Qed.

(** ** The verifier on the nodes of the trie *)

Abbreviation verify := (verify_loop Keccak256).

Definition last_node (rest : list bytes) : bool := match rest with [] => true | _ => false end.

Lemma refers_expected wh wi n :
  refers wh wi n ->
  match wi with Some w => keysEqual (nenc n) w | None => keysEqual (Keccak256 (nenc n)) wh end = true.
Proof. unfold refers, keysEqual. destruct wi; intros ->; by apply bool_decide_true. Qed.

(** The rest of the path, from a child of the node. *)
Definition descend (hexKey : bytes) (c : node) (pos : nat) (rest : list bytes) : trieRes (option bytes) :=
  if last_node rest then TFail ErrProofInvalid
  else verify hexKey (childRef (refcontent c)).1 (childRef (refcontent c)).2 pos rest.

Definition ends (v : option bytes) (rest : list bytes) : trieRes (option bytes) :=
  if last_node rest then TDone v else TFail ErrProofInvalid.

Lemma verify_short a k p val f wh wi rest :
  wf (shortNode p val f) -> sized (shortNode p val f) = true -> refers wh wi (shortNode p val f) ->
  verify (a ++ k) wh wi (length a) (nenc (shortNode p val f) :: rest)
  = if (prefixLen p k <? length p)%nat then ends None rest
    else match val with
         | valueNode v => ends (Some v) rest
         | _ => descend (a ++ k) val (length a + length p) rest
         end.
Proof.
  intros Hw Hs Hr. cbn [verify_loop]. rewrite refers_expected, decode_node by (done || by apply sized_node).
  cbn [items negb]. rewrite drop_app_length. apply wf_short in Hw as [Hv _].
  assert (compactToHex (compact p) = p /\ hasTerm p = match val with valueNode _ => true | _ => false end) as [-> ->].
  { destruct Hv as [[(v & -> & _) Hk]|(cs & g & -> & _ & Hp)]; [by apply compact_key|by apply compact_nibs]. }
  destruct (_ <? _)%nat; [done|]. by destruct val, rest.
Qed.

Lemma verify_full a b k c cs f wh wi rest :
  wf (fullNode cs f) -> sized (fullNode cs f) = true -> refers wh wi (fullNode cs f) ->
  0 <= b -> cs !! Z.to_nat b = Some c ->
  verify (a ++ b :: k) wh wi (length a) (nenc (fullNode cs f) :: rest)
  = if b =? terminatorByte then TDone (match c with valueNode v => Some v | _ => None end)
    else match c with
         | NilN => ends None rest
         | _ => descend (a ++ b :: k) c (S (length a)) rest
         end.
Proof.
  intros Hw Hs Hr Hb Hc. cbn [verify_loop]. rewrite refers_expected, decode_node by (done || by apply sized_node).
  apply wf_full in Hw as (HL & Hsl & _). specialize (Hsl b c Hb Hc). cbn [items negb].
  assert ((map refcontent cs) !! Z.to_nat b = Some (refcontent c)) as Hi by (by rewrite list_lookup_fmap, Hc).
  assert (length (map refcontent cs) = 17%nat) as HL' by (by rewrite length_map).
  rewrite list_lookup_middle by done. clear Hs Hr HL Hc. revert HL' Hi. generalize (map refcontent cs). intros l HL' Hi.
  destruct l as [|? [|? [|? l]]]; try done. rewrite HL'. cbn [Nat.eqb].
  destruct (Z.eqb_spec b terminatorByte) as [->|Hne].
  - change (Z.to_nat terminatorByte) with 16%nat in Hi. rewrite Hi.
    destruct Hsl as [->|[[Hn _]|[_ (v & -> & Hv)]]]; [done| |by destruct v].
    unfold nib, terminatorByte in Hn. lia.
  - rewrite Hi. destruct Hsl as [->|[[_ Hw]|[? _]]]; [by destruct rest| |done].
    unfold descend. destruct (childRef_ok c Hw) as [_ Hne']. destruct c; try done;
    destruct (refcontent _), rest; done.
Qed.

Lemma prefixLen_full p k : (prefixLen p k <? length p)%nat = negb (bool_decide (p `prefix_of` k)).
Proof.
  destruct (prefixLen_spec p k) as (c & p' & k' & -> & -> & -> & Hd). rewrite length_app.
  case_bool_decide as H; simpl.
  - apply Nat.ltb_ge. apply prefix_app_inv in H as [r ->]. destruct p' as [|x p']; [simpl; lia|done].
  - apply Nat.ltb_lt. destruct p'; [|simpl; lia]. destruct H. rewrite app_nil_r. by apply prefix_app_r.
Qed.

Lemma collision_mono n m e rest :
  (forall x, subnode x m -> subnode x n) -> collision m rest -> collision n (e :: rest).
Proof. intros H (x & y & Hx & Hy & Hxy). exists x, y. split; [by right|]. split; [by apply H|done]. Qed.

Lemma ends_done v rest r : ends v rest = TDone r -> r = v.
Proof. unfold ends. destruct (last_node rest); congruence. Qed.

Lemma descend_done hexKey c pos rest r :
  descend hexKey c pos rest = TDone r ->
  verify hexKey (childRef (refcontent c)).1 (childRef (refcontent c)).2 pos rest = TDone r.
Proof. unfold descend. by destruct (last_node rest). Qed.

Lemma verify_sound n : wf n -> sized n = true -> forall a k wh wi proof r,
  key k -> refers wh wi n -> verify (a ++ k) wh wi (length a) proof = TDone r ->
  trie_get n k 0 = TDone r \/ collision n proof.
Proof.
  induction n as [|h|w|p val f IH|cs f IH] using node_rect'; intros Hw Hs a k wh wi proof r Hk Hr E; try done;
    (destruct proof as [|e rest]; [done|]); (destruct (verify_step _ _ _ _ _ _ _ _ Hw Hs Hr E) as [->|Hc]; [|by right]).
  - rewrite verify_short, prefixLen_full in E by done. case_bool_decide as Hp; simpl in E.
    2: { left. rewrite get_short_no by done. by apply ends_done in E as ->. }
    destruct Hp as [q ->]. rewrite get_short. apply wf_short in Hw as [Hv _]. simpl in Hs. apply andb_true_iff in Hs as [_ Hs].
    destruct Hv as [[(v & -> & _) _]|(cs & g & -> & Hw & Hn)]; [left; by apply ends_done in E as ->|].
    apply descend_done in E. rewrite <- length_app, app_assoc in E. apply key_app in Hk; [|done].
    destruct (IH Hw Hs _ _ _ _ _ _ Hk (proj1 (childRef_ok _ Hw)) E) as [|Hc]; [by left|right].
    eapply collision_mono; [|exact Hc]. intros x Hx. by constructor.
  - destruct k as [|b k]; [by inversion Hk|]. pose proof (key_range _ _ Hk).
    destruct (wf_child cs f b k Hw Hk) as (c & Hc & Hsl). rewrite get_full, Hc by lia.
    rewrite (verify_full a b k c) in E by (done || lia). destruct (Z.eqb_spec b terminatorByte) as [->|Hne].
    + left. apply key_head in Hk as [[Hn _]|[_ ->]]; [unfold nib, terminatorByte in Hn; lia|].
      destruct Hsl as [->|[[Hn _]|[_ (v & -> & _)]]]; [by injection E as <-|unfold nib, terminatorByte in Hn; lia|by injection E as <-].
    + apply key_head in Hk as [[_ Hk]|[? _]]; [|done].
      destruct Hsl as [->|[[_ Hwc]|[? _]]]; [left; by apply ends_done in E as ->| |done].
      assert (descend (a ++ b :: k) c (S (length a)) rest = TDone r) as E' by (by destruct c).
      apply descend_done in E'. replace (a ++ b :: k) with ((a ++ [b]) ++ k) in E' by (by rewrite <- app_assoc).
      replace (S (length a)) with (length (a ++ [b])) in E' by (rewrite length_app; simpl; lia).
      destruct (IH _ _ Hc Hwc (sized_child _ _ _ _ Hs Hc) _ _ _ _ _ _ Hk (proj1 (childRef_ok _ Hwc)) E') as [|Hco]; [by left|right].
      eapply collision_mono; [|exact Hco]. intros x Hx. by econstructor.
Qed.

(** ** The prover *)

Lemma map_children_enc (f : node -> trieRes node) k cs :
  (forall i c, cs !! i = Some c -> (i < k)%nat -> exists x, f c = TDone x /\ encodeNodeValue x = encodeNodeValue (noderef c)) ->
  (forall i c, cs !! i = Some c -> (k <= i)%nat -> noderef c = c) ->
  exists l, map_children f (fun c => c) k cs = TDone l /\
    map encodeNodeValue l = map (fun c => encodeNodeValue (noderef c)) cs.
Proof.
  revert k. induction cs as [|c cs IH]; intros k H1 H2; [by exists []|].
  destruct (IH (pred k)) as (l & El & Hl).
  { intros i d Hd Hi. apply (H1 (S i) d Hd). lia. }
  { intros i d Hd Hi. apply (H2 (S i) d Hd). lia. }
  destruct k as [|k]; simpl in *.
  - rewrite El. simpl. eexists. split; [done|]. simpl. rewrite Hl, (H2 0%nat c eq_refl) by lia. done.
  - destruct (H1 0%nat c eq_refl ltac:(lia)) as (x & Ex & Hx). destruct (node_nil c) as [->|Hn].
    + simpl. rewrite El. simpl. eexists. split; [done|]. simpl. by rewrite Hl.
    + assert (isNil c = false) as -> by (by destruct c). rewrite Ex. simpl. rewrite El. simpl.
      eexists. split; [done|]. simpl. by rewrite Hl, Hx.
Qed.

Lemma collapse_ref x n :
  wf n -> encodeNodeValue x = nenc n ->
  encodeNodeValue (if zlen (encodeNodeValue x) >=? 32 then hashNode (Keccak256 (encodeNodeValue x)) else x)
  = encodeNodeValue (noderef n).
Proof.
  intros Hw E. rewrite noderef_wf, E by done. rewrite Z.geb_leb, Z.leb_antisym. destruct (_ <? _); done.
Qed.

(** Branch and short nodes, given their children. *)
Lemma full_enc l cs f g :
  map encodeNodeValue l = map (fun c => encodeNodeValue (noderef c)) cs ->
  encodeNodeValue (fullNode l f) = nenc (fullNode cs g).
Proof. intros E. unfold TrieProofs.nenc. simpl. by rewrite E, map_map. Qed.

Lemma short_enc x val p f g :
  encodeNodeValue x = encodeNodeValue (noderef val) ->
  encodeNodeValue (shortNode (compact p) x f) = nenc (shortNode p val g).
Proof. intros E. unfold TrieProofs.nenc. simpl. by rewrite E. Qed.

(** What a child of a well-formed node can be. *)
Definition childlike (n : node) : Prop := n = NilN \/ wf n \/ is_value n.

Lemma slot_childlike b c : slot_ok b c -> childlike c.
Proof. unfold childlike. intros [->|[[_ H]|[_ H]]]; auto. Qed.

Lemma short_childlike p val f : wf (shortNode p val f) -> childlike val.
Proof. unfold childlike. intros [[[H _]|(cs & g & -> & H & _)] _]%wf_short; auto. Qed.

Lemma children_enc cs f :
  wf (fullNode cs f) ->
  (forall i c, cs !! i = Some c -> childlike c ->
    exists x, collapseForProof Keccak256 c = TDone x /\ encodeNodeValue x = encodeNodeValue (noderef c)) ->
  exists l, map_children (collapseForProof Keccak256) (fun c => c) 16 cs = TDone l /\
    map encodeNodeValue l = map (fun c => encodeNodeValue (noderef c)) cs.
Proof.
  intros (_ & Hs & _)%wf_full H.
  assert (forall i c, cs !! i = Some c -> slot_ok (Z.of_nat i) c) as Hs'.
  { intros i c Hc. apply Hs; [lia|by rewrite Nat2Z.id]. }
  apply map_children_enc; intros i c Hc Hi; specialize (Hs' i c Hc).
  - by apply (H i c Hc), (slot_childlike (Z.of_nat i)).
  - destruct Hs' as [->|[[Hb _]|[_ (v & -> & _)]]]; try done. unfold nib in Hb. lia.
Qed.

Lemma collapse_ok n : childlike n ->
  exists x, collapseForProof Keccak256 n = TDone x /\ encodeNodeValue x = encodeNodeValue (noderef n).
Proof.
  induction n as [|h|w|p val f IH|cs f IH] using node_rect'; intros Hn; try (by eexists).
  - destruct Hn as [|[Hw|(v & ? & _)]]; try done.
    destruct (IH (short_childlike _ _ _ Hw)) as (x & Ex & Hx).
    simpl. rewrite hexToCompact_compact. simpl. rewrite Ex. simpl. eexists. split; [done|].
    exact (collapse_ref _ _ Hw (short_enc _ _ _ _ _ Hx)).
  - destruct Hn as [|[Hw|(v & ? & _)]]; try done. destruct (children_enc cs f Hw IH) as (l & El & Hl).
    simpl. rewrite El. simpl. eexists. split; [done|].
    exact (collapse_ref _ _ Hw (full_enc _ _ _ _ Hl)).
Qed.

Lemma proofNode_ok n : wf n -> proofNode Keccak256 n = TDone (nenc n).
Proof.
  intros Hw. destruct n as [|cs f|p val f|?|?]; try done; simpl.
  - destruct (children_enc cs f Hw) as (l & -> & Hl); [intros; by apply collapse_ok|].
    cbn [trieBind]. f_equal. by apply (full_enc _ _ f f).
  - destruct (collapse_ok val (short_childlike _ _ _ Hw)) as (x & Ex & Hx).
    rewrite hexToCompact_compact. cbn [trieBind topt]. rewrite Ex.
    cbn [trieBind]. f_equal. by apply (short_enc _ _ _ f f).
Qed.

(** The prover's test of a short node's key. *)
Lemma path_test a k p :
  (length (a ++ k) - length a <? length p)%nat || negb (keysEqual p (take (length p) (drop (length a) (a ++ k))))
  = negb (bool_decide (p `prefix_of` k)).
Proof.
  rewrite drop_app_length, length_app. unfold keysEqual. case_bool_decide as H; case_bool_decide as Hp; simpl.
  - rewrite orb_false_r. apply Nat.ltb_ge. apply prefix_length in Hp. lia.
  - destruct Hp. rewrite H. apply prefix_take.
  - destruct H. destruct Hp as [r ->]. by rewrite take_app_length.
  - apply orb_true_r.
Qed.

Definition proves (n : node) (a k : bytes) : Prop :=
  exists l r, trie_get n k 0 = TDone r /\
    trie_prove Keccak256 n (a ++ k) (length a) = TDone (l, bool_decide (is_Some r)) /\
    trie_proveAbsence Keccak256 n (a ++ k) (length a) = TDone l /\
    l <> [] /\ forall wh wi, refers wh wi n -> verify (a ++ k) wh wi (length a) l = TDone r.

Lemma prove_ok n : wf n -> sized n = true -> forall a k, key k -> proves n a k.
Proof.
  induction n as [|h|w|p val f IH|cs f IH] using node_rect'; intros Hw Hs a k Hk; try done.
  - pose proof (proofNode_ok _ Hw) as Ep. pose proof (verify_short a k p val f) as V. setoid_rewrite prefixLen_full in V.
    unfold proves. cbn [trie_prove trie_proveAbsence]. rewrite Ep, path_test. cbn [trieBind].
    case_bool_decide as Hp; simpl negb in *; cbn iota in *.
    2: { exists [nenc (shortNode p val f)], None. rewrite get_short_no by done. repeat split; try done. intros. by rewrite V. }
    destruct Hp as [q ->]. rewrite get_short. pose proof Hw as [Hv _]%wf_short. pose proof Hs as [_ Hs']%andb_true_iff.
    destruct Hv as [[(v & -> & _) Hkp]|(cs & g & -> & Hwc & Hn)].
    + exists [nenc (shortNode p (valueNode v) f)], (Some v). repeat split; try done. intros. by rewrite V.
    + apply key_app in Hk; [|done]. destruct (IH Hwc Hs' (a ++ p) q Hk) as (l & r & Hg & Hp & Ha & Hl & Hver).
      rewrite <- app_assoc, length_app in Hp, Ha, Hver. exists (nenc (shortNode p (fullNode cs g) f) :: l), r.
      rewrite Hp, Ha. repeat split; try done. intros wh wi Hr. rewrite V by done. unfold descend.
      destruct l; [done|]. by apply Hver, childRef_ok.
  - pose proof (proofNode_ok _ Hw) as Ep. destruct k as [|b k]; [by inversion Hk|]. pose proof (key_range _ _ Hk).
    destruct (wf_child cs f b k Hw Hk) as (c & Hc & Hsl).
    unfold proves. cbn [trie_prove trie_proveAbsence]. rewrite get_full, Ep, list_lookup_middle by (done || lia). cbn [trieBind].
    rewrite !at_child_lookup, Hc by lia. pose proof (verify_full a b k c cs f) as V.
    destruct Hsl as [->|[[Hb Hwc]|[-> (v & -> & _)]]].
    + exists [nenc (fullNode cs f)], None. repeat split; try done. intros. rewrite V by (done || lia). by destruct (_ =? _).
    + apply key_head in Hk as [[_ Hk]|[-> _]]; [|unfold nib, terminatorByte in Hb; lia].
      destruct (IH _ c Hc Hwc (sized_child _ _ _ _ Hs Hc) (a ++ [b]) k Hk) as (l & r & Hg & Hp & Ha & Hl & Hver).
      rewrite <- app_assoc, length_app, Nat.add_1_r in Hp, Ha, Hver. simpl app in Hp, Ha, Hver. exists (nenc (fullNode cs f) :: l), r.
      rewrite Hp, Ha. repeat split; try done. intros wh wi Hr. rewrite V by (done || lia).
      destruct (Z.eqb_spec b terminatorByte) as [->|]; [unfold nib, terminatorByte in Hb; lia|].
      destruct l; [done|]. destruct c; try done; apply Hver, childRef_ok, Hwc.
    + exists [nenc (fullNode cs f)], (Some v). repeat split; try done. intros. by rewrite V.
Qed.

(** ** Against the root hash of a trie *)

Lemma sized_erase n : sized (erase n) = sized n.
Proof.
  induction n as [|h|w|p val f IH|cs f IH] using node_rect'; try done; cbn [sized erase].
  - rewrite IH. by rewrite (nenc_erase _ (shortNode p (erase val) dirtyFlag) (shortNode p val f))
      by (simpl; by rewrite erase_idem).
  - rewrite (nenc_erase _ (fullNode (map erase cs) dirtyFlag) (fullNode cs f)) by apply (erase_idem (fullNode cs f)).
    f_equal. induction cs as [|c cs IHl]; [done|]. simpl.
    rewrite (IH 0%nat c eq_refl), IHl; [done|]. intros i d Hd. by apply (IH (S i)).
Qed.

Lemma sized_same n m : erase n = erase m -> sized n = sized m.
Proof. intros E. by rewrite <- (sized_erase n), E, sized_erase. Qed.

Lemma rootHash_wf n : wf n -> rootHash Keccak256 n = Keccak256 (nenc n).
Proof.
  intros Hw. assert (forall b, trie_BytesToHash (Keccak256 b) = Keccak256 b) as E; [|by destruct n; try done; apply E].
  intros b. unfold trie_BytesToHash. by rewrite Hkeccak, Nat.sub_diag, drop_0, Hkeccak.
Qed.

(** The empty trie's encoding takes part in a collision with an empty proof. *)
Definition collides (n : node) (proof : list bytes) : Prop :=
  exists e x, e ∈ encodeString [] :: proof /\ (x = encodeString [] \/ exists m, subnode m n /\ x = nenc m) /\
    e <> x /\ Keccak256 e = Keccak256 x.

Lemma decode_empty : decodeRLPList (encodeString []) = TFail errDecodeInvalid.
Proof. reflexivity. Qed.

Lemma VerifyProof_trie n k proof r :
  wf0 n -> sized n = true -> Forall is_byte k ->
  VerifyProof Keccak256 (rootHash Keccak256 n) k proof = TDone r ->
  trie_get n (keybytesToHex k) 0 = TDone r \/ collides n proof.
Proof.
  intros [->|Hw] Hs Hk E.
  - destruct proof as [|e rest]; simpl in E.
    { left. unfold keysEqual in E. rewrite bool_decide_true in E by done. done. }
    destruct (decide (e = encodeString [])) as [->|Hne].
    { by destruct (negb _). }
    unfold keysEqual in E. destruct (bool_decide_reflect (Keccak256 e = emptyRoot Keccak256)); [|done].
    right. exists e, (encodeString []). split; [set_solver|]. auto.
  - rewrite rootHash_wf in E by done. destruct proof as [|e rest].
    { right. simpl in E. unfold keysEqual in E. destruct (bool_decide_reflect (Keccak256 (nenc n) = emptyRoot Keccak256)); [|done].
      exists (encodeString []), (nenc n). split; [by left|]. split; [right; exists n; split; [constructor|done]|].
      split; [|done]. intros Ee. pose proof (decode_node n Hw (sized_node n Hw Hs)) as D. rewrite <- Ee in D.
      rewrite decode_empty in D. done. }
    destruct (verify_sound n Hw Hs [] (keybytesToHex k) (Keccak256 (nenc n)) None (e :: rest) r)
      as [|(x & m & Hx & Hm & Hxm & Hc)]; [by apply key_nibbles|done|done|by left|right].
    exists x, (nenc m). split; [by right|]. split; [right; by exists m|done].
Qed.

(** C17. A proof that verifies against the root hash of a trie tells the truth
    about it: the value it returns, or the absence it claims, is what the map
    of the history holds at the key. Otherwise the proof exhibits a collision
    of the hash function with a node of the trie (or with the empty trie). *)
Theorem VerifyProof_sound ops n h n' k proof r :
  Forall trie_op_ok ops -> Forall is_byte k ->
  run_ops Keccak256 ops NilN = TDone n -> sized n = true -> trie_Hash Keccak256 n = TDone (h, n') ->
  VerifyProof Keccak256 h k proof = TDone r ->
  r = map_ops ops ∅ !! k \/ collides n proof.
Proof.
  intros Ho Hk En Hs Eh E. destruct (run_ops_represents Keccak256 ops NilN ∅ Ho (represents_empty _)) as (m & Em & Hr).
  rewrite En in Em. injection Em as <-. destruct (represents_hash _ _ _ Hr) as (x & Ex & _).
  rewrite Ex in Eh. injection Eh as <- <-.
  destruct (VerifyProof_trie n k proof r (rep_wf _ _ _ Hr) Hs Hk E) as [Hg|]; [left|by right].
  rewrite (rep_get _ _ _ Hr k Hk) in Hg. congruence.
Qed.

(** C18. The prover convinces the verifier: for a key of the trie [Prove]
    returns a proof that verifies, against the root hash, to the key's value;
    for any other key [Prove] reports that it is not found and [ProveAbsence]
    returns a proof that verifies to its absence. *)
Theorem Prove_complete ops n h n' k :
  Forall trie_op_ok ops -> Forall is_byte k ->
  run_ops Keccak256 ops NilN = TDone n -> sized n = true -> trie_Hash Keccak256 n = TDone (h, n') ->
  match map_ops ops ∅ !! k with
  | Some v => exists proof, trie_Prove Keccak256 n k = TDone (proof, n') /\
      VerifyProof Keccak256 h k proof = TDone (Some v)
  | None => trie_Prove Keccak256 n k = TFail ErrNotFound /\
      exists proof, trie_ProveAbsence Keccak256 n k = TDone (proof, n') /\ VerifyProof Keccak256 h k proof = TDone None
  end.
Proof.
  intros Ho Hk En Hs Eh. destruct (run_ops_represents Keccak256 ops NilN ∅ Ho (represents_empty _)) as (m & Em & Hr).
  rewrite En in Em. injection Em as <-. pose proof (rep_get _ _ _ Hr k Hk) as Hg. destruct (rep_wf _ _ _ Hr) as [->|Hw].
  - simpl in Hg, Eh. injection Eh as <- <-. replace (map_ops ops ∅ !! k) with (@None bytes) by congruence. split; [done|].
    exists []. split; [done|]. unfold VerifyProof, keysEqual. by rewrite bool_decide_true.
  - destruct (represents_hash _ _ _ Hr) as (x & Ex & Ee & _). rewrite Ex in Eh. injection Eh as <- <-.
    destruct (prove_ok x (wf_erase _ _ (eq_sym Ee) Hw) ltac:(by rewrite (sized_same x n)) [] _ (key_nibbles k Hk))
      as (l & r & Hgx & Hp & Ha & Hl & Hv). simpl in Hp, Ha.
    assert (r = map_ops ops ∅ !! k) as ->. { rewrite <- get_erase, Ee, get_erase, Hg in Hgx. congruence. }
    assert (VerifyProof Keccak256 (rootHash Keccak256 n) k l = TDone (map_ops ops ∅ !! k)) as V.
    { destruct l; [done|]. apply Hv. simpl. rewrite rootHash_wf, (nenc_erase _ x n) by done. done. }
    clear Hv.
    assert (trie_Prove Keccak256 n k = if bool_decide (is_Some (map_ops ops ∅ !! k)) then TDone (l, x) else TFail ErrNotFound) as ->.
    { unfold trie_Prove. rewrite Ex. simpl. rewrite Hp. by destruct n. }
    assert (trie_ProveAbsence Keccak256 n k = TDone (l, x)) as ->.
    { unfold trie_ProveAbsence. rewrite Ex. simpl. rewrite Ha. by destruct n. }
    destruct (map_ops ops ∅ !! k); cbn; [by exists l|]. split; [done|by exists l].
Qed.
End Merkle.

(** ** Proofs of a concrete trie *)

Lemma toyHash_length b : length (toyHash b) = 32%nat.
Proof. unfold toyHash. cbn [length]. rewrite length_take, length_app, length_replicate. lia. Qed.

Definition tget {A} (d : A) (r : trieRes A) : A := match r with TDone x => x | _ => d end.

Definition w_trie : node := tget NilN (run_ops toyHash w_put NilN).
Definition w_hashed : bytes * node := tget ([], NilN) (trie_Hash toyHash w_trie).
Definition w_proof : list bytes := (tget ([], NilN) (trie_Prove toyHash w_trie [0x12; 0x34])).1.

Lemma VerifyProof_sound_witness :
  VerifyProof toyHash w_hashed.1 [0x12; 0x34] w_proof = TDone (Some (replicate 40 5)) /\
  (Some (replicate 40 5) = map_ops w_put ∅ !! [0x12; 0x34] \/ collides toyHash w_trie w_proof).
Proof.
  split; [vm_compute; reflexivity|].
  apply (VerifyProof_sound toyHash toyHash_length w_put w_trie w_hashed.1 w_hashed.2 [0x12; 0x34] w_proof);
    [apply w_put_ok|repeat constructor; unfold is_byte; lia|vm_compute; reflexivity..].
Defined.

Lemma Prove_complete_witness :
  exists proof, trie_Prove toyHash w_trie [0x12] = TDone (proof, w_hashed.2) /\
    VerifyProof toyHash w_hashed.1 [0x12] proof = TDone (Some [1; 2]).
Proof.
  apply (Prove_complete toyHash toyHash_length w_put w_trie w_hashed.1 w_hashed.2 [0x12]);
    [apply w_put_ok|repeat constructor; unfold is_byte; lia|vm_compute; reflexivity..].
Defined.

(** ** Lengths that overflow

    The eight bytes [ff ... f7] are the length -9: an element that ends where
    it starts is decoded again and again, one that ends before it starts is an
    out-of-range slice. *)

Definition evil_list : bytes := [0xff; 0xff; 0xff; 0xff; 0xff; 0xff; 0xff; 0xff; 0xf7].

Lemma decode_elems_S fuel p :
  p <> [] -> decode_elems (S fuel) p
  = let* cr := decodeOneElement p in let* elems := decode_elems fuel cr.2 in TDone (cr.1 :: elems).
Proof. by destruct p. Qed.

Lemma decode_elems_diverges fuel : decode_elems fuel evil_list = TLoop.
Proof.
  assert (decodeOneElement evil_list = TDone ([], evil_list)) as E by (vm_compute; reflexivity).
  assert (evil_list <> []) as Hn by discriminate. generalize dependent evil_list. intros l E Hn.
  induction fuel as [|fuel IH]; [by destruct l|]. rewrite decode_elems_S, E by done. simpl. by rewrite IH.
Qed.

Lemma decodeRLPList_panics : decodeRLPList [0xff; 0xff; 0xff; 0xff; 0xff; 0xff; 0xff; 0xff; 0xf7] = TCrash.
Proof. vm_compute. reflexivity. Qed.
