(* ===== verification/TxPool.v ===== *)
(** * TxPool: the transaction pool

    txpool/txpool.go, with the static checks it calls: [SimulateVerifyFrame]
    (txpool/frametx/verify_simulation.go) and [ValidateUserOp]
    (core/eips/aa_entrypoint.go).  Every method runs under the pool's mutex and
    is one step on the record [TxPool].  The sender cached in a transaction is
    a memo of the recovery and is read, not written; logs, metrics and the gas
    price suggestions have no effect on the pool.

    Go leaves the order of map iteration and of equal elements in [sort.Slice]
    open: the operations that depend on them take a [GoOrder]. *)

From stdpp Require Import gmap sorting.
From S2P Require Import Prelude Rlp StateDB BlockProcessor Transactions.

(** ** Go's sort and range *)

(** The loop of [sort.Search]; each round shortens the interval. *)
Fixpoint searchLoop (fuel : nat) (f : nat -> bool) (i j : nat) : nat :=
  match fuel with
  | O => i
  | S fuel =>
      if (i <? j)%nat then
        let h := ((i + j) / 2)%nat in
        if negb (f h) then searchLoop fuel f (S h) j else searchLoop fuel f i h
      else i
  end.

Definition goSearch (n : nat) (f : nat -> bool) : nat := searchLoop n f 0 n.

(** [sort.SliceStable] is determined by its result: a stable insertion sort. *)
Fixpoint insertStable {A} (less : A -> A -> bool) (x : A) (l : list A) : list A :=
  match l with
  | [] => [x]
  | y :: l' => if less y x then y :: insertStable less x l' else x :: l
  end.

Definition sortStable {A} (less : A -> A -> bool) (l : list A) : list A :=
  fold_right (insertStable less) [] l.

(** One iteration order for maps and one result of [sort.Slice]. *)
Record GoOrder := mkGoOrder {
  rangeMap : forall {A}, gmap Z A -> list (Z * A);
  sortSlice : forall {A}, (A -> A -> bool) -> list A -> list A;
}.

(** ** Configuration and errors *)

Definition MaxTxSize : Z := 128 * 1024.
Definition MaxNonceGap : Z := 64.
Definition priceBumpPercent : Z := 10.

Inductive pool_error :=
  | ErrAlreadyKnown | ErrNonceTooLow | ErrNonceTooHigh | ErrGasLimit | ErrInsufficientFunds | ErrIntrinsicGas
  | ErrTxPoolFull | ErrNegativeValue | ErrOversizedData | ErrUnderpriced | ErrReplacementUnderpriced
  | ErrSenderLimitExceeded | ErrFeeCapBelowTip | ErrFeeCapBelowBaseFee | ErrBlobTxMissingHashes
  | ErrBlobFeeCapBelowBaseFee | ErrNegativeGasPrice | ErrOversizedRLP | ErrUnstakedPaymaster
  | ErrLocalTxDisabled | ErrNoFrames | ErrTooManyFrames | ErrFrameMode | ErrSenderWithoutVerify
  | ErrVerifyTargetNoCode | ErrNoVerifyFrame | ErrAATxDisabled | ErrInvalidUserOp | ErrAAInsufficientBalance.

(** What a check returns: nil, an error, or a panic. *)
Inductive pres := PNil | PErr (e : pool_error) | PPanic.

Definition andThen (r k : pres) : pres := match r with PNil => k | _ => r end.

Notation "r ;; k" := (andThen r k) (at level 100, right associativity) : go_scope.

Definition refuse (b : bool) (e : pool_error) : pres := if b then PErr e else PNil.

Record TxPoolConfig := mkTxPoolConfig {
  MaxSize : Z;
  MaxPerSender : Z;
  MinGasPrice : option Z;
  BlockGasLimit : Z;
  PaymasterRegistry : option (Address -> bool);
  PaymasterStrict : bool;
  AllowLocalTx : bool;
  AllowAATx : bool;
  pool_IsPrague : bool;
  pool_IsGlamsterdan : bool;
}.

Definition DefaultConfig : TxPoolConfig :=
  {| MaxSize := 4096; MaxPerSender := 64; MinGasPrice := Some 1; BlockGasLimit := 30000000;
     PaymasterRegistry := None; PaymasterStrict := true; AllowLocalTx := false; AllowAATx := true;
     pool_IsPrague := false; pool_IsGlamsterdan := false |}.

(** A nil balance is possible. *)
Record StateReader := mkStateReader {
  sr_GetNonce : Address -> Z;
  sr_GetBalance : Address -> option Z;
}.

(** ** Nonce-sorted lists *)

Definition nonceOf (tx : Transaction) : Z := tx_Nonce (inner tx).

Definition nonceAtLeast (items : list Transaction) (nonce : Z) (i : nat) : bool :=
  match items !! i with Some t => nonceOf t >=? nonce | None => true end.

Definition list_Add (tx : Transaction) (items : list Transaction) : list Transaction :=
  let idx := goSearch (length items) (nonceAtLeast items (nonceOf tx)) in
  let place := take idx items ++ tx :: drop idx items in
  match items !! idx with
  | Some old => if nonceOf old =? nonceOf tx then <[idx := tx]> items else place
  | None => place
  end.

Fixpoint list_Remove (nonce : Z) (items : list Transaction) : list Transaction * bool :=
  match items with
  | [] => ([], false)
  | tx :: items' =>
      if nonceOf tx =? nonce then (items', true)
      else let r := list_Remove nonce items' in (tx :: r.1, r.2)
  end.

Definition list_Get (nonce : Z) (items : list Transaction) : option Transaction :=
  match items !! goSearch (length items) (nonceAtLeast items nonce) with
  | Some t => if nonceOf t =? nonce then Some t else None
  | None => None
  end.

Fixpoint list_Ready (expectedNonce : Z) (items : list Transaction) : list Transaction :=
  match items with
  | [] => []
  | tx :: items => if negb (nonceOf tx =? expectedNonce) then [] else tx :: list_Ready (expectedNonce +u 1) items
  end.

(** ** The pool *)

Record TxPool := mkTxPool {
  config : TxPoolConfig;
  state : StateReader;
  codeReader : option (Address -> Z);
  baseFee : option Z;
  blobBaseFee : option Z;
  pending : gmap Address (list Transaction);
  queue : gmap Address (list Transaction);
  lookup : gmap Hash Transaction;
}.

Definition NewTxPool (c : TxPoolConfig) (s : StateReader) : TxPool := mkTxPool c s None None None ∅ ∅ ∅.

Definition set_state (s : StateReader) (p : TxPool) : TxPool :=
  mkTxPool (config p) s (codeReader p) (baseFee p) (blobBaseFee p) (pending p) (queue p) (lookup p).
Definition set_baseFee (f : option Z) (p : TxPool) : TxPool :=
  mkTxPool (config p) (state p) (codeReader p) f (blobBaseFee p) (pending p) (queue p) (lookup p).
Definition set_pending (m : gmap Address (list Transaction)) (p : TxPool) : TxPool :=
  mkTxPool (config p) (state p) (codeReader p) (baseFee p) (blobBaseFee p) m (queue p) (lookup p).
Definition set_queue (m : gmap Address (list Transaction)) (p : TxPool) : TxPool :=
  mkTxPool (config p) (state p) (codeReader p) (baseFee p) (blobBaseFee p) (pending p) m (lookup p).
Definition set_lookup (m : gmap Hash Transaction) (p : TxPool) : TxPool :=
  mkTxPool (config p) (state p) (codeReader p) (baseFee p) (blobBaseFee p) (pending p) (queue p) m.

Definition SetBlobBaseFee (f : Z) (p : TxPool) : TxPool :=
  mkTxPool (config p) (state p) (codeReader p) (baseFee p) (Some f) (pending p) (queue p) (lookup p).
Definition SetCodeReader (r : option (Address -> Z)) (p : TxPool) : TxPool :=
  mkTxPool (config p) (state p) r (baseFee p) (blobBaseFee p) (pending p) (queue p) (lookup p).

(** ** Gas of a transaction *)

Definition poolTxCreateGas : Z := 32000.
Definition poolPerAuthBaseCost : Z := 12500.
Definition poolPerEmptyAccountCost : Z := 25000.

Definition IntrinsicGas (data : bytes) (isContractCreation isGlamsterdan : bool) : Z :=
  let gas := if isGlamsterdan then 4500 else 21000 in
  let gas := if isContractCreation then gas +u poolTxCreateGas else gas in
  match data with
  | [] => gas
  | _ =>
      let nz := fold_left (fun nz b => if negb (b =? 0) then nz +u 1 else nz) data 0 in
      let z := u64 (zlen data) -u nz in
      gas +u nz *u 16 +u z *u 4
  end.

Definition AccessListGas (al : AccessList) : Z :=
  fold_left (fun gas t => gas +u 2400 +u u64 (zlen (at_StorageKeys t)) *u 1900) al 0.

(** Tokens of a byte string, added to those counted so far. *)
Definition poolTokens (tokens : Z) (b : bytes) : Z :=
  fold_left (fun tokens x => if x =? 0 then tokens +u 1 else tokens +u 4) b tokens.

Definition AccessListGasGlamst (al : AccessList) : Z :=
  let '(gas, tokens) :=
    fold_left (fun '(gas, tokens) t =>
      (gas +u 3200 +u u64 (zlen (at_StorageKeys t)) *u 2500,
       fold_left (fun tokens key => poolTokens tokens (be_bytes 32 key)) (at_StorageKeys t)
         (poolTokens tokens (be_bytes 20 (at_Address t))))) al (0, 0) in
  gas +u tokens *u 16.

Definition CalldataFloorGas (data : bytes) (isCreate isGlamsterdan : bool) (al : AccessList) : Z :=
  let floor :=
    if isGlamsterdan then
      let tokens := u64 (zlen data) *u 4 in
      let tokens := fold_left (fun tokens t => tokens +u 20 * 4 +u u64 (zlen (at_StorageKeys t)) *u 32 *u 4) al tokens in
      4500 +u tokens *u 16
    else 21000 +u poolTokens 0 data *u 10 in
  if isCreate then floor +u poolTxCreateGas else floor.

Definition isNone {A} (o : option A) : bool := match o with None => true | Some _ => false end.

Definition pool_intrinsicGas (p : TxPool) (tx : TxData) : Z :=
  let accessGas := if pool_IsGlamsterdan (config p) then AccessListGasGlamst (tx_AccessList tx)
                   else AccessListGas (tx_AccessList tx) in
  match tx with
  | AA t =>
      let other (o : option Address) := match o with Some a => negb (a =? aa_Sender t) | None => false end in
      let gas := AABaseCost in
      let gas := if other (aa_Deployer t) then gas +u 2400 else gas in
      let gas := if other (aa_Paymaster t) then gas +u 2400 else gas in
      gas +u accessGas
  | _ => IntrinsicGas (tx_Data tx) (isNone (tx_To tx)) (pool_IsGlamsterdan (config p)) +u accessGas
  end.

(** ** Prices *)

Definition EffectiveGasPrice (tx : TxData) (baseFee : option Z) : Z :=
  let legacy := (txType tx =? LegacyTxType) || (txType tx =? AccessListTxType) in
  match baseFee with
  | Some b =>
      if legacy then default 0 (tx_GasPrice tx)
      else match tx_GasFeeCap tx with
           | None => 0
           | Some feeCap =>
               let effectiveTip := b + default 0 (tx_GasTipCap tx) in
               if effectiveTip >? feeCap then feeCap else effectiveTip
           end
  | None => default 0 (tx_GasPrice tx)
  end.

Definition isDynamic (tx : TxData) : bool :=
  (txType tx =? DynamicFeeTxType) || (txType tx =? BlobTxType) || (txType tx =? SetCodeTxType).

(** [threshold] of a price: ten percent more. *)
Definition bumped (old : Z) : Z := old * (100 + priceBumpPercent) / 100.

Definition hasSufficientBump (p : TxPool) (oldTx newTx : TxData) : bool :=
  if EffectiveGasPrice newTx (baseFee p) <? bumped (EffectiveGasPrice oldTx (baseFee p)) then false
  else if isDynamic oldTx && isDynamic newTx then
    match tx_GasTipCap oldTx, tx_GasTipCap newTx with
    | Some oldTip, Some newTip => negb (newTip <? bumped oldTip)
    | _, _ => true
    end
  else true.

Definition tx_BlobGasFeeCap (t : TxData) : option Z := match t with Blob b => bl_BlobFeeCap b | _ => None end.

Definition txCost (tx : TxData) : Z :=
  let cost := default 0 (tx_GasPrice tx) * tx_Gas tx in
  let cost := match tx_Value tx with Some v => cost + v | None => cost end in
  if txType tx =? BlobTxType then
    match tx_BlobGasFeeCap tx with Some f => cost + f * BlobGas tx | None => cost end
  else cost.

(** ** Static checks *)

(** [SimulateVerifyFrame]: the first VERIFY frame has code to run. *)
Fixpoint SimulateVerifyFrame (sender : Address) (frames : list TxFrame) (codeSize : Address -> Z) : pres :=
  match frames with
  | [] => PErr ErrNoVerifyFrame
  | f :: frames =>
      if negb (fr_Mode f =? ModeVerify) then SimulateVerifyFrame sender frames codeSize
      else refuse (codeSize (default sender (fr_Target f)) =? 0) ErrVerifyTargetNoCode
  end.

(** The paymaster check of one frame. *)
Definition approvedTarget (sender : Address) (approved : Address -> bool) (f : TxFrame) : bool :=
  negb (fr_Mode f =? ModeVerify) ||
  match fr_Target f with None => true | Some t => (t =? sender) || approved t end.

Definition validateFrames (p : TxPool) (tx : TxData) : pres :=
  let frames := tx_Frames tx in
  let has mode := existsb (fun f => fr_Mode f =? mode) frames in
  refuse (tx_Gas tx <? FrameTxIntrinsicCost) ErrIntrinsicGas ;;
  refuse (zlen frames =? 0) ErrNoFrames ;;
  refuse (zlen frames >? 1000) ErrTooManyFrames ;;
  refuse (existsb (fun f => fr_Mode f >? ModeSender) frames) ErrFrameMode ;;
  refuse (has ModeSender && negb (has ModeVerify)) ErrSenderWithoutVerify ;;
  (if PaymasterStrict (config p) then
     match PaymasterRegistry (config p) with
     | Some approved => refuse (negb (forallb (approvedTarget (FrameSender tx) approved) frames)) ErrUnstakedPaymaster
     | None => PNil
     end
   else PNil) ;;
  match codeReader p with
  | Some codeSize => SimulateVerifyFrame (FrameSender tx) frames codeSize
  | None => PNil
  end.

(** [ValidateUserOp] of the operation the pool builds; it has no paymaster
    data. *)
Definition ValidateUserOp (t : AATx) : bool :=
  negb (aa_Sender t =? 0) && negb (aa_SenderValidationGas t <? 10000) && negb (aa_SenderExecutionGas t <? 21000) &&
  match aa_MaxFeePerGas t, aa_MaxPriorityFeePerGas t with
  | Some maxFee, Some tip => negb (maxFee <=? 0) && negb (tip <? 0) && negb (tip >? maxFee)
  | _, _ => false
  end.

Definition validateAA (p : TxPool) (t : AATx) : pres :=
  refuse (negb (AllowAATx (config p))) ErrAATxDisabled ;;
  refuse (negb (ValidateUserOp t)) ErrInvalidUserOp ;;
  match baseFee p with
  | None => PNil
  | Some _ =>
      match MaxUserOpGasCost t (baseFee p), sr_GetBalance (state p) (aa_Sender t) with
      | Some maxCost, Some senderBal => refuse (senderBal <? maxCost) ErrAAInsufficientBalance
      | _, _ => PPanic
      end
  end.

Definition isNegative (o : option Z) : bool := match o with Some x => x <? 0 | None => false end.

(** [a.Cmp(b) < 0] where neither is nil. *)
Definition below (a b : option Z) : bool := match a, b with Some a, Some b => a <? b | _, _ => false end.

(** The checks of [validateTx] that the sender does not take part in, up to
    the type-specific ones, and after them. *)
Definition validateShape (p : TxPool) (tx : TxData) : pres :=
  refuse ((txType tx =? LocalTxType) && negb (AllowLocalTx (config p))) ErrLocalTxDisabled ;;
  refuse (isNegative (tx_Value tx)) ErrNegativeValue ;;
  refuse (isNegative (tx_GasPrice tx)) ErrNegativeGasPrice ;;
  refuse (isNegative (tx_GasFeeCap tx)) ErrNegativeGasPrice ;;
  refuse (tx_Gas tx >? BlockGasLimit (config p)) ErrGasLimit ;;
  match EncodeRLP tx with
  | EOk b => refuse (zlen b >? MaxTxSize) ErrOversizedRLP
  | EErr _ => PNil
  | EPanic => PPanic
  end ;;
  refuse (zlen (tx_Data tx) >? MaxTxSize) ErrOversizedData.

Definition totalIntrinsicGas (p : TxPool) (tx : TxData) : Z :=
  let intrinsicGas := pool_intrinsicGas p tx in
  if txType tx =? SetCodeTxType
  then intrinsicGas +u u64 (zlen (AuthorizationList tx)) *u (poolPerAuthBaseCost + poolPerEmptyAccountCost)
  else intrinsicGas.

Definition validateGas (p : TxPool) (tx : TxData) : pres :=
  refuse (tx_Gas tx <? totalIntrinsicGas p tx) ErrIntrinsicGas ;;
  refuse (pool_IsPrague (config p) && negb (txType tx =? AATxType)
          && (tx_Gas tx <? CalldataFloorGas (tx_Data tx) (isNone (tx_To tx)) (pool_IsGlamsterdan (config p)) (tx_AccessList tx)))
    ErrIntrinsicGas.

Definition validateFees (p : TxPool) (tx : TxData) : pres :=
  refuse (below (tx_GasPrice tx) (MinGasPrice (config p))) ErrUnderpriced ;;
  refuse (isDynamic tx && below (tx_GasFeeCap tx) (tx_GasTipCap tx)) ErrFeeCapBelowTip ;;
  refuse (below (match tx_GasFeeCap tx with Some f => Some f | None => tx_GasPrice tx end) (baseFee p)) ErrFeeCapBelowBaseFee ;;
  (if txType tx =? BlobTxType then
     refuse (zlen (tx_BlobHashes tx) =? 0) ErrBlobTxMissingHashes ;;
     match blobBaseFee p with
     | None => PNil
     | Some f => refuse (match tx_BlobGasFeeCap tx with None => true | Some cap => cap <? f end) ErrBlobFeeCapBelowBaseFee
     end
   else PNil).

(** ** Senders *)

Section Pool.

Context (keccak256 : bytes -> bytes).
Context (Ecrecover : bytes -> bytes -> option bytes).

(** The recovery identifier of the signature value [v]. *)
Definition recoveryByte (tx : TxData) (v : option Z) : Z :=
  match v with
  | None => 0
  | Some v =>
      let vVal := Uint64 v in
      u8 (match tx with
          | Legacy _ =>
              if vVal >=? 35 then
                match tx_ChainId tx with
                | Some chainID => if chainID >? 0 then vVal -u (Uint64 chainID *u 2 +u 35) else vVal
                | None => vVal
                end
              else if vVal >=? 27 then vVal -u 27 else vVal
          | _ => vVal
          end)
  end.

(** [None] is the panic of [sig[32-len(rBytes):32]] with more than 32 bytes. *)
Definition senderOf (tx : Transaction) : option Address :=
  match Transactions.from tx with
  | Some a => Some a
  | None =>
      match inner tx with
      | AA t => Some (aa_Sender t)
      | FrameT t => Some (ft_Sender t)
      | t =>
          let '(v, r, s) := RawSignatureValues t in
          match r, s with
          | Some r, Some s =>
              if (zlen (Bytes r) >? 32) || (zlen (Bytes s) >? 32) then None
              else
                let sig := be_bytes 32 (Z.abs r) ++ be_bytes 32 (Z.abs s) ++ [recoveryByte t v] in
                match Ecrecover (be_bytes 32 (SigningHash keccak256 t)) sig with
                | None => Some 0
                | Some pub => Some (BytesToAddress (drop 12 (keccak256 (drop 1 pub))))
                end
          | _, _ => Some 0
          end
      end
  end.

Definition payerOf (tx : Transaction) : option Address :=
  match inner tx with
  | AA t => Some (default (aa_Sender t) (aa_Paymaster t))
  | _ => senderOf tx
  end.

Definition validateBalance (p : TxPool) (tx : Transaction) : pres :=
  match payerOf tx with
  | None => PPanic
  | Some payer =>
      match sr_GetBalance (state p) payer with
      | Some balance => refuse (balance <? txCost (inner tx)) ErrInsufficientFunds
      | None => PNil
      end
  end.

Definition validateTx (p : TxPool) (tx : Transaction) : pres :=
  validateShape p (inner tx) ;;
  match inner tx with
  | FrameT _ => validateFrames p (inner tx)
  | AA t => validateAA p t
  | _ => PNil
  end ;;
  validateGas p (inner tx) ;;
  validateFees p (inner tx) ;;
  match inner tx with FrameT _ => PNil | _ => validateBalance p tx end.

(** ** Moving transactions *)

Definition tx_hash (tx : Transaction) : Hash := tx_Hash keccak256 (inner tx).

Definition items_of (m : gmap Address (list Transaction)) (a : Address) : list Transaction := default [] (m !! a).

(** Store a list, dropping the entry when it is empty. *)
Definition keep (a : Address) (l : list Transaction) (m : gmap Address (list Transaction)) :=
  match l with [] => base.delete a m | _ => <[a := l]> m end.

Definition addPending (from : Address) (tx : Transaction) (p : TxPool) : TxPool :=
  set_pending (<[from := list_Add tx (items_of (pending p) from)]> (pending p)) p.

Definition addQueue (from : Address) (tx : Transaction) (p : TxPool) : TxPool :=
  set_queue (<[from := list_Add tx (items_of (queue p) from)]> (queue p)) p.

(** [list.Remove(nonce)] on the list of a sender, which is in the map. *)
Definition removePending (from : Address) (nonce : Z) (p : TxPool) : TxPool :=
  set_pending (alter (fun l => (list_Remove nonce l).1) from (pending p)) p.

Definition removeQueue (from : Address) (nonce : Z) (p : TxPool) : TxPool :=
  set_queue (alter (fun l => (list_Remove nonce l).1) from (queue p)) p.

(** [if list.Len() == 0 { delete(...) }] *)
Definition dropEmptyPending (from : Address) (p : TxPool) : TxPool :=
  set_pending (keep from (items_of (pending p) from) (pending p)) p.

Definition dropEmptyQueue (from : Address) (p : TxPool) : TxPool :=
  set_queue (keep from (items_of (queue p) from) (queue p)) p.

Definition lookupRemove (h : Hash) (p : TxPool) : TxPool := set_lookup (base.delete h (lookup p)) p.

Definition nextNonce (from : Address) (p : TxPool) : Z :=
  match last (items_of (pending p) from) with
  | Some t => nonceOf t +u 1
  | None => sr_GetNonce (state p) from
  end.

Definition promoteQueue (from : Address) (p : TxPool) : TxPool :=
  match queue p !! from with
  | None | Some [] => p
  | Some queueList =>
      let promoted := list_Ready (nextNonce from p) queueList in
      let p := fold_left (fun p tx => removeQueue from (nonceOf tx) (addPending from tx p)) promoted p in
      dropEmptyQueue from p
  end.

Definition senderTxCount (from : Address) (p : TxPool) : Z :=
  zlen (items_of (pending p) from) + zlen (items_of (queue p) from).

(** [(true, nil)], [(false, nil)] or the error, with the pool after it. *)
Definition checkReplacement (from : Address) (tx : Transaction) (p : TxPool) : TxPool * (bool + pool_error) :=
  let against old (p : TxPool) :=
    if negb (hasSufficientBump p (inner old) (inner tx)) then (p, inr ErrReplacementUnderpriced)
    else (lookupRemove (tx_hash old) p, inl true) in
  match list_Get (nonceOf tx) (items_of (pending p) from) with
  | Some old => against old p
  | None =>
      match list_Get (nonceOf tx) (items_of (queue p) from) with
      | Some old => against old p
      | None => (p, inl false)
      end
  end.

(** ** Eviction *)

Record candidate := mkCandidate {
  c_tx : Transaction;
  c_from : Address;
  c_price : Z;
  c_queue : bool;
}.

Definition candidates (o : GoOrder) (fee : option Z) (p : TxPool) : list candidate :=
  concat (map (fun al =>
    if (length al.2 <=? 1)%nat then []
    else match last al.2 with
         | Some tx => [mkCandidate tx al.1 (EffectiveGasPrice (inner tx) fee) false]
         | None => []
         end) (rangeMap o (pending p))) ++
  concat (map (fun al => map (fun tx => mkCandidate tx al.1 (EffectiveGasPrice (inner tx) fee) true) al.2)
    (rangeMap o (queue p))).

(** The number of evicted transactions. *)
Definition evictLowest (o : GoOrder) (fee : option Z) (p : TxPool) : TxPool * Z :=
  match sortSlice o (fun a b => c_price a <? c_price b) (candidates o fee p) with
  | [] => (p, 0)
  | c :: _ =>
      let p := lookupRemove (tx_hash (c_tx c)) p in
      let p := if c_queue c then dropEmptyQueue (c_from c) (removeQueue (c_from c) (nonceOf (c_tx c)) p)
               else dropEmptyPending (c_from c) (removePending (c_from c) (nonceOf (c_tx c)) p) in
      (p, 1)
  end.

(** ** Adding *)

(** The pool and the error of [add]; [None] is a panic. *)
Definition pool_add (o : GoOrder) (tx : Transaction) (p : TxPool) : option (TxPool * option pool_error) :=
  match lookup p !! tx_hash tx with
  | Some _ => Some (p, Some ErrAlreadyKnown)
  | None =>
  match validateTx p tx with
  | PPanic => None
  | PErr e => Some (p, Some e)
  | PNil =>
  match senderOf tx with
  | None => None
  | Some from =>
  let stateNonce := sr_GetNonce (state p) from in
  if nonceOf tx <? stateNonce then Some (p, Some ErrNonceTooLow)
  else if nonceOf tx >? stateNonce +u MaxNonceGap then Some (p, Some ErrNonceTooHigh)
  else
  match checkReplacement from tx p with
  | (p, inr e) => Some (p, Some e)
  | (p, inl replaced) =>
  if negb replaced && (senderTxCount from p >=? MaxPerSender (config p)) then Some (p, Some ErrSenderLimitExceeded)
  else
  let full := negb replaced && (Z.of_nat (size (lookup p)) >=? MaxSize (config p)) in
  let '(p, evicted) := if full then evictLowest o (baseFee p) p else (p, 1) in
  if evicted =? 0 then Some (p, Some ErrTxPoolFull)
  else
  let p := set_lookup (<[tx_hash tx := tx]> (lookup p)) p in
  let p := if nonceOf tx =? stateNonce then addPending from tx p else addQueue from tx p in
  Some (promoteQueue from p, None)
  end
  end
  end
  end.

(** [AddLocal] and [AddRemote] *)
Definition AddLocal := pool_add.
Definition AddRemote := pool_add.

(** ** Removing, resetting, base fee *)

Definition pool_Remove (h : Hash) (p : TxPool) : option TxPool :=
  match lookup p !! h with
  | None => Some p
  | Some tx =>
      match senderOf tx with
      | None => None
      | Some from =>
          let p := lookupRemove h p in
          let wasPending := (list_Remove (nonceOf tx) (items_of (pending p) from)).2 in
          let p := dropEmptyPending from (removePending from (nonceOf tx) p) in
          let p := dropEmptyQueue from (removeQueue from (nonceOf tx) p) in
          Some (if wasPending then promoteQueue from p else p)
      end
  end.

(** One round of the loop over the pending lists. *)
Definition resetSender (addr : Address) (items : list Transaction) (p : TxPool) : TxPool :=
  let stateNonce := sr_GetNonce (state p) addr in
  let toRemove := filter (fun tx => nonceOf tx < stateNonce) items in
  let toQueue := filter (fun tx => stateNonce < nonceOf tx) items in
  let p := fold_left (fun p tx => lookupRemove (tx_hash tx) p) toRemove p in
  let p := fold_left (fun p tx => removePending addr (nonceOf tx) p) toRemove p in
  let p := fold_left (fun p tx => addQueue addr tx (removePending addr (nonceOf tx) p)) toQueue p in
  dropEmptyPending addr p.

Definition pool_Reset (o : GoOrder) (s : StateReader) (p : TxPool) : TxPool :=
  let p := set_state s p in
  let p := fold_left (fun p al => resetSender al.1 al.2 p) (rangeMap o (pending p)) p in
  fold_left (fun p al => promoteQueue al.1 p) (rangeMap o (queue p)) p.

Definition demoteSender (fee : Z) (addr : Address) (items : list Transaction) (p : TxPool) : TxPool :=
  let feeCap tx := match tx_GasFeeCap tx with Some f => Some f | None => tx_GasPrice tx end in
  let demote := filter (fun tx => below (feeCap (inner tx)) (Some fee) = true) items in
  dropEmptyPending addr
    (fold_left (fun p tx => addQueue addr tx (removePending addr (nonceOf tx) p)) demote p).

Definition SetBaseFee (o : GoOrder) (fee : Z) (p : TxPool) : TxPool :=
  let p := set_baseFee (Some fee) p in
  fold_left (fun p al => demoteSender fee al.1 al.2 p) (rangeMap o (pending p)) p.

(** ** Reading *)

Definition pool_Get (h : Hash) (p : TxPool) : option Transaction := lookup p !! h.

Definition pool_Count (p : TxPool) : Z := Z.of_nat (size (lookup p)).

Definition countItems (o : GoOrder) (m : gmap Address (list Transaction)) : Z :=
  fold_left (fun n al => n + zlen al.2) (rangeMap o m) 0.

Definition PendingCount (o : GoOrder) (p : TxPool) : Z := countItems o (pending p).
Definition QueuedCount (o : GoOrder) (p : TxPool) : Z := countItems o (queue p).

(** [senderGroup]: the transactions and the price of the first. *)
Definition senderGroups (o : GoOrder) (p : TxPool) : list (list Transaction * Z) :=
  concat (map (fun al =>
    match al.2 with
    | [] => []
    | tx :: _ => [(al.2, EffectiveGasPrice (inner tx) (baseFee p))]
    end) (rangeMap o (pending p))).

Definition PendingFlat (o : GoOrder) (p : TxPool) : list Transaction :=
  concat (map fst (sortStable (fun gi gj => gi.2 >? gj.2) (senderGroups o p))).

Definition PendingSorted (o : GoOrder) (p : TxPool) : list Transaction :=
  sortSlice o (fun a b => EffectiveGasPrice (inner a) (baseFee p) >? EffectiveGasPrice (inner b) (baseFee p))
    (concat (map snd (rangeMap o (pending p)))).

Record BlobAndProof := mkBlobAndProof {
  bp_Blob : bytes;
  bp_Commitment : bytes;
  bp_Proof : bytes;
}.

(** The blobs of one transaction, in the order of its hashes; the loop breaks
    where the sidecar ends. *)
Definition blobEntries (tx : Transaction) : list (Hash * BlobAndProof) :=
  match inner tx, sidecar tx with
  | Blob t, Some sc =>
      zip_with (fun h bcp => (h, mkBlobAndProof bcp.1.1 bcp.1.2 bcp.2)) (bl_BlobHashes t)
        (zip (zip (sd_Blobs sc) (sd_Commitments sc)) (sd_Proofs sc))
  | _, _ => []
  end.

Definition GetBlobsByVersionedHashes (o : GoOrder) (hashes : list Hash) (p : TxPool) : list (option BlobAndProof) :=
  let all m := concat (map (fun al => concat (map blobEntries al.2)) (rangeMap o m)) in
  let index := fold_left (fun m e => <[e.1 := e.2]> m) (all (pending p)) (∅ : gmap Hash BlobAndProof) in
  let index := fold_left (fun m e => match m !! e.1 with Some _ => m | None => <[e.1 := e.2]> m end)
                 (all (queue p)) index in
  map (fun h => index !! h) hashes.

End Pool.
