(* ===== verification/TxPoolProofs.v ===== *)
(** * TxPoolProofs: what the transaction pool guarantees

    The lists stay sorted, under their senders; [Reset] and [add] keep every
    sender's pending transactions gap-free; submissions in any order become
    pending; and where the pool does not do what it means to. *)

From stdpp Require Import gmap sorting.
From Stdlib Require Import Sorting.Sorted.
From S2P Require Import Prelude Rlp StateDB Transactions TxPool.

(** ** Binary search *)

Lemma searchLoop_spec f n fuel i j :
  (forall a b, (a <= b < n)%nat -> f a = true -> f b = true) ->
  (i <= j <= n)%nat -> (j - i <= fuel)%nat ->
  (forall a, (a < i)%nat -> f a = false) -> (forall a, (j <= a < n)%nat -> f a = true) ->
  let r := searchLoop fuel f i j in
  (r <= n)%nat /\ (forall a, (a < r)%nat -> f a = false) /\ (forall a, (r <= a < n)%nat -> f a = true).
Proof.
  intros Hm. revert i j. induction fuel as [|fuel IH]; intros i j Hij Hf Hlo Hhi; cbn [searchLoop].
  - assert (i = j) as -> by lia. split; [lia|done].
  - destruct (Nat.ltb_spec i j) as [Hlt|]; [|assert (i = j) as -> by lia; split; [lia|done]].
    assert (i <= (i + j) / 2 < j)%nat as Hh.
    { split; [apply Nat.div_le_lower_bound; lia|apply Nat.Div0.div_lt_upper_bound; lia]. }
    set (h := ((i + j) / 2)%nat) in *. destruct (f h) eqn:E; cbn [negb].
    + apply IH; [lia|lia|done|]. intros a Ha. apply (Hm h); [lia|done].
    + apply IH; [lia|lia| |done]. intros a Ha. destruct (f a) eqn:Ea; [|done].
      rewrite (Hm a h) in E; [done|lia|done].
Qed.

(** The first index at which a monotone predicate holds. *)
Lemma goSearch_first f n r :
  (r <= n)%nat -> (forall a, (a < r)%nat -> f a = false) -> (forall a, (r <= a < n)%nat -> f a = true) ->
  goSearch n f = r.
Proof.
  intros Hr Hlo Hhi. unfold goSearch.
  destruct (searchLoop_spec f n n 0 n) as (H1 & H2 & H3); [|lia|lia|lia|lia|].
  { intros a b Hab Ha. apply Hhi. split; [|lia]. destruct (Nat.le_gt_cases r a); [lia|]. by rewrite Hlo in Ha. }
  set (x := searchLoop n f 0 n) in *. destruct (Nat.lt_trichotomy x r) as [|[|]]; [|done|].
  - pose proof (H3 x ltac:(lia)). by rewrite Hlo in *.
  - pose proof (H2 r ltac:(lia)). by rewrite Hhi in * by lia.
Qed.

(** ** Lists sorted by nonce *)

Definition nsorted : list Transaction -> Prop := StronglySorted (fun a b => nonceOf a < nonceOf b).

Lemma nsorted_app a b :
  nsorted (a ++ b) <-> nsorted a /\ nsorted b /\ forall x y, x ∈ a -> y ∈ b -> nonceOf x < nonceOf y.
Proof.
  unfold nsorted. induction a as [|t a IH]; simpl.
  - split; [intros H; split; [constructor|split; [done|set_solver]]|by intros (_ & H & _)].
  - split.
    + intros [H1 H2]%StronglySorted_inv. apply IH in H1 as (Ha & Hb & Hab). apply Forall_app in H2 as [F1 F2].
      split; [by constructor|]. split; [done|]. intros x y [->|Hx]%elem_of_cons Hy; [|by apply Hab].
      rewrite Forall_forall in F2. by apply F2.
    + intros (Ha & Hb & Hab). apply StronglySorted_inv in Ha as [H1 H2]. constructor.
      * apply IH. split; [done|]. split; [done|]. intros x y Hx Hy. apply Hab; [by right|done].
      * apply Forall_app. split; [done|]. apply Forall_forall. intros y Hy. apply Hab; [by left|done].
Qed.

Lemma nsorted_split n l : nsorted l -> exists a b, l = a ++ b /\
  Forall (fun t => nonceOf t < n) a /\ Forall (fun t => n <= nonceOf t) b.
Proof.
  induction l as [|t l IH]; intros Hs; [by exists [], []|].
  apply StronglySorted_inv in Hs as [Hs Ht]. destruct (Z.lt_ge_cases (nonceOf t) n) as [Hlt|Hge].
  - destruct (IH Hs) as (a & b & -> & Ha & Hb). exists (t :: a), b. split; [done|]. split; [by constructor|done].
  - exists [], (t :: l). split; [done|]. split; [done|]. constructor; [done|].
    eapply Forall_impl; [exact Ht|]. simpl. lia.
Qed.

Lemma search_split n a b :
  Forall (fun t => nonceOf t < n) a -> Forall (fun t => n <= nonceOf t) b ->
  goSearch (length (a ++ b)) (nonceAtLeast (a ++ b) n) = length a.
Proof.
  intros Ha Hb. rewrite Forall_lookup in Ha, Hb. apply goSearch_first.
  - rewrite length_app. lia.
  - intros i Hi. unfold nonceAtLeast. rewrite lookup_app_l by done.
    destruct (lookup_lt_is_Some_2 a i Hi) as [t Ht]. rewrite Ht. specialize (Ha i t Ht). rewrite Z.geb_leb.
    by apply Z.leb_gt.
  - intros i [Hi Hl]. unfold nonceAtLeast. rewrite lookup_app_r by done. destruct (b !! _) as [t|] eqn:Ht; [|done].
    specialize (Hb _ t Ht). rewrite Z.geb_leb. by apply Z.leb_le.
Qed.

(** The list operations on a split list. *)
Lemma add_split tx a b :
  Forall (fun t => nonceOf t < nonceOf tx) a -> Forall (fun t => nonceOf tx <= nonceOf t) b ->
  list_Add tx (a ++ b) = a ++ tx :: match b with
                                    | [] => []
                                    | t :: b' => if nonceOf t =? nonceOf tx then b' else b
                                    end.
Proof.
  intros Ha Hb. unfold list_Add. rewrite (search_split _ _ _ Ha Hb), take_app_length, drop_app_length.
  rewrite lookup_app_r, Nat.sub_diag by done. destruct b as [|t b]; [done|]. simpl.
  destruct (_ =? _); [|done]. by rewrite insert_app_r_alt, Nat.sub_diag by done.
Qed.

Lemma get_split n a b :
  Forall (fun t => nonceOf t < n) a -> Forall (fun t => n <= nonceOf t) b ->
  list_Get n (a ++ b) = match b with
                        | [] => None
                        | t :: _ => if nonceOf t =? n then Some t else None
                        end.
Proof.
  intros Ha Hb. unfold list_Get. rewrite (search_split _ _ _ Ha Hb).
  rewrite lookup_app_r, Nat.sub_diag by done. by destruct b.
Qed.

Lemma get_Some n l t : nsorted l -> list_Get n l = Some t -> t ∈ l /\ nonceOf t = n.
Proof.
  intros (a & b & -> & Ha & Hb)%(nsorted_split n). rewrite get_split by done. destruct b as [|x b]; [done|].
  destruct (Z.eqb_spec (nonceOf x) n) as [<-|]; [|done]. intros [= <-]. split; [|done].
  apply elem_of_app. right. by left.
Qed.

Lemma get_None n l : nsorted l -> list_Get n l = None -> Forall (fun t => nonceOf t <> n) l.
Proof.
  intros Hs. destruct (nsorted_split n l Hs) as (a & b & -> & Ha & Hb). rewrite get_split by done. intros Hn.
  apply Forall_app. split; [eapply Forall_impl; [exact Ha|]; simpl; lia|].
  destruct b as [|x b]; [done|]. apply nsorted_app in Hs as (_ & Hs & _). apply StronglySorted_inv in Hs as [_ Hx].
  destruct (Z.eqb_spec (nonceOf x) n); [done|]. inversion Hb as [|? ? Hxn Hb']; subst. constructor; [done|].
  eapply Forall_impl; [exact Hx|]. simpl. lia.
Qed.

Lemma add_sorted tx l : nsorted l -> nsorted (list_Add tx l).
Proof.
  intros Hs. destruct (nsorted_split (nonceOf tx) l Hs) as (a & b & -> & Ha & Hb). rewrite add_split by done.
  apply nsorted_app in Hs as (Sa & Sb & Hab). rewrite Forall_forall in Ha.
  assert (exists b', match b with [] => [] | t :: b' => if nonceOf t =? nonceOf tx then b' else b end = b' /\
    nsorted b' /\ Forall (fun t => nonceOf tx < nonceOf t) b') as (b' & -> & Sb' & Hb').
  { destruct b as [|t b]; [by exists []|]. pose proof Sb as [Sb1 Ht]%StronglySorted_inv.
    inversion Hb as [|? ? Htx Hb1]; subst. destruct (Z.eqb_spec (nonceOf t) (nonceOf tx)) as [E|].
    - exists b. split; [done|]. split; [done|]. eapply Forall_impl; [exact Ht|]. simpl. lia.
    - exists (t :: b). split; [done|]. split; [done|]. constructor; [lia|]. eapply Forall_impl; [exact Ht|]. simpl. lia. }
  apply nsorted_app. split; [done|]. split; [by constructor|]. rewrite Forall_forall in Hb'.
  intros x y Hx [->|Hy]%elem_of_cons; [by apply Ha|]. specialize (Ha x Hx). specialize (Hb' y Hy). simpl in *. lia.
Qed.

Lemma add_elem tx l t : t ∈ list_Add tx l -> t = tx \/ t ∈ l.
Proof.
  unfold list_Add. set (i := goSearch _ _). intros H.
  assert (t ∈ take i l ++ tx :: drop i l -> t = tx \/ t ∈ l) as Hp.
  { rewrite elem_of_app, elem_of_cons. intros [H1|[->|H1]]; [right|by left|right].
    - by apply elem_of_take in H1 as (? & ? & _); eapply list_elem_of_lookup_2.
    - apply (list_elem_of_lookup_1) in H1 as [k Hk]. rewrite lookup_drop in Hk. by eapply list_elem_of_lookup_2. }
  destruct (l !! i) as [old|] eqn:E; [|by apply Hp]. destruct (_ =? _); [|by apply Hp].
  apply list_elem_of_lookup_1 in H as [k Hk]. apply list_lookup_insert_Some in Hk as [(_ & -> & _)|[_ Hk]]; [by left|right].
  by eapply list_elem_of_lookup_2.
Qed.

Lemma add_nonempty tx l : list_Add tx l <> [].
Proof.
  unfold list_Add. destruct (l !! _) as [old|] eqn:E; [|by destruct (take _ l)].
  destruct (_ =? _); [|by destruct (take _ l)]. intros H. apply (f_equal length) in H. rewrite length_insert in H.
  by destruct l.
Qed.

Lemma remove_sublist n l : sublist (list_Remove n l).1 l.
Proof.
  induction l as [|t l IH]; [done|]. simpl. destruct (_ =? _); simpl; [by apply sublist_cons|by apply sublist_skip].
Qed.

Lemma nsorted_sublist l k : sublist l k -> nsorted k -> nsorted l.
Proof.
  induction 1 as [|t l k Hs IH|t l k _ IH]; [done| |].
  - intros [H1 H2]%StronglySorted_inv. constructor; [by apply IH|].
    apply Forall_forall. intros x Hx. rewrite Forall_forall in H2. apply H2. by eapply elem_of_sublist.
  - intros [H1 _]%StronglySorted_inv. by apply IH.
Qed.

Lemma filter_all (P : Transaction -> Prop) `{!forall x, Decision (P x)} l : Forall P l -> filter P l = l.
Proof. induction 1; [done|]. by rewrite filter_cons_True, IHForall. Qed.

Lemma remove_filter n l : nsorted l -> (list_Remove n l).1 = filter (fun t => nonceOf t <> n) l.
Proof.
  induction l as [|t l IH]; [done|]. intros [H1 H2]%StronglySorted_inv. simpl.
  destruct (Z.eqb_spec (nonceOf t) n) as [E|E]; simpl.
  - rewrite filter_cons_False by (by intros ?). symmetry. apply filter_all.
    eapply Forall_impl; [exact H2|]. simpl. lia.
  - by rewrite filter_cons_True, IH by done.
Qed.

(** Removing a selection of a sorted list, one nonce at a time. *)
Definition remove_all (txs l : list Transaction) : list Transaction :=
  fold_left (fun l tx => (list_Remove (nonceOf tx) l).1) txs l.

Lemma remove_all_sublist txs l : sublist (remove_all txs l) l.
Proof.
  revert l. induction txs as [|t txs IH]; intros l; [done|]. etrans; [apply IH|apply remove_sublist].
Qed.

Lemma nsorted_inj l x y : nsorted l -> x ∈ l -> y ∈ l -> nonceOf x = nonceOf y -> x = y.
Proof.
  induction l as [|t l IH]; [by intros _ ?%elem_of_nil|]. intros [H1 H2]%StronglySorted_inv. rewrite Forall_forall in H2.
  intros [->|Hx]%elem_of_cons [->|Hy]%elem_of_cons E; [done| | |by apply IH];
    [specialize (H2 y Hy)|specialize (H2 x Hx)]; simpl in H2; lia.
Qed.

Lemma remove_all_elem txs l x :
  nsorted l -> x ∈ remove_all txs l <-> x ∈ l /\ Forall (fun t => nonceOf x <> nonceOf t) txs.
Proof.
  revert l. induction txs as [|t txs IH]; intros l Hs; simpl; [split; [by split|by intros [? _]]|].
  rewrite IH by (eapply nsorted_sublist; [apply remove_sublist|done]).
  rewrite remove_filter, list_elem_of_filter, Forall_cons by done. tauto.
Qed.

Lemma remove_all_selected (P : Transaction -> Prop) `{!forall x, Decision (P x)} l x :
  nsorted l -> x ∈ remove_all (filter P l) l <-> x ∈ l /\ ~ P x.
Proof.
  intros Hs. rewrite remove_all_elem, Forall_forall by done. split.
  - intros [Hx Ha]. split; [done|]. intros Hp. apply (Ha x); [by apply list_elem_of_filter|done].
  - intros [Hx Hp]. split; [done|]. intros y [Py Hy]%list_elem_of_filter E. apply Hp.
    by rewrite (nsorted_inj l x y).
Qed.

(** ** Runs of consecutive nonces *)

(** [list_Ready n l = l]: the list is a gap-free run from [n]. *)
Lemma ready_prefix n l : list_Ready n l `prefix_of` l.
Proof.
  revert n. induction l as [|t l IH]; intros n; [done|]. simpl. destruct (negb _); [apply prefix_nil|].
  by apply prefix_cons.
Qed.

Lemma ready_sublist n l : sublist (list_Ready n l) l.
Proof. destruct (ready_prefix n l) as [k E]. rewrite E at 2. by apply sublist_inserts_r. Qed.

Lemma ready_idem n l : list_Ready n (list_Ready n l) = list_Ready n l.
Proof.
  revert n. induction l as [|t l IH]; intros n; [done|]. simpl. destruct (nonceOf t =? n) eqn:E; simpl; [|done].
  by rewrite E, IH.
Qed.

Definition after (n : Z) (l : list Transaction) : Z :=
  match last l with Some t => nonceOf t +u 1 | None => n end.

Lemma after_cons n t l : after n (t :: l) = after (nonceOf t +u 1) l.
Proof. unfold after. destruct l as [|x l]; [done|]. rewrite last_cons_cons.
  destruct (last (x :: l)) eqn:E; [done|]. by apply last_None in E.
Qed.

Lemma ready_app n l k : list_Ready n l = l -> list_Ready n (l ++ k) = l ++ list_Ready (after n l) k.
Proof.
  revert n. induction l as [|t l IH]; intros n; [done|]. rewrite after_cons. simpl.
  destruct (Z.eqb_spec (nonceOf t) n) as [<-|]; [|done]. simpl. intros [= H]. by rewrite IH.
Qed.

Lemma ready_run n l : exists k, l = list_Ready n l ++ k /\ list_Ready (after n (list_Ready n l)) k = [].
Proof.
  destruct (ready_prefix n l) as [k E]. exists k. split; [done|].
  pose proof (ready_app n (list_Ready n l) k (ready_idem n l)) as H. rewrite <- E in H.
  rewrite <- (app_nil_r (list_Ready n l)) in H at 1. by apply app_inv_head in H.
Qed.

(** ** The maps of lists *)

Section Pool.

Context (keccak256 : bytes -> bytes).
Context (Ecrecover : bytes -> bytes -> option bytes).

Abbreviation senderOf := (senderOf keccak256 Ecrecover).
Abbreviation tx_hash := (tx_hash keccak256).

(** The largest nonce is unusable (EIP-2681). *)
Definition tx_ok (a : Address) (tx : Transaction) : Prop :=
  senderOf tx = Some a /\ 0 <= nonceOf tx < 2 ^ 64 - 1.

Record list_ok (a : Address) (l : list Transaction) : Prop := {
  lo_sorted : nsorted l;
  lo_txs : Forall (tx_ok a) l;
}.

(** Lists are sorted, under their sender, and not empty. *)
Definition lists_ok (m : gmap Address (list Transaction)) : Prop :=
  forall a l, m !! a = Some l -> list_ok a l /\ l <> [].

Lemma list_ok_nil a : list_ok a [].
Proof. split; constructor. Qed.

Lemma list_ok_sublist a l k : sublist l k -> list_ok a k -> list_ok a l.
Proof.
  intros Hs [H1 H2]. split; [by eapply nsorted_sublist|]. rewrite Forall_forall in *.
  intros x Hx. apply H2. by eapply elem_of_sublist.
Qed.

Lemma list_ok_add a tx l : tx_ok a tx -> list_ok a l -> list_ok a (list_Add tx l).
Proof.
  intros Ht [H1 H2]. split; [by apply add_sorted|]. rewrite Forall_forall in *.
  intros x [->|Hx]%add_elem; [done|by apply H2].
Qed.

Lemma items_ok m a : lists_ok m -> list_ok a (items_of m a).
Proof. intros H. unfold items_of. destruct (m !! a) as [l|] eqn:E; [by apply H|apply list_ok_nil]. Qed.

Lemma lists_ok_insert m a l : lists_ok m -> list_ok a l -> l <> [] -> lists_ok (<[a := l]> m).
Proof. intros H Hl Hn b k [[-> ->]|[_ Hk]]%lookup_insert_Some; [done|by apply H]. Qed.

Lemma lists_ok_keep m a l : lists_ok m -> list_ok a l -> lists_ok (keep a l m).
Proof.
  intros H Hl. destruct l as [|t l]; [|by apply lists_ok_insert]. intros b k Hk.
  unfold keep in Hk. apply lookup_delete_Some in Hk as [_ Hk]. by apply H.
Qed.

Lemma items_keep m a l : items_of (keep a l m) a = l.
Proof. unfold items_of, keep. destruct l; [by rewrite lookup_delete_eq|by rewrite lookup_insert_eq]. Qed.

Lemma items_insert m a l : items_of (<[a := l]> m) a = l.
Proof. unfold items_of. by rewrite lookup_insert_eq. Qed.

Lemma keep_ne m a b l : a <> b -> keep a l m !! b = m !! b.
Proof. intros H. unfold keep. destruct l; [by rewrite lookup_delete_ne|by rewrite lookup_insert_ne]. Qed.

Lemma items_ne m m' b : m !! b = m' !! b -> items_of m b = items_of m' b.
Proof. unfold items_of. by intros ->. Qed.

Lemma keep_alter (f : list Transaction -> list Transaction) a m :
  f [] = [] -> keep a (items_of (alter f a m) a) (alter f a m) = keep a (f (items_of m a)) m.
Proof.
  intros Hf. assert (items_of (alter f a m) a = f (items_of m a)) as ->.
  { unfold items_of. rewrite lookup_alter_eq. by destruct (m !! a). }
  apply map_eq. intros b. destruct (decide (a = b)) as [->|Hn].
  - unfold keep. destruct (f (items_of m b)).
    + by rewrite !lookup_delete_eq.
    + by rewrite !lookup_insert_eq.
  - by rewrite !keep_ne, lookup_alter_ne by done.
Qed.

(** ** Removal *)

Lemma drop_removePending a n p :
  dropEmptyPending a (removePending a n p) = set_pending (keep a (list_Remove n (items_of (pending p) a)).1 (pending p)) p.
Proof. unfold dropEmptyPending, removePending. simpl. by rewrite keep_alter. Qed.

Lemma drop_removeQueue a n p :
  dropEmptyQueue a (removeQueue a n p) = set_queue (keep a (list_Remove n (items_of (queue p) a)).1 (queue p)) p.
Proof. unfold dropEmptyQueue, removeQueue. simpl. by rewrite keep_alter. Qed.

(** ** Promotion *)

Lemma add_last P t : nsorted (P ++ [t]) -> list_Add t P = P ++ [t].
Proof.
  intros (_ & _ & H)%nsorted_app. rewrite <- (app_nil_r P) at 1. rewrite add_split; [done| |done].
  apply Forall_forall. intros x Hx. apply H; [done|by left].
Qed.

Lemma promote_fold from r : forall p P q,
  items_of (pending p) from = P -> queue p !! from = Some (r ++ q) -> nsorted (P ++ r) ->
  fold_left (fun p tx => removeQueue from (nonceOf tx) (addPending from tx p)) r p
  = set_pending (match r with [] => pending p | _ => <[from := P ++ r]> (pending p) end)
      (set_queue (<[from := q]> (queue p)) p).
Proof.
  induction r as [|t r IH]; intros p P q HP Hq Hs; simpl.
  - rewrite insert_id by done. by destruct p.
  - assert (nsorted (P ++ [t])) as Hs1.
    { replace (P ++ t :: r) with ((P ++ [t]) ++ r) in Hs by (by rewrite <- app_assoc). by apply nsorted_app in Hs as [? _]. }
    rewrite (IH _ (P ++ [t]) q).
    + simpl. rewrite HP, add_last, insert_alter, decide_True by done. rewrite <- app_assoc. simpl.
      destruct r; [done|]. by rewrite insert_insert_eq.
    + simpl. rewrite items_insert, HP. by apply add_last.
    + simpl. rewrite lookup_alter_eq, Hq. simpl. by rewrite Z.eqb_refl.
    + by rewrite <- app_assoc.
Qed.

(** The nonces that follow the list, if the last one is not the largest. *)
Lemma after_above n P a : list_ok a P -> Forall (fun t => nonceOf t < after n P) P.
Proof.
  intros [Hs Ht]. unfold after. destruct (last P) as [t|] eqn:E; [|by apply last_None in E as ->].
  apply last_Some in E as [P' ->]. apply Forall_app in Ht as [_ Ht]. inversion Ht as [|? ? [_ Ht'] _]; subst.
  assert (nonceOf t +u 1 = nonceOf t + 1) as -> by (unfold u64; rewrite Z.mod_small; lia).
  apply nsorted_app in Hs as (_ & _ & H). apply Forall_app. split; [|repeat constructor; lia].
  apply Forall_forall. intros x Hx. specialize (H x t Hx ltac:(by left)). simpl in H. lia.
Qed.

Lemma ready_sorted n P q a : list_ok a P -> nsorted q -> nsorted (P ++ list_Ready (after n P) q).
Proof.
  intros HP Hq. apply nsorted_app. pose proof (after_above n P a HP) as Ha. rewrite Forall_forall in Ha.
  assert (nsorted (list_Ready (after n P) q)) as Hr.
  { eapply nsorted_sublist; [|exact Hq]. apply ready_sublist. }
  split; [apply HP|]. split; [done|]. intros x y Hx Hy. specialize (Ha x Hx).
  destruct (list_Ready (after n P) q) as [|t r] eqn:E; [by apply elem_of_nil in Hy|].
  assert (nonceOf t = after n P) as Et.
  { destruct q as [|u q]; [done|]. simpl in E. destruct (Z.eqb_spec (nonceOf u) (after n P)); [|done]. by injection E as -> _. }
  apply elem_of_cons in Hy as [->|Hy]; [lia|]. apply StronglySorted_inv in Hr as [_ Hr].
  rewrite Forall_forall in Hr. specialize (Hr y Hy). simpl in Hr. lia.
Qed.

(** What [promoteQueue] does: the run that follows the pending transactions
    moves over. *)
Definition promoted_of (from : Address) (p : TxPool) : list Transaction :=
  list_Ready (after (sr_GetNonce (state p) from) (items_of (pending p) from)) (items_of (queue p) from).

Lemma promoteQueue_eq from p q :
  lists_ok (pending p) -> lists_ok (queue p) -> items_of (queue p) from = promoted_of from p ++ q ->
  promoteQueue from p
  = set_pending (match promoted_of from p with
                 | [] => pending p
                 | r => <[from := items_of (pending p) from ++ r]> (pending p)
                 end)
      (set_queue (keep from q (queue p)) p).
Proof.
  intros Hp Hq E. unfold promoteQueue. destruct (queue p !! from) as [ql|] eqn:Eq.
  - destruct (Hq _ _ Eq) as [Hl Hn]. unfold items_of in E at 1. rewrite Eq in E. simpl in E.
    assert (nextNonce from p = after (sr_GetNonce (state p) from) (items_of (pending p) from)) as En by done.
    assert (list_Ready (nextNonce from p) ql = promoted_of from p) as Er.
    { rewrite En. unfold promoted_of, items_of at 3. by rewrite Eq. }
    destruct ql as [|t ql]; [done|]. rewrite Er.
    rewrite (promote_fold from _ p (items_of (pending p) from) q); [|done|by rewrite Eq, E|].
    + unfold dropEmptyQueue. simpl. rewrite items_insert.
      assert (keep from q (<[from := q]> (queue p)) = keep from q (queue p)) as ->; [|by destruct (promoted_of from p)].
      unfold keep. destruct q; [by rewrite delete_insert_eq|by rewrite insert_insert_eq].
    + eapply ready_sorted; [by apply items_ok|]. apply items_ok. done.
  - assert (items_of (queue p) from = []) as E0 by (unfold items_of; by rewrite Eq).
    rewrite E0 in E. destruct (promoted_of from p); [|done]. destruct q; [|done]. simpl.
    rewrite delete_id by done. by destruct p.
Qed.

Definition shape (p : TxPool) : Prop := lists_ok (pending p) /\ lists_ok (queue p).

(** Everything but the transactions. *)
Definition env (p : TxPool) := (config p, state p, codeReader p, baseFee p, blobBaseFee p).

(** The lists of one sender. *)
Definition view (p : TxPool) (a : Address) := (pending p !! a, queue p !! a).

Lemma view_items p p' a :
  view p' a = view p a -> items_of (pending p') a = items_of (pending p) a /\ items_of (queue p') a = items_of (queue p) a.
Proof. unfold view, items_of. by intros [= -> ->]. Qed.

(** The pending transactions of each sender are a gap-free run from the
    account's nonce. *)
Definition run_of (p : TxPool) (a : Address) : Prop :=
  list_Ready (sr_GetNonce (state p) a) (items_of (pending p) a) = items_of (pending p) a.

Record promotes (from : Address) (p p' : TxPool) : Prop := {
  pr_shape : shape p';
  pr_env : env p' = env p;
  pr_lookup : lookup p' = lookup p;
  pr_view : forall b, b <> from -> view p' b = view p b;
  pr_pending : items_of (pending p') from = items_of (pending p) from ++ promoted_of from p;
  pr_queue : items_of (queue p) from = promoted_of from p ++ items_of (queue p') from;
  pr_done : promoted_of from p' = [];
}.

Lemma promote_ok from p : shape p -> promotes from p (promoteQueue from p).
Proof.
  intros [Hp Hq]. set (n := sr_GetNonce (state p) from).
  destruct (ready_run (after n (items_of (pending p) from)) (items_of (queue p) from)) as (q & Eq & Hd).
  change (list_Ready (after n (items_of (pending p) from)) (items_of (queue p) from)) with (promoted_of from p) in Eq, Hd.
  rewrite (promoteQueue_eq from p q Hp Hq Eq).
  assert (items_of (match promoted_of from p with
    | [] => pending p | r => <[from := items_of (pending p) from ++ r]> (pending p) end) from
    = items_of (pending p) from ++ promoted_of from p) as EP.
  { destruct (promoted_of from p); [by rewrite app_nil_r|apply items_insert]. }
  assert (list_ok from (items_of (pending p) from ++ promoted_of from p)) as HP.
  { pose proof (items_ok _ from Hp) as H1. pose proof (items_ok _ from Hq) as H2.
    split; [by eapply ready_sorted, H2|]. apply Forall_app. split; [apply H1|].
    eapply list_ok_sublist; [apply ready_sublist|done]. }
  split; simpl; try done.
  - split; simpl.
    + destruct (promoted_of from p) as [|t r]; [done|]. apply lists_ok_insert; [done|done|by intros [_ ?]%app_nil].
    + apply lists_ok_keep; [done|]. pose proof (items_ok _ from Hq) as H2. rewrite Eq in H2.
      eapply list_ok_sublist; [|exact H2]. apply sublist_inserts_l. done.
  - intros b Hb. unfold view. simpl. rewrite keep_ne by done.
    destruct (promoted_of from p); [done|by rewrite lookup_insert_ne].
  - by rewrite items_keep.
  - unfold promoted_of at 1. simpl. fold n. rewrite EP, items_keep. unfold after in *. rewrite last_app.
    by destruct (last (promoted_of from p)).
Qed.

(** A run stays a run, and there is nothing left to promote. *)
Lemma promote_run from p p' : promotes from p p' -> run_of p from -> run_of p' from.
Proof.
  intros H Hr. unfold run_of in *. rewrite (pr_pending _ _ _ H). unfold promoted_of.
  pose proof (pr_env _ _ _ H) as He. unfold env in He. assert (state p' = state p) as -> by congruence.
  rewrite ready_app, ready_idem by done. done.
Qed.

(** ** Demotion and removal inside the pending list of a sender *)

Definition add_all (txs l : list Transaction) : list Transaction := fold_left (fun l t => list_Add t l) txs l.

Lemma add_all_ok a txs l : Forall (tx_ok a) txs -> list_ok a l -> list_ok a (add_all txs l).
Proof. intros H. revert l. induction H as [|t txs Ht _ IH]; intros l Hl; [done|]. by apply IH, list_ok_add. Qed.

Lemma add_all_nonempty t txs l : add_all (t :: txs) l <> [].
Proof.
  unfold add_all. simpl. assert (list_Add t l <> []) as H by apply add_nonempty. revert H.
  generalize (list_Add t l). induction txs as [|u txs IH]; intros k Hk; [done|]. apply IH, add_nonempty.
Qed.

Lemma lookup_fold txs p :
  exists L, fold_left (fun p tx => lookupRemove (tx_hash tx) p) txs p = set_lookup L p /\ L ⊆ lookup p.
Proof.
  revert p. induction txs as [|t txs IH]; intros p; [exists (lookup p); by destruct p|]. simpl.
  destruct (IH (lookupRemove (tx_hash t) p)) as (L & -> & HL). exists L. split; [done|].
  etrans; [exact HL|]. apply delete_subseteq.
Qed.

Lemma remove_fold a txs p :
  fold_left (fun p tx => removePending a (nonceOf tx) p) txs p = set_pending (alter (remove_all txs) a (pending p)) p.
Proof.
  revert p. induction txs as [|t txs IH]; intros p; simpl.
  - rewrite alter_id; [by destruct p|done].
  - rewrite IH. unfold removePending. simpl. rewrite alter_alter_eq. done.
Qed.

Definition queued (a : Address) (txs : list Transaction) (m : gmap Address (list Transaction)) :=
  match txs with [] => m | _ => <[a := add_all txs (items_of m a)]> m end.

Lemma queued_cons a t txs m : queued a txs (<[a := list_Add t (items_of m a)]> m) = queued a (t :: txs) m.
Proof. unfold queued. destruct txs as [|u txs]; [done|]. by rewrite items_insert, insert_insert_eq. Qed.

Lemma demote_fold a txs p :
  fold_left (fun p tx => addQueue a tx (removePending a (nonceOf tx) p)) txs p
  = set_pending (alter (remove_all txs) a (pending p)) (set_queue (queued a txs (queue p)) p).
Proof.
  revert p. induction txs as [|t txs IH]; intros p; simpl.
  - rewrite alter_id; [by destruct p|done].
  - rewrite IH. unfold addQueue, removePending. simpl. rewrite alter_alter_eq, queued_cons. done.
Qed.

Lemma remove_all_nil txs : remove_all txs [] = [].
Proof. induction txs; [done|]. done. Qed.

Lemma queued_ok a txs m : Forall (tx_ok a) txs -> lists_ok m -> lists_ok (queued a txs m).
Proof.
  intros Ht Hm. unfold queued. destruct txs as [|t txs]; [done|].
  apply lists_ok_insert; [done|by apply add_all_ok, items_ok|apply add_all_nonempty].
Qed.

Lemma queued_ne a b txs m : a <> b -> queued a txs m !! b = m !! b.
Proof. intros H. unfold queued. destruct txs; [done|by rewrite lookup_insert_ne]. Qed.

(** Some pending transactions of a sender are dropped, and some move to the
    queue. *)
Definition reworked (a : Address) (left moved : list Transaction) (L : gmap Hash Transaction) (p : TxPool) : TxPool :=
  set_lookup L (set_pending (keep a left (pending p)) (set_queue (queued a moved (queue p)) p)).

Lemma reworked_ok a l left moved L p :
  shape p -> list_ok a l -> sublist left l -> sublist moved l ->
  shape (reworked a left moved L p) /\ env (reworked a left moved L p) = env p /\
  forall b, b <> a -> view (reworked a left moved L p) b = view p b.
Proof.
  intros [Hp Hq] Hl Hleft Hmoved. split; [split; simpl|split; [done|]].
  - apply lists_ok_keep; [done|by eapply list_ok_sublist].
  - apply queued_ok; [|done]. by eapply list_ok_sublist.
  - intros b Hb. unfold view. simpl. by rewrite keep_ne, queued_ne.
Qed.

Lemma keep_altered (f : list Transaction -> list Transaction) a items p :
  pending p !! a = Some items -> f [] = [] ->
  keep a (items_of (alter f a (pending p)) a) (alter f a (pending p)) = keep a (f items) (pending p).
Proof. intros E Hf. rewrite keep_alter by done. unfold items_of. by rewrite E. Qed.

Lemma demoteSender_eq fee a items p :
  pending p !! a = Some items ->
  exists sel, sublist sel items /\ demoteSender fee a items p = reworked a (remove_all sel items) sel (lookup p) p.
Proof.
  intros E. unfold demoteSender. set (sel := filter _ items). exists sel. split; [apply sublist_filter|].
  rewrite demote_fold. unfold dropEmptyPending. simpl. by rewrite (keep_altered _ _ items) by (done || apply remove_all_nil).
Qed.

Lemma resetSender_eq a items p :
  pending p !! a = Some items -> nsorted items ->
  exists left moved L, sublist left items /\ sublist moved items /\ L ⊆ lookup p /\
    resetSender keccak256 a items p = reworked a left moved L p /\
    Forall (fun t => nonceOf t = sr_GetNonce (state p) a) left.
Proof.
  intros E Hs. unfold resetSender. set (n := sr_GetNonce (state p) a). cbv zeta.
  set (gone := filter (fun tx => nonceOf tx < n) items). set (moved := filter (fun tx => n < nonceOf tx) items).
  destruct (lookup_fold gone p) as (L & -> & HL). rewrite remove_fold, demote_fold.
  exists (remove_all moved (remove_all gone items)), moved, L.
  assert (nsorted (remove_all gone items)) as Hs' by (eapply nsorted_sublist; [apply remove_all_sublist|done]).
  split; [etrans; apply remove_all_sublist|]. split; [apply sublist_filter|]. split; [done|]. split.
  - unfold dropEmptyPending. simpl. rewrite alter_alter_eq.
    rewrite (keep_altered (remove_all moved ∘ remove_all gone) a items p E); [done|]. simpl. by rewrite !remove_all_nil.
  - apply Forall_forall. intros x Hx. apply remove_all_elem in Hx as [Hx H2]; [|done].
    apply remove_all_selected in Hx as [Hx H1]; [|done].
    assert (~ n < nonceOf x); [|lia]. intros Hlt. rewrite Forall_forall in H2.
    apply (H2 x); [|done]. by apply list_elem_of_filter.
Qed.

Lemma single_run n l : nsorted l -> Forall (fun t => nonceOf t = n) l -> list_Ready n l = l.
Proof.
  intros Hs Hn. destruct Hn as [|t l Ht Hn]; [done|]. destruct Hn as [|u l Hu Hn]; simpl.
  - by rewrite Ht, Z.eqb_refl.
  - apply StronglySorted_inv in Hs as [_ Hs]. inversion Hs; subst. lia.
Qed.

(** ** Reset *)

(** What Go promises of map iteration and of [sort.Slice] with a comparison
    of prices. *)
Record order_ok (o : GoOrder) : Prop := {
  range_perm : forall A (m : gmap Z A), rangeMap o m ≡ₚ map_to_list m;
  sort_perm : forall A less (l : list A), sortSlice o less l ≡ₚ l;
  sort_sorted : forall A (price : A -> Z) (l : list A),
    StronglySorted (fun a b => price a <= price b) (sortSlice o (fun a b => price a <? price b) l);
}.

Lemma range_elem o A (m : gmap Z A) a x : order_ok o -> (a, x) ∈ rangeMap o m <-> m !! a = Some x.
Proof. intros H. rewrite (range_perm o H A m). apply elem_of_map_to_list. Qed.

Lemma range_NoDup o A (m : gmap Z A) : order_ok o -> NoDup (rangeMap o m).*1.
Proof. intros H. rewrite (range_perm o H A m). apply NoDup_fst_map_to_list. Qed.

Lemma run_view p p' a : env p' = env p -> view p' a = view p a -> run_of p a -> run_of p' a.
Proof.
  intros He [Hv _]%view_items. unfold run_of. rewrite Hv. unfold env in He.
  by assert (state p' = state p) as -> by congruence.
Qed.

Definition run_all (p : TxPool) : Prop := forall a, run_of p a.

Lemma reset_fold l : forall p,
  NoDup l.*1 -> shape p -> (forall a items, (a, items) ∈ l -> pending p !! a = Some items) ->
  let p' := fold_left (fun p al => resetSender keccak256 al.1 al.2 p) l p in
  shape p' /\ env p' = env p /\ lookup p' ⊆ lookup p /\
  (forall a, a ∈ l.*1 -> run_of p' a) /\ (forall a, a ∉ l.*1 -> view p' a = view p a).
Proof.
  induction l as [|[a items] l IH]; intros p Hnd Hs Hl; simpl; [split_and!; done || set_solver|].
  apply NoDup_cons in Hnd as [Ha Hnd]. pose proof (Hl a items ltac:(by left)) as Ei.
  destruct (proj1 Hs a items Ei) as [Hi _].
  destruct (resetSender_eq a items p Ei (lo_sorted _ _ Hi)) as (left & moved & L & H1 & H2 & H3 & -> & H4).
  destruct (reworked_ok a items left moved L p Hs Hi H1 H2) as (Hs' & He & Hv).
  destruct (IH (reworked a left moved L p) Hnd Hs') as (Q1 & Q2 & Q3 & Q4 & Q5).
  { intros b it Hb. pose proof (Hl b it ltac:(by right)) as Eb. rewrite <- Eb.
    assert (b <> a) as Hba by (intros ->; apply Ha, list_elem_of_fmap; by exists (a, it)).
    by injection (Hv b Hba). }
  split_and!; [done|by rewrite Q2|by etrans| |].
  - intros b [->|Hb]%elem_of_cons; [|by apply Q4]. eapply run_view; [exact Q2|by apply Q5|].
    unfold run_of. simpl. rewrite items_keep. apply single_run; [|done].
    eapply nsorted_sublist; [exact H1|apply Hi].
  - intros b Hb. apply not_elem_of_cons in Hb as [Hba Hb]. rewrite Q5 by done. by apply Hv.
Qed.

Lemma promoted_view a p p' : env p' = env p -> view p' a = view p a -> promoted_of a p' = promoted_of a p.
Proof.
  intros He [H1 H2]%view_items. unfold promoted_of. rewrite H1, H2. unfold env in He.
  by assert (state p' = state p) as -> by congruence.
Qed.

Lemma promote_all l : forall p, shape p -> run_all p ->
  let p' := fold_left (fun p (al : Address * list Transaction) => promoteQueue al.1 p) l p in
  shape p' /\ env p' = env p /\ lookup p' = lookup p /\ run_all p' /\
  (forall a, a ∈ l.*1 \/ promoted_of a p = [] -> promoted_of a p' = []).
Proof.
  induction l as [|[a items] l IH]; intros p Hs Hr; simpl.
  - split_and!; try done. intros a [Ha|Ha]; [by apply elem_of_nil in Ha|done].
  - pose proof (promote_ok a p Hs) as H.
    destruct (IH (promoteQueue a p) (pr_shape _ _ _ H)) as (Q1 & Q2 & Q3 & Q4 & Q5).
    { intros b. destruct (decide (b = a)) as [->|Hb]; [by apply (promote_run a p)|].
      eapply run_view; [apply H|by apply H|done]. }
    split_and!; [done|rewrite Q2; apply H|rewrite Q3; apply H|done|].
    intros b Hb. apply Q5. destruct (decide (b = a)) as [->|Hba]; [right; apply H|].
    rewrite (promoted_view b p) by (apply H; done). rewrite elem_of_cons in Hb. tauto.
Qed.

(** After [Reset] every pending list is the longest run the pool has. *)
Lemma reset_ok o s p :
  order_ok o -> shape p ->
  let p' := pool_Reset keccak256 o s p in
  shape p' /\ env p' = env (set_state s p) /\ lookup p' ⊆ lookup p /\ run_all p' /\ forall a, promoted_of a p' = [].
Proof.
  intros Ho Hs. unfold pool_Reset. set (p0 := set_state s p). cbv zeta.
  destruct (reset_fold (rangeMap o (pending p0)) p0) as (H1 & H2 & H3 & H4 & H5);
    [by apply range_NoDup|done|intros a items; by apply range_elem|].
  set (p1 := fold_left _ (rangeMap o (pending p0)) p0) in *.
  assert (run_all p1) as Hr.
  { intros a. destruct (decide (a ∈ (rangeMap o (pending p0)).*1)) as [Ha|Ha]; [by apply H4|].
    assert (pending p1 !! a = None) as En; [|unfold run_of, items_of; by rewrite En].
    specialize (H5 a Ha). injection H5 as -> _. apply eq_None_not_Some. intros [l Hl]. apply Ha.
    apply list_elem_of_fmap. exists (a, l). split; [done|]. by apply range_elem. }
  destruct (promote_all (rangeMap o (queue p1)) p1 H1 Hr) as (Q1 & Q2 & Q3 & Q4 & Q5).
  split_and!; [done|by rewrite Q2|by rewrite Q3|done|]. intros a. apply Q5.
  destruct (queue p1 !! a) as [q|] eqn:Eq; [left|right].
  - apply list_elem_of_fmap. exists (a, q). split; [done|]. by apply range_elem.
  - unfold promoted_of, items_of at 2. by rewrite Eq.
Qed.

(** ** Base fee *)

Lemma demote_all fee l : forall p,
  NoDup l.*1 -> shape p -> (forall a items, (a, items) ∈ l -> pending p !! a = Some items) ->
  let p' := fold_left (fun p al => demoteSender fee al.1 al.2 p) l p in
  shape p' /\ env p' = env p /\ lookup p' = lookup p.
Proof.
  induction l as [|[a items] l IH]; intros p Hnd Hs Hl; simpl; [done|].
  apply NoDup_cons in Hnd as [Ha Hnd]. pose proof (Hl a items ltac:(by left)) as Ei.
  destruct (proj1 Hs a items Ei) as [Hi _]. destruct (demoteSender_eq fee a items p Ei) as (sel & H1 & ->).
  destruct (reworked_ok a items (remove_all sel items) sel (lookup p) p Hs Hi) as (Hs' & He & Hv);
    [apply remove_all_sublist|done|].
  destruct (IH (reworked a (remove_all sel items) sel (lookup p) p) Hnd Hs') as (Q1 & Q2 & Q3).
  - intros b it Hb. pose proof (Hl b it ltac:(by right)) as Eb. rewrite <- Eb.
    assert (b <> a) as Hba by (intros ->; apply Ha, list_elem_of_fmap; by exists (a, it)).
    by injection (Hv b Hba).
  - split_and!; [done|by rewrite Q2|by rewrite Q3].
Qed.

Lemma setBaseFee_ok o fee p :
  order_ok o -> shape p -> shape (SetBaseFee o fee p) /\ lookup (SetBaseFee o fee p) = lookup p /\
  env (SetBaseFee o fee p) = env (set_baseFee (Some fee) p).
Proof.
  intros Ho Hs. unfold SetBaseFee. set (p0 := set_baseFee (Some fee) p). cbv zeta.
  destruct (demote_all fee (rangeMap o (pending p0)) p0) as (H1 & H2 & H3); [by apply range_NoDup|done| |done].
  intros a items. by apply range_elem.
Qed.

(** ** Eviction *)

Lemma candidate_elem o fee p c :
  order_ok o -> c ∈ candidates o fee p ->
  c_price c = EffectiveGasPrice (inner (c_tx c)) fee /\
  if c_queue c then exists q, queue p !! c_from c = Some q /\ c_tx c ∈ q
  else exists l, pending p !! c_from c = Some (l ++ [c_tx c]) /\ l <> [].
Proof.
  intros Ho. unfold candidates. rewrite elem_of_app, !list_elem_of_In, !in_concat.
  intros [(x & Hx & Hc)|(x & Hx & Hc)]; apply in_map_iff in Hx as ([a l] & <- & Hl);
    apply list_elem_of_In, (range_elem o) in Hl; try done; simpl in Hc.
  - destruct (Nat.leb_spec (length l) 1) as [|Hlen]; [done|]. destruct (last l) as [t|] eqn:E; [|done].
    destruct Hc as [<-|[]]. simpl. split; [done|]. apply last_Some in E as [l' ->]. exists l'. split; [done|].
    intros ->. simpl in Hlen. lia.
  - apply in_map_iff in Hc as (t & <- & Ht). simpl. split; [done|]. exists l. split; [done|by apply list_elem_of_In].
Qed.

Lemma remove_last l t : nsorted (l ++ [t]) -> (list_Remove (nonceOf t) (l ++ [t])).1 = l.
Proof.
  intros Hs. rewrite remove_filter, filter_app, filter_cons_False, filter_nil, app_nil_r by (done || by intros ?).
  apply filter_all, Forall_forall. intros x Hx. apply nsorted_app in Hs as (_ & _ & H).
  specialize (H x t Hx ltac:(by left)). simpl in H. lia.
Qed.

Lemma run_prefix n l k : list_Ready n (l ++ k) = l ++ k -> list_Ready n l = l.
Proof.
  revert n. induction l as [|t l IH]; intros n; [done|]. simpl. destruct (negb _); [done|].
  intros [= H]. by rewrite (IH _ H).
Qed.

(** The sender of an evicted pending transaction keeps at least one. *)
Record evicts (c : candidate) (p p' : TxPool) : Prop := {
  ev_shape : shape p';
  ev_env : env p' = env p;
  ev_lookup : lookup p' = base.delete (tx_hash (c_tx c)) (lookup p);
  ev_view : forall b, b <> c_from c -> view p' b = view p b;
  ev_from : if c_queue c
            then pending p' = pending p /\ items_of (queue p') (c_from c) = (list_Remove (nonceOf (c_tx c)) (items_of (queue p) (c_from c))).1
            else queue p' = queue p /\ items_of (pending p) (c_from c) = items_of (pending p') (c_from c) ++ [c_tx c] /\
                 items_of (pending p') (c_from c) <> [];
}.

Lemma evict_ok o fee p p' k :
  order_ok o -> shape p -> evictLowest keccak256 o fee p = (p', k) ->
  (k = 0 /\ p' = p /\ candidates o fee p = []) \/
  (k = 1 /\ exists c, c ∈ candidates o fee p /\ Forall (fun d => c_price c <= c_price d) (candidates o fee p) /\ evicts c p p').
Proof.
  intros Ho [Hp Hq]. unfold evictLowest. pose proof (sort_sorted o Ho _ c_price (candidates o fee p)) as Hs.
  pose proof (sort_perm o Ho _ (fun a b => c_price a <? c_price b) (candidates o fee p)) as Hpm.
  destruct (sortSlice o _ _) as [|c l]; [intros [= <- <-]; left|].
  { split; [done|]. split; [done|]. symmetry. by apply Permutation_nil_l. }
  intros [= <- <-]. right. split; [done|]. exists c. apply StronglySorted_inv in Hs as [_ Hs].
  assert (c ∈ candidates o fee p) as Hc by (rewrite <- Hpm; by left). split; [done|].
  split; [rewrite <- Hpm; by constructor|]. destruct (candidate_elem o fee p c Ho Hc) as [_ Hf].
  destruct (c_queue c) eqn:Ecq.
  - destruct Hf as (q & Eq & Hin). rewrite drop_removeQueue. simpl. split; rewrite ?Ecq; try done.
    + split; [done|]. simpl. apply lists_ok_keep; [done|]. eapply list_ok_sublist; [apply remove_sublist|by apply items_ok].
    + intros b Hb. unfold view. simpl. by rewrite keep_ne.
    + simpl. by rewrite items_keep.
  - destruct Hf as (l' & El & Hl'). rewrite drop_removePending. simpl.
    assert (items_of (pending p) (c_from c) = l' ++ [c_tx c]) as Ei by (unfold items_of; by rewrite El).
    pose proof (items_ok _ (c_from c) Hp) as [Hso _]. rewrite Ei in *. rewrite remove_last by done.
    split; rewrite ?Ecq; try done.
    + split; [|done]. simpl. apply lists_ok_keep; [done|]. eapply list_ok_sublist; [|apply (items_ok _ (c_from c) Hp)].
      rewrite Ei. by apply sublist_inserts_r.
    + intros b Hb. unfold view. simpl. by rewrite keep_ne.
    + simpl. by rewrite items_keep, Ei.
Qed.

(** ** Adding *)

Abbreviation pool_add := (pool_add keccak256 Ecrecover).
Abbreviation validateTx := (validateTx keccak256 Ecrecover).
Abbreviation checkReplacement := (checkReplacement keccak256).

Lemma checkReplacement_eq from tx p :
  checkReplacement from tx p =
  match list_Get (nonceOf tx) (items_of (pending p) from) with
  | Some old => if hasSufficientBump p (inner old) (inner tx) then (lookupRemove (tx_hash old) p, inl true)
                else (p, inr ErrReplacementUnderpriced)
  | None =>
      match list_Get (nonceOf tx) (items_of (queue p) from) with
      | Some old => if hasSufficientBump p (inner old) (inner tx) then (lookupRemove (tx_hash old) p, inl true)
                    else (p, inr ErrReplacementUnderpriced)
      | None => (p, inl false)
      end
  end.
Proof.
  unfold TxPool.checkReplacement. destruct (list_Get _ _) as [old|]; [by destruct (hasSufficientBump _ _ _)|].
  destruct (list_Get _ _) as [old|]; [by destruct (hasSufficientBump _ _ _)|done].
Qed.

Lemma checkReplacement_cases from tx p :
  (checkReplacement from tx p = (p, inr ErrReplacementUnderpriced)) \/
  (checkReplacement from tx p = (p, inl false)) \/
  (exists h, checkReplacement from tx p = (lookupRemove h p, inl true)).
Proof.
  rewrite checkReplacement_eq. destruct (list_Get _ _) as [old|]; [|destruct (list_Get _ _) as [old|]; [|auto]];
    destruct (hasSufficientBump _ _ _); eauto.
Qed.

(** The last part of [add]: the transaction is filed and the queue promoted. *)
Definition filed (from : Address) (tx : Transaction) (p : TxPool) : TxPool :=
  let p := set_lookup (<[tx_hash tx := tx]> (lookup p)) p in
  if nonceOf tx =? sr_GetNonce (state p) from then addPending from tx p else addQueue from tx p.

(** A transaction that is added: it is new, valid, within the nonce window;
    it replaces one, or there is room, or one is evicted. *)
Record accepted (o : GoOrder) (tx : Transaction) (p p' : TxPool) (from : Address) (p1 p2 : TxPool) : Prop := {
  ac_new : lookup p !! tx_hash tx = None;
  ac_valid : validateTx p tx = PNil;
  ac_sender : senderOf tx = Some from;
  ac_nonce : sr_GetNonce (state p) from <= nonceOf tx <= sr_GetNonce (state p) from +u MaxNonceGap;
  ac_room : checkReplacement from tx p = (p1, inl true) /\ p2 = p1 \/
            checkReplacement from tx p = (p, inl false) /\ p1 = p /\
            senderTxCount from p < MaxPerSender (config p) /\
            (Z.of_nat (size (lookup p)) < MaxSize (config p) /\ p2 = p \/
             MaxSize (config p) <= Z.of_nat (size (lookup p)) /\ evictLowest keccak256 o (baseFee p) p = (p2, 1));
  ac_result : p' = promoteQueue from (filed from tx p2);
}.

Lemma evict_state o fee p : state (evictLowest keccak256 o fee p).1 = state p.
Proof. unfold evictLowest. destruct (sortSlice _ _ _) as [|c l]; [done|]. by destruct (c_queue c). Qed.

Lemma add_cases o tx p p' e :
  pool_add o tx p = Some (p', e) ->
  (exists er, e = Some er /\ p' = p) \/ (e = None /\ exists from p1 p2, accepted o tx p p' from p1 p2).
Proof.
  unfold TxPool.pool_add. destruct (lookup p !! _) eqn:El; [intros [= <- <-]; eauto|].
  destruct (validateTx p tx) eqn:Ev; [|intros [= <- <-]; eauto|done].
  destruct (senderOf tx) as [from|] eqn:Es; [|done].
  destruct (Z.ltb_spec (nonceOf tx) (sr_GetNonce (state p) from)); [intros [= <- <-]; eauto|].
  rewrite Z.gtb_ltb. destruct (Z.ltb_spec (sr_GetNonce (state p) from +u MaxNonceGap) (nonceOf tx)); [intros [= <- <-]; eauto|].
  destruct (checkReplacement_cases from tx p) as [Ec|[Ec|[h Ec]]]; rewrite Ec; simpl.
  - intros [= <- <-]; eauto.
  - rewrite !Z.geb_leb. destruct (Z.leb_spec (MaxPerSender (config p)) (senderTxCount from p)); [intros [= <- <-]; eauto|].
    destruct (Z.leb_spec (MaxSize (config p)) (Z.of_nat (size (lookup p)))).
    + assert (snd (evictLowest keccak256 o (baseFee p) p) = 0 /\ fst (evictLowest keccak256 o (baseFee p) p) = p \/
              snd (evictLowest keccak256 o (baseFee p) p) = 1) as Hk.
      { unfold evictLowest. destruct (sortSlice _ _ _); auto. }
      destruct (evictLowest keccak256 o (baseFee p) p) as [p2 k] eqn:Ee. simpl in Hk. destruct Hk as [[-> ->]| ->].
      * intros [= <- <-]; eauto.
      * assert (state p2 = state p) as Hst by (by rewrite <- (evict_state o (baseFee p) p), Ee).
        simpl. intros [= <- <-]. right. split; [done|]. exists from, p, p2. split; try done; [right; by auto 7|].
        unfold filed. simpl. by rewrite Hst.
    + simpl. intros [= <- <-]. right. split; [done|]. exists from, p, p. split; try done. right. by auto 7.
  - intros [= <- <-]. right. split; [done|]. exists from, (lookupRemove h p), (lookupRemove h p).
    split; try done. by left.
Qed.

(** ** The invariant *)

(** The lookup table maps hashes to transactions with a sender. *)
Definition keyed (m : gmap Hash Transaction) : Prop :=
  forall h tx, m !! h = Some tx -> tx_hash tx = h /\ exists a, tx_ok a tx.

Record pool_ok (p : TxPool) : Prop := {
  po_shape : shape p;
  po_keyed : keyed (lookup p);
}.

Lemma keyed_subseteq m m' : m' ⊆ m -> keyed m -> keyed m'.
Proof. intros Hs H h tx Ht. apply H. by eapply lookup_weaken. Qed.

Lemma keyed_insert m tx a : tx_ok a tx -> keyed m -> keyed (<[tx_hash tx := tx]> m).
Proof. intros Ht H h t [[<- <-]|[_ Hh]]%lookup_insert_Some; [eauto|by apply H]. Qed.

Lemma head_run n tx P : nsorted P -> list_Ready n P = P -> nonceOf tx = n -> list_Ready n (list_Add tx P) = list_Add tx P.
Proof.
  intros Hs Hr Ht. assert (list_Add tx P = tx :: tail P) as ->.
  - destruct P as [|t P]; [done|]. simpl in Hr. destruct (Z.eqb_spec (nonceOf t) n) as [E|]; [|done].
    apply StronglySorted_inv in Hs as [_ Hs]. rewrite <- (app_nil_l (t :: P)) at 1. rewrite add_split; [|done|].
    + by rewrite E, Ht, Z.eqb_refl.
    + constructor; [lia|]. eapply Forall_impl; [exact Hs|]. simpl. lia.
  - destruct P as [|t P]; simpl in *; rewrite Ht, Z.eqb_refl; [done|].
    destruct (nonceOf t =? n); [|done]. simpl in *. by injection Hr as ->.
Qed.

Lemma filed_ok from tx p :
  shape p -> tx_ok from tx ->
  shape (filed from tx p) /\ env (filed from tx p) = env p /\
  lookup (filed from tx p) = <[tx_hash tx := tx]> (lookup p) /\ (forall b, b <> from -> view (filed from tx p) b = view p b) /\
  (run_of p from -> run_of (filed from tx p) from).
Proof.
  intros [Hp Hq] Ht. unfold filed. simpl.
  assert (list_ok from (list_Add tx (items_of (pending p) from)) /\ list_ok from (list_Add tx (items_of (queue p) from))) as [H1 H2].
  { split; by apply list_ok_add, items_ok. }
  destruct (Z.eqb_spec (nonceOf tx) (sr_GetNonce (state p) from)) as [E|E]; split_and!; try done.
  - split; [|done]. by apply lists_ok_insert, add_nonempty.
  - intros b Hb. unfold view. simpl. by rewrite lookup_insert_ne.
  - unfold run_of. simpl. rewrite items_insert. intros Hr. apply head_run; [by apply items_ok|done|done].
  - split; [done|]. by apply lists_ok_insert, add_nonempty.
  - intros b Hb. unfold view. simpl. by rewrite lookup_insert_ne.
Qed.

Lemma evicts_run c p p' : evicts c p p' -> run_all p -> run_all p'.
Proof.
  intros H Hr a. destruct (decide (a = c_from c)) as [->|Hn].
  - pose proof (ev_from _ _ _ H) as Hf. pose proof (ev_env _ _ _ H) as He. unfold env in He.
    specialize (Hr (c_from c)). unfold run_of in *. assert (state p' = state p) as -> by congruence.
    destruct (c_queue c); [by destruct Hf as [-> _]|]. destruct Hf as (_ & E & _). rewrite E in Hr. by eapply run_prefix.
  - eapply run_view; [apply H|by apply H|apply Hr].
Qed.

(** The pool right before the transaction is filed. *)
Lemma room_ok o tx p p' from p1 p2 :
  order_ok o -> pool_ok p -> accepted o tx p p' from p1 p2 ->
  shape p2 /\ env p2 = env p /\ lookup p2 ⊆ lookup p /\ (run_all p -> run_all p2).
Proof.
  intros Ho [Hs _] [_ _ _ _ Hr _].
  destruct Hr as [[Ec ->]|(_ & -> & _ & [[_ ->]|[_ Ee]])]; [|done|].
  - destruct (checkReplacement_cases from tx p) as [E|[E|[h E]]]; rewrite E in Ec; try done. injection Ec as <-.
    split_and!; try done. apply delete_subseteq.
  - destruct (evict_ok o _ _ _ _ Ho Hs Ee) as [[? _]|(_ & c & _ & _ & H)]; [done|].
    split_and!; [apply H|apply H|rewrite (ev_lookup _ _ _ H); apply delete_subseteq|by apply (evicts_run c)].
Qed.

Definition nonce_ok (tx : Transaction) : Prop := 0 <= nonceOf tx < 2 ^ 64 - 1.

Lemma add_ok o tx p p' e :
  order_ok o -> nonce_ok tx -> pool_ok p -> pool_add o tx p = Some (p', e) ->
  pool_ok p' /\ env p' = env p /\ (run_all p -> run_all p').
Proof.
  intros Ho Hn Hok E. apply add_cases in E as [(er & -> & ->)|(-> & from & p1 & p2 & Ha)]; [done|].
  destruct (room_ok _ _ _ _ _ _ _ Ho Hok Ha) as (Hs2 & He2 & Hl2 & Hr2).
  assert (tx_ok from tx) as Ht by (split; [apply Ha|done]).
  destruct (filed_ok from tx p2 Hs2 Ht) as (Hs3 & He3 & Hl3 & Hv3 & Hr3).
  pose proof (promote_ok from _ Hs3) as H. rewrite (ac_result _ _ _ _ _ _ _ Ha). split_and!.
  - split; [apply H|]. rewrite (pr_lookup _ _ _ H), Hl3. eapply keyed_insert; [done|].
    eapply keyed_subseteq; [exact Hl2|apply Hok].
  - rewrite (pr_env _ _ _ H). congruence.
  - intros Hr a. destruct (decide (a = from)) as [->|Hne].
    + eapply promote_run; [exact H|]. by apply Hr3, Hr2.
    + eapply run_view; [apply H|by apply H|]. eapply run_view; [exact He3|by apply Hv3|]. by apply Hr2.
Qed.

Lemma remove_ok h p : pool_ok p -> exists p', pool_Remove keccak256 Ecrecover h p = Some p' /\ pool_ok p'.
Proof.
  intros [[Hp Hq] Hk]. unfold pool_Remove. destruct (lookup p !! h) as [tx|] eqn:E; [|exists p; by split].
  destruct (Hk h tx E) as (_ & a & Ha & _). rewrite Ha. eexists. split; [done|].
  rewrite drop_removePending, drop_removeQueue. simpl.
  set (p1 := set_queue _ _).
  assert (pool_ok p1) as [Hs1 Hk1].
  { split; [split; simpl; (apply lists_ok_keep; [done|]); (eapply list_ok_sublist; [apply remove_sublist|by apply items_ok])|].
    simpl. eapply keyed_subseteq; [apply delete_subseteq|done]. }
  destruct (_ : bool); [|done]. pose proof (promote_ok a p1 Hs1) as H. split; [apply H|]. by rewrite (pr_lookup _ _ _ H).
Qed.

(** ** Histories *)

Inductive pool_op :=
  | OAdd (o : GoOrder) (tx : Transaction)
  | ORemove (h : Hash)
  | OReset (o : GoOrder) (s : StateReader)
  | OSetBaseFee (o : GoOrder) (fee : Z)
  | OSetBlobBaseFee (fee : Z)
  | OSetCodeReader (r : option (Address -> Z)).

(** [None] is a panic. *)
Definition run_pool_op (op : pool_op) (p : TxPool) : option TxPool :=
  match op with
  | OAdd o tx => fst <$> pool_add o tx p
  | ORemove h => pool_Remove keccak256 Ecrecover h p
  | OReset o s => Some (pool_Reset keccak256 o s p)
  | OSetBaseFee o fee => Some (SetBaseFee o fee p)
  | OSetBlobBaseFee fee => Some (SetBlobBaseFee fee p)
  | OSetCodeReader r => Some (SetCodeReader r p)
  end.

Fixpoint run_pool (ops : list pool_op) (p : TxPool) : option TxPool :=
  match ops with [] => Some p | op :: ops => run_pool_op op p ≫= run_pool ops end.

Definition pool_op_ok (op : pool_op) : Prop :=
  match op with
  | OAdd o tx => order_ok o /\ nonce_ok tx
  | OReset o _ | OSetBaseFee o _ => order_ok o
  | _ => True
  end.

Lemma run_pool_op_ok op p p' : pool_op_ok op -> pool_ok p -> run_pool_op op p = Some p' -> pool_ok p'.
Proof.
  intros Ho Hp. destruct op as [o tx|h|o s|o fee|fee|r]; simpl in *.
  - destruct (pool_add o tx p) as [[p1 e]|] eqn:E; [|done]. intros [= <-]. destruct Ho as [Ho Hn].
    by apply (add_ok o tx p p1 e Ho Hn Hp E).
  - intros E. destruct (remove_ok h p Hp) as (p1 & E' & H). congruence.
  - intros [= <-]. destruct (reset_ok o s p Ho (po_shape _ Hp)) as (H1 & _ & H2 & _).
    split; [done|]. eapply keyed_subseteq; [exact H2|apply Hp].
  - intros [= <-]. destruct (setBaseFee_ok o fee p Ho (po_shape _ Hp)) as (H1 & H2 & _).
    split; [done|]. rewrite H2. apply Hp.
  - intros [= <-]. split; apply Hp.
  - intros [= <-]. split; apply Hp.
Qed.

Lemma run_pool_ok ops p p' : Forall pool_op_ok ops -> pool_ok p -> run_pool ops p = Some p' -> pool_ok p'.
Proof.
  intros Ho. revert p. induction Ho as [|op ops Hop _ IH]; intros p Hp; simpl; [by intros [= <-]|].
  destruct (run_pool_op op p) as [p1|] eqn:E; [|done]. simpl. intros H. eapply IH; [|exact H].
  by eapply run_pool_op_ok.
Qed.

Lemma new_ok c s : pool_ok (NewTxPool c s).
Proof. split; [split|]; intros ? ?; simpl; by rewrite lookup_empty. Qed.

(** C21. In every state the pool can reach, whatever is added, removed, reset
    or repriced: the list of a sender holds that sender's transactions only,
    in strictly ascending nonce order, and no list is empty; the lookup table
    is keyed by hash, and removing what it holds never panics. *)
Theorem pool_invariant ops c s p h :
  Forall pool_op_ok ops -> run_pool ops (NewTxPool c s) = Some p ->
  (forall m a l, m = pending p \/ m = queue p -> m !! a = Some l ->
     l <> [] /\ StronglySorted (fun x y => nonceOf x < nonceOf y) l /\ Forall (fun tx => senderOf tx = Some a) l) /\
  (forall tx, pool_Get h p = Some tx -> tx_hash tx = h) /\
  exists p', pool_Remove keccak256 Ecrecover h p = Some p'.
Proof.
  intros Ho E. pose proof (run_pool_ok _ _ _ Ho (new_ok c s) E) as Hp. split_and!.
  - intros m a l Hm Hl. assert (lists_ok m) as H by (destruct Hm as [-> | ->]; apply Hp).
    destruct (H a l Hl) as [[H1 H2] H3]. split_and!; [done|done|]. eapply Forall_impl; [exact H2|]. by intros x [? _].
  - intros tx Ht. by apply (po_keyed _ Hp h tx).
  - destruct (remove_ok h p Hp) as (p' & E' & _). by exists p'.
Qed.

(** ** The order of the pending transactions *)

Lemma insertStable_perm {A} less (x : A) l : insertStable less x l ≡ₚ x :: l.
Proof.
  induction l as [|y l IH]; [done|]. simpl. destruct (less y x); [|done]. rewrite IH. by constructor.
Qed.

Lemma sortStable_perm {A} less (l : list A) : sortStable less l ≡ₚ l.
Proof. induction l as [|x l IH]; [done|]. simpl. by rewrite insertStable_perm, IH. Qed.

Lemma sortStable_sorted {A} (price : A -> Z) l :
  StronglySorted (fun a b => price b <= price a) (sortStable (fun a b => price a >? price b) l).
Proof.
  induction l as [|x l IH]; [constructor|]. simpl. revert IH. generalize (sortStable (fun a b => price a >? price b) l).
  clear l. induction l as [|y l IH]; intros Hs; simpl; [by repeat constructor|].
  apply StronglySorted_inv in Hs as [Hs Hy]. rewrite Z.gtb_ltb. destruct (Z.ltb_spec (price x) (price y)).
  - constructor; [by apply IH|]. rewrite insertStable_perm. constructor; [lia|done].
  - constructor; [by constructor|]. constructor; [done|]. eapply Forall_impl; [exact Hy|]. simpl. lia.
Qed.

Lemma sortStable_map {A B} (f : A -> B) less l : sortStable less (map f l) = map f (sortStable (fun a b => less (f a) (f b)) l).
Proof.
  induction l as [|x l IH]; [done|]. simpl. rewrite IH. generalize (sortStable (fun a b => less (f a) (f b)) l). clear.
  induction l as [|y l IH]; [done|]. simpl. destruct (less (f y) (f x)); [|done]. simpl. by rewrite IH.
Qed.

(** The price that orders the senders. *)
Definition headPrice (p : TxPool) (l : list Transaction) : Z :=
  match l with tx :: _ => EffectiveGasPrice (inner tx) (baseFee p) | [] => 0 end.

Lemma senderGroups_eq o p :
  order_ok o -> lists_ok (pending p) ->
  senderGroups o p = map (fun al => (al.2, headPrice p al.2)) (rangeMap o (pending p)).
Proof.
  intros Ho Hp. unfold senderGroups.
  assert (forall al, al ∈ rangeMap o (pending p) -> al.2 <> []) as H.
  { intros [a l] Hl%range_elem; [|done]. by apply (Hp a l). }
  induction (rangeMap o (pending p)) as [|[a l] r IH]; [done|]. simpl.
  assert (l <> []) as Hl by (apply (H (a, l)); by left). destruct l as [|t l]; [done|]. simpl. f_equal.
  apply IH. intros al Hal. apply H. by right.
Qed.

Lemma ready_nonces n l i t a :
  list_ok a l -> list_Ready n l = l -> l !! i = Some t -> nonceOf t = n + Z.of_nat i.
Proof.
  intros [_ Hl]. revert n i. induction Hl as [|x l Hx _ IH]; intros n i; [done|]. simpl.
  destruct (Z.eqb_spec (nonceOf x) n) as [<-|]; [|done]. simpl. intros [= Hr].
  destruct i as [|i]; [intros [= ->]; lia|]. simpl. destruct Hx as [_ Hx].
  assert (nonceOf x +u 1 = nonceOf x + 1) as E by (unfold u64; rewrite Z.mod_small; lia). rewrite E in Hr.
  intros Hi. rewrite (IH _ _ Hr Hi). lia.
Qed.

Lemma adds_ok adds p p' :
  Forall (fun a => order_ok a.1 /\ nonce_ok a.2) adds -> pool_ok p -> run_all p ->
  run_pool (map (fun a => OAdd a.1 a.2) adds) p = Some p' -> pool_ok p' /\ run_all p' /\ env p' = env p.
Proof.
  intros Ha. revert p. induction Ha as [|[o tx] adds [Ho Hn] _ IH]; intros p Hp Hr; simpl; [by intros [= <-]|].
  destruct (pool_add o tx p) as [[p2 e]|] eqn:E; [|done]. simpl in *.
  destruct (add_ok o tx p p2 e Ho Hn Hp E) as (H1 & H2 & H3). rewrite <- H2. by apply IH, H3.
Qed.

(** C20. Block building sees executable transactions: after a [Reset] and any
    further submissions, [PendingFlat] is the concatenation of one group per
    sender with pending transactions; a group is that sender's transactions
    with the nonces that follow the account's, without gap; and groups come
    in descending order of the price of their first transaction. *)
Theorem pending_flat_gap_free o o' ops c s0 s p adds p' :
  order_ok o -> order_ok o' -> Forall pool_op_ok ops -> Forall (fun a => order_ok a.1 /\ nonce_ok a.2) adds ->
  run_pool ops (NewTxPool c s0) = Some p ->
  run_pool (OReset o s :: map (fun a => OAdd a.1 a.2) adds) p = Some p' ->
  exists groups, PendingFlat o' p' = concat (map snd groups) /\ groups ≡ₚ map_to_list (pending p') /\
    StronglySorted (fun g h => headPrice p' h.2 <= headPrice p' g.2) groups /\
    forall a l i tx, (a, l) ∈ groups -> l !! i = Some tx ->
      senderOf tx = Some a /\ nonceOf tx = sr_GetNonce s a + Z.of_nat i.
Proof.
  intros Ho Ho' Hops Hadds E E'. pose proof (run_pool_ok _ _ _ Hops (new_ok c s0) E) as Hp. simpl in E'.
  destruct (reset_ok o s p Ho (po_shape _ Hp)) as (R1 & R2 & R3 & R4 & _).
  set (p1 := pool_Reset keccak256 o s p) in *.
  assert (pool_ok p1) as Hp1 by (split; [done|]; eapply keyed_subseteq; [exact R3|apply Hp]).
  assert (state p1 = s) as Hst by (unfold env in R2; simpl in R2; congruence). clear R1 R2 R3 E Hp Hops.
  assert (pool_ok p' /\ run_all p' /\ state p' = s) as (Hp' & Hr' & Hst').
  { destruct (adds_ok adds p1 p' Hadds Hp1 R4 E') as (H1 & H2 & H3). split_and!; [done|done|]. unfold env in H3. congruence. }
  exists (sortStable (fun g h => headPrice p' g.2 >? headPrice p' h.2) (rangeMap o' (pending p'))). split_and!.
  - unfold PendingFlat. rewrite senderGroups_eq, sortStable_map, map_map by (done || apply Hp'). done.
  - by rewrite sortStable_perm, (range_perm o' Ho').
  - apply (sortStable_sorted (fun g => headPrice p' g.2)).
  - intros a l i tx Hal Hi. rewrite sortStable_perm in Hal. apply range_elem in Hal; [|done].
    destruct (proj1 (po_shape _ Hp') a l Hal) as [Hl _]. split.
    + pose proof (lo_txs _ _ Hl) as Ht. rewrite Forall_lookup in Ht. by apply (Ht i tx).
    + specialize (Hr' a). unfold run_of, items_of in Hr'. rewrite Hal, Hst' in Hr'. by eapply ready_nonces.
Qed.

(** ** Progress *)

(** Validation reads the configuration, the state and the fees only. *)
Lemma validateTx_env p p' tx : env p' = env p -> validateTx p' tx = validateTx p tx.
Proof. destruct p, p'. unfold env. simpl. by intros [= -> -> -> -> ->]. Qed.

Lemma get_fresh n l : nsorted l -> Forall (fun t => nonceOf t <> n) l -> list_Get n l = None.
Proof.
  intros Hs Hf. destruct (list_Get n l) as [t|] eqn:E; [|done]. apply get_Some in E as [Ht En]; [|done].
  rewrite Forall_forall in Hf. by destruct (Hf t Ht).
Qed.

Lemma add_fresh o tx p from :
  shape p -> lookup p !! tx_hash tx = None -> validateTx p tx = PNil -> senderOf tx = Some from ->
  sr_GetNonce (state p) from <= nonceOf tx <= sr_GetNonce (state p) from +u MaxNonceGap ->
  Forall (fun t => nonceOf t <> nonceOf tx) (items_of (pending p) from ++ items_of (queue p) from) ->
  senderTxCount from p < MaxPerSender (config p) -> Z.of_nat (size (lookup p)) < MaxSize (config p) ->
  pool_add o tx p = Some (promoteQueue from (filed from tx p), None).
Proof.
  intros [Hp Hq] Hl Hv Hs Hn [F1 F2]%Forall_app Hc Hm. unfold TxPool.pool_add. rewrite Hl, Hv, Hs. cbv zeta.
  destruct (Z.ltb_spec (nonceOf tx) (sr_GetNonce (state p) from)); [lia|].
  rewrite Z.gtb_ltb. destruct (Z.ltb_spec (sr_GetNonce (state p) from +u MaxNonceGap) (nonceOf tx)); [lia|].
  rewrite checkReplacement_eq, !get_fresh by (done || by apply items_ok). simpl. rewrite !Z.geb_leb.
  destruct (Z.leb_spec (MaxPerSender (config p)) (senderTxCount from p)); [lia|].
  destruct (Z.leb_spec (MaxSize (config p)) (Z.of_nat (size (lookup p)))); [lia|]. done.
Qed.

Lemma add_perm tx l : nsorted l -> Forall (fun t => nonceOf t <> nonceOf tx) l -> list_Add tx l ≡ₚ tx :: l.
Proof.
  intros (a & b & -> & Ha & Hb)%(nsorted_split (nonceOf tx)) Hf. rewrite add_split by done.
  assert (match b with [] => [] | t :: b' => if nonceOf t =? nonceOf tx then b' else b end = b) as ->.
  { destruct b as [|t b]; [done|]. apply Forall_app in Hf as [_ Hf]. inversion Hf; subst.
    by destruct (Z.eqb_spec (nonceOf t) (nonceOf tx)). }
  symmetry. apply Permutation_middle.
Qed.

Lemma filed_perm from tx p :
  shape p -> Forall (fun t => nonceOf t <> nonceOf tx) (items_of (pending p) from ++ items_of (queue p) from) ->
  items_of (pending (filed from tx p)) from ++ items_of (queue (filed from tx p)) from
  ≡ₚ tx :: items_of (pending p) from ++ items_of (queue p) from.
Proof.
  intros [Hp Hq] [F1 F2]%Forall_app. unfold filed. simpl. destruct (_ =? _); simpl; rewrite items_insert.
  - rewrite add_perm by (done || by apply items_ok). done.
  - rewrite add_perm by (done || by apply items_ok). symmetry. apply Permutation_middle.
Qed.

(** Submitting a list: the pool after it when every one is accepted. *)
Fixpoint submit (adds : list (GoOrder * Transaction)) (p : TxPool) : option TxPool :=
  match adds with
  | [] => Some p
  | (o, tx) :: adds => match pool_add o tx p with Some (p', None) => submit adds p' | _ => None end
  end.

(** The transactions of a sender in the pool, with the pending ones the
    longest run. *)
Record holds (from : Address) (p : TxPool) (txs : list Transaction) : Prop := {
  h_ok : pool_ok p;
  h_txs : items_of (pending p) from ++ items_of (queue p) from ≡ₚ txs;
  h_run : run_of p from;
  h_done : promoted_of from p = [];
}.

Lemma submit_step o tx p from txs :
  holds from p txs -> nonce_ok tx -> lookup p !! tx_hash tx = None -> validateTx p tx = PNil -> senderOf tx = Some from ->
  sr_GetNonce (state p) from <= nonceOf tx <= sr_GetNonce (state p) from +u MaxNonceGap ->
  nonceOf tx ∉ map nonceOf txs -> zlen txs < MaxPerSender (config p) -> Z.of_nat (size (lookup p)) < MaxSize (config p) ->
  exists p', pool_add o tx p = Some (p', None) /\ holds from p' (tx :: txs) /\ env p' = env p /\
    lookup p' = <[tx_hash tx := tx]> (lookup p).
Proof.
  intros [[Hs Hk] Ht Hr Hd] Hn Hl Hv Hsd Hw Hf Hc Hm.
  assert (Forall (fun t => nonceOf t <> nonceOf tx) (items_of (pending p) from ++ items_of (queue p) from)) as HF.
  { rewrite Ht. apply Forall_forall. intros x Hx E. apply Hf. rewrite <- E. by apply list_elem_of_fmap_2. }
  assert (senderTxCount from p = zlen txs) as Ec.
  { unfold senderTxCount, zlen. rewrite <- (Permutation_length Ht), length_app. lia. }
  exists (promoteQueue from (filed from tx p)). rewrite (add_fresh o tx p from) by (done || lia).
  destruct (filed_ok from tx p Hs (conj Hsd Hn)) as (Hs3 & He3 & Hl3 & Hv3 & Hr3).
  pose proof (promote_ok from _ Hs3) as H. split; [done|]. split.
  - split.
    + split; [apply H|]. rewrite (pr_lookup _ _ _ H), Hl3. by eapply keyed_insert.
    + rewrite (pr_pending _ _ _ H), <- app_assoc, <- (pr_queue _ _ _ H), filed_perm, Ht by done. done.
    + eapply promote_run; [exact H|]. by apply Hr3.
    + apply H.
  - split; [rewrite (pr_env _ _ _ H); done|]. by rewrite (pr_lookup _ _ _ H).
Qed.

Lemma submit_all from adds : forall p txs,
  holds from p txs -> Forall (fun a => nonce_ok a.2 /\ validateTx p a.2 = PNil /\ senderOf a.2 = Some from /\
    sr_GetNonce (state p) from <= nonceOf a.2 <= sr_GetNonce (state p) from +u MaxNonceGap) adds ->
  NoDup (map nonceOf (map snd adds ++ txs)) -> NoDup (map (fun a => tx_hash a.2) adds) ->
  Forall (fun a => lookup p !! tx_hash a.2 = None) adds ->
  zlen adds + zlen txs <= MaxPerSender (config p) -> Z.of_nat (size (lookup p)) + zlen adds <= MaxSize (config p) ->
  exists p', submit adds p = Some p' /\ env p' = env p /\ exists all, holds from p' all /\ all ≡ₚ map snd adds ++ txs.
Proof.
  induction adds as [|[o tx] adds IH]; intros p txs Hh Ha Hnd Hndh Hl Hc Hm.
  { exists p. split; [done|]. split; [done|]. by exists txs. }
  unfold zlen in *. simpl in *. apply Forall_cons in Ha as [(A1 & A2 & A3 & A4) Ha]. apply Forall_cons in Hl as [L1 Hl].
  apply NoDup_cons in Hnd as [N1 Hnd]. apply NoDup_cons in Hndh as [N2 Hndh]. simpl in *.
  rewrite map_app, elem_of_app in N1. unfold zlen in *.
  destruct (submit_step o tx p from txs Hh A1 L1 A2 A3 A4) as (p' & E & Hh' & He & El);
    [tauto|unfold zlen; lia|lia|]. rewrite E.
  assert (state p' = state p /\ config p' = config p) as [Est Ecf] by (unfold env in He; split; congruence).
  destruct (IH p' (tx :: txs) Hh') as (p2 & E2 & He2 & all & Hall & Hp2).
  - eapply Forall_impl; [exact Ha|]. intros a (? & ? & ? & ?). rewrite (validateTx_env p p') by done. by rewrite Est.
  - rewrite <- Permutation_middle. simpl. constructor; [|done]. rewrite map_app, elem_of_app. tauto.
  - done.
  - rewrite El. apply Forall_forall. intros a Hin. rewrite lookup_insert_ne.
    + rewrite Forall_forall in Hl. by apply Hl.
    + intros E'. apply N2. rewrite E'. by apply (list_elem_of_fmap_2 (fun a => tx_hash a.2)).
  - rewrite Ecf. simpl. lia.
  - rewrite El, map_size_insert_None, Ecf by done. lia.
  - exists p2. split; [done|]. split; [by rewrite He2|]. exists all. split; [done|].
    rewrite Hp2. symmetry. apply Permutation_middle.
Qed.

Lemma after_run n P a : list_ok a P -> list_Ready n P = P -> after n P = n + Z.of_nat (length P).
Proof.
  intros HP Hr. unfold after. destruct (last P) as [t|] eqn:E; [|apply last_None in E as ->; simpl; lia].
  rewrite last_lookup in E. pose proof (ready_nonces n P _ t a HP Hr E) as Hn.
  pose proof (lo_txs _ _ HP) as Ht. rewrite Forall_lookup in Ht. destruct (Ht _ _ E) as [_ Hb].
  apply lookup_lt_Some in E. assert (nonceOf t +u 1 = nonceOf t + 1) as -> by (unfold u64; rewrite Z.mod_small; lia). lia.
Qed.

(** When the nonces leave no gap, nothing stays in the queue. *)
Lemma holds_all_pending from p txs n k :
  holds from p txs -> sr_GetNonce (state p) from = n -> map nonceOf txs ≡ₚ seqZ n k -> items_of (queue p) from = [].
Proof.
  intros [[[Hp Hq] _] Ht Hr Hd] En Hseq. pose proof (items_ok _ from Hp) as HP. pose proof (items_ok _ from Hq) as HQ.
  destruct (items_of (queue p) from) as [|t q] eqn:Eq; [done|exfalso].
  set (P := items_of (pending p) from) in *. unfold run_of in Hr. fold P in Hr. rewrite En in Hr.
  unfold promoted_of in Hd. fold P in Hd. rewrite En, Eq in Hd. simpl in Hd.
  assert (forall x, x ∈ map nonceOf (P ++ t :: q) <-> n <= x < n + k) as Hin.
  { intros x. rewrite Ht, Hseq. apply elem_of_seqZ. }
  assert (forall i, (i < length P)%nat -> n + Z.of_nat i ∈ map nonceOf P) as HPi.
  { intros i Hi. destruct (lookup_lt_is_Some_2 P i Hi) as [x Hx]. rewrite <- (ready_nonces n P i x from HP Hr Hx).
    apply list_elem_of_fmap_2. by eapply list_elem_of_lookup_2. }
  assert (NoDup (map nonceOf (P ++ t :: q))) as Hnd by (rewrite Ht, Hseq; apply NoDup_seqZ).
  rewrite (after_run n P from HP Hr) in Hd. rewrite map_app in Hnd. apply NoDup_app in Hnd as (_ & Hdj & _).
  assert (n <= nonceOf t < n + k) as Ht0 by (apply Hin; rewrite map_app; apply elem_of_app; right; by left).
  assert (n + Z.of_nat (length P) < nonceOf t) as Hgt.
  { destruct (Z.eqb_spec (nonceOf t) (n + Z.of_nat (length P))); [done|].
    assert (~ nonceOf t < n + Z.of_nat (length P)); [|lia]. intros Hlt.
    apply (Hdj (nonceOf t)); [|by left]. pose proof (HPi (Z.to_nat (nonceOf t - n)) ltac:(lia)) as HH.
    by replace (n + Z.of_nat (Z.to_nat (nonceOf t - n))) with (nonceOf t) in HH by lia. }
  assert (n + Z.of_nat (length P) ∈ map nonceOf (P ++ t :: q)) as Hx by (apply Hin; lia).
  apply list_elem_of_fmap in Hx as (x & Ex & Hx). apply elem_of_app in Hx as [Hx|[->|Hx]%elem_of_cons]; [| lia|].
  - apply list_elem_of_lookup_1 in Hx as [j Hj]. pose proof (ready_nonces n P j x from HP Hr Hj).
    apply lookup_lt_Some in Hj. lia.
  - pose proof (lo_sorted _ _ HQ) as [_ Hs]%StronglySorted_inv. rewrite Forall_forall in Hs.
    specialize (Hs x Hx). simpl in Hs. lia.
Qed.

(** C19. Submissions become executable in any order: take a reachable pool that
    holds no transaction of a sender, and at most 65 transactions of that
    sender (the nonce gap the pool allows, plus one), each of which passes
    [validateTx] and is not known to the pool, with pairwise different hashes,
    and with exactly the nonces from the account's nonce on.  If the limits of
    the pool leave room for all of them, then, submitted in any order, all are
    accepted and in the end all are pending, in nonce order, with none left in
    the queue. *)
Theorem submissions_become_pending ops c s p from n k adds :
  Forall pool_op_ok ops -> run_pool ops (NewTxPool c s) = Some p ->
  pending p !! from = None -> queue p !! from = None ->
  sr_GetNonce (state p) from = n -> 0 <= n < 2 ^ 64 - 65 -> k <= MaxNonceGap + 1 ->
  map (fun a => nonceOf a.2) adds ≡ₚ seqZ n k ->
  Forall (fun a => validateTx p a.2 = PNil /\ senderOf a.2 = Some from /\ lookup p !! tx_hash a.2 = None) adds ->
  NoDup (map (fun a => tx_hash a.2) adds) ->
  zlen adds <= MaxPerSender (config p) -> Z.of_nat (size (lookup p)) + zlen adds <= MaxSize (config p) ->
  exists p' l, submit adds p = Some p' /\ items_of (pending p') from = l /\ queue p' !! from = None /\
    l ≡ₚ map snd adds /\ forall i tx, l !! i = Some tx -> nonceOf tx = n + Z.of_nat i.
Proof.
  intros Ho E Hp0 Hq0 En Hn Hk Hseq Ha Hndh Hc Hm. pose proof (run_pool_ok _ _ _ Ho (new_ok c s) E) as Hok.
  unfold MaxNonceGap in *.
  assert (holds from p []) as Hh.
  { split; [done| | |]; unfold run_of, promoted_of, items_of; by rewrite ?Hp0, ?Hq0. }
  assert (n +u 64 = n + 64) as Eu by (unfold u64; rewrite Z.mod_small; lia).
  destruct (submit_all from adds p [] Hh) as (p' & Es & He & all & Hall & Hperm).
  - apply Forall_forall. intros a Hin. rewrite Forall_forall in Ha. destruct (Ha a Hin) as (H1 & H2 & _).
    assert (nonceOf a.2 ∈ seqZ n k) as Hnk%elem_of_seqZ.
    { rewrite <- Hseq. by apply (list_elem_of_fmap_2 (fun a => nonceOf a.2)). }
    unfold nonce_ok, MaxNonceGap. rewrite En, Eu. split_and!; done || lia.
  - rewrite app_nil_r, map_map, Hseq. apply NoDup_seqZ.
  - done.
  - eapply Forall_impl; [exact Ha|]. by intros a (_ & _ & ?).
  - unfold zlen in *. simpl. lia.
  - done.
  - rewrite app_nil_r in Hperm.
    assert (sr_GetNonce (state p') from = n) as En' by (unfold env in He; by assert (state p' = state p) as -> by congruence).
    assert (items_of (queue p') from = []) as Eq.
    { eapply holds_all_pending; [exact Hall|exact En'|]. by rewrite Hperm, map_map. }
    exists p', (items_of (pending p') from). split_and!; [done|done| | |].
    + unfold items_of in Eq. destruct (queue p' !! from) as [q|] eqn:Eqq; [|done]. simpl in Eq.
      by destruct (proj2 (po_shape _ (h_ok _ _ _ Hall)) _ _ Eqq) as [_ []].
    + rewrite <- Hperm, <- (h_txs _ _ _ Hall), Eq, app_nil_r. done.
    + intros i tx Hi. pose proof (h_run _ _ _ Hall) as Hr. unfold run_of in Hr. rewrite En' in Hr.
      exact (ready_nonces n _ i tx from (items_ok _ from (proj1 (po_shape _ (h_ok _ _ _ Hall)))) Hr Hi).
Qed.

(** ** Replacement of a transaction that is not the sender's next *)

Lemma ready_later n l t l' : l = t :: l' -> nonceOf t < n -> list_Ready n l = [].
Proof. intros -> H. simpl. by destruct (Z.eqb_spec (nonceOf t) n); [lia|]. Qed.

Lemma add_head tx l : nsorted l -> exists t l', list_Add tx l = t :: l' /\ nonceOf t <= nonceOf tx.
Proof.
  intros (a & b & -> & Ha & Hb)%(nsorted_split (nonceOf tx)). rewrite add_split by done.
  destruct a as [|t a]; [by eexists tx, _|]. eexists t, _. split; [done|]. inversion Ha; subst. simpl in *. lia.
Qed.

Lemma leak_step o tx p from old :
  shape p -> list_Get (nonceOf tx) (items_of (pending p) from) = Some old ->
  sr_GetNonce (state p) from < nonceOf tx <= sr_GetNonce (state p) from +u MaxNonceGap ->
  nonce_ok tx -> senderOf tx = Some from -> validateTx p tx = PNil ->
  hasSufficientBump p (inner old) (inner tx) = true -> lookup p !! tx_hash tx = None ->
  exists p', pool_add o tx p = Some (p', None) /\ shape p' /\ env p' = env p /\ pending p' = pending p /\
    lookup p' = <[tx_hash tx := tx]> (base.delete (tx_hash old) (lookup p)).
Proof.
  intros Hs Hg Hn Hok Hsd Hv Hb Hl. unfold TxPool.pool_add. rewrite Hl, Hv, Hsd. cbv zeta.
  destruct (Z.ltb_spec (nonceOf tx) (sr_GetNonce (state p) from)); [lia|].
  rewrite Z.gtb_ltb. destruct (Z.ltb_spec (sr_GetNonce (state p) from +u MaxNonceGap) (nonceOf tx)); [lia|].
  rewrite checkReplacement_eq, Hg, Hb. simpl.
  destruct (Z.eqb_spec (nonceOf tx) (sr_GetNonce (state p) from)); [lia|].
  set (p3 := addQueue from tx _). destruct Hs as [Hp Hq].
  assert (shape p3) as Hs3.
  { split; [done|]. simpl. apply lists_ok_insert; [done|apply list_ok_add; [done|by apply items_ok]|apply add_nonempty]. }
  assert (promoted_of from p3 = []) as Hd.
  { unfold promoted_of. simpl. rewrite items_insert.
    destruct (add_head tx (items_of (queue p) from)) as (t & l' & E & Ht); [by apply items_ok|].
    apply (ready_later _ _ t l' E). apply get_Some in Hg as [Hg Eg]; [|by apply items_ok].
    pose proof (after_above (sr_GetNonce (state p) from) _ from (items_ok _ from Hp)) as Ha.
    rewrite Forall_forall in Ha. specialize (Ha old Hg). simpl in Ha. lia. }
  pose proof (promote_ok from p3 Hs3) as Hpr.
  exists (promoteQueue from p3). split; [done|]. split; [apply Hpr|]. split; [rewrite (pr_env _ _ _ Hpr); done|].
  split; [|by rewrite (pr_lookup _ _ _ Hpr)].
  rewrite (promoteQueue_eq from p3 (items_of (queue p3) from)) by (apply Hs3 || by rewrite Hd). by rewrite Hd.
Qed.

Lemma bump_env p p' old new : env p' = env p -> hasSufficientBump p' old new = hasSufficientBump p old new.
Proof. destruct p, p'. unfold env. simpl. by intros [= _ _ _ -> _]. Qed.

Lemma leak_all from m old adds : forall p,
  shape p -> list_Get m (items_of (pending p) from) = Some old ->
  sr_GetNonce (state p) from < m <= sr_GetNonce (state p) from +u MaxNonceGap ->
  Forall (fun a => nonce_ok a.2 /\ nonceOf a.2 = m /\ senderOf a.2 = Some from /\ validateTx p a.2 = PNil /\
    hasSufficientBump p (inner old) (inner a.2) = true /\ tx_hash a.2 <> tx_hash old) adds ->
  NoDup (map (fun a => tx_hash a.2) adds) -> Forall (fun a => lookup p !! tx_hash a.2 = None) adds ->
  exists p', submit adds p = Some p' /\ pending p' = pending p /\
    size (base.delete (tx_hash old) (lookup p')) = (size (base.delete (tx_hash old) (lookup p)) + length adds)%nat.
Proof.
  induction adds as [|[o tx] adds IH]; intros p Hs Hg Hm Ha Hnd Hl; simpl.
  { exists p. split; [done|]. split; [done|]. lia. }
  apply Forall_cons in Ha as [(A1 & <- & A3 & A4 & A5 & A6) Ha]. apply Forall_cons in Hl as [L1 Hl]. simpl in *.
  apply NoDup_cons in Hnd as [N1 Hnd].
  destruct (leak_step o tx p from old Hs Hg Hm A1 A3 A4 A5 L1) as (p1 & E & Hs1 & He1 & Hp1 & Hl1). rewrite E.
  assert (state p1 = state p) as Est by (unfold env in He1; congruence).
  destruct (IH p1) as (p2 & E2 & Hp2 & Hsz); [done|by rewrite Hp1|by rewrite Est| |done| |].
  - eapply Forall_impl; [exact Ha|]. intros a (? & ? & ? & ? & ? & ?).
    by rewrite (validateTx_env p p1), (bump_env p p1).
  - rewrite Hl1. apply Forall_forall. intros a Hin. rewrite lookup_insert_ne.
    + apply lookup_delete_None. right. rewrite Forall_forall in Hl. by apply Hl.
    + intros E'. apply N1. rewrite E'. by apply (list_elem_of_fmap_2 (fun a => tx_hash a.2)).
  - exists p2. split; [done|]. split; [congruence|]. rewrite Hsz, Hl1, delete_insert_ne, delete_delete_eq by done.
    rewrite map_size_insert_None; [lia|]. rewrite lookup_delete_ne by done. done.
Qed.

(** Replacing a pending transaction that is not the sender's next does
    not work, and defeats the limits of the pool: however many replacements
    of it are submitted, all of them are accepted, the pending lists do not
    change, and the lookup table grows by one for each but the first, whatever
    [MaxSize] and [MaxPerSender] are. *)
Lemma replacement_leaks ops c s p from old adds :
  Forall pool_op_ok ops -> run_pool ops (NewTxPool c s) = Some p ->
  list_Get (nonceOf old) (items_of (pending p) from) = Some old ->
  sr_GetNonce (state p) from < nonceOf old <= sr_GetNonce (state p) from +u MaxNonceGap ->
  Forall (fun a => nonceOf a.2 = nonceOf old /\ senderOf a.2 = Some from /\ validateTx p a.2 = PNil /\
    hasSufficientBump p (inner old) (inner a.2) = true /\ tx_hash a.2 <> tx_hash old /\ lookup p !! tx_hash a.2 = None) adds ->
  NoDup (map (fun a => tx_hash a.2) adds) ->
  exists p', submit adds p = Some p' /\ pending p' = pending p /\ pool_Count p + zlen adds - 1 <= pool_Count p'.
Proof.
  intros Ho E Hg Hm Ha Hnd. pose proof (run_pool_ok _ _ _ Ho (new_ok c s) E) as Hok.
  assert (nonce_ok old) as Hno.
  { apply get_Some in Hg as [Hg _]; [|apply items_ok, Hok].
    pose proof (lo_txs _ _ (items_ok _ from (proj1 (po_shape _ Hok)))) as Ht. rewrite Forall_forall in Ht. apply (Ht old Hg). }
  destruct (leak_all from (nonceOf old) old adds p (po_shape _ Hok) Hg Hm) as (p' & Es & Hp & Hsz).
  - eapply Forall_impl; [exact Ha|]. intros a (E1 & ? & ? & ? & ? & _). split_and!; try done. unfold nonce_ok. by rewrite E1.
  - done.
  - eapply Forall_impl; [exact Ha|]. by intros a (_ & _ & _ & _ & _ & ?).
  - exists p'. split; [done|]. split; [done|]. unfold pool_Count, zlen.
    assert (size (lookup p) <= S (size (base.delete (tx_hash old) (lookup p))))%nat as H1.
    { destruct (lookup p !! tx_hash old) as [x|] eqn:El; [|rewrite delete_id by done; lia].
      rewrite map_size_delete_Some by done. lia. }
    assert (size (base.delete (tx_hash old) (lookup p')) <= size (lookup p'))%nat as H2.
    { apply map_subseteq_size, delete_subseteq. }
    lia.
Qed.

(** A queued transaction below the next nonce blocks the queue: [Reset] looks
    at the pending lists only, and promotion stops at the stale one. *)
Lemma stale_queue_blocks from p t q :
  shape p -> queue p !! from = Some (t :: q) -> nonceOf t < nextNonce from p -> promoteQueue from p = p.
Proof.
  intros [Hp Hq] E Hn. assert (items_of (queue p) from = t :: q) as Ei by (unfold items_of; by rewrite E).
  assert (promoted_of from p = []) as Hd.
  { unfold promoted_of. rewrite Ei. by apply (ready_later _ _ t q). }
  rewrite (promoteQueue_eq from p (t :: q) Hp Hq) by (by rewrite Hd). rewrite Hd. unfold keep.
  rewrite insert_id by done. by destruct p.
Qed.

(** A signature value of more than 32 bytes panics the pool: [add] of a
    transaction that passes the checks before the balance, whose sender is
    not cached and whose [R] does not fit, slices out of range. *)
Lemma oversized_signature_panics o p tx v r s :
  lookup p !! tx_hash tx = None -> Transactions.from tx = None ->
  RawSignatureValues (inner tx) = (v, Some r, Some s) -> 2 ^ 256 <= r ->
  validateShape p (inner tx) = PNil -> validateGas p (inner tx) = PNil -> validateFees p (inner tx) = PNil ->
  pool_add o tx p = None.
Proof.
  intros Hl Hf Hrs Hr H1 H2 H3. unfold TxPool.pool_add. rewrite Hl.
  assert (senderOf tx = None /\ payerOf keccak256 Ecrecover tx = None /\
    match inner tx with FrameT _ | AA _ => False | _ => True end) as (Hs & Hp & Hi).
  { assert ((zlen (Bytes r) >? 32) = true) as Hb.
    { unfold zlen, Bytes, byte_len. rewrite length_be_bytes. unfold BitLen. rewrite (Z.abs_eq r) by lia.
      destruct (Z.eqb_spec r 0); [lia|]. pose proof (Z.log2_le_mono _ _ Hr) as Hlog. rewrite Z.log2_pow2 in Hlog by lia.
      rewrite Z.gtb_ltb. apply Z.ltb_lt. rewrite Z2Nat.id by (apply Z.div_pos; lia).
      assert (33 <= (Z.log2 r + 1 + 7) / 8) by (apply Z.div_le_lower_bound; lia). lia. }
    assert (senderOf tx = None) as Hs.
    { unfold TxPool.senderOf. rewrite Hf. destruct (inner tx); simpl in Hrs; try done; simpl; injection Hrs as -> -> ->; by rewrite Hb. }
    split; [done|]. unfold payerOf. destruct (inner tx); done. }
  unfold TxPool.validateTx. rewrite H1, H2, H3. simpl. unfold validateBalance. rewrite Hp. by destruct (inner tx).
Qed.

End Pool.

(** ** A concrete pool *)

Lemma sortStable_asc {A} (price : A -> Z) l :
  StronglySorted (fun a b => price a <= price b) (sortStable (fun a b => price a <? price b) l).
Proof.
  induction l as [|x l IH]; [constructor|]. simpl. revert IH. generalize (sortStable (fun a b => price a <? price b) l).
  clear l. induction l as [|y l IH]; intros Hs; simpl; [by repeat constructor|].
  apply StronglySorted_inv in Hs as [Hs Hy]. destruct (Z.ltb_spec (price y) (price x)).
  - constructor; [by apply IH|]. rewrite insertStable_perm. constructor; [lia|done].
  - constructor; [by constructor|]. constructor; [done|]. eapply Forall_impl; [exact Hy|]. simpl. lia.
Qed.

Definition w_order : GoOrder := mkGoOrder (fun A m => map_to_list m) (fun A less l => sortStable less l).

Lemma w_order_ok : order_ok w_order.
Proof. split; simpl; [done|intros; apply sortStable_perm|intros; apply sortStable_asc]. Qed.

Definition w_keccak (b : bytes) : bytes := b.
Definition w_recover (hash sig : bytes) : option bytes := None.

Definition w_tx (nonce price : Z) : Transaction :=
  mkTx (Legacy (mkLegacyTx nonce (Some price) 21000 (Some 99) (Some 0) [] (Some 27) (Some 1) (Some 1))) (Some 7) None.

Definition w_reader (nonce : Z) : StateReader := mkStateReader (fun _ => nonce) (fun _ => Some (10 ^ 18)).

Definition w_add (nonce price : Z) : GoOrder * Transaction := (w_order, w_tx nonce price).

Definition w_ops : list pool_op :=
  map (fun a => OAdd a.1 a.2) [w_add 7 10; w_add 5 10; w_add 6 4; w_add 9 30] ++ [OSetBaseFee w_order 5; OSetBlobBaseFee 1].

Lemma w_ops_ok : Forall pool_op_ok w_ops.
Proof.
  repeat (apply Forall_cons; split); [..|by apply Forall_nil];
    first [exact I|exact w_order_ok|split; [exact w_order_ok|vm_compute; split; [discriminate|reflexivity]]].
Qed.

Definition w_run (c : TxPoolConfig) (ops : list pool_op) : TxPool :=
  default (NewTxPool c (w_reader 5)) (run_pool w_keccak w_recover ops (NewTxPool c (w_reader 5))).

Definition w_pool : TxPool := w_run DefaultConfig w_ops.

Lemma pool_invariant_witness :
  exists p', pool_Remove w_keccak w_recover (tx_hash w_keccak (w_tx 7 10)) w_pool = Some p'.
Proof.
  apply (pool_invariant w_keccak w_recover w_ops DefaultConfig (w_reader 5) w_pool (tx_hash w_keccak (w_tx 7 10)));
    [apply w_ops_ok|vm_compute; reflexivity].
Defined.

(** After a block with nonce 5, a reset and the missing nonce. *)
Definition w_adds : list (GoOrder * Transaction) := [w_add 8 12].

Definition w_later : TxPool :=
  default w_pool (run_pool w_keccak w_recover (OReset w_order (w_reader 6) :: map (fun a => OAdd a.1 a.2) w_adds) w_pool).

Lemma pending_flat_gap_free_witness :
  exists groups, PendingFlat w_order w_later = concat (map snd groups) /\ groups ≡ₚ map_to_list (pending w_later) /\
    StronglySorted (fun g h => headPrice w_later h.2 <= headPrice w_later g.2) groups /\
    forall a l i tx, (a, l) ∈ groups -> l !! i = Some tx ->
      senderOf w_keccak w_recover tx = Some a /\ nonceOf tx = sr_GetNonce (w_reader 6) a + Z.of_nat i.
Proof.
  apply (pending_flat_gap_free w_keccak w_recover w_order w_order w_ops DefaultConfig (w_reader 5) (w_reader 6) w_pool w_adds);
    [apply w_order_ok|apply w_order_ok|apply w_ops_ok| |vm_compute; reflexivity|vm_compute; reflexivity].
  repeat constructor; try apply w_order_ok; vm_compute; discriminate.
Defined.

Definition w_three : list (GoOrder * Transaction) := [w_add 7 10; w_add 5 11; w_add 6 12].

Lemma submissions_become_pending_witness :
  exists p' l, submit w_keccak w_recover w_three (NewTxPool DefaultConfig (w_reader 5)) = Some p' /\
    items_of (pending p') 7 = l /\ queue p' !! 7 = None /\
    l ≡ₚ map snd w_three /\ forall i tx, l !! i = Some tx -> nonceOf tx = 5 + Z.of_nat i.
Proof.
  apply (submissions_become_pending w_keccak w_recover [] DefaultConfig (w_reader 5) (NewTxPool DefaultConfig (w_reader 5)) 7 5 3 w_three);
    [apply Forall_nil; exact I|reflexivity|reflexivity|reflexivity|reflexivity|lia|unfold MaxNonceGap; lia| | | |vm_compute; discriminate|vm_compute; discriminate].
  - simpl. apply (Permutation_app_comm [7] [5; 6]).
  - repeat (apply Forall_cons; split); try (by apply Forall_nil); split_and!; vm_compute; reflexivity.
  - vm_compute. repeat (apply NoDup_cons; split); try apply NoDup_nil_2; rewrite ?not_elem_of_cons; repeat split; (discriminate || apply not_elem_of_nil).
Defined.

(** Two transactions fill this pool. *)
Definition w_small : TxPoolConfig :=
  mkTxPoolConfig 2 2 (Some 1) 30000000 None true false true false false.

Definition w_two : list pool_op := map (fun a => OAdd a.1 a.2) [w_add 5 10; w_add 6 10].

Definition w_bumps : list (GoOrder * Transaction) := [w_add 6 20; w_add 6 21; w_add 6 22; w_add 6 23].

Lemma replacement_leaks_witness :
  exists p', submit w_keccak w_recover w_bumps (w_run w_small w_two) = Some p' /\
    pending p' = pending (w_run w_small w_two) /\ pool_Count (w_run w_small w_two) + zlen w_bumps - 1 <= pool_Count p'.
Proof.
  apply (replacement_leaks w_keccak w_recover w_two w_small (w_reader 5) (w_run w_small w_two) 7 (w_tx 6 10) w_bumps).
  - repeat constructor; try apply w_order_ok; vm_compute; discriminate.
  - vm_compute. reflexivity.
  - vm_compute. reflexivity.
  - vm_compute. split; [reflexivity|discriminate].
  - repeat (apply Forall_cons; split); try (by apply Forall_nil); split_and!; vm_compute; (reflexivity || discriminate).
  - vm_compute. repeat (apply NoDup_cons; split); try apply NoDup_nil_2; rewrite ?not_elem_of_cons; repeat split; (discriminate || apply not_elem_of_nil).
Defined.

Definition w_oversized : Transaction :=
  mkTx (Legacy (mkLegacyTx 5 (Some 10) 21000 (Some 99) (Some 0) [] (Some 27) (Some (2 ^ 256)) (Some 1))) None None.

Lemma oversized_signature_panics_witness : pool_add w_keccak w_recover w_order w_oversized w_pool = None.
Proof.
  apply (oversized_signature_panics w_keccak w_recover w_order w_pool w_oversized (Some 27) (2 ^ 256) 1);
    [vm_compute; reflexivity|reflexivity|reflexivity|lia|vm_compute; reflexivity..].
Defined.

(** Raising the base fee takes a transaction out of the middle of a run: the
    later ones stay pending although they cannot execute. *)
Lemma base_fee_leaves_gap : map nonceOf (items_of (pending w_pool) 7) = [5; 7].
Proof. vm_compute. reflexivity. Qed.
