(* ===== verification/TxPoolGas.v ===== *)
(** * TxPoolGas: the pool's gas check against the block processor's

    The pool prices a transaction with code of its own
    (txpool/txpool.go, [IntrinsicGas] and its relatives), which has to cover
    what [applyMessage] (core/execution/processor.go) will demand. *)

From stdpp Require Import gmap.
From S2P Require Import Prelude Rlp StateDB Machine Calls GasTable Instructions JumpTable Interpreter.
From S2P Require Import Transactions Signer Blocks Receipts ChainConfig Fees TxState Processor TxPool.
From S2P Require Import MemStateDB Fixture ProcessorProofs.

(** ** Sums modulo 2^64 *)

(** Equality of the low 64 bits, respected by addition, subtraction and
    multiplication: inner reductions can be dropped. *)
Definition eq64 (x y : Z) : Prop := u64 x = u64 y.

#[export] Instance eq64_equiv : Equivalence eq64.
Proof. split; unfold eq64; [by intros x|by intros x y ->|by intros x y z -> ->]. Qed.

#[export] Instance eq64_add : Proper (eq64 ==> eq64 ==> eq64) Z.add.
Proof. unfold eq64, u64. intros a b H c d H'. by rewrite Zplus_mod, H, H', <- Zplus_mod. Qed.

#[export] Instance eq64_sub : Proper (eq64 ==> eq64 ==> eq64) Z.sub.
Proof. unfold eq64, u64. intros a b H c d H'. by rewrite Zminus_mod, H, H', <- Zminus_mod. Qed.

#[export] Instance eq64_mul : Proper (eq64 ==> eq64 ==> eq64) Z.mul.
Proof. unfold eq64, u64. intros a b H c d H'. by rewrite Zmult_mod, H, H', <- Zmult_mod. Qed.

Lemma eq64_u64 x : eq64 (u64 x) x.
Proof. apply u64_idemp. Qed.

Lemma eq64_intro x y : x = y -> eq64 x y.
Proof. by intros ->. Qed.

(** Goals [u64 x = u64 y]. *)
Ltac u64_ring :=
  match goal with |- u64 ?x = u64 ?y => change (eq64 x y) end; repeat setoid_rewrite eq64_u64; apply eq64_intro; try lia.

Definition sumBy {A} (f : A -> Z) (l : list A) : Z := fold_right (fun x s => f x + s) 0 l.

(** A loop that adds up. *)
Lemma fold_sum {A} (f : A -> Z) (step : Z -> A -> Z) l g :
  (forall g x, step (u64 g) x = u64 (g + f x)) -> fold_left step l (u64 g) = u64 (g + sumBy f l).
Proof.
  intros H. revert g. induction l as [|x l IH]; intros g; simpl; [by rewrite Z.add_0_r|].
  rewrite H, IH. f_equal. lia.
Qed.

Lemma sumBy_ext {A} (f g : A -> Z) l : (forall x, f x = g x) -> sumBy f l = sumBy g l.
Proof. intros H. induction l as [|x l IH]; [done|]. simpl. by rewrite H, IH. Qed.

Lemma sumBy_le {A} (f g : A -> Z) l : (forall x, f x <= g x) -> sumBy f l <= sumBy g l.
Proof. intros H. induction l as [|x l IH]; simpl; [lia|]. specialize (H x). lia. Qed.

Lemma sumBy_const {A} c (l : list A) : sumBy (fun _ => c) l = c * zlen l.
Proof. induction l as [|x l IH]; [unfold zlen; simpl; lia|]. simpl. rewrite IH. unfold zlen. simpl length. lia. Qed.

Lemma sumBy_add {A} (f g : A -> Z) l : sumBy (fun x => f x + g x) l = sumBy f l + sumBy g l.
Proof. induction l as [|x l IH]; simpl; lia. Qed.

Lemma sumBy_scale {A} c (f : A -> Z) l : sumBy (fun x => c * f x) l = c * sumBy f l.
Proof. induction l as [|x l IH]; simpl; lia. Qed.

(** ** Calldata *)

Definition tokenOf (b : Z) : Z := if b =? 0 then 1 else 4.
Definition tokens (data : bytes) : Z := sumBy tokenOf data.

Lemma calldataGas_sum g data : calldataGas (u64 g) data = u64 (g + 4 * tokens data).
Proof.
  unfold calldataGas, tokens. rewrite <- sumBy_scale. apply fold_sum. intros x b. unfold tokenOf, TxDataZeroGas, TxDataNonZeroGas.
  destruct (b =? 0); u64_ring.
Qed.

Lemma IntrinsicGas_sum data create glam :
  IntrinsicGas data create glam
  = u64 ((if glam then 4500 else 21000) + (if create then 32000 else 0) + 4 * tokens data).
Proof.
  unfold IntrinsicGas, poolTxCreateGas. set (g := if create then _ else _).
  assert (g = u64 ((if glam then 4500 else 21000) + (if create then 32000 else 0))) as ->.
  { unfold g. by destruct create, glam. }
  set (g0 := (if glam then 4500 else 21000) + _). destruct data as [|b data]; [by rewrite Z.add_0_r|].
  set (l := b :: data). set (nz := fun b => if b =? 0 then 0 else 1).
  assert (fold_left (fun n b => if negb (b =? 0) then n +u 1 else n) l 0 = u64 (0 + sumBy nz l)) as ->.
  { apply (fold_sum nz _ l 0). intros n x. unfold nz. destruct (x =? 0); simpl; u64_ring. }
  assert (tokens l = zlen l + 3 * sumBy nz l) as ->; [|u64_ring]. unfold tokens. rewrite <- sumBy_scale.
  replace (zlen l) with (sumBy (fun _ => 1) l) by (rewrite sumBy_const; lia). rewrite <- sumBy_add. apply sumBy_ext.
  intros x. unfold tokenOf, nz. by destruct (x =? 0).
Qed.

(** ** Access lists *)

Definition alKeys (t : AccessTuple) : Z := zlen (at_StorageKeys t).
Definition tupleTokens (t : AccessTuple) : Z :=
  tokens (be_bytes 20 (at_Address t)) + sumBy (fun key => tokens (be_bytes 32 key)) (at_StorageKeys t).

Lemma fold_sum2 {A} (f g : A -> Z) (step : Z * Z -> A -> Z * Z) l a b :
  (forall a b x, step (u64 a, u64 b) x = (u64 (a + f x), u64 (b + g x))) ->
  fold_left step l (u64 a, u64 b) = (u64 (a + sumBy f l), u64 (b + sumBy g l)).
Proof.
  intros H. revert a b. induction l as [|x l IH]; intros a b; simpl; [by rewrite !Z.add_0_r|].
  rewrite H, IH. f_equal; f_equal; lia.
Qed.

Lemma accessListGas_sum al : accessListGas al = u64 (0 + sumBy (fun t => 2400 + 1900 * alKeys t) al).
Proof. apply (fold_sum _ _ al 0). intros g t. fold (alKeys t). u64_ring. Qed.

Lemma AccessListGas_sum al : AccessListGas al = u64 (0 + sumBy (fun t => 2400 + 1900 * alKeys t) al).
Proof. apply (fold_sum _ _ al 0). intros g t. fold (alKeys t). u64_ring. Qed.

Lemma poolTokens_sum a b : poolTokens (u64 a) b = u64 (a + tokens b).
Proof. apply fold_sum. intros g x. unfold tokenOf. destruct (x =? 0); u64_ring. Qed.

Lemma poolTokens_keys keys a :
  fold_left (fun tokens key => poolTokens tokens (be_bytes 32 key)) keys (u64 a)
  = u64 (a + sumBy (fun key => tokens (be_bytes 32 key)) keys).
Proof. apply fold_sum. intros g key. apply poolTokens_sum. Qed.

Definition alGasGlamst (al : AccessList) : Z :=
  sumBy (fun t => 3200 + 2500 * alKeys t) al + 16 * sumBy tupleTokens al.

Lemma AccessListGasGlamst_sum al : AccessListGasGlamst al = u64 (alGasGlamst al).
Proof.
  unfold AccessListGasGlamst, alGasGlamst.
  rewrite (fold_sum2 (fun t => 3200 + 2500 * alKeys t) tupleTokens _ al 0 0); [u64_ring|].
  intros a b t. fold (alKeys t). f_equal; [u64_ring|]. unfold tupleTokens.
  rewrite poolTokens_sum, poolTokens_keys. f_equal. lia.
Qed.

(** The processor counts zero and non-zero bytes. *)
Definition zerosOf (b : bytes) : Z := sumBy (fun x => if x =? 0 then 1 else 0) b.
Definition nonzerosOf (b : bytes) : Z := sumBy (fun x => if x =? 0 then 0 else 1) b.

Lemma countBytes_sum a c b : countBytes (u64 a, u64 c) b = (u64 (a + zerosOf b), u64 (c + nonzerosOf b)).
Proof. apply fold_sum2. intros x y z. destruct (z =? 0); f_equal; u64_ring. Qed.

Lemma tokens_count b : tokens b = zerosOf b + 4 * nonzerosOf b.
Proof.
  unfold tokens, zerosOf, nonzerosOf. rewrite <- sumBy_scale, <- sumBy_add. apply sumBy_ext.
  intros x. unfold tokenOf. by destruct (x =? 0).
Qed.

Lemma countBytes_keys keys a c :
  fold_left (fun z key => countBytes z (be_bytes 32 key)) keys (u64 a, u64 c)
  = (u64 (a + sumBy (fun key => zerosOf (be_bytes 32 key)) keys), u64 (c + sumBy (fun key => nonzerosOf (be_bytes 32 key)) keys)).
Proof. apply fold_sum2. intros x y key. apply countBytes_sum. Qed.

Lemma accessListDataTokens_sum al : accessListDataTokens al = u64 (sumBy tupleTokens al).
Proof.
  unfold accessListDataTokens.
  set (z := fun t => zerosOf (be_bytes 20 (at_Address t)) + sumBy (fun key => zerosOf (be_bytes 32 key)) (at_StorageKeys t)).
  set (n := fun t => nonzerosOf (be_bytes 20 (at_Address t)) + sumBy (fun key => nonzerosOf (be_bytes 32 key)) (at_StorageKeys t)).
  rewrite (fold_sum2 z n _ al 0 0).
  - assert (sumBy tupleTokens al = sumBy z al + 4 * sumBy n al) as ->; [|u64_ring].
    rewrite <- sumBy_scale, <- sumBy_add. apply sumBy_ext. intros t. unfold tupleTokens, z, n.
    rewrite (sumBy_ext (fun key => tokens (be_bytes 32 key))
      (fun key => zerosOf (be_bytes 32 key) + 4 * nonzerosOf (be_bytes 32 key))) by (intros; apply tokens_count).
    rewrite sumBy_add, sumBy_scale, tokens_count. lia.
  - intros a b t. rewrite countBytes_sum, countBytes_keys. unfold z, n. f_equal; f_equal; lia.
Qed.

Lemma accessListGasGlamst_sum al : accessListGasGlamst al = u64 (alGasGlamst al).
Proof.
  unfold accessListGasGlamst, alGasGlamst. rewrite accessListDataTokens_sum.
  rewrite (fold_sum (fun t => 3200 + 2500 * alKeys t) _ al 0); [unfold TotalCostFloorPerTokenGlamst; u64_ring|].
  intros g t. unfold AccessListAddressGlamst, AccessListStorageGlamst. fold (alKeys t). u64_ring.
Qed.

(** ** Floors *)

Lemma calldataTokens_sum data : calldataTokens data = u64 (tokens data).
Proof.
  unfold calldataTokens. apply (fold_sum tokenOf _ data 0). intros g x. unfold tokenOf. destruct (x =? 0); u64_ring.
Qed.

Definition createGas (create : bool) : Z := if create then 32000 else 0.

Lemma calldataFloorGas_sum data create :
  calldataFloorGas data create = u64 (21000 + 10 * tokens data + createGas create).
Proof.
  unfold calldataFloorGas, TxGas, TotalCostFloorPerToken, Processor.TxCreateGas, createGas. rewrite calldataTokens_sum.
  destruct create; u64_ring.
Qed.

Lemma calldataFloorGasGlamst_sum data al create :
  calldataFloorGasGlamst data al create
  = u64 (4500 + 16 * (4 * zlen data + sumBy tupleTokens al) + createGas create).
Proof.
  unfold calldataFloorGasGlamst, TxBaseGlamsterdam, TotalCostFloorPerTokenGlamst, Processor.TxCreateGas, createGas.
  rewrite accessListDataTokens_sum. destruct create; u64_ring.
Qed.

Lemma CalldataFloorGas_sum data create al :
  CalldataFloorGas data create false al = u64 (21000 + 10 * tokens data + createGas create).
Proof.
  unfold CalldataFloorGas, poolTxCreateGas, createGas. change 0 with (u64 0). rewrite poolTokens_sum.
  destruct create; u64_ring.
Qed.

Lemma CalldataFloorGasGlamst_sum data create al :
  CalldataFloorGas data create true al
  = u64 (4500 + 16 * (4 * zlen data + sumBy (fun t => 80 + 128 * alKeys t) al) + createGas create).
Proof.
  unfold CalldataFloorGas, poolTxCreateGas, createGas.
  rewrite (fold_sum (fun t => 80 + 128 * alKeys t) _ al (u64 (zlen data) * 4)).
  - destruct create; u64_ring.
  - intros g t. fold (alKeys t). u64_ring.
Qed.

(** ** The pool covers the processor *)

(** Sizes at which nothing overflows; the pool refuses encodings of more than
    128 KiB. *)
Record moderate (tx : TxData) : Prop := {
  md_data : zlen (tx_Data tx) <= 2 ^ 40;
  md_keys : sumBy (fun t => 1 + alKeys t) (tx_AccessList tx) <= 2 ^ 40;
  md_auth : zlen (AuthorizationList tx) <= 2 ^ 40;
}.

Lemma tokens_bounds b : 0 <= tokens b <= 4 * zlen b.
Proof.
  unfold tokens. split.
  - induction b as [|x b IH]; simpl; [lia|]. unfold tokenOf at 1. destruct (x =? 0); lia.
  - rewrite <- sumBy_const. apply sumBy_le. intros x. unfold tokenOf. destruct (x =? 0); lia.
Qed.

Lemma sumBy_nonneg {A} (f : A -> Z) l : (forall x, 0 <= f x) -> 0 <= sumBy f l.
Proof. intros H. induction l as [|x l IH]; simpl; [lia|]. specialize (H x). lia. Qed.

Lemma alKeys_nonneg t : 0 <= alKeys t.
Proof. apply zlen_nonneg. Qed.

Lemma tupleTokens_bounds t : 0 <= tupleTokens t <= 80 + 128 * alKeys t.
Proof.
  unfold tupleTokens, alKeys. pose proof (tokens_bounds (be_bytes 20 (at_Address t))) as H.
  assert (zlen (be_bytes 20 (at_Address t)) = 20) as E by (unfold zlen; by rewrite length_be_bytes). rewrite E in H.
  split; [|transitivity (80 + sumBy (fun _ => 128) (at_StorageKeys t)); [|rewrite sumBy_const; lia]].
  - assert (0 <= sumBy (fun key => tokens (be_bytes 32 key)) (at_StorageKeys t)); [|lia].
    apply sumBy_nonneg. intros k. apply tokens_bounds.
  - assert (sumBy (fun key => tokens (be_bytes 32 key)) (at_StorageKeys t) <= sumBy (fun _ => 128) (at_StorageKeys t)); [|lia].
    apply sumBy_le. intros k. pose proof (tokens_bounds (be_bytes 32 k)) as Hk. unfold zlen in Hk. rewrite length_be_bytes in Hk. lia.
Qed.

(** The exact price of the access list, and its bounds. *)
Definition alGas (glam : bool) (al : AccessList) : Z :=
  if glam then alGasGlamst al else sumBy (fun t => 2400 + 1900 * alKeys t) al.

Lemma alGas_bounds glam al : 0 <= alGas glam al <= 10000 * sumBy (fun t => 1 + alKeys t) al.
Proof.
  unfold alGas, alGasGlamst. destruct glam; rewrite <- !sumBy_scale, <- ?sumBy_add.
  - split; [apply sumBy_nonneg|apply sumBy_le]; intros t; pose proof (tupleTokens_bounds t); pose proof (alKeys_nonneg t); lia.
  - split; [apply sumBy_nonneg|apply sumBy_le]; intros t; pose proof (alKeys_nonneg t); lia.
Qed.

Lemma pool_alGas (glam : bool) al :
  (if glam then AccessListGasGlamst al else AccessListGas al) = u64 (alGas glam al).
Proof. destruct glam; [apply AccessListGasGlamst_sum|]. rewrite AccessListGas_sum. unfold alGas. by rewrite Z.add_0_l. Qed.

Section Covers.

Context {DB : Type} `{StateDB DB}.
Context (keccak256 : bytes -> bytes) (config : option ChainConfig) (header : Header).

(** Ordinary transactions: the gas of account abstraction and frame
    transactions is checked elsewhere, and the gas limit of local ones is
    halved when they become messages. *)
Definition ordinary (t : TxData) : bool := match t with AA _ | FrameT _ | Local _ => false | _ => true end.

Abbreviation glam := (Processor.isGlamsterdan config header).

Definition baseGas (g : bool) : Z := if g then 4500 else 21000.

(** What both sides charge before the authorizations. *)
Definition plainGas (g : bool) (tx : TxData) : Z :=
  baseGas g + createGas (isNone (tx_To tx)) + 4 * tokens (tx_Data tx) + alGas g (tx_AccessList tx).

Lemma plainGas_bounds g tx : moderate tx -> 0 <= plainGas g tx <= 2 ^ 60.
Proof.
  intros [H1 H2 H3]. unfold plainGas. pose proof (tokens_bounds (tx_Data tx)). pose proof (alGas_bounds g (tx_AccessList tx)).
  unfold baseGas, createGas. destruct g, (isNone _); lia.
Qed.

Lemma totalIntrinsicGas_sum p tx :
  ordinary tx = true ->
  totalIntrinsicGas p tx
  = u64 (plainGas (pool_IsGlamsterdan (TxPool.config p)) tx + 37500 * zlen (AuthorizationList tx)).
Proof.
  intros Ht. set (g := pool_IsGlamsterdan (TxPool.config p)).
  assert (pool_intrinsicGas p tx = u64 (plainGas g tx)) as E.
  { assert (pool_intrinsicGas p tx = IntrinsicGas (tx_Data tx) (isNone (tx_To tx)) g +u u64 (alGas g (tx_AccessList tx))) as ->.
    { rewrite <- pool_alGas. unfold pool_intrinsicGas. fold g. by destruct tx. }
    rewrite IntrinsicGas_sum. unfold plainGas, baseGas, createGas. u64_ring. }
  unfold totalIntrinsicGas. rewrite E. unfold poolPerAuthBaseCost, poolPerEmptyAccountCost.
  destruct tx; try done; simpl; change (zlen []) with 0; try (rewrite Z.add_0_r; done). u64_ring.
Qed.

(** The processor's intrinsic gas of a call. *)
Lemma messageGas_call tx db :
  ordinary (inner tx) = true -> isNone (tx_To (inner tx)) = false ->
  (glam = true -> default 0 (tx_Value (inner tx)) <= 0 \/ exists a, tx_To (inner tx) = Some a /\ Exist db a = true) ->
  let msg := TransactionToMessage keccak256 tx in
  let igas := u64 (plainGas glam (inner tx) + 25000 * zlen (AuthorizationList (inner tx))) in
  messageGas config header msg db
  = if isPrague config header && (floorGas config header msg >? igas) then floorGas config header msg else igas.
Proof.
  intros Ht Hto Hv. cbv zeta. unfold messageGas.
  assert (isCreate (TransactionToMessage keccak256 tx) = false) as ->.
  { unfold isCreate. simpl. apply bool_decide_false. by destruct (tx_To (inner tx)). }
  assert (authCount (TransactionToMessage keccak256 tx) = u64 (zlen (AuthorizationList (inner tx)))) as ->.
  { unfold authCount. simpl. by destruct (inner tx). }
  cbn [m_Data m_AccessList m_Value m_To TransactionToMessage].
  assert (plainGas glam (inner tx) = baseGas glam + 4 * tokens (tx_Data (inner tx)) + alGas glam (tx_AccessList (inner tx))) as ->.
  { unfold plainGas, createGas. rewrite Hto. lia. }
  destruct glam eqn:Eg.
  - assert (intrinsicGasGlamst (tx_Data (inner tx)) false (default 0 (tx_Value (inner tx)) >? 0)
      (match tx_To (inner tx) with Some a => Exist db a | None => false end) (u64 (zlen (AuthorizationList (inner tx))))
      +u accessListGasGlamst (tx_AccessList (inner tx))
      = u64 (baseGas true + 4 * tokens (tx_Data (inner tx)) + alGas true (tx_AccessList (inner tx)) + 25000 * zlen (AuthorizationList (inner tx)))) as ->; [|done].
    assert (negb false && (default 0 (tx_Value (inner tx)) >? 0) &&
      negb (match tx_To (inner tx) with Some a => Exist db a | None => false end) = false) as En.
    { destruct (Hv eq_refl) as [Hz|(a & -> & ->)]; [|by rewrite andb_false_r]. rewrite Z.gtb_ltb.
      by destruct (Z.ltb_spec 0 (default 0 (tx_Value (inner tx)))); [lia|]. }
    unfold intrinsicGasGlamst. rewrite En. unfold TxBaseGlamsterdam. change 4500 with (u64 4500) at 1.
    rewrite calldataGas_sum, accessListGasGlamst_sum. unfold PerEmptyAccountCost, baseGas, alGas. u64_ring.
  - assert (forall sh, intrinsicGas (tx_Data (inner tx)) false sh (u64 (zlen (AuthorizationList (inner tx))))
      +u accessListGas (tx_AccessList (inner tx))
      = u64 (baseGas false + 4 * tokens (tx_Data (inner tx)) + alGas false (tx_AccessList (inner tx)) + 25000 * zlen (AuthorizationList (inner tx)))) as E.
    { intros sh. unfold intrinsicGas, TxGas. cbn [andb]. change 21000 with (u64 21000) at 1.
      rewrite calldataGas_sum, accessListGas_sum. unfold PerEmptyAccountCost, baseGas, alGas. u64_ring. }
    by rewrite E.
Qed.

Lemma validateGas_inv p tx :
  ordinary tx = true -> validateGas p tx = PNil ->
  totalIntrinsicGas p tx <= tx_Gas tx /\
  (pool_IsPrague (TxPool.config p) = true ->
   CalldataFloorGas (tx_Data tx) (isNone (tx_To tx)) (pool_IsGlamsterdan (TxPool.config p)) (tx_AccessList tx) <= tx_Gas tx).
Proof.
  intros Ht. unfold validateGas, refuse. destruct (Z.ltb_spec (tx_Gas tx) (totalIntrinsicGas p tx)); [done|]. simpl.
  assert ((txType tx =? AATxType) = false) as -> by (by destruct tx). simpl. intros E. split; [done|]. intros Hp.
  rewrite Hp in E. simpl in E. destruct (Z.ltb_spec (tx_Gas tx)
    (CalldataFloorGas (tx_Data tx) (isNone (tx_To tx)) (pool_IsGlamsterdan (TxPool.config p)) (tx_AccessList tx))); done.
Qed.

(** The pool's floor is at least the processor's. *)
Lemma floor_le tx :
  moderate (inner tx) -> isNone (tx_To (inner tx)) = false ->
  floorGas config header (TransactionToMessage keccak256 tx)
  <= CalldataFloorGas (tx_Data (inner tx)) (isNone (tx_To (inner tx))) glam (tx_AccessList (inner tx)).
Proof.
  intros [H1 H2 _] Hto. unfold floorGas.
  assert (isCreate (TransactionToMessage keccak256 tx) = false) as ->.
  { unfold isCreate. simpl. apply bool_decide_false. by destruct (tx_To (inner tx)). }
  cbn [m_Data m_AccessList TransactionToMessage]. rewrite Hto. destruct glam.
  - rewrite calldataFloorGasGlamst_sum, CalldataFloorGasGlamst_sum. unfold createGas.
    pose proof (zlen_nonneg (tx_Data (inner tx))). set (al := tx_AccessList (inner tx)) in *.
    assert (0 <= sumBy tupleTokens al <= sumBy (fun t => 80 + 128 * alKeys t) al) as Ht.
    { split; [apply sumBy_nonneg|apply sumBy_le]; intros t; apply tupleTokens_bounds. }
    assert (sumBy (fun t => 80 + 128 * alKeys t) al <= 128 * sumBy (fun t => 1 + alKeys t) al) as Hb.
    { rewrite <- sumBy_scale. apply sumBy_le. intros t. pose proof (alKeys_nonneg t). lia. }
    rewrite !u64_small by (unfold is_u64; lia). lia.
  - by rewrite calldataFloorGas_sum, CalldataFloorGas_sum.
Qed.

(** C22. Calls with enough gas for the pool have enough for the block processor:
    when the Prague and Glamsterdam flags of the pool are those of the block, a
    call of moderate size that is not an account abstraction, frame or local
    transaction, and that passes the pool's gas check, passes the intrinsic gas
    check of the processor.  From Glamsterdam on, a call that sends a value to
    an account that does not exist is excepted: the pool does not see the
    surcharge, see [new_account_gas_missing].  For local transactions the
    statement is false, see [local_gas_missing], as it is for creations, see
    [creation_gas_missing]. *)
Theorem pool_gas_suffices p tx st :
  validateGas p (inner tx) = PNil -> ordinary (inner tx) = true -> moderate (inner tx) ->
  isNone (tx_To (inner tx)) = false ->
  pool_IsGlamsterdan (TxPool.config p) = glam -> pool_IsPrague (TxPool.config p) = isPrague config header ->
  (glam = true -> default 0 (tx_Value (inner tx)) <= 0 \/ exists a, tx_To (inner tx) = Some a /\ Exist (p_db st) a = true) ->
  exists igas, checkIntrinsicGas config header (TransactionToMessage keccak256 tx) st = Ok (inr igas) st /\
    igas <= tx_Gas (inner tx).
Proof.
  intros Hg Ho Hm Hto Eg Ep Hv. apply validateGas_inv in Hg as [H1 H2]; [|done].
  rewrite totalIntrinsicGas_sum, Eg in H1 by done. rewrite Eg, Ep in H2.
  pose proof (floor_le tx Hm Hto) as Hf. pose proof (plainGas_bounds glam _ Hm) as Hb. pose proof (md_auth _ Hm) as Ha.
  pose proof (zlen_nonneg (AuthorizationList (inner tx))).
  exists (messageGas config header (TransactionToMessage keccak256 tx) (p_db st)).
  assert (messageGas config header (TransactionToMessage keccak256 tx) (p_db st) <= tx_Gas (inner tx)) as Hle.
  { rewrite (messageGas_call tx (p_db st) Ho Hto Hv). rewrite u64_small in H1 by (unfold is_u64; lia).
    rewrite u64_small by (unfold is_u64; lia). destruct (isPrague config header); simpl; [specialize (H2 eq_refl)|lia].
    destruct (_ >? _); lia. }
  split; [|done]. unfold checkIntrinsicGas, gbind, readP.
  assert (m_GasLimit (TransactionToMessage keccak256 tx) = tx_Gas (inner tx)) as -> by (simpl; by destruct (inner tx)).
  rewrite Z.gtb_ltb. destruct (Z.ltb_spec (tx_Gas (inner tx)) (messageGas config header (TransactionToMessage keccak256 tx) (p_db st))); [lia|].
  done.
Qed.

End Covers.

(** ** Witness and counterexample *)

(** A call with calldata and an access list, its gas at the limit. *)
Definition w_call (to : option Address) (gas : Z) : Transaction :=
  mkTx (DynamicFee (mkDynamicFeeTx (Some 1) 0 (Some 1) (Some 10) gas to (Some 5) [1; 0; 2; 0] [mkTuple 0xC0 [1; 2]]
    (Some 0) (Some 1) (Some 1))) (Some 1) None.

Definition w_prague : TxPool :=
  NewTxPool (mkTxPoolConfig 4096 64 (Some 1) 30000000 None true false true true false) (mkStateReader (fun _ => 0) (fun _ => Some (10 ^ 18))).

Lemma pool_gas_suffices_witness :
  exists igas, checkIntrinsicGas (Some (w_config false)) w_blockHeader (TransactionToMessage fx_keccak (w_call (Some 0xC0) 27240)) w_rich
    = Ok (inr igas) w_rich /\ igas <= tx_Gas (inner (w_call (Some 0xC0) 27240)).
Proof.
  apply (pool_gas_suffices fx_keccak (Some (w_config false)) w_blockHeader w_prague (w_call (Some 0xC0) 27240) w_rich);
    [vm_compute; reflexivity|reflexivity|split; vm_compute; discriminate|reflexivity|vm_compute; reflexivity|vm_compute; reflexivity|].
  vm_compute. discriminate.
Defined.

(** For a creation the pool forgets the price of the init code (EIP-3860): it
    admits what the processor refuses. *)
Lemma creation_gas_missing :
  validateGas w_prague (inner (w_call None 59240)) = PNil /\
  messageGas (Some (w_config false)) w_blockHeader (TransactionToMessage fx_keccak (w_call None 59240)) (p_db w_rich) = 59242.
Proof. split; vm_compute; reflexivity. Qed.

(** From Glamsterdam on the pool does not charge a value sent to an account that
    does not exist with its creation. *)
Definition w_glamsterdam : TxPool :=
  NewTxPool (mkTxPoolConfig 4096 64 (Some 1) 30000000 None true false true true true) (mkStateReader (fun _ => 0) (fun _ => Some (10 ^ 18))).

Lemma new_account_gas_missing :
  validateGas w_glamsterdam (inner (w_call (Some 0xDD) 27240)) = PNil /\ Exist (p_db w_rich) 0xDD = false /\
  messageGas (Some (w_config true)) w_blockHeader (TransactionToMessage fx_keccak (w_call (Some 0xDD) 27240)) (p_db w_rich) = 39228.
Proof. split_and!; vm_compute; reflexivity. Qed.

(** A local transaction has half of its gas limit when it is executed; the pool
    checks the whole. *)
Definition w_local : Transaction :=
  mkTx (Local (mkLocalTx (Some 1) 0 (Some 1) (Some 10) 30000 (Some 0xC0) (Some 5) [] [])) (Some 1) None.

Lemma local_gas_missing :
  validateGas w_prague (inner w_local) = PNil /\
  match checkIntrinsicGas (Some (w_config false)) w_blockHeader (TransactionToMessage fx_keccak w_local) w_rich with
  | Ok (inl _) _ => True
  | _ => False
  end.
Proof. split; vm_compute; [reflexivity|exact I]. Qed.
