(* ===== verification/RawDB.v ===== *)
(** * RawDB: the key-value store and the layout of chain data in it

    The in-memory database, the keys, the accessors of headers, bodies,
    receipts, lookups and head pointers, and the pruning of old bodies
    (core/rawdb/memorydb.go, schema.go, accessors.go, history.go).  A
    [[32]byte] is the number of its big-endian bytes. *)

From Stdlib Require Import String Ascii.
From stdpp Require Import gmap.
From S2P Require Import Prelude Rlp StateDB Transactions TxProofs.
Local Open Scope Z_scope.
Local Open Scope go_scope.

(** ** MemoryDB (memorydb.go) *)

Abbreviation Database := (gmap bytes bytes).

(** [None] is [ErrNotFound]; the other operations do not fail. *)
Definition db_Get (db : Database) (key : bytes) : option bytes := db !! key.
Definition db_Has (db : Database) (key : bytes) : bool := bool_decide (is_Some (db !! key)).
Definition db_Put (key value : bytes) (db : Database) : Database := <[key := value]> db.
Definition db_Delete (key : bytes) (db : Database) : Database := delete key db.

(** A batch is the list of its operations in order. *)
Inductive batchOp := BatchPut (key value : bytes) | BatchDelete (key : bytes).

Definition batch_op_size (op : batchOp) : Z :=
  match op with BatchPut k v => zlen k + zlen v | BatchDelete k => zlen k end.

Definition ValueSize (b : list batchOp) : Z := fold_left (fun z op => z + batch_op_size op) b 0.

Definition batch_Write (b : list batchOp) (db : Database) : Database :=
  fold_left (fun db op => match op with
                          | BatchPut k v => db_Put k v db
                          | BatchDelete k => db_Delete k db
                          end) b db.

(** ** Keys (schema.go) *)

Definition str (s : string) : bytes := map (fun c => Z.of_N (N_of_ascii c)) (list_ascii_of_string s).

Definition headerPrefix : bytes := str "h".
Definition headerNumberPrefix : bytes := str "H".
Definition bodyPrefix : bytes := str "b".
Definition receiptPrefix : bytes := str "r".
Definition txLookupPrefix : bytes := str "l".
Definition canonicalPrefix : bytes := str "c".
Definition headHeaderKey : bytes := str "hh".
Definition headBlockKey : bytes := str "hb".
Definition headFinalizedKey : bytes := str "hf".
Definition headSafeKey : bytes := str "hs".
Definition codePrefix : bytes := str "C".
Definition historyOldestKey : bytes := str "history-oldest".

Definition encodeBlockNumber (number : Z) : bytes := be_bytes 8 number.

Definition headerKey (number : Z) (hash : Hash) : bytes :=
  headerPrefix ++ encodeBlockNumber number ++ be_bytes 32 hash.
Definition headerNumberKey (hash : Hash) : bytes := headerNumberPrefix ++ be_bytes 32 hash.
Definition bodyKey (number : Z) (hash : Hash) : bytes :=
  bodyPrefix ++ encodeBlockNumber number ++ be_bytes 32 hash.
Definition receiptKey (number : Z) (hash : Hash) : bytes :=
  receiptPrefix ++ encodeBlockNumber number ++ be_bytes 32 hash.
Definition txLookupKey (txHash : Hash) : bytes := txLookupPrefix ++ be_bytes 32 txHash.
Definition canonicalKey (number : Z) : bytes := canonicalPrefix ++ encodeBlockNumber number.
Definition codeKey (codeHash : Hash) : bytes := codePrefix ++ be_bytes 32 codeHash.

(** ** Accessors (accessors.go) *)

(** [binary.BigEndian.Uint64] of a stored number, [ErrNotFound] on another length. *)
Definition read_number (data : option bytes) : option Z :=
  data ← data; if negb (zlen data =? 8) then None else Some (u64 (SetBytes data)).

Definition read_hash (data : option bytes) : option Hash :=
  data ← data; if negb (zlen data =? 32) then None else Some (BytesToHash data).

Definition WriteHeader (number : Z) (hash : Hash) (data : bytes) (db : Database) : Database :=
  let db := db_Put (headerKey number hash) data db in
  db_Put (headerNumberKey hash) (encodeBlockNumber number) db.
Definition ReadHeader (db : Database) (number : Z) (hash : Hash) : option bytes := db_Get db (headerKey number hash).
Definition ReadHeaderNumber (db : Database) (hash : Hash) : option Z :=
  read_number (db_Get db (headerNumberKey hash)).
Definition HasHeader (db : Database) (number : Z) (hash : Hash) : bool := db_Has db (headerKey number hash).
Definition DeleteHeader (number : Z) (hash : Hash) (db : Database) : Database :=
  db_Delete (headerNumberKey hash) (db_Delete (headerKey number hash) db).
Definition DeleteHeaderData (number : Z) (hash : Hash) (db : Database) : Database :=
  db_Delete (headerKey number hash) db.

Definition WriteBody (number : Z) (hash : Hash) (data : bytes) (db : Database) : Database :=
  db_Put (bodyKey number hash) data db.
Definition ReadBody (db : Database) (number : Z) (hash : Hash) : option bytes := db_Get db (bodyKey number hash).
Definition HasBody (db : Database) (number : Z) (hash : Hash) : bool := db_Has db (bodyKey number hash).
Definition DeleteBody (number : Z) (hash : Hash) (db : Database) : Database := db_Delete (bodyKey number hash) db.

Definition WriteReceipts (number : Z) (hash : Hash) (data : bytes) (db : Database) : Database :=
  db_Put (receiptKey number hash) data db.
Definition ReadReceipts (db : Database) (number : Z) (hash : Hash) : option bytes :=
  db_Get db (receiptKey number hash).
Definition DeleteReceipts (number : Z) (hash : Hash) (db : Database) : Database :=
  db_Delete (receiptKey number hash) db.

Definition WriteTxLookup (txHash : Hash) (blockNumber : Z) (db : Database) : Database :=
  db_Put (txLookupKey txHash) (encodeBlockNumber blockNumber) db.
Definition ReadTxLookup (db : Database) (txHash : Hash) : option Z := read_number (db_Get db (txLookupKey txHash)).
Definition DeleteTxLookup (txHash : Hash) (db : Database) : Database := db_Delete (txLookupKey txHash) db.

Definition WriteCanonicalHash (number : Z) (hash : Hash) (db : Database) : Database :=
  db_Put (canonicalKey number) (be_bytes 32 hash) db.
Definition ReadCanonicalHash (db : Database) (number : Z) : option Hash :=
  read_hash (db_Get db (canonicalKey number)).
Definition DeleteCanonicalHash (number : Z) (db : Database) : Database := db_Delete (canonicalKey number) db.

Definition WriteHeadHeaderHash (hash : Hash) (db : Database) : Database := db_Put headHeaderKey (be_bytes 32 hash) db.
Definition ReadHeadHeaderHash (db : Database) : option Hash := read_hash (db_Get db headHeaderKey).
Definition WriteHeadBlockHash (hash : Hash) (db : Database) : Database := db_Put headBlockKey (be_bytes 32 hash) db.
Definition ReadHeadBlockHash (db : Database) : option Hash := read_hash (db_Get db headBlockKey).

(** The zero hash when nothing is recorded. *)
Definition WriteFinalizedBlockHash (hash : Hash) (db : Database) : Database :=
  db_Put headFinalizedKey (be_bytes 32 hash) db.
Definition ReadFinalizedBlockHash (db : Database) : Hash := default 0 (read_hash (db_Get db headFinalizedKey)).
Definition WriteSafeBlockHash (hash : Hash) (db : Database) : Database := db_Put headSafeKey (be_bytes 32 hash) db.
Definition ReadSafeBlockHash (db : Database) : Hash := default 0 (read_hash (db_Get db headSafeKey)).

Definition WriteCode (codeHash : Hash) (code : bytes) (db : Database) : Database := db_Put (codeKey codeHash) code db.
Definition ReadCode (db : Database) (codeHash : Hash) : option bytes := db_Get db (codeKey codeHash).
Definition HasCode (db : Database) (codeHash : Hash) : bool := db_Has db (codeKey codeHash).
Definition DeleteCode (codeHash : Hash) (db : Database) : Database := db_Delete (codeKey codeHash) db.

(** ** History expiry (history.go) *)

Definition BALRetentionSlots : Z := 3533 * 32.

Definition IsBALRetained (headBlock blockNum : Z) : bool :=
  if headBlock <? BALRetentionSlots then true else blockNum >=? headBlock -u BALRetentionSlots.

Definition WriteHistoryOldest (blockNum : Z) (db : Database) : Database :=
  db_Put historyOldestKey (encodeBlockNumber blockNum) db.

(** A missing or malformed entry reads as zero. *)
Definition ReadHistoryOldest (db : Database) : Z := default 0 (read_number (db_Get db historyOldestKey)).

Definition HistoryAvailable (db : Database) (blockNum : Z) : bool := blockNum >=? ReadHistoryOldest db.

(** One block of the pruning loop: the database, the batch, the count. *)
Definition pruneBlock (num : Z) (st : Database * list batchOp * Z) : Database * list batchOp * Z :=
  let '(db, batch, pruned) := st in
  match ReadCanonicalHash db num with
  | None => st
  | Some hash =>
      let batch := batch ++ [BatchDelete (bodyKey num hash); BatchDelete (receiptKey num hash)] in
      if ValueSize batch >? 64 * 1024 then (batch_Write batch db, [], pruned +u 1)
      else (db, batch, pruned +u 1)
  end.

Definition prune_loop (from : Z) (count : nat) (st : Database * list batchOp * Z) : Database * list batchOp * Z :=
  fold_left (fun st i => pruneBlock (from + Z.of_nat i) st) (seq 0 count) st.

(** The blocks pruned, the new oldest block, the database. *)
Definition PruneHistory (headBlock retention : Z) (db : Database) : Z * Z * Database :=
  if headBlock <? retention then (0, 0, db)
  else
    let threshold := headBlock -u retention in
    let currentOldest := ReadHistoryOldest db in
    if currentOldest >=? threshold then (0, currentOldest, db)
    else
      let '(db, batch, pruned) := prune_loop currentOldest (Z.to_nat (threshold - currentOldest)) (db, [], 0) in
      let db := if ValueSize batch >? 0 then batch_Write batch db else db in
      (pruned, threshold, WriteHistoryOldest threshold db).
