(* ===== verification/RawDBProofs.v ===== *)
(** * RawDBProofs: the key layout is injective, reads see the last write

    Every accessor of RawDB is a map operation at one logical key, and
    distinct logical keys never share a byte string; pruning removes bodies
    and receipts of canonical blocks and nothing else. *)

From stdpp Require Import gmap.
From S2P Require Import Prelude Rlp StateDB Transactions TxProofs RawDB.
Local Open Scope Z_scope.
Local Open Scope go_scope.

(** ** Logical keys *)

Inductive dbkey :=
  | KHeader (n : Z) (h : Hash)
  | KNumber (h : Hash)
  | KBody (n : Z) (h : Hash)
  | KReceipts (n : Z) (h : Hash)
  | KTxLookup (h : Hash)
  | KCanonical (n : Z)
  | KHeadHeader
  | KHeadBlock
  | KFinalized
  | KSafe
  | KCode (h : Hash)
  | KHistory.

#[export] Instance dbkey_eq_dec : EqDecision dbkey.
Proof. solve_decision. Defined.

Definition key_bytes (k : dbkey) : bytes :=
  match k with
  | KHeader n h => headerKey n h
  | KNumber h => headerNumberKey h
  | KBody n h => bodyKey n h
  | KReceipts n h => receiptKey n h
  | KTxLookup h => txLookupKey h
  | KCanonical n => canonicalKey n
  | KHeadHeader => headHeaderKey
  | KHeadBlock => headBlockKey
  | KFinalized => headFinalizedKey
  | KSafe => headSafeKey
  | KCode h => codeKey h
  | KHistory => historyOldestKey
  end.

Definition key_ok (k : dbkey) : Prop :=
  match k with
  | KHeader n h | KBody n h | KReceipts n h => is_u64 n /\ is_Hash h
  | KNumber h | KTxLookup h | KCode h => is_Hash h
  | KCanonical n => is_u64 n
  | _ => True
  end.

Lemma be_bytes_inj n x y :
  0 <= x < 256 ^ Z.of_nat n -> 0 <= y < 256 ^ Z.of_nat n -> be_bytes n x = be_bytes n y -> x = y.
Proof.
  intros Hx Hy E. rewrite <- (SetBytes_be_bytes_small n x), <- (SetBytes_be_bytes_small n y) by done. by rewrite E.
Qed.

Lemma number_inj x y : is_u64 x -> is_u64 y -> encodeBlockNumber x = encodeBlockNumber y -> x = y.
Proof. apply (be_bytes_inj 8). Qed.

Lemma hash_bytes_inj x y : is_Hash x -> is_Hash y -> be_bytes 32 x = be_bytes 32 y -> x = y.
Proof. apply (be_bytes_inj 32). Qed.

Lemma number_hash_inj n h n' h' :
  is_u64 n -> is_u64 n' -> is_Hash h -> is_Hash h' ->
  encodeBlockNumber n ++ be_bytes 32 h = encodeBlockNumber n' ++ be_bytes 32 h' -> n = n' /\ h = h'.
Proof.
  intros Hn Hn' Hh Hh' E. apply app_inj_1 in E as [E1 E2];
    [|unfold encodeBlockNumber; by rewrite !length_be_bytes].
  by apply number_inj in E1; apply hash_bytes_inj in E2.
Qed.

Lemma length_number n : length (encodeBlockNumber n) = 8%nat.
Proof. apply length_be_bytes. Qed.

#[local] Opaque be_bytes encodeBlockNumber.

(** A key is a constant prefix and a payload. *)
Definition key_prefix (k : dbkey) : bytes :=
  match k with
  | KHeader _ _ => headerPrefix
  | KNumber _ => headerNumberPrefix
  | KBody _ _ => bodyPrefix
  | KReceipts _ _ => receiptPrefix
  | KTxLookup _ => txLookupPrefix
  | KCanonical _ => canonicalPrefix
  | KCode _ => codePrefix
  | k => key_bytes k
  end.

Definition key_payload (k : dbkey) : bytes :=
  match k with
  | KHeader n h | KBody n h | KReceipts n h => encodeBlockNumber n ++ be_bytes 32 h
  | KNumber h | KTxLookup h | KCode h => be_bytes 32 h
  | KCanonical n => encodeBlockNumber n
  | _ => []
  end.

Definition payload_length (k : dbkey) : nat :=
  match k with
  | KHeader _ _ | KBody _ _ | KReceipts _ _ => 40
  | KNumber _ | KTxLookup _ | KCode _ => 32
  | KCanonical _ => 8
  | _ => 0
  end.

Lemma key_bytes_split k : key_bytes k = key_prefix k ++ key_payload k.
Proof. by destruct k. Qed.

Lemma length_payload k : length (key_payload k) = payload_length k.
Proof. destruct k; cbn [key_payload]; rewrite ?length_app, ?length_be_bytes, ?length_number; reflexivity. Qed.

(** The first byte and the length separate the families of keys. *)
Lemma key_family k1 k2 :
  key_bytes k1 = key_bytes k2 -> key_prefix k1 = key_prefix k2 /\ key_payload k1 = key_payload k2.
Proof.
  rewrite !key_bytes_split. intros E. apply app_inj_2; [|done]. rewrite !length_payload.
  pose proof (f_equal length E) as L. rewrite !length_app, !length_payload in L.
  pose proof (f_equal head E) as H. clear E.
  generalize dependent (key_payload k1). generalize dependent (key_payload k2). intros p1 p2 H.
  destruct k1, k2; try done; (discriminate L || discriminate H).
Qed.

(** Distinct logical keys are distinct byte strings. *)
Lemma key_bytes_inj k1 k2 : key_ok k1 -> key_ok k2 -> key_bytes k1 = key_bytes k2 -> k1 = k2.
Proof.
  intros H1 H2 E. destruct (key_family k1 k2 E) as [Ep El]. clear E.
  destruct k1, k2; try discriminate Ep; try reflexivity; cbn [key_ok key_payload] in *;
    first [ apply number_hash_inj in El as [-> ->]; [reflexivity|apply H1|apply H2|apply H1|apply H2]
          | apply hash_bytes_inj in El as ->; [reflexivity|exact H1|exact H2]
          | apply number_inj in El as ->; [reflexivity|exact H1|exact H2] ].
Qed.

Lemma get_put (k k' : dbkey) (v : bytes) (db : Database) :
  key_ok k -> key_ok k' ->
  db_Put (key_bytes k) v db !! key_bytes k' = if decide (k = k') then Some v else db !! key_bytes k'.
Proof.
  intros H1 H2. unfold db_Put. destruct (decide (k = k')) as [->|Hn]; [apply lookup_insert_eq|].
  rewrite lookup_insert_ne; [done|]. intros E. by apply Hn, key_bytes_inj.
Qed.

Lemma get_delete (k k' : dbkey) (db : Database) :
  key_ok k -> key_ok k' ->
  db_Delete (key_bytes k) db !! key_bytes k' = if decide (k = k') then None else db !! key_bytes k'.
Proof.
  intros H1 H2. unfold db_Delete. destruct (decide (k = k')) as [->|Hn]; [apply lookup_delete_eq|].
  rewrite lookup_delete_ne; [done|]. intros E. by apply Hn, key_bytes_inj.
Qed.

Lemma read_number_enc n : is_u64 n -> read_number (Some (encodeBlockNumber n)) = Some n.
Proof.
  intros H. unfold read_number, zlen; cbn [mbind option_bind]. rewrite length_number. simpl.
  f_equal. etransitivity; [apply f_equal, (SetBytes_be_bytes_small 8); exact H|by apply u64_small].
Qed.

Lemma read_number_range d n : read_number d = Some n -> is_u64 n.
Proof.
  unfold read_number. destruct d as [d|]; simpl; [|done]. destruct (negb _); [done|]. intros [= <-]. apply u64_range.
Qed.

Lemma read_hash_enc h : is_Hash h -> read_hash (Some (be_bytes 32 h)) = Some h.
Proof.
  intros H. unfold read_hash, zlen; cbn [mbind option_bind]. rewrite length_be_bytes. cbn -[be_bytes].
  f_equal. unfold BytesToHash. rewrite (SetBytes_be_bytes_small 32) by exact H. by apply Z.mod_small.
Qed.

(** ** Frames

    Which logical keys a piece of code may change. *)

Definition touches (P : dbkey -> Prop) (db db' : Database) : Prop :=
  forall k, key_ok k -> ~ P k -> db' !! key_bytes k = db !! key_bytes k.

Lemma touches_refl P db : touches P db db.
Proof. by intros k _ _. Qed.

Lemma touches_trans P db1 db2 db3 : touches P db1 db2 -> touches P db2 db3 -> touches P db1 db3.
Proof. intros H1 H2 k Hk Hp. by rewrite H2, H1. Qed.

Lemma touches_weaken (P Q : dbkey -> Prop) db db' :
  (forall k, P k -> Q k) -> touches P db db' -> touches Q db db'.
Proof. intros HPQ H k Hk Hq. apply H; [done|]. intros Hp. by apply Hq, HPQ. Qed.

Lemma touches_put (P : dbkey -> Prop) k (v : bytes) db : key_ok k -> P k -> touches P db (db_Put (key_bytes k) v db).
Proof. intros Hk HP k' Hk' Hn. rewrite get_put by done. by destruct (decide (k = k')) as [->|]. Qed.

Lemma touches_delete (P : dbkey -> Prop) k db : key_ok k -> P k -> touches P db (db_Delete (key_bytes k) db).
Proof. intros Hk HP k' Hk' Hn. rewrite get_delete by done. by destruct (decide (k = k')) as [->|]. Qed.

(** The keys that hold a block: number, header, body. *)
Definition block_key (k : dbkey) : Prop :=
  match k with KHeader _ _ | KNumber _ | KBody _ _ => True | _ => False end.

Definition index_key (k : dbkey) : Prop := ~ block_key k.

Lemma touches_canonical n h db : is_u64 n -> touches index_key db (WriteCanonicalHash n h db).
Proof. intros H. by apply (touches_put _ (KCanonical n)); [|intros []]. Qed.

Lemma touches_delete_canonical n db : is_u64 n -> touches index_key db (DeleteCanonicalHash n db).
Proof. intros H. by apply (touches_delete _ (KCanonical n)); [|intros []]. Qed.

Lemma touches_heads h db : touches index_key db (WriteHeadHeaderHash h (WriteHeadBlockHash h db)).
Proof.
  eapply touches_trans; [apply (touches_put _ KHeadBlock)|apply (touches_put _ KHeadHeader)]; try done; by intros [].
Qed.

Lemma touches_finalized h db : touches index_key db (WriteFinalizedBlockHash h db).
Proof. by apply (touches_put _ KFinalized); [|intros []]. Qed.

Lemma touches_receipts n h d db : is_u64 n -> is_Hash h -> touches index_key db (WriteReceipts n h d db).
Proof. intros Hn Hh. by apply (touches_put _ (KReceipts n h)); [|intros []]. Qed.

Lemma touches_txLookup h n db : is_Hash h -> touches index_key db (WriteTxLookup h n db).
Proof. intros H. by apply (touches_put _ (KTxLookup h)); [|intros []]. Qed.

Lemma touches_delete_txLookup h db : is_Hash h -> touches index_key db (DeleteTxLookup h db).
Proof. intros H. by apply (touches_delete _ (KTxLookup h)); [|intros []]. Qed.

(** ** Canonical hashes *)

Lemma ReadCanonicalHash_write n m h db :
  is_u64 n -> is_u64 m -> is_Hash h ->
  ReadCanonicalHash (WriteCanonicalHash n h db) m = if decide (n = m) then Some h else ReadCanonicalHash db m.
Proof.
  intros Hn Hm Hh. unfold ReadCanonicalHash, WriteCanonicalHash, db_Get.
  change (canonicalKey n) with (key_bytes (KCanonical n)). change (canonicalKey m) with (key_bytes (KCanonical m)).
  rewrite get_put by done. destruct (decide (n = m)) as [->|Hne].
  - rewrite decide_True by done. by apply read_hash_enc.
  - rewrite decide_False by congruence. done.
Qed.

Lemma ReadCanonicalHash_delete n m db :
  is_u64 n -> is_u64 m ->
  ReadCanonicalHash (DeleteCanonicalHash n db) m = if decide (n = m) then None else ReadCanonicalHash db m.
Proof.
  intros Hn Hm. unfold ReadCanonicalHash, DeleteCanonicalHash, db_Get.
  change (canonicalKey n) with (key_bytes (KCanonical n)). change (canonicalKey m) with (key_bytes (KCanonical m)).
  rewrite get_delete by done. destruct (decide (n = m)) as [->|Hne].
  - by rewrite decide_True.
  - by rewrite decide_False by congruence.
Qed.

(** ** Pruning *)

(** The database once the batch is written. *)
Definition pending (st : Database * list batchOp * Z) : Database := batch_Write st.1.2 st.1.1.

Lemma batch_Write_app b1 b2 db : batch_Write (b1 ++ b2) db = batch_Write b2 (batch_Write b1 db).
Proof. apply fold_left_app. Qed.

(** The keys of a canonical block that pruning removes. *)
Definition history_key (db : Database) (from to : Z) (k : dbkey) : Prop :=
  exists num h, from <= num < to /\ ReadCanonicalHash db num = Some h /\ (k = KBody num h \/ k = KReceipts num h).

Lemma canonical_range db n h : ReadCanonicalHash db n = Some h -> is_Hash h.
Proof.
  unfold ReadCanonicalHash, read_hash. intros (d & _ & E)%bind_Some. destruct (negb _); [done|]. injection E as <-.
  apply Z.mod_pos_bound. by vm_compute.
Qed.

(** The state of the loop: the keys below [n] are removed or about to be, no
    other key has changed. *)
Record prune_inv (db : Database) (from n : Z) (st : Database * list batchOp * Z) : Prop := {
  pi_gone : forall k, key_ok k -> history_key db from n k -> pending st !! key_bytes k = None;
  pi_kept : forall k, key_ok k -> ~ history_key db from n k -> pending st !! key_bytes k = db !! key_bytes k;
  pi_canon : forall m, is_u64 m -> ReadCanonicalHash st.1.1 m = ReadCanonicalHash db m;
  pi_batch : Forall (fun op => exists m h, is_u64 m /\ is_Hash h /\
     (op = BatchDelete (bodyKey m h) \/ op = BatchDelete (receiptKey m h))) st.1.2;
}.

Lemma batch_canonical b db m :
  Forall (fun op => exists n h, is_u64 n /\ is_Hash h /\
    (op = BatchDelete (bodyKey n h) \/ op = BatchDelete (receiptKey n h))) b ->
  is_u64 m -> ReadCanonicalHash (batch_Write b db) m = ReadCanonicalHash db m.
Proof.
  intros Hb Hm. revert db. induction Hb as [|op b (n & h & Hn & Hh & Ho) _ IH]; intros db; [done|].
  unfold batch_Write. cbn [fold_left]. etransitivity; [apply IH|]. unfold ReadCanonicalHash, db_Get. f_equal.
  change (canonicalKey m) with (key_bytes (KCanonical m)). destruct Ho as [->| ->].
  - rewrite (get_delete (KBody n h) (KCanonical m)) by done. by rewrite decide_False.
  - rewrite (get_delete (KReceipts n h) (KCanonical m)) by done. by rewrite decide_False.
Qed.

Lemma pruneBlock_inv (db : Database) (from n : Z) st :
  is_u64 n -> from <= n -> prune_inv db from n st -> prune_inv db from (n + 1) (pruneBlock n st).
Proof.
  intros Hn Hf [G K Cn B]. destruct st as [[d b] p]. cbn [fst snd] in *. unfold pruneBlock. rewrite Cn by done.
  destruct (ReadCanonicalHash db n) as [h|] eqn:E.
  2:{ assert (forall k, history_key db from (n + 1) k <-> history_key db from n k) as Hk.
      { intros k. split; intros (m & h & Hm & Em & Ek); exists m, h; split_and!; try done; try lia.
        assert (m <> n) by (intros ->; congruence). lia. }
      split; try done; intros k Hok Hh; [apply G|apply K]; try done; [by apply Hk|]. intros Hx. by apply Hh, Hk. }
  pose proof (canonical_range _ _ _ E) as Hh. set (b' := b ++ _).
  assert (Forall (fun op => exists m h, is_u64 m /\ is_Hash h /\
    (op = BatchDelete (bodyKey m h) \/ op = BatchDelete (receiptKey m h))) b') as B'.
  { apply Forall_app. split; [done|]. repeat constructor; exists n, h; split_and!; auto. }
  assert (forall k, key_ok k -> batch_Write b' d !! key_bytes k
    = if decide (k = KBody n h \/ k = KReceipts n h) then None else batch_Write b d !! key_bytes k) as L.
  { intros k Hk. unfold b'. rewrite batch_Write_app. unfold batch_Write at 1. cbn [fold_left].
    change (receiptKey n h) with (key_bytes (KReceipts n h)). change (bodyKey n h) with (key_bytes (KBody n h)).
    rewrite !get_delete by done. destruct (decide (KReceipts n h = k)) as [<-|H1]; [by rewrite decide_True by auto|].
    destruct (decide (KBody n h = k)) as [<-|H2]; [by rewrite decide_True by auto|]. rewrite decide_False; [done|]. intros [|]; congruence. }
  assert (forall p', prune_inv db from (n + 1) (d, b', p')) as Q.
  { intros p'. split; unfold pending; cbn [fst snd]; try done; intros k Hk HH; rewrite L by done.
    - destruct (decide _) as [|Hne]; [done|]. apply (G k Hk). destruct HH as (m & h' & Hm & Em & Ek). exists m, h'.
      split_and!; try done; try lia. assert (m <> n); [|lia]. intros ->. rewrite E in Em. injection Em as <-. by apply Hne.
    - rewrite decide_False; [|intros Hx; apply HH; exists n, h; split_and!; try done; lia].
      apply (K k Hk). intros (m & h' & Hm & Em & Ek). apply HH. exists m, h'. split_and!; try done; lia. }
  destruct (ValueSize b' >? 64 * 1024); [|apply Q]. destruct (Q (p +u 1)) as [G' K' Cn' _].
  split; cbn [fst snd]; try done. intros m Hm. rewrite batch_canonical by done. by apply Cn.
Qed.

Lemma prune_loop_inv (db : Database) (from : Z) (count : nat) :
  0 <= from -> from + Z.of_nat count < 2 ^ 64 ->
  prune_inv db from (from + Z.of_nat count) (prune_loop from count (db, [], 0)).
Proof.
  intros Hf. induction count as [|n IH]; intros Hl; unfold prune_loop in *.
  - cbn. rewrite Z.add_0_r. split; try done. intros k _ (m & h & Hm & _). lia.
  - rewrite seq_S, fold_left_app. cbn [fold_left Nat.add]. replace (from + Z.of_nat (S n)) with (from + Z.of_nat n + 1) by lia.
    apply pruneBlock_inv; [unfold is_u64; lia|lia|]. apply IH. lia.
Qed.

Lemma batch_size_pos b : (exists k b', b = BatchDelete k :: b' /\ k <> []) -> 0 < ValueSize b.
Proof.
  intros (k & b' & -> & Hk). unfold ValueSize. cbn [fold_left batch_op_size].
  assert (forall b z, z <= fold_left (fun n op => n + batch_op_size op) b z) as M.
  { clear. induction b as [|op b IH]; intros z; cbn [fold_left]; [lia|]. specialize (IH (z + batch_op_size op)).
    assert (0 <= batch_op_size op) by (destruct op; unfold batch_op_size, zlen; lia). lia. }
  specialize (M b' (0 + zlen k)). assert (0 < zlen k) by (destruct k; [done|unfold zlen; simpl; lia]). lia.
Qed.

Lemma prune_history_spec (db : Database) (headBlock retention : Z) :
  is_u64 headBlock -> 0 <= retention <= headBlock -> ReadHistoryOldest db < headBlock - retention ->
  let '(_, oldest, db') := PruneHistory headBlock retention db in
  oldest = headBlock - retention /\ ReadHistoryOldest db' = oldest /\
  (forall k, key_ok k -> history_key db (ReadHistoryOldest db) oldest k -> db' !! key_bytes k = None) /\
  (forall k, key_ok k -> k <> KHistory -> ~ history_key db (ReadHistoryOldest db) oldest k ->
     db' !! key_bytes k = db !! key_bytes k).
Proof.
  intros Hh Hr Ho. unfold is_u64 in Hh. unfold PruneHistory. destruct (Z.ltb_spec headBlock retention); [lia|].
  rewrite u64_small by (unfold is_u64; lia). destruct (Z.geb_spec (ReadHistoryOldest db) (headBlock - retention)); [lia|].
  assert (0 <= ReadHistoryOldest db) as Hz0.
  { unfold ReadHistoryOldest. destruct (read_number _) as [n|] eqn:E; simpl; [|lia]. apply read_number_range in E. unfold is_u64 in E. lia. }
  set (from := ReadHistoryOldest db) in *. set (to := headBlock - retention) in *.
  pose proof (prune_loop_inv db from (Z.to_nat (to - from)) Hz0 ltac:(lia)) as I.
  replace (from + Z.of_nat (Z.to_nat (to - from))) with to in I by lia.
  destruct (prune_loop _ _ _) as [[d b] p]. destruct I as [G K _ B]. unfold pending in G, K. cbn [fst snd] in *.
  assert ((if ValueSize b >? 0 then batch_Write b d else d) = batch_Write b d) as ->.
  { destruct (Z.gtb_spec (ValueSize b) 0) as [|Hz]; [done|]. destruct b as [|op b]; [done|]. exfalso.
    inversion B as [|? ? (m & h & _ & _ & Hop)]; subst. enough (0 < ValueSize (op :: b)) by lia. apply batch_size_pos.
    destruct Hop as [->| ->]; eexists _, b; (split; [done|]); by intros [=]. }
  unfold WriteHistoryOldest. change historyOldestKey with (key_bytes KHistory).
  split_and!; [done| |intros k Hk Hg|intros k Hk Hne Hg].
  - unfold ReadHistoryOldest, db_Get. change historyOldestKey with (key_bytes KHistory).
    rewrite get_put, decide_True by done. by rewrite read_number_enc by (unfold is_u64; lia).
  - rewrite get_put by done. destruct (decide (KHistory = k)) as [<-|]; [|by apply G].
    destruct Hg as (m & h & _ & _ & [|]); congruence.
  - rewrite get_put by done. rewrite decide_False by congruence. by apply K.
Qed.

(** C36. Pruning removes the bodies and receipts of the canonical blocks below
    the threshold that have not been pruned before, keeps every other entry of
    the database, and records the threshold as the oldest block.  In particular
    every transaction lookup is kept, those of the pruned blocks too, although
    [PruneHistory] is documented to delete them. *)
Theorem prune_history_exact (db : Database) (headBlock retention : Z) :
  is_u64 headBlock -> 0 <= retention <= headBlock -> ReadHistoryOldest db < headBlock - retention ->
  let '(_, oldest, db') := PruneHistory headBlock retention db in
  oldest = headBlock - retention /\ ReadHistoryOldest db' = oldest /\
  (forall k, key_ok k -> history_key db (ReadHistoryOldest db) oldest k -> db' !! key_bytes k = None) /\
  (forall k, key_ok k -> k <> KHistory -> ~ history_key db (ReadHistoryOldest db) oldest k ->
     db' !! key_bytes k = db !! key_bytes k) /\
  (forall h, is_Hash h -> ReadTxLookup db' h = ReadTxLookup db h).
Proof.
  intros Hh Hr Ho. pose proof (prune_history_spec db headBlock retention Hh Hr Ho) as S.
  destruct (PruneHistory headBlock retention db) as [[n oldest] db']. destruct S as (A & B & C & K).
  split_and!; [exact A|exact B|exact C|exact K|]. intros h Hx. unfold ReadTxLookup, db_Get.
  change (txLookupKey h) with (key_bytes (KTxLookup h)). rewrite K; [done|done|done|].
  intros (m & x & _ & _ & [|]); congruence.
Qed.

(** A database with a canonical block that has a body and a transaction. *)
Definition w_prune_db : Database :=
  WriteTxLookup 9 1 (WriteBody 1 7 [0xc0] (WriteCanonicalHash 1 7 (WriteBody 5 8 [0xc0] ∅))).

Lemma prune_history_exact_witness :
  let '(_, oldest, db') := PruneHistory 5 2 w_prune_db in
  oldest = 5 - 2 /\ ReadHistoryOldest db' = oldest /\
  (forall k, key_ok k -> history_key w_prune_db (ReadHistoryOldest w_prune_db) oldest k -> db' !! key_bytes k = None) /\
  (forall k, key_ok k -> k <> KHistory -> ~ history_key w_prune_db (ReadHistoryOldest w_prune_db) oldest k ->
     db' !! key_bytes k = w_prune_db !! key_bytes k) /\
  (forall h, is_Hash h -> ReadTxLookup db' h = ReadTxLookup w_prune_db h).
Proof.
  apply (prune_history_exact w_prune_db 5 2); [unfold is_u64; lia|lia|by vm_compute].
Defined.

Lemma w_prune_removed :
  let '(pruned, _, db') := PruneHistory 5 2 w_prune_db in
  pruned = 1 /\ ReadBody w_prune_db 1 7 = Some [0xc0] /\ ReadBody db' 1 7 = None /\ ReadBody db' 5 8 = Some [0xc0] /\
  ReadTxLookup db' 9 = Some 1.
Proof. by vm_compute. Qed.
