(* ===== verification/BlockStore.v ===== *)
(** * BlockStore: blocks, receipts and lookups in the database

    The persistence half of core/chain/blockchain.go: the encoding of block
    bodies, [writeBlock] and [readBlock], [writeReceipts] and
    [readReceiptsFromDB], [writeTxLookups]; and the copies of core/types/block.go.
    No ancient store is wired. *)

From stdpp Require Import gmap.
From S2P Require Import Prelude Rlp StateDB Transactions Blocks Receipts RawDB.
Local Open Scope Z_scope.
Local Open Scope go_scope.

(** ** Blocks in memory (core/types/block.go) *)

(** [copyHeader]: [TargetBlobsPerBlock] is not copied. *)
Definition copyHeader (h : Header) : Header :=
  mkHeader (h_ParentHash h) (h_UncleHash h) (h_Coinbase h) (h_Root h) (h_TxHash h) (h_ReceiptHash h)
    (h_Bloom h) (h_Difficulty h) (h_Number h) (h_GasLimit h) (h_GasUsed h) (h_Time h) (h_Extra h)
    (h_MixDigest h) (h_Nonce h) (h_BaseFee h) (h_WithdrawalsHash h) (h_BlobGasUsed h) (h_ExcessBlobGas h)
    (h_ParentBeaconRoot h) (h_RequestsHash h) (h_BlockAccessListHash h) None
    (h_CalldataGasUsed h) (h_CalldataExcessGas h) (h_GasLimitVec h) (h_GasUsedVec h) (h_ExcessGasVec h).

Definition NewBlock (header : Header) (body : option Body) : Block :=
  mkBlock (copyHeader header)
    match body with
    | None => mkBody [] [] None
    | Some b => mkBody (b_Transactions b) (map copyHeader (b_Uncles b)) (b_Withdrawals b)
    end.

(** [b.Header()] *)
Definition block_Header (b : Block) : Header := copyHeader (blk_header b).

Definition block_Number (b : Block) : Z := default 0 (h_Number (blk_header b)).
Definition NumberU64 (b : Block) : Z := Uint64 (block_Number b).
Definition ParentHash (b : Block) : Hash := h_ParentHash (blk_header b).
Definition block_Transactions (b : Block) : list Transaction := b_Transactions (blk_body b).

(** ** Bodies *)

Definition encodeBodyWithdrawal (w : Withdrawal) : eres :=
  EncodeToBytes (GSlice [GUint (w_Index w); GUint (w_ValidatorIndex w);
                         GByteArray (be_bytes 20 (w_Address w)); GUint (w_Amount w)]).

Definition encodeBlockBody (eip7706 : bool) (body : Body) : eres :=
  map_eres WrapList (concat_enc
    ([ map_eres WrapList (concat_enc (map encodeBlockTx (b_Transactions body)));
       map_eres WrapList (concat_enc (map (Header_EncodeRLP eip7706) (b_Uncles body))) ]
     ++ match b_Withdrawals body with
        | None => []
        | Some ws => [ map_eres WrapList (concat_enc (map encodeBodyWithdrawal ws)) ]
        end)).

(** A longer address makes the slice expression of the copy panic. *)
Definition readWithdrawal : D Withdrawal :=
  _ <~ stream_List ;;
  index <~ stream_Uint64 ;;
  validator <~ stream_Uint64 ;;
  address <~ decodeFixed 20 ;;
  amount <~ stream_Uint64 ;;
  _ <~ ListEnd ;;
  dret (mkWithdrawal index validator address amount).

Definition decodeWithdrawal (d : bytes) : tres Withdrawal := tres_of (readWithdrawal (newByteStream d)).

Definition decodeBodyWithdrawal : B Withdrawal :=
  raw <~~ ofD RawItem ;; ofT (decodeWithdrawal raw).

Definition readBlockBody (eip7706 : bool) (fuel : nat) : B Body :=
  _ <~~ ofD stream_List ;;
  txs <~~ list_of fuel (decodeBlockTx fuel) ;;
  uncles <~~ list_of fuel (decodeRawHeader eip7706) ;;
  withdrawals <~~ (fun s => if AtListEnd s then TOk (None, s)
                            else (ws <~~ list_of fuel decodeBodyWithdrawal ;; bret (Some ws)) s) ;;
  _ <~~ ofD ListEnd ;;
  bret (mkBody txs uncles withdrawals).

Definition decodeBlockBody (eip7706 : bool) (fuel : nat) (d : bytes) : tres Body :=
  tbind (readBlockBody eip7706 fuel (newByteStream d)) (fun '(b, _) => TOk b).

(** ** Receipts as they are read back *)

(** A log with the fields that locate it in the chain. *)
Record placedLog := mkPlacedLog {
  pl_log : Log;
  pl_BlockHash : Hash;
  pl_BlockNumber : Z;
  pl_Index : Z;
}.

Record placedReceipt := mkPlacedReceipt {
  pr_receipt : Receipt;
  pr_logs : list placedLog;
  pr_BlockHash : Hash;
  pr_BlockNumber : Z;
  pr_TransactionIndex : Z;
}.

Definition set_inclusion (txHash : Hash) (gasUsed : Z) (r : Receipt) : Receipt :=
  mkReceipt (rc_Type r) (rc_Status r) (rc_CumulativeGasUsed r) (rc_Bloom r) (rc_Logs r) txHash
    (rc_ContractAddress r) gasUsed (rc_EffectiveGasPrice r) (rc_BlobGasUsed r) (rc_BlobGasPrice r)
    (rc_CalldataGasUsed r) (rc_CalldataGasPrice r) (rc_DimStorageGas r) (rc_BlockGasUsed r).

(** The logs of one receipt, numbered from [first]. *)
Definition place_logs (hash : Hash) (num : Z) (txHash : Hash) (txIndex first : Z) (logs : list Log) : list placedLog :=
  imap (fun j l => mkPlacedLog (mkLog (log_Address l) (log_Topics l) (log_Data l) txHash txIndex) hash num
                     (first + Z.of_nat j)) logs.

Section BlockStore.

Context (keccak256 : bytes -> bytes) (eip7706 : bool) (fuel : nat).

Definition Block_Hash (b : Block) : Hash := Header_Hash keccak256 eip7706 (blk_header b).

(** *** Blocks *)

(** [None] is a panic of an encoder; an encoding error ends the write. *)
Definition writeBlock (b : Block) (db : Database) : option Database :=
  let num := NumberU64 b in
  let hash := Block_Hash b in
  match Header_EncodeRLP eip7706 (block_Header b) with
  | EPanic => None
  | EErr _ => Some db
  | EOk headerData =>
      let db := WriteHeader num hash headerData db in
      match encodeBlockBody eip7706 (blk_body b) with
      | EPanic => None
      | EErr _ => Some db
      | EOk bodyData => Some (WriteBody num hash bodyData db)
      end
  end.

(** The stored body; a missing, empty or malformed one gives [nil]. *)
Definition readBody (db : Database) (num : Z) (hash : Hash) : tres (option Body) :=
  match ReadBody db num hash with
  | None | Some [] => TOk None
  | Some bodyData =>
      match decodeBlockBody eip7706 fuel bodyData with
      | TOk body => TOk (Some body)
      | TErr => TOk None
      | TPanic => TPanic
      | TFuel => TFuel
      end
  end.

Definition readBlock (db : Database) (hash : Hash) : tres (option Block) :=
  match ReadHeaderNumber db hash with
  | None => TOk None
  | Some num =>
      match default [] (ReadHeader db num hash) with
      | [] => TOk None
      | headerData =>
          match DecodeHeaderRLP eip7706 headerData with
          | TErr => TOk None
          | TPanic => TPanic
          | TFuel => TFuel
          | TOk header => tbind (readBody db num hash) (fun body => TOk (Some (NewBlock header body)))
          end
      end
  end.

(** *** Receipts *)

(** A receipt that does not encode is left out. *)
Fixpoint encodeReceipts (receipts : list Receipt) : option bytes :=
  match receipts with
  | [] => Some []
  | r :: rest =>
      match Receipt_EncodeRLP r with
      | EPanic => None
      | EErr _ => encodeReceipts rest
      | EOk d => app d <$> encodeReceipts rest
      end
  end.

Definition writeReceipts (number : Z) (hash : Hash) (receipts : list Receipt) (db : Database) : option Database :=
  match receipts with
  | [] => Some db
  | _ => (fun encoded => WriteReceipts number hash encoded db) <$> encodeReceipts receipts
  end.

(** The big-endian length of [rlpItemSize], an [int]. *)
Definition item_length (d : bytes) : Z :=
  fold_left (fun l b => i64 (Z.lor (i64 (Z.shiftl l 8)) b)) d 0.

Definition rlpItemSize (data : bytes) : Z :=
  match data with
  | [] => 0
  | b :: rest =>
      let long lenOfLen :=
        if zlen data <? 1 + lenOfLen then 0
        else i64 (1 + lenOfLen + item_length (take (Z.to_nat lenOfLen) rest)) in
      if b <? 0x80 then 1
      else if b <=? 0xB7 then 1 + (b - 0x80)
      else if b <=? 0xBF then long (b - 0xB7)
      else if b <=? 0xF7 then 1 + (b - 0xC0)
      else long (b - 0xF7)
  end.

(** The size of the next receipt; [None] ends the loop. *)
Definition nextReceiptSize (data : bytes) : option Z :=
  match data with
  | [] => None
  | b :: rest =>
      if b <? 0x80 then
        if zlen data <? 2 then None
        else
          let listSize := rlpItemSize rest in
          if (listSize <=? 0) || (i64 (1 + listSize) >? zlen data) then None else Some (i64 (1 + listSize))
      else
        let itemSize := rlpItemSize data in
        if (itemSize <=? 0) || (itemSize >? zlen data) then None else Some itemSize
  end.

(** Each round removes at least one byte, so [length data] rounds are enough. *)
Fixpoint decodeReceipts (rounds : nat) (data : bytes) : tres (list Receipt) :=
  match rounds with
  | O => TOk []
  | S n =>
      match nextReceiptSize data with
      | None => TOk []
      | Some itemSize =>
          match go_slice data 0 itemSize with
          | None => TPanic
          | Some item =>
              match DecodeReceiptRLP fuel item with
              | TErr => TOk []
              | TPanic => TPanic
              | TFuel => TFuel
              | TOk r => tbind (decodeReceipts n (drop (Z.to_nat itemSize) data)) (fun rs => TOk (r :: rs))
              end
          end
      end
  end.

(** Restore the derived fields of the receipt [i]; the logs are numbered
    from zero in every receipt. *)
Fixpoint placeReceipts (num : Z) (hash : Hash) (txs : list Transaction) (i : nat) (previous : Z)
    (receipts : list Receipt) : list placedReceipt :=
  match receipts with
  | [] => []
  | r :: rest =>
      let txHash := match txs !! i with
                    | Some tx => tx_Hash keccak256 (inner tx)
                    | None => rc_TxHash r
                    end in
      let gasUsed := if (i =? 0)%nat then rc_CumulativeGasUsed r else rc_CumulativeGasUsed r -u previous in
      mkPlacedReceipt (set_inclusion txHash gasUsed r)
        (place_logs hash num txHash (Z.of_nat i) 0 (rc_Logs r)) hash num (Z.of_nat i)
      :: placeReceipts num hash txs (S i) (rc_CumulativeGasUsed r) rest
  end.

Definition readReceiptsFromDB (db : Database) (num : Z) (hash : Hash) (txs : list Transaction)
  : tres (list placedReceipt) :=
  match ReadReceipts db num hash with
  | None => TOk []
  | Some data => tbind (decodeReceipts (length data) data)
                   (fun receipts => TOk (placeReceipts num hash txs 0 0 receipts))
  end.

(** The derived fields as [insertBlock] sets them: the log index runs through
    the whole block. *)
Fixpoint deriveReceipts (num : Z) (hash : Hash) (txs : list Transaction) (i : nat) (logIndex : Z)
    (receipts : list Receipt) : list placedReceipt :=
  match receipts with
  | [] => []
  | r :: rest =>
      let txHash := match txs !! i with
                    | Some tx => tx_Hash keccak256 (inner tx)
                    | None => rc_TxHash r
                    end in
      mkPlacedReceipt (set_inclusion txHash (rc_GasUsed r) r)
        (place_logs hash num txHash (Z.of_nat i) logIndex (rc_Logs r)) hash num (Z.of_nat i)
      :: deriveReceipts num hash txs (S i) (logIndex + zlen (rc_Logs r)) rest
  end.

(** *** Lookups *)

Definition writeTxLookups (txs : list Transaction) (blockNumber : Z) (db : Database) : Database :=
  fold_left (fun db tx => WriteTxLookup (tx_Hash keccak256 (inner tx)) blockNumber db) txs db.

End BlockStore.
