(* ===== verification/BlockStoreProofs.v ===== *)
(** * BlockStoreProofs: what is written to the database is read back

    The body codec and [writeBlock]/[readBlock] round trips, the invariant
    that a block is stored under its hash, and the receipts round trip. *)

From stdpp Require Import gmap.
From S2P Require Import Prelude Rlp RlpProofs StateDB Transactions TxProofs Blocks BlockProofs Receipts.
From S2P Require Import RawDB RawDBProofs BlockStore.
Local Open Scope Z_scope.
Local Open Scope go_scope.

(** ** The hash of a header ignores what its encoding leaves out *)

Lemma payload_copyHeader eip7706 h : header_payload eip7706 (copyHeader h) = header_payload eip7706 h.
Proof. done. Qed.

(** One more optional field: the decoded field has the encoding of the field
    or of its placeholder. *)
Lemma append_opt_same o o' l l' :
  (anySome (o :: l) = true -> default emptyRLP o' = default emptyRLP o) ->
  anySome (o' :: l') = anySome (o :: l) -> append_opt l' = append_opt l ->
  append_opt (o' :: l') = append_opt (o :: l).
Proof.
  intros H1 H2 H3. cbn [append_opt]. rewrite H2. destruct (anySome (o :: l)); [|done]. by rewrite H1, H3.
Qed.

Lemma anySome_cons {A} (o : option A) l : anySome (o :: l) = bool_decide (is_Some o) || anySome l.
Proof. done. Qed.

Lemma append_opt_num (enc : Z -> bytes) o l l' :
  enc 0 = emptyRLP -> anySome l' = anySome l -> append_opt l' = append_opt l ->
  let o' := enc <$> (if anySome ((enc <$> o) :: l) then Some (default 0 o) else None) in
  anySome (o' :: l') = anySome ((enc <$> o) :: l) /\ append_opt (o' :: l') = append_opt ((enc <$> o) :: l).
Proof.
  intros H0 H2 H3 o'.
  assert (anySome (o' :: l') = anySome ((enc <$> o) :: l)) as Ha.
  { unfold o'. rewrite anySome_cons, H2. destruct (anySome ((enc <$> o) :: l)) eqn:E; [done|].
    simpl. rewrite anySome_cons in E. by apply orb_false_iff in E as [_ ->]. }
  split; [done|]. apply append_opt_same; [|done|done]. unfold o'. intros ->. by destruct o.
Qed.

Lemma append_opt_keep o l l' :
  anySome l' = anySome l -> append_opt l' = append_opt l ->
  anySome (o :: l') = anySome (o :: l) /\ append_opt (o :: l') = append_opt (o :: l).
Proof.
  intros H2 H3. assert (anySome (o :: l') = anySome (o :: l)) as Ha by (by rewrite !anySome_cons, H2).
  split; [done|]. by apply append_opt_same.
Qed.

Lemma payload_norm_header eip7706 h : header_payload eip7706 (norm_header eip7706 h) = header_payload eip7706 h.
Proof.
  unfold header_payload. f_equal. unfold norm_header. rewrite !anyFrom_optional. unfold optional_bytes.
  destruct h as [p u c r t rc bl d n gl gu ti ex mx no bf wh bg eb pb rq ba tb cu ce v1 v2 v3].
  cbn [h_BaseFee h_WithdrawalsHash h_BlobGasUsed h_ExcessBlobGas h_ParentBeaconRoot h_RequestsHash
   h_CalldataGasUsed h_CalldataExcessGas drop].
  assert (encodeBigInt 0 = emptyRLP) as Hb by done. assert (encodeUint 0 = emptyRLP) as Hu by done.
  apply append_opt_num; [done| |]; apply append_opt_keep; apply append_opt_num; try done; apply append_opt_num;
    try done; apply append_opt_keep; apply append_opt_keep; destruct eip7706; try done;
    apply append_opt_num; try done; apply append_opt_num; done.
Qed.

Section Hashes.

Context (keccak256 : bytes -> bytes) (eip7706 : bool).

Lemma Header_Hash_payload h h' :
  header_payload eip7706 h = header_payload eip7706 h' ->
  Header_Hash keccak256 eip7706 h = Header_Hash keccak256 eip7706 h'.
Proof. intros E. unfold Header_Hash. by rewrite !Header_EncodeRLP_eq, E. Qed.

Lemma Header_Hash_range h : is_Hash (Header_Hash keccak256 eip7706 h).
Proof.
  unfold Header_Hash, is_Hash, BytesToHash. rewrite Header_EncodeRLP_eq. apply Z.mod_pos_bound. by vm_compute.
Qed.

Lemma Block_Hash_range b : is_Hash (Block_Hash keccak256 eip7706 b).
Proof. apply Header_Hash_range. Qed.

Lemma Block_Hash_NewBlock h body :
  Block_Hash keccak256 eip7706 (NewBlock h body) = Header_Hash keccak256 eip7706 h.
Proof. by apply Header_Hash_payload. Qed.

Lemma Header_Hash_norm h :
  Header_Hash keccak256 eip7706 (norm_header eip7706 h) = Header_Hash keccak256 eip7706 h.
Proof. apply Header_Hash_payload, payload_norm_header. Qed.

End Hashes.

(** ** Bodies *)

Lemma encodeBodyWithdrawal_eq w : encodeBodyWithdrawal w = EOk (EncodeWithdrawal w).
Proof. reflexivity. Qed.

Lemma bodyWithdrawal_ok w :
  withdrawal_wf w -> item_ok (fun w => EOk (EncodeWithdrawal w)) (fun _ => decodeBodyWithdrawal) id w.
Proof.
  intros (Hi & Hv & Ha & Hm).
  set (p := encodeUint (w_Index w) ++ encodeUint (w_ValidatorIndex w) ++
            encodeString (be_bytes 20 (w_Address w)) ++ encodeUint (w_Amount w) ++ []).
  assert (EncodeWithdrawal w = wrapList p) as E by reflexivity.
  exists (wrapList p). rewrite E. split; [done|]. intros Hl. exists 0%nat. intros _ _.
  split; [apply wrapList_pos|]. intros s Hat. unfold decodeBodyWithdrawal, bbind, ofD, ofT, decodeWithdrawal.
  rewrite (RawItem_wrap _ _ Hat). cbn [tbind]. pose proof (at_item_whole _ Hl) as Hw.
  unfold readWithdrawal, dbind at 1. rewrite (stream_List_wrap _ _ Hw).
  match goal with |- context [tres_of (?m ?st)] =>
    assert (closes m p w) as HC;
    [|rewrite (HC st (pos (newByteStream (wrapList p)) + zlen (wrapList p)) []);
      [reflexivity|reflexivity|simpl pos; lia|by apply at_item_payload]] end.
  unfold p. eapply closes_bind; [by apply reads_uint|]. eapply closes_bind; [by apply reads_uint|].
  eapply closes_bind; [by apply reads_address|]. eapply closes_bind; [by apply reads_uint|].
  intros s' e st Hs He _. unfold dbind, ListEnd. rewrite Hs. rewrite (@zlen_nil Z), Z.add_0_r in He. subst e.
  rewrite Z.eqb_refl. by destruct w.
Qed.

Definition body_ok (b : Body) : Prop :=
  Forall block_tx_wf (b_Transactions b) /\ Forall header_ok (b_Uncles b) /\
  Forall withdrawal_wf (default [] (b_Withdrawals b)).

Definition norm_body (eip7706 : bool) (b : Body) : Body :=
  mkBody (map (fun tx => NewTransaction (norm (inner tx))) (b_Transactions b))
    (map (norm_header eip7706) (b_Uncles b)) (b_Withdrawals b).

Lemma body_encoding eip7706 b pt pu :
  concat_enc (map encodeBlockTx (b_Transactions b)) = EOk pt ->
  concat_enc (map (Header_EncodeRLP eip7706) (b_Uncles b)) = EOk pu ->
  encodeBlockBody eip7706 b = EOk (wrapList (wrapList pt ++ wrapList pu ++ block_tail (b_Withdrawals b))).
Proof.
  intros E1 E2. unfold encodeBlockBody. rewrite E1, E2. unfold map_eres at 2 3, WrapList, block_tail.
  destruct (b_Withdrawals b) as [ws|]; cbn [app opt_tail].
  - rewrite (map_ext _ _ encodeBodyWithdrawal_eq), concat_enc_EOk. cbn [map_eres concat_enc]. by rewrite !app_nil_r.
  - cbn [map_eres concat_enc]. by rewrite !app_nil_r.
Qed.

Lemma body_roundtrip eip7706 b :
  body_ok b ->
  exists enc, encodeBlockBody eip7706 b = EOk enc /\ enc <> [] /\
    (zlen enc < 2 ^ 63 ->
     exists n, forall fuel, (n <= fuel)%nat -> decodeBlockBody eip7706 fuel enc = TOk (norm_body eip7706 b)).
Proof.
  intros (Ht & Hu & Hw).
  destruct (list_ok _ _ _ _ (txs_item_ok _ Ht)) as (pt & Et & Dt).
  destruct (list_ok _ _ _ _ (headers_item_ok eip7706 _ Hu)) as (pu & Eu & Du).
  rewrite (body_encoding eip7706 b pt pu Et Eu). eexists. split; [done|].
  set (payload := wrapList pt ++ _) in *.
  split; [intros E; pose proof (wrapList_pos payload) as P; by rewrite E in P|]. intros Hl.
  pose proof (zlen_le_wrapList payload) as Hp.
  assert (HL : zlen payload = zlen (wrapList pt) + (zlen (wrapList pu) + zlen (block_tail (b_Withdrawals b))))
    by (unfold payload; by rewrite !(@zlen_app Z)).
  pose proof (zlen_nonneg (wrapList pt)). pose proof (zlen_nonneg (wrapList pu)).
  pose proof (zlen_nonneg (block_tail (b_Withdrawals b))).
  destruct (Dt ltac:(lia)) as [n1 D1], (Du ltac:(lia)) as [n2 D2].
  destruct (opt_tail_close EncodeWithdrawal (fun _ => decodeBodyWithdrawal) (b_Withdrawals b)
    (fun ws => mkBody (map (fun tx => NewTransaction (norm (inner tx))) (b_Transactions b))
          (map (norm_header eip7706) (b_Uncles b)) ws)) as [n3 D3].
  { eapply Forall_impl; [exact Hw|]. apply bodyWithdrawal_ok. }
  { unfold block_tail in *. lia. }
  exists (Nat.max n1 (Nat.max n2 n3)). intros fuel Hf.
  assert (breads (readBlockBody eip7706 fuel) (wrapList payload) (norm_body eip7706 b)) as [_ HR].
  { apply breads_list. eapply bcloses_bind; [apply D1; lia|]. eapply bcloses_bind; [apply D2; lia|]. apply D3; lia. }
  unfold decodeBlockBody. by rewrite HR by (by apply at_item_whole).
Qed.

(** *** Bodies with a local transaction, which the decoder does not know *)

Definition is_local (tx : Transaction) : bool := match inner tx with Local _ => true | _ => false end.

Definition has_local (b : Body) : bool := existsb is_local (b_Transactions b).

(** [m] refuses the item [e]. *)
Definition brefuses {A} (m : B A) (e : bytes) : Prop := 0 < zlen e /\ forall s, at_item s e -> m s = TErr.

(** Of the items some are read, then one is refused. *)
Inductive brefused {A} (m : B A) : list bytes -> Prop :=
  | brefused_here e encs : brefuses m e -> brefused m (e :: encs)
  | brefused_later e a encs : breads m e a -> brefused m encs -> brefused m (e :: encs).

Lemma items_loop_refused {A} (item : B A) encs : brefused item encs -> forall lf acc s e st,
  (length encs <= lf)%nat -> stack s = e :: st -> e = pos s + zlen (concat encs) -> at_item s (concat encs) ->
  items_loop lf item acc s = TErr.
Proof.
  induction 1 as [enc encs [H0 Hx]|enc a encs [H0 Hx] _ IH]; intros lf acc s e st Hl Hs He Hat;
    (destruct lf as [|lf]; [simpl in Hl; lia|]); cbn [concat items_loop] in *; rewrite (@zlen_app Z) in He;
    pose proof (zlen_nonneg (concat encs));
    (assert (AtListEnd s = false) as -> by (unfold AtListEnd; rewrite Hs; destruct (Z.geb_spec (pos s) e); [lia|done]));
    rewrite Hx by (by eapply at_item_prefix); cbn [tbind]; [done|].
  eapply (IH _ _ _ e st); [simpl in Hl; lia|done|rewrite pos_set_pos; lia|by apply at_item_next].
Qed.

Lemma list_of_refused {A} (item : B A) encs fuel :
  brefused item encs -> (length encs <= fuel)%nat -> brefuses (list_of fuel item) (wrapList (concat encs)).
Proof.
  intros HR Hl. split; [apply wrapList_pos|]. intros s Hat.
  unfold list_of, bbind at 1, ofD at 1. rewrite (stream_List_wrap _ _ Hat). cbn [tbind]. unfold bbind at 1.
  by rewrite (items_loop_refused item encs HR fuel [] _ (pos s + zlen (wrapList (concat encs))) (stack s));
    [|done|done|simpl; lia|apply at_item_payload].
Qed.

Lemma local_tx_refused tx t :
  tx_ok (inner tx) -> inner tx = Local t ->
  exists enc, encodeBlockTx tx = EOk enc /\ forall fuel, brefuses (decodeBlockTx fuel) enc.
Proof.
  intros Hok E. rewrite E in Hok. destruct (local_undecodable t Hok) as (enc & Ee & D).
  unfold encodeBlockTx. rewrite E. change (EncodeRLP (Local t)) with (encodeLocalTx t). rewrite Ee.
  exists (encodeString enc). split; [done|]. intros fuel. split; [apply encodeString_pos|]. intros s Hat.
  destruct (stream_Kind_string s enc Hat) as (k & m & Hk & Hnk). unfold decodeBlockTx, bbind, ofD, ofT.
  rewrite Hk. cbn [tbind fst]. destruct k; try done; rewrite (stream_Bytes_string _ _ Hat); cbn [tbind]; by rewrite D.
Qed.

Lemma local_txs_refused txs :
  Forall (fun tx => tx_ok (inner tx)) txs -> existsb is_local txs = true ->
  exists encs, map encodeBlockTx txs = map EOk encs /\
    (zlen (concat encs) < 2 ^ 63 ->
     exists n, forall fuel, (n <= fuel)%nat -> brefused (decodeBlockTx fuel) encs).
Proof.
  intros Hok. induction Hok as [|tx txs Htx Hok IH]; [done|]. cbn [existsb]. intros Hex.
  destruct (is_local tx) eqn:El.
  - unfold is_local in El. destruct (inner tx) eqn:Ei; try discriminate El. rewrite <- Ei in Htx.
    destruct (local_tx_refused tx t Htx Ei) as (enc & E & D).
    assert (exists encs, map encodeBlockTx txs = map EOk encs) as [encs Es].
    { clear -Hok. induction Hok as [|x l Hx _ [encs Es]]; [by exists []|].
      destruct (tx_roundtrip (inner x) Hx) as (e & Ee & _). cbn [map]. rewrite Es. unfold encodeBlockTx at 1. rewrite Ee.
      destruct (_ =? _); [by exists (e :: encs)|by exists (encodeString e :: encs)]. }
    exists (enc :: encs). split; [cbn [map]; by rewrite E, Es|]. intros _. exists 0%nat. intros fuel _.
    apply brefused_here, D.
  - destruct (IH Hex) as (encs & Es & Ds).
    destruct (block_tx_ok tx Htx) as (enc & E & D); [by intros t Et; unfold is_local in El; rewrite Et in El|].
    exists (enc :: encs). split; [cbn [map]; by rewrite E, Es|]. cbn [concat]. rewrite (@zlen_app Z). intros Hl.
    pose proof (zlen_nonneg enc). pose proof (zlen_nonneg (concat encs)).
    destruct (D ltac:(lia)) as [n1 D1], (Ds ltac:(lia)) as [n2 D2]. exists (Nat.max n1 n2). intros fuel Hf.
    eapply brefused_later; [apply D1; lia|apply D2; lia].
Qed.

Lemma body_refused eip7706 b :
  Forall (fun tx => tx_ok (inner tx)) (b_Transactions b) -> Forall header_ok (b_Uncles b) -> has_local b = true ->
  exists enc, encodeBlockBody eip7706 b = EOk enc /\ enc <> [] /\
    (zlen enc < 2 ^ 63 -> exists n, forall fuel, (n <= fuel)%nat -> decodeBlockBody eip7706 fuel enc = TErr).
Proof.
  intros Ht Hu Hloc. destruct (local_txs_refused _ Ht Hloc) as (encs & Et & Dt).
  destruct (list_ok _ _ _ _ (headers_item_ok eip7706 _ Hu)) as (pu & Eu & _).
  rewrite (body_encoding eip7706 b (concat encs) pu (concat_enc_ok _ _ Et) Eu). eexists. split; [done|].
  set (payload := wrapList (concat encs) ++ _) in *.
  split; [intros E; pose proof (wrapList_pos payload) as P; by rewrite E in P|]. intros Hl.
  pose proof (zlen_le_wrapList payload). pose proof (zlen_le_wrapList (concat encs)).
  assert (zlen (wrapList (concat encs)) <= zlen payload).
  { unfold payload. rewrite (@zlen_app Z). match goal with |- _ <= _ + zlen ?x => pose proof (zlen_nonneg x) end. lia. }
  destruct (Dt ltac:(lia)) as [n Dn]. exists (Nat.max n (length encs)). intros fuel Hf.
  destruct (list_of_refused (decodeBlockTx fuel) encs fuel (Dn fuel ltac:(lia)) ltac:(lia)) as [_ HR].
  pose proof (at_item_whole _ Hl) as Hat.
  unfold decodeBlockBody, readBlockBody, bbind at 1, ofD at 1. rewrite (stream_List_wrap _ _ Hat). cbn [tbind].
  unfold bbind at 1. rewrite HR; [done|]. eapply at_item_prefix. apply at_item_payload, Hat.
Qed.

(** ** Blocks *)

Section Store.

Context (keccak256 : bytes -> bytes) (eip7706 : bool) (fuel : nat).

Abbreviation Block_Hash := (Block_Hash keccak256 eip7706).
Abbreviation writeBlock := (writeBlock keccak256 eip7706).
Abbreviation readBlock := (readBlock eip7706 fuel).

(** What [readBlock] depends on. *)
Lemma readBlock_ext db db' h :
  (forall k, key_ok k -> (k = KNumber h \/ exists num, k = KHeader num h \/ k = KBody num h) ->
     db' !! key_bytes k = db !! key_bytes k) ->
  is_Hash h -> readBlock db' h = readBlock db h.
Proof.
  intros F Hh. unfold BlockStore.readBlock, ReadHeaderNumber, db_Get.
  rewrite (F (KNumber h) Hh (or_introl eq_refl) : db' !! headerNumberKey h = _).
  destruct (read_number _) as [num|] eqn:En; [|done]. apply read_number_range in En.
  unfold ReadHeader, db_Get.
  rewrite (F (KHeader num h) (conj En Hh) ltac:(eauto) : db' !! headerKey num h = _).
  destruct (default [] _); [done|]. destruct (DecodeHeaderRLP _ _); try done.
  unfold readBody, ReadBody, db_Get.
  by rewrite (F (KBody num h) (conj En Hh) ltac:(eauto) : db' !! bodyKey num h = _).
Qed.

Lemma readBlock_touches db db' h :
  touches index_key db db' -> is_Hash h -> readBlock db' h = readBlock db h.
Proof.
  intros HT Hh. apply readBlock_ext; [|done]. intros k Hk [->|(num & [->| ->])]; apply HT; try done; intros Hi; by apply Hi.
Qed.

(** Only the keys of the block change. *)
Definition own_key (num : Z) (hash : Hash) (k : dbkey) : Prop :=
  k = KHeader num hash \/ k = KNumber hash \/ k = KBody num hash.

Lemma NumberU64_range b : is_u64 (NumberU64 b).
Proof. apply u64_range. Qed.

Lemma writeBlock_touches b db db' :
  writeBlock b db = Some db' -> touches (own_key (NumberU64 b) (Block_Hash b)) db db'.
Proof.
  unfold BlockStore.writeBlock. rewrite Header_EncodeRLP_eq. unfold WriteHeader, WriteBody.
  pose proof (NumberU64_range b). pose proof (Block_Hash_range keccak256 eip7706 b).
  set (num := NumberU64 b) in *. set (hash := Block_Hash b) in *.
  assert (forall x y, touches (own_key num hash) db (db_Put (headerNumberKey hash) x (db_Put (headerKey num hash) y db))) as T.
  { intros x y. eapply touches_trans; [apply (touches_put _ (KHeader num hash))|apply (touches_put _ (KNumber hash))];
      unfold own_key; auto. done. }
  destruct (encodeBlockBody eip7706 (blk_body b)); intros [= <-]; [|apply T].
  eapply touches_trans; [apply T|]. apply (touches_put _ (KBody num hash)); unfold own_key; auto. done.
Qed.

(** The header of a stored block. *)
Lemma writeBlock_header b db db' :
  writeBlock b db = Some db' ->
  ReadHeaderNumber db' (Block_Hash b) = Some (NumberU64 b) /\
  ReadHeader db' (NumberU64 b) (Block_Hash b) = Some (wrapList (header_payload eip7706 (blk_header b))).
Proof.
  unfold BlockStore.writeBlock. rewrite Header_EncodeRLP_eq. unfold WriteHeader, WriteBody.
  pose proof (NumberU64_range b) as Hn. pose proof (Block_Hash_range keccak256 eip7706 b) as Hh.
  set (num := NumberU64 b) in *. set (hash := Block_Hash b) in *.
  unfold ReadHeaderNumber, ReadHeader, db_Get.
  change (headerNumberKey hash) with (key_bytes (KNumber hash)). change (headerKey num hash) with (key_bytes (KHeader num hash)).
  change (bodyKey num hash) with (key_bytes (KBody num hash)).
  assert (forall db0 x y, read_number (db_Put (key_bytes (KNumber hash)) (encodeBlockNumber num)
              (db_Put (key_bytes (KHeader num hash)) x db0) !! key_bytes (KNumber hash)) = Some num /\
            db_Put (key_bytes (KNumber hash)) y (db_Put (key_bytes (KHeader num hash)) x db0)
              !! key_bytes (KHeader num hash) = Some x) as F.
  { intros db0 x y. rewrite !get_put by done. split; [rewrite decide_True by done; by apply read_number_enc|].
    rewrite decide_False, decide_True by done. done. }
  destruct (encodeBlockBody eip7706 (blk_body b)) as [bd|e|]; intros E; [| |done]; apply (inj Some) in E; subst db'.
  - rewrite !(get_put (KBody num hash)), !decide_False by done. apply F.
  - apply F.
Qed.

Definition storable (b : Block) : Prop :=
  header_ok (blk_header b) /\ zlen (wrapList (header_payload eip7706 (blk_header b))) < 2 ^ 63.

Lemma readBlock_found db h num hd :
  header_ok hd -> zlen (wrapList (header_payload eip7706 hd)) < 2 ^ 63 ->
  ReadHeaderNumber db h = Some num -> ReadHeader db num h = Some (wrapList (header_payload eip7706 hd)) ->
  readBlock db h = tbind (readBody eip7706 fuel db num h)
                     (fun body => TOk (Some (NewBlock (norm_header eip7706 hd) body))).
Proof.
  intros Hok Hl E1 E2. unfold BlockStore.readBlock. rewrite E1, E2. cbn [default from_option id].
  pose proof (DecodeHeaderRLP_ok eip7706 hd Hok Hl) as D. pose proof (wrapList_pos (header_payload eip7706 hd)) as P.
  destruct (wrapList (header_payload eip7706 hd)) as [|z l]; [done|]. by rewrite D.
Qed.

(** A stored block is found under its hash, with its header. *)
Lemma readBlock_stored b db db' r :
  storable b -> writeBlock b db = Some db' -> readBlock db' (Block_Hash b) = TOk r ->
  exists body, r = Some (NewBlock (norm_header eip7706 (blk_header b)) body).
Proof.
  intros [Hok Hl] Hw. destruct (writeBlock_header _ _ _ Hw) as [E1 E2].
  rewrite (readBlock_found _ _ _ _ Hok Hl E1 E2).
  destruct (readBody eip7706 fuel db' (NumberU64 b) (Block_Hash b)) as [body| | |]; cbn [tbind]; intros E;
    [|discriminate E..]. injection E as <-. by exists body.
Qed.

(** Every block is stored under its hash. *)
Definition store_ok (db : Database) : Prop :=
  forall h b, is_Hash h -> readBlock db h = TOk (Some b) -> Block_Hash b = h.

Lemma store_ok_touches db db' : touches index_key db db' -> store_ok db -> store_ok db'.
Proof. intros HT Hs h b Hh. rewrite (readBlock_touches db db') by done. by apply Hs. Qed.

(** Another block is read as before. *)
Lemma readBlock_write_other b db db' h :
  is_Hash h -> h <> Block_Hash b -> writeBlock b db = Some db' -> readBlock db' h = readBlock db h.
Proof.
  intros Hh Hne Hw. pose proof (writeBlock_touches _ _ _ Hw) as HT. apply readBlock_ext; [|done].
  intros k Hk Ho. apply HT; [done|]. unfold own_key. intros [->|[->| ->]]; destruct Ho as [|(num & [|])]; simplify_eq.
Qed.

Lemma store_ok_write b db db' : storable b -> writeBlock b db = Some db' -> store_ok db -> store_ok db'.
Proof.
  intros Hb Hw Hs h c Hh E. destruct (decide (h = Block_Hash b)) as [->|Hne].
  - destruct (readBlock_stored b db db' _ Hb Hw E) as [body [= ->]].
    rewrite Block_Hash_NewBlock. apply Header_Hash_norm.
  - rewrite (readBlock_write_other b db db') in E by done. by apply Hs.
Qed.

(** A block without a stored body is read as a block without transactions. *)
Lemma readBlock_no_body b db db' :
  storable b -> writeBlock b db = Some db' ->
  readBlock (DeleteBody (NumberU64 b) (Block_Hash b) db') (Block_Hash b)
  = TOk (Some (NewBlock (norm_header eip7706 (blk_header b)) None)).
Proof.
  intros [Hok Hl] Hw. destruct (writeBlock_header _ _ _ Hw) as [E1 E2].
  pose proof (NumberU64_range b) as Hn. pose proof (Block_Hash_range keccak256 eip7706 b) as Hh.
  assert (forall k, key_ok k -> k <> KBody (NumberU64 b) (Block_Hash b) ->
            DeleteBody (NumberU64 b) (Block_Hash b) db' !! key_bytes k = db' !! key_bytes k) as F
    by (intros k Hk Hne; apply (get_delete (KBody (NumberU64 b) (Block_Hash b)) k db' (conj Hn Hh)) in Hk;
        rewrite decide_False in Hk by congruence; exact Hk).
  rewrite (readBlock_found _ _ (NumberU64 b) (blk_header b) Hok Hl).
  - unfold readBody, ReadBody, db_Get, DeleteBody, db_Delete. rewrite lookup_delete_eq. reflexivity.
  - rewrite <- E1. exact (f_equal read_number (F (KNumber (Block_Hash b)) Hh ltac:(discriminate))).
  - rewrite <- E2. exact (F (KHeader (NumberU64 b) (Block_Hash b)) (conj Hn Hh) ltac:(discriminate)).
Qed.

Lemma writeBlock_body b db enc :
  encodeBlockBody eip7706 (blk_body b) = EOk enc ->
  exists db', writeBlock b db = Some db' /\ ReadBody db' (NumberU64 b) (Block_Hash b) = Some enc.
Proof.
  intros E. unfold BlockStore.writeBlock. rewrite Header_EncodeRLP_eq, E. eexists. split; [done|].
  apply lookup_insert_eq.
Qed.

(** What is read back: without its body, when it has a local transaction. *)
Definition read_back (b : Block) : Block :=
  NewBlock (norm_header eip7706 (blk_header b))
    (if has_local (blk_body b) then None else Some (norm_body eip7706 (blk_body b))).

Lemma Block_Hash_read_back b : Block_Hash (read_back b) = Block_Hash b.
Proof. unfold read_back. rewrite Block_Hash_NewBlock. apply Header_Hash_norm. Qed.

End Store.

(** A block whose fields are in range. *)
Record in_range (b : Block) : Prop := {
  ir_header : header_ok (blk_header b);
  ir_txs : Forall (fun tx => tx_ok (inner tx)) (b_Transactions (blk_body b));
  ir_uncles : Forall header_ok (b_Uncles (blk_body b));
  ir_withdrawals : Forall withdrawal_wf (default [] (b_Withdrawals (blk_body b)));
}.

(** The encodings of the block fit a Go slice. *)
Definition fits (eip7706 : bool) (b : Block) : Prop :=
  zlen (wrapList (header_payload eip7706 (blk_header b))) < 2 ^ 63 /\
  forall enc, encodeBlockBody eip7706 (blk_body b) = EOk enc -> zlen enc < 2 ^ 63.

(** The stored body decodes, or is refused for a local transaction. *)
Lemma body_decoded eip7706 b :
  in_range b -> fits eip7706 b ->
  exists enc n, encodeBlockBody eip7706 (blk_body b) = EOk enc /\ enc <> [] /\ forall fuel, (n <= fuel)%nat ->
    decodeBlockBody eip7706 fuel enc
    = if has_local (blk_body b) then TErr else TOk (norm_body eip7706 (blk_body b)).
Proof.
  intros [_ Ht Hu Hw] [_ Hl]. destruct (has_local (blk_body b)) eqn:El.
  - destruct (body_refused eip7706 _ Ht Hu El) as (enc & E & Hne & D). destruct (D (Hl _ E)) as [n Dn]. by exists enc, n.
  - destruct (body_roundtrip eip7706 (blk_body b)) as (enc & E & Hne & D); [|destruct (D (Hl _ E)) as [n Dn]; by exists enc, n].
    split; [|done]. apply Forall_forall. intros tx Hin. rewrite Forall_forall in Ht. split; [by apply Ht|].
    intros x Ex. assert (has_local (blk_body b) = true); [|congruence].
    apply existsb_exists. exists tx. split; [by apply list_elem_of_In|]. unfold is_local. by rewrite Ex.
Qed.

(** C35. What becomes of a block that is written to the database and read back
    under its hash: the header comes back up to the fields its encoding leaves
    out, and has the hash of the one that was written.  The transactions, the
    uncles and the withdrawals come back too, unless one of the transactions is
    a local one: the decoder does not know that type, and the block is read
    back with an empty body and no error. *)
Theorem stored_block_read_back keccak256 eip7706 b db :
  in_range b -> fits eip7706 b ->
  exists db', writeBlock keccak256 eip7706 b db = Some db' /\
    Block_Hash keccak256 eip7706 (read_back eip7706 b) = Block_Hash keccak256 eip7706 b /\
    exists n, forall fuel, (n <= fuel)%nat ->
      readBlock eip7706 fuel db' (Block_Hash keccak256 eip7706 b) = TOk (Some (read_back eip7706 b)).
Proof.
  intros Hr Hl. destruct (body_decoded eip7706 b Hr Hl) as (enc & n & E & Hne & Dn).
  destruct (writeBlock_body keccak256 eip7706 b db enc E) as (db' & Ew & Er).
  exists db'. split; [done|]. split; [apply Block_Hash_read_back|]. exists n. intros fuel Hf.
  destruct (writeBlock_header keccak256 eip7706 b db db' Ew) as [E1 E2].
  rewrite (readBlock_found _ _ _ _ _ _ (ir_header _ Hr) (proj1 Hl) E1 E2). unfold readBody, read_back. rewrite Er.
  specialize (Dn fuel Hf). destruct enc; [done|]. rewrite Dn. by destruct (has_local (blk_body b)).
Qed.

Definition w_localBlock : Block :=
  mkBlock (blk_header w_block)
    (mkBody [NewTransaction (Local (mkLocalTx (Some 1) 0 (Some 1) (Some 10) 30000 (Some 0xC0) (Some 5) [] []))] [] None).

(** The block of the other round trip, and one with a local transaction. *)
Lemma stored_block_read_back_witness :
  (exists db', writeBlock (fun b => b) false w_block ∅ = Some db' /\
    Block_Hash (fun b => b) false (read_back false w_block) = Block_Hash (fun b => b) false w_block /\
    exists n, forall fuel, (n <= fuel)%nat ->
      readBlock false fuel db' (Block_Hash (fun b => b) false w_block) = TOk (Some (read_back false w_block))) /\
  (exists db', writeBlock (fun b => b) false w_localBlock ∅ = Some db' /\
    Block_Hash (fun b => b) false (read_back false w_localBlock) = Block_Hash (fun b => b) false w_localBlock /\
    exists n, forall fuel, (n <= fuel)%nat ->
      readBlock false fuel db' (Block_Hash (fun b => b) false w_localBlock) = TOk (Some (read_back false w_localBlock))) /\
  block_Transactions (read_back false w_localBlock) = [] /\ block_Transactions w_localBlock <> [].
Proof.
  destruct w_block_ok as (A & B & C & D). split_and!.
  - apply (stored_block_read_back (fun b => b) false w_block ∅).
    + split; [done|eapply Forall_impl; [exact B|]; by intros tx []|done|done].
    + split; [by vm_compute|]. intros enc E. vm_compute in E. injection E as <-. by vm_compute.
  - apply (stored_block_read_back (fun b => b) false w_localBlock ∅).
    + split; [exact A| |constructor|constructor].
      apply Forall_singleton. split_and!; repeat first [apply Forall_cons_2 | apply Forall_nil_2]; done.
    + split; [by vm_compute|]. intros enc E. vm_compute in E. injection E as <-. by vm_compute.
  - reflexivity.
  - done.
Defined.

(** ** Receipts *)

Lemma item_length_SetBytes d : Forall is_byte d -> SetBytes d < 2 ^ 63 -> item_length d = SetBytes d.
Proof.
  unfold item_length. induction d as [|x d IH] using rev_ind; intros Hd Hl; [done|].
  apply Forall_app in Hd as [Hd Hx]. inversion Hx as [|? ? Hb _]; subst. unfold is_byte in Hb.
  rewrite SetBytes_snoc in *. pose proof (SetBytes_range d Hd) as Hr.
  rewrite fold_left_app. cbn [fold_left]. rewrite IH by (try done; nia).
  rewrite Z.shiftl_mul_pow2 by lia. rewrite (i64_small (SetBytes d * 2 ^ 8)) by nia.
  rewrite (lor_shift_add (SetBytes d) x 8) by lia. apply i64_small. lia.
Qed.

Lemma rlpItemSize_wrap p rest :
  zlen (wrapList p) < 2 ^ 63 -> rlpItemSize (wrapList p ++ rest) = zlen (wrapList p).
Proof.
  intros Hl. pose proof (zlen_le_wrapList p). pose proof (zlen_nonneg p). pose proof (zlen_nonneg rest).
  destruct (wrapList_form p ltac:(lia)) as [(H55 & E)|(H55 & E)]; rewrite E in *; cbn [app rlpItemSize].
  - rewrite !(@zlen_cons Z). destruct (Z.ltb_spec (192 + zlen p) 0x80); [lia|].
    destruct (Z.leb_spec (192 + zlen p) 0xB7); [lia|]. destruct (Z.leb_spec (192 + zlen p) 0xBF); [lia|].
    destruct (Z.leb_spec (192 + zlen p) 0xF7); lia.
  - destruct (long_length (zlen p)) as (_ & HB & _); [lia|]. set (n := zlen (Bytes (zlen p))) in *.
    rewrite (@zlen_cons Z), (@zlen_app Z) in Hl. rewrite !(@zlen_cons Z), !(@zlen_app Z).
    fold n in Hl |- *.
    destruct (Z.ltb_spec (247 + n) 0x80); [lia|]. destruct (Z.leb_spec (247 + n) 0xB7); [lia|].
    destruct (Z.leb_spec (247 + n) 0xBF); [lia|]. destruct (Z.leb_spec (247 + n) 0xF7); [lia|].
    replace (247 + n - 247) with n by lia. rewrite <- app_assoc.
    destruct (Z.ltb_spec (1 + (n + zlen p + zlen rest)) (1 + n)); [lia|].
    assert (Z.to_nat n = length (Bytes (zlen p))) as -> by (unfold n, zlen at 1; lia). rewrite take_app_length, item_length_SetBytes, SetBytes_Bytes.
    + rewrite i64_small by lia. lia.
    + apply Bytes_bytes.
    + rewrite SetBytes_Bytes. lia.
Qed.

Definition receipt_bytes (r : Receipt) : bytes :=
  (if rc_Type r =? 0 then [] else [rc_Type r]) ++ wrapList (receipt_payload r).

Lemma nextReceiptSize_ok r rest :
  receipt_ok r -> zlen (receipt_bytes r) < 2 ^ 62 ->
  nextReceiptSize (receipt_bytes r ++ rest) = Some (zlen (receipt_bytes r)).
Proof.
  intros [Ht _ _ _ _] Hl. unfold receipt_bytes in *. pose proof (zlen_nonneg rest).
  pose proof (wrapList_pos (receipt_payload r)) as Hp.
  destruct (Z.eqb_spec (rc_Type r) 0) as [H0|H0]; cbn [app] in *.
  - destruct (wrapList_first (receipt_payload r) ltac:(lia)) as (x & t & E & Hx).
    pose proof (rlpItemSize_wrap (receipt_payload r) rest ltac:(lia)) as S.
    rewrite E in *. cbn [app nextReceiptSize] in *. destruct (Z.ltb_spec x 0x80); [lia|]. rewrite S.
    destruct (Z.leb_spec (zlen (x :: t)) 0); [lia|]. simpl orb.
    rewrite !(@zlen_cons Z), (@zlen_app Z). destruct (Z.gtb_spec (1 + zlen t) (1 + (zlen t + zlen rest))); [lia|done].
  - rewrite (@zlen_cons Z) in *. cbn [nextReceiptSize]. destruct (Z.ltb_spec (rc_Type r) 0x80); [|lia].
    rewrite !(@zlen_cons Z), (@zlen_app Z). rewrite rlpItemSize_wrap by lia.
    destruct (Z.ltb_spec (1 + (zlen (wrapList (receipt_payload r)) + zlen rest)) 2); [lia|].
    destruct (Z.leb_spec (zlen (wrapList (receipt_payload r))) 0); [lia|]. simpl orb.
    rewrite i64_small by lia.
    destruct (Z.gtb_spec (1 + zlen (wrapList (receipt_payload r))) (1 + (zlen (wrapList (receipt_payload r)) + zlen rest))); [lia|done].
Qed.

Lemma encodeReceipts_ok rs : encodeReceipts rs = Some (concat (map receipt_bytes rs)).
Proof.
  induction rs as [|r rs IH]; [done|]. cbn [encodeReceipts map concat].
  rewrite Receipt_EncodeRLP_eq, IH. done.
Qed.

(** Enough fuel for every receipt. *)
Lemma receipts_fuel rs :
  Forall receipt_ok rs -> zlen (concat (map receipt_bytes rs)) < 2 ^ 62 ->
  exists n, forall fuel, (n <= fuel)%nat ->
    Forall (fun r => DecodeReceiptRLP fuel (receipt_bytes r) = TOk (norm_receipt r)) rs.
Proof.
  induction 1 as [|r rs Hr _ IH]; [by exists 0%nat|]. cbn [map concat]. rewrite (@zlen_app Z). intros Hl.
  pose proof (zlen_nonneg (receipt_bytes r)). pose proof (zlen_nonneg (concat (map receipt_bytes rs))).
  destruct (IH ltac:(lia)) as [n1 H1]. destruct (receipt_roundtrip r Hr) as (enc & E & D).
  rewrite Receipt_EncodeRLP_eq in E. injection E as <-. destruct (D ltac:(unfold receipt_bytes in *; lia)) as [n2 H2].
  exists (Nat.max n1 n2). intros fuel Hf. constructor; [apply H2; lia|apply H1; lia].
Qed.

Lemma receipt_bytes_pos r : 0 < zlen (receipt_bytes r).
Proof.
  unfold receipt_bytes. rewrite (@zlen_app Z). pose proof (wrapList_pos (receipt_payload r)).
  pose proof (zlen_nonneg (if rc_Type r =? 0 then [] else [rc_Type r])). lia.
Qed.

Lemma decodeReceipts_ok fuel rs rounds :
  Forall receipt_ok rs -> zlen (concat (map receipt_bytes rs)) < 2 ^ 62 ->
  Forall (fun r => DecodeReceiptRLP fuel (receipt_bytes r) = TOk (norm_receipt r)) rs ->
  (length rs <= rounds)%nat ->
  decodeReceipts fuel rounds (concat (map receipt_bytes rs)) = TOk (map norm_receipt rs).
Proof.
  intros Hok. revert rounds. induction Hok as [|r rs Hr _ IH]; intros rounds Hl HD Hn.
  { destruct rounds; done. }
  destruct rounds as [|rounds]; [simpl in Hn; lia|]. inversion HD as [|? ? D1 D2]; subst.
  cbn [map concat] in *. rewrite (@zlen_app Z) in Hl.
  pose proof (receipt_bytes_pos r). pose proof (zlen_nonneg (concat (map receipt_bytes rs))).
  cbn [decodeReceipts]. rewrite nextReceiptSize_ok by (try done; lia).
  assert (Z.to_nat (zlen (receipt_bytes r)) = length (receipt_bytes r)) as HL by (unfold zlen; lia).
  unfold go_slice. rewrite (@zlen_app Z). destruct (Z.leb_spec 0 (zlen (receipt_bytes r))); [|lia].
  destruct (Z.leb_spec (zlen (receipt_bytes r)) (zlen (receipt_bytes r) + zlen (concat (map receipt_bytes rs)))); [|lia].
  simpl andb. cbv iota. rewrite Z.sub_0_r, HL. change (Z.to_nat 0) with 0%nat. rewrite drop_0, take_app_length, D1, drop_app_length.
  rewrite IH; [done|lia|done|simpl in Hn; lia].
Qed.

Lemma receipts_length rs : (length rs <= length (concat (map receipt_bytes rs)))%nat.
Proof.
  induction rs as [|r rs IH]; [done|]. cbn [map concat length]. rewrite length_app.
  pose proof (receipt_bytes_pos r) as H. unfold zlen in H. lia.
Qed.

(** The gas used in the block before the transaction [i]. *)
Definition gas_before (rs : list Receipt) (i : nat) : Z :=
  match i with O => 0 | S k => default 0 (rc_CumulativeGasUsed <$> rs !! k) end.

(** The log [q], read back, is the [j]-th log [l] of the transaction [i]. *)
Record reloaded_log (num : Z) (hash txHash : Hash) (i j : nat) (l : Log) (q : placedLog) : Prop := {
  ll_address : log_Address (pl_log q) = log_Address l;
  ll_topics : log_Topics (pl_log q) = log_Topics l;
  ll_data : log_Data (pl_log q) = log_Data l;
  ll_tx : log_TxHash (pl_log q) = txHash /\ log_TxIndex (pl_log q) = Z.of_nat i;
  ll_block : pl_BlockHash q = hash /\ pl_BlockNumber q = num;
  ll_index : pl_Index q = Z.of_nat j;
}.

(** The receipt [p], read back, is the [i]-th receipt [r] of the block. *)
Record reloaded (keccak256 : bytes -> bytes) (num : Z) (hash : Hash) (txs : list Transaction) (rs : list Receipt)
    (i : nat) (r : Receipt) (p : placedReceipt) : Prop := {
  rl_type : rc_Type (pr_receipt p) = rc_Type r;
  rl_status : rc_Status (pr_receipt p) = rc_Status r;
  rl_cumulative : rc_CumulativeGasUsed (pr_receipt p) = rc_CumulativeGasUsed r;
  rl_bloom : rc_Bloom (pr_receipt p) = rc_Bloom r;
  rl_gas : rc_GasUsed (pr_receipt p) = (rc_CumulativeGasUsed r - gas_before rs i) mod 2 ^ 64;
  rl_tx : rc_TxHash (pr_receipt p) = default 0 ((fun tx => tx_Hash keccak256 (inner tx)) <$> txs !! i);
  rl_block : pr_BlockHash p = hash /\ pr_BlockNumber p = num /\ pr_TransactionIndex p = Z.of_nat i;
  rl_logs : Forall2 (fun jl q => reloaded_log num hash (rc_TxHash (pr_receipt p)) i jl.1 jl.2 q)
              (imap pair (rc_Logs r)) (pr_logs p);
  rl_lost : rc_ContractAddress (pr_receipt p) = 0 /\ rc_EffectiveGasPrice (pr_receipt p) = None /\
    rc_BlobGasUsed (pr_receipt p) = 0 /\ rc_BlobGasPrice (pr_receipt p) = None /\ rc_BlockGasUsed (pr_receipt p) = 0;
}.

Lemma placeReceipts_lookup keccak256 num hash txs rs : forall i0 prev k r,
  rs !! k = Some r ->
  let txHash := match txs !! (i0 + k)%nat with Some tx => tx_Hash keccak256 (inner tx) | None => rc_TxHash r end in
  let before := match k with O => prev | S j => default 0 (rc_CumulativeGasUsed <$> rs !! j) end in
  placeReceipts keccak256 num hash txs i0 prev rs !! k
  = Some (mkPlacedReceipt
      (set_inclusion txHash (if (i0 + k =? 0)%nat then rc_CumulativeGasUsed r else rc_CumulativeGasUsed r -u before) r)
      (place_logs hash num txHash (Z.of_nat (i0 + k)) 0 (rc_Logs r)) hash num (Z.of_nat (i0 + k))).
Proof.
  induction rs as [|x rs IH]; intros i0 prev [|k] r E; try done.
  - injection E as ->. cbv zeta. cbn [placeReceipts]. by rewrite Nat.add_0_r.
  - cbn [placeReceipts]. change ((x :: rs) !! S k) with (rs !! k) in E.
    change ((?a :: ?l) !! S k) with (l !! k). cbn. rewrite (IH (S i0) _ k r E). cbv zeta.
    replace (S i0 + k)%nat with (i0 + S k)%nat by lia. by destruct k.
Qed.

Lemma placeReceipts_length keccak256 num hash txs rs : forall i0 prev,
  length (placeReceipts keccak256 num hash txs i0 prev rs) = length rs.
Proof. induction rs as [|x rs IH]; intros i0 prev; [done|]. cbn [placeReceipts length]. by rewrite IH. Qed.

Lemma place_logs_reloaded num hash txHash i logs :
  Forall2 (fun jl q => reloaded_log num hash txHash i jl.1 jl.2 q) (imap pair logs)
    (place_logs hash num txHash (Z.of_nat i) 0 (map norm_log logs)).
Proof.
  apply Forall2_same_length_lookup_2; unfold place_logs; [by rewrite !length_imap, length_map|].
  intros j [j' l] q H1 H2. rewrite list_lookup_imap in H1. rewrite list_lookup_imap, list_lookup_fmap in H2.
  destruct (logs !! j) as [x|]; [|done]. cbn in H1, H2. injection H1 as <- <-. injection H2 as <-. by split.
Qed.

Lemma placed_reloaded keccak256 num hash txs rs i r :
  Forall receipt_ok rs -> rs !! i = Some r ->
  exists p, placeReceipts keccak256 num hash txs 0 0 (map norm_receipt rs) !! i = Some p /\
    reloaded keccak256 num hash txs rs i r p.
Proof.
  intros Hok E. rewrite (placeReceipts_lookup _ _ _ _ (map norm_receipt rs) 0 0 i (norm_receipt r))
    by (by rewrite list_lookup_fmap, E).
  eexists. split; [reflexivity|]. cbn [Nat.add]. split; try done; cbn [pr_receipt set_inclusion rc_GasUsed rc_TxHash].
  - pose proof (rk_cumulative _ (proj1 (Forall_lookup _ _) Hok i r E)) as Hc. unfold is_u64 in Hc.
    destruct i as [|k]; [cbn; rewrite Z.sub_0_r, Z.mod_small by lia; done|]. cbn [Nat.eqb gas_before].
    rewrite list_lookup_fmap, <- option_fmap_compose. done.
  - by destruct (txs !! i).
  - apply place_logs_reloaded.
Qed.

(** C37. The receipts of a block, at least one, that are written to the database
    are read back in order, whatever lay under their key: type, status,
    cumulative gas and bloom are those written; the gas used is the difference
    of the cumulative gas to that of the receipt before; the transaction hash
    is that of the transaction at the same position; block hash, block number
    and position are set.  The logs come back in order with address, topics and
    data, and with their transaction and block; their index restarts at zero in
    every receipt.  Contract address, gas price and blob and block gas are not
    stored and come back empty. *)
Theorem stored_receipts_read_back keccak256 num hash rs txs db :
  Forall receipt_ok rs -> zlen (concat (map receipt_bytes rs)) < 2 ^ 62 -> rs <> [] ->
  exists db' ps, writeReceipts num hash rs db = Some db' /\
    (exists n, forall fuel, (n <= fuel)%nat -> readReceiptsFromDB keccak256 fuel db' num hash txs = TOk ps) /\
    length ps = length rs /\
    forall i r, rs !! i = Some r -> exists p, ps !! i = Some p /\ reloaded keccak256 num hash txs rs i r p.
Proof.
  intros Hok Hl Hne. unfold writeReceipts. rewrite encodeReceipts_ok.
  destruct rs as [|r0 rs0]; [done|]. set (rs := r0 :: rs0) in *.
  eexists _, (placeReceipts keccak256 num hash txs 0 0 (map norm_receipt rs)). split_and!; [done| | |].
  - destruct (receipts_fuel rs Hok Hl) as [n Hn]. exists n. intros fuel Hf.
    unfold readReceiptsFromDB, ReadReceipts, WriteReceipts, db_Get, db_Put. rewrite lookup_insert_eq.
    rewrite (decodeReceipts_ok fuel rs); [done|done|done|by apply Hn|apply receipts_length].
  - by rewrite placeReceipts_length, length_map.
  - intros i r E. by apply placed_reloaded.
Qed.

Definition w_receipt2 : Receipt :=
  mkReceipt 2 1 63000 (LogsBloom (fun b => b) [w_log]) [w_log; w_log] 0 0 0 None 0 None 0 None 0 0.

(** Two receipts: the second one used 42000 gas. *)
Lemma stored_receipts_read_back_witness :
  exists db' ps, writeReceipts 5 6 [w_receipt; w_receipt2] ∅ = Some db' /\
    (exists n, forall fuel, (n <= fuel)%nat -> readReceiptsFromDB (fun b => b) fuel db' 5 6 [] = TOk ps) /\
    length ps = 2%nat /\ exists p, ps !! 1%nat = Some p /\ rc_GasUsed (pr_receipt p) = 42000.
Proof.
  assert (Forall receipt_ok [w_receipt; w_receipt2]) as H.
  { repeat constructor; unfold is_u64, is_Address, is_Hash; simpl; try lia; by vm_compute. }
  destruct (stored_receipts_read_back (fun b => b) 5 6 [w_receipt; w_receipt2] [] ∅ H) as (db' & ps & W & R & L & K);
    [by vm_compute|done|].
  exists db', ps. split_and!; [exact W|exact R|exact L|]. destruct (K 1%nat w_receipt2 eq_refl) as (p & E & P).
  exists p. split; [exact E|]. exact (rl_gas _ _ _ _ _ _ _ _ P).
Defined.

(** The index of a log: the first log of the second receipt is numbered after
    the logs of the first one when the block is inserted, and from zero when
    the receipts are read back. *)
Lemma reloaded_log_index keccak256 num hash txs r1 r2 l ls :
  rc_Logs r2 = l :: ls ->
  (fun p => pl_Index <$> head (pr_logs p)) <$> (deriveReceipts keccak256 num hash txs 0 0 [r1; r2] !! 1%nat)
    = Some (Some (zlen (rc_Logs r1))) /\
  (fun p => pl_Index <$> head (pr_logs p)) <$> (placeReceipts keccak256 num hash txs 0 0 [r1; r2] !! 1%nat)
    = Some (Some 0).
Proof.
  intros E. cbn [deriveReceipts placeReceipts lookup list_lookup fmap option_fmap option_map pr_logs].
  rewrite E. simpl. split; do 2 f_equal; lia.
Qed.
