(* ===== verification/Validator.v ===== *)
(** * Validator: consensus checks of headers and bodies

    core/block/validator.go (the validator block insertion uses),
    core/chain/header_verification.go (the verifier of header sequences), the
    checks of core/gas/blob_validation.go and core/gas/multidim.go they call,
    the requests hash of core/types/request.go and the hash of a block access
    list (bal/hash.go).  [None] as a [*ChainConfig] is left out. *)

From stdpp Require Import gmap.
From S2P Require Import Prelude Rlp StateDB Transactions Machine ChainConfig Blocks Receipts Fees Bal BlockProcessor.
From S2P Require Import Trie BlockStore.
Local Open Scope Z_scope.
Local Open Scope go_scope.

(** ** Errors and results *)

Inductive validator_error :=
  | ErrUnknownParent
  | ErrExtraDataTooLong
  | ErrInvalidTimestamp
  | ErrInvalidNumber
  | ErrInvalidGasLimit
  | ErrInvalidGasUsed
  | ErrInvalidDifficulty
  | ErrInvalidNonce
  | ErrInvalidUncleHash
  | ErrInvalidBaseFee
  | ErrBlobGasUsedNil
  | ErrBlobGasUsedExceeded
  | ErrExcessBlobGasNil
  | ErrExcessBlobGasMismatch
  | ErrInvalidCalldataGas
  | ErrInvalidTxRoot
  | ErrBlobGasUsedMismatch
  | ErrMissingWithdrawals
  | ErrInvalidRequestHash
  | ErrRequestsHashMismatch
  | ErrInvalidBlockAccessList
  | ErrFutureBlock
  | ErrHeaderChainBroken
  | ErrBlockNumberGap
  | ErrTimestampNonMonotonic
  | ErrExtraDataOverflow
  | ErrGasLimitTooLow
  | ErrGasLimitTooHigh
  | ErrGasLimitJump
  | ErrGasUsedExceedsLimit
  | ErrDifficultyPostMerge
  | ErrNoncePostMerge
  | ErrUnclesPostMerge
  | ErrBaseFeeComputation
  | ErrBlobFieldsMissing
  | ErrCalldataFieldsMissing.

(** A nil error, an error, a panic, or a fee loop that needs more fuel. *)
Inductive vres := VOk | VErr (e : validator_error) | VPanic | VFuel.

Definition vbind (r : vres) (k : vres) : vres := match r with VOk => k | _ => r end.

Definition vreject (bad : bool) (e : validator_error) : vres := if bad then VErr e else VOk.

Notation "r ;;; k" := (vbind r k) (at level 100, right associativity) : go_scope.

(** ** Limits *)

Definition MaxExtraDataSize : Z := 32.
Definition GasLimitBoundDivisor : Z := 1024.
Definition MinGasLimit : Z := 5000.
Definition MaxGasLimit : Z := 2 ^ 63 - 1.

Definition MaxBlobGasPerBlock : Z := 6 * GasPerBlob.
Definition TargetBlobGasPerBlock : Z := 3 * GasPerBlob.

Definition CalcExcessBlobGas (parentExcessBlobGas parentBlobGasUsed : Z) : Z :=
  let sum := parentExcessBlobGas +u parentBlobGasUsed in
  if sum <? TargetBlobGasPerBlock then 0 else sum -u TargetBlobGasPerBlock.

Definition CountBlobGas (tx : Transaction) : Z := GasPerBlob *u u64 (zlen (tx_BlobHashes (inner tx))).

Definition CalldataGas (tx : Transaction) : Z := CalldataTokenGas (tx_Data (inner tx)).

(** ** Pieces of the header checks *)

Definition verifyGasLimit (parentGasLimit headerGasLimit : Z) : vres :=
  vreject (headerGasLimit <? MinGasLimit) ErrInvalidGasLimit ;;;
  vreject (headerGasLimit >? MaxGasLimit) ErrInvalidGasLimit ;;;
  let diff := if headerGasLimit <? parentGasLimit then parentGasLimit -u headerGasLimit
              else headerGasLimit -u parentGasLimit in
  let limit := parentGasLimit / GasLimitBoundDivisor in
  vreject (diff >=? limit) ErrInvalidGasLimit.

(** The range [CalcGasLimitRange] gives to block producers. *)
Definition CalcGasLimitRange (parentGasLimit : Z) : Z * Z :=
  let bound := parentGasLimit / GasLimitBoundDivisor in
  let bound := if bound =? 0 then 1 else bound in
  let min := if parentGasLimit >? bound - 1
             then let candidate := parentGasLimit -u (bound - 1) in
                  if candidate >? MinGasLimit then candidate else MinGasLimit
             else MinGasLimit in
  let max := parentGasLimit +u (bound - 1) in
  let max := if max >? MaxGasLimit then MaxGasLimit else max in
  let max := if max <? min then min else max in
  (min, max).

(** The blob gas of a header against its parent, with the limits of Cancun. *)
Definition ValidateBlockBlobGas (header parent : Header) : vres :=
  match h_BlobGasUsed header with
  | None => VErr ErrBlobGasUsedNil
  | Some used =>
      vreject (used >? MaxBlobGasPerBlock) ErrBlobGasUsedExceeded ;;;
      match h_ExcessBlobGas header with
      | None => VErr ErrExcessBlobGasNil
      | Some excess =>
          let expected := CalcExcessBlobGas (default 0 (h_ExcessBlobGas parent)) (default 0 (h_BlobGasUsed parent)) in
          vreject (negb (excess =? expected)) ErrExcessBlobGasMismatch
      end
  end.

(** The same with the schedule of the fork. *)
Definition ValidateBlockBlobGasWithConfig (feeFuel : nat) (c : ChainConfig) (header parent : Header) : vres :=
  match h_BlobGasUsed header with
  | None => VErr ErrBlobGasUsedNil
  | Some used =>
      let sched := GetBlobSchedule c (h_Time header) in
      vreject (used >? bs_Max sched *u GasPerBlob) ErrBlobGasUsedExceeded ;;;
      match h_ExcessBlobGas header with
      | None => VErr ErrExcessBlobGasNil
      | Some excess =>
          match CalcExcessBlobGasV2ForHeader feeFuel parent c (h_Time header) with
          | None => VFuel
          | Some expected => vreject (negb (excess =? expected)) ErrExcessBlobGasMismatch
          end
      end
  end.

(** The calldata gas fields of EIP-7706 (validator.go; [ValidateCalldataGasFields]
    of core/gas is the same code). *)
Definition ValidateCalldataGas (eip7706 : bool) (header parent : Header) : vres :=
  match h_CalldataGasUsed header, h_CalldataExcessGas header with
  | Some used, Some excess =>
      vreject (used >? CalcCalldataGasLimit (h_GasLimit header)) ErrInvalidCalldataGas ;;;
      let expectedExcess := CalcCalldataExcessGas (default 0 (h_CalldataExcessGas parent))
                              (default 0 (h_CalldataGasUsed parent)) (h_GasLimit parent) in
      vreject (negb (excess =? expectedExcess)) ErrInvalidCalldataGas
  | _, _ => if negb eip7706 then VOk else VErr ErrInvalidCalldataGas
  end.

(** [header.BaseFee.Cmp(expected)] when there is a base fee. *)
Definition verifyBaseFee (header parent : Header) : vres :=
  match h_BaseFee header with
  | None => VOk
  | Some fee =>
      match CalcBaseFee parent with
      | None => VPanic
      | Some expected => vreject (negb (fee =? expected)) ErrInvalidBaseFee
      end
  end.

(** ** Roots of lists (computeTxsRoot, computeReceiptsRoot) *)

Definition EmptyRootHash : Hash := 0x56e81f171bcc55a6ff8345e692c0f86e5b48e01b996cadc001622fb5e363b421.

Section Roots.

Context (keccak256 : bytes -> bytes).

(** Put the encodings that succeed under the RLP of their index; an error of
    [Put] is ignored. *)
Fixpoint put_items (i : nat) (items : list eres) (t : node) : trieRes node :=
  match items with
  | [] => TDone t
  | EOk val :: rest =>
      match trie_Put t (encodeUint (Z.of_nat i)) val with
      | TDone t' => put_items (S i) rest t'
      | TFail _ => put_items (S i) rest t
      | TCrash => TCrash
      | TLoop => TLoop
      end
  | EErr _ :: rest => put_items (S i) rest t
  | EPanic :: _ => TCrash
  end.

Definition listRoot (items : list eres) : trieRes Hash :=
  match items with
  | [] => TDone EmptyRootHash
  | _ => let* t := put_items 0 items NilN in
         let* r := trie_Hash keccak256 t in
         TDone (SetBytes r.1)
  end.

Definition computeTxsRoot (txs : list Transaction) : trieRes Hash :=
  listRoot (map (fun tx => EncodeRLP (inner tx)) txs).

Definition computeReceiptsRoot (receipts : list Receipt) : trieRes Hash :=
  listRoot (map Receipt_EncodeRLP receipts).

End Roots.

(** ** Block access list hash *)

Definition pair_value (o : option gval) : gval := match o with Some v => GPtr v | None => GNil end.

Definition entry_value (e : AccessEntry) : gval :=
  GStruct
    [ (true, GByteArray (be_bytes 20 (ae_Address e)));
      (true, GUint (ae_AccessIndex e));
      (true, GSlice (map (fun a => GStruct [(true, GByteArray (be_bytes 32 (sa_Slot a)));
                                            (true, GByteArray (be_bytes 32 (sa_Value a)))]) (ae_StorageReads e)));
      (true, GSlice (map (fun a => GStruct [(true, GByteArray (be_bytes 32 (sc_Slot a)));
                                            (true, GByteArray (be_bytes 32 (sc_OldValue a)));
                                            (true, GByteArray (be_bytes 32 (sc_NewValue a)))]) (ae_StorageChanges e)));
      (true, pair_value ((fun p => GStruct [(true, GPtr (GBig true p.1)); (true, GPtr (GBig true p.2))])
                           <$> ae_BalanceChange e));
      (true, pair_value ((fun p => GStruct [(true, GUint p.1); (true, GUint p.2)]) <$> ae_NonceChange e));
      (true, pair_value ((fun p => GStruct [(true, GBytes p.1); (true, GBytes p.2)]) <$> ae_CodeChange e)) ].

Definition bal_EncodeRLP (bal : Bal.BlockAccessList) : eres :=
  EncodeToBytes (GPtr (GStruct [(true, GSlice (map entry_value bal))])).

Definition bal_Hash (keccak256 : bytes -> bytes) (bal : Bal.BlockAccessList) : Hash :=
  match bal_EncodeRLP bal with EOk e => BytesToHash (keccak256 e) | _ => 0 end.

Section Validator.

Context (keccak256 sha256 : bytes -> bytes) (eip7706 : bool) (feeFuel : nat) (config : ChainConfig).

Abbreviation Header_Hash := (Header_Hash keccak256 eip7706).

Definition EmptyUncleHash : Hash := BytesToHash (keccak256 [0xc0]).

Definition verifyPostMerge (header : Header) : vres :=
  vreject (negb (default 0 (h_Difficulty header) =? 0)) ErrInvalidDifficulty ;;;
  vreject (negb (h_Nonce header =? 0)) ErrInvalidNonce ;;;
  vreject (negb (h_UncleHash header =? 0) && negb (h_UncleHash header =? EmptyUncleHash)) ErrInvalidUncleHash.

(** [header.Number.Cmp(new(big.Int).Add(parent.Number, 1))]; a nil number is
    dereferenced. *)
Definition checkNumber (header parent : Header) : vres :=
  match h_Number parent, h_Number header with
  | Some p, Some n => vreject (negb (n =? p + 1)) ErrInvalidNumber
  | _, _ => VPanic
  end.

Definition ValidateHeader (header parent : Header) : vres :=
  vreject (negb (h_ParentHash header =? Header_Hash parent)) ErrUnknownParent ;;;
  vreject (zlen (h_Extra header) >? MaxExtraDataSize) ErrExtraDataTooLong ;;;
  vreject (h_Time header <=? h_Time parent) ErrInvalidTimestamp ;;;
  checkNumber header parent ;;;
  verifyGasLimit (h_GasLimit parent) (h_GasLimit header) ;;;
  vreject (h_GasUsed header >? h_GasLimit header) ErrInvalidGasUsed ;;;
  verifyPostMerge header ;;;
  verifyBaseFee header parent ;;;
  (if cfg_IsCancun config (h_Time header) then ValidateBlockBlobGas header parent else VOk) ;;;
  (if cfg_IsGlamsterdan config (h_Time header) then ValidateCalldataGas eip7706 header parent else VOk).

Definition ValidateBody (block : Block) : vres :=
  let header := block_Header block in
  let txs := block_Transactions block in
  vreject (negb (zlen (b_Uncles (blk_body block)) =? 0)) ErrInvalidUncleHash ;;;
  match computeTxsRoot keccak256 txs with
  | TDone root =>
      vreject (negb (h_TxHash header =? root)) ErrInvalidTxRoot ;;;
      (if cfg_IsCancun config (h_Time header) then
         let total := fold_left (fun g tx => g +u CountBlobGas tx) txs 0 in
         match h_BlobGasUsed header with
         | Some used => vreject (negb (used =? total)) ErrBlobGasUsedMismatch
         | None => VOk
         end
       else VOk) ;;;
      (if cfg_IsGlamsterdan config (h_Time header) then
         let total := fold_left (fun g tx => g +u CalldataGas tx) txs 0 in
         match h_CalldataGasUsed header with
         | Some used => vreject (negb (used =? total)) ErrInvalidCalldataGas
         | None => VOk
         end
       else VOk) ;;;
      vreject (cfg_IsShanghai config (h_Time header) && bool_decide (b_Withdrawals (blk_body block) = None))
        ErrMissingWithdrawals
  | _ => VPanic
  end.

(** *** Requests (core/types/request.go) *)

(** The hash of the requests of one type, nothing when there are none. *)
Definition typeHash (requests : list Request) (ty : Z) : bytes :=
  match filter (fun r => rq_Type r = ty) requests with
  | [] => []
  | rs => sha256 (ty :: concat (map rq_Data rs))
  end.

Definition ComputeRequestsHash (requests : list Request) : Hash :=
  BytesToHash (sha256 (concat (map (typeHash requests) [0; 1; 2]))).

Definition ValidateRequestsHash (header : Header) (requests : list Request) : vres :=
  match h_RequestsHash header with
  | None => vreject (negb (zlen requests =? 0)) ErrRequestsHashMismatch
  | Some h => vreject (negb (h =? ComputeRequestsHash requests)) ErrRequestsHashMismatch
  end.

Definition ValidateRequests (header : Header) (requests : list Request) : vres :=
  if negb (cfg_IsPrague config (h_Time header)) then
    vreject (bool_decide (is_Some (h_RequestsHash header))) ErrInvalidRequestHash
  else
    vreject (bool_decide (h_RequestsHash header = None)) ErrInvalidRequestHash ;;;
    ValidateRequestsHash header requests.

Definition ValidateBlockAccessList (header : Header) (computedBALHash : option Hash) : vres :=
  if negb (cfg_IsAmsterdam config (h_Time header)) then
    vreject (bool_decide (is_Some (h_BlockAccessListHash header))) ErrInvalidBlockAccessList
  else
    match h_BlockAccessListHash header, computedBALHash with
    | None, _ => VOk
    | Some _, None => VErr ErrInvalidBlockAccessList
    | Some h, Some c => vreject (negb (h =? c)) ErrInvalidBlockAccessList
    end.

(** *** The verifier of header sequences (header_verification.go) *)

Definition verifyBlockNumber (header parent : Header) : vres :=
  match h_Number header, h_Number parent with
  | Some n, Some p => vreject (negb (n =? p + 1)) ErrBlockNumberGap
  | _, _ => VErr ErrBlockNumberGap
  end.

Definition verifyGasLimitBounds (header parent : Header) : vres :=
  vreject (h_GasLimit header <? MinGasLimit) ErrGasLimitTooLow ;;;
  vreject (h_GasLimit header >? MaxGasLimit) ErrGasLimitTooHigh ;;;
  let diff := if h_GasLimit header >? h_GasLimit parent then h_GasLimit header -u h_GasLimit parent
              else h_GasLimit parent -u h_GasLimit header in
  let bound := h_GasLimit parent / GasLimitBoundDivisor in
  vreject (diff >=? bound) ErrGasLimitJump.

Definition verifyPoSTransition (header : Header) : vres :=
  vreject (negb (default 0 (h_Difficulty header) =? 0)) ErrDifficultyPostMerge ;;;
  vreject (negb (h_Nonce header =? 0)) ErrNoncePostMerge ;;;
  vreject (negb (h_UncleHash header =? 0) && negb (h_UncleHash header =? EmptyUncleHash)) ErrUnclesPostMerge.

Definition verifier_verifyBaseFee (header parent : Header) : vres :=
  match h_BaseFee header with
  | None => VOk
  | Some fee =>
      match CalcBaseFee parent with
      | None => VPanic
      | Some expected => vreject (negb (fee =? expected)) ErrBaseFeeComputation
      end
  end.

Definition verifyBlobGas (header parent : Header) : vres :=
  if negb (cfg_IsCancun config (h_Time header)) then VOk
  else
    vreject (bool_decide (h_BlobGasUsed header = None)) ErrBlobFieldsMissing ;;;
    vreject (bool_decide (h_ExcessBlobGas header = None)) ErrBlobFieldsMissing ;;;
    if cfg_IsPrague config (h_Time header) then ValidateBlockBlobGasWithConfig feeFuel config header parent
    else ValidateBlockBlobGas header parent.

Definition verifyCalldataGas (header parent : Header) : vres :=
  if negb (cfg_IsGlamsterdan config (h_Time header)) then VOk
  else
    let missing := bool_decide (h_CalldataGasUsed header = None) || bool_decide (h_CalldataExcessGas header = None) in
    if missing then vreject eip7706 ErrCalldataFieldsMissing
    else ValidateCalldataGas eip7706 header parent.

Definition VerifyAgainstParent (header parent : Header) : vres :=
  vreject (negb (h_ParentHash header =? Header_Hash parent)) ErrHeaderChainBroken ;;;
  verifyBlockNumber header parent ;;;
  vreject (h_Time header <=? h_Time parent) ErrTimestampNonMonotonic ;;;
  vreject (zlen (h_Extra header) >? MaxExtraDataSize) ErrExtraDataOverflow ;;;
  verifyGasLimitBounds header parent ;;;
  vreject (h_GasUsed header >? h_GasLimit header) ErrGasUsedExceedsLimit ;;;
  verifyPoSTransition header ;;;
  verifier_verifyBaseFee header parent ;;;
  verifyBlobGas header parent ;;;
  verifyCalldataGas header parent.

(** The number of headers verified, and the error. *)
Fixpoint VerifyChain (parent : Header) (headers : list Header) : nat * vres :=
  match headers with
  | [] => (0%nat, VOk)
  | h :: rest =>
      match VerifyAgainstParent h parent with
      | VOk => let '(n, r) := VerifyChain h rest in (S n, r)
      | r => (0%nat, r)
      end
  end.

Definition VerifyTimestampWindow (header : Header) (currentTime allowedDrift : Z) : vres :=
  vreject (h_Time header >? currentTime +u allowedDrift) ErrFutureBlock.

End Validator.
