(* ===== verification/HeaderChain.v ===== *)
(** * HeaderChain: the header chain

    core/chain/headerchain.go: the headers known by hash, the index of the
    canonical chain by number, and the current header. *)

From stdpp Require Import gmap.
From S2P Require Import Prelude Rlp StateDB Transactions Blocks ChainConfig Validator.
Local Open Scope Z_scope.
Local Open Scope go_scope.

Record HeaderChain := mkHeaderChain {
  headers : gmap Z Header;
  headersByHash : gmap Z Header;
  currentHeader : Header;
}.

(** [header.Number.Uint64()]; a nil number is dereferenced. *)
Definition header_num (h : Header) : option Z := Uint64 <$> h_Number h.

(** The result of an insertion: a panic, or the error and the chain. *)
Definition hcres : Type := option (vres * HeaderChain).

Section HeaderChain.

Context (keccak256 : bytes -> bytes) (eip7706 : bool) (config : ChainConfig).

Abbreviation Header_Hash := (Header_Hash keccak256 eip7706).

Definition NewHeaderChain (genesis : Header) : option HeaderChain :=
  num ← header_num genesis;
  Some (mkHeaderChain {[num := genesis]} {[Header_Hash genesis := genesis]} genesis).

Definition GetHeader (hc : HeaderChain) (hash : Hash) : option Header := headersByHash hc !! hash.
Definition GetHeaderByNumber (hc : HeaderChain) (number : Z) : option Header := headers hc !! number.
Definition HasHeader (hc : HeaderChain) (hash : Hash) : bool := bool_decide (is_Some (headersByHash hc !! hash)).

Definition insertHeader (header : Header) (hc : HeaderChain) : hcres :=
  let hash := Header_Hash header in
  match headersByHash hc !! hash with
  | Some _ => Some (VOk, hc)
  | None =>
      match headersByHash hc !! h_ParentHash header with
      | None => Some (VErr ErrUnknownParent, hc)
      | Some parent =>
          match ValidateHeader keccak256 eip7706 config header parent with
          | VOk =>
              num ← header_num header;
              current ← header_num (currentHeader hc);
              let byHash := <[hash := header]> (headersByHash hc) in
              Some (VOk, if num >? current
                         then mkHeaderChain (<[num := header]> (headers hc)) byHash header
                         else mkHeaderChain (headers hc) byHash (currentHeader hc))
          | VPanic => None
          | r => Some (r, hc)
          end
      end
  end.

(** The number of headers inserted before the error. *)
Fixpoint InsertHeaders (hs : list Header) (hc : HeaderChain) : option (nat * vres * HeaderChain) :=
  match hs with
  | [] => Some (0%nat, VOk, hc)
  | h :: rest =>
      r ← insertHeader h hc;
      match r with
      | (VOk, hc) => '(n, e, hc) ← InsertHeaders rest hc; Some (S n, e, hc)
      | (e, hc) => Some (0%nat, e, hc)
      end
  end.

(** Remove the canonical headers [number + 1 .. number + n], the highest first. *)
Fixpoint drop_headers (number : Z) (n : nat) (hc : HeaderChain) : HeaderChain :=
  match n with
  | O => hc
  | S m =>
      let num := number + Z.of_nat n in
      let hc := match headers hc !! num with
                | Some h => mkHeaderChain (delete num (headers hc)) (delete (Header_Hash h) (headersByHash hc)) (currentHeader hc)
                | None => hc
                end in
      drop_headers number m hc
  end.

Definition hc_SetHead (number : Z) (hc : HeaderChain) : option HeaderChain :=
  current ← header_num (currentHeader hc);
  let hc := drop_headers number (Z.to_nat (current - number)) hc in
  Some match headers hc !! number with
       | Some h => mkHeaderChain (headers hc) (headersByHash hc) h
       | None => hc
       end.

(** [n] steps to the parent, a nil when one is not known. *)
Fixpoint ancestor (hc : HeaderChain) (n : nat) (h : Header) : option Header :=
  match n with
  | O => Some h
  | S m => parent ← headersByHash hc !! h_ParentHash h; ancestor hc m parent
  end.

Definition GetAncestor (hc : HeaderChain) (hash : Hash) (n : nat) : option Header :=
  header ← headersByHash hc !! hash; ancestor hc n header.

Definition hc_ChainLength (hc : HeaderChain) : option Z := (fun n => n +u 1) <$> header_num (currentHeader hc).

End HeaderChain.
