(* ===== verification/ValidatorProofs.v ===== *)
(** * ValidatorProofs: the header checks, and the header chain they build

    What an accepted header satisfies; the two implementations of the checks
    agree up to Prague; the gas limit range for producers is the one the
    validator accepts; every header of the header chain descends from genesis
    through accepted steps. *)

From stdpp Require Import gmap.
From S2P Require Import Prelude Rlp StateDB Transactions TxProofs Blocks BlockProofs ChainConfig Fees.
From S2P Require Import BlockStore BlockStoreProofs Validator HeaderChain.
Local Open Scope Z_scope.
Local Open Scope go_scope.

(** ** Sequences of checks *)

Lemma vbind_ok r k : (r ;;; k) = VOk <-> r = VOk /\ k = VOk.
Proof. destruct r; simpl; naive_solver. Qed.

Lemma vreject_ok b e : vreject b e = VOk <-> b = false.
Proof. by destruct b. Qed.

(** ** Gas limits *)

Lemma verifyGasLimit_ok p g :
  is_u64 p -> is_u64 g ->
  verifyGasLimit p g = VOk <-> MinGasLimit <= g <= MaxGasLimit /\ Z.abs (g - p) < p / GasLimitBoundDivisor.
Proof.
  intros Hp Hg. unfold verifyGasLimit. rewrite !vbind_ok, !vreject_ok. unfold is_u64 in *.
  rewrite Z.ltb_ge, Z.gtb_ltb, Z.ltb_ge, Z.geb_leb, Z.leb_gt.
  destruct (Z.ltb_spec g p); rewrite u64_small by (unfold is_u64; lia); lia.
Qed.

(** A block producer and the validator agree on gas limits: for a parent
    within the limits, the gas limits the validator accepts are exactly the
    range that [CalcGasLimitRange] computes. *)
Lemma gas_limit_range_exact p g :
  MinGasLimit <= p <= MaxGasLimit -> is_u64 g ->
  verifyGasLimit p g = VOk <-> (CalcGasLimitRange p).1 <= g <= (CalcGasLimitRange p).2.
Proof.
  intros Hp Hg. unfold MinGasLimit, MaxGasLimit in Hp. rewrite verifyGasLimit_ok by (try done; unfold is_u64; lia).
  unfold CalcGasLimitRange, GasLimitBoundDivisor, MinGasLimit, MaxGasLimit, is_u64 in *.
  pose proof (Z.div_mod p 1024 ltac:(lia)) as D. pose proof (Z.mod_pos_bound p 1024 ltac:(lia)) as R.
  set (q := p / 1024) in *. assert (4 <= q) by lia.
  destruct (Z.eqb_spec q 0); [lia|]. destruct (Z.gtb_spec p (q - 1)); [|lia].
  rewrite !u64_small by (unfold is_u64; lia).
  destruct (Z.gtb_spec (p - (q - 1)) 5000), (Z.gtb_spec (p + (q - 1)) (2 ^ 63 - 1)); cbn [fst snd];
    repeat match goal with |- context [?a <? ?b] => destruct (Z.ltb_spec a b) end; lia.
Qed.

Lemma gas_limit_range_exact_witness :
  verifyGasLimit 30000000 30029295 = VOk /\ (30029295 <= (CalcGasLimitRange 30000000).2).
Proof.
  split; [|by vm_compute]. apply (gas_limit_range_exact 30000000 30029295); [by vm_compute|by vm_compute|by vm_compute].
Defined.

(** ** The two verifiers *)

Lemma verifyGasLimitBounds_ok h p :
  is_u64 (h_GasLimit h) -> is_u64 (h_GasLimit p) ->
  verifyGasLimitBounds h p = VOk <-> verifyGasLimit (h_GasLimit p) (h_GasLimit h) = VOk.
Proof.
  intros Hh Hp. rewrite verifyGasLimit_ok by done. unfold verifyGasLimitBounds. rewrite !vbind_ok, !vreject_ok.
  unfold is_u64 in *. rewrite Z.ltb_ge, !(Z.gtb_ltb _ MaxGasLimit), Z.ltb_ge, Z.geb_leb, Z.leb_gt.
  destruct (Z.gtb_spec (h_GasLimit h) (h_GasLimit p)); rewrite u64_small by (unfold is_u64; lia); lia.
Qed.

Lemma verifyBlockNumber_ok h p : verifyBlockNumber h p = VOk <-> checkNumber h p = VOk.
Proof.
  unfold verifyBlockNumber, checkNumber. destruct (h_Number h), (h_Number p); try done. by rewrite !vreject_ok.
Qed.

Lemma base_fee_ok h p : verifier_verifyBaseFee h p = VOk <-> verifyBaseFee h p = VOk.
Proof.
  unfold verifier_verifyBaseFee, verifyBaseFee. destruct (h_BaseFee h), (CalcBaseFee p); try done.
  by rewrite !vreject_ok.
Qed.

Section Agreement.

Context (keccak256 : bytes -> bytes) (eip7706 : bool) (feeFuel : nat) (config : ChainConfig).

Lemma verifyBlobGas_ok h p :
  cfg_IsPrague config (h_Time h) = false ->
  verifyBlobGas feeFuel config h p = VOk <->
  (if cfg_IsCancun config (h_Time h) then ValidateBlockBlobGas h p else VOk) = VOk.
Proof.
  intros HP. unfold verifyBlobGas, ValidateBlockBlobGas. rewrite HP. destruct (cfg_IsCancun config (h_Time h)); [|done].
  simpl negb. cbv iota. destruct (h_BlobGasUsed h); [|done].
  destruct (h_ExcessBlobGas h); rewrite !vbind_ok, ?vreject_ok; [|naive_solver].
  rewrite !bool_decide_eq_false. naive_solver.
Qed.

Lemma verifyCalldataGas_ok h p :
  verifyCalldataGas eip7706 config h p = VOk <->
  (if cfg_IsGlamsterdan config (h_Time h) then ValidateCalldataGas eip7706 h p else VOk) = VOk.
Proof.
  unfold verifyCalldataGas. destruct (cfg_IsGlamsterdan config (h_Time h)); [|done]. simpl negb. cbv iota.
  unfold ValidateCalldataGas. destruct (h_CalldataGasUsed h), (h_CalldataExcessGas h); try done; by destruct eip7706.
Qed.

Lemma verifyPoS_ok h : verifyPoSTransition keccak256 h = VOk <-> verifyPostMerge keccak256 h = VOk.
Proof. unfold verifyPoSTransition, verifyPostMerge. by rewrite !vbind_ok, !vreject_ok. Qed.

End Agreement.

(** C13. Header validation is implemented twice, in the validator that block
    insertion uses and in the verifier of header sequences.  Before Prague the
    two accept the same headers, although they check in another order and
    treat a missing number differently. *)
Theorem verifiers_agree keccak256 eip7706 feeFuel config h p :
  is_u64 (h_GasLimit h) -> is_u64 (h_GasLimit p) -> cfg_IsPrague config (h_Time h) = false ->
  VerifyAgainstParent keccak256 eip7706 feeFuel config h p = VOk <->
  ValidateHeader keccak256 eip7706 config h p = VOk.
Proof.
  intros Hh Hp HP. unfold VerifyAgainstParent, ValidateHeader. rewrite !vbind_ok, !vreject_ok.
  rewrite verifyBlockNumber_ok, verifyGasLimitBounds_ok, verifyPoS_ok, base_fee_ok, verifyBlobGas_ok,
    verifyCalldataGas_ok by done. tauto.
Qed.

(** A hash for the examples: a polynomial in the bytes. *)
Definition v_hash (b : bytes) : bytes := be_bytes 32 (fold_left (fun a x => (a * 257 + x + 1) mod 0x1FFFFFFFFFFFFFFF) b 0).

Definition v_config (shanghai cancun prague : option Z) : ChainConfig :=
  mkChainConfig (Some 1) (Some 0) (Some 0) (Some 0) (Some 0) (Some 0) (Some 0) (Some 0) (Some 0) (Some 0) (Some 0)
    (Some 0) shanghai cancun prague None None None None None None.

Definition v_genesis : Header :=
  mkHeader 0 0 0 0 EmptyRootHash EmptyRootHash 0 (Some 0) (Some 0) 30000000 0 1000 [] 0 0 (Some 1000000000)
    None None None None None None None None None None None None.

(** An empty child of [p], twelve seconds later, with the given blob fields
    and extra data. *)
Definition v_child (keccak256 : bytes -> bytes) (used excess : option Z) (extra : bytes) (p : Header) : Header :=
  mkHeader (Header_Hash keccak256 false p) 0 0 0 EmptyRootHash EmptyRootHash 0 (Some 0) (Some (default 0 (h_Number p) + 1))
    (h_GasLimit p) 0 (h_Time p + 12) extra 0 0 (CalcBaseFee p)
    None used excess None None None None None None None None None.

Lemma verifiers_agree_witness :
  VerifyAgainstParent v_hash false 0 (v_config None (Some 0) None) (v_child v_hash (Some 0) (Some 0) [] v_genesis) v_genesis = VOk.
Proof.
  apply (verifiers_agree v_hash false 0 (v_config None (Some 0) None) (v_child v_hash (Some 0) (Some 0) [] v_genesis) v_genesis);
    by vm_compute.
Defined.

(** After Prague they differ: the validator of block insertion keeps the
    target and the maximum of Cancun.  A block after five blobs must claim an
    excess that the schedule of Prague rejects, and a block with seven blobs is
    refused although Prague allows nine. *)
Lemma verifiers_differ_after_prague :
  let c := v_config (Some 0) (Some 0) (Some 0) in
  let p := v_child v_hash (Some (5 * GasPerBlob)) (Some 0) [] v_genesis in
  let h1 := v_child v_hash (Some 0) (Some (2 * GasPerBlob)) [] p in
  let h2 := v_child v_hash (Some (7 * GasPerBlob)) (Some 0) [] v_genesis in
  ValidateHeader v_hash false c h1 p = VOk /\
  VerifyAgainstParent v_hash false 100 c h1 p = VErr ErrExcessBlobGasMismatch /\
  ValidateHeader v_hash false c h2 v_genesis = VErr ErrBlobGasUsedExceeded /\
  VerifyAgainstParent v_hash false 100 c h2 v_genesis = VOk.
Proof. by vm_compute. Qed.

(** ** The header chain *)

Section Chain.

Context (keccak256 : bytes -> bytes) (eip7706 : bool) (config : ChainConfig).

Abbreviation Header_Hash := (Header_Hash keccak256 eip7706).

(** An accepted child. *)
Definition accepted (h p : Header) : Prop := ValidateHeader keccak256 eip7706 config h p = VOk.

Lemma accepted_parent h p : accepted h p -> h_ParentHash h = Header_Hash p.
Proof.
  unfold accepted, ValidateHeader. rewrite vbind_ok, vreject_ok. intros [H _]. zbool. done.
Qed.

Lemma accepted_number h p : accepted h p -> exists n, h_Number p = Some n /\ h_Number h = Some (n + 1).
Proof.
  unfold accepted, ValidateHeader. rewrite !vbind_ok. intros (_ & _ & _ & H & _). unfold checkNumber in H.
  destruct (h_Number p) as [n|], (h_Number h) as [m|]; try done. apply vreject_ok in H. zbool. subst. by exists n.
Qed.

Lemma accepted_time h p : accepted h p -> h_Time p < h_Time h.
Proof. unfold accepted, ValidateHeader. rewrite !vbind_ok, !vreject_ok. intros (_ & _ & H & _). by zbool. Qed.

(** The validator does not panic on a parent with a number: the division of
    the base fee by the gas target is protected by the gas limit check. *)
Lemma ValidateHeader_no_panic h p n m :
  h_Number p = Some n -> h_Number h = Some m -> is_u64 (h_GasLimit h) -> is_u64 (h_GasLimit p) ->
  ValidateHeader keccak256 eip7706 config h p <> VPanic.
Proof.
  intros Hn Hm Hg Hp. unfold ValidateHeader, checkNumber. rewrite Hn, Hm.
  assert (forall b e k, k <> VPanic -> (vreject b e ;;; k) <> VPanic) as R by (by intros [] e k).
  assert (forall r k, r <> VPanic -> (r = VOk -> k <> VPanic) -> (r ;;; k) <> VPanic) as S by (intros [] k; naive_solver).
  do 4 apply R. apply S; [unfold verifyGasLimit; do 2 apply R; by destruct (_ >=? _)|]. intros HG.
  apply verifyGasLimit_ok in HG as [_ HG]; [|done..]. apply R. apply S; [unfold verifyPostMerge; do 2 apply R; by destruct (_ && _)|].
  intros _. apply S.
  { unfold verifyBaseFee. destruct (h_BaseFee h); [|done].
    destruct (CalcBaseFee p) eqn:E; [by destruct (negb _)|]. exfalso. revert E. unfold CalcBaseFee, big_Div.
    assert (h_GasLimit p / ElasticityMultiplier <> 0).
    { unfold ElasticityMultiplier, GasLimitBoundDivisor, is_u64 in *. intros Hz.
      assert (h_GasLimit p / 1024 = 0) by (apply Z.div_small; pose proof (Z.mod_pos_bound (h_GasLimit p) 2);
        pose proof (Z.div_mod (h_GasLimit p) 2); lia). lia. }
    destruct (h_BaseFee p); [|done]. destruct (Z.eqb_spec (h_GasLimit p / ElasticityMultiplier) 0); [done|].
    destruct (_ =? _); [done|]. by destruct (_ >? _). }
  intros _. apply S; [destruct (cfg_IsCancun _ _); [|done]|intros _; destruct (cfg_IsGlamsterdan _ _); [|done]].
  - unfold ValidateBlockBlobGas. destruct (h_BlobGasUsed h); [|done]. apply R. destruct (h_ExcessBlobGas h); [|done].
    by destruct (negb _).
  - unfold ValidateCalldataGas. destruct (h_CalldataGasUsed h), (h_CalldataExcessGas h); try (by destruct eip7706).
    apply R. by destruct (negb _).
Qed.

(** What insertion maintains, for a chain that starts at [genesis] with number
    [g]. *)
Record hc_inv (genesis : Header) (g : Z) (hc : HeaderChain) : Prop := {
  hi_keyed : forall k h, headersByHash hc !! k = Some h -> Header_Hash h = k;
  hi_number : forall k h, headersByHash hc !! k = Some h ->
    exists n, h_Number h = Some n /\ g <= n /\ (n = g -> h = genesis);
  hi_linked : forall k h, headersByHash hc !! k = Some h ->
    h = genesis \/ exists p, headersByHash hc !! h_ParentHash h = Some p /\ accepted h p;
  hi_index : forall n h, headers hc !! n = Some h ->
    headersByHash hc !! Header_Hash h = Some h /\ header_num h = Some n;
  hi_current : exists c, header_num (currentHeader hc) = Some c /\ headers hc !! c = Some (currentHeader hc) /\
    (forall n h, headers hc !! n = Some h -> n <= c) /\
    (forall k h m, headersByHash hc !! k = Some h -> header_num h = Some m -> m <= c);
}.

Lemma hc_inv_new genesis g hc :
  h_Number genesis = Some g -> NewHeaderChain keccak256 eip7706 genesis = Some hc -> hc_inv genesis g hc.
Proof.
  intros Hg. unfold NewHeaderChain, header_num. rewrite Hg. intros [= <-]. split; cbn [headersByHash headers currentHeader].
  - intros k h [<- <-]%lookup_singleton_Some. done.
  - intros k h [<- <-]%lookup_singleton_Some. exists g. by split.
  - intros k h [<- <-]%lookup_singleton_Some. by left.
  - intros n h [<- <-]%lookup_singleton_Some. split; [apply lookup_singleton_eq|]. unfold header_num. by rewrite Hg.
  - exists (Uint64 g). unfold header_num. rewrite Hg. split; [done|]. split; [apply lookup_singleton_eq|]. split.
    + by intros n h [<- _]%lookup_singleton_Some.
    + intros k h m [_ <-]%lookup_singleton_Some. rewrite Hg. by intros [= <-].
Qed.

(** A new accepted header. *)
Lemma hc_inv_insert genesis g hc h p hs c :
  hc_inv genesis g hc -> headersByHash hc !! Header_Hash h = None ->
  headersByHash hc !! h_ParentHash h = Some p -> accepted h p ->
  (hs = headers hc /\ c = currentHeader hc /\
   (forall m, header_num h = Some m -> exists d, header_num c = Some d /\ m <= d)) \/
  (exists m d, header_num h = Some m /\ header_num (currentHeader hc) = Some d /\ d < m /\
     hs = <[m := h]> (headers hc) /\ c = h) ->
  hc_inv genesis g (mkHeaderChain hs (<[Header_Hash h := h]> (headersByHash hc)) c).
Proof.
  intros [K N L I (cc & C1 & C2 & C3 & C4)] Hnew Hp Ha Hidx.
  destruct (N _ _ Hp) as (n & Hn & Hge & _). destruct (accepted_number _ _ Ha) as (n' & Hn' & Hh).
  rewrite Hn in Hn'. injection Hn' as <-.
  assert (Hweak : forall k x, headersByHash hc !! k = Some x -> <[Header_Hash h := h]> (headersByHash hc) !! k = Some x).
  { intros k x Hx. rewrite lookup_insert_ne; [done|]. intros E. rewrite E in Hnew. congruence. }
  split; cbn [headersByHash headers currentHeader].
  - intros k x [[<- <-]|[_ Hx]]%lookup_insert_Some; [done|by apply K].
  - intros k x [[<- <-]|[_ Hx]]%lookup_insert_Some; [|by eapply N]. exists (n + 1). split; [done|]. split; lia.
  - intros k x [[<- <-]|[_ Hx]]%lookup_insert_Some.
    + right. exists p. auto.
    + destruct (L _ _ Hx) as [->|(q & Hq & Hacc)]; [by left|right; exists q; auto].
  - intros k x Hx. destruct Hidx as [(-> & _ & _)|(m & d & Hm & _ & _ & -> & _)].
    + destruct (I _ _ Hx) as [H1 H2]. auto.
    + apply lookup_insert_Some in Hx as [[<- <-]|[_ Hx]]; [by rewrite lookup_insert_eq|].
      destruct (I _ _ Hx) as [H1 H2]. auto.
  - destruct Hidx as [(-> & -> & Hle)|(m & d & Hm & Hd & Hlt & -> & ->)].
    + exists cc. split; [done|]. split; [done|]. split; [done|].
      intros k x m [[<- <-]|[_ Hx]]%lookup_insert_Some Hm; [|by eapply C4].
      destruct (Hle m Hm) as (d & Hd & Hle'). congruence.
    + rewrite C1 in Hd. injection Hd as <-. exists m. split; [done|]. split; [apply lookup_insert_eq|]. split.
      * intros k x [[<- _]|[_ Hx]]%lookup_insert_Some; [lia|]. specialize (C3 _ _ Hx). lia.
      * intros k x e [[<- <-]|[_ Hx]]%lookup_insert_Some He; [rewrite Hm in He; injection He as <-; lia|].
        specialize (C4 _ _ _ Hx He). lia.
Qed.

Lemma insertHeader_inv genesis g h hc r hc' :
  hc_inv genesis g hc -> insertHeader keccak256 eip7706 config h hc = Some (r, hc') -> hc_inv genesis g hc'.
Proof.
  intros HI. unfold insertHeader. destruct (headersByHash hc !! Header_Hash h) eqn:Enew; [by intros [= _ <-]|].
  destruct (headersByHash hc !! h_ParentHash h) as [p|] eqn:Ep; [|by intros [= _ <-]].
  destruct (ValidateHeader keccak256 eip7706 config h p) eqn:Ev; try (by intros [= _ <-]).
  destruct (header_num h) as [m|] eqn:Em; [|done]. destruct (header_num (currentHeader hc)) as [d|] eqn:Ed; [|done].
  cbn [mbind option_bind]. destruct (Z.gtb_spec m d); intros [= _ <-]; apply (hc_inv_insert genesis g hc h p); try done.
  - right. exists m, d. by rewrite Em.
  - left. split; [done|]. split; [done|]. intros m' Hm'. exists d. split; [done|]. congruence.
Qed.

(** Batches of headers, inserted in order, whatever their results. *)
Fixpoint insert_runs (runs : list (list Header)) (hc : HeaderChain) : option HeaderChain :=
  match runs with
  | [] => Some hc
  | hs :: rest => '(_, _, hc) ← InsertHeaders keccak256 eip7706 config hs hc; insert_runs rest hc
  end.

Lemma InsertHeaders_inv genesis g hs hc n r hc' :
  hc_inv genesis g hc -> InsertHeaders keccak256 eip7706 config hs hc = Some (n, r, hc') -> hc_inv genesis g hc'.
Proof.
  revert hc n; induction hs as [|h hs IH]; intros hc n HI; cbn [InsertHeaders]; [by intros [= _ _ <-]|].
  destruct (insertHeader keccak256 eip7706 config h hc) as [[r1 hc1]|] eqn:E; [|done]. cbn [mbind option_bind].
  apply (insertHeader_inv genesis g) in E; [|done]. destruct r1; try (by intros [= _ _ <-]).
  destruct (InsertHeaders keccak256 eip7706 config hs hc1) as [[[n2 r2] hc2]|] eqn:E2; [|done]. cbn [mbind option_bind].
  intros [= _ <- <-]. by eapply IH.
Qed.

Lemma insert_runs_inv genesis g runs hc hc' :
  hc_inv genesis g hc -> insert_runs runs hc = Some hc' -> hc_inv genesis g hc'.
Proof.
  revert hc; induction runs as [|hs runs IH]; intros hc HI; cbn [insert_runs]; [by intros [= <-]|].
  destruct (InsertHeaders keccak256 eip7706 config hs hc) as [[[n r] hc1]|] eqn:E; [|done]. cbn [mbind option_bind].
  apply IH. by eapply InsertHeaders_inv.
Qed.

Lemma ancestor_descends genesis g hc n : hc_inv genesis g hc -> h_Number genesis = Some g -> forall h N,
  headersByHash hc !! Header_Hash h = Some h -> h_Number h = Some N -> Z.of_nat n <= N - g ->
  exists a, ancestor hc n h = Some a /\ h_Number a = Some (N - Z.of_nat n) /\
    (Z.of_nat n = N - g -> a = genesis) /\ h_Time a + Z.of_nat n <= h_Time h.
Proof.
  intros HI HG. induction n as [|n IH]; intros h N Hh HN Hle; cbn [ancestor].
  - exists h. split; [done|]. split; [by rewrite Z.sub_0_r|]. split; [|lia]. intros Heq.
    destruct (hi_number _ _ _ HI _ _ Hh) as (n & Hn & _ & Hg). apply Hg. rewrite HN in Hn. injection Hn as <-. lia.
  - destruct (hi_linked _ _ _ HI _ _ Hh) as [->|(p & Hp & Ha)].
    { rewrite HG in HN. injection HN as <-. lia. }
    rewrite Hp. cbn [mbind option_bind]. destruct (accepted_number _ _ Ha) as (m & Hm & Hn').
    rewrite HN in Hn'. injection Hn' as ->.
    destruct (IH p m) as (a & Ea & Na & Ga & Ta); [by rewrite (hi_keyed _ _ _ HI _ _ Hp)|done|lia|].
    pose proof (accepted_time _ _ Ha). exists a. split; [done|]. split; [rewrite Na; f_equal; lia|].
    split; [intros; apply Ga; lia|lia].
Qed.

End Chain.

(** C12. Whatever batches of headers are inserted into a new header chain, as
    long as it is not rewound, every header it knows descends from genesis: its
    n-th ancestor is known, has the number n below, is at least n seconds
    older, and at the number of genesis it is the genesis header.  (Rewinding
    breaks this for headers of side branches, see [rewinding_orphans].) *)
Theorem header_chain_descends keccak256 eip7706 config genesis g runs hc0 hc k h N n :
  h_Number genesis = Some g -> NewHeaderChain keccak256 eip7706 genesis = Some hc0 ->
  insert_runs keccak256 eip7706 config runs hc0 = Some hc ->
  GetHeader hc k = Some h -> h_Number h = Some N -> Z.of_nat n <= N - g ->
  exists a, GetAncestor hc k n = Some a /\ h_Number a = Some (N - Z.of_nat n) /\
    (Z.of_nat n = N - g -> a = genesis) /\ h_Time a + Z.of_nat n <= h_Time h.
Proof.
  intros Hg H0 Hr Hk HN Hle. pose proof (hc_inv_new keccak256 eip7706 config _ _ _ Hg H0) as I0.
  pose proof (insert_runs_inv keccak256 eip7706 config _ _ _ _ _ I0 Hr) as HI. unfold GetHeader, GetAncestor in *.
  pose proof (hi_keyed _ _ _ _ _ _ HI _ _ Hk) as Hh. rewrite <- Hh in Hk |- *. rewrite Hk.
  by eapply (ancestor_descends keccak256 eip7706 config genesis g).
Qed.

Definition v_hc0 : HeaderChain :=
  default (mkHeaderChain ∅ ∅ v_genesis) (NewHeaderChain v_hash false v_genesis).

Definition v_h1 : Header := v_child v_hash None None [] v_genesis.
Definition v_h2 : Header := v_child v_hash None None [] v_h1.

(** Two headers on top of genesis and a sibling of the first. *)
Definition v_runs : list (list Header) := [[v_h1; v_h2]; [v_child v_hash None None [7] v_genesis]].

Definition v_hc : HeaderChain := default v_hc0 (insert_runs v_hash false (v_config None None None) v_runs v_hc0).

Lemma header_chain_descends_witness :
  GetHeader v_hc (Header_Hash v_hash false v_h2) = Some v_h2 /\
  exists a, GetAncestor v_hc (Header_Hash v_hash false v_h2) 2 = Some a /\ h_Number a = Some (2 - 2) /\
    (2 = 2 - 0 -> a = v_genesis) /\ h_Time a + 2 <= h_Time v_h2.
Proof.
  assert (GetHeader v_hc (Header_Hash v_hash false v_h2) = Some v_h2) as H by (by vm_compute).
  split; [exact H|].
  apply (header_chain_descends v_hash false (v_config None None None) v_genesis 0 v_runs v_hc0 v_hc
           (Header_Hash v_hash false v_h2) v_h2 2 2);
    [reflexivity|by vm_compute|by vm_compute|exact H|reflexivity|done].
Defined.

(** The index by number is not the ancestry of the current header: a header on
    top of the sibling becomes current, and the sibling's rival keeps its place
    in the index. *)
Lemma header_index_unlinked :
  let s1 := v_child v_hash None None [7] v_genesis in
  let s2 := v_child v_hash None None [] s1 in
  match insert_runs v_hash false (v_config None None None) [[v_h1]; [s1]; [s2]] v_hc0 with
  | Some hc => currentHeader hc = s2 /\ GetHeaderByNumber hc 1 = Some v_h1 /\
      GetAncestor hc (Header_Hash v_hash false s2) 1 = Some s1 /\ h_Extra s1 <> h_Extra v_h1
  | None => False
  end.
Proof. vm_compute. do 3 (split; [reflexivity|]). discriminate. Qed.

(** Rewinding forgets the canonical headers above the new head only: a header of
    a side branch that starts above it stays known, without its parent. *)
Lemma rewinding_orphans :
  let h3 := v_child v_hash None None [] v_h2 in
  let s3 := v_child v_hash None None [7] v_h2 in
  match insert_runs v_hash false (v_config None None None) [[v_h1; v_h2; h3]; [s3]] v_hc0 with
  | Some hc =>
      match hc_SetHead v_hash false 1 hc with
      | Some hc' => currentHeader hc' = v_h1 /\ GetHeader hc' (Header_Hash v_hash false s3) = Some s3 /\
          GetAncestor hc (Header_Hash v_hash false s3) 1 = Some v_h2 /\
          GetAncestor hc' (Header_Hash v_hash false s3) 1 = None
      | None => False
      end
  | None => False
  end.
Proof. vm_compute. do 3 (split; [reflexivity|]). reflexivity. Qed.
