(* ===== verification/StateCache.v ===== *)
(** * StateCache: the cache of state snapshots

    core/chain/state_cache.go: snapshots by block hash, evicted in insertion
    order, with one protected entry.  [Dup] is an argument. *)

From stdpp Require Import gmap.
From S2P Require Import Prelude StateDB.
Local Open Scope Z_scope.
Local Open Scope go_scope.

Definition defaultMaxCachedStates : Z := 1024.

Record stateCache (St : Type) := mkStateCache {
  maxSize : Z;
  snapshots : gmap Z (Z * St);
  order : list Hash;
  protected : Hash;
}.
Arguments mkStateCache {St}.
Arguments maxSize {St} _.
Arguments snapshots {St} _.
Arguments order {St} _.
Arguments protected {St} _.

Section StateCache.

Context {St : Type} (Dup : St -> St).

Definition newStateCache (size : Z) : stateCache St :=
  mkStateCache (if size <=? 0 then defaultMaxCachedStates else size) ∅ [] 0.

Definition cache_get (blockHash : Hash) (c : stateCache St) : option St :=
  (fun e => Dup e.2) <$> snapshots c !! blockHash.

(** Is the entry protected?  The zero hash protects nothing. *)
Definition is_protected (p oldest : Hash) : bool := negb (p =? 0) && (oldest =? p).

(** The eviction loop of [put].  An eviction shortens [order] and resets
    [checked], a rotation increases [checked] up to the length of [order], so
    [(length order + 1) ^ 2] rounds are enough. *)
Fixpoint evict_loop (rounds : nat) (limit : Z) (p : Hash) (snaps : gmap Z (Z * St)) (ord : list Hash) (checked : nat)
  : gmap Z (Z * St) * list Hash :=
  match rounds with
  | O => (snaps, ord)
  | S n =>
      if (Z.of_nat (size snaps) >=? limit) && (checked <? length ord)%nat then
        match ord with
        | [] => (snaps, ord)
        | oldest :: rest =>
            if is_protected p oldest then evict_loop n limit p snaps (rest ++ [oldest]) (S checked)
            else evict_loop n limit p (delete oldest snaps) rest 0
        end
      else (snaps, ord)
  end.

Definition cache_put (blockHash : Hash) (blockNumber : Z) (st : St) (c : stateCache St) : stateCache St :=
  match snapshots c !! blockHash with
  | Some _ => c
  | None =>
      let '(snaps, ord) := evict_loop ((length (order c) + 1) * (length (order c) + 1)) (maxSize c) (protected c)
                             (snapshots c) (order c) 0 in
      mkStateCache (maxSize c) (<[blockHash := (blockNumber, Dup st)]> snaps) (ord ++ [blockHash]) (protected c)
  end.

(** The first occurrence is removed. *)
Fixpoint remove_first (h : Hash) (l : list Hash) : list Hash :=
  match l with [] => [] | x :: rest => if x =? h then rest else x :: remove_first h rest end.

Definition cache_remove (blockHash : Hash) (c : stateCache St) : stateCache St :=
  mkStateCache (maxSize c) (delete blockHash (snapshots c)) (remove_first blockHash (order c)) (protected c).

Definition cache_clear (c : stateCache St) : stateCache St :=
  if negb (protected c =? 0) then
    match snapshots c !! protected c with
    | Some entry => mkStateCache (maxSize c) {[protected c := entry]} [protected c] (protected c)
    | None => mkStateCache (maxSize c) ∅ [] (protected c)
    end
  else mkStateCache (maxSize c) ∅ [] (protected c).

Definition cache_protect (blockHash : Hash) (c : stateCache St) : stateCache St :=
  mkStateCache (maxSize c) (snapshots c) (order c) blockHash.

(** ** Well-formed caches: [order] lists the snapshots, each once *)

Record cache_ok (c : stateCache St) : Prop := {
  co_nodup : NoDup (order c);
  co_dom : forall h, h ∈ order c <-> is_Some (snapshots c !! h);
}.

Lemma size_order (c : stateCache St) : cache_ok c -> size (snapshots c) = length (order c).
Proof.
  intros [H1 H2]. rewrite <- size_dom.
  assert (dom (snapshots c) = list_to_set (order c)) as ->.
  { apply set_eq. intros h. by rewrite elem_of_dom, elem_of_list_to_set, H2. }
  by apply size_list_to_set.
Qed.

(** The loop state is well formed, and the loop stops with the condition
    false; a protected entry stays. *)
Lemma evict_loop_ok rounds limit p snaps ord checked snaps' ord' :
  evict_loop rounds limit p snaps ord checked = (snaps', ord') ->
  NoDup ord -> (forall h, h ∈ ord <-> is_Some (snaps !! h)) ->
  (length ord * (length ord + 1) + (length ord - checked) < rounds)%nat -> (checked <= 1)%nat ->
  (checked = 1%nat -> p <> 0 /\ last ord = Some p) ->
  NoDup ord' /\ (forall h, h ∈ ord' <-> is_Some (snaps' !! h)) /\
  (forall h, is_Some (snaps' !! h) -> snaps' !! h = snaps !! h) /\
  (p <> 0 -> snaps' !! p = snaps !! p) /\
  (Z.of_nat (length ord') < limit \/ (length ord' <= 1)%nat) /\ (length ord' <= length ord)%nat.
Proof.
  revert snaps ord checked. induction rounds as [|n IH]; intros snaps ord checked E HN HD Hf Hc Hl; [lia|].
  cbn [evict_loop] in E.
  assert (size snaps = length ord) as HS by (by apply (size_order (mkStateCache limit snaps ord p))).
  rewrite HS in E. destruct (Z.geb_spec (Z.of_nat (length ord)) limit) as [Hge|Hlt]; simpl andb in E.
  2:{ injection E as <- <-. split_and!; try done. by left. }
  destruct (Nat.ltb_spec checked (length ord)) as [Hck|Hck].
  2:{ injection E as <- <-. split_and!; try done. right. lia. }
  destruct ord as [|oldest rest]; [simpl in Hck; lia|]. apply NoDup_cons in HN as [Hno HN].
  unfold is_protected in E. destruct (Z.eqb_spec p 0) as [Hp0|Hp0], (Z.eqb_spec oldest p) as [Hop|Hop]; simpl in E.
  all: try match type of E with evict_loop _ _ _ (delete _ _) _ _ = _ =>
    apply IH in E as (A1 & A2 & A3 & A4 & A5 & A6);
      [split_and!; [done|done| | |done|simpl; lia]|done| |simpl in *; lia|lia|done];
      [ intros h Hh; rewrite (A3 h Hh); specialize (A3 h Hh); rewrite A3 in Hh;
        apply lookup_delete_is_Some in Hh as [Hne _]; by rewrite lookup_delete_ne
      | intros Hp; rewrite (A4 Hp); rewrite lookup_delete_ne; congruence
      | intros h; rewrite lookup_delete_is_Some, <- HD, elem_of_cons; split;
          [intros Hin; split; [intros ->; contradiction|by right]|intros [Hne [->|Hin]]; congruence] ] end.
  (* rotation of the protected entry *)
  subst oldest. destruct checked as [|k].
  - apply IH in E as (A1 & A2 & A3 & A4 & A5 & A6).
    + rewrite length_app in A6. simpl in *. split_and!; try done. lia.
    + apply NoDup_app. split; [done|]. split; [|apply NoDup_singleton].
      intros x Hx ->%list_elem_of_singleton. contradiction.
    + intros h. rewrite <- HD, elem_of_app, list_elem_of_singleton, elem_of_cons. tauto.
    + rewrite length_app. simpl in *. lia.
    + lia.
    + intros _. split; [done|]. by rewrite last_snoc.
  - assert (k = 0)%nat as -> by lia. destruct (Hl eq_refl) as [_ Hlast].
    destruct rest as [|r rest] using rev_ind; [simpl in Hck; lia|].
    rewrite app_comm_cons, last_snoc in Hlast. injection Hlast as ->. exfalso. apply Hno, elem_of_app. right. by apply list_elem_of_singleton.
Qed.

Lemma cache_put_ok (c : stateCache St) h n st :
  cache_ok c ->
  let c' := cache_put h n st c in
  cache_ok c' /\ is_Some (snapshots c' !! h) /\
  (forall k, k <> h -> is_Some (snapshots c' !! k) -> snapshots c' !! k = snapshots c !! k) /\
  (snapshots c !! h = None -> snapshots c' !! h = Some (n, Dup st)) /\
  (protected c <> 0 -> is_Some (snapshots c !! protected c) -> snapshots c' !! protected c = snapshots c !! protected c) /\
  (Z.of_nat (size (snapshots c)) <= Z.max (maxSize c) 2 -> Z.of_nat (size (snapshots c')) <= Z.max (maxSize c) 2).
Proof.
  intros Hok. pose proof Hok as [HN HD]. unfold cache_put.
  destruct (snapshots c !! h) as [e|] eqn:Eh.
  { cbn zeta. rewrite Eh. by split_and!. }
  destruct (evict_loop _ _ _ _ _ _) as [snaps ord] eqn:E. cbn zeta. cbn [snapshots order protected].
  apply evict_loop_ok in E as (A1 & A2 & A3 & A4 & A5 & A6); [|done|done|lia|lia|lia].
  assert (h ∉ ord) as Hnew.
  { intros Hin. apply A2 in Hin as Hs. rewrite (A3 _ Hs), Eh in Hs. by destruct Hs. }
  assert (cache_ok (mkStateCache (maxSize c) (<[h:=(n, Dup st)]> snaps) (ord ++ [h]) (protected c))) as Hok'.
  { split; cbn [order snapshots].
    - apply NoDup_app. split; [done|]. split; [|apply NoDup_singleton]. intros x Hx ->%list_elem_of_singleton. contradiction.
    - intros k. rewrite elem_of_app, list_elem_of_singleton, A2, lookup_insert_is_Some.
      destruct (decide (h = k)) as [->|]; [tauto|]. split; [intros [?| ->]; tauto|tauto]. }
  split_and!; [done| | | | |].
  - rewrite lookup_insert_eq. by eexists.
  - intros k Hk. rewrite lookup_insert_ne by done. apply A3.
  - intros _. apply lookup_insert_eq.
  - intros Hp Hs. rewrite lookup_insert_ne; [by apply A4|]. intros ->. rewrite Eh in Hs. by destruct Hs.
  - intros _. apply size_order in Hok'. cbn [order snapshots] in Hok'. rewrite Hok', length_app. simpl. lia.
Qed.

Lemma cache_clear_ok (c : stateCache St) : cache_ok c -> cache_ok (cache_clear c).
Proof.
  intros _. unfold cache_clear. destruct (negb (protected c =? 0)).
  2:{ split; cbn [order snapshots]; [constructor|]. intros h. rewrite lookup_empty. split; [by intros ?%elem_of_nil|by intros []]. }
  destruct (snapshots c !! protected c); split; cbn [order snapshots].
  - apply NoDup_singleton.
  - intros h. rewrite list_elem_of_singleton. destruct (decide (h = protected c)) as [->|Hne].
    + rewrite lookup_singleton_eq. split; [by eexists|done].
    + rewrite lookup_singleton_ne by done. split; [done|by intros []].
  - constructor.
  - intros h. rewrite lookup_empty. split; [by intros ?%elem_of_nil|by intros []].
Qed.

Lemma new_cache_ok size : cache_ok (newStateCache size).
Proof.
  split; cbn [order snapshots newStateCache]; [constructor|]. intros h. rewrite lookup_empty.
  split; [by intros ?%elem_of_nil|by intros []].
Qed.

End StateCache.
