(* ===== verification/Chain.v ===== *)
(** * Chain: the block chain

    core/chain/blockchain.go over the database of RawDB, the header chain, the
    state caches and block execution: insertion, rewinding, reorganisation,
    states of past blocks, and the queries.  Operations are atomic; the state
    database is an interface; no ancient store is wired and the state is kept
    in memory ([gcMode] is empty). *)

From stdpp Require Import gmap.
From S2P Require Import Prelude Rlp StateDB Transactions Machine ChainConfig Blocks Receipts BlockProcessor.
From S2P Require Import Trie RawDB BlockStore Validator HeaderChain StateCache.
Local Open Scope Z_scope.
Local Open Scope go_scope.

(** ** What the chain needs of a state database and of block execution *)

Class ChainState (St : Type) := {
  (** [statedb.Dup()] and [Copy()] *)
  cs_Dup : St -> St;
  (** [processor.ProcessWithBAL(block, statedb)], with the block hashes that
      [BLOCKHASH] reads. *)
  cs_Process : (Z -> Hash) -> Block -> M St (block_error + ProcessResult);
  (** [ProcessRequests(config, statedb, header)]: the state it leaves. *)
  cs_Requests : Header -> St -> St;
  (** [statedb.GetRoot()] and [statedb.Commit()] *)
  cs_GetRoot : St -> out unit Hash;
  cs_Commit : St -> St;
}.

(** Copies and commits keep the root. *)
Class ChainStateLaws (St : Type) `{ChainState St} := {
  root_Dup : forall st, cs_GetRoot (cs_Dup st) = cs_GetRoot st;
  root_Commit : forall st, cs_GetRoot (cs_Commit st) = cs_GetRoot st;
}.

(** ** State *)

Record BlockchainOpts := mkOpts {
  BlockCacheSize : Z;
  ReceiptCacheSize : Z;
  StateCacheSize : Z;
}.

Definition defaultBlockCacheSize : Z := 256.
Definition defaultReceiptCacheSize : Z := 128.

Record TxLookupEntry := mkTxLookup {
  tl_BlockHash : Hash;
  tl_BlockNumber : Z;
  tl_TxIndex : Z;
}.

Inductive chain_error :=
  | ErrValidator (e : validator_error)
  | ErrReexecute (number : Z) (e : block_error)
  | ErrProcess (number : Z) (e : block_error)
  | ErrInvalidGasUsedTotal
  | ErrInvalidReceiptRoot
  | ErrInvalidBloom
  | ErrInvalidStateRoot
  | ErrBlockNotFound
  | ErrStateNotFound
  | ErrNoGenesis.

(** [currentBlock] and the finalized and safe blocks are pointers. *)
Record Blockchain (St : Type) := mkBlockchain {
  bc_db : Database;
  bc_hc : HeaderChain;
  bc_opts : BlockchainOpts;
  blockCache : gmap Z Block;
  blockCacheOrder : list Hash;
  canonCache : gmap Z Hash;
  receiptCache : gmap Z (list placedReceipt);
  receiptCacheOrder : list Hash;
  txLookup : gmap Z TxLookupEntry;
  bc_sc : stateCache St;
  bc_memSC : stateCache St;
  genesisState : St;
  execGenesisState : St;
  currentState : St;
  bc_genesis : Block;
  currentBlock : option Block;
  currentFinalBlock : option Block;
  currentSafeBlock : option Block;
}.
Arguments mkBlockchain {St}.
Arguments bc_db {St} _.
Arguments bc_hc {St} _.
Arguments bc_opts {St} _.
Arguments blockCache {St} _.
Arguments blockCacheOrder {St} _.
Arguments canonCache {St} _.
Arguments receiptCache {St} _.
Arguments receiptCacheOrder {St} _.
Arguments txLookup {St} _.
Arguments bc_sc {St} _.
Arguments bc_memSC {St} _.
Arguments genesisState {St} _.
Arguments execGenesisState {St} _.
Arguments currentState {St} _.
Arguments bc_genesis {St} _.
Arguments currentBlock {St} _.
Arguments currentFinalBlock {St} _.
Arguments currentSafeBlock {St} _.

Definition with_db {St : Type} (x : Database) (bc : Blockchain St) : Blockchain St :=
  mkBlockchain x (bc_hc bc) (bc_opts bc) (blockCache bc) (blockCacheOrder bc) (canonCache bc) (receiptCache
    bc) (receiptCacheOrder bc) (txLookup bc) (bc_sc bc) (bc_memSC bc) (genesisState bc) (execGenesisState
    bc) (currentState bc) (bc_genesis bc) (currentBlock bc) (currentFinalBlock bc) (currentSafeBlock bc).
Definition with_hc {St : Type} (x : HeaderChain) (bc : Blockchain St) : Blockchain St :=
  mkBlockchain (bc_db bc) x (bc_opts bc) (blockCache bc) (blockCacheOrder bc) (canonCache bc) (receiptCache
    bc) (receiptCacheOrder bc) (txLookup bc) (bc_sc bc) (bc_memSC bc) (genesisState bc) (execGenesisState
    bc) (currentState bc) (bc_genesis bc) (currentBlock bc) (currentFinalBlock bc) (currentSafeBlock bc).
Definition with_blockCache {St : Type} (x : gmap Z Block) (bc : Blockchain St) : Blockchain St :=
  mkBlockchain (bc_db bc) (bc_hc bc) (bc_opts bc) x (blockCacheOrder bc) (canonCache bc) (receiptCache bc)
    (receiptCacheOrder bc) (txLookup bc) (bc_sc bc) (bc_memSC bc) (genesisState bc) (execGenesisState bc)
    (currentState bc) (bc_genesis bc) (currentBlock bc) (currentFinalBlock bc) (currentSafeBlock bc).
Definition with_blockCacheOrder {St : Type} (x : list Hash) (bc : Blockchain St) : Blockchain St :=
  mkBlockchain (bc_db bc) (bc_hc bc) (bc_opts bc) (blockCache bc) x (canonCache bc) (receiptCache bc)
    (receiptCacheOrder bc) (txLookup bc) (bc_sc bc) (bc_memSC bc) (genesisState bc) (execGenesisState bc)
    (currentState bc) (bc_genesis bc) (currentBlock bc) (currentFinalBlock bc) (currentSafeBlock bc).
Definition with_canonCache {St : Type} (x : gmap Z Hash) (bc : Blockchain St) : Blockchain St :=
  mkBlockchain (bc_db bc) (bc_hc bc) (bc_opts bc) (blockCache bc) (blockCacheOrder bc) x (receiptCache bc)
    (receiptCacheOrder bc) (txLookup bc) (bc_sc bc) (bc_memSC bc) (genesisState bc) (execGenesisState bc)
    (currentState bc) (bc_genesis bc) (currentBlock bc) (currentFinalBlock bc) (currentSafeBlock bc).
Definition with_receiptCache {St : Type} (x : gmap Z (list placedReceipt)) (bc : Blockchain St) : Blockchain St :=
  mkBlockchain (bc_db bc) (bc_hc bc) (bc_opts bc) (blockCache bc) (blockCacheOrder bc) (canonCache bc) x
    (receiptCacheOrder bc) (txLookup bc) (bc_sc bc) (bc_memSC bc) (genesisState bc) (execGenesisState bc)
    (currentState bc) (bc_genesis bc) (currentBlock bc) (currentFinalBlock bc) (currentSafeBlock bc).
Definition with_receiptCacheOrder {St : Type} (x : list Hash) (bc : Blockchain St) : Blockchain St :=
  mkBlockchain (bc_db bc) (bc_hc bc) (bc_opts bc) (blockCache bc) (blockCacheOrder bc) (canonCache bc)
    (receiptCache bc) x (txLookup bc) (bc_sc bc) (bc_memSC bc) (genesisState bc) (execGenesisState bc)
    (currentState bc) (bc_genesis bc) (currentBlock bc) (currentFinalBlock bc) (currentSafeBlock bc).
Definition with_txLookup {St : Type} (x : gmap Z TxLookupEntry) (bc : Blockchain St) : Blockchain St :=
  mkBlockchain (bc_db bc) (bc_hc bc) (bc_opts bc) (blockCache bc) (blockCacheOrder bc) (canonCache bc)
    (receiptCache bc) (receiptCacheOrder bc) x (bc_sc bc) (bc_memSC bc) (genesisState bc) (execGenesisState
    bc) (currentState bc) (bc_genesis bc) (currentBlock bc) (currentFinalBlock bc) (currentSafeBlock bc).
Definition with_sc {St : Type} (x : stateCache St) (bc : Blockchain St) : Blockchain St :=
  mkBlockchain (bc_db bc) (bc_hc bc) (bc_opts bc) (blockCache bc) (blockCacheOrder bc) (canonCache bc)
    (receiptCache bc) (receiptCacheOrder bc) (txLookup bc) x (bc_memSC bc) (genesisState bc)
    (execGenesisState bc) (currentState bc) (bc_genesis bc) (currentBlock bc) (currentFinalBlock bc)
    (currentSafeBlock bc).
Definition with_memSC {St : Type} (x : stateCache St) (bc : Blockchain St) : Blockchain St :=
  mkBlockchain (bc_db bc) (bc_hc bc) (bc_opts bc) (blockCache bc) (blockCacheOrder bc) (canonCache bc)
    (receiptCache bc) (receiptCacheOrder bc) (txLookup bc) (bc_sc bc) x (genesisState bc) (execGenesisState
    bc) (currentState bc) (bc_genesis bc) (currentBlock bc) (currentFinalBlock bc) (currentSafeBlock bc).
Definition with_currentState {St : Type} (x : St) (bc : Blockchain St) : Blockchain St :=
  mkBlockchain (bc_db bc) (bc_hc bc) (bc_opts bc) (blockCache bc) (blockCacheOrder bc) (canonCache bc)
    (receiptCache bc) (receiptCacheOrder bc) (txLookup bc) (bc_sc bc) (bc_memSC bc) (genesisState bc)
    (execGenesisState bc) x (bc_genesis bc) (currentBlock bc) (currentFinalBlock bc) (currentSafeBlock bc).
Definition with_currentBlock {St : Type} (x : option Block) (bc : Blockchain St) : Blockchain St :=
  mkBlockchain (bc_db bc) (bc_hc bc) (bc_opts bc) (blockCache bc) (blockCacheOrder bc) (canonCache bc)
    (receiptCache bc) (receiptCacheOrder bc) (txLookup bc) (bc_sc bc) (bc_memSC bc) (genesisState bc)
    (execGenesisState bc) (currentState bc) (bc_genesis bc) x (currentFinalBlock bc) (currentSafeBlock bc).
Definition with_currentFinalBlock {St : Type} (x : option Block) (bc : Blockchain St) : Blockchain St :=
  mkBlockchain (bc_db bc) (bc_hc bc) (bc_opts bc) (blockCache bc) (blockCacheOrder bc) (canonCache bc)
    (receiptCache bc) (receiptCacheOrder bc) (txLookup bc) (bc_sc bc) (bc_memSC bc) (genesisState bc)
    (execGenesisState bc) (currentState bc) (bc_genesis bc) (currentBlock bc) x (currentSafeBlock bc).
Definition with_currentSafeBlock {St : Type} (x : option Block) (bc : Blockchain St) : Blockchain St :=
  mkBlockchain (bc_db bc) (bc_hc bc) (bc_opts bc) (blockCache bc) (blockCacheOrder bc) (canonCache bc)
    (receiptCache bc) (receiptCacheOrder bc) (txLookup bc) (bc_sc bc) (bc_memSC bc) (genesisState bc)
    (execGenesisState bc) (currentState bc) (bc_genesis bc) (currentBlock bc) (currentFinalBlock bc) x.

Section Chain.

Context {St : Type} `{ChainState St}.
Context (keccak256 : bytes -> bytes) (eip7706 : bool) (fuel : nat) (config : ChainConfig).

Abbreviation C := (M (Blockchain St)).
Abbreviation Block_Hash := (Block_Hash keccak256 eip7706).
Abbreviation cache_get := (cache_get cs_Dup).
Abbreviation cache_put := (cache_put cs_Dup).

Definition ereturn {A} (e : chain_error) : C (chain_error + A) := gret (inl e).

Definition ebind {A B} (m : C (chain_error + A)) (k : A -> C (chain_error + B)) : C (chain_error + B) :=
  let! r := m in match r with inl e => gret (inl e) | inr a => k a end.

Notation "'let?' x := m 'in' k" := (ebind m (fun x => k))
  (at level 10, x name, m at level 100, k at level 200) : go_scope.

(** *** Results of the components *)

Definition of_tres {A} (r : tres (option A)) : C (option A) := fun bc =>
  match r with
  | TOk a => Ok a bc
  | TErr => Ok None bc
  | TPanic => Panic PSlice
  | TFuel => Fuel
  end.

Definition of_vres (r : vres) : C (chain_error + unit) := fun bc =>
  match r with
  | VOk => Ok (inr tt) bc
  | VErr e => Ok (inl (ErrValidator e)) bc
  | VPanic => Panic PNil
  | VFuel => Fuel
  end.

Definition of_trie {A} (r : trieRes A) : C A := fun bc =>
  match r with
  | TDone a => Ok a bc
  | TFail _ | TCrash => Panic PSlice
  | TLoop => Fuel
  end.

Definition of_out {A} (r : out unit A) : C A := fun bc =>
  match r with
  | Ok a _ => Ok a bc
  | Err e b _ => Err e b bc
  | Panic p => Panic p
  | Fuel => Fuel
  end.

Definition ereject (bad : bool) (e : chain_error) : C (chain_error + unit) :=
  gret (if bad then inl e else inr tt).

(** The head block; [None] is a nil pointer. *)
Definition head : C Block := let! bc := gget in gopt PNil (currentBlock bc).

(** *** Queries *)

Definition GetHashFn (bc : Blockchain St) (number : Z) : Hash := default 0 (canonCache bc !! number).

Definition chain_readBlock (hash : Hash) : C (option Block) :=
  let! bc := gget in of_tres (readBlock eip7706 fuel (bc_db bc) hash).

Definition GetBlock (hash : Hash) : C (option Block) :=
  let! bc := gget in
  match blockCache bc !! hash with
  | Some b => gret (Some b)
  | None => chain_readBlock hash
  end.

Definition GetBlockByNumber (number : Z) : C (option Block) :=
  let! bc := gget in
  match canonCache bc !! number with
  | Some hash => GetBlock hash
  | None =>
      match ReadCanonicalHash (bc_db bc) number with
      | Some hash => GetBlock hash
      | None => gret None
      end
  end.

Definition HasBlock (hash : Hash) (bc : Blockchain St) : bool :=
  bool_decide (is_Some (blockCache bc !! hash)) || bool_decide (is_Some (ReadHeaderNumber (bc_db bc) hash)).

Definition isGenesis (bc : Blockchain St) (b : Block) : bool := Block_Hash b =? Block_Hash (bc_genesis bc).

Definition HasStateCached (blockHash : Hash) (bc : Blockchain St) : bool :=
  (blockHash =? Block_Hash (bc_genesis bc)) || bool_decide (is_Some (snapshots (bc_sc bc) !! blockHash)).

Definition ChainLength : C Z := let! b := head in gret (NumberU64 b +u 1).

(** *** States of past blocks *)

(** The cached state of a block: the hot cache, then the permanent one. *)
Definition cached_state (bc : Blockchain St) (hash : Hash) : option St :=
  match cache_get hash (bc_sc bc) with
  | Some s => Some s
  | None => cache_get hash (bc_memSC bc)
  end.

(** Walk from [current] to a block whose parent state is cached, to genesis or
    to a block that is not known: the blocks walked, the oldest first, and the
    state to start from, if one is cached.  [missing] tells an unknown parent. *)
Fixpoint collect (walk : nat) (current : Block) (chain : list Block) : C (list Block * option St * bool) :=
  let! bc := gget in
  if isGenesis bc current then gret (chain, None, false)
  else
    match cached_state bc (ParentHash current) with
    | Some cached => gret (current :: chain, Some (cs_Dup cached), false)
    | None =>
        match walk with
        | O => fun _ => Fuel
        | S n =>
            let! parent := GetBlock (ParentHash current) in
            match parent with
            | None => gret (current :: chain, None, true)
            | Some p => collect n p (current :: chain)
            end
        end
    end.

Definition collectAncestorsLocked (target : Block) : C (list Block * St) :=
  let! bc := gget in
  if isGenesis bc target then gret ([], cs_Dup (execGenesisState bc))
  else
    match cached_state bc (Block_Hash target) with
    | Some cached => gret ([], cs_Dup cached)
    | None =>
        let! r := collect fuel target [] in
        let '(chain, base, _) := r in
        gret (chain, default (cs_Dup (execGenesisState bc)) base)
    end.

(** [processor.Process(block, statedb)]: the state, in place. *)
Definition process (b : Block) (st : St) : C (block_error + (ProcessResult * St)) := fun bc =>
  match cs_Process (GetHashFn bc) b st with
  | Ok (inl e) _ => Ok (inl e) bc
  | Ok (inr r) st' => Ok (inr (r, st')) bc
  | Err e ret _ => Err e ret bc
  | Panic p => Panic p
  | Fuel => Fuel
  end.

Definition cache_states (b : Block) (st : St) : C unit :=
  gmodify (fun bc => with_memSC (cache_put (Block_Hash b) (NumberU64 b) st (bc_memSC bc))
                       (with_sc (cache_put (Block_Hash b) (NumberU64 b) st (bc_sc bc)) bc)).

(** Execute the blocks in the given order, caching the states or not. *)
Fixpoint reexecute (caching : bool) (chain : list Block) (st : St) : C (chain_error + St) :=
  match chain with
  | [] => gret (inr st)
  | b :: rest =>
      let! r := process b st in
      match r with
      | inl e => ereturn (ErrReexecute (NumberU64 b) e)
      | inr (_, st) =>
          do! (if caching then cache_states b st else gret tt) in
          reexecute caching rest st
      end
  end.

(** [stateAt]: an unknown ancestor is an error. *)
Definition stateAt (b : Block) : C (chain_error + St) :=
  let! bc := gget in
  if isGenesis bc b then gret (inr (cs_Dup (genesisState bc)))
  else
    match cache_get (Block_Hash b) (bc_sc bc) with
    | Some cached => gret (inr (cs_Dup cached))
    | None =>
        let! r := collect fuel b [] in
        match r with
        | (_, _, true) => ereturn ErrStateNotFound
        | (chain, base, false) => reexecute true chain (default (cs_Dup (execGenesisState bc)) base)
        end
    end.

(** [StateAtBlock]: an unknown ancestor is ignored. *)
Definition StateAtBlock (b : Block) : C (chain_error + St) :=
  let! bc := gget in
  if isGenesis bc b then gret (inr (cs_Dup (genesisState bc)))
  else
    match cached_state bc (Block_Hash b) with
    | Some cached => gret (inr cached)
    | None =>
        let! r := collect fuel b [] in
        let '(chain, base, _) := r in
        let? st := reexecute true chain (default (cs_Dup (execGenesisState bc)) base) in
        gret (inr (cs_Dup st))
    end.

(** The blocks to re-execute, at most [threshold] of them. *)
Fixpoint quick_walk (walk : nat) (threshold depth : Z) (current : Block) : C bool :=
  let! bc := gget in
  if isGenesis bc current then gret (depth <? threshold)
  else
    match cached_state bc (ParentHash current) with
    | Some _ => gret (depth <? threshold)
    | None =>
        if depth + 1 >? threshold then gret false
        else
          match walk with
          | O => fun _ => Fuel
          | S n =>
              let! parent := GetBlock (ParentHash current) in
              match parent with
              | None => gret false
              | Some p => quick_walk n threshold (depth + 1) p
              end
          end
    end.

Definition CanQuicklyGetState (b : option Block) (threshold : Z) : C bool :=
  match b with
  | None => gret false
  | Some b =>
      let! bc := gget in
      if isGenesis bc b || bool_decide (is_Some (cached_state bc (Block_Hash b))) then gret true
      else quick_walk fuel threshold 0 b
  end.

(** The map of blocks is searched in an arbitrary [order]. *)
Definition StateAtRoot (order : list Hash) (root : Hash) : C (chain_error + St) :=
  let! hd := head in
  let! bc := gget in
  if h_Root (blk_header hd) =? root then gret (inr (cs_Dup (currentState bc)))
  else if h_Root (blk_header (bc_genesis bc)) =? root then gret (inr (cs_Dup (genesisState bc)))
  else
    let blocks := omap (fun h => blockCache bc !! h) order in
    match List.find (fun b => h_Root (blk_header b) =? root) blocks with
    | None => ereturn ErrStateNotFound
    | Some b => StateAtBlock b
    end.

(** *** Insertion *)

(** The parent, from the cache or from the database; the latter is cached. *)
Definition findParent (hash : Hash) : C (option Block) :=
  let! bc := gget in
  match blockCache bc !! hash with
  | Some p => gret (Some p)
  | None =>
      let! p := chain_readBlock hash in
      match p with
      | None => gret None
      | Some p => do! gmodify (with_blockCache (<[hash := p]> (blockCache bc))) in gret (Some p)
      end
  end.

(** The gas that must be in the header: before refunds under Glamsterdam. *)
Definition totalGasUsed (header : Header) (receipts : list Receipt) : Z :=
  let isGlamsterdan := cfg_IsGlamsterdan config (h_Time header) in
  fold_left (fun g r => if isGlamsterdan && (rc_BlockGasUsed r >? 0) then g +u rc_BlockGasUsed r
                        else g +u rc_GasUsed r) receipts 0.

(** Execute the block and compare the results with the header. *)
Definition executeAndCheck (b : Block) (st : St) : C (chain_error + (list Receipt * St)) :=
  let header := block_Header b in
  let! r := process b st in
  match r with
  | inl e => ereturn (ErrProcess (NumberU64 b) e)
  | inr (result, st) =>
      let receipts := Receipts result in
      let? _ := ereject (negb (h_GasUsed header =? totalGasUsed header receipts)) ErrInvalidGasUsedTotal in
      let! root := of_trie (computeReceiptsRoot keccak256 receipts) in
      let? _ := ereject (negb (h_ReceiptHash header =? root)) ErrInvalidReceiptRoot in
      let? _ := ereject (negb (h_Bloom header =? CreateBloom receipts)) ErrInvalidBloom in
      let st := if cfg_IsPrague config (h_Time header) then cs_Requests header st else st in
      let! stateRoot := of_out (cs_GetRoot st) in
      let? _ := ereject (negb (h_Root header =? stateRoot)) ErrInvalidStateRoot in
      let? _ := of_vres (ValidateBlockAccessList config header (bal_Hash keccak256 <$> BlockAccessList result)) in
      gret (inr (receipts, st))
  end.

Definition chain_write (f : Database -> option Database) : C unit :=
  let! bc := gget in
  let! db := gopt PSlice (f (bc_db bc)) in
  gmodify (with_db db).

Definition chain_writeBlock (b : Block) : C unit := chain_write (writeBlock keccak256 eip7706 b).

(** Persist the results: the state, the block, and for a canonical block its
    receipts, lookups, number and the head pointers. *)
Definition persist (isCanonical : bool) (b : Block) (receipts : list Receipt) (st : St) : C St :=
  let hash := Block_Hash b in
  let num := NumberU64 b in
  if isCanonical then
    let st := cs_Commit st in
    do! cache_states b st in
    do! gmodify (fun bc => with_memSC (cache_protect hash (bc_memSC bc)) (with_sc (cache_protect hash (bc_sc bc)) bc)) in
    do! chain_writeBlock b in
    do! chain_write (writeReceipts num hash receipts) in
    do! gmodify (fun bc =>
          let db := writeTxLookups keccak256 (block_Transactions b) num (bc_db bc) in
          let db := WriteCanonicalHash num hash db in
          with_db (WriteHeadHeaderHash hash (WriteHeadBlockHash hash db)) bc) in
    gret st
  else
    do! cache_states b st in
    do! chain_writeBlock b in
    gret st.

(** Make room in the cache of receipts; the loop ends when nothing is left. *)
Fixpoint evict_receipts (limit : Z) (cache : gmap Z (list placedReceipt)) (ord : list Hash)
  : gmap Z (list placedReceipt) * list Hash :=
  if Z.of_nat (size cache) >=? limit then
    match ord with
    | [] => (cache, [])
    | oldest :: rest => evict_receipts limit (delete oldest cache) rest
    end
  else (cache, ord).

Definition cache_receipts (hash : Hash) (receipts : list placedReceipt) : C unit :=
  gmodify (fun bc =>
    let '(cache, ord) := evict_receipts (ReceiptCacheSize (bc_opts bc)) (receiptCache bc) (receiptCacheOrder bc) in
    with_receiptCacheOrder (ord ++ [hash]) (with_receiptCache (<[hash := receipts]> cache) bc)).

Definition forget_txs (txs : list Transaction) (m : gmap Z TxLookupEntry) : gmap Z TxLookupEntry :=
  fold_left (fun m tx => delete (tx_Hash keccak256 (inner tx)) m) txs m.

(** [for len(bc.blockCache) >= limit { bc.evictOldestBlock() }]: with nothing
    left to evict the loop does not end, [None]. *)
Fixpoint evict_blocks (limit : Z) (cache : gmap Z Block) (ord : list Hash) (txl : gmap Z TxLookupEntry)
  : option (gmap Z Block * list Hash * gmap Z TxLookupEntry) :=
  if Z.of_nat (size cache) >=? limit then
    match ord with
    | [] => None
    | oldest :: rest =>
        match cache !! oldest with
        | Some b => evict_blocks limit (delete oldest cache) rest (forget_txs (block_Transactions b) txl)
        | None => evict_blocks limit cache rest txl
        end
    end
  else Some (cache, ord, txl).

Definition index_txs (hash : Hash) (num : Z) (txs : list Transaction) (m : gmap Z TxLookupEntry) : gmap Z TxLookupEntry :=
  (foldl (fun '(i, m) tx => (i + 1, <[tx_Hash keccak256 (inner tx) := mkTxLookup hash num i]> m)) (0, m) txs).2.

(** Store the block in the caches and, for a canonical block, move the head;
    the result of [InsertHeaders] is ignored. *)
Definition publish (isCanonical : bool) (b : Block) (st : St) : C unit :=
  let hash := Block_Hash b in
  let num := NumberU64 b in
  let! bc := gget in
  match evict_blocks (BlockCacheSize (bc_opts bc)) (blockCache bc) (blockCacheOrder bc) (txLookup bc) with
  | None => fun _ => Fuel
  | Some (cache, ord, txl) =>
      do! gmodify (fun bc => with_txLookup (index_txs hash num (block_Transactions b) txl)
                     (with_blockCacheOrder (ord ++ [hash]) (with_blockCache (<[hash := b]> cache) bc))) in
      if isCanonical then
        do! gmodify (fun bc => with_currentState st (with_currentBlock (Some b)
                                 (with_canonCache (<[num := hash]> (canonCache bc)) bc))) in
        let! bc := gget in
        let! r := gopt PNil (InsertHeaders keccak256 eip7706 config [block_Header b] (bc_hc bc)) in
        gmodify (with_hc r.2)
      else gret tt
  end.

(** Everything after the checks of the block itself. *)
Definition insertChecked (b parent : Block) : C (chain_error + unit) :=
  let hash := Block_Hash b in
  let num := NumberU64 b in
  let! anc := collectAncestorsLocked parent in
  let! hd := head in
  let headNum := NumberU64 hd in
  let? st := reexecute false anc.1 anc.2 in
  let? res := executeAndCheck b st in
  let '(receipts, st) := res in
  let isCanonical := num >? headNum in
  let! st := persist isCanonical b receipts st in
  do! cache_receipts hash (deriveReceipts keccak256 num hash (block_Transactions b) 0 0 receipts) in
  do! publish isCanonical b st in
  gret (inr tt).

(** [InsertBlock]; [insertMu] makes the phases of one call follow each other. *)
Definition InsertBlock (b : Block) : C (chain_error + unit) :=
  let header := block_Header b in
  let! bc := gget in
  match blockCache bc !! Block_Hash b with
  | Some _ => gret (inr tt)
  | None =>
      let! parent := findParent (h_ParentHash header) in
      match parent with
      | None => ereturn (ErrValidator ErrUnknownParent)
      | Some parent =>
          let? _ := of_vres (ValidateHeader keccak256 eip7706 config header (block_Header parent)) in
          let? _ := of_vres (ValidateBody keccak256 config b) in
          insertChecked b parent
      end
  end.

(** The number of blocks inserted, and the error. *)
Fixpoint InsertChain (blocks : list Block) : C (nat * option chain_error) :=
  match blocks with
  | [] => gret (0%nat, None)
  | b :: rest =>
      let! r := InsertBlock b in
      match r with
      | inl e => gret (0%nat, Some e)
      | inr _ => let! r := InsertChain rest in gret (S r.1, r.2)
      end
  end.

(** *** Rewinding *)

(** Remove the canonical entries [number + 1 .. number + n], the highest
    first, and the blocks they name. *)
Fixpoint drop_canonical (number : Z) (n : nat) (bc : Blockchain St) : Blockchain St :=
  match n with
  | O => bc
  | S m =>
      let num := number + Z.of_nat n in
      let bc := match canonCache bc !! num with
                | Some hash =>
                    with_blockCache (delete hash (blockCache bc))
                      (with_canonCache (delete num (canonCache bc))
                        (with_db (DeleteCanonicalHash num (bc_db bc)) bc))
                | None => bc
                end in
      drop_canonical number m bc
  end.

Definition SetHead (number : Z) : C (chain_error + unit) :=
  let! hd := head in
  let! bc := gget in
  match canonCache bc !! number with
  | None => ereturn ErrBlockNotFound
  | Some target =>
      do! gmodify (drop_canonical number (Z.to_nat (NumberU64 hd - number))) in
      do! gmodify (fun bc => with_currentBlock (blockCache bc !! target) bc) in
      let! hd := head in
      let? st := stateAt hd in
      do! gmodify (with_currentState st) in
      let hash := Block_Hash hd in
      do! gmodify (fun bc => with_db (WriteHeadHeaderHash hash (WriteHeadBlockHash hash (bc_db bc))) bc) in
      let! bc := gget in
      let! hc := gopt PNil (hc_SetHead keccak256 eip7706 number (bc_hc bc)) in
      do! gmodify (with_hc hc) in
      gret (inr tt)
  end.

(** *** Reorganisation *)

(** Walk from [current] to genesis; every block met is cached.  The blocks
    above genesis, the lowest first; [None] when an ancestor is missing. *)
Fixpoint reorg_walk (walk : nat) (current : Block) (newChain : list Block) : C (option (list Block)) :=
  do! gmodify (fun bc => match blockCache bc !! Block_Hash current with
                         | Some _ => bc
                         | None => with_blockCache (<[Block_Hash current := current]> (blockCache bc)) bc
                         end) in
  if NumberU64 current =? 0 then gret (Some newChain)
  else
    match walk with
    | O => fun _ => Fuel
    | S n =>
        let! parent := findParent (ParentHash current) in
        match parent with
        | None => gret None
        | Some p => reorg_walk n p (current :: newChain)
        end
    end.

(** Forget the canonical block [num]: its number, its header and the lookups of
    its transactions. *)
Definition unindex (num : Z) (bc : Blockchain St) : Blockchain St :=
  match canonCache bc !! num with
  | None => bc
  | Some hash =>
      let bc := with_canonCache (delete num (canonCache bc)) bc in
      let bc := with_db (DeleteCanonicalHash num (bc_db bc)) bc in
      let hc := bc_hc bc in
      let bc := match headers hc !! num with
                | Some h => with_hc (mkHeaderChain (delete num (headers hc))
                                       (delete (Header_Hash keccak256 eip7706 h) (headersByHash hc)) (currentHeader hc)) bc
                | None => bc
                end in
      match blockCache bc !! hash with
      | Some orphan =>
          let txs := block_Transactions orphan in
          with_db (fold_left (fun db tx => DeleteTxLookup (tx_Hash keccak256 (inner tx)) db) txs (bc_db bc))
            (with_txLookup (forget_txs txs (txLookup bc)) bc)
      | None => bc
      end
  end.

(** Blocks [n, n - 1, .., 1]. *)
Fixpoint unindex_all (n : nat) (bc : Blockchain St) : Blockchain St :=
  match n with
  | O => bc
  | S m => unindex_all m (unindex (Z.of_nat n) bc)
  end.

Definition reindex (b : Block) : C unit :=
  let hash := Block_Hash b in
  let num := NumberU64 b in
  let txs := block_Transactions b in
  do! gmodify (fun bc => with_canonCache (<[num := hash]> (canonCache bc))
                           (with_blockCache (<[hash := b]> (blockCache bc)) bc)) in
  do! chain_writeBlock b in
  do! gmodify (fun bc => with_db (writeTxLookups keccak256 txs num (WriteCanonicalHash num hash (bc_db bc))) bc) in
  do! gmodify (fun bc => with_txLookup (index_txs hash num txs (txLookup bc)) bc) in
  let h := block_Header b in
  gmodify (fun bc => let hc := bc_hc bc in
    with_hc (mkHeaderChain (<[num := h]> (headers hc)) (<[Header_Hash keccak256 eip7706 h := h]> (headersByHash hc))
               (currentHeader hc)) bc).

Fixpoint reindex_all (blocks : list Block) : C unit :=
  match blocks with
  | [] => gret tt
  | b :: rest => do! reindex b in reindex_all rest
  end.

(** [reorg], under the lock: the blocks to re-execute and their base state. *)
Definition reorg (newHead : Block) : C (chain_error + (list Block * St)) :=
  let hash := Block_Hash newHead in
  let! hd := head in
  let! newChain := reorg_walk fuel newHead [] in
  match newChain with
  | None => ereturn ErrBlockNotFound
  | Some newChain =>
      let maxHeight := Z.max (NumberU64 hd) (NumberU64 newHead) in
      do! gmodify (unindex_all (Z.to_nat maxHeight)) in
      do! reindex_all newChain in
      do! gmodify (fun bc =>
            let hc := bc_hc bc in
            with_hc (mkHeaderChain (headers hc) (headersByHash hc) (block_Header newHead))
              (with_db (WriteHeadHeaderHash hash (WriteHeadBlockHash hash (bc_db bc)))
                (with_currentBlock (Some newHead) bc))) in
      do! gmodify (fun bc => with_memSC (cache_protect hash (bc_memSC bc))
                               (with_sc (cache_clear (cache_protect hash (bc_sc bc))) bc)) in
      let! anc := collectAncestorsLocked newHead in
      gret (inr anc)
  end.

(** [Reorg]: the chain, which is in execution order, is executed from its last
    block to its first. *)
Definition Reorg (newHead : Block) : C (chain_error + unit) :=
  let hash := Block_Hash newHead in
  let? anc := reorg newHead in
  let? st := reexecute true (rev anc.1) anc.2 in
  do! cache_states newHead st in
  do! gmodify (fun bc => with_currentState st
                 (with_memSC (cache_protect hash (bc_memSC bc)) (with_sc (cache_protect hash (bc_sc bc)) bc))) in
  gret (inr tt).

(** *** Finality, history, receipts, lookups *)

Definition SetFinalized (b : option Block) : C unit :=
  gmodify (fun bc => with_db (WriteFinalizedBlockHash (match b with Some b => Block_Hash b | None => 0 end) (bc_db bc))
                       (with_currentFinalBlock b bc)).

Definition SetSafe (b : option Block) : C unit := gmodify (with_currentSafeBlock b).

Definition HistoryOldestBlock (bc : Blockchain St) : Z := ReadHistoryOldest (bc_db bc).

(** The number of blocks pruned. *)
Definition chain_PruneHistory (retention : Z) : C Z :=
  let! bc := gget in
  match currentBlock bc with
  | None => gret 0
  | Some hd =>
      let '(pruned, _, db) := PruneHistory (NumberU64 hd) retention (bc_db bc) in
      do! gmodify (with_db db) in gret pruned
  end.

(** The receipts of a block that is not in the cache. *)
Definition storedReceipts (num : Z) (hash : Hash) : C (list placedReceipt) :=
  let! b := chain_readBlock hash in
  let txs := match b with Some b => block_Transactions b | None => [] end in
  let! bc := gget in
  let! r := of_tres (tbind (readReceiptsFromDB keccak256 fuel (bc_db bc) num hash txs) (fun r => TOk (Some r))) in
  gret (default [] r).

Definition GetReceipts (blockHash : Hash) : C (list placedReceipt) :=
  let! bc := gget in
  match receiptCache bc !! blockHash with
  | Some r => gret r
  | None =>
      match ReadHeaderNumber (bc_db bc) blockHash with
      | None => gret []
      | Some num => storedReceipts num blockHash
      end
  end.

(** The canonical hash comes from the database first. *)
Definition GetBlockReceipts (number : Z) : C (list placedReceipt) :=
  let! bc := gget in
  let hash := match ReadCanonicalHash (bc_db bc) number with
              | Some h => Some h
              | None => canonCache bc !! number
              end in
  match hash with
  | None => gret []
  | Some hash =>
      match receiptCache bc !! hash with
      | Some r => gret r
      | None => storedReceipts number hash
      end
  end.

Definition GetLogs (blockHash : Hash) : C (list placedLog) :=
  let! receipts := GetReceipts blockHash in
  gret (concat (map pr_logs receipts)).

(** The index of the first transaction with the hash. *)
Fixpoint tx_position (txHash : Hash) (i : Z) (txs : list Transaction) : option Z :=
  match txs with
  | [] => None
  | tx :: rest => if tx_Hash keccak256 (inner tx) =? txHash then Some i else tx_position txHash (i + 1) rest
  end.

Definition GetTransactionLookup (txHash : Hash) : C (option TxLookupEntry) :=
  let! bc := gget in
  match txLookup bc !! txHash with
  | Some e => gret (Some e)
  | None =>
      match ReadTxLookup (bc_db bc) txHash with
      | None => gret None
      | Some num =>
          match ReadCanonicalHash (bc_db bc) num with
          | None => gret None
          | Some hash =>
              let! b := chain_readBlock hash in
              gret (b ← b; i ← tx_position txHash 0 (block_Transactions b); Some (mkTxLookup hash num i))
          end
      end
  end.

Definition EvictBlockFromCache (hash : Hash) : C unit :=
  gmodify (fun bc => with_blockCache (delete hash (blockCache bc)) bc).

Definition StoreBlockInCache (b : Block) : C unit :=
  gmodify (fun bc => with_blockCache (<[Block_Hash b := b]> (blockCache bc)) bc).

(** *** Construction *)

Definition or_default (size dflt : Z) : Z := if size <=? 0 then dflt else size.

(** [NewBlockchain]: the head is the genesis block, whatever the database
    holds; the finalized block is restored. *)
Definition NewBlockchain (genesis : option Block) (st : St) (db : Database) (opts : BlockchainOpts)
  : option (chain_error + Blockchain St) :=
  match genesis with
  | None => Some (inl ErrNoGenesis)
  | Some genesis =>
      let opts := mkOpts (or_default (BlockCacheSize opts) defaultBlockCacheSize)
                    (or_default (ReceiptCacheSize opts) defaultReceiptCacheSize)
                    (or_default (StateCacheSize opts) defaultMaxCachedStates) in
      let hash := Block_Hash genesis in
      let num := NumberU64 genesis in
      hc ← NewHeaderChain keccak256 eip7706 (block_Header genesis);
      db ← (if bool_decide (ReadCanonicalHash db 0 = Some hash) then Some db
            else db ← writeBlock keccak256 eip7706 genesis db;
                 Some (WriteHeadHeaderHash hash (WriteHeadBlockHash hash (WriteCanonicalHash num hash db))));
      let bc := mkBlockchain db hc opts {[hash := genesis]} [] {[num := hash]} ∅ [] ∅
                  (newStateCache (StateCacheSize opts)) (newStateCache (StateCacheSize opts))
                  st (cs_Dup st) (cs_Dup st) genesis (Some genesis) None None in
      let fh := ReadFinalizedBlockHash db in
      if fh =? 0 then Some (inr bc)
      else match GetBlock fh bc with
           | Ok (Some b) bc => Some (inr (with_currentSafeBlock (Some b) (with_currentFinalBlock (Some b) bc)))
           | Ok None bc => Some (inr bc)
           | _ => None
           end
  end.

End Chain.
