(* ===== verification/ForkChoice.v ===== *)
(** * ForkChoice: the consensus layer's view of the chain

    core/chain/forkchoice.go: the head, safe and finalized pointers, the
    ancestry checks and the reorganisations they ask of the chain of Chain. *)

From stdpp Require Import gmap.
From S2P Require Import Prelude Rlp StateDB Transactions Machine ChainConfig Blocks BlockStore StateCache Chain.
Local Open Scope Z_scope.
Local Open Scope go_scope.

Inductive fork_error :=
  | ErrFinalizedBlockUnknown
  | ErrSafeBlockUnknown
  | ErrHeadBlockUnknown
  | ErrReorgPastFinalized
  | ErrCommonAncestorNotFound
  | ErrInvalidFinalizedChain
  | ErrInvalidSafeChain
  | ErrSafeNotFinalized
  | ErrReorg (e : chain_error).

(** The pointers, and the chain behind them. *)
Record ForkChoice (St : Type) := mkForkChoice {
  fc_bc : Blockchain St;
  fc_head : option Block;
  fc_safe : option Block;
  fc_finalized : option Block;
}.
Arguments mkForkChoice {St}.
Arguments fc_bc {St} _.
Arguments fc_head {St} _.
Arguments fc_safe {St} _.
Arguments fc_finalized {St} _.

Section ForkChoice.

Context {St : Type} `{ChainState St}.
Context (keccak256 : bytes -> bytes) (eip7706 : bool) (fuel : nat).

Abbreviation C := (M (Blockchain St)).
Abbreviation F := (M (ForkChoice St)).
Abbreviation Block_Hash := (Block_Hash keccak256 eip7706).
Abbreviation GetBlock := (GetBlock eip7706 fuel).

Definition NewForkChoice (bc : Blockchain St) : ForkChoice St :=
  mkForkChoice bc (currentBlock bc) (currentBlock bc) (currentBlock bc).

(** Run an operation of the chain. *)
Definition on_chain {A} (m : C A) : F A := fun fc =>
  match m (fc_bc fc) with
  | Ok a bc => Ok a (mkForkChoice bc (fc_head fc) (fc_safe fc) (fc_finalized fc))
  | Err e r bc => Err e r (mkForkChoice bc (fc_head fc) (fc_safe fc) (fc_finalized fc))
  | Panic p => Panic p
  | Fuel => Fuel
  end.

Definition fbind {A B} (m : F (fork_error + A)) (k : A -> F (fork_error + B)) : F (fork_error + B) :=
  let! r := m in match r with inl e => gret (inl e) | inr a => k a end.

Notation "'let?' x := m 'in' k" := (fbind m (fun x => k))
  (at level 10, x name, m at level 100, k at level 200) : go_scope.

Definition freject (bad : bool) (e : fork_error) : F (fork_error + unit) :=
  gret (if bad then inl e else inr tt).

(** Walk back from [current] while its number is above [number]; [None] when a
    parent is unknown. *)
Fixpoint walk_back (walk : nat) (number : Z) (current : Block) : C (option Block) :=
  if NumberU64 current >? number then
    match walk with
    | O => fun _ => Fuel
    | S n =>
        let! parent := GetBlock (ParentHash current) in
        match parent with
        | None => gret None
        | Some p => walk_back n number p
        end
    end
  else gret (Some current).

Definition isAncestor (ancestor descendant : Block) : C bool :=
  if NumberU64 ancestor >? NumberU64 descendant then gret false
  else if Block_Hash ancestor =? Block_Hash descendant then gret true
  else
    let! b := walk_back fuel (NumberU64 ancestor) descendant in
    gret (match b with Some b => Block_Hash b =? Block_Hash ancestor | None => false end).

(** Both branches step by step until the hashes match. *)
Fixpoint lockstep (walk : nat) (old new : Block) : C (option Block) :=
  if Block_Hash old =? Block_Hash new then gret (Some old)
  else if NumberU64 old =? 0 then gret None
  else
    match walk with
    | O => fun _ => Fuel
    | S n =>
        let! oldParent := GetBlock (ParentHash old) in
        let! newParent := GetBlock (ParentHash new) in
        match oldParent, newParent with
        | Some o, Some p => lockstep n o p
        | _, _ => gret None
        end
    end.

Definition FindCommonAncestor (oldHead newHead : option Block) : C (option Block) :=
  match oldHead, newHead with
  | Some oldHead, Some newHead =>
      let! old := walk_back fuel (NumberU64 newHead) oldHead in
      match old with
      | None => gret None
      | Some old =>
          let! new := walk_back fuel (NumberU64 old) newHead in
          match new with
          | None => gret None
          | Some new => lockstep fuel old new
          end
      end
  | _, _ => gret None
  end.

(** The block a hash names; the zero hash keeps the pointer it has. *)
Definition named (hash : Hash) (current : option Block) (e : fork_error) : F (fork_error + option Block) :=
  if hash =? 0 then gret (inr current)
  else
    let! b := on_chain (GetBlock hash) in
    gret (match b with Some b => inr (Some b) | None => inl e end).

Definition reorgTo (b : Block) : F (fork_error + unit) :=
  let! r := on_chain (Reorg keccak256 eip7706 fuel b) in
  gret (match r with inl e => inl (ErrReorg e) | inr _ => inr tt end).

(** The reorganisation of [ForkchoiceUpdate]: none if the head is the current
    one, refused if the branches part below the finalized block. *)
Definition moveHead (effectiveFinalized headBlock : Block) : F (fork_error + unit) :=
  let! fc := gget in
  let! currentHead := gopt PNil (currentBlock (fc_bc fc)) in
  if Block_Hash headBlock =? Block_Hash currentHead then gret (inr tt)
  else
    let? _ := (if NumberU64 effectiveFinalized >? 0 then
                 let! ancestor := on_chain (FindCommonAncestor (Some currentHead) (Some headBlock)) in
                 freject (match ancestor with
                          | Some a => NumberU64 a <? NumberU64 effectiveFinalized
                          | None => false
                          end) ErrReorgPastFinalized
               else gret (inr tt)) in
    reorgTo headBlock.

Definition ForkchoiceUpdate (headHash safeHash finalizedHash : Hash) : F (fork_error + unit) :=
  let! b := on_chain (GetBlock headHash) in
  match b with
  | None => gret (inl ErrHeadBlockUnknown)
  | Some headBlock =>
      let! fc := gget in
      let? finalizedPtr := named finalizedHash (fc_finalized fc) ErrFinalizedBlockUnknown in
      let? safePtr := named safeHash (fc_safe fc) ErrSafeBlockUnknown in
      let! safeBlock := gopt PNil safePtr in
      let! finalizedBlock := gopt PNil finalizedPtr in
      let? _ := freject (NumberU64 safeBlock <? NumberU64 finalizedBlock) ErrSafeNotFinalized in
      let? _ := (if (NumberU64 finalizedBlock >? 0) || negb (finalizedHash =? 0) then
                   let! ok := on_chain (isAncestor finalizedBlock headBlock) in
                   freject (negb ok) ErrInvalidFinalizedChain
                 else gret (inr tt)) in
      let? _ := (if negb (safeHash =? 0) then
                   let! ok := on_chain (isAncestor safeBlock headBlock) in
                   freject (negb ok) ErrInvalidSafeChain
                 else gret (inr tt)) in
      let! finalized := gopt PNil (fc_finalized fc) in
      let effectiveFinalized :=
        if NumberU64 finalizedBlock >? NumberU64 finalized then finalizedBlock else finalized in
      let? _ := moveHead effectiveFinalized headBlock in
      do! gmodify (fun fc => mkForkChoice (fc_bc fc) (Some headBlock) (Some safeBlock) (Some finalizedBlock)) in
      gret (inr tt)
  end.

Definition ReorgWithValidation (newHead : Block) : F (fork_error + unit) :=
  let! fc := gget in
  let! currentHead := gopt PNil (currentBlock (fc_bc fc)) in
  if Block_Hash currentHead =? Block_Hash newHead then gret (inr tt)
  else
    let! ancestor := on_chain (FindCommonAncestor (Some currentHead) (Some newHead)) in
    match ancestor with
    | None => gret (inl ErrCommonAncestorNotFound)
    | Some ancestor =>
        let? _ := freject (match fc_finalized fc with
                           | Some f => NumberU64 ancestor <? NumberU64 f
                           | None => false
                           end) ErrReorgPastFinalized in
        let? _ := reorgTo newHead in
        do! gmodify (fun fc => mkForkChoice (fc_bc fc) (Some newHead) (fc_safe fc) (fc_finalized fc)) in
        gret (inr tt)
    end.

End ForkChoice.
