(* ===== verification/ChainProofs.v ===== *)
(** * ChainProofs: what the block chain keeps true

    Blocks are identified by their hash: [idOf] gives the parent and the number
    of the block a hash stands for, and every block presented to the chain
    agrees with it.  The invariant of the chain, its preservation by every
    operation, and the canonical index as the ancestry of the head. *)

From stdpp Require Import gmap.
From S2P Require Import Prelude Rlp RlpProofs StateDB Transactions TxProofs Machine Blocks BlockProofs ChainConfig Receipts.
From S2P Require Import BlockProcessor Trie RawDB RawDBProofs BlockStore BlockStoreProofs Validator HeaderChain ValidatorProofs.
From S2P Require Import StateCache Chain.
Local Open Scope Z_scope.
Local Open Scope go_scope.

Lemma header_ok_norm eip7706 h : header_ok h -> header_ok (norm_header eip7706 h).
Proof.
  intros [A1 A2 A3 A4 (B1 & B2 & B3) A6 A7 A8]. inversion A7 as [|? ? C1 C2]; subst. inversion C2 as [|? ? C3 C4]; subst.
  inversion C4 as [|? ? C5 C6]; subst. inversion C6 as [|? ? C7 _]; subst.
  assert (is_u64 0) as Z0 by (unfold is_u64; lia).
  split; try done.
  - split_and!; [done|done|]. cbn [norm_header h_BaseFee]. destruct (anyFrom _); cbn [bigIntOrZero]; [|simpl; lia].
    by destruct (h_BaseFee h).
  - repeat first [apply Forall_cons_2|apply Forall_nil_2]; cbn [norm_header h_BlobGasUsed h_ExcessBlobGas
      h_CalldataGasUsed h_CalldataExcessGas]; destruct (anyFrom _); done.
Qed.

(** The keys that hold no header, and those that hold neither a header nor a
    canonical hash. *)
Definition side_key (k : dbkey) : Prop :=
  match k with KHeader _ _ | KNumber _ => False | _ => True end.

Definition aux_key (k : dbkey) : Prop :=
  match k with KHeader _ _ | KNumber _ | KCanonical _ => False | _ => True end.

Lemma aux_side db db' : touches aux_key db db' -> touches side_key db db'.
Proof. apply touches_weaken. by intros []. Qed.

Lemma canonical_aux db db' n : touches aux_key db db' -> is_u64 n -> ReadCanonicalHash db' n = ReadCanonicalHash db n.
Proof. intros HT Hn. unfold ReadCanonicalHash, db_Get. f_equal. apply (HT (KCanonical n)); [done|exact id]. Qed.

(** ** Blocks and their identity *)

Section Identity.

Context (keccak256 : bytes -> bytes) (eip7706 : bool) (idOf : Hash -> Hash * Z).

Abbreviation Block_Hash := (Block_Hash keccak256 eip7706).
Abbreviation parentOf h := (idOf h).1.
Abbreviation numOf h := (idOf h).2.

(** A block whose header encodes, whose number is a 64-bit word, and which is
    the block its hash stands for. *)
Record proper (b : Block) : Prop := {
  pr_storable : storable eip7706 b;
  pr_number : block_Number b = NumberU64 b;
  pr_id : idOf (Block_Hash b) = (ParentHash b, NumberU64 b);
}.

Lemma proper_parent b : proper b -> is_Hash (ParentHash b).
Proof. intros [[[A _ _ _ _ _ _ _] _] _ _]. by inversion A. Qed.

Lemma proper_read b body :
  proper b -> proper (NewBlock (norm_header eip7706 (blk_header b)) body) /\
  Block_Hash (NewBlock (norm_header eip7706 (blk_header b)) body) = Block_Hash b.
Proof.
  intros [[H1 H2] H3 H4].
  assert (Block_Hash (NewBlock (norm_header eip7706 (blk_header b)) body) = Block_Hash b) as E
    by (rewrite Block_Hash_NewBlock; apply Header_Hash_norm).
  assert (block_Number (NewBlock (norm_header eip7706 (blk_header b)) body) = block_Number b) as EN.
  { unfold block_Number. cbn. by destruct (h_Number (blk_header b)). }
  split; [|done]. split.
  - split.
    + pose proof (header_ok_norm eip7706 _ H1) as [A1 A2 A3 A4 A5 A6 A7 A8]. by split.
    + cbn [NewBlock blk_header]. by rewrite payload_copyHeader, payload_norm_header.
  - unfold NumberU64 in *. by rewrite EN.
  - rewrite E, H4. unfold NumberU64. by rewrite EN.
Qed.

(** ** The database *)

Definition in_db (db : Database) (h : Hash) : Prop := is_Some (ReadHeaderNumber db h).

(** The header stored under a hash is the one the hash stands for. *)
Definition db_holds (db : Database) (h : Hash) : Prop :=
  exists b, proper b /\ Block_Hash b = h /\ ReadHeaderNumber db h = Some (NumberU64 b) /\
    ReadHeader db (NumberU64 b) h = Some (wrapList (header_payload eip7706 (blk_header b))).

Lemma readBlock_known fuel db h r :
  db_holds db h -> readBlock eip7706 fuel db h = TOk r ->
  exists c, r = Some c /\ proper c /\ Block_Hash c = h.
Proof.
  intros (b & Hb & <- & E1 & E2) E. destruct (pr_storable b Hb) as [Hok Hl].
  rewrite (readBlock_found _ _ _ _ _ _ Hok Hl E1 E2) in E.
  destruct (readBody _ _ _ _ _) as [body| | |]; cbn [tbind] in E; try discriminate E.
  injection E as <-. eexists. split; [done|]. by apply proper_read.
Qed.

Lemma readBlock_unknown fuel db h : ~ in_db db h -> readBlock eip7706 fuel db h = TOk None.
Proof.
  unfold in_db, BlockStore.readBlock. destruct (ReadHeaderNumber db h); [|done]. intros []. by eexists.
Qed.

(** Writes that leave the headers alone. *)
Lemma in_db_touches db db' h : touches side_key db db' -> is_Hash h -> in_db db' h <-> in_db db h.
Proof.
  intros HT Hh. unfold in_db, ReadHeaderNumber, db_Get.
  by rewrite (HT (KNumber h) Hh id : db' !! headerNumberKey h = _).
Qed.

Lemma db_holds_touches db db' h : touches side_key db db' -> is_Hash h -> db_holds db h -> db_holds db' h.
Proof.
  intros HT Hh (b & Hb & E0 & E1 & E2). exists b. split_and!; [done|done| |].
  - unfold ReadHeaderNumber, db_Get in *. by rewrite (HT (KNumber h) Hh id : db' !! headerNumberKey h = _).
  - unfold ReadHeader, db_Get in *. rewrite <- E2.
    apply (HT (KHeader (NumberU64 b) h)); [split; [apply NumberU64_range|done]|exact id].
Qed.

(** Writing a block. *)
Lemma write_own b db db' : proper b -> writeBlock keccak256 eip7706 b db = Some db' -> db_holds db' (Block_Hash b).
Proof. intros Hb Hw. destruct (writeBlock_header _ _ _ _ _ Hw) as [E1 E2]. by exists b. Qed.

Lemma write_other b db db' h :
  is_Hash h -> h <> Block_Hash b -> writeBlock keccak256 eip7706 b db = Some db' ->
  ReadHeaderNumber db' h = ReadHeaderNumber db h /\ (db_holds db h -> db_holds db' h).
Proof.
  intros Hh Hne Hw. pose proof (writeBlock_touches _ _ _ _ _ Hw) as HT.
  assert (ReadHeaderNumber db' h = ReadHeaderNumber db h) as E.
  { unfold ReadHeaderNumber, db_Get. f_equal. apply (HT (KNumber h) Hh). unfold own_key. intros [|[|]]; simplify_eq. }
  split; [done|]. intros (c & Hc & E0 & E1 & E2). exists c. split_and!; [done|done|congruence|].
  rewrite <- E2. apply (HT (KHeader (NumberU64 c) h)); [split; [apply NumberU64_range|done]|].
  unfold own_key. intros [|[|]]; simplify_eq.
Qed.

Lemma in_db_write b db db' h :
  proper b -> is_Hash h -> writeBlock keccak256 eip7706 b db = Some db' ->
  in_db db' h <-> h = Block_Hash b \/ in_db db h.
Proof.
  intros Hb Hh Hw. unfold in_db. destruct (decide (h = Block_Hash b)) as [->|Hne].
  - destruct (writeBlock_header _ _ _ _ _ Hw) as [-> _]. split; [by left|by eexists].
  - rewrite (proj1 (write_other b db db' h Hh Hne Hw)). tauto.
Qed.

Lemma canonical_write b db db' n :
  is_u64 n -> writeBlock keccak256 eip7706 b db = Some db' -> ReadCanonicalHash db' n = ReadCanonicalHash db n.
Proof.
  intros Hn Hw. unfold ReadCanonicalHash, db_Get. f_equal.
  apply (writeBlock_touches _ _ _ _ _ Hw (KCanonical n) Hn). unfold own_key. intros [|[|]]; done.
Qed.

(** ** The invariant *)

(** The database and the cached blocks: cached blocks are stored, stored
    headers are the ones their hashes stand for, and the parent of a stored
    block is stored, down to the genesis block. *)
Record blocks_inv (db : Database) (cache : gmap Z Block) (g : Block) : Prop := {
  inv_cache : forall h b, cache !! h = Some b -> Block_Hash b = h /\ proper b /\ in_db db h;
  inv_db : forall h, is_Hash h -> in_db db h -> db_holds db h;
  inv_link : forall h, is_Hash h -> in_db db h -> h = Block_Hash g \/
    (0 < numOf h /\ in_db db (parentOf h) /\ numOf (parentOf h) = numOf h - 1);
  inv_genesis : proper g /\ NumberU64 g = 0 /\ in_db db (Block_Hash g);
}.

(** The canonical index, in memory and in the database: entries up to the
    height [top], each a stored block of its height. *)
Record index_inv (db : Database) (canon : gmap Z Hash) (g : Block) (top : Z) : Prop := {
  inv_canon : forall n h, canon !! n = Some h -> 0 <= n <= top /\ is_Hash h /\ in_db db h /\ numOf h = n;
  inv_zero : canon !! 0 = Some (Block_Hash g);
  inv_index : forall n, is_u64 n -> ReadCanonicalHash db n = canon !! n;
}.

Lemma blocks_hash db cache g h b : blocks_inv db cache g -> cache !! h = Some b -> is_Hash h.
Proof. intros I E. destruct (inv_cache _ _ _ I _ _ E) as [<- _]. apply Block_Hash_range. Qed.

Lemma parent_hash db cache g h : blocks_inv db cache g -> is_Hash h -> in_db db h -> is_Hash (parentOf h).
Proof.
  intros I Hh Hd. destruct (inv_db _ _ _ I h Hh Hd) as (c & Hc & <- & _). rewrite (pr_id c Hc). by apply proper_parent.
Qed.

Lemma blocks_side db db' cache g : touches side_key db db' -> blocks_inv db cache g -> blocks_inv db' cache g.
Proof.
  intros HS I.
  assert (forall h, is_Hash h -> in_db db' h <-> in_db db h) as D by (intros h; by apply in_db_touches).
  split.
  - intros h b E. destruct (inv_cache _ _ _ I _ _ E) as (E1 & Hp & Hd). split_and!; [done..|].
    apply D; [by eapply blocks_hash|done].
  - intros h Hh Hd. apply (db_holds_touches db db'); [done..|]. apply I; [done|]. by apply D.
  - intros h Hh Hd. apply D in Hd; [|done]. destruct (inv_link _ _ _ I h Hh Hd) as [|(A & B & C)]; [by left|].
    right. split_and!; [done| |done]. apply D; [by eapply parent_hash|done].
  - destruct (inv_genesis _ _ _ I) as (A & B & C). split_and!; [done|done|]. apply D; [apply Block_Hash_range|done].
Qed.

Lemma blocks_put db cache g b :
  proper b -> in_db db (Block_Hash b) -> blocks_inv db cache g -> blocks_inv db (<[Block_Hash b := b]> cache) g.
Proof.
  intros Hb Hd I. split; [|apply I..]. intros h c. rewrite lookup_insert_Some.
  intros [[<- <-]|[_ E]]; [done|by apply I].
Qed.

Lemma blocks_sub db cache cache' g : cache' ⊆ cache -> blocks_inv db cache g -> blocks_inv db cache' g.
Proof. intros Hs I. split; [|apply I..]. intros h c E. by apply I, (lookup_weaken cache' cache). Qed.

(** A block that can be stored: it is known, or its parent is. *)
Definition attaches (db : Database) (b : Block) : Prop :=
  in_db db (Block_Hash b) \/
  (0 < NumberU64 b /\ in_db db (ParentHash b) /\ numOf (ParentHash b) = NumberU64 b - 1).

Lemma blocks_write db db' cache g b :
  proper b -> writeBlock keccak256 eip7706 b db = Some db' -> attaches db b ->
  blocks_inv db cache g -> blocks_inv db' cache g.
Proof.
  intros Hb Hw Hp I.
  assert (forall h, is_Hash h -> in_db db' h <-> h = Block_Hash b \/ in_db db h) as D by (intros h ?; by apply in_db_write).
  split.
  - intros h c E. destruct (inv_cache _ _ _ I _ _ E) as (E1 & Hq & Hd). split_and!; [done..|].
    apply D; [by eapply blocks_hash|by right].
  - intros h Hh Hd. destruct (decide (h = Block_Hash b)) as [->|Hne]; [by apply (write_own b db)|].
    apply (write_other b db); [done..|]. apply I; [done|]. by apply D in Hd as [|].
  - intros h Hh Hd. assert (in_db db h -> h = Block_Hash g \/
      (0 < numOf h /\ in_db db' (parentOf h) /\ numOf (parentOf h) = numOf h - 1)) as K.
    { intros H. destruct (inv_link _ _ _ I h Hh H) as [|(A & B & C)]; [by left|]. right. split_and!; [done| |done].
      apply D; [by eapply parent_hash|by right]. }
    apply D in Hd as [->|Hd]; [|by apply K|done]. destruct Hp as [Hd|(A & B & C)]; [by apply K|].
    right. rewrite (pr_id b Hb). cbn [fst snd]. split_and!; [done| |done]. apply D; [by apply proper_parent|by right].
  - destruct (inv_genesis _ _ _ I) as (A & B & C). split_and!; [done|done|]. apply D; [apply Block_Hash_range|by right].
Qed.

Lemma known_parent db cache g b :
  blocks_inv db cache g -> proper b -> in_db db (Block_Hash b) -> NumberU64 b <> 0 ->
  in_db db (ParentHash b) /\ numOf (ParentHash b) = NumberU64 b - 1.
Proof.
  intros I Hb Hd Hn. destruct (inv_link _ _ _ I (Block_Hash b)) as [E|H]; [apply Block_Hash_range|done| |].
  - destruct (inv_genesis _ _ _ I) as (Hg & Hz & _). pose proof (pr_id b Hb) as A. rewrite E, (pr_id g Hg) in A.
    simplify_eq. congruence.
  - rewrite (pr_id b Hb) in H. cbn [fst snd] in H. tauto.
Qed.

(** ** The index *)

Lemma index_aux db db' canon g top : touches aux_key db db' -> index_inv db canon g top -> index_inv db' canon g top.
Proof.
  intros HT [I1 I2 I3]. split; [|done|].
  - intros n h E. destruct (I1 n h E) as (A & B & C & F). split_and!; try done; try lia.
    by apply (in_db_touches db db'); [apply aux_side|..].
  - intros n Hn. rewrite (canonical_aux db db') by done. by apply I3.
Qed.

Lemma index_write db db' canon g top b :
  proper b -> writeBlock keccak256 eip7706 b db = Some db' -> index_inv db canon g top -> index_inv db' canon g top.
Proof.
  intros Hb Hw [I1 I2 I3]. split; [|done|].
  - intros n h E. destruct (I1 n h E) as (A & B & C & F). split_and!; try done; try lia.
    apply (in_db_write b db db'); [done..|by right].
  - intros n Hn. rewrite (canonical_write b db db') by done. by apply I3.
Qed.

Lemma index_top db canon g top top' : top <= top' -> index_inv db canon g top -> index_inv db canon g top'.
Proof.
  intros Ht [I1 I2 I3]. split; [|done|done]. intros n h E. destruct (I1 n h E) as (A & B). split; [lia|done].
Qed.

Lemma index_put db canon g top n h :
  is_u64 n -> 0 < n <= top -> is_Hash h -> in_db db h -> numOf h = n ->
  index_inv db canon g top -> index_inv (WriteCanonicalHash n h db) (<[n := h]> canon) g top.
Proof.
  intros Hu Hn Hh Hd Hnum [I1 I2 I3].
  assert (forall k, is_Hash k -> in_db db k -> in_db (WriteCanonicalHash n h db) k) as D.
  { intros k Hk H. apply (in_db_touches db _); [|done..]. apply (touches_weaken index_key); [|by apply touches_canonical].
    intros [] Hi; try done; by apply Hi. }
  split.
  - intros m k. rewrite lookup_insert_Some. intros [[<- <-]|[_ E]]; [split_and!; try done; try lia; by apply D|].
    destruct (I1 m k E) as (A & B & C & F). split_and!; try done; try lia. by apply D.
  - rewrite lookup_insert_ne by lia. done.
  - intros m Hm. rewrite ReadCanonicalHash_write by done. destruct (decide (n = m)) as [->|Hne].
    + by rewrite lookup_insert_eq.
    + rewrite lookup_insert_ne by done. by apply I3.
Qed.

Lemma index_del db canon g top n :
  is_u64 n -> n <> 0 -> index_inv db canon g top -> index_inv (DeleteCanonicalHash n db) (delete n canon) g top.
Proof.
  intros Hu Hn [I1 I2 I3].
  assert (forall k, is_Hash k -> in_db db k -> in_db (DeleteCanonicalHash n db) k) as D.
  { intros k Hk H. apply (in_db_touches db _); [|done..]. apply (touches_weaken index_key); [|by apply touches_delete_canonical].
    intros [] Hi; try done; by apply Hi. }
  split.
  - intros m k. rewrite lookup_delete_Some. intros [_ E]. destruct (I1 m k E) as (A & B & C & F).
    split_and!; try done; try lia. by apply D.
  - rewrite lookup_delete_ne by done. done.
  - intros m Hm. rewrite ReadCanonicalHash_delete by done. destruct (decide (n = m)) as [->|Hne].
    + by rewrite lookup_delete_eq.
    + rewrite lookup_delete_ne by done. by apply I3.
Qed.

End Identity.

(** ** Ancestry *)

Section Ancestry.

Context (idOf : Hash -> Hash * Z).

Fixpoint climb (k : nat) (h : Hash) : Hash :=
  match k with O => h | S m => climb m (idOf h).1 end.

(** The ancestor of [h] at the height [n]. *)
Definition ancestor_at (h : Hash) (n : Z) : option Hash :=
  if (0 <=? n) && (n <=? (idOf h).2) then Some (climb (Z.to_nat ((idOf h).2 - n)) h) else None.

(** The index holds the ancestry of [h] and nothing else. *)
Definition follows (canon : gmap Z Hash) (h : Hash) : Prop := forall n, canon !! n = ancestor_at h n.

Lemma climb_S k h : climb (S k) h = (idOf (climb k h)).1.
Proof. revert h. induction k as [|k IH]; intros h; [done|]. simpl in *. apply IH. Qed.

Lemma climb_add j k h : climb (j + k) h = climb j (climb k h).
Proof. revert h. induction k as [|k IH]; intros h; [by rewrite Nat.add_0_r|]. rewrite Nat.add_succ_r. simpl. apply IH. Qed.

Lemma ancestor_self h : 0 <= (idOf h).2 -> ancestor_at h (idOf h).2 = Some h.
Proof. intros Hn. unfold ancestor_at. rewrite Z.sub_diag. by destruct (Z.leb_spec 0 (idOf h).2), (Z.leb_spec (idOf h).2 (idOf h).2); try lia. Qed.

Lemma ancestor_below h n :
  n < (idOf h).2 -> (idOf (idOf h).1).2 = (idOf h).2 - 1 -> ancestor_at h n = ancestor_at (idOf h).1 n.
Proof.
  intros Hn E. unfold ancestor_at. rewrite E.
  destruct (Z.leb_spec n (idOf h).2), (Z.leb_spec n ((idOf h).2 - 1)); try lia. destruct (0 <=? n); [|done]. simpl andb. cbv iota.
  replace (Z.to_nat ((idOf h).2 - n)) with (S (Z.to_nat ((idOf h).2 - 1 - n))) by lia. done.
Qed.

Lemma ancestor_above h n : (idOf h).2 < n -> ancestor_at h n = None.
Proof. intros Hn. unfold ancestor_at. destruct (Z.leb_spec n (idOf h).2); [lia|]. by rewrite andb_false_r. Qed.

(** The index of a child is the index of its parent with one entry more. *)
Lemma follows_extend canon h :
  0 < (idOf h).2 -> (idOf (idOf h).1).2 = (idOf h).2 - 1 -> follows canon (idOf h).1 ->
  follows (<[(idOf h).2 := h]> canon) h.
Proof.
  intros Hn E F n. destruct (decide (n = (idOf h).2)) as [->|Hne].
  - rewrite lookup_insert_eq. symmetry. apply ancestor_self. lia.
  - rewrite lookup_insert_ne by done. rewrite F. destruct (Z.lt_decidable n (idOf h).2) as [Hl|Hl].
    + symmetry. by apply ancestor_below.
    + rewrite !ancestor_above by lia. done.
Qed.

(** Two ancestries that meet at a height agree below it. *)
Lemma ancestor_agree h h' x n :
  n <= (idOf x).2 -> (idOf x).2 <= (idOf h).2 -> (idOf x).2 <= (idOf h').2 ->
  ancestor_at h (idOf x).2 = Some x -> ancestor_at h' (idOf x).2 = Some x ->
  ancestor_at h n = ancestor_at h' n.
Proof.
  assert (forall h, n <= (idOf x).2 -> (idOf x).2 <= (idOf h).2 -> ancestor_at h (idOf x).2 = Some x ->
    ancestor_at h n = ancestor_at x n) as K.
  { clear. intros h H1 H2. unfold ancestor_at. destruct (Z.leb_spec 0 (idOf x).2); [|done].
    destruct (Z.leb_spec (idOf x).2 (idOf h).2); [|lia]. simpl andb. cbv iota. intros [= E].
    destruct (Z.leb_spec 0 n); [|done]. destruct (Z.leb_spec n (idOf h).2); [|lia]. destruct (Z.leb_spec n (idOf x).2); [|lia].
    simpl andb. cbv iota. f_equal.
    replace (Z.to_nat ((idOf h).2 - n)) with (Z.to_nat ((idOf x).2 - n) + Z.to_nat ((idOf h).2 - (idOf x).2))%nat by lia.
    by rewrite climb_add, E. }
  intros H1 H2 H3 H4 H5. rewrite (K h), (K h') by done. done.
Qed.

End Ancestry.

(** ** Runs of the operations *)

Lemma gbind_ok {S A B : Type} (m : M S A) (k : A -> M S B) s b s' :
  gbind m k s = Ok b s' -> exists a s1, m s = Ok a s1 /\ k a s1 = Ok b s'.
Proof. unfold gbind. destruct (m s) as [a s1| | |]; try discriminate. intros E. by exists a, s1. Qed.

Lemma Ok_inj {S A : Type} (a a' : A) (s s' : S) : Ok a s = Ok a' s' -> a = a' /\ s = s'.
Proof. by intros [= -> ->]. Qed.

Create HintDb quiet.

(** Split the run of a sequence into the runs of its parts. *)
Ltac run H :=
  let a := fresh "a" in let s := fresh "bc" in let E := fresh "E" in
  apply gbind_ok in H as (a & s & E & H);
  try (unfold gget, gret in E; apply Ok_inj in E as [<- <-]).

Section Runs.

Context {St : Type} `{ChainState St}.
Context (keccak256 : bytes -> bytes) (eip7706 : bool) (fuel : nat) (config : ChainConfig).

Abbreviation C := (M (Blockchain St)).
Abbreviation Block_Hash := (Block_Hash keccak256 eip7706).

Lemma ebind_ok {A B} (m : C (chain_error + A)) (k : A -> C (chain_error + B)) s r s' :
  ebind m k s = Ok r s' ->
  (exists e, m s = Ok (inl e) s' /\ r = inl e) \/ (exists a s1, m s = Ok (inr a) s1 /\ k a s1 = Ok r s').
Proof.
  unfold ebind. intros E. apply gbind_ok in E as ([e|a] & s1 & E1 & E2).
  - injection E2 as <- <-. left. by exists e.
  - right. by exists a, s1.
Qed.

(** What the blocks, the index and the head are stored in. *)
Definition view (bc : Blockchain St) : Database * gmap Z Block * gmap Z Hash * option Block * Block :=
  (bc_db bc, blockCache bc, canonCache bc, currentBlock bc, bc_genesis bc).

(** An operation that leaves them alone. *)
Definition quiet {A} (m : C A) : Prop := forall bc a bc', m bc = Ok a bc' -> view bc' = view bc.

Lemma quiet_ret {A} (a : A) : quiet (gret a).
Proof. by intros bc x bc' [= <- <-]. Qed.

Lemma quiet_error {A} e : quiet (@ereturn St A e).
Proof. apply quiet_ret. Qed.

Lemma quiet_get : quiet gget.
Proof. by intros bc x bc' [= <- <-]. Qed.

Lemma quiet_bind {A B} (m : C A) (k : A -> C B) : quiet m -> (forall a, quiet (k a)) -> quiet (gbind m k).
Proof. intros H1 H2 bc b bc' E. apply gbind_ok in E as (a & bc1 & E1 & E2). rewrite (H2 _ _ _ _ E2). by eapply H1. Qed.

Lemma quiet_ebind {A B} (m : C (chain_error + A)) (k : A -> C (chain_error + B)) :
  quiet m -> (forall a, quiet (k a)) -> quiet (ebind m k).
Proof. intros H1 H2. apply quiet_bind; [done|]. intros [e|a]; [apply quiet_ret|apply H2]. Qed.

Lemma quiet_modify f : (forall bc, view (f bc) = view bc) -> quiet (gmodify f).
Proof. intros Hf bc a bc' [= <- <-]. apply Hf. Qed.

Lemma quiet_opt {A} p (o : option A) : quiet (gopt p o).
Proof. destruct o; [apply quiet_ret|]. by intros bc a bc'. Qed.

Lemma quiet_fuel {A} : quiet (fun _ => @Fuel (Blockchain St) A).
Proof. by intros bc a bc'. Qed.

Lemma quiet_tres {A} (r : tres (option A)) : quiet (of_tres r).
Proof. intros bc a bc'. unfold of_tres. destruct r; intros E; try discriminate E; by injection E as <- <-. Qed.

Lemma quiet_vres r : quiet (of_vres r).
Proof. intros bc a bc'. unfold of_vres. destruct r; intros E; try discriminate E; by injection E as <- <-. Qed.

Lemma quiet_trie {A} (r : trieRes A) : quiet (of_trie r).
Proof. intros bc a bc'. unfold of_trie. destruct r; intros E; try discriminate E; by injection E as <- <-. Qed.

Lemma quiet_out {A} (r : out unit A) : quiet (of_out r).
Proof. intros bc a bc'. unfold of_out. destruct r; intros E; try discriminate E; by injection E as <- <-. Qed.

Lemma quiet_process b st : quiet (process b st).
Proof.
  intros bc a bc'. unfold process. destruct (cs_Process _ _ _) as [[e|r] s| | |]; intros E; try discriminate E; by injection E as <- <-.
Qed.

Lemma quiet_states b st : quiet (cache_states keccak256 eip7706 b st).
Proof. by apply quiet_modify. Qed.

#[local] Hint Resolve quiet_ret quiet_error quiet_get quiet_bind quiet_ebind quiet_opt quiet_fuel quiet_tres quiet_vres quiet_trie quiet_out
  quiet_process quiet_states : quiet.

Lemma quiet_GetBlock h : quiet (GetBlock eip7706 fuel h).
Proof. apply quiet_bind; [auto with quiet|]. intros bc. destruct (blockCache bc !! h); [auto with quiet|].
  apply quiet_bind; auto with quiet. Qed.

#[local] Hint Resolve quiet_GetBlock : quiet.

Lemma quiet_collect n b l : quiet (collect keccak256 eip7706 fuel n b l).
Proof.
  revert b l. induction n as [|n IH]; intros b l; (apply quiet_bind; [auto with quiet|]); intros bc;
    destruct (isGenesis _ _ bc b); auto with quiet; destruct (cached_state bc (ParentHash b)); auto with quiet.
  apply quiet_bind; [auto with quiet|]. intros [p|]; auto with quiet.
Qed.

#[local] Hint Resolve quiet_collect : quiet.

Lemma quiet_reexecute caching l st : quiet (reexecute keccak256 eip7706 caching l st).
Proof.
  revert st. induction l as [|b l IH]; intros st; cbn [reexecute]; [auto with quiet|].
  apply quiet_bind; [auto with quiet|]. intros [e|[r st']]; [apply quiet_ret|].
  apply quiet_bind; [destruct caching; auto with quiet|auto].
Qed.

#[local] Hint Resolve quiet_reexecute : quiet.

Lemma quiet_ancestors b : quiet (collectAncestorsLocked keccak256 eip7706 fuel b).
Proof.
  apply quiet_bind; [auto with quiet|]. intros bc. destruct (isGenesis _ _ bc b); auto with quiet.
  destruct (cached_state bc _); auto with quiet. apply quiet_bind; [auto with quiet|]. intros [[l base] m]. auto with quiet.
Qed.

Lemma quiet_execute b st : quiet (executeAndCheck keccak256 config b st).
Proof.
  unfold executeAndCheck, ereject. apply quiet_bind; [auto with quiet|]. intros [e|[r st']]; [apply quiet_ret|].
  repeat first [apply quiet_ebind; [auto with quiet|intros _] | apply quiet_bind; [auto with quiet|intros ?] | apply quiet_ret].
Qed.

Lemma quiet_stateAt b : quiet (stateAt keccak256 eip7706 fuel b).
Proof.
  apply quiet_bind; [auto with quiet|]. intros bc. destruct (isGenesis _ _ bc b); auto with quiet.
  destruct (cache_get _ _ _); auto with quiet. apply quiet_bind; [auto with quiet|]. intros [[l base] []]; auto with quiet.
Qed.

Lemma quiet_StateAtBlock b : quiet (StateAtBlock keccak256 eip7706 fuel b).
Proof.
  apply quiet_bind; [auto with quiet|]. intros bc. destruct (isGenesis _ _ bc b); auto with quiet.
  destruct (cached_state bc _); auto with quiet. apply quiet_bind; [auto with quiet|]. intros [[l base] m].
  apply quiet_ebind; auto with quiet.
Qed.

End Runs.
