(* ===== verification/ChainInv.v ===== *)
(** * ChainInv: every operation keeps the chain consistent

    The invariant of ChainProofs over the fields of the chain, and its
    preservation by insertion, rewinding and reorganisation. *)

From stdpp Require Import gmap.
From S2P Require Import Prelude Rlp RlpProofs StateDB Transactions TxProofs Machine Blocks BlockProofs ChainConfig Receipts.
From S2P Require Import BlockProcessor Trie RawDB RawDBProofs BlockStore BlockStoreProofs Validator HeaderChain ValidatorProofs.
From S2P Require Import StateCache Chain ChainProofs.
Local Open Scope Z_scope.
Local Open Scope go_scope.

(** ** Writes beside the blocks *)

(** A key uses the low 32 bytes of a hash. *)
Lemma txLookupKey_mod h : txLookupKey h = key_bytes (KTxLookup (h mod 2 ^ 256)).
Proof.
  cbn [key_bytes]. unfold txLookupKey. f_equal.
  rewrite <- (be_bytes_SetBytes (be_bytes 32 h)) at 1 by apply be_bytes_bytes.
  by rewrite length_be_bytes, SetBytes_be_bytes.
Qed.

Lemma low_hash h : is_Hash (h mod 2 ^ 256).
Proof. apply Z.mod_pos_bound. lia. Qed.

Lemma aux_put k v db : key_ok k -> aux_key k -> touches aux_key db (db_Put (key_bytes k) v db).
Proof. apply touches_put. Qed.

Lemma aux_heads h db : touches aux_key db (WriteHeadHeaderHash h (WriteHeadBlockHash h db)).
Proof. eapply touches_trans; [by apply (aux_put KHeadBlock)|by apply (aux_put KHeadHeader)]. Qed.

Lemma aux_txLookups keccak256 txs num db : touches aux_key db (writeTxLookups keccak256 txs num db).
Proof.
  unfold writeTxLookups. revert db. induction txs as [|tx txs IH]; intros db; [apply touches_refl|].
  eapply touches_trans; [|apply IH]. unfold WriteTxLookup. rewrite txLookupKey_mod. by apply aux_put; [apply low_hash|].
Qed.

Lemma aux_forget keccak256 txs db :
  touches aux_key db (fold_left (fun db tx => DeleteTxLookup (tx_Hash keccak256 (inner tx)) db) txs db).
Proof.
  revert db. induction txs as [|tx txs IH]; intros db; [apply touches_refl|].
  eapply touches_trans; [|apply IH]. unfold DeleteTxLookup. rewrite txLookupKey_mod. by apply touches_delete; [apply low_hash|].
Qed.

Lemma aux_receipts num hash rs db db' :
  is_u64 num -> is_Hash hash -> writeReceipts num hash rs db = Some db' -> touches aux_key db db'.
Proof.
  intros Hn Hh. unfold writeReceipts. destruct rs as [|r rs]; [intros [= <-]; apply touches_refl|].
  intros (enc & _ & ->)%fmap_Some. by apply (aux_put (KReceipts num hash)).
Qed.

(** ** The eviction loop *)

Lemma evict_blocks_sub keccak256 limit cache ord txl cache' ord' txl' :
  evict_blocks keccak256 limit cache ord txl = Some (cache', ord', txl') -> cache' ⊆ cache.
Proof.
  revert cache txl. induction ord as [|h ord IH]; intros cache txl; cbn [evict_blocks];
    (destruct (Z.of_nat (size cache) >=? limit); [|by intros [= <- <- <-]]); [done|].
  destruct (cache !! h); intros E; apply IH in E; [|done]. etransitivity; [done|]. apply delete_subseteq.
Qed.

Section ChainInv.

Context {St : Type} `{ChainState St}.
Context (keccak256 : bytes -> bytes) (eip7706 : bool) (fuel : nat) (config : ChainConfig).
Context (idOf : Hash -> Hash * Z).

Abbreviation C := (M (Blockchain St)).
Abbreviation Block_Hash := (Block_Hash keccak256 eip7706).
Abbreviation proper := (proper keccak256 eip7706 idOf).
Abbreviation blocks_inv := (blocks_inv keccak256 eip7706 idOf).
Abbreviation index_inv := (index_inv keccak256 eip7706 idOf).
Abbreviation attaches := (attaches keccak256 eip7706 idOf).

Definition chain_inv (bc : Blockchain St) : Prop :=
  exists hd, currentBlock bc = Some hd /\ proper hd /\ in_db (bc_db bc) (Block_Hash hd) /\
    blocks_inv (bc_db bc) (blockCache bc) (bc_genesis bc) /\
    index_inv (bc_db bc) (canonCache bc) (bc_genesis bc) (NumberU64 hd).

Lemma chain_inv_view bc bc' : view bc' = view bc -> chain_inv bc -> chain_inv bc'.
Proof. unfold view, chain_inv. intros E. injection E as E1 E2 E3 E4 E5. by rewrite E1, E2, E3, E4, E5. Qed.

(** *** Reading blocks *)

Lemma chain_readBlock_ok (h : Hash) (bc bc' : Blockchain St) (r : option Block) cache g :
  blocks_inv (bc_db bc) cache g -> is_Hash h -> chain_readBlock eip7706 fuel h bc = Ok r bc' ->
  bc' = bc /\ match r with
              | Some p => proper p /\ Block_Hash p = h /\ in_db (bc_db bc) h
              | None => ~ in_db (bc_db bc) h
              end.
Proof.
  intros I Hh E. unfold chain_readBlock in E. run E. unfold of_tres in E.
  destruct (readBlock eip7706 fuel (bc_db bc) h) as [r0| | |] eqn:Er; try discriminate E.
  - injection E as <- <-. split; [done|]. destruct (decide (is_Some (ReadHeaderNumber (bc_db bc) h))) as [Hd|Hd].
    + destruct (readBlock_known _ _ _ _ _ _ _ (inv_db _ _ _ _ _ _ I h Hh Hd) Er) as (c & -> & Hc & Ec). done.
    + rewrite readBlock_unknown in Er by done. by injection Er as <-.
  - injection E as <- <-. split; [done|]. intros Hd. destruct (inv_db _ _ _ _ _ _ I h Hh Hd) as (b & Hb & <- & E1 & E2).
    destruct (pr_storable _ _ _ _ Hb) as [Hok Hl]. rewrite (readBlock_found _ _ _ _ _ _ Hok Hl E1 E2) in Er.
    unfold readBody in Er. destruct (ReadBody _ _ _) as [[|z d]|]; try discriminate Er.
    destruct (decodeBlockBody _ _ _); discriminate Er.
Qed.

(** The block a hash names, from the cache or from the database. *)
Lemma GetBlock_ok (h : Hash) (bc bc' : Blockchain St) (r : option Block) g :
  blocks_inv (bc_db bc) (blockCache bc) g -> is_Hash h -> GetBlock eip7706 fuel h bc = Ok r bc' ->
  bc' = bc /\ match r with
              | Some p => proper p /\ Block_Hash p = h /\ in_db (bc_db bc) h
              | None => ~ in_db (bc_db bc) h
              end.
Proof.
  intros I Hh E. unfold GetBlock in E. run E. destruct (blockCache bc !! h) as [b|] eqn:Eb.
  - injection E as <- <-. split; [done|]. destruct (inv_cache _ _ _ _ _ _ I _ _ Eb) as (? & ? & ?). done.
  - by eapply chain_readBlock_ok.
Qed.

Lemma findParent_ok (h : Hash) (bc bc' : Blockchain St) (r : option Block) g :
  blocks_inv (bc_db bc) (blockCache bc) g -> is_Hash h -> findParent eip7706 fuel h bc = Ok r bc' ->
  match r with
  | Some p => proper p /\ Block_Hash p = h /\ in_db (bc_db bc) h
  | None => ~ in_db (bc_db bc) h
  end /\
  exists cache, bc' = with_blockCache cache bc /\ blocks_inv (bc_db bc) cache g /\ blockCache bc ⊆ cache /\
    (forall p, r = Some p -> cache !! h = Some p).
Proof.
  intros I Hh E. unfold findParent in E. run E. destruct (blockCache bc !! h) as [b|] eqn:Eb.
  - injection E as <- <-. destruct (inv_cache _ _ _ _ _ _ I _ _ Eb) as (? & ? & ?). split; [done|].
    exists (blockCache bc). split_and!; [by destruct bc|done|done|]. by intros p [= <-].
  - run E. destruct (chain_readBlock_ok h bc bc0 a (blockCache bc) g I Hh E0) as [-> Ha]. destruct a as [p|].
    + destruct Ha as (Hp & <- & Hd). run E. injection E as <- <-. split; [done|].
      eexists. split; [done|]. split_and!; [by apply blocks_put|by apply insert_subseteq|].
      intros q [= <-]. apply lookup_insert_eq.
    + injection E as <- <-. split; [done|]. exists (blockCache bc). split_and!; [by destruct bc|done|done|done].
Qed.

(** *** Insertion *)

Lemma chain_write_run (f : Database -> option Database) (bc bc' : Blockchain St) u :
  chain_write f bc = Ok u bc' -> exists db, f (bc_db bc) = Some db /\ bc' = with_db db bc.
Proof.
  intros E. unfold chain_write in E. run E. run E. unfold gopt in E0. destruct (f (bc_db bc)) as [db|]; [|discriminate E0].
  injection E0 as <- <-. injection E as _ <-. by exists db.
Qed.

(** The database after a block has been persisted: the block is written, a
    canonical block is entered in the index, the rest is beside the blocks. *)
Definition persisted (canonical : bool) (b : Block) (db db' : Database) : Prop :=
  exists db1, writeBlock keccak256 eip7706 b db = Some db1 /\
    if canonical then exists db2, touches aux_key db1 db2 /\
                       touches aux_key (WriteCanonicalHash (NumberU64 b) (Block_Hash b) db2) db'
    else db' = db1.

Lemma persist_run canonical b receipts st (bc bc' : Blockchain St) st' :
  persist keccak256 eip7706 canonical b receipts st bc = Ok st' bc' ->
  persisted canonical b (bc_db bc) (bc_db bc') /\
  blockCache bc' = blockCache bc /\ canonCache bc' = canonCache bc /\ currentBlock bc' = currentBlock bc /\
  bc_genesis bc' = bc_genesis bc.
Proof.
  unfold persist. destruct canonical; intros E.
  - run E. run E. run E. apply chain_write_run in E0 as (db1 & Ew & ->). run E. apply chain_write_run in E0 as (db2 & Er & ->).
    run E. injection E as <- <-. split; [|done]. exists db1. split; [exact Ew|]. exists (writeTxLookups keccak256 (block_Transactions b) (NumberU64 b) db2).
    split; [|apply aux_heads]. eapply touches_trans; [|apply aux_txLookups].
    apply (aux_receipts _ _ _ _ _ (NumberU64_range b) (Block_Hash_range keccak256 eip7706 b) Er).
  - run E. run E. apply chain_write_run in E0 as (db1 & Ew & ->). injection E as <- <-. split; [|done]. by exists db1.
Qed.

Lemma publish_run canonical b st (bc bc' : Blockchain St) u :
  publish keccak256 eip7706 config canonical b st bc = Ok u bc' ->
  bc_db bc' = bc_db bc /\ bc_genesis bc' = bc_genesis bc /\
  (exists cache, cache ⊆ blockCache bc /\ blockCache bc' = <[Block_Hash b := b]> cache) /\
  if canonical then canonCache bc' = <[NumberU64 b := Block_Hash b]> (canonCache bc) /\ currentBlock bc' = Some b
  else canonCache bc' = canonCache bc /\ currentBlock bc' = currentBlock bc.
Proof.
  unfold publish. intros E. run E. destruct (evict_blocks _ _ _ _ _) as [[[cache ord] txl]|] eqn:Ev; [|discriminate E].
  apply evict_blocks_sub in Ev. run E. destruct canonical.
  - run E. run E. run E. unfold gopt in E0. destruct (InsertHeaders _ _ _ _ _) as [r|]; [|discriminate E0].
    injection E0 as <- <-. injection E as _ <-. split_and!; try done. by exists cache.
  - injection E as _ <-. split_and!; try done. by exists cache.
Qed.

(** A persisted block in the database and its index entry. *)
Lemma persisted_blocks canonical b db db' cache g :
  proper b -> attaches db b -> persisted canonical b db db' -> blocks_inv db cache g ->
  blocks_inv db' (<[Block_Hash b := b]> cache) g /\ in_db db' (Block_Hash b) /\
  (forall h, is_Hash h -> in_db db h -> in_db db' h).
Proof.
  intros Hb Ha (db1 & Ew & Hc) I. pose proof (blocks_write _ _ _ _ _ _ _ _ Hb Ew Ha I) as I1.
  assert (touches side_key db1 db') as HT.
  { destruct canonical; [|subst; apply touches_refl]. destruct Hc as (db2 & T1 & T2).
    eapply touches_trans; [by apply aux_side|]. eapply touches_trans; [|by apply aux_side].
    apply (touches_weaken index_key); [|apply touches_canonical, NumberU64_range]. intros [] Hi; try done; by apply Hi. }
  assert (forall h, is_Hash h -> in_db db1 h -> in_db db' h) as D by (intros h Hh; by apply in_db_touches).
  assert (in_db db' (Block_Hash b)) as Hin.
  { apply D; [apply Block_Hash_range|]. apply (in_db_write keccak256 eip7706 idOf b db db1); [done|apply Block_Hash_range|done|by left]. }
  split_and!; [|done|].
  - apply blocks_put; [done|done|]. by apply (blocks_side _ _ _ db1).
  - intros h Hh Hd. apply D; [done|]. apply (in_db_write keccak256 eip7706 idOf b db db1); [done..|by right].
Qed.

Lemma persisted_index canonical b db db' canon g top :
  proper b -> 0 < NumberU64 b -> (canonical = true -> top < NumberU64 b) -> persisted canonical b db db' ->
  index_inv db canon g top ->
  if canonical then index_inv db' (<[NumberU64 b := Block_Hash b]> canon) g (NumberU64 b) else index_inv db' canon g top.
Proof.
  intros Hb Hn Ht (db1 & Ew & Hc) I. pose proof (index_write _ _ _ _ _ _ _ _ _ Hb Ew I) as I1.
  destruct canonical; [|by subst]. destruct Hc as (db2 & T1 & T2). specialize (Ht eq_refl).
  apply (index_aux _ _ _ _ _ _ _ _ T2). apply index_put; [apply NumberU64_range|lia|apply Block_Hash_range| | |].
  - apply (in_db_touches db1 db2); [by apply aux_side|apply Block_Hash_range|].
    apply (in_db_write keccak256 eip7706 idOf b db db1); [done|apply Block_Hash_range|done|by left].
  - by rewrite (pr_id _ _ _ _ Hb).
  - apply (index_aux _ _ _ db1); [done|]. eapply index_top; [|done]. lia.
Qed.

(** The effect of a completed insertion on blocks, index and head. *)
Definition inserted (canonical : bool) (b : Block) (bc bc' : Blockchain St) : Prop :=
  persisted canonical b (bc_db bc) (bc_db bc') /\ bc_genesis bc' = bc_genesis bc /\
  (exists cache, cache ⊆ blockCache bc /\ blockCache bc' = <[Block_Hash b := b]> cache) /\
  if canonical then canonCache bc' = <[NumberU64 b := Block_Hash b]> (canonCache bc) /\ currentBlock bc' = Some b
  else canonCache bc' = canonCache bc /\ currentBlock bc' = currentBlock bc.

Lemma insertChecked_run b p (bc bc' : Blockchain St) r :
  insertChecked keccak256 eip7706 fuel config b p bc = Ok r bc' ->
  (exists e, r = inl e /\ view bc' = view bc) \/
  (r = inr tt /\ exists hd, currentBlock bc = Some hd /\ inserted (NumberU64 b >? NumberU64 hd) b bc bc').
Proof.
  unfold insertChecked. intros E. run E. pose proof (quiet_ancestors _ _ _ _ _ _ _ E0) as V0. clear E0.
  run E. unfold head in E0. run E0. unfold gopt in E0. destruct (currentBlock bc0) as [hd|] eqn:Eh; [|discriminate E0].
  injection E0 as <- <-. apply ebind_ok in E as [(e & E & ->)|(st0 & bc1 & E1 & E)].
  { left. exists e. split; [done|]. rewrite (quiet_reexecute _ _ _ _ _ _ _ _ E). done. }
  pose proof (quiet_reexecute _ _ _ _ _ _ _ _ E1) as V1. rewrite V0 in V1. clear E1.
  apply ebind_ok in E as [(e & E & ->)|([receipts st] & bc2 & E1 & E)].
  { left. exists e. split; [done|]. rewrite (quiet_execute _ _ _ _ _ _ _ E). done. }
  pose proof (quiet_execute _ _ _ _ _ _ _ E1) as V2. rewrite V1 in V2. clear E1. right.
  set (c := NumberU64 b >? NumberU64 hd) in *. run E. apply persist_run in E0 as (P1 & P2 & P3 & P4 & P5).
  run E. run E. apply publish_run in E0 as (Q1 & Q2 & Q3 & Q4). injection E as <- <-.
  injection V2 as W1 W2 W3 W4 W5. injection V0 as X1 X2 X3 X4 X5. split; [done|]. exists hd. split; [congruence|].
  unfold inserted. cbn [bc_db blockCache canonCache currentBlock bc_genesis with_receiptCacheOrder with_receiptCache] in *.
  set (r0 := evict_receipts _ _ _) in *. destruct r0. cbn in *.
  rewrite <- W1, <- W2, <- W3, <- W4, <- W5, <- P2, <- P3, <- P4, <- P5, Q1. change (NumberU64 b >? NumberU64 hd) with c. by split_and!.
Qed.

(** A validated child attaches to its parent. *)
Lemma accepted_attaches b p db :
  proper b -> proper p -> in_db db (Block_Hash p) ->
  ValidateHeader keccak256 eip7706 config (block_Header b) (block_Header p) = VOk ->
  ParentHash b = Block_Hash p /\ 0 < NumberU64 b /\ attaches db b.
Proof.
  intros Hb Hp Hd Hv. pose proof (accepted_parent _ _ _ _ _ Hv) as E1.
  destruct (accepted_number _ _ _ _ _ Hv) as (n & N1 & N2).
  assert (ParentHash b = Block_Hash p) as E by exact E1.
  assert (block_Number p = n /\ block_Number b = n + 1) as [B1 B2].
  { unfold block_Number. change (h_Number (blk_header p)) with (h_Number (block_Header p)).
    change (h_Number (blk_header b)) with (h_Number (block_Header b)). by rewrite N1, N2. }
  pose proof (pr_number _ _ _ _ Hb) as U1. pose proof (pr_number _ _ _ _ Hp) as U2.
  pose proof (NumberU64_range p) as U3. unfold is_u64 in U3.
  split_and!; [done|lia|]. right. rewrite E, (pr_id _ _ _ _ Hp). cbn [snd]. split_and!; [lia|done|lia].
Qed.

(** What a run of [InsertBlock] did: nothing, a failure that at most cached
    the parent, or an insertion below a validated parent. *)
Lemma InsertBlock_run b (bc bc' : Blockchain St) r :
  chain_inv bc -> proper b -> InsertBlock keccak256 eip7706 fuel config b bc = Ok r bc' ->
  (r = inr tt /\ bc' = bc /\ is_Some (blockCache bc !! Block_Hash b)) \/
  (exists e cache, r = inl e /\ view bc' = view (with_blockCache cache bc) /\
     blocks_inv (bc_db bc) cache (bc_genesis bc)) \/
  (r = inr tt /\ exists p hd cache, proper p /\ Block_Hash p = ParentHash b /\ in_db (bc_db bc) (Block_Hash p) /\
     currentBlock bc = Some hd /\ blocks_inv (bc_db bc) cache (bc_genesis bc) /\
     ValidateHeader keccak256 eip7706 config (block_Header b) (block_Header p) = VOk /\
     ValidateBody keccak256 config b = VOk /\
     insertChecked keccak256 eip7706 fuel config b p (with_blockCache cache bc) = Ok r bc' /\
     inserted (NumberU64 b >? NumberU64 hd) b (with_blockCache cache bc) bc').
Proof.
  intros (hd & Eh & Hhd & Hdhd & I & J) Hb E. unfold InsertBlock in E. run E.
  destruct (blockCache bc !! Block_Hash b) as [c|] eqn:Ec.
  { injection E as <- <-. left. split_and!; [done|done|by eexists]. }
  right. run E. apply (findParent_ok _ _ _ _ (bc_genesis bc)) in E0 as (Hp & cache & -> & I' & _ & _);
    [|done|by apply (proper_parent _ _ _ _ Hb)].
  destruct a as [p|]; [|injection E as <- <-; left; by eexists _, cache]. destruct Hp as (Hp & Ep & Hdp).
  apply ebind_ok in E as [(e & E & ->)|(u & bc1 & E1 & E)].
  { left. exists e, cache. pose proof (quiet_vres _ _ _ _ E). done. }
  unfold of_vres in E1. destruct (ValidateHeader _ _ _ _ _) eqn:Ev; try discriminate E1. injection E1 as _ <-.
  apply ebind_ok in E as [(e & E & ->)|(u' & bc2 & E1 & E)].
  { left. exists e, cache. pose proof (quiet_vres _ _ _ _ E). done. }
  unfold of_vres in E1. destruct (ValidateBody _ _ _) eqn:Eb; try discriminate E1. injection E1 as _ <-.
  pose proof E as E'. apply insertChecked_run in E as [(e & -> & V)|(-> & hd' & Eh' & Hi)].
  - left. by exists e, cache.
  - right. split; [done|]. exists p, hd', cache. cbn in Eh'. split_and!; try done. by rewrite Ep.
Qed.

Lemma InsertBlock_inv b (bc bc' : Blockchain St) r :
  chain_inv bc -> proper b -> InsertBlock keccak256 eip7706 fuel config b bc = Ok r bc' -> chain_inv bc'.
Proof.
  intros HI Hb E. apply InsertBlock_run in E as [(_ & -> & _)|[(e & cache & _ & V & I)|(_ & p & hd & cache & Hp & Ep & Hd & Eh & I & Hv & _ & _ & Hi)]];
    [done| | |done|done].
  - apply (chain_inv_view _ _ V). destruct HI as (hd & Eh & Hhd & Hdhd & _ & J). by exists hd.
  - destruct (accepted_attaches b p (bc_db bc) Hb Hp Hd Hv) as (_ & Hn & Ha).
    destruct HI as (hd' & Eh' & Hhd & Hdhd & _ & J). rewrite Eh in Eh'. injection Eh' as <-.
    destruct Hi as (P & G & (cache' & Hs & Ec) & Q). cbn [bc_db bc_genesis blockCache canonCache currentBlock with_blockCache] in *.
    pose proof (blocks_sub _ _ _ _ _ cache' _ Hs I) as I'.
    destruct (persisted_blocks _ _ _ _ _ _ Hb Ha P I') as (K1 & K2 & K3).
    pose proof (persisted_index _ _ _ _ _ _ (NumberU64 hd) Hb Hn (proj1 (Z.gtb_lt _ _)) P J) as K4.
    unfold chain_inv. rewrite G, Ec. destruct (NumberU64 b >? NumberU64 hd); destruct Q as [Q1 Q2]; rewrite Q1, Q2.
    + exists b. by split_and!.
    + exists hd. split_and!; try done. apply K3; [apply Block_Hash_range|done].
Qed.

(** *** Rewinding *)

Lemma side_delete (n : Z) (db : Database) : is_u64 n -> touches side_key db (DeleteCanonicalHash n db).
Proof.
  intros Hn. apply (touches_weaken index_key); [|by apply touches_delete_canonical]. intros [] Hi; try done; by apply Hi.
Qed.

Lemma drop_canonical_ok number n (bc : Blockchain St) g :
  0 <= number -> number + Z.of_nat n < 2 ^ 64 ->
  index_inv (bc_db bc) (canonCache bc) g (number + Z.of_nat n) ->
  let bc' := drop_canonical number n bc in
  index_inv (bc_db bc') (canonCache bc') g number /\ touches side_key (bc_db bc) (bc_db bc') /\
  blockCache bc' ⊆ blockCache bc /\ bc_genesis bc' = bc_genesis bc /\
  (forall k, k <= number -> canonCache bc' !! k = canonCache bc !! k).
Proof.
  intros H0. revert bc. induction n as [|n IH]; intros bc Hl I; cbn [drop_canonical].
  { rewrite Z.add_0_r in I. split_and!; try done. }
  set (num := number + Z.of_nat (S n)) in *. assert (is_u64 num) as Hu by (unfold is_u64; lia).
  assert (canonCache bc !! num = None ->
    index_inv (bc_db bc) (canonCache bc) g (number + Z.of_nat n)) as Skip.
  { intros Hn. destruct I as [I1 I2 I3]. split; [|done|done]. intros m h E. destruct (I1 m h E) as (A & B).
    assert (m <> num) by (intros ->; congruence). split; [lia|done]. }
  destruct (canonCache bc !! num) as [hash|] eqn:E; [|apply IH; [lia|by apply Skip]].
  pose proof (index_del _ _ _ _ _ _ _ num Hu ltac:(lia) I) as I'.
  assert (index_inv (DeleteCanonicalHash num (bc_db bc)) (delete num (canonCache bc)) g (number + Z.of_nat n)) as I''.
  { destruct I' as [I1 I2 I3]. split; [|done|done]. intros m h Em. destruct (I1 m h Em) as (A & B).
    apply lookup_delete_Some in Em as [Hne _]. split; [lia|done]. }
  set (bc1 := with_blockCache _ _). destruct (IH bc1 ltac:(lia) I'') as (A1 & A2 & A3 & A4 & A5). subst bc1. cbn in A2, A3, A4, A5.
  split_and!; [done| | |done|].
  - eapply touches_trans; [by apply side_delete|exact A2].
  - etransitivity; [exact A3|]. apply delete_subseteq.
  - intros k Hk. rewrite A5 by done. apply lookup_delete_ne. lia.
Qed.

Lemma SetHead_run number (bc bc' : Blockchain St) r :
  chain_inv bc -> SetHead keccak256 eip7706 fuel number bc = Ok r bc' ->
  (r = inl ErrBlockNotFound /\ bc' = bc) \/
  (exists hd t bc1 db, currentBlock bc = Some hd /\ canonCache bc !! number = Some (Block_Hash t) /\
     bc1 = drop_canonical number (Z.to_nat (NumberU64 hd - number)) bc /\
     blockCache bc1 !! Block_Hash t = Some t /\ touches aux_key (bc_db bc1) db /\
     view bc' = view (with_db db (with_currentBlock (Some t) bc1))).
Proof.
  intros (hd & Eh & Hhd & Hd & I & J) E. unfold SetHead in E. run E. unfold head in E0. run E0. rewrite Eh in E0.
  injection E0 as <- <-. run E. destruct (canonCache bc !! number) as [target|] eqn:Et.
  2:{ injection E as <- <-. by left. }
  right. destruct (inv_canon _ _ _ _ _ _ _ J _ _ Et) as ([N1 N2] & Hh & Hdt & Hnum).
  pose proof (NumberU64_range hd) as Hu. unfold is_u64 in Hu.
  destruct (drop_canonical_ok number (Z.to_nat (NumberU64 hd - number)) bc (bc_genesis bc)) as (A1 & A2 & A3 & A4 & A5); [lia|lia| |].
  { by replace (number + Z.of_nat (Z.to_nat (NumberU64 hd - number))) with (NumberU64 hd) by lia. }
  run E. set (bc1 := drop_canonical _ _ _) in *. run E. run E. unfold head in E0. run E0. cbn [currentBlock with_currentBlock] in E0.
  destruct (blockCache bc1 !! target) as [t|] eqn:Ec; [|discriminate E0]. injection E0 as <- <-.
  assert (Block_Hash t = target) as <- by (by apply (inv_cache _ _ _ _ _ _ I), (lookup_weaken _ _ _ _ Ec)).
  assert (exists db, touches aux_key (bc_db bc1) db /\ view bc' = view (with_db db (with_currentBlock (Some t) bc1))) as (db & T & V).
  { apply ebind_ok in E as [(e & E & ->)|(st & bc2 & E1 & E)].
    - exists (bc_db bc1). split; [apply touches_refl|]. by rewrite (quiet_stateAt _ _ _ _ _ _ _ E).
    - pose proof (quiet_stateAt _ _ _ _ _ _ _ E1) as V. run E. run E. run E. run E. unfold gopt in E0.
      destruct (hc_SetHead _ _ _ _) as [hc|]; [|discriminate E0]. injection E0 as <- <-. run E. injection E as <- <-.
      injection V as V1 V2 V3 V4 V5. cbn in V1, V2, V3, V4, V5.
      exists (WriteHeadHeaderHash (Block_Hash t) (WriteHeadBlockHash (Block_Hash t) (bc_db bc1))). split; [apply aux_heads|].
      unfold view. cbn. by rewrite V1, V2, V3, V4, V5. }
  exists hd, t, bc1, db. by split_and!.
Qed.

Lemma SetHead_inv number (bc bc' : Blockchain St) r :
  chain_inv bc -> SetHead keccak256 eip7706 fuel number bc = Ok r bc' -> chain_inv bc'.
Proof.
  intros HI E. destruct (SetHead_run _ _ _ _ HI E) as [(_ & ->)|(hd & t & bc1 & db & Eh & Et & -> & Ec & T & V)]; [done|].
  apply (chain_inv_view _ _ V). destruct HI as (hd' & Eh' & Hhd & Hd & I & J). rewrite Eh in Eh'. injection Eh' as <-.
  destruct (inv_canon _ _ _ _ _ _ _ J _ _ Et) as ([N1 N2] & Hh & Hdt & Hnum).
  pose proof (NumberU64_range hd) as Hu. unfold is_u64 in Hu.
  destruct (drop_canonical_ok number (Z.to_nat (NumberU64 hd - number)) bc (bc_genesis bc)) as (A1 & A2 & A3 & A4 & A5); [lia|lia| |].
  { by replace (number + Z.of_nat (Z.to_nat (NumberU64 hd - number))) with (NumberU64 hd) by lia. }
  set (bc1 := drop_canonical _ _ _) in *. exists t. cbn.
  destruct (inv_cache _ _ _ _ _ _ I (Block_Hash t) t ltac:(by eapply lookup_weaken)) as (_ & Ht & _).
  rewrite (pr_id _ _ _ _ Ht) in Hnum. cbn in Hnum. rewrite A4, Hnum.
  split_and!; [done|done| | |].
  - apply (in_db_touches (bc_db bc1)); [by apply aux_side|done|]. by apply (in_db_touches (bc_db bc)).
  - apply (blocks_side _ _ _ (bc_db bc1)); [by apply aux_side|]. apply (blocks_side _ _ _ (bc_db bc)); [done|]. by eapply blocks_sub.
  - by apply (index_aux _ _ _ (bc_db bc1)).
Qed.

(** *** Reorganisation *)

(** The blocks above genesis on the way to [h], the lowest first. *)
Definition branch (db : Database) (h : Hash) (l : list Block) : Prop :=
  length l = Z.to_nat (idOf h).2 /\
  forall (i : nat) b, l !! i = Some b -> proper b /\ in_db db (Block_Hash b) /\ NumberU64 b = Z.of_nat i + 1 /\
    ancestor_at idOf h (NumberU64 b) = Some (Block_Hash b).

Lemma branch_snoc db b l :
  proper b -> in_db db (Block_Hash b) -> 0 < NumberU64 b -> (idOf (ParentHash b)).2 = NumberU64 b - 1 ->
  branch db (ParentHash b) l -> branch db (Block_Hash b) (l ++ [b]).
Proof.
  intros Hb Hd Hn E [L B]. pose proof (pr_id _ _ _ _ Hb) as Eid. split.
  - rewrite length_app, L, E, Eid. simpl. lia.
  - intros i c Hi. apply lookup_app_Some in Hi as [Hi|[Hge Hi]].
    + destruct (B i c Hi) as (B1 & B2 & B3 & B4). split_and!; [done..|].
      apply lookup_lt_Some in Hi. rewrite ancestor_below; rewrite Eid; cbn [fst snd]; [done|lia|lia].
    + apply list_lookup_singleton_Some in Hi as [Hz <-]. split_and!; [done|done|lia|].
      pose proof (ancestor_self idOf (Block_Hash b)) as S. rewrite Eid in S. apply S. cbn. lia.
Qed.

(** The encoder does not panic on the body. *)
Definition writable (b : Block) : Prop := encodeBlockBody eip7706 (blk_body b) <> EPanic.

(** The block of a hash can be fetched, and written again. *)
Definition good (bc : Blockchain St) (h : Hash) : Prop :=
  exists c, GetBlock eip7706 fuel h bc = Ok (Some c) bc /\ writable c.

(** Every ancestor can be fetched: the fuel is enough to decode them. *)
Definition fetchable (bc : Blockchain St) (h : Hash) : Prop :=
  forall n x, ancestor_at idOf h n = Some x -> good bc x.

Lemma good_put h b (bc : Blockchain St) x :
  writable b -> good bc x -> good (with_blockCache (<[h := b]> (blockCache bc)) bc) x.
Proof.
  intros Hb (c & E & Hc). unfold good, GetBlock, chain_readBlock, gbind, gget, gret in *. cbn [blockCache bc_db with_blockCache].
  destruct (decide (h = x)) as [->|Hne]; [rewrite lookup_insert_eq; by exists b|]. rewrite lookup_insert_ne by done.
  exists c. split; [|done]. destruct (blockCache bc !! x); [congruence|]. unfold of_tres in *.
  destruct (readBlock _ _ _ _); try discriminate E. by injection E as ->.
Qed.

Lemma fetchable_put h b (bc : Blockchain St) x :
  writable b -> fetchable bc x -> fetchable (with_blockCache (<[h := b]> (blockCache bc)) bc) x.
Proof. intros Hb Hf n y Hy. apply good_put; [done|by eapply Hf]. Qed.

(** Caching the block the walk is at. *)
Lemma walk_cache b (bc : Blockchain St) g :
  blocks_inv (bc_db bc) (blockCache bc) g -> proper b -> in_db (bc_db bc) (Block_Hash b) ->
  exists cache, match blockCache bc !! Block_Hash b with
                | Some _ => bc
                | None => with_blockCache (<[Block_Hash b := b]> (blockCache bc)) bc
                end = with_blockCache cache bc /\
    blocks_inv (bc_db bc) cache g /\ blockCache bc ⊆ cache /\ is_Some (cache !! Block_Hash b) /\
    (forall x, writable b -> fetchable bc x -> fetchable (with_blockCache cache bc) x).
Proof.
  intros I Hb Hd. destruct (blockCache bc !! Block_Hash b) eqn:Ec.
  - exists (blockCache bc). split_and!; [by destruct bc|done|done|by rewrite Ec|by destruct bc].
  - eexists. split; [done|]. split_and!; [by apply blocks_put|by apply insert_subseteq|rewrite lookup_insert_eq; by eexists|].
    intros x Hw. by apply fetchable_put.
Qed.

Lemma reorg_walk_run n b acc (bc bc' : Blockchain St) r g :
  blocks_inv (bc_db bc) (blockCache bc) g -> proper b -> in_db (bc_db bc) (Block_Hash b) ->
  reorg_walk keccak256 eip7706 fuel n b acc bc = Ok r bc' ->
  exists l cache, r = Some (l ++ acc) /\ branch (bc_db bc) (Block_Hash b) l /\
    bc' = with_blockCache cache bc /\ blocks_inv (bc_db bc) cache g /\ blockCache bc ⊆ cache /\
    (forall k c, l !! k = Some c -> is_Some (cache !! Block_Hash c)).
Proof.
  revert b acc bc. induction n as [|n IH]; intros b acc bc I Hb Hd E; cbn [reorg_walk] in E; run E.
  all: destruct (walk_cache b bc g I Hb Hd) as (cache & Ew & I' & Hsub & Hc & _); rewrite Ew in E.
  all: destruct (Z.eqb_spec (NumberU64 b) 0) as [Hz|Hz];
    [injection E as <- <-; exists [], cache; split_and!; try done; split; [rewrite (pr_id _ _ _ _ Hb); cbn; by rewrite Hz|done]|].
  { discriminate E. }
  destruct (known_parent _ _ _ _ _ _ _ I Hb Hd Hz) as [Hdp Hnp]. pose proof (NumberU64_range b) as Hu. unfold is_u64 in Hu.
  run E. apply (findParent_ok _ _ _ _ g) in E0 as (Hp & cache2 & -> & I2 & Hsub2 & Hc2); [|done|by apply (proper_parent _ _ _ _ Hb)].
  cbn [bc_db blockCache with_blockCache] in *. destruct a as [p|]; [|contradiction]. destruct Hp as (Hp & Ep & _).
  apply IH in E as (l & cache3 & -> & B & -> & I3 & Hsub3 & Hc3); cbn [bc_db blockCache with_blockCache] in *; [|done|done|by rewrite Ep].
  rewrite Ep in B. exists (l ++ [b]), cache3. rewrite <- app_assoc. split_and!; try done.
  - apply branch_snoc; try done. lia.
  - etransitivity; [exact Hsub|]. by etransitivity.
  - intros k c Hk. apply lookup_app_Some in Hk as [Hk|[_ Hk]]; [by eapply Hc3|].
    apply list_lookup_singleton_Some in Hk as [_ <-]. destruct Hc as [x Hc]. exists x.
    apply (lookup_weaken cache2); [|done]. by apply (lookup_weaken cache).
Qed.

(** The way down ends at the genesis block. *)
Lemma ancestor_genesis (db : Database) cache g h :
  blocks_inv db cache g -> is_Hash h -> in_db db h -> ancestor_at idOf h 0 = Some (Block_Hash g).
Proof.
  intros I. destruct (inv_genesis _ _ _ _ _ _ I) as (Hg & Hz & _). pose proof (pr_id _ _ _ _ Hg) as Eg.
  assert (forall n h, is_Hash h -> in_db db h -> (idOf h).2 = Z.of_nat n -> climb idOf n h = Block_Hash g) as K.
  { intros n. induction n as [|n IH]; intros k Hk Hd En.
    - destruct (inv_link _ _ _ _ _ _ I k Hk Hd) as [->|(A & _)]; [done|lia].
    - destruct (inv_link _ _ _ _ _ _ I k Hk Hd) as [->|(A & B & F)]; [rewrite Eg in En; cbn in En; lia|].
      cbn [climb]. apply IH; [by eapply parent_hash|done|lia]. }
  intros Hh Hd. destruct (inv_db _ _ _ _ _ _ I h Hh Hd) as (b & Hb & <- & _). pose proof (pr_id _ _ _ _ Hb) as Eb.
  pose proof (NumberU64_range b) as Hu. unfold is_u64 in Hu. unfold ancestor_at. rewrite Eb. cbn [snd]. simpl Z.leb.
  destruct (Z.leb_spec 0 (NumberU64 b)); [|lia]. simpl andb. cbv iota. f_equal. apply K; [done|done|]. rewrite Eb. cbn. lia.
Qed.

Lemma unindex_ok num (bc : Blockchain St) g top :
  is_u64 num -> num <> 0 -> index_inv (bc_db bc) (canonCache bc) g top ->
  let bc' := unindex keccak256 eip7706 num bc in
  index_inv (bc_db bc') (canonCache bc') g top /\ canonCache bc' = delete num (canonCache bc) /\
  touches side_key (bc_db bc) (bc_db bc') /\ blockCache bc' = blockCache bc /\ bc_genesis bc' = bc_genesis bc.
Proof.
  intros Hu Hn I bc'. subst bc'. unfold unindex. destruct (canonCache bc !! num) as [hash|] eqn:E.
  2:{ split_and!; try done. by rewrite delete_id. }
  pose proof (index_del _ _ _ _ _ _ _ num Hu Hn I) as I'. pose proof (side_delete num (bc_db bc) Hu) as T.
  cbn zeta. set (bc1 := match headers _ !! num with Some _ => _ | None => _ end).
  assert (bc_db bc1 = DeleteCanonicalHash num (bc_db bc) /\ canonCache bc1 = delete num (canonCache bc) /\
    blockCache bc1 = blockCache bc /\ bc_genesis bc1 = bc_genesis bc) as (E1 & E2 & E3 & E4)
    by (subst bc1; by destruct (headers _ !! num)).
  destruct (blockCache bc1 !! hash) as [o|]; cbn [bc_db canonCache blockCache bc_genesis with_db with_txLookup];
    rewrite E1, E2, E3, E4; split_and!; try done.
  - eapply index_aux; [apply aux_forget|done].
  - eapply touches_trans; [exact T|]. apply aux_side, aux_forget.
Qed.

Lemma unindex_all_ok n (bc : Blockchain St) g top :
  Z.of_nat n < 2 ^ 64 -> index_inv (bc_db bc) (canonCache bc) g top ->
  let bc' := unindex_all keccak256 eip7706 n bc in
  index_inv (bc_db bc') (canonCache bc') g top /\
  (forall k, canonCache bc' !! k = if (1 <=? k) && (k <=? Z.of_nat n) then None else canonCache bc !! k) /\
  touches side_key (bc_db bc) (bc_db bc') /\ blockCache bc' = blockCache bc /\ bc_genesis bc' = bc_genesis bc.
Proof.
  revert bc. induction n as [|n IH]; intros bc Hl I; cbn [unindex_all].
  { split_and!; try done. intros k. destruct (Z.leb_spec 1 k), (Z.leb_spec k (Z.of_nat 0)); try done; lia. }
  destruct (unindex_ok (Z.of_nat (S n)) bc g top ltac:(unfold is_u64; lia) ltac:(lia) I) as (A1 & A2 & A3 & A4 & A5).
  set (bc1 := unindex _ _ _ _) in *. destruct (IH bc1 ltac:(lia) A1) as (B1 & B2 & B3 & B4 & B5).
  split_and!; [done| |by eapply touches_trans|congruence|congruence].
  intros k. rewrite B2, A2. destruct (decide (k = Z.of_nat (S n))) as [->|Hne].
  - rewrite lookup_delete_eq. destruct (Z.leb_spec 1 (Z.of_nat (S n))); [|lia].
    destruct (Z.leb_spec (Z.of_nat (S n)) (Z.of_nat (S n))); [|lia]. by destruct (_ <=? Z.of_nat n).
  - rewrite lookup_delete_ne by done. destruct (Z.leb_spec k (Z.of_nat n)), (Z.leb_spec k (Z.of_nat (S n))); try done; lia.
Qed.

Lemma reindex_ok b (bc bc' : Blockchain St) g top u :
  proper b -> in_db (bc_db bc) (Block_Hash b) -> 0 < NumberU64 b <= top ->
  blocks_inv (bc_db bc) (blockCache bc) g -> index_inv (bc_db bc) (canonCache bc) g top ->
  reindex keccak256 eip7706 b bc = Ok u bc' ->
  blocks_inv (bc_db bc') (blockCache bc') g /\ index_inv (bc_db bc') (canonCache bc') g top /\
  canonCache bc' = <[NumberU64 b := Block_Hash b]> (canonCache bc) /\ bc_genesis bc' = bc_genesis bc /\
  blockCache bc' = <[Block_Hash b := b]> (blockCache bc) /\
  (forall h, is_Hash h -> in_db (bc_db bc) h -> in_db (bc_db bc') h).
Proof.
  intros Hb Hd Hn I J E. unfold reindex in E. run E. run E.
  apply chain_write_run in E0 as (db1 & Ew & ->). cbn [bc_db with_canonCache with_blockCache] in Ew.
  run E. run E. injection E as _ <-. cbn [bc_db canonCache blockCache bc_genesis with_db with_canonCache with_blockCache with_txLookup with_hc].
  set (db2 := writeTxLookups _ _ _ _).
  assert (in_db db1 (Block_Hash b)) as Hd1
    by (apply (in_db_write keccak256 eip7706 idOf b (bc_db bc) db1); [done|apply Block_Hash_range|done|by left]).
  assert (touches side_key db1 db2) as T.
  { eapply touches_trans; [|apply aux_side, aux_txLookups].
    apply (touches_weaken index_key); [|apply touches_canonical, NumberU64_range]. intros [] Hi; try done; by apply Hi. }
  split_and!; try done.
  - apply (blocks_side _ _ _ db1); [done|]. apply blocks_put; [done|done|]. apply (blocks_write _ _ _ (bc_db bc) db1 _ g b); try done. by left.
  - eapply index_aux; [apply aux_txLookups|]. apply index_put; [apply NumberU64_range|done|apply Block_Hash_range|done| |].
    + by rewrite (pr_id _ _ _ _ Hb).
    + by apply (index_write _ _ _ (bc_db bc) db1 _ g top b).
  - intros h Hh Hin. apply (in_db_touches db1 db2); [done|done|].
    apply (in_db_write keccak256 eip7706 idOf b (bc_db bc) db1); [done..|by right].
Qed.

(** Index a branch. *)
Lemma reindex_all_ok l (bc bc' : Blockchain St) g top u :
  (forall b, b ∈ l -> proper b /\ in_db (bc_db bc) (Block_Hash b) /\ 0 < NumberU64 b <= top) ->
  blocks_inv (bc_db bc) (blockCache bc) g -> index_inv (bc_db bc) (canonCache bc) g top ->
  reindex_all keccak256 eip7706 l bc = Ok u bc' ->
  blocks_inv (bc_db bc') (blockCache bc') g /\ index_inv (bc_db bc') (canonCache bc') g top /\
  canonCache bc' = fold_left (fun m b => <[NumberU64 b := Block_Hash b]> m) l (canonCache bc) /\
  bc_genesis bc' = bc_genesis bc /\
  blockCache bc' = fold_left (fun m b => <[Block_Hash b := b]> m) l (blockCache bc) /\
  (forall h, is_Hash h -> in_db (bc_db bc) h -> in_db (bc_db bc') h).
Proof.
  revert bc. induction l as [|b l IH]; intros bc Hl I J E; cbn [reindex_all] in E.
  { injection E as _ <-. by split_and!. }
  destruct (Hl b ltac:(by left)) as (Hb & Hd & Hn). run E.
  apply (reindex_ok b bc bc0 g top a Hb Hd Hn I J) in E0 as (A1 & A2 & A3 & A4 & A5 & A6).
  destruct (IH bc0) as (B1 & B2 & B3 & B4 & B5 & B6); [|exact A1|exact A2|exact E|].
  - intros c Hc. destruct (Hl c ltac:(by right)) as (Q1 & Q2 & Q3). split; [done|]. split; [|done].
    apply A6; [apply Block_Hash_range|done].
  - cbn [fold_left]. rewrite A3 in B3. rewrite A5 in B5. rewrite A4 in B4. refine (conj B1 (conj B2 (conj B3 (conj B4 (conj B5 _))))).
    intros h Hh Hin. by apply B6, A6.
Qed.

(** The entries that indexing a branch leaves. *)
Lemma indexed_branch (l : list Block) (m : gmap Z Hash) (first : Z) :
  (forall (i : nat) b, l !! i = Some b -> NumberU64 b = first + Z.of_nat i) ->
  forall k, fold_left (fun m b => <[NumberU64 b := Block_Hash b]> m) l m !! k =
    (if first <=? k then match l !! Z.to_nat (k - first) with Some b => Some (Block_Hash b) | None => m !! k end
     else m !! k).
Proof.
  revert m first. induction l as [|b l IH]; intros m first Hl k; cbn [fold_left].
  { rewrite lookup_nil. by destruct (first <=? k). }
  pose proof (Hl 0%nat b eq_refl) as Hb. rewrite Z.add_0_r in Hb.
  rewrite (IH _ (first + 1)) by (intros i c Hc; rewrite (Hl (S i) c Hc); lia). rewrite Hb.
  destruct (Z.leb_spec first k), (Z.leb_spec (first + 1) k); try lia.
  - replace (Z.to_nat (k - first)) with (S (Z.to_nat (k - (first + 1)))) by lia. cbn [lookup list_lookup].
    destruct (l !! Z.to_nat (k - (first + 1))); [done|]. apply lookup_insert_ne. lia.
  - assert (k = first) as -> by lia. rewrite Z.sub_diag. cbn [lookup list_lookup]. apply lookup_insert_eq.
  - apply lookup_insert_ne. lia.
Qed.

Lemma branch_index (db : Database) cache g h l (m : gmap Z Hash) top :
  blocks_inv db cache g -> is_Hash h -> in_db db h -> branch db h l -> (idOf h).2 <= top ->
  m !! 0 = Some (Block_Hash g) -> (forall k, k <> 0 -> m !! k = None) ->
  follows idOf (fold_left (fun m b => <[NumberU64 b := Block_Hash b]> m) l m) h.
Proof.
  intros I Hh Hd [L B] Ht M0 M1 k.
  rewrite (indexed_branch l m 1) by (intros i b Hi; destruct (B i b Hi) as (_ & _ & -> & _); lia).
  destruct (Z.leb_spec 1 k) as [H1|H1].
  - destruct (l !! Z.to_nat (k - 1)) as [b|] eqn:E.
    + destruct (B _ b E) as (_ & _ & EN & EA). rewrite EN in EA. by replace (Z.of_nat (Z.to_nat (k - 1)) + 1) with k in EA by lia.
    + apply lookup_ge_None in E. rewrite M1 by lia. symmetry. apply ancestor_above. lia.
  - destruct (decide (k = 0)) as [->|Hk]; [rewrite M0; symmetry; by eapply ancestor_genesis|].
    rewrite M1 by done. unfold ancestor_at. destruct (Z.leb_spec 0 k); [lia|done].
Qed.

(** What a completed [reorg] leaves behind. *)
Lemma reorg_run b (bc bc' : Blockchain St) r :
  chain_inv bc -> proper b -> in_db (bc_db bc) (Block_Hash b) ->
  reorg keccak256 eip7706 fuel b bc = Ok r bc' ->
  (exists anc, r = inr anc) /\ chain_inv bc' /\ currentBlock bc' = Some b /\
  follows idOf (canonCache bc') (Block_Hash b) /\ bc_genesis bc' = bc_genesis bc /\
  (forall h, is_Hash h -> in_db (bc_db bc) h -> in_db (bc_db bc') h).
Proof.
  intros (hd & Eh & Hhd & Hdh & I & J) Hb Hd E. unfold reorg in E. run E. unfold head in E0. run E0. rewrite Eh in E0.
  injection E0 as <- <-. run E. pose proof (Block_Hash_range keccak256 eip7706 b) as Hh.
  apply (reorg_walk_run _ _ _ _ _ _ (bc_genesis bc)) in E0 as (l & cache & -> & B & -> & I1 & _ & _); [|done..].
  rewrite app_nil_r in E. run E. set (top := Z.max (NumberU64 hd) (NumberU64 b)) in *.
  pose proof (NumberU64_range hd) as Hu1. pose proof (NumberU64_range b) as Hu2. unfold is_u64 in Hu1, Hu2.
  pose proof (index_top _ _ _ _ _ _ _ top (Z.le_max_l _ _) J) as J1.
  destruct (unindex_all_ok (Z.to_nat top) (with_blockCache cache bc) (bc_genesis bc) top ltac:(lia) J1) as (K1 & K2 & K3 & K4 & K5).
  cbn [bc_db canonCache blockCache bc_genesis with_blockCache] in K2, K3, K4, K5. set (bc1 := unindex_all _ _ _ _) in *.
  assert (blocks_inv (bc_db bc1) (blockCache bc1) (bc_genesis bc)) as I2 by (rewrite K4; by apply (blocks_side _ _ _ (bc_db bc))).
  assert (forall h, is_Hash h -> in_db (bc_db bc) h -> in_db (bc_db bc1) h) as D1 by (intros h Hx; by apply in_db_touches).
  pose proof (pr_id _ _ _ _ Hb) as Eid. destruct B as [BL B].
  assert (forall c, c ∈ l -> proper c /\ in_db (bc_db bc1) (Block_Hash c) /\ 0 < NumberU64 c <= top) as HL.
  { intros c (i & Hi)%list_elem_of_lookup. destruct (B i c Hi) as (Q1 & Q2 & Q3 & Q4). split; [done|].
    split; [apply D1; [apply Block_Hash_range|done]|]. apply lookup_lt_Some in Hi. rewrite BL, Eid in Hi. cbn in Hi. lia. }
  run E. destruct (reindex_all_ok l bc1 bc0 (bc_genesis bc) top a HL I2 K1 E0) as (R1 & R2 & R3 & R4 & R5 & R6).
  run E. run E. run E. pose proof (quiet_ancestors _ _ _ _ _ _ _ E1) as V. injection E as <- <-. injection V as V1 V2 V3 V4 V5. cbn in V1, V2, V3, V4, V5.
  assert (follows idOf (canonCache bc0) (Block_Hash b)) as F.
  { rewrite R3. apply (branch_index (bc_db bc) cache (bc_genesis bc) (Block_Hash b) l (canonCache bc1) top); try done.
    - rewrite Eid. cbn. lia.
    - rewrite K2. apply J.
    - intros k Hk. rewrite K2. destruct (Z.leb_spec 1 k), (Z.leb_spec k (Z.of_nat (Z.to_nat top))); try done;
        destruct (canonCache bc !! k) as [x|] eqn:Ek; try done; destruct (inv_canon _ _ _ _ _ _ _ J _ _ Ek) as (Hx & _); lia. }
  assert (index_inv (bc_db bc0) (canonCache bc0) (bc_genesis bc) (NumberU64 b)) as R2'.
  { destruct R2 as [S1 S2 S3]. split; [|done|done]. intros n h En. destruct (S1 n h En) as (A1 & A2). split; [|done].
    rewrite F in En. unfold ancestor_at in En. rewrite Eid in En. cbn in En.
    destruct (Z.leb_spec n (NumberU64 b)); [lia|]. by rewrite andb_false_r in En. }
  pose proof (aux_heads (Block_Hash b) (bc_db bc0)) as T.
  assert (forall h, is_Hash h -> in_db (bc_db bc) h -> in_db (bc_db bc2) h) as D2.
  { intros h Hx Hin. rewrite V1. apply (in_db_touches (bc_db bc0)); [by apply aux_side|done|]. by apply R6, D1. }
  split; [by eexists|]. split; [|rewrite V3, V4, V5; split_and!; [done|exact F|congruence|exact D2]].
  exists b. pose proof (D2 _ Hh Hd) as D3. rewrite V1 in D3. rewrite V1, V2, V3, V4, V5, R4, K5. split; [done|]. split; [done|]. split; [|split].
  - exact D3.
  - apply (blocks_side _ _ _ (bc_db bc0)); [by apply aux_side|exact R1].
  - by apply (index_aux _ _ _ (bc_db bc0)).
Qed.

(** *** The reorganisation ends *)

Lemma writeBlock_writable b db : writable b -> exists db', writeBlock keccak256 eip7706 b db = Some db'.
Proof.
  unfold writable, writeBlock. rewrite Header_EncodeRLP_eq. destruct (encodeBlockBody eip7706 (blk_body b)); [by eexists..|done].
Qed.

(** Every ancestor is in the cache. *)
Definition cached_down (cache : gmap Z Block) (h : Hash) : Prop :=
  forall k, 0 <= k <= (idOf h).2 -> exists x, ancestor_at idOf h k = Some x /\ is_Some (cache !! x).

Lemma cached_down_sub cache cache' h :
  (forall k, is_Some (cache !! k) -> is_Some (cache' !! k)) -> cached_down cache h -> cached_down cache' h.
Proof. intros Hs Hc k Hk. destruct (Hc k Hk) as (x & E & Hx). exists x. split; [done|by apply Hs]. Qed.

Lemma findParent_total h (bc : Blockchain St) :
  good bc h -> exists p bc', findParent eip7706 fuel h bc = Ok (Some p) bc' /\ writable p /\
    forall x, fetchable bc x -> fetchable bc' x.
Proof.
  intros (c & E & Hc). unfold findParent, GetBlock, gbind, gget, gret in *. destruct (blockCache bc !! h) as [p|] eqn:Eh.
  - injection E as ->. by exists c, bc.
  - unfold chain_readBlock, gbind, gget in *. destruct (of_tres _ bc) as [r s| | |]; try discriminate E. injection E as -> ->.
    exists c, (with_blockCache (<[h := c]> (blockCache bc)) bc). split_and!; [done|done|]. intros x. by apply fetchable_put.
Qed.

Lemma reorg_walk_total n b acc (bc : Blockchain St) g :
  blocks_inv (bc_db bc) (blockCache bc) g -> proper b -> in_db (bc_db bc) (Block_Hash b) ->
  fetchable bc (Block_Hash b) -> writable b -> NumberU64 b <= Z.of_nat n ->
  exists l cache, reorg_walk keccak256 eip7706 fuel n b acc bc = Ok (Some (l ++ acc)) (with_blockCache cache bc) /\
    Forall writable l /\ blockCache bc ⊆ cache /\ cached_down cache (Block_Hash b).
Proof.
  revert b acc bc. induction n as [|n IH]; intros b acc bc I Hb Hd Hr Hwb Hn;
    pose proof (NumberU64_range b) as Hu; unfold is_u64 in Hu; pose proof (pr_id _ _ _ _ Hb) as Eid; cbn [reorg_walk];
    unfold gbind at 1, gmodify.
  all: destruct (walk_cache b bc g I Hb Hd) as (cache & -> & I' & Hsub & Hc & Hr'); specialize (Hr' _ Hwb Hr).
  all: destruct (Z.eqb_spec (NumberU64 b) 0) as [Hz|Hz]; [exists [], cache; split_and!; try done; intros k Hk;
    rewrite Eid in Hk; cbn in Hk; assert (k = (idOf (Block_Hash b)).2) as -> by (rewrite Eid; cbn; lia);
    exists (Block_Hash b); split; [apply ancestor_self; rewrite Eid; cbn; lia|done]|try lia].
  destruct (known_parent _ _ _ _ _ _ _ I Hb Hd Hz) as [Hdp Hnp].
  assert (forall k, k < NumberU64 b -> ancestor_at idOf (Block_Hash b) k = ancestor_at idOf (ParentHash b) k) as HA
    by (intros k Hk; rewrite ancestor_below; rewrite Eid; [done|exact Hk|exact Hnp]).
  destruct (findParent_total (ParentHash b) (with_blockCache cache bc)) as (p & bc2 & Ef & Hwp & Hw2).
  { apply (Hr' (NumberU64 b - 1)). rewrite HA by lia. rewrite <- Hnp. apply ancestor_self. lia. }
  pose proof Ef as Ef'. apply (findParent_ok _ _ _ _ g) in Ef' as ((Hp & Ep & _) & cache2 & -> & I2 & Hsub2 & _);
    [|done|by apply (proper_parent _ _ _ _ Hb)].
  unfold gbind at 1. rewrite Ef. pose proof (pr_id _ _ _ _ Hp) as Eidp. rewrite Ep in Eidp. rewrite Eidp in Hnp. cbn in Hnp.
  change (with_blockCache cache2 (with_blockCache cache bc)) with (with_blockCache cache2 bc) in *.
  destruct (IH p (b :: acc) (with_blockCache cache2 bc)) as (l & cache4 & E4 & F4 & S4 & D4); try done.
  { cbn. by rewrite Ep. }
  { rewrite Ep. intros k x Hx. apply (Hw2 _ Hr' k). rewrite HA; [done|]. unfold ancestor_at in Hx. rewrite Eidp in Hx. cbn in Hx.
    destruct (Z.leb_spec k (NumberU64 p)); [lia|]. by rewrite andb_false_r in Hx. }
  { lia. }
  cbn [bc_db blockCache with_blockCache] in *. rewrite E4. exists (l ++ [b]), cache4. rewrite <- app_assoc. split_and!.
  - done.
  - apply Forall_app. split; [done|by constructor].
  - etransitivity; [exact Hsub|]. by etransitivity.
  - intros k Hk. rewrite Eid in Hk. cbn in Hk. destruct (decide (k = NumberU64 b)) as [->|Hne].
    + exists (Block_Hash b). split.
      * pose proof (ancestor_self idOf (Block_Hash b)) as S. rewrite Eid in S. apply S. cbn. lia.
      * destruct Hc as [x Hx]. exists x. apply (lookup_weaken cache2); [|done]. by apply (lookup_weaken cache).
    + rewrite HA by lia. rewrite <- Ep. apply D4. rewrite Ep, Eidp. cbn. lia.
Qed.

Lemma reindex_total b (bc : Blockchain St) :
  writable b -> exists bc', reindex keccak256 eip7706 b bc = Ok tt bc' /\ blockCache bc' = <[Block_Hash b := b]> (blockCache bc).
Proof.
  intros Hw. destruct (writeBlock_writable b (bc_db bc) Hw) as (db1 & E).
  unfold reindex, chain_writeBlock, chain_write, gbind, gmodify, gget, gopt. cbn [bc_db with_canonCache with_blockCache].
  rewrite E. by eexists.
Qed.

Lemma reindex_all_total l (bc : Blockchain St) :
  Forall writable l -> exists bc', reindex_all keccak256 eip7706 l bc = Ok tt bc' /\
    forall h, is_Some (blockCache bc !! h) -> is_Some (blockCache bc' !! h).
Proof.
  intros Hl. revert bc. induction Hl as [|b l Hb _ IH]; intros bc; [by exists bc|].
  destruct (reindex_total b bc Hb) as (bc1 & E1 & C1). destruct (IH bc1) as (bc2 & E2 & C2).
  exists bc2. cbn [reindex_all]. unfold gbind. rewrite E1. split; [exact E2|]. intros h Hh. apply C2. rewrite C1, lookup_insert_is_Some'. by right.
Qed.

Lemma collect_total n b l (bc : Blockchain St) :
  blocks_inv (bc_db bc) (blockCache bc) (bc_genesis bc) -> proper b -> in_db (bc_db bc) (Block_Hash b) ->
  cached_down (blockCache bc) (Block_Hash b) -> NumberU64 b <= Z.of_nat n ->
  exists r, collect keccak256 eip7706 fuel n b l bc = Ok r bc.
Proof.
  revert b l. induction n as [|n IH]; intros b l I Hb Hd Hc Hn; pose proof (NumberU64_range b) as Hu; unfold is_u64 in Hu;
    pose proof (pr_id _ _ _ _ Hb) as Eid; cbn [collect]; unfold gbind at 1, gget, isGenesis;
    (destruct (Z.eqb_spec (Block_Hash b) (Block_Hash (bc_genesis bc))) as [|Hg]; [by eexists|]);
    (destruct (cached_state bc (ParentHash b)); [by eexists|]);
    (destruct (inv_link _ _ _ _ _ _ I (Block_Hash b) (Block_Hash_range _ _ b) Hd) as [|(A & B & F)]; [done|]);
    rewrite Eid in A, B, F; cbn [fst snd] in A, B, F; [lia|].
  destruct (Hc (NumberU64 b - 1)) as (x & Ex & p & Hp); [rewrite Eid; cbn; lia|].
  rewrite ancestor_below in Ex; rewrite Eid in *; cbn [fst snd] in *; [|lia|lia]. rewrite <- F in Ex. rewrite ancestor_self in Ex by lia.
  injection Ex as <-. unfold gbind at 1, GetBlock, gbind at 1, gget. rewrite Hp. unfold gret.
  destruct (inv_cache _ _ _ _ _ _ I _ _ Hp) as (Ep & Hpp & Hdp). pose proof (pr_id _ _ _ _ Hpp) as Eidp. rewrite Ep in Eidp.
  apply IH; try done; try (rewrite Ep; done).
  - rewrite Ep. intros k Hk. destruct (Hc k) as (y & Ey & Hy); [rewrite Eid; cbn; lia|]. exists y. split; [|done].
    rewrite ancestor_below in Ey; rewrite Eid in *; cbn [fst snd] in *; [done|lia|lia].
  - rewrite Eidp in F. cbn in F. lia.
Qed.

Lemma reorg_total b (bc : Blockchain St) :
  chain_inv bc -> proper b -> in_db (bc_db bc) (Block_Hash b) -> fetchable bc (Block_Hash b) ->
  writable b -> NumberU64 b <= Z.of_nat fuel -> exists anc bc', reorg keccak256 eip7706 fuel b bc = Ok (inr anc) bc'.
Proof.
  intros (hd & Eh & Hhd & Hdh & I & J) Hb Hd Hr Hwb Hn. unfold reorg, head. unfold gbind at 1 2, gget at 1. rewrite Eh. cbn [gopt gret].
  destruct (reorg_walk_total fuel b [] bc (bc_genesis bc) I Hb Hd Hr Hwb Hn) as (l & cache & E & Fl & _ & Dc).
  pose proof E as E'. apply (reorg_walk_run _ _ _ _ _ _ (bc_genesis bc)) in E' as (l' & cache' & El & B & Ec & I1 & _ & _); [|done..].
  rewrite !app_nil_r in *. injection El as <-. apply (f_equal blockCache) in Ec. cbn in Ec. subst cache'.
  unfold gbind at 1. rewrite E. set (top := Z.max (NumberU64 hd) (NumberU64 b)).
  pose proof (NumberU64_range hd) as Hu1. pose proof (NumberU64_range b) as Hu2. unfold is_u64 in Hu1, Hu2.
  pose proof (index_top _ _ _ _ _ _ _ top (Z.le_max_l _ _) J) as J1.
  destruct (unindex_all_ok (Z.to_nat top) (with_blockCache cache bc) (bc_genesis bc) top ltac:(lia) J1) as (K1 & K2 & K3 & K4 & K5).
  cbn [bc_db canonCache blockCache bc_genesis with_blockCache] in K2, K3, K4, K5.
  unfold gbind at 1, gmodify at 1. set (bc1 := unindex_all _ _ _ _) in *.
  assert (blocks_inv (bc_db bc1) (blockCache bc1) (bc_genesis bc)) as I2 by (rewrite K4; by apply (blocks_side _ _ _ (bc_db bc))).
  assert (forall h, is_Hash h -> in_db (bc_db bc) h -> in_db (bc_db bc1) h) as D1 by (intros h Hx; by apply in_db_touches).
  destruct (reindex_all_total l bc1 Fl) as (bc2 & E2 & C2). pose proof (pr_id _ _ _ _ Hb) as Eid. destruct B as [BL B].
  assert (forall c, c ∈ l -> proper c /\ in_db (bc_db bc1) (Block_Hash c) /\ 0 < NumberU64 c <= top) as HL.
  { intros c (i & Hi)%list_elem_of_lookup. destruct (B i c Hi) as (Q1 & Q2 & Q3 & Q4). split; [done|].
    split; [apply D1; [apply Block_Hash_range|done]|]. apply lookup_lt_Some in Hi. rewrite BL, Eid in Hi. cbn in Hi. lia. }
  destruct (reindex_all_ok l bc1 bc2 (bc_genesis bc) top tt HL I2 K1 E2) as (R1 & R2 & R3 & R4 & R5 & R6).
  unfold gbind at 1. rewrite E2. unfold gbind at 1, gmodify at 1. unfold gbind at 1, gmodify at 1. unfold gbind at 1.
  match goal with |- context [collectAncestorsLocked _ _ _ b ?s] => set (bc3 := s) end.
  pose proof (aux_heads (Block_Hash b) (bc_db bc2)) as T.
  destruct (collect_total fuel b [] bc3) as [[[anc base] m] Er].
  { cbn. rewrite R4, K5. apply (blocks_side _ _ _ (bc_db bc2)); [by apply aux_side|exact R1]. }
  { done. }
  { apply (in_db_touches (bc_db bc2)); [by apply aux_side|apply Block_Hash_range|]. apply R6, D1; [apply Block_Hash_range..|done]. }
  { cbn. eapply cached_down_sub; [exact C2|]. by rewrite K4. }
  { done. }
  unfold collectAncestorsLocked. unfold gbind at 1, gget. cbn [gret]. destruct (isGenesis _ _ bc3 b); [by eexists _, _|].
  destruct (cached_state bc3 (Block_Hash b)); [by eexists _, _|]. unfold gbind at 1. rewrite Er. by eexists _, _.
Qed.

Lemma Reorg_run b (bc bc' : Blockchain St) r :
  chain_inv bc -> proper b -> in_db (bc_db bc) (Block_Hash b) -> Reorg keccak256 eip7706 fuel b bc = Ok r bc' ->
  chain_inv bc' /\ currentBlock bc' = Some b /\ follows idOf (canonCache bc') (Block_Hash b) /\ bc_genesis bc' = bc_genesis bc /\
  (forall h, is_Hash h -> in_db (bc_db bc) h -> in_db (bc_db bc') h).
Proof.
  intros HI Hb Hd E. unfold Reorg in E. apply ebind_ok in E as [(e & E & ->)|(anc & bc1 & E1 & E)].
  { destruct (reorg_run b bc bc' _ HI Hb Hd E) as ((? & [=]) & _). }
  destruct (reorg_run b bc bc1 _ HI Hb Hd E1) as (_ & HI1 & C1 & F1 & G1 & D1).
  assert (view bc' = view bc1) as V.
  { apply ebind_ok in E as [(e & E & ->)|(st & bc2 & E2 & E)].
    - by rewrite (quiet_reexecute _ _ _ _ _ _ _ _ E).
    - pose proof (quiet_reexecute _ _ _ _ _ _ _ _ E2) as V. run E. run E. injection E as <- <-. exact V. }
  pose proof (chain_inv_view _ _ V HI1) as HI2. injection V as V1 V2 V3 V4 V5. rewrite V1, V3, V4, V5. by split_and!.
Qed.

End ChainInv.
