(* ===== verification/ChainSteps.v ===== *)
(** * ChainSteps: the reachable states of the block chain

    The operations as a step relation, from a new chain on an empty database:
    the invariant in every reachable state, and the canonical index as the
    ancestry of the head. *)

From stdpp Require Import gmap.
From S2P Require Import Prelude Rlp RlpProofs StateDB Transactions TxProofs Machine Blocks BlockProofs ChainConfig Receipts.
From S2P Require Import BlockProcessor Trie RawDB RawDBProofs BlockStore BlockStoreProofs Validator HeaderChain ValidatorProofs.
From S2P Require Import StateCache Chain ChainProofs ChainInv.
Local Open Scope Z_scope.
Local Open Scope go_scope.

Lemma aux_prune (headBlock retention : Z) (db : Database) :
  is_u64 headBlock -> 0 <= retention -> touches aux_key db (PruneHistory headBlock retention db).2.
Proof.
  intros Hh Hr. unfold is_u64 in Hh.
  destruct (Z_lt_le_dec headBlock retention) as [Hl|Hl].
  { unfold PruneHistory. destruct (Z.ltb_spec headBlock retention); [|lia]. apply touches_refl. }
  destruct (Z_lt_le_dec (ReadHistoryOldest db) (headBlock - retention)) as [Ho|Ho].
  - pose proof (prune_history_spec db headBlock retention Hh (conj Hr Hl) Ho) as P.
    destruct (PruneHistory headBlock retention db) as [[n o] db']. destruct P as (_ & _ & _ & P). intros k Hk Ha.
    apply P; [done|by intros ->|]. intros (m & h & _ & _ & [->| ->]); by apply Ha.
  - unfold PruneHistory. destruct (Z.ltb_spec headBlock retention); [lia|]. rewrite u64_small by (unfold is_u64; lia).
    destruct (Z.geb_spec (ReadHistoryOldest db) (headBlock - retention)); [apply touches_refl|lia].
Qed.

Section Steps.

Context {St : Type} `{ChainState St}.
Context (keccak256 : bytes -> bytes) (eip7706 : bool) (fuel : nat) (config : ChainConfig).
Context (idOf : Hash -> Hash * Z).

Abbreviation Block_Hash := (Block_Hash keccak256 eip7706).
Abbreviation proper := (proper keccak256 eip7706 idOf).
Abbreviation chain_inv := (chain_inv keccak256 eip7706 idOf).
Abbreviation follows := (follows idOf).

(** One completed call, where the inserted blocks satisfy [ok].  A
    reorganisation is asked for a block the chain gave out. *)
Inductive chain_step (ok : Block -> Blockchain St -> Prop) : Blockchain St -> Blockchain St -> Prop :=
  | step_insert b r bc bc' :
      proper b -> ok b bc -> InsertBlock keccak256 eip7706 fuel config b bc = Ok r bc' -> chain_step ok bc bc'
  | step_set_head n r bc bc' :
      SetHead keccak256 eip7706 fuel n bc = Ok r bc' -> chain_step ok bc bc'
  | step_reorg h b r bc bc' :
      is_Hash h -> GetBlock eip7706 fuel h bc = Ok (Some b) bc ->
      Reorg keccak256 eip7706 fuel b bc = Ok r bc' -> chain_step ok bc bc'
  | step_state b r bc bc' :
      StateAtBlock keccak256 eip7706 fuel b bc = Ok r bc' -> chain_step ok bc bc'
  | step_finalized b bc bc' :
      SetFinalized keccak256 eip7706 b bc = Ok tt bc' -> chain_step ok bc bc'
  | step_safe b bc bc' :
      SetSafe b bc = Ok tt bc' -> chain_step ok bc bc'
  | step_prune retention n bc bc' :
      0 <= retention -> chain_PruneHistory retention bc = Ok n bc' -> chain_step ok bc bc'
  | step_evict h bc bc' :
      EvictBlockFromCache h bc = Ok tt bc' -> chain_step ok bc bc'.

(** The chains that can be reached from a new one. *)
Inductive reachable (ok : Block -> Blockchain St -> Prop) (g : Block) (bc : Blockchain St) : Prop :=
  | reach st opts bc0 :
      proper g -> NumberU64 g = 0 ->
      NewBlockchain keccak256 eip7706 fuel (Some g) st ∅ opts = Some (inr bc0) ->
      rtc (chain_step ok) bc0 bc -> reachable ok g bc.

Lemma Reorg_known h b (bc : Blockchain St) :
  chain_inv bc -> is_Hash h -> GetBlock eip7706 fuel h bc = Ok (Some b) bc ->
  proper b /\ Block_Hash b = h /\ in_db (bc_db bc) (Block_Hash b).
Proof.
  intros (hd & _ & _ & _ & I & _) Hh E. eapply (GetBlock_ok keccak256 eip7706 fuel idOf h bc bc (Some b)) in E as [_ (A & B & D)]; [|done..].
  by rewrite B.
Qed.

Lemma step_inv ok (bc bc' : Blockchain St) : chain_step ok bc bc' -> chain_inv bc -> chain_inv bc'.
Proof.
  intros Hs HI. destruct Hs as [b r bc bc' Hb Hok E|n r bc bc' E|h b r bc bc' Hh Eg E|b r bc bc' E|b bc bc' E|b bc bc' E|ret n bc bc' Hr E|h bc bc' E].
  - by eapply InsertBlock_inv.
  - by eapply SetHead_inv.
  - destruct (Reorg_known h b bc HI Hh Eg) as (A & B & D). by apply (Reorg_run keccak256 eip7706 fuel idOf b bc bc' r).
  - eapply chain_inv_view; [by eapply quiet_StateAtBlock|done].
  - injection E as <-. destruct HI as (hd & A & B & D & I & J). set (h := match b with Some _ => _ | None => _ end).
    assert (touches aux_key (bc_db bc) (WriteFinalizedBlockHash h (bc_db bc))) as T by (by apply (aux_put KFinalized)).
    exists hd. cbn. split_and!; [done|done| | |].
    + apply (in_db_touches (bc_db bc)); [by apply aux_side|apply Block_Hash_range|done].
    + apply (blocks_side _ _ _ (bc_db bc)); [by apply aux_side|done].
    + by apply (index_aux _ _ _ (bc_db bc)).
  - by injection E as <-.
  - unfold chain_PruneHistory in E. run E. destruct HI as (hd & A & B & D & I & J). rewrite A in E.
    pose proof (aux_prune (NumberU64 hd) ret (bc_db bc) (NumberU64_range hd) Hr) as T.
    destruct (PruneHistory (NumberU64 hd) ret (bc_db bc)) as [[x y] db']. cbn in T. run E. injection E as <- <-.
    exists hd. cbn. split_and!; [done|done| | |].
    + apply (in_db_touches (bc_db bc)); [by apply aux_side|apply Block_Hash_range|done].
    + apply (blocks_side _ _ _ (bc_db bc)); [by apply aux_side|done].
    + by apply (index_aux _ _ _ (bc_db bc)).
  - injection E as <-. destruct HI as (hd & A & B & D & I & J). exists hd. cbn. split_and!; try done.
    eapply blocks_sub; [apply delete_subseteq|done].
Qed.

Lemma db_view (bc bc' : Blockchain St) : view bc' = view bc -> bc_db bc' = bc_db bc.
Proof. unfold view. by intros [= -> _ _ _ _]. Qed.

Lemma SetHead_keeps n (bc bc' : Blockchain St) r :
  chain_inv bc -> SetHead keccak256 eip7706 fuel n bc = Ok r bc' -> touches side_key (bc_db bc) (bc_db bc').
Proof.
  intros HI E. destruct (SetHead_run _ _ _ _ _ _ _ _ HI E) as [(_ & ->)|(hd & t & bc1 & db & Eh & Et & -> & Ec & T & V)];
    [apply touches_refl|]. rewrite (db_view _ _ V). destruct HI as (hd' & Eh' & _ & _ & _ & J). rewrite Eh in Eh'. injection Eh' as <-.
  destruct (inv_canon _ _ _ _ _ _ _ J _ _ Et) as ([N1 N2] & _). pose proof (NumberU64_range hd) as Hu. unfold is_u64 in Hu.
  destruct (drop_canonical_ok keccak256 eip7706 idOf n (Z.to_nat (NumberU64 hd - n)) bc (bc_genesis bc)) as (A1 & A2 & A3 & A4 & A5);
    [lia|lia| |].
  { by replace (n + Z.of_nat (Z.to_nat (NumberU64 hd - n))) with (NumberU64 hd) by lia. }
  eapply touches_trans; [|by apply aux_side]. done.
Qed.

Lemma InsertBlock_keeps b (bc bc' : Blockchain St) r h :
  chain_inv bc -> proper b -> InsertBlock keccak256 eip7706 fuel config b bc = Ok r bc' ->
  is_Hash h -> in_db (bc_db bc) h -> in_db (bc_db bc') h.
Proof.
  intros HI Hb E Hh Hd.
  apply (InsertBlock_run keccak256 eip7706 fuel config idOf b bc bc' r HI Hb) in E
    as [(_ & -> & _)|[(e & cache & _ & V & _)|(_ & p & hd & cache & Hp & Ep & Hdp & Eh & I & Hv & _ & _ & P & _)]]; [done| |].
  - by rewrite (db_view _ _ V).
  - destruct (accepted_attaches keccak256 eip7706 config idOf b p (bc_db bc) Hb Hp Hdp Hv) as (_ & _ & Ha).
    by apply (persisted_blocks keccak256 eip7706 idOf _ _ _ _ _ _ Hb Ha P I).
Qed.

(** A block the chain knows stays known. *)
Lemma step_keeps ok (bc bc' : Blockchain St) h :
  chain_step ok bc bc' -> chain_inv bc -> is_Hash h -> in_db (bc_db bc) h -> in_db (bc_db bc') h.
Proof.
  intros Hs HI Hh Hd.
  assert (touches side_key (bc_db bc) (bc_db bc') -> in_db (bc_db bc') h) as K by (intros T; by apply (in_db_touches (bc_db bc))).
  destruct Hs as [b r bc bc' Hb Hok E|n r bc bc' E|x b r bc bc' Hx Eg E|b r bc bc' E|b bc bc' E|b bc bc' E|ret n bc bc' Hr E|x bc bc' E].
  - by eapply InsertBlock_keeps.
  - apply K. by eapply SetHead_keeps.
  - destruct (Reorg_known x b bc HI Hx Eg) as (A & B & D).
    by apply (Reorg_run keccak256 eip7706 fuel idOf b bc bc' r HI A D E).
  - by rewrite (db_view bc bc') by (by eapply quiet_StateAtBlock).
  - apply K. injection E as <-. apply aux_side. by apply (aux_put KFinalized).
  - by injection E as <-.
  - apply K. unfold chain_PruneHistory in E. run E. destruct HI as (hd & A & _). rewrite A in E.
    pose proof (aux_prune (NumberU64 hd) ret (bc_db bc) (NumberU64_range hd) Hr) as T.
    destruct (PruneHistory (NumberU64 hd) ret (bc_db bc)) as [[y z] db']. run E. injection E as <- <-. by apply aux_side.
  - by injection E as <-.
Qed.

(** *** A new chain *)

Lemma ReadHeaderNumber_empty h : ~ in_db ∅ h.
Proof. unfold in_db, ReadHeaderNumber, db_Get. rewrite lookup_empty. by intros []. Qed.

Lemma genesis_blocks g db :
  proper g -> NumberU64 g = 0 -> writeBlock keccak256 eip7706 g ∅ = Some db ->
  blocks_inv keccak256 eip7706 idOf db {[Block_Hash g := g]} g /\
  (forall n, is_u64 n -> ReadCanonicalHash db n = None) /\ ReadFinalizedBlockHash db = 0.
Proof.
  intros Hg Hz Hw. pose proof (Block_Hash_range keccak256 eip7706 g) as Hh.
  assert (forall h, is_Hash h -> in_db db h <-> h = Block_Hash g) as D.
  { intros h Hx. rewrite (in_db_write keccak256 eip7706 idOf g ∅ db) by done. split; [|by left].
    intros [|Hi]; [done|]. by apply ReadHeaderNumber_empty in Hi. }
  split; [split|split].
  - intros h b. rewrite lookup_singleton_Some. intros [<- <-]. split_and!; [done|done|by apply D].
  - intros h Hx ->%D; [|done]. by apply (write_own keccak256 eip7706 idOf g ∅).
  - intros h Hx ->%D; [|done]. by left.
  - split_and!; [done|done|by apply D].
  - intros n Hn. rewrite (canonical_write keccak256 eip7706 g ∅ db) by done. done.
  - unfold ReadFinalizedBlockHash, db_Get.
    rewrite (writeBlock_touches keccak256 eip7706 g ∅ db Hw KFinalized I ltac:(intros [|[|]]; done) : db !! headFinalizedKey = _). done.
Qed.

Lemma new_chain_inv g st opts (bc : Blockchain St) :
  proper g -> NumberU64 g = 0 -> NewBlockchain keccak256 eip7706 fuel (Some g) st ∅ opts = Some (inr bc) ->
  chain_inv bc /\ follows (canonCache bc) (Block_Hash g) /\ currentBlock bc = Some g /\ bc_genesis bc = g.
Proof.
  intros Hg Hz E. unfold NewBlockchain in E. apply bind_Some in E as (hc & _ & E). rewrite bool_decide_false in E by done.
  apply bind_Some in E as (db & Ew & E). apply bind_Some in Ew as (db1 & Ew & Ed). injection Ed as <-. rewrite Hz in E.
  destruct (genesis_blocks g db1 Hg Hz Ew) as (I & Hc & Hf). pose proof (Block_Hash_range keccak256 eip7706 g) as Hh.
  set (db2 := WriteCanonicalHash 0 (Block_Hash g) db1) in *. pose proof (aux_heads (Block_Hash g) db2) as T.
  assert (is_u64 0) as U0 by (unfold is_u64; lia).
  assert (touches index_key db1 db2) as T1 by (by apply touches_canonical).
  assert (touches side_key db1 db2) as T2 by (apply (touches_weaken index_key); [intros [] Hi; try done; by apply Hi|done]).
  assert (ReadFinalizedBlockHash (WriteHeadHeaderHash (Block_Hash g) (WriteHeadBlockHash (Block_Hash g) db2)) = 0) as Ef.
  { rewrite <- Hf. unfold ReadFinalizedBlockHash, db_Get, WriteHeadHeaderHash, WriteHeadBlockHash, db2, WriteCanonicalHash.
    change headFinalizedKey with (key_bytes KFinalized). change headHeaderKey with (key_bytes KHeadHeader).
    change headBlockKey with (key_bytes KHeadBlock). change (canonicalKey 0) with (key_bytes (KCanonical 0)).
    by rewrite !get_put by done. }
  rewrite Ef in E. injection E as <-. split; [|split_and!].
  - exists g. cbn. split_and!; [done|done| | |].
    + apply (in_db_touches db2); [by apply aux_side|done|]. apply (in_db_touches db1); [done|done|]. by apply (inv_genesis _ _ _ _ _ _ I).
    + apply (blocks_side _ _ _ db2); [by apply aux_side|]. by apply (blocks_side _ _ _ db1).
    + apply (index_aux _ _ _ db2); [done|]. split.
      * intros n h. rewrite lookup_singleton_Some. intros [<- <-]. rewrite Hz, (pr_id _ _ _ _ Hg). cbn. split_and!; [lia|lia|apply Hh..| |done].
        apply (in_db_touches db1); [done|done|]. by apply (inv_genesis _ _ _ _ _ _ I).
      * by rewrite lookup_singleton_eq.
      * intros n Hn. unfold db2. rewrite ReadCanonicalHash_write by done. destruct (decide (0 = n)) as [<-|Hne].
        -- by rewrite lookup_singleton_eq.
        -- rewrite lookup_singleton_ne by done. by apply Hc.
  - intros n. cbn. pose proof (pr_id _ _ _ _ Hg) as Eid. rewrite Hz in Eid. destruct (decide (n = 0)) as [->|Hn].
    + rewrite lookup_singleton_eq. pose proof (ancestor_self idOf (Block_Hash g)) as S. rewrite Eid in S. symmetry. by apply S.
    + rewrite lookup_singleton_ne by done. unfold ancestor_at. rewrite Eid. cbn [snd].
      destruct (Z.leb_spec 0 n), (Z.leb_spec n 0); try done. lia.
  - done.
  - done.
Qed.

Lemma reachable_inv ok g (bc : Blockchain St) : reachable ok g bc -> chain_inv bc.
Proof.
  intros [st opts bc0 Hg Hz E R]. destruct (new_chain_inv g st opts bc0 Hg Hz E) as (HI & _).
  clear E. induction R as [|x y z Hs R IH]; [done|]. apply IH. by eapply step_inv.
Qed.

(** *** The index and the ancestry of the head *)

(** The index holds the ancestry of the head. *)
Definition on_branch (bc : Blockchain St) : Prop :=
  exists hd, currentBlock bc = Some hd /\ follows (canonCache bc) (Block_Hash hd).

(** A block that is not above the head, or that extends it. *)
Definition extends (b : Block) (bc : Blockchain St) : Prop :=
  forall hd, currentBlock bc = Some hd -> NumberU64 b <= NumberU64 hd \/ ParentHash b = Block_Hash hd.

Lemma on_branch_view (bc bc' : Blockchain St) : view bc' = view bc -> on_branch bc -> on_branch bc'.
Proof. unfold view, on_branch. intros V. injection V as _ _ V3 V4 _. by rewrite V3, V4. Qed.

Lemma InsertBlock_on_branch b (bc bc' : Blockchain St) r :
  chain_inv bc -> proper b -> extends b bc -> on_branch bc ->
  InsertBlock keccak256 eip7706 fuel config b bc = Ok r bc' -> on_branch bc'.
Proof.
  intros HI Hb Hx Ho E.
  apply (InsertBlock_run keccak256 eip7706 fuel config idOf b bc bc' r HI Hb) in E
    as [(_ & -> & _)|[(e & cache & _ & V & _)|(_ & p & hd & cache & Hp & Ep & Hd & Eh & _ & Hv & _ & _ & Hi)]].
  - done.
  - apply (on_branch_view _ _ V). exact Ho.
  - destruct Hi as (_ & _ & _ & Q). destruct Ho as (hd' & Eh' & F). rewrite Eh in Eh'. injection Eh' as <-.
    cbn [canonCache currentBlock with_blockCache] in Q.
    destruct (accepted_attaches keccak256 eip7706 config idOf b p (bc_db bc) Hb Hp Hd Hv) as (E1 & Hn & _).
    destruct (accepted_number _ _ _ _ _ Hv) as (n & N1 & N2).
    destruct (Z.gtb_spec (NumberU64 b) (NumberU64 hd)) as [Hg|Hg]; destruct Q as [Q1 Q2].
    + destruct (Hx hd Eh) as [|Epar]; [lia|]. exists b. split; [done|]. rewrite Q1. pose proof (pr_id _ _ _ _ Hb) as Eid.
      pose proof (follows_extend idOf (canonCache bc) (Block_Hash b)) as K. rewrite Eid in K. cbn [fst snd] in K.
      apply K; [done| |by rewrite Epar]. rewrite E1, (pr_id _ _ _ _ Hp). cbn [snd].
      pose proof (pr_number _ _ _ _ Hb) as U1. pose proof (pr_number _ _ _ _ Hp) as U2. unfold block_Number in U1, U2.
      change (h_Number (blk_header b)) with (h_Number (block_Header b)) in U1. change (h_Number (blk_header p)) with (h_Number (block_Header p)) in U2.
      rewrite N2 in U1. rewrite N1 in U2. simpl in U1, U2. lia.
    + exists hd. rewrite Q1, Q2. done.
Qed.

Lemma SetHead_on_branch number (bc bc' : Blockchain St) r :
  chain_inv bc -> on_branch bc -> SetHead keccak256 eip7706 fuel number bc = Ok r bc' -> on_branch bc'.
Proof.
  intros HI Ho E. destruct (SetHead_run keccak256 eip7706 fuel idOf number bc bc' r HI E)
    as [(_ & ->)|(hd & t & bc1 & db & Eh & Et & -> & Ec & T & V)]; [done|].
  apply (on_branch_view _ _ V). destruct HI as (hd' & Eh' & Hhd & Hd & I & J). rewrite Eh in Eh'. injection Eh' as <-.
  destruct Ho as (hd' & Eh' & F). rewrite Eh in Eh'. injection Eh' as <-.
  destruct (inv_canon _ _ _ _ _ _ _ J _ _ Et) as ([N1 N2] & Hh & Hdt & Hnum).
  pose proof (NumberU64_range hd) as Hu. unfold is_u64 in Hu. pose proof (pr_id _ _ _ _ Hhd) as Eid.
  destruct (drop_canonical_ok keccak256 eip7706 idOf number (Z.to_nat (NumberU64 hd - number)) bc (bc_genesis bc)) as (A1 & _ & _ & _ & A5); [lia|lia| |].
  { by replace (number + Z.of_nat (Z.to_nat (NumberU64 hd - number))) with (NumberU64 hd) by lia. }
  exists t. cbn. split; [done|]. intros k. destruct (Z_le_gt_dec k number) as [Hk|Hk].
  - rewrite A5 by done. rewrite F. apply (ancestor_agree idOf _ _ (Block_Hash t)).
    + lia.
    + rewrite Eid, Hnum. cbn. lia.
    + lia.
    + rewrite Hnum. by rewrite <- F.
    + apply ancestor_self. lia.
  - rewrite ancestor_above by lia. destruct (canonCache _ !! k) as [x|] eqn:Ek; [|done].
    destruct (inv_canon _ _ _ _ _ _ _ A1 _ _ Ek) as (Hx & _). lia.
Qed.

Lemma step_on_branch (bc bc' : Blockchain St) : chain_step extends bc bc' -> chain_inv bc -> on_branch bc -> on_branch bc'.
Proof.
  intros Hs HI Ho.
  destruct Hs as [b r bc bc' Hb Hok E|n r bc bc' E|h b r bc bc' Hh Eg E|b r bc bc' E|b bc bc' E|b bc bc' E|ret n bc bc' Hr E|h bc bc' E].
  - by eapply InsertBlock_on_branch.
  - by eapply SetHead_on_branch.
  - destruct (Reorg_known h b bc HI Hh Eg) as (A & B & D).
    destruct (Reorg_run keccak256 eip7706 fuel idOf b bc bc' r HI A D E) as (_ & C1 & F & _). by exists b.
  - eapply on_branch_view; [by eapply quiet_StateAtBlock|done].
  - by injection E as <-.
  - by injection E as <-.
  - unfold chain_PruneHistory in E. run E. destruct (currentBlock bc) as [hd|] eqn:A; [|by injection E as <- <-].
    destruct (PruneHistory (NumberU64 hd) ret (bc_db bc)) as [[x y] db']. run E. injection E as <- <-. exact Ho.
  - by injection E as <-.
Qed.

Lemma reachable_on_branch g (bc : Blockchain St) : reachable extends g bc -> on_branch bc.
Proof.
  intros [st opts bc0 Hg Hz E R]. destruct (new_chain_inv g st opts bc0 Hg Hz E) as (HI & F & Ec & _).
  assert (on_branch bc0) as Ho by (by exists g). clear E F Ec.
  induction R as [|x y z Hs R IH]; [done|]. apply IH; [by eapply step_inv|by eapply step_on_branch].
Qed.

End Steps.
