(* ===== verification/ChainProps.v ===== *)
(** * ChainProps: the theorems of the block chain

    Consistency of every reachable chain, blocks by number as the ancestry of
    the head, reorganisation; and what goes wrong beside them, on a small
    chain. *)

From stdpp Require Import gmap.
From S2P Require Import Prelude Rlp RlpProofs StateDB Transactions TxProofs Machine Blocks BlockProofs ChainConfig Receipts.
From S2P Require Import BlockProcessor Trie RawDB RawDBProofs BlockStore BlockStoreProofs Validator HeaderChain ValidatorProofs.
From S2P Require Import StateCache Chain ChainProofs ChainInv ChainSteps.
Local Open Scope Z_scope.
Local Open Scope go_scope.

(** ** A small chain

    The state is the list of the blocks executed; the blocks are empty. *)

Definition t_hash (b : bytes) : bytes :=
  be_bytes 32 (fold_left (fun a x => Z.land (a * 33 + x + 1) 0x1FFFFFFFFFFFFFFF) b 0).

#[export] Instance logState : ChainState (list Hash) := {|
  cs_Dup := id;
  cs_Process _ b := fun st => Ok (inr (mkProcessResult [] None)) (st ++ [BlockStore.Block_Hash t_hash false b]);
  cs_Requests _ := id;
  cs_GetRoot _ := Ok 0 tt;
  cs_Commit := id;
|}.

Definition t_block (h : Header) : Block := mkBlock h (mkBody [] [] None).

(** Three branches from the genesis block. *)
Definition t_g : Block := Eval vm_compute in t_block v_genesis.
Definition t_a1 : Block := Eval vm_compute in t_block (v_child t_hash None None [] v_genesis).
Definition t_a2 : Block := Eval vm_compute in t_block (v_child t_hash None None [] (blk_header t_a1)).
Definition t_b1 : Block := Eval vm_compute in t_block (v_child t_hash None None [7] v_genesis).
Definition t_b2 : Block := Eval vm_compute in t_block (v_child t_hash None None [] (blk_header t_b1)).
Definition t_b3 : Block := Eval vm_compute in t_block (v_child t_hash None None [] (blk_header t_b2)).
Definition t_d1 : Block := Eval vm_compute in t_block (v_child t_hash None None [9] v_genesis).

Definition t_blocks : list Block := [t_g; t_a1; t_a2; t_b1; t_b2; t_b3; t_d1].

Definition t_ids : list (Hash * (Hash * Z)) :=
  Eval vm_compute in map (fun b => (Block_Hash t_hash false b, (ParentHash b, NumberU64 b))) t_blocks.

Definition t_id (h : Hash) : Hash * Z := from_option snd (0, 0) (List.find (fun e => e.1 =? h) t_ids).

Definition t_config : ChainConfig := v_config None None None.

Definition t_opts : BlockchainOpts := mkOpts 0 0 1.

Definition t_new : Blockchain (list Hash) :=
  Eval vm_compute in match NewBlockchain t_hash false 100 (Some t_g) [] ∅ t_opts with
  | Some (inr bc) => bc
  | _ => mkBlockchain ∅ (mkHeaderChain ∅ ∅ v_genesis) t_opts ∅ [] ∅ ∅ [] ∅ (newStateCache 0) (newStateCache 0) [] [] []
           t_g None None None
  end.

Definition t_insert (b : Block) (bc : Blockchain (list Hash)) : Blockchain (list Hash) :=
  match InsertBlock t_hash false 100 t_config b bc with Ok _ bc' => bc' | _ => bc end.

Lemma t_proper : Forall (proper t_hash false t_id) t_blocks.
Proof.
  assert (forall b, header_ok (blk_header b) -> bool_decide (zlen (wrapList (header_payload false (blk_header b))) < 2 ^ 63) = true ->
     bool_decide (block_Number b = NumberU64 b) = true ->
     bool_decide (t_id (Block_Hash t_hash false b) = (ParentHash b, NumberU64 b)) = true -> proper t_hash false t_id b) as K.
  { intros b H1 H2%bool_decide_eq_true H3%bool_decide_eq_true H4%bool_decide_eq_true.
    split; [split; assumption|assumption|assumption]. }
  repeat first [apply Forall_cons_2|apply Forall_nil_2]; (apply K; [|vm_compute; reflexivity..]).
  all: split; unfold is_Hash, is_Address, is_u64; repeat first [apply Forall_cons_2|apply Forall_nil_2];
    lazymatch goal with
    | |- forall _, _ => let E := fresh in intros x E; vm_compute in E; discriminate E
    | |- _ => repeat split; vm_compute; first [reflexivity | discriminate]
    end.
Qed.

Lemma t_new_ok : NewBlockchain t_hash false 100 (Some t_g) [] ∅ t_opts = Some (inr t_new).
Proof. vm_compute. reflexivity. Qed.


(** The chain after each of the insertions; the states of the last blocks only
    are cached. *)
Definition t_c1 : Blockchain (list Hash) := Eval vm_compute in t_insert t_a1 t_new.
Definition t_c2 : Blockchain (list Hash) := Eval vm_compute in t_insert t_a2 t_c1.
Definition t_c3 : Blockchain (list Hash) := Eval vm_compute in t_insert t_b1 t_c2.
Definition t_c4 : Blockchain (list Hash) := Eval vm_compute in t_insert t_b2 t_c3.
Definition t_c5 : Blockchain (list Hash) := Eval vm_compute in t_insert t_d1 t_c4.

Lemma t_runs :
  let run b bc bc' := InsertBlock t_hash false 100 t_config b bc = Ok (inr tt) bc' in
  run t_a1 t_new t_c1 /\ run t_a2 t_c1 t_c2 /\ run t_b1 t_c2 t_c3 /\ run t_b2 t_c3 t_c4 /\ run t_d1 t_c4 t_c5.
Proof. split_and!; vm_compute; reflexivity. Qed.

(** A block above the head that does not extend it becomes the head, and the
    canonical index is not the ancestry of the head any more: the block at
    height 2 is still the one of the other branch. *)
Lemma side_branch_unlinks_index :
  match InsertBlock t_hash false 100 t_config t_b3 t_c5 with
  | Ok (inr tt) bc => currentBlock bc = Some t_b3 /\ canonCache bc !! 3 = Some (Block_Hash t_hash false t_b3) /\
      canonCache bc !! 2 = Some (Block_Hash t_hash false t_a2) /\ ParentHash t_b3 = Block_Hash t_hash false t_b2
  | _ => False
  end.
Proof. vm_compute. split_and!; reflexivity. Qed.

(** A reorganisation to a branch of two blocks executes the second block
    before the first. *)
Lemma reorg_executes_newest_first :
  match Reorg t_hash false 100 t_b2 t_c5 with
  | Ok (inr tt) bc => currentState bc = [Block_Hash t_hash false t_b2; Block_Hash t_hash false t_b1] /\
      ParentHash t_b2 = Block_Hash t_hash false t_b1
  | _ => False
  end.
Proof. vm_compute. split; reflexivity. Qed.

(** ** Reachability of the small chain *)

Definition anything {St : Type} (b : Block) (bc : Blockchain St) : Prop := True.

Lemma t_known :
  proper t_hash false t_id t_g /\ proper t_hash false t_id t_a1 /\ proper t_hash false t_id t_a2 /\
  proper t_hash false t_id t_b1 /\ proper t_hash false t_id t_b2 /\ proper t_hash false t_id t_b3 /\ proper t_hash false t_id t_d1.
Proof. pose proof t_proper as H. unfold t_blocks in H. rewrite !Forall_cons in H. tauto. Qed.

#[local] Opaque t_new t_c1 t_c2 t_c3 t_c4 t_c5 InsertBlock.

Lemma t_path (ok : Block -> Blockchain (list Hash) -> Prop) :
  ok t_a1 t_new -> ok t_a2 t_c1 -> ok t_b1 t_c2 -> ok t_b2 t_c3 -> ok t_d1 t_c4 ->
  rtc (chain_step t_hash false 100 t_config t_id ok) t_new t_c5.
Proof.
  intros K1 K2 K3 K4 K5. destruct t_runs as (R1 & R2 & R3 & R4 & R5). destruct t_known as (P0 & P1 & P2 & P3 & P4 & _ & P6).
  apply (rtc_l _ _ _ _ (step_insert _ _ _ _ _ ok _ _ _ _ P1 K1 R1)). apply (rtc_l _ _ _ _ (step_insert _ _ _ _ _ ok _ _ _ _ P2 K2 R2)).
  apply (rtc_l _ _ _ _ (step_insert _ _ _ _ _ ok _ _ _ _ P3 K3 R3)). apply (rtc_l _ _ _ _ (step_insert _ _ _ _ _ ok _ _ _ _ P4 K4 R4)).
  apply (rtc_l _ _ _ _ (step_insert _ _ _ _ _ ok _ _ _ _ P6 K5 R5)). apply rtc_refl.
Qed.

Lemma t_reached (ok : Block -> Blockchain (list Hash) -> Prop) bc :
  rtc (chain_step t_hash false 100 t_config t_id ok) t_new bc -> reachable t_hash false 100 t_config t_id ok t_g bc.
Proof. destruct t_known as (P0 & _). exact (reach _ _ _ _ _ ok t_g bc [] t_opts t_new P0 eq_refl t_new_ok). Qed.

Lemma t_steps (ok : Block -> Blockchain (list Hash) -> Prop) :
  ok t_a1 t_new -> ok t_a2 t_c1 -> ok t_b1 t_c2 -> ok t_b2 t_c3 -> ok t_d1 t_c4 ->
  reachable t_hash false 100 t_config t_id ok t_g t_c5.
Proof. intros. apply t_reached. by apply t_path. Qed.

Lemma t_lawful : reachable t_hash false 100 t_config t_id (extends t_hash false) t_g t_c5.
Proof.
  apply t_steps; intros hd E; vm_compute in E; injection E as <-; vm_compute; first [left; by intros [=]|by right].
Qed.

(** ** Theorems *)

Section Theorems.

Context {St : Type} `{ChainState St}.
Context (keccak256 : bytes -> bytes) (eip7706 : bool) (fuel : nat) (config : ChainConfig).
Context (idOf : Hash -> Hash * Z).

Abbreviation Block_Hash := (Block_Hash keccak256 eip7706).

Lemma in_db_HasBlock h (bc : Blockchain St) : in_db (bc_db bc) h -> HasBlock h bc = true.
Proof. intros Hd. unfold HasBlock. rewrite orb_true_iff. right. by apply bool_decide_eq_true. Qed.

(** The block at a height, from the index in memory and then the database. *)
Lemma GetBlockByNumber_ok n (bc bc' : Blockchain St) hd r :
  chain_inv keccak256 eip7706 idOf bc -> is_u64 n -> follows idOf (canonCache bc) (Block_Hash hd) ->
  GetBlockByNumber eip7706 fuel n bc = Ok r bc' ->
  bc' = bc /\ Block_Hash <$> r = ancestor_at idOf (Block_Hash hd) n.
Proof.
  intros (h0 & _ & _ & _ & I & J) Hn F E. unfold GetBlockByNumber in E. run E. rewrite <- (F n).
  destruct (canonCache bc !! n) as [h|] eqn:Ec.
  - destruct (inv_canon _ _ _ _ _ _ _ J _ _ Ec) as (_ & Hh & Hd & _).
    apply (GetBlock_ok keccak256 eip7706 fuel idOf h bc bc' r (bc_genesis bc) I Hh) in E as [-> Hr]. split; [done|].
    destruct r as [b|]; [|done]. destruct Hr as (_ & <- & _). done.
  - rewrite (inv_index _ _ _ _ _ _ _ J n Hn), Ec in E. by injection E as <- <-.
Qed.

End Theorems.

(** C7. In every chain reached from a new one by any sequence of calls: a block
    found by hash has that hash, its parent is known with the number before,
    and the way down ends at the genesis block; the head is known; every entry
    of the canonical index is a known block of its height, not above the head;
    the index in the database is the index in memory. *)
Theorem reachable_chain_consistent {St : Type} `{ChainState St} keccak256 eip7706 fuel config idOf g (bc : Blockchain St) :
  reachable keccak256 eip7706 fuel config idOf anything g bc ->
  (exists hd, currentBlock bc = Some hd /\ HasBlock (Block_Hash keccak256 eip7706 hd) bc = true /\
     forall n h, canonCache bc !! n = Some h -> 0 <= n <= NumberU64 hd /\ (idOf h).2 = n /\ HasBlock h bc = true) /\
  (forall h b, is_Hash h -> GetBlock eip7706 fuel h bc = Ok (Some b) bc ->
     Block_Hash keccak256 eip7706 b = h /\ idOf h = (ParentHash b, NumberU64 b) /\
     ancestor_at idOf h 0 = Some (Block_Hash keccak256 eip7706 (bc_genesis bc)) /\
     (NumberU64 b <> 0 -> HasBlock (ParentHash b) bc = true /\ (idOf (ParentHash b)).2 = NumberU64 b - 1)) /\
  (forall n, is_u64 n -> ReadCanonicalHash (bc_db bc) n = canonCache bc !! n).
Proof.
  intros HR%reachable_inv. pose proof HR as (hd & Eh & Hhd & Hd & I & J). split_and!.
  - exists hd. split_and!; [done|by apply in_db_HasBlock|]. intros n h E.
    destruct (inv_canon _ _ _ _ _ _ _ J _ _ E) as (A & _ & B & D). split_and!; try done; try lia. by apply in_db_HasBlock.
  - intros h b Hh E. destruct (Reorg_known keccak256 eip7706 fuel idOf h b bc HR Hh E) as (Hb & <- & Hdb).
    split_and!; [done|by apply pr_id|by eapply ancestor_genesis|]. intros Hn.
    destruct (known_parent _ _ _ _ _ _ _ I Hb Hdb Hn) as [Hp Ep]. split; [by apply in_db_HasBlock|done].
  - apply J.
Qed.

Lemma reachable_chain_consistent_witness :
  (exists hd, currentBlock t_c5 = Some hd /\ HasBlock (Block_Hash t_hash false hd) t_c5 = true /\
     forall n h, canonCache t_c5 !! n = Some h -> 0 <= n <= NumberU64 hd /\ (t_id h).2 = n /\ HasBlock h t_c5 = true) /\
  (forall h b, is_Hash h -> GetBlock false 100 h t_c5 = Ok (Some b) t_c5 ->
     Block_Hash t_hash false b = h /\ t_id h = (ParentHash b, NumberU64 b) /\
     ancestor_at t_id h 0 = Some (Block_Hash t_hash false (bc_genesis t_c5)) /\
     (NumberU64 b <> 0 -> HasBlock (ParentHash b) t_c5 = true /\ (t_id (ParentHash b)).2 = NumberU64 b - 1)) /\
  (forall n, is_u64 n -> ReadCanonicalHash (bc_db t_c5) n = canonCache t_c5 !! n).
Proof. apply (reachable_chain_consistent t_hash false 100 t_config t_id t_g t_c5). by apply t_steps. Defined.

(** C11. As long as every block that is inserted above the head extends the
    head, the block a height is answered with is the ancestor of the head at
    that height, whatever insertions, rewindings, reorganisations, evictions
    and pruning have happened. *)
Theorem blocks_by_number_are_ancestors {St : Type} `{ChainState St} keccak256 eip7706 fuel config idOf g (bc bc' : Blockchain St) n r :
  reachable keccak256 eip7706 fuel config idOf (extends keccak256 eip7706) g bc -> is_u64 n ->
  GetBlockByNumber eip7706 fuel n bc = Ok r bc' ->
  exists hd, currentBlock bc = Some hd /\ bc' = bc /\
    Block_Hash keccak256 eip7706 <$> r = ancestor_at idOf (Block_Hash keccak256 eip7706 hd) n.
Proof.
  intros HR Hn E. destruct (reachable_on_branch _ _ _ _ _ _ _ HR) as (hd & Eh & F). exists hd. split; [done|].
  by apply (GetBlockByNumber_ok keccak256 eip7706 fuel idOf n bc bc' hd r (reachable_inv _ _ _ _ _ _ _ _ HR)).
Qed.

Lemma blocks_by_number_are_ancestors_witness :
  exists hd, currentBlock t_c5 = Some hd /\ t_c5 = t_c5 /\
    Block_Hash t_hash false <$> Some t_a1 = ancestor_at t_id (Block_Hash t_hash false hd) 1.
Proof.
  apply (blocks_by_number_are_ancestors t_hash false 100 t_config t_id t_g t_c5 t_c5 1 (Some t_a1)).
  - exact t_lawful.
  - unfold is_u64. lia.
  - vm_compute. reflexivity.
Defined.

(** C9. The bookkeeping of a reorganisation to a block the chain gave out
    always completes, when its ancestors can be fetched; afterwards the block is
    the head and the canonical index, in memory and in the database, is exactly
    the ancestry of the block: the other branch has left no entry. *)
Theorem reorg_follows_ancestry {St : Type} `{ChainState St} keccak256 eip7706 fuel config idOf g (bc : Blockchain St) h b :
  reachable keccak256 eip7706 fuel config idOf anything g bc ->
  is_Hash h -> GetBlock eip7706 fuel h bc = Ok (Some b) bc -> fetchable eip7706 fuel idOf bc h -> (idOf h).2 <= Z.of_nat fuel ->
  exists anc bc', reorg keccak256 eip7706 fuel b bc = Ok (inr anc) bc' /\ currentBlock bc' = Some b /\
    (forall n, canonCache bc' !! n = ancestor_at idOf h n) /\
    (forall n, is_u64 n -> ReadCanonicalHash (bc_db bc') n = ancestor_at idOf h n) /\
    forall r bc'', Reorg keccak256 eip7706 fuel b bc = Ok r bc'' ->
      currentBlock bc'' = Some b /\ (forall n, canonCache bc'' !! n = ancestor_at idOf h n).
Proof.
  intros HR%reachable_inv Hh E HF Hn. destruct (Reorg_known keccak256 eip7706 fuel idOf h b bc HR Hh E) as (Hb & <- & Hd).
  rewrite (pr_id _ _ _ _ Hb) in Hn. assert (writable eip7706 b) as Hw.
  { destruct (HF _ _ (ancestor_self idOf (Block_Hash keccak256 eip7706 b) ltac:(rewrite (pr_id _ _ _ _ Hb); apply NumberU64_range))) as (c & Ec & Hc).
    rewrite E in Ec. by injection Ec as ->. }
  destruct (reorg_total keccak256 eip7706 fuel idOf b bc HR Hb Hd HF Hw Hn) as (anc & bc' & Er).
  destruct (reorg_run keccak256 eip7706 fuel idOf b bc bc' _ HR Hb Hd Er) as (_ & HI & Ec & F & _).
  exists anc, bc'. split_and!; [done|done|exact F| |].
  - intros n Hu. destruct HI as (hd & _ & _ & _ & _ & J). by rewrite (inv_index _ _ _ _ _ _ _ J n Hu).
  - intros r bc'' ER. destruct (Reorg_run keccak256 eip7706 fuel idOf b bc bc'' r HR Hb Hd ER) as (_ & A & B & _). by split.
Qed.

Lemma reorg_follows_ancestry_witness :
  let h := Block_Hash t_hash false t_b2 in
  exists anc bc', reorg t_hash false 100 t_b2 t_c5 = Ok (inr anc) bc' /\ currentBlock bc' = Some t_b2 /\
    (forall n, canonCache bc' !! n = ancestor_at t_id h n) /\
    (forall n, is_u64 n -> ReadCanonicalHash (bc_db bc') n = ancestor_at t_id h n) /\
    forall r bc'', Reorg t_hash false 100 t_b2 t_c5 = Ok r bc'' ->
      currentBlock bc'' = Some t_b2 /\ (forall n, canonCache bc'' !! n = ancestor_at t_id h n).
Proof.
  intros h. apply (reorg_follows_ancestry t_hash false 100 t_config t_id t_g t_c5 h t_b2).
  - by apply t_steps.
  - apply Block_Hash_range.
  - vm_compute. reflexivity.
  - intros n x E. assert (n = 0 \/ n = 1 \/ n = 2) as Hn.
    { unfold ancestor_at in E. assert ((t_id h).2 = 2) as E2 by (vm_compute; reflexivity). rewrite E2 in E.
      destruct (Z.leb_spec 0 n), (Z.leb_spec n 2); try discriminate E. lia. }
    destruct Hn as [->|[->| ->]]; vm_compute in E; injection E as <-; eexists; (split; [vm_compute; reflexivity|vm_compute; discriminate]).
  - vm_compute. discriminate.
Defined.
