(* ===== verification/ChainExec.v ===== *)
(** * ChainExec: what an accepted block has been checked for

    The states the chain caches and works on belong to the blocks they are kept
    for, and a block is accepted only after its execution on the state of its
    parent gave what its header says.  Reorganisations are not among the steps:
    they execute a branch in the wrong order. *)

From stdpp Require Import gmap.
From S2P Require Import Prelude Rlp RlpProofs StateDB Transactions TxProofs Machine Blocks BlockProofs ChainConfig Receipts.
From S2P Require Import Bal BlockProcessor Trie RawDB RawDBProofs BlockStore BlockStoreProofs Validator HeaderChain ValidatorProofs.
From S2P Require Import StateCache Chain ChainProofs ChainInv ChainSteps ChainProps.
Local Open Scope Z_scope.
Local Open Scope go_scope.

(** ** Eviction *)

Lemma evict_loop_sub {St} n limit p (snaps snaps' : gmap Z (Z * St)) ord ord' checked :
  evict_loop n limit p snaps ord checked = (snaps', ord') -> snaps' ⊆ snaps.
Proof.
  revert snaps ord checked. induction n as [|n IH]; intros snaps ord checked E; cbn [evict_loop] in E; [by injection E as <- _|].
  destruct (_ && _); [|by injection E as <- _]. destruct ord as [|o rest]; [by injection E as <- _|].
  destruct (is_protected p o); apply IH in E; [done|]. etransitivity; [exact E|]. apply delete_subseteq.
Qed.

(** A snapshot after [put] was there before, or is the new one. *)
Lemma cache_put_inv {St} (Dup : St -> St) h n st (c : stateCache St) k e :
  snapshots (cache_put Dup h n st c) !! k = Some e -> snapshots c !! k = Some e \/ (k = h /\ e = (n, Dup st)).
Proof.
  unfold cache_put. destruct (snapshots c !! h) eqn:Eh; [by left|].
  destruct (evict_loop _ _ _ _ _ _) as [snaps ord] eqn:E. cbn [snapshots].
  rewrite lookup_insert_Some. intros [[-> <-]|[_ Hk]]; [by right|]. left. eapply lookup_weaken; [done|]. by eapply evict_loop_sub.
Qed.

(** The blocks of the cache that are not in the eviction order. *)
Definition unordered (cache : gmap Z Block) (ord : list Hash) : gmap Z Block :=
  filter (fun kb => kb.1 ∉ ord) cache.

Lemma unordered_nil cache : unordered cache [] = cache.
Proof.
  apply map_eq. intros k. apply option_eq. intros b. unfold unordered. rewrite map_lookup_filter_Some. cbn [fst].
  split; [by intros []|]. intros E. split; [done|]. by intros ?%elem_of_nil.
Qed.

Lemma unordered_cons cache o rest : unordered (delete o cache) rest = unordered cache (o :: rest).
Proof.
  apply map_eq. intros k. apply option_eq. intros b. unfold unordered.
  rewrite !map_lookup_filter_Some, lookup_delete_Some, not_elem_of_cons. cbn [fst]. naive_solver.
Qed.

Lemma unordered_size cache ord : (size (unordered cache ord) <= size cache)%nat.
Proof. apply map_subseteq_size. unfold unordered. apply map_filter_subseteq. Qed.

(** The loop that makes room in the block cache ends exactly when the blocks
    that are not in the eviction order (the genesis block, and parents read from
    the database) leave room. *)
Lemma evict_blocks_ends keccak256 limit cache ord txl :
  is_Some (evict_blocks keccak256 limit cache ord txl) <-> Z.of_nat (size (unordered cache ord)) < limit.
Proof.
  revert cache txl. induction ord as [|o rest IH]; intros cache txl; cbn [evict_blocks].
  - rewrite unordered_nil. destruct (Z.geb_spec (Z.of_nat (size cache)) limit); split; try lia; [by intros []|by eexists].
  - pose proof (unordered_size cache (o :: rest)) as Hs.
    destruct (Z.geb_spec (Z.of_nat (size cache)) limit); [|split; [lia|by eexists]].
    rewrite <- unordered_cons. destruct (cache !! o) eqn:Eo; rewrite IH; [done|]. by rewrite delete_id.
Qed.

(** ** The states of blocks *)

Section States.

Context {St : Type} `{ChainState St}.
Context (keccak256 : bytes -> bytes) (eip7706 : bool) (fuel : nat) (config : ChainConfig).
Context (idOf : Hash -> Hash * Z).
Context (g : Block) (st0 : St).

Abbreviation Block_Hash := (Block_Hash keccak256 eip7706).
Abbreviation proper := (proper keccak256 eip7706 idOf).
Abbreviation chain_inv := (chain_inv keccak256 eip7706 idOf).

(** *** Reachable chains *)

(** The calls that keep the states: all but reorganisations, rewindings that
    fail half way, and pruning. *)
Inductive plain_step : Blockchain St -> Blockchain St -> Prop :=
  | plain_insert b r bc bc' :
      proper b -> InsertBlock keccak256 eip7706 fuel config b bc = Ok r bc' -> plain_step bc bc'
  | plain_rewind n bc bc' :
      SetHead keccak256 eip7706 fuel n bc = Ok (inr tt) bc' -> plain_step bc bc'
  | plain_state h b r bc bc' :
      is_Hash h -> GetBlock eip7706 fuel h bc = Ok (Some b) bc ->
      StateAtBlock keccak256 eip7706 fuel b bc = Ok r bc' -> plain_step bc bc'
  | plain_finalized b bc bc' : SetFinalized keccak256 eip7706 b bc = Ok tt bc' -> plain_step bc bc'
  | plain_safe b bc bc' : SetSafe b bc = Ok tt bc' -> plain_step bc bc'
  | plain_evict h bc bc' : EvictBlockFromCache h bc = Ok tt bc' -> plain_step bc bc'.

Inductive plainly_reachable (bc : Blockchain St) : Prop :=
  | plain_reach opts bc0 :
      proper g -> NumberU64 g = 0 -> NewBlockchain keccak256 eip7706 fuel (Some g) st0 ∅ opts = Some (inr bc0) ->
      rtc plain_step bc0 bc -> plainly_reachable bc.

(** What blocks and block hashes are looked up in. *)
Definition stored (bc : Blockchain St) : Database * gmap Z Block * gmap Z Hash :=
  (bc_db bc, blockCache bc, canonCache bc).

(** The chains in which blocks are executed: those reached, also after the
    parent of a block has been put into the cache (insertion), or after the
    canonical entries above the new head have been removed (rewinding). *)
Inductive moment : Blockchain St -> Prop :=
  | moment_reached bc : plainly_reachable bc -> moment bc
  | moment_parent h p bc bc' :
      plainly_reachable bc -> findParent eip7706 fuel h bc = Ok (Some p) bc' -> moment bc'
  | moment_dropped number n bc : plainly_reachable bc -> moment (drop_canonical number n bc)
  | moment_same bc bc' : moment bc -> stored bc' = stored bc -> moment bc'.

(** The block is the one the chain holds under its hash. *)
Definition held (bc : Blockchain St) (b : Block) : Prop :=
  GetBlock eip7706 fuel (Block_Hash b) bc = Ok (Some b) bc.

(** The results of executing [b] on [st] are those of its header. *)
Record checked (b : Block) (getHash : Z -> Hash) (st : St) (result : ProcessResult) (st1 st2 : St) : Prop := {
  ck_run : cs_Process getHash b st = Ok (inr result) st1;
  ck_gas : h_GasUsed (block_Header b) = totalGasUsed config (block_Header b) (Receipts result);
  ck_receipts : computeReceiptsRoot keccak256 (Receipts result) = TDone (h_ReceiptHash (block_Header b));
  ck_bloom : h_Bloom (block_Header b) = CreateBloom (Receipts result);
  ck_requests : st2 = if cfg_IsPrague config (h_Time (block_Header b)) then cs_Requests (block_Header b) st1 else st1;
  ck_root : exists u, cs_GetRoot st2 = Ok (h_Root (block_Header b)) u;
  ck_bal : ValidateBlockAccessList config (block_Header b) (bal_Hash keccak256 <$> BlockAccessList result) = VOk;
}.

(** A state of the block with the given hash: the genesis state; what the
    insertion of a block with a valid body made of a state of its parent, once
    everything its header commits to was checked, requests included; or what
    executing the block that the chain holds again made of a state of its
    parent, which checks nothing and leaves out the requests.  Copies and
    commits do not leave the block.  [BLOCKHASH] is answered from the canonical
    index of the moment. *)
Inductive state_of : Hash -> St -> Prop :=
  | so_genesis : state_of (Block_Hash g) st0
  | so_insert bc b st result st1 st2 :
      moment bc -> ValidateBody keccak256 config b = VOk -> state_of (ParentHash b) st ->
      checked b (GetHashFn bc) st result st1 st2 -> state_of (Block_Hash b) st2
  | so_again bc b st result st' :
      moment bc -> held bc b -> state_of (ParentHash b) st ->
      cs_Process (GetHashFn bc) b st = Ok (inr result) st' -> state_of (Block_Hash b) st'
  | so_copy h st : state_of h st -> state_of h (cs_Dup st)
  | so_commit h st : state_of h st -> state_of h (cs_Commit st).

Definition cache_sound (c : stateCache St) : Prop := forall h e, snapshots c !! h = Some e -> state_of h e.2.

(** Every state the chain keeps belongs to the block it is kept for. *)
Record states_inv (bc : Blockchain St) : Prop := {
  si_genesis : bc_genesis bc = g;
  si_exec : state_of (Block_Hash g) (execGenesisState bc);
  si_plain : state_of (Block_Hash g) (genesisState bc);
  si_sc : cache_sound (bc_sc bc);
  si_mem : cache_sound (bc_memSC bc);
}.

Definition head_state (bc : Blockchain St) : Prop :=
  exists hd, currentBlock bc = Some hd /\ state_of (Block_Hash hd) (currentState bc).

Lemma cache_sound_put h n st c : cache_sound c -> state_of h st -> cache_sound (cache_put cs_Dup h n st c).
Proof. intros Hc Hs k e E. apply cache_put_inv in E as [E|[-> ->]]; [by apply Hc|by apply so_copy]. Qed.

Lemma cached_state_ok bc h st : states_inv bc -> cached_state bc h = Some st -> state_of h st.
Proof.
  intros [_ _ _ S M] E. unfold cached_state, cache_get in E.
  destruct (snapshots (bc_sc bc) !! h) as [e|] eqn:E1; cbn in E; [injection E as <-; by apply so_copy, S|].
  destruct (snapshots (bc_memSC bc) !! h) as [e|] eqn:E2; cbn in E; [injection E as <-; by apply so_copy, M|discriminate E].
Qed.

Lemma held_cached bc b : blockCache bc !! Block_Hash b = Some b -> held bc b.
Proof. intros E. unfold held, GetBlock, gbind, gget. by rewrite E. Qed.

Lemma GetBlock_eq h (bc : Blockchain St) :
  GetBlock eip7706 fuel h bc =
  match blockCache bc !! h with
  | Some b => Ok (Some b) bc
  | None => of_tres (readBlock eip7706 fuel (bc_db bc) h) bc
  end.
Proof. unfold GetBlock, gbind, gget. by destruct (blockCache bc !! h). Qed.

Lemma held_same bc bc' b : stored bc' = stored bc -> held bc b -> held bc' b.
Proof.
  intros [= E1 E2 _]. unfold held. rewrite !GetBlock_eq, E1, E2.
  destruct (blockCache bc !! _); [by intros [= ->]|]. unfold of_tres. destruct (readBlock _ _ _ _); try done. by intros [= ->].
Qed.

Lemma hashes_same (bc bc' : Blockchain St) : stored bc' = stored bc -> GetHashFn bc' = GetHashFn bc.
Proof. intros [= _ _ E]. unfold GetHashFn. by rewrite E. Qed.

Lemma view_stored (bc bc' : Blockchain St) : view bc' = view bc -> stored bc' = stored bc.
Proof. intros [= A B C _ _]. unfold stored. congruence. Qed.

(** The blocks lead from one hash to another. *)
Fixpoint links (h0 : Hash) (l : list Block) (h : Hash) : Prop :=
  match l with
  | [] => h0 = h
  | b :: rest => ParentHash b = h0 /\ links (Block_Hash b) rest h
  end.

(** The blocks that have to be executed, and the state to start with. *)
Lemma collect_ok n b l bc bc' r h :
  blocks_inv keccak256 eip7706 idOf (bc_db bc) (blockCache bc) (bc_genesis bc) -> states_inv bc ->
  proper b -> in_db (bc_db bc) (Block_Hash b) -> links (Block_Hash b) l h -> held bc b -> Forall (held bc) l ->
  collect keccak256 eip7706 fuel n b l bc = Ok r bc' ->
  bc' = bc /\ exists l' base h0, r = (l', base, false) /\ links h0 l' h /\ Forall (held bc) l' /\
    match base with Some st => state_of h0 st | None => h0 = Block_Hash g end.
Proof.
  intros I SI. revert b l.
  induction n as [|n IH]; intros b l Hb Hd Hl Hh Hall E; cbn [collect] in E; run E; unfold isGenesis in E;
    rewrite (si_genesis _ SI) in E;
    (destruct (Z.eqb_spec (Block_Hash b) (Block_Hash g)) as [Eg|Hg];
      [apply Ok_inj in E as [<- <-]; split; [done|]; exists l, None, (Block_Hash g); by rewrite <- Eg|]);
    (destruct (cached_state bc (ParentHash b)) as [st|] eqn:Ec;
      [apply Ok_inj in E as [<- <-]; split; [done|]; exists (b :: l), (Some (cs_Dup st)), (ParentHash b);
       split_and!; [done|by split|by constructor|by apply so_copy, (cached_state_ok bc)]|]); [discriminate E|].
  run E. destruct (inv_link _ _ _ _ _ _ I (Block_Hash b) (Block_Hash_range _ _ b) Hd) as [Eg|(A & B & F)].
  { by rewrite (si_genesis _ SI) in Eg. }
  rewrite (pr_id _ _ _ _ Hb) in B. cbn in B. pose proof E0 as Eget.
  apply (GetBlock_ok keccak256 eip7706 fuel idOf (ParentHash b) bc _ _ (bc_genesis bc) I) in E0 as [-> Hr];
    [|by apply (proper_parent _ _ _ _ Hb)]. destruct a as [p|]; [|done]. destruct Hr as (Hp & Ep & Hdp).
  apply (IH p (b :: l)); [done|by rewrite Ep|by rewrite Ep|unfold held; by rewrite Ep|by constructor|done].
Qed.

Lemma states_put b st bc :
  states_inv bc -> state_of (Block_Hash b) st ->
  states_inv (with_memSC (cache_put cs_Dup (Block_Hash b) (NumberU64 b) st (bc_memSC bc))
    (with_sc (cache_put cs_Dup (Block_Hash b) (NumberU64 b) st (bc_sc bc)) bc)).
Proof. intros [I1 I2 I3 I4 I5] Hs. split; cbn; try done; by apply cache_sound_put. Qed.

Lemma process_ok b st bc bc' r st' :
  process b st bc = Ok (inr (r, st')) bc' -> bc' = bc /\ cs_Process (GetHashFn bc) b st = Ok (inr r) st'.
Proof.
  unfold process. destruct (cs_Process _ _ _) as [[e|x] s| | |]; intros E; try discriminate E.
  by apply Ok_inj in E as [[= <- <-] <-].
Qed.

Lemma process_same b st bc bc' r : process b st bc = Ok r bc' -> bc' = bc.
Proof.
  unfold process. destruct (cs_Process _ _ _) as [[e|x] s| | |]; intros E; try discriminate E; by apply Ok_inj in E as [_ <-].
Qed.

(** Fields that re-execution leaves alone. *)
Definition same_head (bc bc' : Blockchain St) : Prop :=
  view bc' = view bc /\ currentState bc' = currentState bc.

Lemma reexecute_ok caching l st bc bc' r h0 h :
  moment bc -> Forall (held bc) l -> states_inv bc -> links h0 l h -> state_of h0 st ->
  reexecute keccak256 eip7706 caching l st bc = Ok r bc' ->
  states_inv bc' /\ same_head bc bc' /\ forall st', r = inr st' -> state_of h st'.
Proof.
  revert h0 st bc. induction l as [|b l IH]; intros h0 st bc M Hall SI Hl Hs E; cbn [reexecute links] in *.
  { apply Ok_inj in E as [<- <-]. split_and!; try done. intros st' [= <-]. by rewrite <- Hl. }
  destruct Hl as [Hp Hl]. run E. destruct a as [e|[x st1]].
  { apply process_same in E0 as ->. apply Ok_inj in E as [<- <-]. by split_and!. }
  apply process_ok in E0 as [-> Ep]. apply Forall_cons in Hall as [Hh Hall].
  assert (state_of (Block_Hash b) st1) as Hs1 by (eapply so_again; [exact M|exact Hh|by rewrite Hp|done]).
  run E. assert (states_inv bc0 /\ same_head bc bc0) as [SI0 [V0 C0]].
  { destruct caching; [|by apply Ok_inj in E0 as [_ <-]]. apply Ok_inj in E0 as [_ <-]. split; [by apply states_put|done]. }
  apply view_stored in V0 as T0.
  destruct (IH (Block_Hash b) st1 bc0) as (A & [V C] & D); try done; [by eapply moment_same| |split_and!; [done| |done]].
  { eapply Forall_impl; [exact Hall|]. intros c. by apply held_same. }
  split; congruence.
Qed.

(** *** Insertion *)

Lemma ebind_inr {A B} (m : M (Blockchain St) (chain_error + A)) (k : A -> M (Blockchain St) (chain_error + B)) s b s' :
  ebind m k s = Ok (inr b) s' -> exists a s1, m s = Ok (inr a) s1 /\ k a s1 = Ok (inr b) s'.
Proof. intros E. apply ebind_ok in E as [(e & _ & [=])|E]. done. Qed.

Lemma ereject_ok bad e (bc bc' : Blockchain St) u : ereject bad e bc = Ok (inr u) bc' -> bad = false /\ bc' = bc.
Proof. unfold ereject, gret. destruct bad; intros [=]. by split. Qed.

Lemma executeAndCheck_ok b st (bc bc' : Blockchain St) receipts st2 :
  executeAndCheck keccak256 config b st bc = Ok (inr (receipts, st2)) bc' ->
  bc' = bc /\ exists result st1, checked b (GetHashFn bc) st result st1 st2 /\ receipts = Receipts result.
Proof.
  unfold executeAndCheck. intros E. run E. destruct a as [e|[result st1]]; [discriminate E|].
  apply process_ok in E0 as [-> Ep].
  apply ebind_inr in E as (u1 & bc1 & E1 & E). apply ereject_ok in E1 as [K1 ->].
  run E. unfold of_trie in E0. destruct (computeReceiptsRoot _ _) as [root| | |] eqn:Er; try discriminate E0.
  apply Ok_inj in E0 as [<- <-].
  apply ebind_inr in E as (u2 & bc1 & E1 & E). apply ereject_ok in E1 as [K2 ->].
  apply ebind_inr in E as (u3 & bc1 & E1 & E). apply ereject_ok in E1 as [K3 ->].
  set (st2' := if cfg_IsPrague _ _ then _ else _) in *. run E. unfold of_out in E0.
  destruct (cs_GetRoot st2') as [rt []| | |] eqn:Et; try discriminate E0. apply Ok_inj in E0 as [<- <-].
  apply ebind_inr in E as (u4 & bc1 & E1 & E). apply ereject_ok in E1 as [K4 ->].
  apply ebind_inr in E as (u5 & bc1 & E1 & E). unfold of_vres in E1. destruct (ValidateBlockAccessList _ _ _) eqn:Eb; try discriminate E1.
  apply Ok_inj in E1 as [_ <-]. apply Ok_inj in E as [[= <- <-] <-].
  apply negb_false_iff, Z.eqb_eq in K1, K2, K3, K4. split; [done|]. exists result, st1. split; [|done].
  split; try done; [by rewrite K2|]. rewrite K4. by exists tt.
Qed.

(** The states are those of another chain. *)
Definition same_states (bc bc' : Blockchain St) : Prop :=
  bc_genesis bc' = bc_genesis bc /\ execGenesisState bc' = execGenesisState bc /\ genesisState bc' = genesisState bc /\
  bc_sc bc' = bc_sc bc /\ bc_memSC bc' = bc_memSC bc.

Lemma states_same bc bc' : same_states bc bc' -> states_inv bc -> states_inv bc'.
Proof. intros (A & B & C & D & F) [I1 I2 I3 I4 I5]. split; [by rewrite A|by rewrite B|by rewrite C|by rewrite D|by rewrite F]. Qed.

Lemma write_same f (bc bc' : Blockchain St) u :
  chain_write f bc = Ok u bc' -> same_states bc bc' /\ currentState bc' = currentState bc /\ currentBlock bc' = currentBlock bc.
Proof. intros E. apply chain_write_run in E as (db & _ & ->). done. Qed.

Lemma protect_sound h bc :
  states_inv bc -> states_inv (with_memSC (cache_protect h (bc_memSC bc)) (with_sc (cache_protect h (bc_sc bc)) bc)).
Proof. intros [I1 I2 I3 I4 I5]. by split. Qed.

Lemma persist_states c b receipts st (bc bc' : Blockchain St) st' :
  states_inv bc -> state_of (Block_Hash b) st -> persist keccak256 eip7706 c b receipts st bc = Ok st' bc' ->
  states_inv bc' /\ currentState bc' = currentState bc /\ currentBlock bc' = currentBlock bc /\ state_of (Block_Hash b) st' /\
  st' = if c then cs_Commit st else st.
Proof.
  intros SI Hs E. unfold persist in E. destruct c.
  - pose proof (so_commit _ _ Hs) as Hc. run E. apply (states_put _ _ _ SI), (protect_sound (Block_Hash b)) in Hc. run E.
    set (bc1 := with_memSC _ _) in *. run E. apply write_same in E0 as (Q1 & Q2 & Q3).
    run E. apply write_same in E0 as (R1 & R2 & R3). run E. apply Ok_inj in E as [<- <-].
    split_and!; [|exact (eq_trans R2 Q2)|exact (eq_trans R3 Q3)|by apply so_commit|done].
    apply (states_same bc2); [done|]. apply (states_same bc0); [done|]. by apply (states_same bc1).
  - run E. pose proof (states_put _ _ _ SI Hs) as S1.
    run E. apply write_same in E0 as (Q1 & Q2 & Q3). apply Ok_inj in E as [<- <-]. split_and!; [|done..]. by eapply states_same.
Qed.

Lemma receipts_same h l (bc : Blockchain St) :
  exists bc', cache_receipts h l bc = Ok tt bc' /\ same_states bc bc' /\ currentState bc' = currentState bc /\
    currentBlock bc' = currentBlock bc.
Proof.
  unfold cache_receipts, gmodify. eexists. split; [done|]. cbn beta.
  by destruct (evict_receipts _ _ _).
Qed.

Lemma publish_states c b st (bc bc' : Blockchain St) u :
  states_inv bc -> head_state bc -> state_of (Block_Hash b) st -> publish keccak256 eip7706 config c b st bc = Ok u bc' ->
  states_inv bc' /\ head_state bc' /\ (c = true -> currentBlock bc' = Some b /\ currentState bc' = st).
Proof.
  intros SI HS Hs E. unfold publish in E. run E. destruct (evict_blocks _ _ _ _ _) as [[[cache ord] txl]|]; [|discriminate E].
  run E. destruct c.
  - run E. run E. run E. apply Ok_inj in E as [_ <-]. unfold gopt in E0.
    destruct (InsertHeaders _ _ _ _ _) as [x|]; [|discriminate E0]. apply Ok_inj in E0 as [_ <-].
    split_and!; [by apply (states_same bc)|by exists b|done].
  - apply Ok_inj in E as [_ <-]. split_and!; [by apply (states_same bc)|exact HS|done].
Qed.

Lemma head_same (bc bc' : Blockchain St) :
  currentState bc' = currentState bc -> currentBlock bc' = currentBlock bc -> head_state bc -> head_state bc'.
Proof. intros E1 E2 (hd & A & B). exists hd. by rewrite E1, E2. Qed.

Lemma head_quiet bc bc' : same_head bc bc' -> head_state bc -> head_state bc'.
Proof. intros [V C]. injection V as _ _ _ V4 _. by apply head_same. Qed.

(** The state of a parent, from which the block is executed. *)
Lemma ancestors_ok p (bc bc' : Blockchain St) r :
  blocks_inv keccak256 eip7706 idOf (bc_db bc) (blockCache bc) (bc_genesis bc) -> states_inv bc -> proper p -> in_db (bc_db bc) (Block_Hash p) -> held bc p ->
  collectAncestorsLocked keccak256 eip7706 fuel p bc = Ok r bc' ->
  bc' = bc /\ exists h0, links h0 r.1 (Block_Hash p) /\ Forall (held bc) r.1 /\ state_of h0 r.2.
Proof.
  intros HI SI Hp Hd Hh E. unfold collectAncestorsLocked in E. run E. unfold isGenesis in E. rewrite (si_genesis _ SI) in E.
  destruct (Z.eqb_spec (Block_Hash p) (Block_Hash g)) as [Eg|Hg].
  { apply Ok_inj in E as [<- <-]. split; [done|]. exists (Block_Hash g). split_and!; [done|constructor|]. apply so_copy, SI. }
  destruct (cached_state bc (Block_Hash p)) as [st|] eqn:Ec.
  { apply Ok_inj in E as [<- <-]. split; [done|]. exists (Block_Hash p). split_and!; [done|constructor|]. by apply so_copy, (cached_state_ok bc). }
  run E. destruct (collect_ok fuel p [] bc _ _ (Block_Hash p) HI SI Hp Hd eq_refl Hh (Forall_nil_2 _) E0) as (-> & l & base & h0 & -> & Hl & Hall & Hb).
  apply Ok_inj in E as [<- <-]. split; [done|]. exists h0. split; [done|]. split; [done|]. destruct base as [st|]; [done|]. subst h0. apply so_copy, SI.
Qed.

Lemma execute_same b st (bc bc' : Blockchain St) r :
  executeAndCheck keccak256 config b st bc = Ok r bc' -> bc' = bc.
Proof.
  unfold executeAndCheck, ereject, of_trie, of_out, of_vres. intros E. run E. apply process_same in E0 as ->.
  destruct a as [e|[x st1]]; [by apply Ok_inj in E as [_ <-]|].
  repeat match type of E with
  | ebind _ _ _ = _ => apply ebind_ok in E as [(? & E & ->)|(? & ? & ?E & E)]
  | gbind _ _ _ = _ => apply gbind_ok in E as (? & ? & ?E & E)
  end;
  repeat match goal with
  | E' : gret _ _ = Ok _ _ |- _ => apply Ok_inj in E' as [_ <-]
  | E' : match ?x with _ => _ end = Ok _ _ |- _ => destruct x; try discriminate E'; apply Ok_inj in E' as [_ <-]
  end; done.
Qed.

Lemma insertChecked_states b p (bc bc' : Blockchain St) r :
  blocks_inv keccak256 eip7706 idOf (bc_db bc) (blockCache bc) (bc_genesis bc) -> states_inv bc -> head_state bc ->
  proper p -> in_db (bc_db bc) (Block_Hash p) -> ParentHash b = Block_Hash p ->
  moment bc -> held bc p -> ValidateBody keccak256 config b = VOk ->
  insertChecked keccak256 eip7706 fuel config b p bc = Ok r bc' ->
  states_inv bc' /\ head_state bc' /\
  (r = inr tt -> exists st result st1 st2, state_of (ParentHash b) st /\ checked b (GetHashFn bc) st result st1 st2 /\
     forall hd, currentBlock bc = Some hd -> NumberU64 hd < NumberU64 b ->
       currentBlock bc' = Some b /\ currentState bc' = cs_Commit st2).
Proof.
  intros HI SI HS Hp Hd Eb M Hh Hv E. unfold insertChecked in E. run E.
  destruct (ancestors_ok p bc _ _ HI SI Hp Hd Hh E0) as (-> & h0 & Hl & Hall & Hs0). run E.
  unfold head in E1. run E1. unfold gopt in E1. destruct (currentBlock bc) as [hd|] eqn:Ehd; [|discriminate E1]. apply Ok_inj in E1 as [<- <-].
  apply ebind_ok in E as [(e & E & ->)|(st & bc1 & E1 & E)].
  { destruct (reexecute_ok _ _ _ _ _ _ _ _ M Hall SI Hl Hs0 E) as (A & B & _). split_and!; [done|by eapply head_quiet|done]. }
  destruct (reexecute_ok _ _ _ _ _ _ _ _ M Hall SI Hl Hs0 E1) as (A & B & K). pose proof (K st eq_refl) as Hst. rewrite <- Eb in Hst.
  apply (head_quiet _ _ B) in HS. apply ebind_ok in E as [(e & E & ->)|([receipts st2] & bc2 & E2 & E)].
  { apply execute_same in E as ->. by split_and!. }
  apply executeAndCheck_ok in E2 as (-> & result & st1 & Hc & ->).
  rewrite (hashes_same bc bc1) in Hc by (apply view_stored, B).
  pose proof (so_insert _ _ _ _ _ _ M Hv Hst Hc) as Hs2.
  run E. destruct (persist_states _ _ _ _ _ _ _ A Hs2 E2) as (P1 & P2 & P3 & P4 & P5).
  apply gbind_ok in E as (u & bc4 & E3 & E). match type of E3 with cache_receipts ?h ?l ?s = _ => destruct (receipts_same h l s) as (bc3 & R0 & R1 & R2 & R3) end.
  rewrite R0 in E3. apply Ok_inj in E3 as [_ <-].
  run E. apply Ok_inj in E as [<- <-]. apply publish_states in E3 as (Q1 & Q2 & Q3).
  - split_and!; [done|done|]. intros _. exists st, result, st1, st2. split_and!; [done|done|].
    intros hd' [= <-] Hn. destruct (Q3 ltac:(by apply Z.gtb_lt)) as [-> ->]. split; [done|]. rewrite P5.
    by rewrite (proj2 (Z.gtb_lt _ _) Hn).
  - by eapply states_same.
  - apply (head_same bc1); [congruence|congruence|done].
  - done.
Qed.

(** An accepted block: its parent is known, its header and body are valid, and
    its execution on the state of the parent gave what the header says. *)
Record executed (b : Block) (bc : Blockchain St) : Prop := {
  ex_parent : exists p, Block_Hash p = ParentHash b /\ HasBlock (ParentHash b) bc = true /\
    ValidateHeader keccak256 eip7706 config (block_Header b) (block_Header p) = VOk;
  ex_body : ValidateBody keccak256 config b = VOk;
  ex_run : exists st result st1 st2, state_of (ParentHash b) st /\ checked b (GetHashFn bc) st result st1 st2;
}.

(** A block above the head is the new head, and the current state has the root
    of its header. *)
Definition promoted (b : Block) (bc bc' : Blockchain St) : Prop :=
  forall hd, currentBlock bc = Some hd -> NumberU64 hd < NumberU64 b ->
    currentBlock bc' = Some b /\ exists u, cs_GetRoot (currentState bc') = Ok (h_Root (block_Header b)) u.

Lemma vres_same v (bc bc' : Blockchain St) r : of_vres v bc = Ok r bc' -> bc' = bc /\ (r = inr tt -> v = VOk).
Proof. unfold of_vres. destruct v; intros E; try discriminate E; by apply Ok_inj in E as [<- <-]. Qed.

Lemma InsertBlock_states b (bc bc' : Blockchain St) r :
  plainly_reachable bc -> chain_inv bc -> states_inv bc -> head_state bc -> proper b ->
  InsertBlock keccak256 eip7706 fuel config b bc = Ok r bc' ->
  states_inv bc' /\ head_state bc' /\
  (r = inr tt -> blockCache bc !! Block_Hash b = None -> executed b bc /\ (ChainStateLaws St -> promoted b bc bc')).
Proof.
  intros R (hd & _ & _ & _ & I & _) SI HS Hb E. unfold InsertBlock in E. run E.
  destruct (blockCache bc !! Block_Hash b) as [c|] eqn:Ec; [apply Ok_inj in E as [<- <-]; by split_and!|].
  run E. pose proof E0 as Ef.
  apply (findParent_ok keccak256 eip7706 fuel idOf _ _ _ _ (bc_genesis bc)) in E0 as (Hp & cache & -> & I' & _ & Hput);
    [|done|by apply (proper_parent _ _ _ _ Hb)].
  assert (states_inv (with_blockCache cache bc)) as SI' by (by apply (states_same bc)).
  destruct a as [p|]; [|apply Ok_inj in E as [<- <-]; by split_and!]. destruct Hp as (Hp & Ep & Hdp).
  apply ebind_ok in E as [(e & E & ->)|(u & bc1 & E1 & E)]; [apply vres_same in E as [-> _]; by split_and!|].
  apply vres_same in E1 as [-> V1]. destruct u. specialize (V1 eq_refl).
  apply ebind_ok in E as [(e & E & ->)|(u & bc1 & E1 & E)]; [apply vres_same in E as [-> _]; by split_and!|].
  apply vres_same in E1 as [-> V2]. destruct u. specialize (V2 eq_refl).
  destruct (insertChecked_states b p (with_blockCache cache bc) bc' r) as (A & B & K); try done;
    [by rewrite Ep|by eapply moment_parent|apply held_cached; cbn; rewrite Ep; by apply Hput|].
  split_and!; [done|done|]. intros Er _. destruct (K Er) as (st & result & st1 & st2 & Hs & Hc & Hn). split.
  - split; [|done|by exists st, result, st1, st2]. exists p. split_and!; [done| |done]. apply in_db_HasBlock. exact Hdp.
  - intros L hd' Eh Hlt. destruct (Hn hd' Eh Hlt) as [-> ->]. split; [done|]. rewrite root_Commit. apply Hc.
Qed.

Lemma stateAt_states b (bc bc' : Blockchain St) r :
  blocks_inv keccak256 eip7706 idOf (bc_db bc) (blockCache bc) (bc_genesis bc) -> states_inv bc ->
  proper b -> in_db (bc_db bc) (Block_Hash b) -> moment bc -> held bc b -> stateAt keccak256 eip7706 fuel b bc = Ok r bc' ->
  states_inv bc' /\ same_head bc bc' /\ forall st, r = inr st -> state_of (Block_Hash b) st.
Proof.
  intros I SI Hb Hd M Hh E. unfold stateAt in E. run E. unfold isGenesis in E. rewrite (si_genesis _ SI) in E.
  destruct (Z.eqb_spec (Block_Hash b) (Block_Hash g)) as [Eg|Hg].
  { apply Ok_inj in E as [<- <-]. split_and!; [done|done|]. intros st [= <-]. rewrite Eg. apply so_copy, SI. }
  unfold cache_get in E. destruct (snapshots (bc_sc bc) !! Block_Hash b) as [x|] eqn:Ec; cbn [fmap option_fmap option_map] in E.
  { apply Ok_inj in E as [<- <-]. split_and!; [done|done|]. intros st [= <-]. by apply so_copy, so_copy, SI. }
  run E. destruct (collect_ok fuel b [] bc _ _ (Block_Hash b) I SI Hb Hd eq_refl Hh (Forall_nil_2 _) E0) as (-> & l & base & h0 & -> & Hl & Hall & Hs).
  apply (reexecute_ok true l _ _ _ _ h0 (Block_Hash b)) in E; [done..|].
  destruct base as [st|]; [done|]. subst h0. apply so_copy, SI.
Qed.

Lemma StateAtBlock_states b (bc bc' : Blockchain St) r :
  blocks_inv keccak256 eip7706 idOf (bc_db bc) (blockCache bc) (bc_genesis bc) -> states_inv bc ->
  proper b -> in_db (bc_db bc) (Block_Hash b) -> moment bc -> held bc b -> StateAtBlock keccak256 eip7706 fuel b bc = Ok r bc' ->
  states_inv bc' /\ same_head bc bc' /\ forall st, r = inr st -> state_of (Block_Hash b) st.
Proof.
  intros I SI Hb Hd M Hh E. unfold StateAtBlock in E. run E. unfold isGenesis in E. rewrite (si_genesis _ SI) in E.
  destruct (Z.eqb_spec (Block_Hash b) (Block_Hash g)) as [Eg|Hg].
  { apply Ok_inj in E as [<- <-]. split_and!; [done|done|]. intros st [= <-]. rewrite Eg. apply so_copy, SI. }
  destruct (cached_state bc (Block_Hash b)) as [x|] eqn:Ec.
  { apply Ok_inj in E as [<- <-]. split_and!; [done|done|]. intros st [= <-]. by apply (cached_state_ok bc). }
  run E. destruct (collect_ok fuel b [] bc _ _ (Block_Hash b) I SI Hb Hd eq_refl Hh (Forall_nil_2 _) E0) as (-> & l & base & h0 & -> & Hl & Hall & Hs).
  assert (state_of h0 (default (cs_Dup (execGenesisState bc)) base)) as Hs0
    by (destruct base as [st|]; [done|subst h0; apply so_copy, SI]).
  apply ebind_ok in E as [(e & E & ->)|(st & bc1 & E1 & E)].
  - destruct (reexecute_ok true l _ _ _ _ h0 (Block_Hash b) M Hall SI Hl Hs0 E) as (A & B & _). by split_and!.
  - destruct (reexecute_ok true l _ _ _ _ h0 (Block_Hash b) M Hall SI Hl Hs0 E1) as (A & B & K). apply Ok_inj in E as [<- <-].
    split_and!; [done|done|]. intros st' [= <-]. by apply so_copy, K.
Qed.

(** *** Rewinding *)

Lemma drop_same number n (bc : Blockchain St) : same_states bc (drop_canonical number n bc).
Proof.
  revert bc. induction n as [|n IH]; intros bc; cbn [drop_canonical]; [done|].
  destruct (canonCache bc !! _); [|apply IH]. set (bc1 := with_blockCache _ _). exact (IH bc1).
Qed.

Lemma SetHead_states number (bc bc' : Blockchain St) :
  plainly_reachable bc -> chain_inv bc -> states_inv bc -> SetHead keccak256 eip7706 fuel number bc = Ok (inr tt) bc' ->
  states_inv bc' /\ head_state bc'.
Proof.
  intros R (hd & Eh & Hhd & Hd & I & J) SI E. unfold SetHead in E. run E. unfold head in E0. run E0. rewrite Eh in E0.
  apply Ok_inj in E0 as [<- <-]. run E. destruct (canonCache bc !! number) as [target|] eqn:Et; [|discriminate E].
  destruct (inv_canon _ _ _ _ _ _ _ J _ _ Et) as ([N1 N2] & Hh & Hdt & Hnum).
  pose proof (NumberU64_range hd) as Hu. unfold is_u64 in Hu.
  destruct (drop_canonical_ok keccak256 eip7706 idOf number (Z.to_nat (NumberU64 hd - number)) bc (bc_genesis bc))
    as (A1 & A2 & A3 & A4 & A5); [lia|lia| |].
  { by replace (number + Z.of_nat (Z.to_nat (NumberU64 hd - number))) with (NumberU64 hd) by lia. }
  run E. pose proof (drop_same number (Z.to_nat (NumberU64 hd - number)) bc) as DS.
  set (bc1 := drop_canonical _ _ _) in *. run E. run E. unfold head in E0. run E0. cbn [currentBlock with_currentBlock] in E0.
  destruct (blockCache bc1 !! target) as [t|] eqn:Ec; [|discriminate E0]. apply Ok_inj in E0 as [<- <-].
  destruct (inv_cache _ _ _ _ _ _ I target t (lookup_weaken _ _ _ _ Ec A3)) as (<- & Ht & _).
  apply ebind_inr in E as (st & bc2 & E1 & E).
  apply stateAt_states in E1 as (S2 & [V2 _] & K); cbn [bc_db blockCache bc_genesis with_currentBlock].
  - run E. run E. run E. run E. unfold gopt in E0. destruct (hc_SetHead _ _ _ _) as [hc|]; [|discriminate E0].
    apply Ok_inj in E0 as [<- <-]. run E. apply Ok_inj in E as [_ <-]. split; [by apply (states_same bc2)|].
    exists t. split; [|by apply K]. by injection V2 as _ _ _ V4 _.
  - rewrite A4. apply (blocks_side _ _ _ (bc_db bc)); [done|]. by eapply blocks_sub.
  - by apply (states_same bc).
  - done.
  - by apply (in_db_touches (bc_db bc)).
  - by eapply (moment_same bc1); [apply moment_dropped|].
  - by apply held_cached.
Qed.

(** *** All steps *)

Lemma plain_chain bc bc' : plain_step bc bc' -> chain_step keccak256 eip7706 fuel config idOf anything bc bc'.
Proof. intros []; [eapply step_insert|eapply step_set_head|eapply step_state|eapply step_finalized|eapply step_safe|eapply step_evict]; done. Qed.

Lemma plain_states bc bc' :
  plain_step bc bc' -> plainly_reachable bc -> chain_inv bc -> states_inv bc -> head_state bc ->
  states_inv bc' /\ head_state bc'.
Proof.
  intros Hs R HI SI HS. destruct Hs as [b r bc bc' Hb E|n bc bc' E|h b r bc bc' Hh Eg E|b bc bc' E|b bc bc' E|h bc bc' E].
  - destruct (InsertBlock_states b bc bc' r R HI SI HS Hb E) as (A & B & _). done.
  - by eapply SetHead_states.
  - destruct (Reorg_known keccak256 eip7706 fuel idOf h b bc HI Hh Eg) as (A & _ & D). destruct HI as (hd & _ & _ & _ & I & _).
    assert (held bc b) as Hheld.
    { unfold held. destruct (GetBlock_ok keccak256 eip7706 fuel idOf h bc bc _ (bc_genesis bc) I Hh Eg) as [_ (_ & -> & _)]. exact Eg. }
    destruct (StateAtBlock_states b bc bc' r I SI A D (moment_reached _ R) Hheld E) as (P & Q & _). split; [done|by eapply head_quiet].
  - apply Ok_inj in E as [_ <-]. split; [by apply (states_same bc)|done].
  - apply Ok_inj in E as [_ <-]. split; [by apply (states_same bc)|done].
  - apply Ok_inj in E as [_ <-]. split; [by apply (states_same bc)|done].
Qed.

Lemma new_chain_states opts (bc : Blockchain St) :
  proper g -> NumberU64 g = 0 -> NewBlockchain keccak256 eip7706 fuel (Some g) st0 ∅ opts = Some (inr bc) ->
  states_inv bc /\ head_state bc.
Proof.
  intros Hg Hz E. unfold NewBlockchain in E. apply bind_Some in E as (hc & _ & E). apply bind_Some in E as (db & _ & E).
  set (bc0 := mkBlockchain _ _ _ _ _ _ _ _ _ _ _ _ _ _ _ _ _ _) in E.
  assert (states_inv bc0 /\ head_state bc0) as [S0 H0].
  { split; [|exists g; split; [done|]; apply so_copy, so_genesis].
    split; cbn; [done|apply so_copy, so_genesis|apply so_genesis| |]; intros h e; cbn; by rewrite lookup_empty. }
  destruct (_ =? 0); [by injection E as <-|].
  destruct (GetBlock eip7706 fuel _ bc0) as [[b|] bc1| | |] eqn:Eg; try discriminate E; injection E as <-.
  all: assert (bc1 = bc0) as -> by
    (unfold GetBlock in Eg; run Eg; destruct (blockCache bc0 !! _); [by apply Ok_inj in Eg as [_ <-]|];
     unfold chain_readBlock, of_tres in Eg; run Eg; destruct (readBlock _ _ _ _); first [discriminate Eg|by apply Ok_inj in Eg as [_ <-]]).
  - split; [by apply (states_same bc0)|exact H0].
  - done.
Qed.

Lemma plainly_reachable_inv bc : plainly_reachable bc -> chain_inv bc /\ states_inv bc /\ head_state bc.
Proof.
  intros [opts bc0 Hg Hz E R].
  revert bc R. apply (rtc_ind_r (fun bc => chain_inv bc /\ states_inv bc /\ head_state bc) bc0).
  - destruct (new_chain_inv keccak256 eip7706 fuel idOf g st0 opts bc0 Hg Hz E) as (HI & _).
    by destruct (new_chain_states opts bc0 Hg Hz E) as [SI HS].
  - intros x y R Hs (HI & SI & HS). destruct (plain_states x y Hs (plain_reach _ opts bc0 Hg Hz E R) HI SI HS) as [A B].
    split; [|done]. eapply step_inv; [by eapply plain_chain|done].
Qed.

End States.

(** C8. What acceptance of a block means, for a chain started on an empty
    database and reached by insertions, completed rewindings, state queries,
    finality marks and cache evictions (reorganisations, pruning and rewindings
    that fail half way are left out).  A block that was not in the cache and is
    accepted has a known parent, against which its header was validated, and a
    valid body; executing it on a state of its parent, with the block hashes of
    the canonical index, used the gas and gave the receipts, the bloom, the
    state root (after the requests, from Prague on) and the access list of its
    header.  A state of the parent is the genesis state, or the state left when
    the parent was itself inserted and checked, or by executing the block the
    chain holds for it again, which leaves out the requests and the checks; and
    so on down to genesis.  Afterwards the current state is such a state of the
    head block; a block above the old head is the new head, and the root of the
    current state is the one in its header. *)
Theorem accepted_block_executed {St : Type} `{ChainStateLaws St} keccak256 eip7706 fuel config idOf g st0 (bc bc' : Blockchain St) b :
  plainly_reachable keccak256 eip7706 fuel config idOf g st0 bc -> proper keccak256 eip7706 idOf b ->
  blockCache bc !! Block_Hash keccak256 eip7706 b = None ->
  InsertBlock keccak256 eip7706 fuel config b bc = Ok (inr tt) bc' ->
  executed keccak256 eip7706 fuel config idOf g st0 b bc /\ head_state keccak256 eip7706 fuel config idOf g st0 bc' /\ promoted b bc bc'.
Proof.
  intros HR Hb Hc E. destruct (plainly_reachable_inv _ _ _ _ _ _ _ _ HR) as (HI & SI & HS).
  destruct (InsertBlock_states _ _ _ _ _ _ _ b bc bc' (inr tt) HR HI SI HS Hb E) as (_ & A & K). destruct (K eq_refl Hc) as [Hx Hp].
  split_and!; [done|done|by apply Hp].
Qed.

#[local] Opaque t_new t_c1 t_c2 t_c3 t_c4 t_c5 InsertBlock.

Lemma t_plain : plainly_reachable t_hash false 100 t_config t_id t_g [] t_c5.
Proof.
  destruct t_runs as (R1 & R2 & R3 & R4 & R5). destruct t_known as (P0 & P1 & P2 & P3 & P4 & _ & P6).
  apply (plain_reach _ _ _ _ _ t_g [] t_c5 t_opts t_new P0 eq_refl t_new_ok).
  apply (rtc_l _ _ _ _ (plain_insert _ _ _ _ _ _ _ _ _ P1 R1)). apply (rtc_l _ _ _ _ (plain_insert _ _ _ _ _ _ _ _ _ P2 R2)).
  apply (rtc_l _ _ _ _ (plain_insert _ _ _ _ _ _ _ _ _ P3 R3)). apply (rtc_l _ _ _ _ (plain_insert _ _ _ _ _ _ _ _ _ P4 R4)).
  apply (rtc_l _ _ _ _ (plain_insert _ _ _ _ _ _ _ _ _ P6 R5)). apply rtc_refl.
Qed.

#[local] Transparent InsertBlock.

Lemma t_inserted : exists bc', InsertBlock t_hash false 100 t_config t_b3 t_c5 = Ok (inr tt) bc'.
Proof.
  assert (match InsertBlock t_hash false 100 t_config t_b3 t_c5 with Ok (inr tt) _ => true | _ => false end = true) as E
    by (vm_compute; reflexivity).
  destruct (InsertBlock t_hash false 100 t_config t_b3 t_c5) as [[|[]] bc'| | |]; try discriminate E. by exists bc'.
Qed.

#[local] Opaque InsertBlock.

#[local] Instance logStateLaws : ChainStateLaws (list Hash).
Proof. by split. Qed.

Lemma accepted_block_executed_witness :
  exists bc', InsertBlock t_hash false 100 t_config t_b3 t_c5 = Ok (inr tt) bc' /\
    executed t_hash false 100 t_config t_id t_g [] t_b3 t_c5 /\ head_state t_hash false 100 t_config t_id t_g [] bc' /\ promoted t_b3 t_c5 bc'.
Proof.
  destruct t_inserted as [bc' E]. exists bc'. split; [exact E|].
  apply (accepted_block_executed t_hash false 100 t_config t_id t_g [] t_c5 bc' t_b3).
  - exact t_plain.
  - apply t_known.
  - vm_compute. reflexivity.
  - exact E.
Defined.

(** With a block cache of one block, which the genesis block fills and never
    leaves, the first insertion does not return. *)
Lemma small_cache_never_returns :
  match NewBlockchain t_hash false 100 (Some t_g) [] ∅ (mkOpts 1 0 0) with
  | Some (inr bc) => match InsertBlock t_hash false 100 t_config t_a1 bc with Fuel => True | _ => False end
  | _ => False
  end.
Proof. vm_compute. exact I. Qed.
