(* ===== verification/ForkChoiceProofs.v ===== *)
(** * ForkChoiceProofs: fork choice updates and finality

    The ancestry walks find what they look for, and an accepted update never
    reverts a block at or below the finalized height. *)

From stdpp Require Import gmap.
From S2P Require Import Prelude Rlp RlpProofs StateDB Transactions TxProofs Machine Blocks BlockProofs ChainConfig Receipts.
From S2P Require Import BlockProcessor Trie RawDB RawDBProofs BlockStore BlockStoreProofs Validator HeaderChain ValidatorProofs.
From S2P Require Import StateCache Chain ChainProofs ChainInv ChainSteps ChainProps ForkChoice.
Local Open Scope Z_scope.
Local Open Scope go_scope.

Section Walks.

Context {St : Type} `{ChainState St}.
Context (keccak256 : bytes -> bytes) (eip7706 : bool) (fuel : nat) (config : ChainConfig).
Context (idOf : Hash -> Hash * Z).

Abbreviation Block_Hash := (Block_Hash keccak256 eip7706).
Abbreviation proper := (proper keccak256 eip7706 idOf).
Abbreviation chain_inv := (chain_inv keccak256 eip7706 idOf).
Abbreviation ancestor_at := (ancestor_at idOf).

(** A block the chain knows. *)
Definition known (bc : Blockchain St) (b : Block) : Prop := proper b /\ in_db (bc_db bc) (Block_Hash b).

Lemma known_self (bc : Blockchain St) b : known bc b -> ancestor_at (Block_Hash b) (NumberU64 b) = Some (Block_Hash b).
Proof.
  intros [Hb _]. pose proof (ancestor_self idOf (Block_Hash b)) as S. rewrite (pr_id _ _ _ _ Hb) in S. apply S.
  apply (NumberU64_range b).
Qed.

(** The parent of a known block above genesis is found. *)
Lemma GetBlock_parent (bc bc' : Blockchain St) b r :
  chain_inv bc -> known bc b -> NumberU64 b <> 0 -> GetBlock eip7706 fuel (ParentHash b) bc = Ok r bc' ->
  bc' = bc /\ exists p, r = Some p /\ known bc p /\ Block_Hash p = ParentHash b /\ NumberU64 p = NumberU64 b - 1 /\
    forall k, k < NumberU64 b -> ancestor_at (Block_Hash b) k = ancestor_at (Block_Hash p) k.
Proof.
  intros (hd & _ & _ & _ & I & _) [Hb Hd] Hn E. destruct (known_parent _ _ _ _ _ _ _ I Hb Hd Hn) as [Hdp Hnp].
  apply (GetBlock_ok keccak256 eip7706 fuel idOf (ParentHash b) bc bc' r (bc_genesis bc) I) in E as [-> Hr];
    [|by apply (proper_parent _ _ _ _ Hb)]. split; [done|]. destruct r as [p|]; [|done]. destruct Hr as (Hp & Ep & Hdp').
  exists p. split; [done|]. split; [by split; [|rewrite Ep]|]. split; [done|].
  pose proof (pr_id _ _ _ _ Hp) as Eidp. rewrite Ep in Eidp. rewrite Eidp in Hnp. cbn in Hnp. split; [done|].
  intros k Hk. rewrite Ep. rewrite ancestor_below; rewrite (pr_id _ _ _ _ Hb); cbn [fst snd]; [done|done|by rewrite Eidp].
Qed.

Lemma walk_back_ok n number b (bc bc' : Blockchain St) r :
  chain_inv bc -> known bc b -> 0 <= number -> walk_back eip7706 fuel n number b bc = Ok r bc' ->
  bc' = bc /\ exists c, r = Some c /\ known bc c /\ NumberU64 c = Z.min number (NumberU64 b) /\
    ancestor_at (Block_Hash b) (NumberU64 c) = Some (Block_Hash c).
Proof.
  intros HI. revert b. induction n as [|n IH]; intros b Hb Hn E; cbn [walk_back] in E;
    (destruct (Z.gtb_spec (NumberU64 b) number) as [Hg|Hg]; [|injection E as <- <-; split; [done|]; exists b;
      split_and!; [done|done|lia|by eapply known_self]]); [discriminate E|].
  run E. apply GetBlock_parent in E0 as (-> & p & -> & Hp & Ep & Np & HA); [|done|done|lia].
  apply IH in E as (-> & c & -> & Hc & Nc & Ac); [|done|done]. split; [done|]. exists c. split_and!; [done|done|lia|].
  rewrite HA by lia. done.
Qed.

Lemma isAncestor_ok a d (bc bc' : Blockchain St) r :
  chain_inv bc -> known bc a -> known bc d -> isAncestor keccak256 eip7706 fuel a d bc = Ok r bc' ->
  bc' = bc /\ (r = true <-> ancestor_at (Block_Hash d) (NumberU64 a) = Some (Block_Hash a)).
Proof.
  intros HI Ha Hd E. unfold isAncestor in E. destruct (Z.gtb_spec (NumberU64 a) (NumberU64 d)) as [Hg|Hg].
  { injection E as <- <-. split; [done|]. split; [done|]. rewrite ancestor_above; [done|].
    destruct Hd as [Hd _]. rewrite (pr_id _ _ _ _ Hd). done. }
  destruct (Z.eqb_spec (Block_Hash a) (Block_Hash d)) as [Eh|Eh].
  { injection E as <- <-. split; [done|]. split; [|done]. intros _. rewrite <- Eh. by eapply known_self. }
  run E. apply walk_back_ok in E0 as (-> & c & -> & Hc & Nc & Ac); [|done|done|apply (NumberU64_range a)].
  injection E as <- <-. split; [done|]. replace (NumberU64 c) with (NumberU64 a) in Ac by lia. rewrite Ac, Z.eqb_eq.
  split; [by intros ->|by intros [= ->]].
Qed.

(** The highest block two ancestries have in common. *)
Definition common (bc : Blockchain St) (x y a : Block) : Prop :=
  known bc a /\ NumberU64 a <= NumberU64 x /\ NumberU64 a <= NumberU64 y /\
  ancestor_at (Block_Hash x) (NumberU64 a) = Some (Block_Hash a) /\
  ancestor_at (Block_Hash y) (NumberU64 a) = Some (Block_Hash a) /\
  forall n, NumberU64 a < n -> n <= NumberU64 x -> n <= NumberU64 y ->
    ancestor_at (Block_Hash x) n <> ancestor_at (Block_Hash y) n.

Lemma lockstep_ok n x y (bc bc' : Blockchain St) r :
  chain_inv bc -> known bc x -> known bc y -> NumberU64 x = NumberU64 y ->
  lockstep keccak256 eip7706 fuel n x y bc = Ok r bc' -> bc' = bc /\ exists a, r = Some a /\ common bc x y a.
Proof.
  intros HI. revert x y. induction n as [|n IH]; intros x y Hx Hy Hn E; cbn [lockstep] in E;
    (destruct (Z.eqb_spec (Block_Hash x) (Block_Hash y)) as [Eh|Eh];
      [injection E as <- <-; split; [done|]; exists x; split; [done|]; split_and!; [done|lia|lia|by eapply known_self| |lia];
       rewrite <- Eh; by eapply known_self|]);
    (destruct (Z.eqb_spec (NumberU64 x) 0) as [Hz|Hz];
      [exfalso; apply Eh; destruct HI as (hd & _ & _ & _ & I & _); destruct Hx as [Hx Dx], Hy as [Hy Dy];
       pose proof (ancestor_genesis keccak256 eip7706 idOf _ _ _ _ I (Block_Hash_range _ _ x) Dx) as G1;
       pose proof (ancestor_genesis keccak256 eip7706 idOf _ _ _ _ I (Block_Hash_range _ _ y) Dy) as G2;
       pose proof (known_self bc x (conj Hx Dx)) as S1; pose proof (known_self bc y (conj Hy Dy)) as S2;
       rewrite <- Hn, Hz in S2; rewrite Hz in S1; congruence|]); [discriminate E|].
  run E. apply GetBlock_parent in E0 as (-> & p & -> & Hp & Ep & Np & Ap); [|done|done|done].
  run E. apply GetBlock_parent in E0 as (-> & q & -> & Hq & Eq & Nq & Aq); [|done|done|lia].
  apply IH in E as (-> & a & -> & Ha & B1 & B2 & B3 & B4 & B5); [|done|done|lia]. split; [done|]. exists a. split; [done|].
  split_and!; [done|lia|lia|rewrite Ap by lia; done|rewrite Aq by lia; done|].
  intros m Hm Hmx Hmy. destruct (decide (m = NumberU64 x)) as [->|Hne].
  - rewrite (known_self bc x Hx). rewrite Hn. rewrite (known_self bc y Hy). congruence.
  - rewrite Ap, Aq by lia. apply B5; lia.
Qed.

Lemma common_shift (bc : Blockchain St) x y x' y' a :
  known bc x -> known bc y -> known bc x' -> known bc y' ->
  NumberU64 x' = Z.min (NumberU64 x) (NumberU64 y) -> NumberU64 y' = NumberU64 x' ->
  ancestor_at (Block_Hash x) (NumberU64 x') = Some (Block_Hash x') ->
  ancestor_at (Block_Hash y) (NumberU64 y') = Some (Block_Hash y') ->
  common bc x' y' a -> common bc x y a.
Proof.
  intros Kx Ky Kx' Ky' Nx Ny Ax Ay (Ka & B1 & B2 & B3 & B4 & B5).
  assert (forall u v n, known bc u -> known bc v -> n <= NumberU64 v -> NumberU64 v <= NumberU64 u ->
    ancestor_at (Block_Hash u) (NumberU64 v) = Some (Block_Hash v) -> ancestor_at (Block_Hash u) n = ancestor_at (Block_Hash v) n) as K.
  { intros u v n [Hu _] Hv Hn Hl E. pose proof (known_self bc v Hv) as Sv. destruct Hv as [Hv _].
    apply (ancestor_agree idOf _ _ (Block_Hash v)); rewrite ?(pr_id _ _ _ _ Hu), ?(pr_id _ _ _ _ Hv); cbn [snd]; try done; lia. }
  split_and!; [done|lia|lia|rewrite (K x x') by (done || lia); done|rewrite (K y y') by (done || lia); done|].
  intros n Hn Hnx Hny. rewrite (K x x'), (K y y') by (done || lia). apply B5; lia.
Qed.

Lemma FindCommonAncestor_ok x y (bc bc' : Blockchain St) r :
  chain_inv bc -> known bc x -> known bc y -> FindCommonAncestor keccak256 eip7706 fuel (Some x) (Some y) bc = Ok r bc' ->
  bc' = bc /\ exists a, r = Some a /\ common bc x y a.
Proof.
  intros HI Hx Hy E. unfold FindCommonAncestor in E. run E.
  apply walk_back_ok in E0 as (-> & x' & -> & Hx' & Nx & Ax); [|done|done|apply (NumberU64_range y)]. run E.
  apply walk_back_ok in E0 as (-> & y' & -> & Hy' & Ny & Ay); [|done|done|apply (NumberU64_range x')].
  apply lockstep_ok in E as (-> & a & -> & Ha); [|done..|lia]. split; [done|]. exists a. split; [done|].
  apply (common_shift bc x y x' y'); try done; lia.
Qed.

End Walks.

Section Update.

Context {St : Type} `{ChainState St}.
Context (keccak256 : bytes -> bytes) (eip7706 : bool) (fuel : nat).
Context (idOf : Hash -> Hash * Z).

Abbreviation Block_Hash := (Block_Hash keccak256 eip7706).
Abbreviation chain_inv := (chain_inv keccak256 eip7706 idOf).
Abbreviation ancestor_at := (ancestor_at idOf).
Abbreviation known := (known keccak256 eip7706 idOf).

(** The pointers name blocks of the chain. *)
Record fork_inv (fc : ForkChoice St) : Prop := {
  fi_chain : chain_inv (fc_bc fc);
  fi_head : exists b, fc_head fc = Some b /\ known (fc_bc fc) b;
  fi_safe : exists b, fc_safe fc = Some b /\ known (fc_bc fc) b;
  fi_finalized : exists b, fc_finalized fc = Some b /\ known (fc_bc fc) b;
}.

Lemma on_chain_ok {A} (m : M (Blockchain St) A) fc fc' r :
  on_chain m fc = Ok r fc' -> exists bc', m (fc_bc fc) = Ok r bc' /\
    fc' = mkForkChoice bc' (fc_head fc) (fc_safe fc) (fc_finalized fc).
Proof. unfold on_chain. destruct (m (fc_bc fc)); intros E; try discriminate E. injection E as <- <-. eauto. Qed.

Lemma fork_eta (fc : ForkChoice St) : mkForkChoice (fc_bc fc) (fc_head fc) (fc_safe fc) (fc_finalized fc) = fc.
Proof. by destruct fc. Qed.

Lemma fbind_ok {A B} (m : M (ForkChoice St) (fork_error + A)) (k : A -> M (ForkChoice St) (fork_error + B)) fc fc' b :
  fbind m k fc = Ok (inr b) fc' -> exists a fc1, m fc = Ok (inr a) fc1 /\ k a fc1 = Ok (inr b) fc'.
Proof. unfold fbind. intros E. apply gbind_ok in E as ([e|a] & fc1 & E1 & E); [discriminate E|eauto]. Qed.

Lemma freject_ok bad e (fc fc' : ForkChoice St) u : freject bad e fc = Ok (inr u) fc' -> bad = false /\ fc' = fc.
Proof. unfold freject, gret. destruct bad; intros [=]. by split. Qed.

Lemma fetch_known h b (fc fc' : ForkChoice St) :
  chain_inv (fc_bc fc) -> is_Hash h -> on_chain (GetBlock eip7706 fuel h) fc = Ok (Some b) fc' ->
  fc' = fc /\ known (fc_bc fc) b /\ Block_Hash b = h.
Proof.
  intros (hd & _ & _ & _ & I & _) Hh E. apply on_chain_ok in E as (bc' & E & ->).
  apply (GetBlock_ok keccak256 eip7706 fuel idOf h _ bc' _ _ I Hh) in E as [-> (A & <- & B)].
  split; [apply fork_eta|]. by split.
Qed.

Lemma named_known h cur e (fc fc' : ForkChoice St) p :
  chain_inv (fc_bc fc) -> is_Hash h -> (exists c, cur = Some c /\ known (fc_bc fc) c) ->
  named eip7706 fuel h cur e fc = Ok (inr p) fc' ->
  fc' = fc /\ exists b, p = Some b /\ known (fc_bc fc) b /\ (h <> 0 -> Block_Hash b = h).
Proof.
  intros HI Hh (c & -> & Hc) E. unfold named in E. destruct (Z.eqb_spec h 0) as [->|Hn].
  - apply Ok_inj in E as [[= <-] <-]. split; [done|]. by exists c.
  - apply gbind_ok in E as ([x|] & fc1 & E1 & E); apply Ok_inj in E as [[= <-] <-].
    destruct (fetch_known _ _ _ _ HI Hh E1) as (-> & A & B). split; [done|]. by exists x.
Qed.

Lemma checked_ancestor (c : bool) a d e (fc fc' : ForkChoice St) u :
  chain_inv (fc_bc fc) -> known (fc_bc fc) a -> known (fc_bc fc) d ->
  (if c then let! ok := on_chain (isAncestor keccak256 eip7706 fuel a d) in freject (negb ok) e else gret (inr tt)) fc
    = Ok (inr u) fc' ->
  fc' = fc /\ (c = true -> ancestor_at (Block_Hash d) (NumberU64 a) = Some (Block_Hash a)).
Proof.
  intros HI Ha Hd E. destruct c; [|by injection E as <- <-]. apply gbind_ok in E as (ok & fc1 & E1 & E).
  apply on_chain_ok in E1 as (bc' & E1 & ->).
  apply (isAncestor_ok keccak256 eip7706 fuel idOf) in E1 as [-> Hok]; [|done..]. rewrite fork_eta in E.
  apply freject_ok in E as [E ->]. split; [done|]. intros _. apply Hok. by destruct ok.
Qed.

(** The ancestry of two heads up to a height. *)
Definition same_up_to (n : Z) (x y : Hash) : Prop := forall k, k <= n -> ancestor_at x k = ancestor_at y k.

Lemma common_same (bc : Blockchain St) x y a n :
  known bc x -> known bc y -> common keccak256 eip7706 idOf bc x y a -> n <= NumberU64 a ->
  same_up_to n (Block_Hash x) (Block_Hash y).
Proof.
  intros [Hx _] [Hy _] ([Ha _] & B1 & B2 & B3 & B4 & _) Hn k Hk.
  apply (ancestor_agree idOf _ _ (Block_Hash a));
    rewrite ?(pr_id _ _ _ _ Ha), ?(pr_id _ _ _ _ Hx), ?(pr_id _ _ _ _ Hy); cbn [snd]; first [done|lia].
Qed.

Lemma genesis_same (bc : Blockchain St) x y :
  chain_inv bc -> known bc x -> known bc y -> same_up_to 0 (Block_Hash x) (Block_Hash y).
Proof.
  intros (hd & _ & _ & _ & I & _) [Hx Dx] [Hy Dy] k Hk. destruct (decide (k = 0)) as [->|Hn].
  - rewrite !(ancestor_genesis keccak256 eip7706 idOf _ _ _ _ I); try done; apply Block_Hash_range.
  - unfold ChainProofs.ancestor_at. destruct (Z.leb_spec 0 k); [lia|done].
Qed.

(** What moving the head leaves of the chain [bc]: every block, and a head. *)
Record moved (bc bc' : Blockchain St) : Prop := {
  mv_chain : chain_inv bc';
  mv_known : forall b, known bc b -> known bc' b;
}.

Lemma moved_refl (bc : Blockchain St) : chain_inv bc -> moved bc bc.
Proof. by split. Qed.

Lemma Reorg_moved b (bc bc' : Blockchain St) r :
  chain_inv bc -> known bc b -> Reorg keccak256 eip7706 fuel b bc = Ok r bc' ->
  moved bc bc' /\ currentBlock bc' = Some b /\ follows idOf (canonCache bc') (Block_Hash b).
Proof.
  intros HI [Hb Hd] E. destruct (Reorg_run keccak256 eip7706 fuel idOf b bc bc' r HI Hb Hd E) as (A & B & D & _ & K).
  split; [|done]. split; [done|]. intros c [Hc Hi]. split; [done|]. apply K; [apply Block_Hash_range|done].
Qed.

(** The pointers stay while the head moves. *)
Definition same_pointers (fc fc' : ForkChoice St) : Prop :=
  fc_head fc' = fc_head fc /\ fc_safe fc' = fc_safe fc /\ fc_finalized fc' = fc_finalized fc.

Lemma reorgTo_ok b (fc fc' : ForkChoice St) r :
  chain_inv (fc_bc fc) -> known (fc_bc fc) b -> reorgTo keccak256 eip7706 fuel b fc = Ok r fc' ->
  same_pointers fc fc' /\ moved (fc_bc fc) (fc_bc fc') /\ currentBlock (fc_bc fc') = Some b /\
  follows idOf (canonCache (fc_bc fc')) (Block_Hash b).
Proof.
  intros HI Hb E. apply gbind_ok in E as (x & fc1 & E1 & E). apply Ok_inj in E as [_ <-].
  apply on_chain_ok in E1 as (bc' & E1 & ->). split; [done|]. by apply (Reorg_moved b (fc_bc fc) bc' x).
Qed.

(** The branches part at or above the finalized block. *)
Lemma guarded_reorg f hd b (fc fc' : ForkChoice St) u :
  chain_inv (fc_bc fc) -> known (fc_bc fc) hd -> known (fc_bc fc) b ->
  (if NumberU64 f >? 0 then
     let! ancestor := on_chain (FindCommonAncestor keccak256 eip7706 fuel (Some hd) (Some b)) in
     freject (match ancestor with Some a => NumberU64 a <? NumberU64 f | None => false end) ErrReorgPastFinalized
   else gret (inr tt)) fc = Ok (inr u) fc' ->
  fc' = fc /\ same_up_to (NumberU64 f) (Block_Hash b) (Block_Hash hd).
Proof.
  intros HI Hh Hb E. destruct (Z.gtb_spec (NumberU64 f) 0) as [Hg|Hg].
  - apply gbind_ok in E as (a & fc1 & E1 & E). apply on_chain_ok in E1 as (bc' & E1 & ->).
    apply (FindCommonAncestor_ok keccak256 eip7706 fuel idOf) in E1 as (-> & c & -> & Hc); [|done..]. rewrite fork_eta in E.
    apply freject_ok in E as [E%Z.ltb_ge ->]. split; [done|]. intros k Hk. symmetry.
    by apply (common_same (fc_bc fc) hd b c (NumberU64 f)).
  - apply Ok_inj in E as [_ <-]. split; [done|]. intros k Hk. apply (genesis_same (fc_bc fc)); try done. lia.
Qed.

Lemma moveHead_ok f b hd (fc fc' : ForkChoice St) u :
  chain_inv (fc_bc fc) -> known (fc_bc fc) b -> currentBlock (fc_bc fc) = Some hd ->
  moveHead keccak256 eip7706 fuel f b fc = Ok (inr u) fc' ->
  same_pointers fc fc' /\ moved (fc_bc fc) (fc_bc fc') /\ same_up_to (NumberU64 f) (Block_Hash b) (Block_Hash hd) /\
  Block_Hash <$> currentBlock (fc_bc fc') = Some (Block_Hash b) /\
  (follows idOf (canonCache (fc_bc fc)) (Block_Hash hd) -> follows idOf (canonCache (fc_bc fc')) (Block_Hash b)).
Proof.
  intros HI Hb Eh E. assert (known (fc_bc fc) hd) as Hhd.
  { destruct HI as (x & Ex & A & B & _). rewrite Eh in Ex. injection Ex as <-. by split. }
  unfold moveHead in E. run E. rewrite Eh in E. run E.
  destruct (Z.eqb_spec (Block_Hash b) (Block_Hash hd)) as [Eq|Hne].
  - apply Ok_inj in E as [_ <-]. split; [done|]. split; [by apply moved_refl|]. rewrite Eh, Eq. by split_and!.
  - apply fbind_ok in E as (v & fc1 & E1 & E). apply guarded_reorg in E1 as [-> Hs]; [|done..].
    apply reorgTo_ok in E as (A & B & D & F); [|done..]. rewrite D. by split_and!.
Qed.

(** The block of a pointer, after the head has moved. *)
Lemma pointer_moved (p : option Block) (bc bc' : Blockchain St) :
  moved bc bc' -> (exists b, p = Some b /\ known bc b) -> exists b, p = Some b /\ known bc' b.
Proof. intros M (b & -> & Hb). exists b. split; [done|by apply M]. Qed.

Lemma fork_moved (fc fc' : ForkChoice St) :
  fork_inv fc -> same_pointers fc fc' -> moved (fc_bc fc) (fc_bc fc') -> fork_inv fc'.
Proof.
  intros [I1 I2 I3 I4] (S1 & S2 & S3) M. split; [by apply M|rewrite S1|rewrite S2|rewrite S3]; by eapply pointer_moved.
Qed.

(** What an accepted update has established. *)
Record accepted (headHash safeHash finalizedHash : Hash) (fc fc' : ForkChoice St) (hd old hb sb fb : Block) : Prop := {
  ac_before : currentBlock (fc_bc fc) = Some hd /\ fc_finalized fc = Some old;
  ac_after : fc_head fc' = Some hb /\ fc_safe fc' = Some sb /\ fc_finalized fc' = Some fb;
  ac_named : Block_Hash hb = headHash /\ (safeHash <> 0 -> Block_Hash sb = safeHash) /\
             (finalizedHash <> 0 -> Block_Hash fb = finalizedHash);
  ac_head : Block_Hash <$> currentBlock (fc_bc fc') = Some headHash;
  ac_finalized : ancestor_at headHash (NumberU64 fb) = Some (Block_Hash fb);
  ac_safe : NumberU64 fb <= NumberU64 sb /\ (safeHash <> 0 -> ancestor_at headHash (NumberU64 sb) = Some (Block_Hash sb));
  ac_kept : same_up_to (Z.max (NumberU64 old) (NumberU64 fb)) headHash (Block_Hash hd);
  ac_index : follows idOf (canonCache (fc_bc fc)) (Block_Hash hd) -> follows idOf (canonCache (fc_bc fc')) headHash;
}.

(** A block of height zero is the genesis block, an ancestor of every block. *)
Lemma zero_ancestor (bc : Blockchain St) f b :
  chain_inv bc -> known bc f -> known bc b -> NumberU64 f = 0 -> ancestor_at (Block_Hash b) (NumberU64 f) = Some (Block_Hash f).
Proof.
  intros HI Hf Hb Hz. rewrite (genesis_same bc b f HI Hb Hf) by lia. by eapply known_self.
Qed.

Lemma ForkchoiceUpdate_ok headHash safeHash finalizedHash (fc fc' : ForkChoice St) u :
  fork_inv fc -> is_Hash headHash -> is_Hash safeHash -> is_Hash finalizedHash ->
  ForkchoiceUpdate keccak256 eip7706 fuel headHash safeHash finalizedHash fc = Ok (inr u) fc' ->
  fork_inv fc' /\ exists hd old hb sb fb, accepted headHash safeHash finalizedHash fc fc' hd old hb sb fb.
Proof.
  intros FI Hh Hs Hf E. pose proof FI as [HI I2 I3 I4]. pose proof HI as (hd & Ehd & _). pose proof I4 as (old & Eo & Ko).
  unfold ForkchoiceUpdate in E. apply gbind_ok in E as ([hb|] & fc0 & E0 & E); [|discriminate E].
  destruct (fetch_known _ _ _ _ HI Hh E0) as (-> & Kh & Eh). clear E0. run E.
  apply fbind_ok in E as (fp & fc0 & E1 & E). destruct (named_known _ _ _ _ _ _ HI Hf I4 E1) as (-> & fb & -> & Kf & Ef).
  apply fbind_ok in E as (sp & fc0 & E2 & E). destruct (named_known _ _ _ _ _ _ HI Hs I3 E2) as (-> & sb & -> & Ks & Es).
  clear E1 E2. run E. run E. apply fbind_ok in E as (u1 & fc0 & E3 & E). apply freject_ok in E3 as [L%Z.ltb_ge ->].
  apply fbind_ok in E as (u2 & fc0 & E4 & E). apply checked_ancestor in E4 as [-> Af]; [|done..].
  apply fbind_ok in E as (u3 & fc0 & E5 & E). apply checked_ancestor in E5 as [-> As]; [|done..].
  rewrite Eo in E. run E. apply fbind_ok in E as (u4 & fc1 & E6 & E).
  apply (moveHead_ok _ _ hd) in E6 as (S & M & K & Hc & Hi); [|done..]. run E. apply Ok_inj in E as [_ <-]. subst headHash. split.
  - split; cbn; [by apply M|exists hb|exists sb|exists fb]; (split; [done|by apply M]).
  - exists hd, old, hb, sb, fb. split; cbn; try done.
    + destruct (decide (NumberU64 fb = 0)) as [Hz|Hz]; [by eapply zero_ancestor|]. apply Af.
      pose proof (NumberU64_range fb) as Hu. unfold is_u64 in Hu. destruct (Z.gtb_spec (NumberU64 fb) 0); [done|lia].
    + split; [done|]. intros Hn. apply As. by destruct (Z.eqb_spec safeHash 0).
    + intros k Hk. apply K. destruct (Z.gtb_spec (NumberU64 fb) (NumberU64 old)); lia.
Qed.

(** *** Refused calls *)

(** A refused call keeps the pointers, and every block of the chain. *)
Definition refused (fc fc' : ForkChoice St) : Prop := same_pointers fc fc' /\ moved (fc_bc fc) (fc_bc fc').

Lemma refused_refl (fc : ForkChoice St) : fork_inv fc -> refused fc fc.
Proof. intros FI. split; [done|]. apply moved_refl, FI. Qed.

Lemma fbind_err {A B} (m : M (ForkChoice St) (fork_error + A)) (k : A -> M (ForkChoice St) (fork_error + B)) fc fc' e :
  fbind m k fc = Ok (inl e) fc' ->
  m fc = Ok (inl e) fc' \/ exists a fc1, m fc = Ok (inr a) fc1 /\ k a fc1 = Ok (inl e) fc'.
Proof.
  unfold fbind. intros E. apply gbind_ok in E as ([x|a] & fc1 & E1 & E); [|right; eauto].
  apply Ok_inj in E as [[= ->] ->]. by left.
Qed.

Lemma freject_err bad e e' (fc fc' : ForkChoice St) : freject bad e fc = Ok (inl e') fc' -> fc' = fc.
Proof. unfold freject, gret. by intros [= _ ->]. Qed.

(** Reading blocks leaves the chain as it was. *)
Lemma GetBlock_same h (fc fc' : ForkChoice St) r : on_chain (GetBlock eip7706 fuel h) fc = Ok r fc' -> fc' = fc.
Proof.
  intros E. apply on_chain_ok in E as (bc' & E & ->). assert (bc' = fc_bc fc) as ->; [|apply fork_eta].
  unfold GetBlock in E. run E. destruct (blockCache (fc_bc fc) !! h); [by apply Ok_inj in E as [_ <-]|].
  unfold chain_readBlock in E. run E. unfold of_tres in E. destruct (readBlock _ _ _ _);
    first [discriminate E|by apply Ok_inj in E as [_ <-]].
Qed.

Lemma named_same h cur e (fc fc' : ForkChoice St) r : named eip7706 fuel h cur e fc = Ok r fc' -> fc' = fc.
Proof.
  unfold named. destruct (h =? 0); intros E; [by apply Ok_inj in E as [_ <-]|].
  apply gbind_ok in E as (x & fc1 & E1 & E). apply Ok_inj in E as [_ <-]. by eapply GetBlock_same.
Qed.

Lemma ancestor_same (c : bool) a d e (fc fc' : ForkChoice St) r :
  chain_inv (fc_bc fc) -> known (fc_bc fc) a -> known (fc_bc fc) d ->
  (if c then let! ok := on_chain (isAncestor keccak256 eip7706 fuel a d) in freject (negb ok) e else gret (inr tt)) fc
    = Ok r fc' -> fc' = fc.
Proof.
  intros HI Ha Hd E. destruct c; [|by apply Ok_inj in E as [_ <-]]. apply gbind_ok in E as (ok & fc1 & E1 & E).
  apply on_chain_ok in E1 as (bc' & E1 & ->). apply (isAncestor_ok keccak256 eip7706 fuel idOf) in E1 as [-> _]; [|done..].
  rewrite fork_eta in E. by apply Ok_inj in E as [_ <-].
Qed.

Lemma moveHead_err f b e (fc fc' : ForkChoice St) :
  fork_inv fc -> known (fc_bc fc) b -> moveHead keccak256 eip7706 fuel f b fc = Ok (inl e) fc' ->
  refused fc fc' /\ (fc' = fc \/ exists x, e = ErrReorg x).
Proof.
  intros FI Hb E. pose proof (fi_chain _ FI) as HI. pose proof HI as (hd & Eh & A & B & _). unfold moveHead in E. run E.
  rewrite Eh in E. run E. destruct (Block_Hash b =? Block_Hash hd); [discriminate E|].
  apply fbind_err in E as [E|(u & fc1 & E1 & E)].
  - destruct (NumberU64 f >? 0); [|discriminate E]. apply gbind_ok in E as (a & fc1 & E1 & E). apply on_chain_ok in E1 as (bc' & E1 & ->).
    apply (FindCommonAncestor_ok keccak256 eip7706 fuel idOf) in E1 as (-> & _); [|done|by split|done]. rewrite fork_eta in E.
    apply freject_err in E as ->. split; [by apply refused_refl|by left].
  - apply guarded_reorg in E1 as [-> _]; [|done|by split|done]. pose proof E as E'.
    apply reorgTo_ok in E' as (S & M & _); [|done..]. split; [by split|right].
    apply gbind_ok in E as ([x|x] & fc1 & _ & E); apply Ok_inj in E as [[= <-] _]. by exists x.
Qed.

Lemma ForkchoiceUpdate_err headHash safeHash finalizedHash e (fc fc' : ForkChoice St) :
  fork_inv fc -> is_Hash headHash -> is_Hash safeHash -> is_Hash finalizedHash ->
  ForkchoiceUpdate keccak256 eip7706 fuel headHash safeHash finalizedHash fc = Ok (inl e) fc' ->
  refused fc fc' /\ (fc' = fc \/ exists x, e = ErrReorg x).
Proof.
  intros FI Hh Hs Hf E. pose proof FI as [HI I2 I3 I4]. pose proof I4 as (old & Eo & Ko).
  assert (forall x, x = fc -> refused fc x /\ (x = fc \/ exists y, e = ErrReorg y)) as K
    by (intros x ->; split; [by apply refused_refl|by left]).
  unfold ForkchoiceUpdate in E. apply gbind_ok in E as ([hb|] & fc0 & E0 & E).
  2:{ apply Ok_inj in E as [_ <-]. apply K. by eapply GetBlock_same. }
  destruct (fetch_known _ _ _ _ HI Hh E0) as (-> & Kh & Eh). clear E0. run E.
  apply fbind_err in E as [E|(fp & fc0 & E1 & E)]; [apply K; by eapply named_same|].
  destruct (named_known _ _ _ _ _ _ HI Hf I4 E1) as (-> & fb & -> & Kf & Ef).
  apply fbind_err in E as [E|(sp & fc0 & E2 & E)]; [apply K; by eapply named_same|].
  destruct (named_known _ _ _ _ _ _ HI Hs I3 E2) as (-> & sb & -> & Ks & Es).
  clear E1 E2. run E. run E. apply fbind_err in E as [E|(u1 & fc0 & E3 & E)]; [apply K; by eapply freject_err|].
  apply freject_ok in E3 as [_ ->]. apply fbind_err in E as [E|(u2 & fc0 & E4 & E)]; [apply K; by apply ancestor_same in E|].
  apply checked_ancestor in E4 as [-> _]; [|done..].
  apply fbind_err in E as [E|(u3 & fc0 & E5 & E)]; [apply K; by apply ancestor_same in E|].
  apply checked_ancestor in E5 as [-> _]; [|done..]. rewrite Eo in E. run E.
  apply fbind_err in E as [E|(u4 & fc1 & E6 & E)]; [by apply moveHead_err in E|]. run E. discriminate E.
Qed.

(** *** The direct reorganisation *)

Lemma ReorgWithValidation_ok b (fc fc' : ForkChoice St) r :
  fork_inv fc -> known (fc_bc fc) b -> ReorgWithValidation keccak256 eip7706 fuel b fc = Ok r fc' ->
  fork_inv fc' /\ exists hd old, currentBlock (fc_bc fc) = Some hd /\ fc_finalized fc = Some old /\ fc_finalized fc' = Some old /\
    (r = inr tt -> same_up_to (NumberU64 old) (Block_Hash b) (Block_Hash hd) \/ Block_Hash b = Block_Hash hd).
Proof.
  intros FI Hb E. pose proof FI as [HI I2 I3 (old & Eo & Ko)]. pose proof HI as (hd & Eh & A & B & _).
  unfold ReorgWithValidation in E. run E. rewrite Eh in E. run E.
  destruct (Z.eqb_spec (Block_Hash hd) (Block_Hash b)) as [Eq|Hne].
  { apply Ok_inj in E as [_ <-]. split; [done|]. exists hd, old. split_and!; try done. intros _. right. done. }
  apply gbind_ok in E as (a & fc1 & E1 & E). apply on_chain_ok in E1 as (bc' & E1 & ->).
  apply (FindCommonAncestor_ok keccak256 eip7706 fuel idOf) in E1 as (-> & c & -> & Hc); [|done|by split|done]. rewrite fork_eta in E.
  rewrite Eo in E. destruct r as [e|[]].
  - apply fbind_err in E as [E|(u & fc1 & E1 & E)].
    { apply freject_err in E as ->. split; [done|]. by exists hd, old. }
    apply freject_ok in E1 as [_ ->]. apply fbind_err in E as [E|(v & fc1 & E1 & E)]; [|run E; discriminate E].
    apply reorgTo_ok in E as (S & M & _); [|done..]. split; [by eapply fork_moved|]. destruct S as (_ & _ & S3). exists hd, old. by rewrite S3.
  - apply fbind_ok in E as (u & fc1 & E1 & E). apply freject_ok in E1 as [L%Z.ltb_ge ->].
    apply fbind_ok in E as (v & fc1 & E1 & E). apply reorgTo_ok in E1 as (S & M & D & _); [|done..]. run E. apply Ok_inj in E as [_ <-].
    destruct (fork_moved fc fc1 FI S M) as [J1 J2 J3 J4]. split.
    + split; cbn; try done. exists b. split; [done|by apply M].
    + destruct S as (_ & _ & S3). exists hd, old. cbn. rewrite S3. split_and!; try done. intros _. left. intros k Hk. symmetry.
      by apply (common_same (fc_bc fc) hd b c (NumberU64 old)); [by split|..].
Qed.

(** *** Reachable states *)

Context (config : ChainConfig).

(** A call of the fork choice, or of the chain behind it. *)
Inductive fork_step (ok : Block -> Blockchain St -> Prop) (fc : ForkChoice St) : ForkChoice St -> Prop :=
  | fork_chain bc' :
      chain_step keccak256 eip7706 fuel config idOf ok (fc_bc fc) bc' ->
      fork_step ok fc (mkForkChoice bc' (fc_head fc) (fc_safe fc) (fc_finalized fc))
  | fork_update h s f r fc' :
      is_Hash h -> is_Hash s -> is_Hash f ->
      ForkchoiceUpdate keccak256 eip7706 fuel h s f fc = Ok r fc' -> fork_step ok fc fc'
  | fork_reorg h b r fc' :
      is_Hash h -> GetBlock eip7706 fuel h (fc_bc fc) = Ok (Some b) (fc_bc fc) ->
      ReorgWithValidation keccak256 eip7706 fuel b fc = Ok r fc' -> fork_step ok fc fc'.

Inductive fork_reachable (ok : Block -> Blockchain St -> Prop) (g : Block) (fc : ForkChoice St) : Prop :=
  | fork_reach bc0 :
      reachable keccak256 eip7706 fuel config idOf ok g bc0 -> rtc (fork_step ok) (NewForkChoice bc0) fc ->
      fork_reachable ok g fc.

Lemma new_fork_inv (bc : Blockchain St) : chain_inv bc -> fork_inv (NewForkChoice bc).
Proof. intros HI. pose proof HI as (hd & Eh & A & B & _). split; cbn; [done|exists hd..]; by split_and!. Qed.

Lemma fork_step_inv ok (fc fc' : ForkChoice St) : fork_step ok fc fc' -> fork_inv fc -> fork_inv fc'.
Proof.
  intros Hs FI. pose proof (fi_chain _ FI) as HI. destruct Hs as [bc' Hs|h s f r fc' Hh Hsh Hf E|h b r fc' Hh Eg E].
  - apply (fork_moved fc); [done|done|]. split; [by eapply step_inv|]. intros b [Hb Hd]. split; [done|]. cbn.
    apply (step_keeps keccak256 eip7706 fuel config idOf ok (fc_bc fc)); try done. apply Block_Hash_range.
  - destruct r as [e|u].
    + destruct (ForkchoiceUpdate_err _ _ _ _ _ _ FI Hh Hsh Hf E) as [[S M] _]. by apply (fork_moved fc).
    + by destruct (ForkchoiceUpdate_ok _ _ _ _ _ _ FI Hh Hsh Hf E).
  - destruct (Reorg_known keccak256 eip7706 fuel idOf h b _ HI Hh Eg) as (A & _ & D).
    by destruct (ReorgWithValidation_ok b fc fc' r FI (conj A D) E).
Qed.

Lemma fork_reachable_inv ok g (fc : ForkChoice St) : fork_reachable ok g fc -> fork_inv fc.
Proof.
  intros [bc0 HR Hs]. apply reachable_inv in HR. apply new_fork_inv in HR. revert HR.
  induction Hs as [|x y z S _ IH]; intros HI; [done|]. apply IH. by eapply fork_step_inv.
Qed.

Lemma chain_path ok (bc bc' : Blockchain St) hd sf fin :
  rtc (chain_step keccak256 eip7706 fuel config idOf ok) bc bc' ->
  rtc (fork_step ok) (mkForkChoice bc hd sf fin) (mkForkChoice bc' hd sf fin).
Proof.
  induction 1 as [|x y z S _ IH]; [done|]. eapply rtc_l; [|exact IH]. by apply (fork_chain ok (mkForkChoice x hd sf fin)).
Qed.

End Update.

(** C10. However the fork choice and the chain were used before: an accepted
    update makes the named block the head, its finalized block is an ancestor of
    the head, its safe block is not below it and, when named, an ancestor too;
    and no block at or below the finalized height, the old one or the new one,
    is reverted.  A refused update keeps the three pointers, and the chain too,
    unless the re-execution of the reorganisation failed. *)
Theorem forkchoice_keeps_finalized {St : Type} `{ChainState St} keccak256 eip7706 fuel config idOf g (fc fc' : ForkChoice St) h s f r :
  fork_reachable keccak256 eip7706 fuel idOf config anything g fc -> is_Hash h -> is_Hash s -> is_Hash f ->
  ForkchoiceUpdate keccak256 eip7706 fuel h s f fc = Ok r fc' ->
  match r with
  | inr _ => exists hd old hb sb fb, accepted keccak256 eip7706 idOf h s f fc fc' hd old hb sb fb
  | inl e => same_pointers fc fc' /\ (fc' = fc \/ exists x, e = ErrReorg x)
  end.
Proof.
  intros FI%fork_reachable_inv Hh Hs Hf E. destruct r as [e|u].
  - destruct (ForkchoiceUpdate_err _ _ _ _ _ _ _ _ _ _ FI Hh Hs Hf E) as [[S _] K]. by split.
  - by destruct (ForkchoiceUpdate_ok _ _ _ _ _ _ _ _ _ _ FI Hh Hs Hf E).
Qed.

(** The small chain, behind a fork choice that was made with the genesis block. *)
Definition t_fork : ForkChoice (list Hash) := mkForkChoice t_c5 (Some t_g) (Some t_g) (Some t_g).

Abbreviation t_update h s f :=
  (ForkchoiceUpdate t_hash false 100 (Block_Hash t_hash false h) (Block_Hash t_hash false s) (Block_Hash t_hash false f)).

(** An update may name a lower finalized block, and a later one then reverts
    the block that was finalized first. *)
Lemma finality_regresses :
  match (let! r1 := t_update t_a2 t_a2 t_a2 in
         let! fc1 := gget in
         let! r2 := t_update t_a2 t_g t_g in
         let! r3 := t_update t_b2 t_b1 t_g in
         gret (r1, r2, r3, fc1)) t_fork with
  | Ok (inr _, inr _, inr _, fc1) fc =>
      fc_finalized fc1 = Some t_a2 /\ currentBlock (fc_bc fc) = Some t_b2 /\
      canonCache (fc_bc fc) !! 2 = Some (Block_Hash t_hash false t_b2)
  | _ => False
  end.
Proof. vm_compute. split_and!; reflexivity. Qed.

(** An update that moves to another branch and finalizes a block of it is
    refused, although only the genesis block was finalized before. *)
Lemma finalized_branch_refused :
  match t_update t_b2 t_b1 t_b1 t_fork with
  | Ok r fc => r = inl ErrReorgPastFinalized /\ fc_finalized t_fork = Some t_g
  | _ => False
  end.
Proof. vm_compute. split; reflexivity. Qed.

Lemma t_accepted : exists fc, t_update t_b2 t_b1 t_g t_fork = Ok (inr tt) fc.
Proof.
  assert (match t_update t_b2 t_b1 t_g t_fork with Ok (inr tt) _ => true | _ => false end = true) as E by (vm_compute; reflexivity).
  destruct (t_update t_b2 t_b1 t_g t_fork) as [[|[]] fc| | |]; try discriminate E. by exists fc.
Qed.

Lemma forkchoice_keeps_finalized_witness :
  exists fc', t_update t_b2 t_b1 t_g t_fork = Ok (inr tt) fc' /\
    exists hd old hb sb fb, accepted t_hash false t_id (Block_Hash t_hash false t_b2) (Block_Hash t_hash false t_b1)
      (Block_Hash t_hash false t_g) t_fork fc' hd old hb sb fb.
Proof.
  destruct t_accepted as [fc' E]. exists fc'. split; [exact E|].
  apply (forkchoice_keeps_finalized t_hash false 100 t_config t_id t_g t_fork fc' (Block_Hash t_hash false t_b2)
           (Block_Hash t_hash false t_b1) (Block_Hash t_hash false t_g) (inr tt)).
  - apply (fork_reach _ _ _ _ _ _ _ _ t_new).
    + apply t_reached, rtc_refl.
    + apply (chain_path t_hash false 100 t_id t_config anything t_new t_c5 (Some t_g) (Some t_g) (Some t_g)). by apply t_path.
  - apply Block_Hash_range.
  - apply Block_Hash_range.
  - apply Block_Hash_range.
  - exact E.
Defined.
