(* ===== verification/StateRoot.v ===== *)
(** * StateRoot: state and storage roots

    core/state/memory_statedb.go: the storage trie of an account, the account
    trie, [GetRoot], [StorageRoot], [Commit] and the builders of the tries.
    Go visits a map in an arbitrary order; the order is an argument. *)

From stdpp Require Import gmap.
From S2P Require Import Prelude Rlp StateDB MemStateDB Trie.
Local Open Scope Z_scope.
Local Open Scope go_scope.

Fixpoint trimLeadingZeros (b : bytes) : bytes :=
  match b with
  | [] => []
  | v :: rest => if v =? 0 then trimLeadingZeros rest else b
  end.

Section StateRoot.

Context (keccak256 : bytes -> bytes).

(** [t.Put(key, encoded)] for each pair, where an encoding that failed is
    skipped and the error of [Put] is ignored. *)
Fixpoint put_all (entries : list (bytes * eres)) (t : node) : trieRes node :=
  match entries with
  | [] => TDone t
  | (key, EOk val) :: rest =>
      match trie_Put t key val with
      | TDone t' => put_all rest t'
      | TFail _ => put_all rest t
      | TCrash => TCrash
      | TLoop => TLoop
      end
  | (_, EErr _) :: rest => put_all rest t
  | (_, EPanic) :: _ => TCrash
  end.

Definition hash_of (t : node) : trieRes Hash :=
  let* r := trie_Hash keccak256 t in TDone (BytesToHash r.1).

(** *** Storage *)

Definition slot_entry (merged : gmap Z Z) (slot : Hash) : bytes * eres :=
  (keccak256 (be_bytes 32 slot), EncodeToBytes (GBytes (trimLeadingZeros (be_bytes 32 (default 0 (merged !! slot)))))).

Definition storage_trie (order : list Hash) (o : stateObject) : trieRes node :=
  put_all (map (slot_entry (mergeStorage o)) order) NilN.

Definition computeStorageRoot (order : list Hash) (o : stateObject) : trieRes Hash :=
  if bool_decide (mergeStorage o = ∅) then TDone EmptyRootHash
  else let* t := storage_trie order o in hash_of t.

Definition StorageRoot (order : list Hash) (addr : Address) (s : MemoryStateDB) : trieRes Hash :=
  match stateObjects s !! addr with
  | None => TDone EmptyRootHash
  | Some o => computeStorageRoot order o
  end.

(** [None]: the account does not exist or has no storage. *)
Definition BuildStorageTrie (order : list Hash) (addr : Address) (s : MemoryStateDB) : trieRes (option node) :=
  match stateObjects s !! addr with
  | None => TDone None
  | Some o =>
      if bool_decide (mergeStorage o = ∅) then TDone None
      else let* t := storage_trie order o in TDone (Some t)
  end.

(** *** Accounts *)

Definition code_hash (o : stateObject) : bytes :=
  match CodeHash (account o) with [] => be_bytes 32 EmptyCodeHash | h => h end.

(** The RLP form of an account, [rlpAccount]. *)
Definition account_value (o : stateObject) (storageRoot : Hash) : gval :=
  GStruct
    [ (true, GUint (Nonce (account o)));
      (true, GPtr (GBig true (Balance (account o))));
      (true, GBytes (be_bytes 32 storageRoot));
      (true, GBytes (code_hash o)) ].

Definition account_entry (addr : Address) (o : stateObject) (storageRoot : Hash) : bytes * eres :=
  (keccak256 (be_bytes 20 addr), EncodeToBytes (account_value o storageRoot)).

(** The loop over the accounts: those marked as destructed are left out. *)
Fixpoint account_loop (slots : Address -> list Hash) (order : list Address) (s : MemoryStateDB) (t : node) : trieRes node :=
  match order with
  | [] => TDone t
  | addr :: rest =>
      match stateObjects s !! addr with
      | None => account_loop slots rest s t
      | Some o =>
          if selfDestructed o then account_loop slots rest s t
          else
            let* root := computeStorageRoot (slots addr) o in
            let* t := put_all [account_entry addr o root] t in
            account_loop slots rest s t
      end
  end.

Definition BuildStateTrie (slots : Address -> list Hash) (order : list Address) (s : MemoryStateDB) : trieRes node :=
  account_loop slots order s NilN.

Definition GetRoot (slots : Address -> list Hash) (order : list Address) (s : MemoryStateDB) : trieRes Hash :=
  if bool_decide (stateObjects s = ∅) then TDone EmptyRootHash
  else let* t := BuildStateTrie slots order s in hash_of t.

(** *** Commit *)

(** [obj.account.Root = storageRoot] *)
Definition set_root (addr : Address) (root : Hash) (s : MemoryStateDB) : MemoryStateDB :=
  set_objs (alter (set_account (fun c => mkAccount (Nonce c) (Balance c) root (CodeHash c))) addr (stateObjects s)) s.

(** The trie and the state, or the error that stopped the loop. *)
Fixpoint commit_loop (slots : Address -> list Hash) (order : list Address) (s : MemoryStateDB) (t : node)
  : trieRes ((rlp_error + node) * MemoryStateDB) :=
  match order with
  | [] => TDone (inr t, s)
  | addr :: rest =>
      match stateObjects s !! addr with
      | None => commit_loop slots rest s t
      | Some o =>
          if selfDestructed o then commit_loop slots rest s t
          else
            let* root := computeStorageRoot (slots addr) o in
            let s := set_root addr root s in
            let '(key, enc) := account_entry addr o root in
            match enc with
            | EErr e => TDone (inl e, s)
            | _ => let* t := put_all [(key, enc)] t in commit_loop slots rest s t
            end
      end
  end.

(** [order] is the order that sorting the addresses leaves them in. *)
Definition Commit (slots : Address -> list Hash) (order : list Address) (s : MemoryStateDB)
  : trieRes ((rlp_error + Hash) * MemoryStateDB) :=
  let s := flush_storage s in
  if bool_decide (stateObjects s = ∅) then TDone (inr EmptyRootHash, s)
  else
    let* r := commit_loop slots order s NilN in
    match r with
    | (inl e, s) => TDone (inl e, s)
    | (inr t, s) => let* h := hash_of t in TDone (inr h, s)
    end.

End StateRoot.
