(* ===== verification/StateRootProofs.v ===== *)
(** * StateRootProofs: the state root is a function of the content

    Whatever order Go visits its maps in, and whatever is dirty, committed or
    copied, states with the same accounts have the same root. *)

From stdpp Require Import gmap.
From S2P Require Import Prelude Rlp StateDB MemStateDB Trie TrieProofs StateRoot.
Local Open Scope Z_scope.
Local Open Scope go_scope.

(** ** Content *)

(** What the root of an account is computed from. *)
Definition core (o : stateObject) : bool * Z * Z * bytes * gmap Z Z :=
  (selfDestructed o, Nonce (account o), Balance (account o), code_hash o, mergeStorage o).

(** The accounts that exist, with what the state root commits to. *)
Definition content (s : MemoryStateDB) : gmap Z (Z * Z * bytes * gmap Z Z) :=
  omap (fun o => if selfDestructed o then None
                 else Some (Nonce (account o), Balance (account o), code_hash o, mergeStorage o)) (stateObjects s).

(** A list of all the keys of a map, each once. *)
Definition visits {A} (order : list Z) (m : gmap Z A) : Prop := NoDup order /\ forall k, k ∈ order <-> is_Some (m !! k).

(** States that agree on every account up to the cached roots. *)
Definition same_core (s1 s2 : MemoryStateDB) : Prop :=
  forall a, core <$> stateObjects s1 !! a = core <$> stateObjects s2 !! a.

Lemma same_core_content s1 s2 : same_core s1 s2 -> content s1 = content s2.
Proof.
  intros Hc. apply map_eq. intros a. specialize (Hc a). unfold content. rewrite !lookup_omap.
  destruct (stateObjects s1 !! a), (stateObjects s2 !! a); cbn in *; try discriminate Hc; [|done].
  unfold core in Hc. by injection Hc as -> -> -> -> ->.
Qed.

Lemma same_core_dom s1 s2 : same_core s1 s2 -> dom (stateObjects s1) = dom (stateObjects s2).
Proof.
  intros Hc. apply set_eq. intros a. rewrite !elem_of_dom, <- !(fmap_is_Some core). by rewrite Hc.
Qed.

Lemma mergeStorage_flush o : mergeStorage (flush_obj o) = mergeStorage o.
Proof. unfold mergeStorage, flush_obj. cbn [committedStorage dirtyStorage]. by rewrite map_fold_empty. Qed.

Lemma same_core_flush s : same_core (flush_storage s) s.
Proof.
  intros a. unfold flush_storage. cbn [stateObjects set_objs]. rewrite lookup_fmap. destruct (stateObjects s !! a) as [o|]; [|done]. cbn.
  unfold core. by rewrite mergeStorage_flush.
Qed.

Lemma same_core_Copy s : same_core (Copy s) s.
Proof. intros a. unfold Copy. cbn [stateObjects]. rewrite lookup_fmap. by destruct (stateObjects s !! a). Qed.

Lemma same_core_root a root s : same_core (set_root a root s) s.
Proof.
  intros b. unfold set_root. cbn [stateObjects set_objs]. destruct (decide (a = b)) as [->|Hne].
  - rewrite lookup_alter_eq. by destruct (stateObjects s !! b).
  - by rewrite lookup_alter_ne.
Qed.

Lemma same_core_trans s1 s2 s3 : same_core s1 s2 -> same_core s2 s3 -> same_core s1 s3.
Proof. intros H1 H2 a. by rewrite H1. Qed.

(** ** Roots of states that agree *)

Lemma computeStorageRoot_core keccak256 order o1 o2 : core o1 = core o2 -> computeStorageRoot keccak256 order o1 = computeStorageRoot keccak256 order o2.
Proof. unfold core. intros [= _ _ _ _ Em]. unfold computeStorageRoot, storage_trie. by rewrite Em. Qed.

Lemma account_value_core o1 o2 root : core o1 = core o2 -> account_value o1 root = account_value o2 root.
Proof. unfold core. intros [= _ En Eb Eh _]. unfold account_value. by rewrite En, Eb, Eh. Qed.

Lemma account_loop_core keccak256 slots order s1 s2 t :
  same_core s1 s2 -> account_loop keccak256 slots order s1 t = account_loop keccak256 slots order s2 t.
Proof.
  intros Hc. revert t. induction order as [|a rest IH]; intros t; [done|]. cbn [account_loop]. pose proof (Hc a) as Ha.
  destruct (stateObjects s1 !! a) as [o1|], (stateObjects s2 !! a) as [o2|]; try discriminate Ha; [|apply IH].
  apply (inj Some) in Ha. pose proof Ha as Hd. unfold core in Hd. injection Hd as -> _ _ _ _. destruct (selfDestructed o2); [apply IH|].
  rewrite (computeStorageRoot_core _ _ _ _ Ha). destruct (computeStorageRoot keccak256 (slots a) o2) as [r| | |]; cbn [trieBind]; [|done..].
  unfold account_entry. rewrite (account_value_core _ _ _ Ha).
  destruct (put_all _ t); cbn [trieBind]; [apply IH|done..].
Qed.

Lemma commit_loop_core keccak256 slots order s t r s' :
  commit_loop keccak256 slots order s t = TDone (r, s') -> same_core s' s.
Proof.
  revert s t. induction order as [|a rest IH]; intros s t E; cbn [commit_loop] in E; [by injection E as _ <-|].
  destruct (stateObjects s !! a) as [o|]; [|by eapply IH]. destruct (selfDestructed o); [by eapply IH|].
  destruct (computeStorageRoot keccak256 (slots a) o) as [root| | |]; cbn [trieBind] in E; try discriminate E.
  destruct (account_entry keccak256 a o root) as [key enc]. destruct enc as [v|e|].
  - destruct (put_all _ t); cbn [trieBind] in E; try discriminate E. eapply same_core_trans; [by eapply IH|apply same_core_root].
  - injection E as _ <-. apply same_core_root.
  - discriminate E.
Qed.

(** ** Tries from lists of pairs *)

Section Roots.

Context (keccak256 : bytes -> bytes).
Context (keccak_bytes : forall b, Forall is_byte (keccak256 b)).

Abbreviation represents := (represents keccak256).
Abbreviation rootHash := (rootHash keccak256).

Definition put_map (entries : list (bytes * bytes)) (m : gmap bytes bytes) : gmap bytes bytes :=
  fold_left (fun m e => <[e.1 := e.2]> m) entries m.

Lemma put_all_ok entries t m :
  represents t m -> Forall (fun e => Forall is_byte e.1 /\ e.2 <> []) entries ->
  exists t', put_all (map (fun e => (e.1, EOk e.2)) entries) t = TDone t' /\ represents t' (put_map entries m).
Proof.
  intros Hr Hf. revert t m Hr. induction Hf as [|[k v] l [Hk Hv] _ IH]; intros t m Hr; [by exists t|].
  cbn [map put_all fst snd]. destruct (represents_put _ _ _ k v Hk Hv Hr) as (t' & -> & Hr'). by apply IH.
Qed.

Lemma put_map_list entries m : put_map entries m = list_to_map (reverse entries) ∪ m.
Proof.
  revert m. induction entries as [|[k v] l IH]; intros m; cbn [put_map fold_left]; [symmetry; apply (map_empty_union m)|].
  fold (put_map l (<[k := v]> m)). rewrite IH, reverse_cons, list_to_map_app. cbn [list_to_map fst snd foldr].
  rewrite <- map_union_assoc. f_equal. by rewrite insert_union_singleton_l, insert_empty.
Qed.

(** The order of the pairs does not matter. *)
Lemma put_map_perm l1 l2 : NoDup l1.*1 -> l1 ≡ₚ l2 -> put_map l1 ∅ = put_map l2 ∅.
Proof.
  intros Hn Hp. rewrite !put_map_list, !map_union_empty. apply list_to_map_proper.
  - by rewrite reverse_Permutation.
  - by rewrite !reverse_Permutation.
Qed.

Lemma represents_root t1 t2 m : represents t1 m -> represents t2 m -> rootHash t1 = rootHash t2.
Proof.
  intros R1 R2. pose proof (represents_same _ _ _ _ R1 R2) as E. unfold TrieProofs.rootHash.
  destruct t1, t2; try done; by rewrite (nenc_erase _ _ _ E).
Qed.

Lemma hash_of_ok t m : represents t m -> hash_of keccak256 t = TDone (BytesToHash (rootHash t)).
Proof. intros Hr. unfold hash_of. by destruct (represents_hash _ _ _ Hr) as (t' & -> & _). Qed.

(** ** Storage roots *)

Lemma encodeString_nonempty b : encodeString b <> [].
Proof.
  unfold encodeString. destruct b as [|x b]; [done|]. destruct b as [|y b]; [by destruct (x <=? 127)|].
  by destruct (zlen (x :: y :: b) <=? 55).
Qed.

Lemma wrapList_nonempty p : wrapList p <> [].
Proof. unfold wrapList. by destruct (zlen p <=? 55). Qed.

(** No two of the keys have the same hash. *)
Definition no_clash (width : nat) (keys : list Z) : Prop := NoDup (map (fun k => keccak256 (be_bytes width k)) keys).

(** The pair of a slot; the encoding does not fail. *)
Definition slot_pair (merged : gmap Z Z) (slot : Hash) : bytes * bytes :=
  (keccak256 (be_bytes 32 slot), encodeString (trimLeadingZeros (be_bytes 32 (default 0 (merged !! slot))))).

Lemma pairs_ok {A} (f : A -> bytes * bytes) l :
  (forall a, Forall is_byte (f a).1 /\ (f a).2 <> []) -> Forall (fun e => Forall is_byte e.1 /\ e.2 <> []) (map f l).
Proof. intros Hf. apply Forall_fmap, Forall_true. intros a. apply Hf. Qed.

Lemma storage_trie_ok order o :
  exists t, storage_trie keccak256 order o = TDone t /\ represents t (put_map (map (slot_pair (mergeStorage o)) order) ∅).
Proof.
  destruct (put_all_ok (map (slot_pair (mergeStorage o)) order) NilN ∅ (represents_empty _)) as (t & E & Hr).
  { apply pairs_ok. intros a. split; [apply keccak_bytes|apply encodeString_nonempty]. }
  exists t. split; [|done]. unfold storage_trie. by rewrite map_map in E.
Qed.

Lemma computeStorageRoot_total order o : exists r, computeStorageRoot keccak256 order o = TDone r.
Proof.
  unfold computeStorageRoot. destruct (bool_decide _); [by eexists|].
  destruct (storage_trie_ok order o) as (t & -> & Hr). cbn. rewrite (hash_of_ok t _ Hr). by eexists.
Qed.

Lemma visits_perm {A} l1 l2 (m : gmap Z A) : visits l1 m -> visits l2 m -> l1 ≡ₚ l2.
Proof. intros [N1 V1] [N2 V2]. apply NoDup_Permutation; [done..|]. intros k. by rewrite V1, V2. Qed.

(** The order in which the slots are visited does not matter. *)
Lemma computeStorageRoot_order l1 l2 o1 o2 :
  mergeStorage o1 = mergeStorage o2 -> visits l1 (mergeStorage o1) -> visits l2 (mergeStorage o2) -> no_clash 32 l1 ->
  computeStorageRoot keccak256 l1 o1 = computeStorageRoot keccak256 l2 o2.
Proof.
  intros Em V1 V2 Hn. unfold computeStorageRoot. rewrite <- Em. destruct (bool_decide _); [done|].
  destruct (storage_trie_ok l1 o1) as (t1 & -> & R1), (storage_trie_ok l2 o2) as (t2 & -> & R2). cbn.
  rewrite (hash_of_ok t1 _ R1), (hash_of_ok t2 _ R2). do 2 f_equal. eapply represents_root; [done|].
  rewrite <- Em in R2, V2.
  rewrite (put_map_perm (map (slot_pair (mergeStorage o1)) l1) (map (slot_pair (mergeStorage o1)) l2)); [done| |].
  - unfold no_clash in Hn. by rewrite <- list_fmap_compose.
  - apply fmap_Permutation. by eapply visits_perm.
Qed.

(** ** The account trie *)

(** The pair of an account, if it exists. *)
Definition account_pair (slots : Address -> list Hash) (s : MemoryStateDB) (a : Address) : option (bytes * bytes) :=
  match stateObjects s !! a with
  | None => None
  | Some o =>
      if selfDestructed o then None
      else match computeStorageRoot keccak256 (slots a) o with
           | TDone root => match EncodeToBytes (account_value o root) with
                           | EOk v => Some (keccak256 (be_bytes 20 a), v)
                           | _ => None
                           end
           | _ => None
           end
  end.

Lemma account_value_ok o root : exists v, EncodeToBytes (account_value o root) = EOk v /\ v <> [].
Proof. eexists. split; [done|]. apply wrapList_nonempty. Qed.

Lemma account_pair_ok slots s a e :
  account_pair slots s a = Some e -> e.1 = keccak256 (be_bytes 20 a) /\ Forall is_byte e.1 /\ e.2 <> [].
Proof.
  unfold account_pair. destruct (stateObjects s !! a) as [o|]; [|done]. destruct (selfDestructed o); [done|].
  destruct (computeStorageRoot_total (slots a) o) as (r & ->). destruct (account_value_ok o r) as (v & -> & Hv).
  intros [= <-]. split_and!; [done|apply keccak_bytes|done].
Qed.

Lemma account_loop_ok slots order s t m :
  represents t m -> exists t', account_loop keccak256 slots order s t = TDone t' /\
    represents t' (put_map (omap (account_pair slots s) order) m).
Proof.
  revert t m. induction order as [|a rest IH]; intros t m Hr; [by exists t|].
  cbn [account_loop omap list_omap]. pose proof (account_pair_ok slots s a) as Hok. unfold account_pair at 1 in Hok.
  unfold account_pair at 1. destruct (stateObjects s !! a) as [o|]; [|by apply IH].
  destruct (selfDestructed o); [by apply IH|]. destruct (computeStorageRoot_total (slots a) o) as (r & Er). rewrite Er in *.
  cbn [trieBind] in *. unfold account_entry. destruct (account_value_ok o r) as (v & Ev & Hv). rewrite Ev in *.
  destruct (put_all_ok [(keccak256 (be_bytes 20 a), v)] t m Hr) as (t' & Et & Hr').
  { constructor; [|done]. by split; [apply keccak_bytes|]. }
  cbn [map fst snd] in Et. rewrite Et. by apply IH.
Qed.

(** Orders in which the maps of a state can be visited, without collisions of
    the hash function among its keys. *)
Record rootable (slots : Address -> list Hash) (order : list Address) (s : MemoryStateDB) : Prop := {
  ro_order : visits order (stateObjects s);
  ro_clash : no_clash 20 order;
  ro_slots : forall a o, stateObjects s !! a = Some o -> selfDestructed o = false -> visits (slots a) (mergeStorage o);
  ro_slots_clash : forall a o, stateObjects s !! a = Some o -> selfDestructed o = false -> no_clash 32 (slots a);
}.

Lemma content_live s a c :
  content s !! a = Some c <-> exists o, stateObjects s !! a = Some o /\ selfDestructed o = false /\
    c = (Nonce (account o), Balance (account o), code_hash o, mergeStorage o).
Proof.
  unfold content. rewrite lookup_omap_Some. split.
  - intros (o & E & Ho). exists o. destruct (selfDestructed o); [discriminate E|]. by injection E as <-.
  - intros (o & Ho & E & ->). exists o. by rewrite E.
Qed.

Lemma account_pair_live slots s a e : account_pair slots s a = Some e -> is_Some (content s !! a).
Proof.
  unfold account_pair. intros E. destruct (stateObjects s !! a) as [o|] eqn:Eo; [|discriminate E].
  destruct (selfDestructed o) eqn:Ed; [discriminate E|]. eexists. apply content_live. by exists o.
Qed.

(** Equal accounts have equal pairs. *)
Lemma account_pair_same slots1 slots2 order1 order2 s1 s2 a :
  content s1 = content s2 -> rootable slots1 order1 s1 -> rootable slots2 order2 s2 ->
  account_pair slots1 s1 a = account_pair slots2 s2 a.
Proof.
  intros Ec R1 R2. destruct (content s1 !! a) as [c|] eqn:E1.
  - pose proof E1 as E2. rewrite Ec in E2. apply content_live in E1 as (o1 & O1 & D1 & ->), E2 as (o2 & O2 & D2 & E).
    injection E as En Eb Eh Em. unfold account_pair. rewrite O1, O2, D1, D2.
    rewrite (computeStorageRoot_order (slots1 a) (slots2 a) o1 o2);
      [|done|by eapply ro_slots|by eapply ro_slots|by eapply ro_slots_clash].
    unfold account_value. by rewrite En, Eb, Eh.
  - destruct (account_pair slots1 s1 a) eqn:P1; [apply account_pair_live in P1 as [x Hx]; congruence|].
    destruct (account_pair slots2 s2 a) eqn:P2; [apply account_pair_live in P2 as [x Hx]; congruence|done].
Qed.

Lemma pairs_nodup slots s order : no_clash 20 order -> NoDup (omap (account_pair slots s) order).*1.
Proof.
  unfold no_clash. induction order as [|a rest IH]; cbn [map omap list_omap]; [constructor|]. intros [Hn Hr]%NoDup_cons.
  destruct (account_pair slots s a) as [e|] eqn:E; [|by apply IH]. cbn [fmap list_fmap]. apply NoDup_cons. split; [|by apply IH].
  apply account_pair_ok in E as (-> & _). intros (x & Ex & Hx)%list_elem_of_fmap. apply Hn.
  apply list_elem_of_omap in Hx as (b & Hb & Eb). apply account_pair_ok in Eb as (Eb & _). rewrite Ex, Eb.
  apply (list_elem_of_fmap_2 (fun k => keccak256 (be_bytes 20 k))). done.
Qed.

Lemma pairs_perm slots1 slots2 order1 order2 s1 s2 :
  content s1 = content s2 -> rootable slots1 order1 s1 -> rootable slots2 order2 s2 ->
  omap (account_pair slots1 s1) order1 ≡ₚ omap (account_pair slots2 s2) order2.
Proof.
  intros Ec R1 R2. pose proof (fun a => account_pair_same _ _ _ _ _ _ a Ec R1 R2) as K.
  assert (forall slots s order, rootable slots order s -> NoDup (omap (account_pair slots s) order)) as N
    by (intros slots s order [_ Hc _ _]; eapply NoDup_fmap_1; by apply pairs_nodup).
  assert (forall slots s order a e, rootable slots order s -> account_pair slots s a = Some e -> a ∈ order) as V.
  { intros slots s order a e [Ho _ _ _] [c (o & Eo & _)%content_live]%account_pair_live. apply Ho. by rewrite Eo. }
  apply NoDup_Permutation; [by apply N..|]. intros e. rewrite !list_elem_of_omap. split; intros (a & _ & E); exists a.
  - rewrite K in E. split; [by eapply V|done].
  - rewrite <- K in E. split; [by eapply V|done].
Qed.

(** ** State roots *)

Context (keccak_empty : BytesToHash (keccak256 [128]) = EmptyRootHash).

(** The root, from any trie of the pairs; the shortcut for an empty state
    agrees. *)
Lemma GetRoot_ok slots order s :
  visits order (stateObjects s) -> exists t, BuildStateTrie keccak256 slots order s = TDone t /\
    represents t (put_map (omap (account_pair slots s) order) ∅) /\
    GetRoot keccak256 slots order s = TDone (BytesToHash (rootHash t)).
Proof.
  intros [_ Hv]. destruct (account_loop_ok slots order s NilN ∅ (represents_empty _)) as (t & E & Hr).
  exists t. split; [exact E|]. split; [exact Hr|]. unfold GetRoot. destruct (bool_decide_reflect (stateObjects s = ∅)) as [Es|Hs].
  - assert (order = []) as ->.
    { destruct order as [|a l]; [done|]. exfalso. destruct (proj1 (Hv a) ltac:(by left)) as [o Ho]. by rewrite Es in Ho. }
    injection E as <-. cbn. by rewrite <- keccak_empty.
  - unfold BuildStateTrie. rewrite E. cbn. by apply (hash_of_ok t _ Hr).
Qed.

Lemma GetRoot_same slots1 slots2 order1 order2 s1 s2 :
  content s1 = content s2 -> rootable slots1 order1 s1 -> rootable slots2 order2 s2 ->
  exists root, GetRoot keccak256 slots1 order1 s1 = TDone root /\ GetRoot keccak256 slots2 order2 s2 = TDone root.
Proof.
  intros Ec R1 R2. destruct (GetRoot_ok slots1 order1 s1 (ro_order _ _ _ R1)) as (t1 & _ & T1 & ->).
  destruct (GetRoot_ok slots2 order2 s2 (ro_order _ _ _ R2)) as (t2 & _ & T2 & ->). eexists. split; [done|].
  do 2 f_equal. symmetry. eapply represents_root; [done|].
  rewrite (put_map_perm _ _ (pairs_nodup _ _ _ (ro_clash _ _ _ R1)) (pairs_perm _ _ _ _ _ _ Ec R1 R2)). done.
Qed.

(** *** Commit *)

Lemma commit_loop_ok slots order s t t' :
  account_loop keccak256 slots order s t = TDone t' ->
  exists s', commit_loop keccak256 slots order s t = TDone (inr t', s') /\ same_core s' s.
Proof.
  revert s t. induction order as [|a rest IH]; intros s t E; cbn [account_loop commit_loop] in *.
  { injection E as <-. by exists s. }
  destruct (stateObjects s !! a) as [o|]; [|by apply IH]. destruct (selfDestructed o); [by apply IH|].
  destruct (computeStorageRoot_total (slots a) o) as (r & Er). rewrite Er in *. cbn [trieBind] in *.
  destruct (account_entry keccak256 a o r) as [key enc] eqn:Ee. unfold account_entry in Ee.
  destruct (account_value_ok o r) as (v & Ev & _). rewrite Ev in Ee. injection Ee as <- <-.
  destruct (put_all _ t) as [t1| | |]; cbn [trieBind] in *; try discriminate E.
  rewrite <- (account_loop_core keccak256 slots rest (set_root a r s) s t1) in E by apply same_core_root.
  destruct (IH _ _ E) as (s' & -> & Hc). exists s'. split; [done|]. eapply same_core_trans; [done|apply same_core_root].
Qed.

(** [Commit] returns the root and keeps the content. *)
Lemma Commit_ok slots order s :
  visits order (stateObjects s) -> exists root s',
    GetRoot keccak256 slots order s = TDone root /\ Commit keccak256 slots order s = TDone (inr root, s') /\ same_core s' s.
Proof.
  intros Hv. destruct (GetRoot_ok slots order s Hv) as (t & E & Hr & ->). unfold Commit.
  assert (stateObjects (flush_storage s) = ∅ <-> stateObjects s = ∅) as Hz by (apply fmap_empty_iff).
  destruct (bool_decide_reflect (stateObjects (flush_storage s) = ∅)) as [Es|Hs].
  - exists (BytesToHash (rootHash t)), (flush_storage s). split; [done|]. split; [|apply same_core_flush]. do 3 f_equal.
    assert (order = []) as ->.
    { destruct order as [|a l]; [done|]. exfalso. destruct (proj1 (proj2 Hv a) ltac:(by left)) as [o Ho].
      by rewrite (proj1 Hz Es) in Ho. }
    injection E as <-. cbn. by rewrite <- keccak_empty.
  - unfold BuildStateTrie in E. rewrite <- (account_loop_core keccak256 slots order (flush_storage s)) in E by apply same_core_flush.
    destruct (commit_loop_ok _ _ _ _ _ E) as (s' & -> & Hc). cbn [trieBind]. rewrite (hash_of_ok t _ Hr). cbn [trieBind].
    eexists _, s'. split; [done|]. split; [done|]. eapply same_core_trans; [done|apply same_core_flush].
Qed.

End Roots.

(** C16. The state root is a function of the accounts: two states with the same
    existing accounts (nonce, balance, code hash and non-zero storage) have the
    same root, in whatever order their maps are visited, whichever part of the
    storage is dirty, and whatever accounts are marked as destructed. Committing
    or copying a state does not change its accounts, and [Commit] returns the
    root [GetRoot] computes. *)
Theorem state_root_canonical keccak256 slots1 slots2 order1 order2 s1 s2 :
  (forall b, Forall is_byte (keccak256 b)) -> BytesToHash (keccak256 [128]) = EmptyRootHash ->
  content s1 = content s2 -> rootable keccak256 slots1 order1 s1 -> rootable keccak256 slots2 order2 s2 ->
  exists root s', GetRoot keccak256 slots1 order1 s1 = TDone root /\ GetRoot keccak256 slots2 order2 s2 = TDone root /\
    Commit keccak256 slots1 order1 s1 = TDone (inr root, s') /\ content s' = content s1 /\ content (Copy s1) = content s1.
Proof.
  intros Kb Ke Ec R1 R2. destruct (GetRoot_same keccak256 Kb Ke _ _ _ _ _ _ Ec R1 R2) as (root & E1 & E2).
  destruct (Commit_ok keccak256 Kb Ke slots1 order1 s1 (ro_order _ _ _ _ R1)) as (root' & s' & E1' & E3 & Hc).
  rewrite E1 in E1'. injection E1' as <-. exists root, s'. split_and!; try done.
  - by apply same_core_content.
  - apply same_core_content, same_core_Copy.
Qed.

(** A hash for the example, with the value of the empty trie. *)
Definition s_hash (b : bytes) : bytes :=
  be_bytes 32 (if bool_decide (b = [128]) then EmptyRootHash
               else fold_left (fun a x => Z.land (a * 33 + x + 1) 0x1FFFFFFFFFFFFFFF) b 0).

(** The same accounts: with a dirty slot and a destructed account, and plain. *)
Definition s_account (dirty committed : gmap Z Z) (destructed : bool) : stateObject :=
  mkObject (mkAccount 3 1000 EmptyRootHash []) [] dirty committed destructed 0.

Definition s_dirty : MemoryStateDB :=
  set_objs {[7 := s_account {[1 := 5]} {[1 := 4; 2 := 9]} false; 8 := s_account ∅ ∅ true]} NewMemoryStateDB.

Definition s_plain : MemoryStateDB :=
  set_objs {[7 := s_account ∅ {[1 := 5; 2 := 9]} false]} NewMemoryStateDB.

Definition s_visits {A} (order : list Z) (m : gmap Z A) : bool :=
  bool_decide (NoDup order) && bool_decide (list_to_set order = dom m).

Lemma s_visits_ok {A} order (m : gmap Z A) : s_visits order m = true -> visits order m.
Proof.
  intros [Hn%bool_decide_eq_true Hd%bool_decide_eq_true]%andb_true_iff. split; [done|]. intros k.
  by rewrite <- elem_of_dom, <- Hd, elem_of_list_to_set.
Qed.

Lemma state_root_canonical_witness :
  exists root s', GetRoot s_hash (fun _ => [1; 2]) [7; 8] s_dirty = TDone root /\ GetRoot s_hash (fun _ => [2; 1]) [7] s_plain = TDone root /\
    Commit s_hash (fun _ => [1; 2]) [7; 8] s_dirty = TDone (inr root, s') /\ content s' = content s_dirty /\
    content (Copy s_dirty) = content s_dirty.
Proof.
  apply (state_root_canonical s_hash (fun _ => [1; 2]) (fun _ => [2; 1]) [7; 8] [7] s_dirty s_plain).
  - intros b. apply be_bytes_bytes.
  - vm_compute. reflexivity.
  - vm_compute. reflexivity.
  - split.
    + apply s_visits_ok. vm_compute. reflexivity.
    + unfold no_clash. apply (bool_decide_unpack _). vm_compute. exact I.
    + intros a o E D. unfold s_dirty in E. cbn [stateObjects set_objs] in E. apply lookup_insert_Some in E as [[<- <-]|[_ E]].
      * apply s_visits_ok. vm_compute. reflexivity.
      * apply lookup_singleton_Some in E as [<- <-]. discriminate D.
    + intros a o E D. unfold no_clash. apply (bool_decide_unpack _). vm_compute. exact I.
  - split.
    + apply s_visits_ok. vm_compute. reflexivity.
    + unfold no_clash. apply (bool_decide_unpack _). vm_compute. exact I.
    + intros a o E D. unfold s_plain in E. cbn [stateObjects set_objs] in E. apply lookup_singleton_Some in E as [<- <-].
      apply s_visits_ok. vm_compute. reflexivity.
    + intros a o E D. unfold no_clash. apply (bool_decide_unpack _). vm_compute. exact I.
Defined.

(** A credit to an account that does not exist, and its revert, change the
    state root: the account stays behind, empty. *)
Lemma reverted_credit_changes_root :
  let '(id, s) := journal_snapshot s_plain in
  match revertToSnapshot id (mem_AddBalance 9 1 s) with
  | Some s' => content s' !! 9 = Some (0, 0, be_bytes 32 EmptyCodeHash, ∅) /\ content s_plain !! 9 = None /\
      mem_GetBalance s' 9 = mem_GetBalance s_plain 9 /\
      GetRoot s_hash (fun _ => [1; 2]) [7; 9] s' <> GetRoot s_hash (fun _ => [1; 2]) [7] s_plain
  | None => False
  end.
Proof. vm_compute. split_and!; [reflexivity..|]. intros [=]. Qed.
