(* ===== verification/ChainMem.v ===== *)
(** * ChainMem: the block chain over the in-memory state database

    What [Chain] demands of a state database and of block execution, given by
    [MemStateDB], [StateRoot] and [BlockProcessor], with its laws. *)

From stdpp Require Import gmap.
From S2P Require Import Prelude Rlp StateDB MemStateDB Trie StateRoot StateRootProofs Transactions Machine ChainConfig Blocks.
From S2P Require Import TxState Processor BlockProcessor BlockStore Chain.
Local Open Scope Z_scope.
Local Open Scope go_scope.

Section ChainMem.

Context (keccak256 : bytes -> bytes).
Context (PrecompiledContractsCancun PrecompiledContractsGlamsterdan PrecompiledContractsIPlus
         : gmap Z PrecompiledContract).
Context (rvrun : bytes -> bytes -> Z -> bytes * option vmerr).
Context (Ecrecover : bytes -> bytes -> option bytes).
Context (fuel feeFuel : nat).
Context (config : ChainConfig).

#[local] Existing Instance MemStateDB_ops.

(** The orders in which the maps are visited: one of those Go may choose. *)
Definition slot_order (s : MemoryStateDB) (a : Address) : list Hash :=
  match stateObjects s !! a with Some o => elements (dom (mergeStorage o)) | None => [] end.

Definition account_order (s : MemoryStateDB) : list Address := elements (dom (stateObjects s)).

Definition mem_GetRoot (s : MemoryStateDB) : out unit Hash :=
  match GetRoot keccak256 (slot_order s) (account_order s) s with
  | TDone root => Ok root tt
  | TFail _ | TCrash => Panic PSlice
  | TLoop => Fuel
  end.

(** The state that [Commit] leaves; it always returns ([Commit_ok]). *)
Definition mem_Commit (s : MemoryStateDB) : MemoryStateDB :=
  match Commit keccak256 (slot_order s) (account_order s) s with
  | TDone (_, s') => s'
  | _ => s
  end.

(** [ProcessWithBAL] on the state alone: the gas pool and the tracker belong to
    the call. *)
Definition mem_Process (getHash : Z -> Hash) (b : Block) : M MemoryStateDB (block_error + ProcessResult) := fun db =>
  match ProcessWithBAL (DB := MemoryStateDB) (H := MemStateDB_ops keccak256) keccak256 PrecompiledContractsCancun
          PrecompiledContractsGlamsterdan PrecompiledContractsIPlus rvrun Ecrecover fuel feeFuel config (Some getHash) b
          (mkP db 0 None) with
  | Ok r s => Ok r (p_db s)
  | Err e ret s => Err e ret (p_db s)
  | Panic p => Panic p
  | Fuel => Fuel
  end.

Definition mem_Requests (h : Header) (db : MemoryStateDB) : MemoryStateDB :=
  (ProcessRequests (DB := MemoryStateDB) (H := MemStateDB_ops keccak256) config h db).2.

#[export] Instance MemChainState : ChainState MemoryStateDB := {
  cs_Dup := Copy;
  cs_Process := mem_Process;
  cs_Requests := mem_Requests;
  cs_GetRoot := mem_GetRoot;
  cs_Commit := mem_Commit;
}.

(** States that agree are visited in the same order. *)
Lemma same_core_orders s1 s2 :
  same_core s1 s2 -> account_order s1 = account_order s2 /\ forall a, slot_order s1 a = slot_order s2 a.
Proof.
  intros Hc. unfold account_order, slot_order. split; [by rewrite (same_core_dom _ _ Hc)|]. intros a. specialize (Hc a).
  destruct (stateObjects s1 !! a) as [o1|], (stateObjects s2 !! a) as [o2|]; try discriminate Hc; [|done].
  apply (inj Some) in Hc. unfold core in Hc. by injection Hc as _ _ _ _ ->.
Qed.

Lemma account_loop_slots slots1 slots2 order s t :
  (forall a, slots1 a = slots2 a) -> account_loop keccak256 slots1 order s t = account_loop keccak256 slots2 order s t.
Proof.
  intros Hs. revert t. induction order as [|a rest IH]; intros t; [done|]. cbn [account_loop].
  destruct (stateObjects s !! a) as [o|]; [|apply IH]. destruct (selfDestructed o); [apply IH|]. rewrite Hs.
  destruct (computeStorageRoot keccak256 (slots2 a) o); cbn [trieBind]; [|done..]. destruct (put_all _ t); cbn [trieBind]; [apply IH|done..].
Qed.

Lemma mem_GetRoot_core s1 s2 : same_core s1 s2 -> mem_GetRoot s1 = mem_GetRoot s2.
Proof.
  intros Hc. destruct (same_core_orders _ _ Hc) as [Eo Es]. unfold mem_GetRoot, GetRoot, BuildStateTrie. rewrite Eo.
  rewrite (account_loop_core keccak256 _ _ _ _ _ Hc), (account_loop_slots _ _ _ _ _ Es).
  assert (stateObjects s1 = ∅ <-> stateObjects s2 = ∅) as Hz by (rewrite <- !dom_empty_iff_L; by rewrite (same_core_dom _ _ Hc)).
  by rewrite (bool_decide_ext _ _ Hz).
Qed.

Lemma mem_Commit_core s : same_core (mem_Commit s) s.
Proof.
  unfold mem_Commit, Commit. destruct (bool_decide _); [apply same_core_flush|].
  destruct (commit_loop _ _ _ _ _) as [[[e|t] s']| | |] eqn:E; cbn [trieBind]; try done.
  - eapply same_core_trans; [by eapply commit_loop_core|apply same_core_flush].
  - destruct (hash_of keccak256 t); cbn [trieBind]; try done.
    eapply same_core_trans; [by eapply commit_loop_core|apply same_core_flush].
Qed.

#[export] Instance MemChainLaws : ChainStateLaws MemoryStateDB.
Proof.
  split; intros s; apply mem_GetRoot_core; [apply same_core_Copy|apply mem_Commit_core].
Qed.

End ChainMem.
